(* ===== verification/_CoqProject ===== *)
-Q . S2P
Prelude.v
KcpConv.v
Frames.v
Identity.v
Double.v
Routes.v
RouteInvariant.v
Admission.v
Tunnel.v
Envelope.v
TunnelProofs.v
Gossip.v
Ingress.v
IngressProofs.v
Json.v
EdgeMessage.v
KcpSession.v
KcpManager.v
KcpManagerProofs.v
KcpLoop.v
KcpDemo.v
Proactor.v
ProactorProofs.v
TcpServer.v
TcpServerProofs.v
TcpDemo.v
FileStore.v
RouteJson.v
RouteJsonProofs.v
IdentityFile.v
IdentityFileProofs.v
Discovery.v
DiscoveryLines.v
DiscoveryProofs.v
DiscoverySession.v
DiscoveryLinks.v
DiscoveryDemo.v
CommandLine.v
CommandLineProofs.v
CommandLineDemo.v
Kafka.v
KafkaProofs.v
Redis.v
RedisProofs.v
Egress.v
EgressProofs.v
Business.v
Runtime.v
RuntimeProofs.v
Mpmc.v
MpmcProofs.v
SizeClass.v
PageHeap.v
PageHeapInv.v
PageHeapProofs.v
PageHeapOps.v
PageHeapPurge.v
FreeList.v
Allocator.v
AllocParts.v
AllocCentral.v
AllocTransfer.v
AllocThread.v
AllocProofs.v
MiniMalloc.v
ObjectPool.v
Sipfw.v
SipfwHeap.v
SipfwRules.v
SipfwProofs.v
SipfwFile.v
SipfwLoad.v
SipfwNetlink.v
SipfwNetlinkProofs.v
SipfwMatch.v
SipfwModule.v
SipfwModuleProofs.v
SipfwTool.v
SipfwToolProofs.v
SipfwDemo.v
