(* ===== verification/Prelude.v ===== *)
(** * Verification of the IoT proxy

    This library models the proxy of the repository ([src/iota_proxy]), parts of the
    networking library below it ([src/myring]) and the firewall of its hosts ([src/SIPFW]),
    and proves what makes them correct.

    ** The program

    A node of the proxy accepts TCP connections of edge devices, cuts their byte streams
    into frames, and carries the frames through a mesh of nodes connected by KCP links; at
    the target the bytes are written to a TCP connection the node opens.  On the way every
    frame is recorded in Redis (deduplication), published to Kafka and replicated to
    the other nodes by a broadcast with a TTL.  A route table with scores chooses next hops,
    admission control limits streams and bytes.

    The parts call each other through callbacks set up by [ProxyRuntime]:
    TcpIngress -> ProxyRuntime (admission) -> PassThroughBusiness -> EdgeDataPipeline
    (Redis, Kafka), KcpTunnel (replication, then unicast to the default next hop of
    RouteManager) -> KcpTunnel of the next node -> PassThroughBusiness -> TcpEgress.
    DiscoveryService speaks to other nodes over TCP: it authenticates them by Ed25519
    signatures, exchanges routes, fills the RouteManager and asks the KcpTunnel for links.

    SIPFW is a packet filter: a kernel module keeps three chains of rules, a list that commands
    change and a snapshot of it that the hooks read, and a tool sends the commands by netlink.

    ** Files and sources

    - [Prelude]: machine integers ([wrap], [fits]), bytes, strings, [std::to_string], the
      iteration order of an unordered map, tactics and the hint database [iota].
    - [KcpConv]: the 32-byte identifiers of nodes and conversations
      (myring/include/Kcp/KcpConv.hpp).
    - [Frames]: frame/TunnelFrame.cpp and frame/EdgeDataFrame.cpp, at byte level.
    - [Identity]: the text codecs of business/NodeIdentity.cpp and common/Endpoint.cpp.
    - [Double]: IEEE double arithmetic on the standard library's [SpecFloat].
    - [Routes], [RouteInvariant]: discovery/RouteManager.cpp.  [RouteManager] is the record
      of the class; every method that changes the table is a function on it.
    - [Admission]: admission/AdmissionControl.cpp, with its token bucket in doubles.
    - [Tunnel], [Envelope], [TunnelProofs]: kcp/KcpTunnel.cpp.  Packets handed to the KCP
      manager are values ([Send]) in the result of an operation.
    - [Gossip]: a network of tunnels as a step relation.
    - [Ingress], [IngressProofs]: network/TcpIngress.cpp.  Handlers return the events and the
      calls on connections they make, in order.
    - [Json]: the operations of nlohmann::json the program uses, as classes [JsonApi] and
      [JsonFileApi] with their laws, and an instance that satisfies them.
    - [EdgeMessage]: business/EdgeDataMessage.cpp.
    - [KcpSession]: myring/src/Kcp/KcpSession.cpp over a class [Ikcp] of the operations of ikcp.
    - [KcpManager], [KcpManagerProofs], [KcpLoop], [KcpDemo]: myring/src/Kcp/KcpManager.cpp and
      UdpDispatcher.cpp.  Handlers run in a state monad [K]; the steps of the loop are the events
      of [loop_step] (datagrams, ticks, posted tasks, calls of other threads).
    - [Proactor], [ProactorProofs]: the event loop of myring/src/Proactor/Proactor.cpp and
      ProactorThread.cpp, access by access, with the ring as queues of request addresses.
    - [TcpServer], [TcpServerProofs], [TcpDemo]: myring/src/TcpServer.cpp, TcpConnection.cpp and
      the accept handler of Proactor/LoopThreadPool.cpp.  A handler is its critical section,
      followed by the list of actions its thread has still to do.
    - [FileStore]: the file system as the program uses it (write a temporary file, rename it).
    - [RouteJson], [RouteJsonProofs]: the JSON file of discovery/RouteManager.cpp.
    - [IdentityFile], [IdentityFileProofs]: keys, signatures and the identity file of
      business/NodeIdentity.cpp, over a class [Ed25519].
    - [Discovery], [DiscoveryLines], [DiscoveryProofs], [DiscoverySession], [DiscoveryLinks],
      [DiscoveryDemo]: discovery/DiscoveryService.cpp.  Handlers run in a state and exception
      monad [D] over [DState] (route manager, lists of nodes, sockets, the trace of calls of
      the tunnel); a socket is the script of the results of its system calls.
    - [Redis], [RedisProofs]: business/RedisStateCache.cpp and business/EdgeDataPipeline.cpp.
    - [Egress], [EgressProofs]: network/TcpEgress.cpp.  [Stream] objects live in a store, as
      the shared pointers of the code do, and the accesses of concurrent threads are parts
      that can be interleaved.
    - [Business]: business/PassThroughBusiness.cpp over abstract callbacks.
    - [Runtime], [RuntimeProofs]: the callbacks of ProxyRuntime.cpp, which close the loop.
    - [CommandLine], [CommandLineProofs], [CommandLineDemo]: app/main.cpp, from the arguments and
      the configuration file to the configuration the runtime is built with and its start.
    - [Kafka], [KafkaProofs]: business/KafkaSink.cpp and business/KafkaBroadcastSource.cpp, in a
      monad [Rd] over the objects of librdkafka; the steps of the thread and of [start] and [stop]
      are the events of [source_event].
    - [Mpmc], [MpmcProofs]: the lock-free queue of myring/include/NoMtxQueue, one atomic
      access per step.
    - [SizeClass]: myring/include/tcmalloc/SizeClass.hpp.
    - [PageHeap], [PageHeapInv], [PageHeapProofs], [PageHeapOps], [PageHeapPurge]:
      myring/src/tcmalloc/PageHeap.cpp.  [Span] objects live in a store of handles; the tables
      of the class are fields of the record [PageHeap].
    - [FreeList]: myring/include/tcmalloc/FreeList.hpp, with the links in a memory of words.
    - [Allocator]: CentralCache.cpp, TransferCache.cpp, ThreadCache.cpp and MiniMalloc.cpp of
      myring/src/tcmalloc, over one state [Allocator]; assertions are guards.
    - [AllocParts]: who owns which object, and the invariant of the allocator as a
      separation of the objects into the places they can be in.
    - [AllocCentral], [AllocTransfer], [AllocThread], [AllocProofs]: the caches keep it.
    - [MiniMalloc]: the allocator as its users see it.
    - [ObjectPool]: myring/include/objectpool/ObjectPool.hpp, one atomic access per step, over the
      promise of the allocator that a new block is fresh (class [PoolEnv]).
    - [Sipfw]: the data of the firewall (SIPFW/module/sipfw.h, sipfw_para.h), its memory, and the
      commands and snapshots of sipfw_k_nl.c and sipfw_k_common.c, in a monad [F] over the state
      [Sipfw] in which bad accesses are faults.
    - [SipfwHeap], [SipfwRules], [SipfwProofs]: what the memory represents ([rep]),
      and that each command refines an operation on lists.
    - [SipfwFile], [SipfwLoad]: the log, the file of rules and the configuration
      file (sipfw_k_file.c).
    - [SipfwNetlink], [SipfwNetlinkProofs]: the messages of sipfw_k_nl.c.
    - [SipfwMatch]: packets and rules (sipfw_k_common.c, the hooks of sipfw_k.c).
    - [SipfwModule], [SipfwModuleProofs]: sipfw_k_proc.c, and start and end of the module (sipfw_k.c).
    - [SipfwTool], [SipfwToolProofs]: the tool (SIPFW/app/sipfw_u.c) and its talk with the module.
    - [SipfwDemo]: a kernel that satisfies the hypotheses, witnesses, and runs that go wrong.

    ** What the theorems show

    Where a group holds only under conditions they are named here and in the comments of its
    theorems; what happens without them is shown by the examples at the end of the list.

    - Data path: the bytes of an accepted edge frame reach the socket of its stream at the
      target ([RuntimeProofs]); refused connections and data have no other effect.
    - Routing: the table invariant under all operations, loads of any file included (a load can
      overwrite links without uncounting them, which the invariant counts), the limits of the
      table, and that the selections return live and best-scored entries ([RouteInvariant],
      [RouteJsonProofs]).
    - Broadcasts: at-most-once delivery while the duplicate cache is not full, what is delivered
      and relayed, to whom, and that relayed and rebroadcast packets die out in every network of
      bounded fan-out and TTL ([TunnelProofs], [Gossip]).
    - Discovery: the invariant of the service over any number of starts and stops; a TCP session
      changes the table for a peer only after a hello signed by the key of that peer, and an honest
      hello is accepted; the routes a node sends are in the table of its peer, if there is room;
      links are opened only below the limit and messages do not drop the links of other peers;
      reading the answer of a bootstrap node ends ([DiscoveryProofs], [DiscoverySession],
      [DiscoveryLinks]).
    - Files: a saved route table is read back, a damaged one changes nothing and never breaks
      the invariant, a failed save leaves the old file; an identity file restores the key, when
      the file system writes what it is given ([RouteJsonProofs], [IdentityFileProofs]).
    - Command line: which setting wins, that only valid configurations are started, that a
      restart keeps the identity of the node, and which files the program leaves alone
      ([CommandLineProofs]).
    - Framing: the frames delivered are those of the byte stream however it is cut, as long as
      reads and frames together stay within the limit of the buffer; one Connected and one Closed
      event per stream, as long as descriptors of new connections are new ([IngressProofs]).
    - Codecs: tunnel frames, edge frames, broadcast envelopes, node addresses, Kafka messages,
      Base64 and Redis commands round-trip, and the decoders accept nothing else.
    - KCP, as long as memory for requests is found and no request is lost: every session that
      waits for an update keeps its timer and a tick is always under way; a tick ends and serves
      exactly the sessions that are due; datagrams reach only the session of their sender
      ([KcpLoop]).
    - Event loop, as long as [io_uring_submit] does not fail: every request has one owner and ends
      once, completions never hit a request that is gone, and no wake-up is lost
      ([ProactorProofs]).
    - TCP server, as long as the first request of an accepted connection can be made: descriptors
      are closed exactly once and the end of every connection is reported exactly once, and [stop]
      leaves no connection open ([TcpServerProofs]).
    - Concurrency: each socket of the egress is closed once, and once more if its reader thread
      could not be created ([EgressProofs]; clearing the flag and closing are separate steps), the
      queue is FIFO under every interleaving ([MpmcProofs]).
    - Memory: blocks handed out by the allocator never overlap and are never written to by
      it, frees of live blocks never fail an assertion, no memory is lost ([MiniMalloc]); the
      page heap keeps disjoint, fully coalesced spans under every interleaving
      ([PageHeapPurge]); the intrusive list refines a list ([FreeList]).
    - Object pool: the limit holds, and counters, objects and blocks agree under every
      interleaving ([ObjectPool]).
    - Kafka: what is acknowledged to the caller is queued once and in order, a message below the
      committed offset has been passed to the sender (successfully or not), [stop] ends, and no
      object of the library is leaked or used after it is gone ([KafkaProofs]).
    - Redis: over a connection that does not break, duplicates are exactly the ids seen before
      ([RedisProofs]).
    - Firewall: commands do to the linked lists and snapshots what they do to lists, a packet gets
      the verdict of the first rule that matches while the firewall is enabled, saved rules are
      loaded again, no sequence of events faults or leaks memory on a system without a
      configuration file, and every command of the tool is answered when memory and messages are
      not lost ([SipfwNetlinkProofs], [SipfwMatch], [SipfwLoad], [SipfwModuleProofs],
      [SipfwToolProofs]).
    - Limits: admission control counts every stream and, when bytes are limited, every byte
      ([Admission]).
    - Some theorems state behaviour the code should not have: a write to a closed
      descriptor, a socket closed twice after a failed thread, a reopened stream that is lost,
      links a load of the route file forgets, messages lost after a broken Redis
      connection or without peers, well-formed pipelined frames that close the connection,
      JSON messages that end a thread with an exception, hellos that can be replayed, a tick that
      is lost for good, requests freed while the kernel has them, a loop that waits for itself,
      connections that are taken for another one with the same descriptor, a configuration file
      that keeps the firewall from starting, packets that no rule matches, a message from Kafka
      that fails and is committed by the next one, and a failure the object pool counts twice.

    ** Parameters

    Code outside the repository is an argument of the definitions: the clocks, [RAND_bytes],
    [inet_pton], [std::pow], the iteration order of unordered maps (class [IterOrder]),
    nlohmann::json ([JsonApi], [JsonFileApi]), OpenSSL ([Ed25519], [EvpEnv]), the file system
    ([FsEnv]), the environment of the process ([HOME] and the compiled-in configuration
    directory), the sockets of the Redis client (its operations, with a
    server, class [RedisServer], behind them in the proofs), ikcp ([Ikcp], [IkcpReceive]), the
    clock and memory of the KCP manager ([KcpEnv]), the heap algorithms of the standard library
    ([HeapAlgorithms]), the results of io_uring (which submits all prepared entries or fails), the
    results of librdkafka ([RdKafka]; an offset that is committed is where the next consumer starts),
    the constructors of pooled objects ([PoolEnv]), whether a reader thread of the egress can be
    created, and the memory [operator new] returns (fresh and page aligned).  The kernel
    below the firewall is the class [KernelEnv]: where new memory is (fresh), and which
    allocations, file accesses, netlink messages and other calls succeed, one result per tick.
    The tool starts from what [getopt_long] returns; [inet_addr] is the class [ToolEnv].

    ** Bounds and fuel

    - [std::to_string] prints with 20 digits of fuel, enough for 64 bits.
    - The allocation of a local stream id turns at most twice (it only skips 0).
    - The framing loop has the length of the buffer plus one as fuel; every turn consumes a
      header.
    - Reading a line of a Redis reply stops at 1 MiB, as the code does.
    - A line of the discovery protocol is limited to 1 MiB, as in the code; the loop over the
      messages of a bootstrap node has the length of the input as fuel.
    - Coalescing has the number of span objects plus one as fuel; every turn deletes one.
      The loops over a free list have its size, and [release_all] the size of each list.
    - [scavenge] makes the 36 rounds of the code; two are shown to be enough.
    - The loop of a tick has the number of timers plus one as fuel, the loop that drains a session
      the number of its complete messages plus one, and the loop over the lines of the TCP server
      the length of the buffer plus one; all are shown to be enough.
    - The KCP theorems hold while the clock is below 2^62 milliseconds.
    - The theorem on the object pool holds for fewer than 2^64 steps, so that no count of objects
      wraps around; the constructor has the number of accesses of [prewarm], shown to be enough.
    - The queue theorems hold for up to 2^62 pushes, so that no counter wraps around.
    - Loops along a chain of the firewall have the number of rules in memory plus one as fuel, the
      loops over messages and records the length of the input plus one; all are shown to be enough
      while a chain has fewer than 2^31 - 1 rules.  The loop over the configuration file has any
      fuel: it is shown never to end.

    ** Not modelled

    ikcp, the order in which the runtime starts and stops its parts, log output.  In [Runtime] the reader
    threads of the egress can be created ([Egress] has both cases).  The
    Kafka topic has one partition and one consumer, and delivery reports, which are only logged, are
    left out.  Of the TCP server the creation of the listening socket is left out, of the event loop what the kernel does with a request.  Of the discovery
    service the accept loop and the set-up of the listening socket are left out.  Serializing
    JSON is total, which holds for UTF-8 strings.  The interleavings of [Mpmc] are
    sequentially consistent.  A call of the allocator is one step; the critical sections of
    the page heap can be interleaved.  Its containers and [operator new] for its own
    objects are assumed to succeed.  In the firewall a critical section, a read of a snapshot and
    a save of the file of rules are one step, so that two saves at the same time are left out;
    debug output is left out. *)
From Stdlib Require Export ZArith Lia Strings.Byte.
From stdpp Require Export base gmap sets list strings.
From stdpp Require Import countable.

#[export] Set Default Goal Selector "!".

Global Open Scope Z_scope.

(** ** Tactics shared by the development *)

(** Split every boolean conjunction and disjunction known to hold, and turn
    boolean comparisons on integers into propositions. *)
Ltac bool_norm :=
  repeat match goal with
  | H : _ && _ = true |- _ => apply andb_prop in H; destruct H
  | H : _ || _ = false |- _ => apply orb_false_elim in H; destruct H
  | H : negb _ = true |- _ => apply negb_true_iff in H
  | H : negb _ = false |- _ => apply negb_false_iff in H
  | H : (_ =? _) = true |- _ => apply Z.eqb_eq in H
  | H : (_ =? _) = false |- _ => apply Z.eqb_neq in H
  | H : (_ <=? _) = true |- _ => apply Z.leb_le in H
  | H : (_ <=? _) = false |- _ => apply Z.leb_gt in H
  | H : (_ <? _) = true |- _ => apply Z.ltb_lt in H
  | H : (_ <? _) = false |- _ => apply Z.ltb_ge in H
  | H : bool_decide _ = true |- _ => apply bool_decide_eq_true in H
  | H : bool_decide _ = false |- _ => apply bool_decide_eq_false in H
  end.

(** Case analysis on the condition of an [if] or the scrutinee of a [match]
    in the goal, innermost first, keeping the equation. *)
Ltac case_cond :=
  match goal with
  | |- context [if ?b then _ else _] =>
      lazymatch b with
      | context [if _ then _ else _] => fail
      | context [match _ with _ => _ end] => fail
      | _ => let E := fresh "E" in destruct b eqn:E
      end
  end.

Ltac case_cond_in H :=
  match type of H with
  | context [if ?b then _ else _] =>
      lazymatch b with
      | context [if _ then _ else _] => fail
      | context [match _ with _ => _ end] => fail
      | _ => let E := fresh "E" in destruct b eqn:E
      end
  end.

Create HintDb iota discriminated.
#[export] Hint Constants Opaque : iota.
Create Rewrite HintDb iota_len.

(** ** Machine integers

    An unsigned integer of width [w] is an integer [z] with
    [0 <= z < 2^w]; a conversion to the width is [wrap w]. *)
Definition wrap (w z : Z) : Z := z mod 2 ^ w.
Definition fits (w z : Z) : Prop := 0 <= z < 2 ^ w.

Definition u8_max : Z := 2 ^ 8 - 1.
Definition u16_max : Z := 2 ^ 16 - 1.
Definition u32_max : Z := 2 ^ 32 - 1.
Definition u64_max : Z := 2 ^ 64 - 1.
Definition i64_max : Z := 2 ^ 63 - 1.

Lemma wrap_fits w z : 0 <= w -> fits w (wrap w z).
Proof. intros ?. apply Z.mod_pos_bound. lia. Qed.

Lemma wrap_id w z : fits w z -> wrap w z = z.
Proof. apply Z.mod_small. Qed.

Lemma wrap_idemp w z : 0 <= w -> wrap w (wrap w z) = wrap w z.
Proof. intros ?. apply wrap_id, wrap_fits; done. Qed.
#[export] Hint Resolve wrap_fits : iota.

(** ** Bytes *)

Abbreviation bytes := (list byte).

#[global] Instance byte_eq_dec : EqDecision byte := Byte.byte_eq_dec.

#[global] Instance byte_inhabited : Inhabited byte := populate x00.

#[global] Instance byte_countable : Countable byte.
Proof. apply (inj_countable Byte.to_N Byte.of_N). exact Byte.of_to_N. Defined.

(** The value of an [unsigned char] and the conversion to it. *)
Definition byte_val (b : byte) : Z := Z.of_N (Byte.to_N b).

Definition to_byte (z : Z) : byte :=
  match Byte.of_N (Z.to_N (wrap 8 z)) with
  | Some b => b
  | None => x00
  end.

Lemma byte_val_range b : 0 <= byte_val b < 256.
Proof. unfold byte_val. pose proof (Byte.to_N_bounded b). lia. Qed.

Lemma byte_val_to_byte z : byte_val (to_byte z) = z mod 256.
Proof.
  unfold to_byte, byte_val, wrap. change (2 ^ 8) with 256.
  pose proof (Z.mod_pos_bound z 256 ltac:(lia)) as Hb.
  destruct (Byte.of_N (Z.to_N (z mod 256))) as [b|] eqn:E.
  - apply Byte.to_of_N in E. lia.
  - apply Byte.of_N_None_iff in E. lia.
Qed.

Lemma byte_val_inj a b : byte_val a = byte_val b -> a = b.
Proof.
  unfold byte_val. intros H. assert (Byte.to_N a = Byte.to_N b) as E by lia.
  pose proof (Byte.of_to_N a) as Ha. rewrite E, Byte.of_to_N in Ha. congruence.
Qed.

Lemma to_byte_val b : to_byte (byte_val b) = b.
Proof.
  apply byte_val_inj. rewrite byte_val_to_byte.
  apply Z.mod_small, byte_val_range.
Qed.

Lemma to_byte_mod z : to_byte (z mod 256) = to_byte z.
Proof. apply byte_val_inj. rewrite !byte_val_to_byte, Z.mod_mod; lia. Qed.

Lemma byte_val_zero b : byte_val b = 0 -> b = x00.
Proof. intros H. apply byte_val_inj. rewrite H. reflexivity. Qed.

(** The bytes of a C++ string literal. *)
Definition str (s : string) : bytes := String.list_byte_of_string s.

(** The size of a C++ container, a [std::size_t]. *)
Definition zlen {A} (l : list A) : Z := Z.of_nat (length l).

Lemma zlen_nonneg {A} (l : list A) : 0 <= zlen l.
Proof. unfold zlen. lia. Qed.

Lemma zlen_app {A} (l k : list A) : zlen (l ++ k) = zlen l + zlen k.
Proof. unfold zlen. rewrite length_app. lia. Qed.

Lemma zlen_cons {A} (x : A) l : zlen (x :: l) = 1 + zlen l.
Proof. unfold zlen. simpl length. lia. Qed.

Lemma zlen_nil {A} : zlen (@nil A) = 0.
Proof. reflexivity. Qed.

Lemma zlen_zero {A} (l : list A) : zlen l = 0 -> l = [].
Proof. unfold zlen. destruct l; [done|]. simpl. lia. Qed.
#[export] Hint Resolve zlen_nonneg : iota.
#[export] Hint Rewrite @zlen_app @zlen_cons @zlen_nil : iota_len.

(** ** Big-endian integers

    [be_decode] and [be_encode] are the reference definitions against which the
    shift-and-mask routines of the program are checked. *)
Fixpoint be_decode_acc (acc : Z) (l : bytes) : Z :=
  match l with
  | [] => acc
  | b :: l => be_decode_acc (acc * 256 + byte_val b) l
  end.

Definition be_decode (l : bytes) : Z := be_decode_acc 0 l.

Fixpoint be_encode (n : nat) (z : Z) : bytes :=
  match n with
  | O => []
  | S n => to_byte (z / 256 ^ Z.of_nat n) :: be_encode n z
  end.

Lemma length_be_encode n z : length (be_encode n z) = n.
Proof. induction n; simpl; congruence. Qed.

Lemma pow256_pos n : 0 < 256 ^ Z.of_nat n.
Proof. lia. Qed.

Lemma pow256_S n : 256 ^ Z.of_nat (S n) = 256 * 256 ^ Z.of_nat n.
Proof. rewrite Nat2Z.inj_succ, Z.pow_succ_r; lia. Qed.

Lemma be_decode_acc_split acc l :
  be_decode_acc acc l = acc * 256 ^ zlen l + be_decode l.
Proof.
  unfold be_decode. revert acc. induction l as [|b l IH]; intros acc; cbn [be_decode_acc].
  - change (zlen (@nil byte)) with 0. lia.
  - rewrite (IH (acc * 256 + byte_val b)), (IH (0 * 256 + byte_val b)), zlen_cons.
    rewrite Z.pow_add_r by (auto with iota; lia).
    change (256 ^ 1) with 256. ring.
Qed.

Lemma be_decode_cons b l :
  be_decode (b :: l) = byte_val b * 256 ^ zlen l + be_decode l.
Proof. unfold be_decode at 1. cbn [be_decode_acc]. rewrite be_decode_acc_split. lia. Qed.

Lemma be_decode_range l : 0 <= be_decode l < 256 ^ zlen l.
Proof.
  induction l as [|b l IH]; [done|].
  rewrite be_decode_cons, zlen_cons, Z.pow_add_r by (auto with iota; lia).
  pose proof (byte_val_range b). change (256 ^ 1) with 256. nia.
Qed.

Lemma be_decode_encode n z : be_decode (be_encode n z) = z mod 256 ^ Z.of_nat n.
Proof.
  induction n as [|n IH].
  - cbn [be_encode]. rewrite Z.mod_1_r. done.
  - cbn [be_encode]. rewrite be_decode_cons, byte_val_to_byte, IH.
    unfold zlen. rewrite length_be_encode, pow256_S, (Z.mul_comm 256).
    rewrite (Z.rem_mul_r z) by lia. lia.
Qed.

Lemma be_decode_inj l k :
  length l = length k -> be_decode l = be_decode k -> l = k.
Proof.
  revert k. induction l as [|a l IH]; intros [|b k] Hlen; try done.
  injection Hlen as Hlen. rewrite !be_decode_cons.
  assert (zlen l = zlen k) as -> by (unfold zlen; lia).
  pose proof (be_decode_range l) as Hl. pose proof (be_decode_range k) as Hk.
  assert (zlen l = zlen k) as E by (unfold zlen; lia). rewrite E in Hl.
  intros H. assert (byte_val a = byte_val b) as Hab by nia.
  rewrite (byte_val_inj _ _ Hab), (IH k); [done..|]. nia.
Qed.

Lemma be_encode_decode n l : length l = n -> be_encode n (be_decode l) = l.
Proof.
  intros <-. apply be_decode_inj; [apply length_be_encode|].
  rewrite be_decode_encode. apply Z.mod_small, be_decode_range.
Qed.

(** ** List facts shared by the components *)

Lemma take_drop_split {A} (n : nat) (l : list A) k m :
  l = k ++ m -> length k = n -> take n l = k /\ drop n l = m.
Proof. intros -> <-. rewrite take_app_length, drop_app_length. done. Qed.

Lemma list_split_at {A} (n : nat) (l : list A) :
  (n <= length l)%nat -> exists k m, l = k ++ m /\ length k = n.
Proof.
  intros H. exists (take n l), (drop n l).
  rewrite take_drop, length_take_le; done.
Qed.

(** ** Iteration over hash tables

    A [std::unordered_map] visits its elements in an order the standard leaves
    open.  A component that iterates is proved correct for every order: it sees
    the table only through [iter_map], some permutation of the entries. *)
Class IterOrder (K V : Type) `{Countable K} := {
  iter_map : gmap K V -> list (K * V);
  iter_map_perm : forall m, iter_map m ≡ₚ map_to_list m;
}.

(** One possible order, for running the model. *)
Definition canonical_order {K V} `{Countable K} : IterOrder K V :=
  {| iter_map := map_to_list; iter_map_perm := fun m => Permutation_refl _ |}.

Section iter_order.
Context {K V : Type} `{IterOrder K V}.

Lemma elem_of_iter_map (m : gmap K V) k v : (k, v) ∈ iter_map m <-> m !! k = Some v.
Proof. rewrite iter_map_perm. apply elem_of_map_to_list. Qed.

Lemma NoDup_iter_keys (m : gmap K V) : NoDup (iter_map m).*1.
Proof. rewrite iter_map_perm. apply NoDup_fst_map_to_list. Qed.

Lemma length_iter_map (m : gmap K V) : length (iter_map m) = size m.
Proof. rewrite iter_map_perm. apply length_map_to_list. Qed.
End iter_order.
