(* ===== verification/KcpConv.v ===== *)
(** Node identifiers and conversation identifiers: the 256-bit [KcpConv] of
    myring/include/Kcp/KcpConv.hpp, its emptiness test and its FNV hash. *)
From Stdlib Require Import ZArith Lia.
From S2P Require Import Prelude.

(** [struct KcpConv]: a [std::array] of 32 bytes. *)
Record KcpConv := mkConv { conv_bytes : bytes }.

Definition kConvSize : nat := 32.

(** Every value of the C++ type has exactly 32 bytes. *)
Definition conv_wf (c : KcpConv) : Prop := length (conv_bytes c) = kConvSize.

#[global] Instance KcpConv_eq_dec : EqDecision KcpConv.
Proof. solve_decision. Defined.

#[global] Instance KcpConv_countable : Countable KcpConv.
Proof.
  apply (inj_countable' conv_bytes mkConv). intros []; reflexivity.
Defined.

#[global] Instance conv_wf_dec c : Decision (conv_wf c).
Proof. unfold conv_wf. apply _. Defined.

(** The default constructor zeroes the bytes. *)
Definition KcpConv_default : KcpConv := mkConv (replicate kConvSize x00).

#[global] Instance KcpConv_inhabited : Inhabited KcpConv := populate KcpConv_default.

(** [KcpConv::from_uint32]: little-endian in the first four bytes. *)
Definition from_uint32 (value : Z) : KcpConv :=
  let b := replicate kConvSize x00 in
  let b := <[0%nat := to_byte (Z.land value 0xff)]> b in
  let b := <[1%nat := to_byte (Z.land (Z.shiftr value 8) 0xff)]> b in
  let b := <[2%nat := to_byte (Z.land (Z.shiftr value 16) 0xff)]> b in
  let b := <[3%nat := to_byte (Z.land (Z.shiftr value 24) 0xff)]> b in
  mkConv b.

(** [KcpConv::empty]: all bytes are zero. *)
Definition conv_empty (c : KcpConv) : bool :=
  forallb (fun b => byte_val b =? 0) (conv_bytes c).

(** [operator==] *)
Definition conv_eqb (a b : KcpConv) : bool := bool_decide (a = b).

(** [KcpConvHash]: FNV-1a over the bytes, on 64-bit [std::size_t]. *)
Definition fnv_offset : Z := 1469598103934665603.
Definition fnv_prime : Z := 1099511628211.

Definition fnv_mix (hash : Z) (b : byte) : Z :=
  wrap 64 (Z.lxor hash (byte_val b) * fnv_prime).

Definition KcpConvHash (c : KcpConv) : Z :=
  fold_left fnv_mix (conv_bytes c) fnv_offset.

(** ** Lemmas *)

Lemma conv_default_wf : conv_wf KcpConv_default.
Proof. reflexivity. Qed.

Lemma conv_empty_spec c :
  conv_empty c = true <-> conv_bytes c = replicate (length (conv_bytes c)) x00.
Proof.
  unfold conv_empty. destruct c as [l]. simpl.
  induction l as [|b l IH]; simpl; [done|]. rewrite andb_true_iff, IH. split.
  - intros [Hb Hl]. apply Z.eqb_eq, byte_val_zero in Hb. congruence.
  - intros [= -> Hl]. rewrite Hl at 1. rewrite <- Hl. done.
Qed.

Lemma conv_empty_default c : conv_wf c -> conv_empty c = true <-> c = KcpConv_default.
Proof.
  intros Hwf. rewrite conv_empty_spec, Hwf. destruct c as [l]. simpl.
  unfold KcpConv_default. split; [intros ->; done | intros [= ->]; done].
Qed.

Lemma conv_eqb_eq a b : conv_eqb a b = true <-> a = b.
Proof. apply bool_decide_eq_true. Qed.

Lemma conv_eqb_neq a b : conv_eqb a b = false <-> a <> b.
Proof. apply bool_decide_eq_false. Qed.
