(* ===== verification/Frames.v ===== *)
(** Wire formats of the proxy: the 20-byte tunnel frame of
    iota_proxy/src/frame/TunnelFrame.cpp and the 18-byte edge data frame of
    iota_proxy/src/frame/EdgeDataFrame.cpp, with the big-endian loads and
    stores both use.  An out-parameter of the source is a result here; the
    guards on null out-parameters therefore have no counterpart. *)
From S2P Require Import Prelude KcpConv.

(** ** Byte views *)

(** [class ByteView]: a pointer and a size.  The default view is the null
    pointer of size 0; every other view the program builds points at [size]
    readable bytes. *)
Record ByteView := mkView { view_data : option bytes }.

Definition ByteView_default : ByteView := mkView None.
Definition view_of (l : bytes) : ByteView := mkView (Some l).
Definition view_bytes (v : ByteView) : bytes := default [] (view_data v).
Definition view_size (v : ByteView) : Z := zlen (view_bytes v).
Definition view_empty (v : ByteView) : bool := view_size v =? 0.

Lemma view_size_of l : view_size (view_of l) = zlen l.
Proof. reflexivity. Qed.

(** ** Loads and stores

    [load_*] read [src[0..]]; the callers' size checks keep the reads in range.
    [store_*] write at [dst + off]. *)
Definition load_u16 (src : bytes) : Z :=
  wrap 16 (Z.lor (Z.shiftl (byte_val (src !!! 0%nat)) 8) (byte_val (src !!! 1%nat))).

Definition load_u32 (src : bytes) : Z :=
  Z.lor (Z.lor (Z.lor (wrap 32 (Z.shiftl (byte_val (src !!! 0%nat)) 24))
                      (wrap 32 (Z.shiftl (byte_val (src !!! 1%nat)) 16)))
               (wrap 32 (Z.shiftl (byte_val (src !!! 2%nat)) 8)))
        (byte_val (src !!! 3%nat)).

Definition load_u64_step (value : Z) (b : byte) : Z :=
  Z.lor (wrap 64 (Z.shiftl value 8)) (byte_val b).

Definition load_u64 (src : bytes) : Z := fold_left load_u64_step (take 8 src) 0.

Definition store_u16 (dst : bytes) (off : nat) (value : Z) : bytes :=
  let dst := <[off := to_byte (Z.land (Z.shiftr value 8) 0xff)]> dst in
  <[(off + 1)%nat := to_byte (Z.land value 0xff)]> dst.

Definition store_u32 (dst : bytes) (off : nat) (value : Z) : bytes :=
  let dst := <[off := to_byte (Z.land (Z.shiftr value 24) 0xff)]> dst in
  let dst := <[(off + 1)%nat := to_byte (Z.land (Z.shiftr value 16) 0xff)]> dst in
  let dst := <[(off + 2)%nat := to_byte (Z.land (Z.shiftr value 8) 0xff)]> dst in
  <[(off + 3)%nat := to_byte (Z.land value 0xff)]> dst.

(** The loop [for (int i = 7; i >= 0; --i)]; [n] is [i + 1]. *)
Fixpoint store_u64_loop (n : nat) (dst : bytes) (off : nat) (value : Z) : bytes :=
  match n with
  | O => dst
  | S i =>
      let dst := <[(off + (7 - i))%nat :=
                     to_byte (Z.land (Z.shiftr value (Z.of_nat i * 8)) 0xff)]> dst in
      store_u64_loop i dst off value
  end.

Definition store_u64 (dst : bytes) (off : nat) (value : Z) : bytes :=
  store_u64_loop 8 dst off value.

(** [std::string::replace(pos, n, data, len)] with [data] of length [len]. *)
Definition string_replace (s : bytes) (pos n : nat) (data : bytes) : bytes :=
  take pos s ++ data ++ drop (pos + n) s.

(** ** Tunnel frames *)

Module TunnelFrameType.
(** [enum class TunnelFrameType : std::uint8_t] *)
Inductive t : Set :=
  | Open | Data | Close | Control | Finish | Replicate | KafkaBroadcast.

Definition code (x : t) : Z :=
  match x with
  | Open => 1 | Data => 2 | Close => 3 | Control => 4
  | Finish => 5 | Replicate => 6 | KafkaBroadcast => 7
  end.

(** [static_cast<TunnelFrameType>(value)] for the values [valid_type] accepts. *)
Definition of_code (value : Z) : option t :=
  match value with
  | 1 => Some Open | 2 => Some Data | 3 => Some Close | 4 => Some Control
  | 5 => Some Finish | 6 => Some Replicate | 7 => Some KafkaBroadcast
  | _ => None
  end.

#[global] Instance t_eq_dec : EqDecision t.
Proof. solve_decision. Defined.

Lemma of_code_code x : of_code (code x) = Some x.
Proof. destruct x; reflexivity. Qed.

Lemma of_code_Some z x : of_code z = Some x -> z = code x.
Proof.
  intros H. assert (1 <= z <= 7) as Hz.
  { destruct (decide (1 <= z <= 7)); [done|].
    unfold of_code in H. repeat case_match; try discriminate; lia. }
  assert (z = 1 \/ z = 2 \/ z = 3 \/ z = 4 \/ z = 5 \/ z = 6 \/ z = 7)
    as Hc by lia.
  destruct Hc as [-> | [-> | [-> | [-> | [-> | [-> | ->]]]]]];
    injection H as <-; reflexivity.
Qed.
End TunnelFrameType.

(** [struct BroadcastMetadata] *)
Record BroadcastMetadata := mkMetadata {
  valid : bool;
  ttl : Z;
  origin : KcpConv;
  message_id : KcpConv;
}.

Definition BroadcastMetadata_default : BroadcastMetadata :=
  {| valid := false; ttl := 0; origin := KcpConv_default;
     message_id := KcpConv_default |}.

(** [struct TunnelFrameView] *)
Record TunnelFrameView := mkFrame {
  frame_type : TunnelFrameType.t;
  frame_stream_id : Z;
  frame_payload : ByteView;
  frame_broadcast : BroadcastMetadata;
}.

Definition TunnelFrameView_default : TunnelFrameView :=
  {| frame_type := TunnelFrameType.Data; frame_stream_id := 0;
     frame_payload := ByteView_default;
     frame_broadcast := BroadcastMetadata_default |}.

Definition kTunnelFrameHeaderSize : Z := 20.
Definition kMagic : Z := 0x49505450.
Definition kVersion : Z := 1.

Definition valid_type (value : Z) : bool :=
  (value =? TunnelFrameType.code TunnelFrameType.Open) ||
  (value =? TunnelFrameType.code TunnelFrameType.Data) ||
  (value =? TunnelFrameType.code TunnelFrameType.Close) ||
  (value =? TunnelFrameType.code TunnelFrameType.Control) ||
  (value =? TunnelFrameType.code TunnelFrameType.Finish) ||
  (value =? TunnelFrameType.code TunnelFrameType.Replicate) ||
  (value =? TunnelFrameType.code TunnelFrameType.KafkaBroadcast).

(** [encode_tunnel_frame]: the empty string when the payload is too long. *)
Definition encode_tunnel_frame (type : TunnelFrameType.t) (stream_id : Z)
    (payload : ByteView) : bytes :=
  if u32_max <? view_size payload then []
  else
    let out := replicate (20 + length (view_bytes payload))%nat x00 in
    let out := store_u32 out 0 kMagic in
    let out := <[4%nat := to_byte kVersion]> out in
    let out := <[5%nat := to_byte (TunnelFrameType.code type)]> out in
    let out := store_u16 out 6 0 in
    let out := store_u64 out 8 stream_id in
    let out := store_u32 out 16 (wrap 32 (view_size payload)) in
    if view_empty payload then out
    else string_replace out 20 (length (view_bytes payload)) (view_bytes payload).

(** [decode_tunnel_frame]: the result and the final value of [*out].  The last
    test runs after [*out] has been written. *)
Definition decode_tunnel_frame (packet : ByteView) (out : TunnelFrameView)
    : bool * TunnelFrameView :=
  match view_data packet with
  | None => (false, out)
  | Some data =>
      if view_size packet <? kTunnelFrameHeaderSize then (false, out)
      else if negb (load_u32 data =? kMagic) ||
              negb (byte_val (data !!! 4%nat) =? kVersion) ||
              negb (valid_type (byte_val (data !!! 5%nat))) then (false, out)
      else if negb (load_u16 (drop 6 data) =? 0) then (false, out)
      else
        let payload_len := load_u32 (drop 16 data) in
        if negb (view_size packet - kTunnelFrameHeaderSize =? payload_len)
        then (false, out)
        else
          match TunnelFrameType.of_code (byte_val (data !!! 5%nat)) with
          | None => (false, out)
          | Some type =>
              let out :=
                {| frame_type := type;
                   frame_stream_id := load_u64 (drop 8 data);
                   frame_payload := view_of (take (Z.to_nat payload_len) (drop 20 data));
                   frame_broadcast := frame_broadcast out |} in
              (bool_decide (frame_type out = TunnelFrameType.Control) ||
               negb (frame_stream_id out =? 0), out)
          end
  end.

(** [tunnel_frame_type_name] *)
Definition tunnel_frame_type_name (type : TunnelFrameType.t) : bytes :=
  match type with
  | TunnelFrameType.Open => str "open"
  | TunnelFrameType.Data => str "data"
  | TunnelFrameType.Close => str "close"
  | TunnelFrameType.Control => str "control"
  | TunnelFrameType.Finish => str "finish"
  | TunnelFrameType.Replicate => str "replicate"
  | TunnelFrameType.KafkaBroadcast => str "kafka_broadcast"
  end.

(** ** Edge data frames *)

Definition kEdgeMacSize : nat := 6.
Definition kEdgeTimestampSize : nat := 8.
Definition kEdgePayloadLengthSize : nat := 4.
Definition kEdgeDataFrameHeaderSize : Z :=
  Z.of_nat (kEdgeMacSize + kEdgeTimestampSize + kEdgePayloadLengthSize).

(** [struct EdgeDataFrameView] *)
Record EdgeDataFrameView := mkEdge {
  edge_mac : bytes;
  edge_timestamp_ms : Z;
  edge_payload : ByteView;
}.

(** [edge_data_frame_payload_size]: [None] stands for the result [false]. *)
Definition edge_data_frame_payload_size (header : ByteView) : option Z :=
  match view_data header with
  | None => None
  | Some data =>
      if view_size header <? kEdgeDataFrameHeaderSize then None
      else Some (load_u32 (drop (kEdgeMacSize + kEdgeTimestampSize) data))
  end.

(** [decode_edge_data_frame]: [None] stands for [false]; [*out] is written only
    on success. *)
Definition decode_edge_data_frame (frame : ByteView) : option EdgeDataFrameView :=
  match view_data frame with
  | None => None
  | Some data =>
      if view_size frame <? kEdgeDataFrameHeaderSize then None
      else
        match edge_data_frame_payload_size frame with
        | None => None
        | Some payload_size =>
            if negb (view_size frame - kEdgeDataFrameHeaderSize =? payload_size)
            then None
            else Some {| edge_mac := take kEdgeMacSize data;
                         edge_timestamp_ms := load_u64 (drop kEdgeMacSize data);
                         edge_payload :=
                           view_of (take (Z.to_nat payload_size) (drop 18 data)) |}
        end
  end.

(** [kHex] and the digit lookups of [edge_mac_to_hex] and [hex_256]. *)
Definition kHex : bytes := str "0123456789abcdef".

Definition hex_byte (b : byte) : bytes :=
  [kHex !!! Z.to_nat (Z.land (Z.shiftr (byte_val b) 4) 0x0f);
   kHex !!! Z.to_nat (Z.land (byte_val b) 0x0f)].

Definition edge_mac_to_hex (mac : bytes) : bytes := mac ≫= hex_byte.

(** ** Loads and stores are big-endian *)

Lemma land_shiftl_small a b k : 0 <= k -> 0 <= b < 2 ^ k -> Z.land (Z.shiftl a k) b = 0.
Proof.
  intros Hk Hb. apply Z.bits_inj'. intros i Hi.
  rewrite Z.land_spec, Z.bits_0, Z.shiftl_spec by done.
  destruct (decide (i < k)).
  - rewrite Z.testbit_neg_r by lia. done.
  - rewrite <- (Z.mod_small b (2 ^ k)) by done.
    rewrite Z.mod_pow2_bits_high by lia. apply andb_false_r.
Qed.

Lemma lor_shiftl_add a b k :
  0 <= k -> 0 <= b < 2 ^ k -> Z.lor (Z.shiftl a k) b = a * 2 ^ k + b.
Proof.
  intros Hk Hb. rewrite <- Z.lxor_lor by (apply land_shiftl_small; done).
  rewrite <- Z.add_nocarry_lxor by (apply land_shiftl_small; done).
  rewrite Z.shiftl_mul_pow2 by done. done.
Qed.

Lemma to_byte_shift_mask v k :
  0 <= k -> to_byte (Z.land (Z.shiftr v k) 255) = to_byte (v / 2 ^ k).
Proof.
  intros Hk. change 255 with (Z.ones 8).
  rewrite Z.land_ones, Z.shiftr_div_pow2 by lia. apply to_byte_mod.
Qed.

Lemma to_byte_mask v : to_byte (Z.land v 255) = to_byte v.
Proof. change 255 with (Z.ones 8). rewrite Z.land_ones by lia. apply to_byte_mod. Qed.

Lemma load_u32_be a b c d l : load_u32 (a :: b :: c :: d :: l) = be_decode [a; b; c; d].
Proof.
  unfold load_u32. cbn [lookup_total list_lookup_total].
  pose proof (byte_val_range a). pose proof (byte_val_range b).
  pose proof (byte_val_range c). pose proof (byte_val_range d).
  unfold wrap. rewrite !Z.shiftl_mul_pow2 by lia. rewrite !Z.mod_small by lia.
  rewrite <- (Z.shiftl_mul_pow2 _ 24), (lor_shiftl_add _ _ 24) by lia.
  replace (byte_val a * 2 ^ 24 + byte_val b * 2 ^ 16)
    with (Z.shiftl (byte_val a * 2 ^ 8 + byte_val b) 16)
    by (rewrite Z.shiftl_mul_pow2; lia).
  rewrite (lor_shiftl_add _ _ 16) by lia.
  replace ((byte_val a * 2 ^ 8 + byte_val b) * 2 ^ 16 + byte_val c * 2 ^ 8)
    with (Z.shiftl (byte_val a * 2 ^ 16 + byte_val b * 2 ^ 8 + byte_val c) 8)
    by (rewrite Z.shiftl_mul_pow2; lia).
  rewrite (lor_shiftl_add _ _ 8) by lia.
  unfold be_decode. cbn [be_decode_acc]. lia.
Qed.

Lemma load_u16_be a b l : load_u16 (a :: b :: l) = be_decode [a; b].
Proof.
  unfold load_u16. cbn [lookup_total list_lookup_total].
  pose proof (byte_val_range a). pose proof (byte_val_range b).
  rewrite (lor_shiftl_add _ _ 8) by lia. unfold wrap.
  rewrite Z.mod_small by lia. unfold be_decode. cbn [be_decode_acc]. lia.
Qed.

Lemma load_u64_fold l : forall acc,
  0 <= acc -> (acc + 1) * 256 ^ zlen l <= 2 ^ 64 ->
  fold_left load_u64_step l acc = be_decode_acc acc l.
Proof.
  induction l as [|b l IH]; intros acc Hacc Hbound; [done|].
  cbn [fold_left be_decode_acc]. pose proof (byte_val_range b).
  rewrite zlen_cons, Z.pow_add_r in Hbound by (auto with iota; lia).
  change (256 ^ 1) with 256 in Hbound.
  assert (1 <= 256 ^ zlen l) as HP by (unfold zlen; lia).
  generalize dependent (256 ^ zlen l). intros P IH Hbound HP.
  assert (load_u64_step acc b = acc * 256 + byte_val b) as ->.
  { unfold load_u64_step, wrap. rewrite Z.shiftl_mul_pow2 by lia.
    change (2 ^ 8) with 256. rewrite Z.mod_small by (split; [lia|]; nia).
    change 256 with (2 ^ 8). rewrite <- (Z.shiftl_mul_pow2 acc 8) at 1 by lia.
    rewrite (lor_shiftl_add _ _ 8) by lia. lia. }
  apply IH; [lia|]. nia.
Qed.

Lemma load_u64_be l k : length l = 8%nat -> load_u64 (l ++ k) = be_decode l.
Proof.
  intros Hl. unfold load_u64. rewrite take_app_le, take_ge by lia.
  apply load_u64_fold; [done|]. unfold zlen. rewrite Hl. done.
Qed.

Lemma load_u64_be8 a b c d e f g h l :
  load_u64 (a :: b :: c :: d :: e :: f :: g :: h :: l) =
  be_decode [a; b; c; d; e; f; g; h].
Proof. exact (load_u64_be [a; b; c; d; e; f; g; h] l eq_refl). Qed.

Lemma be_encode_u16 v : be_encode 2 v = [to_byte (v / 256); to_byte v].
Proof. cbn. rewrite Z.div_1_r. done. Qed.

Lemma be_encode_u32 v :
  be_encode 4 v = [to_byte (v / 2 ^ 24); to_byte (v / 2 ^ 16);
                   to_byte (v / 2 ^ 8); to_byte v].
Proof. cbn. rewrite Z.div_1_r. done. Qed.

(** ** The tunnel frame header *)

(** The reference layout of a frame on the wire. *)
Definition tunnel_header (type : TunnelFrameType.t) (stream_id len : Z) : bytes :=
  be_encode 4 kMagic ++ [to_byte kVersion; to_byte (TunnelFrameType.code type)] ++
  be_encode 2 0 ++ be_encode 8 stream_id ++ be_encode 4 len.

Lemma length_tunnel_header type id len : length (tunnel_header type id len) = 20%nat.
Proof. reflexivity. Qed.

Lemma encode_tunnel_wire type id payload :
  view_size payload <= u32_max ->
  encode_tunnel_frame type id payload =
    tunnel_header type id (view_size payload) ++ view_bytes payload.
Proof.
  intros Hlen. unfold encode_tunnel_frame.
  assert (0 <= view_size payload) as H0 by apply zlen_nonneg.
  destruct (Z.ltb_spec u32_max (view_size payload)) as [|_]; [lia|].
  rewrite wrap_id by (unfold u32_max in Hlen; split; lia).
  set (len := view_size payload) in *.
  assert (len = zlen (view_bytes payload)) as Elen by done.
  clearbody len. unfold view_empty, view_size.
  generalize dependent (view_bytes payload). intros body ->.
  set (out := store_u32 _ 16 _).
  assert (out = tunnel_header type id (zlen body) ++ replicate (length body) x00)
    as Hout.
  { unfold out, store_u64, store_u32, store_u16, tunnel_header.
    rewrite !be_encode_u32, be_encode_u16.
    cbn [Nat.add replicate store_u64_loop insert list_insert Nat.sub app be_encode].
    rewrite !to_byte_shift_mask, !to_byte_mask by lia. reflexivity. }
  rewrite Hout. clearbody out. destruct (Z.eqb_spec (zlen body) 0) as [E|_].
  - apply zlen_zero in E. subst body. done.
  - unfold string_replace.
    rewrite take_app_length' by (rewrite length_tunnel_header; done).
    rewrite drop_ge; [rewrite app_nil_r; done|].
    rewrite length_app, length_replicate, length_tunnel_header. lia.
Qed.

Lemma valid_type_code x : valid_type (TunnelFrameType.code x) = true.
Proof. destruct x; reflexivity. Qed.

Lemma byte_code x : byte_val (to_byte (TunnelFrameType.code x)) = TunnelFrameType.code x.
Proof. destruct x; reflexivity. Qed.

Lemma be_decode_u32 v : fits 32 v -> be_decode (be_encode 4 v) = v.
Proof. intros Hv. rewrite be_decode_encode. apply Z.mod_small. exact Hv. Qed.

Lemma be_decode_u64 v : fits 64 v -> be_decode (be_encode 8 v) = v.
Proof. intros Hv. rewrite be_decode_encode. apply Z.mod_small. exact Hv. Qed.

(** Decoding a well-formed header followed by a body of the announced length. *)
Lemma decode_tunnel_wire type id body out :
  fits 64 id -> zlen body <= u32_max ->
  decode_tunnel_frame (view_of (tunnel_header type id (zlen body) ++ body)) out =
    (bool_decide (type = TunnelFrameType.Control) || negb (id =? 0),
     {| frame_type := type; frame_stream_id := id; frame_payload := view_of body;
        frame_broadcast := frame_broadcast out |}).
Proof.
  intros Hid Hlen. pose proof (zlen_nonneg body) as H0.
  assert (fits 32 (zlen body)) as Hfit by (unfold u32_max in Hlen; split; lia).
  unfold decode_tunnel_frame. cbn [view_data view_of].
  assert (view_size (view_of (tunnel_header type id (zlen body) ++ body))
          = 20 + zlen body) as Hsize.
  { rewrite view_size_of, zlen_app. unfold zlen at 1. rewrite length_tunnel_header. done. }
  rewrite Hsize. unfold kTunnelFrameHeaderSize.
  destruct (Z.ltb_spec (20 + zlen body) 20) as [|_]; [lia|].
  set (data := tunnel_header type id (zlen body) ++ body).
  assert (load_u32 data = kMagic) as -> by (apply load_u32_be).
  assert (byte_val (data !!! 4%nat) = kVersion) as -> by reflexivity.
  assert (byte_val (data !!! 5%nat) = TunnelFrameType.code type) as ->
    by apply byte_code.
  rewrite valid_type_code, TunnelFrameType.of_code_code.
  assert (load_u16 (drop 6 data) = 0) as -> by apply load_u16_be.
  assert (load_u32 (drop 16 data) = zlen body) as ->.
  { transitivity (be_decode (be_encode 4 (zlen body)));
      [apply load_u32_be | apply be_decode_u32; done]. }
  assert (load_u64 (drop 8 data) = id) as ->.
  { transitivity (be_decode (be_encode 8 id)); [|apply be_decode_u64; done].
    apply (load_u64_be (be_encode 8 id)). apply length_be_encode. }
  replace (20 + zlen body - 20) with (zlen body) by lia.
  rewrite !Z.eqb_refl. cbn [negb orb].
  change (drop 20 data) with body. unfold zlen. rewrite Nat2Z.id, take_ge by done.
  done.
Qed.

(** Everything the decoder accepts is a header followed by its body. *)
Lemma decode_tunnel_inv packet out v :
  decode_tunnel_frame packet out = (true, v) ->
  exists body,
    packet = view_of (tunnel_header (frame_type v) (frame_stream_id v) (zlen body) ++ body)
    /\ frame_payload v = view_of body /\ zlen body <= u32_max
    /\ fits 64 (frame_stream_id v) /\ frame_broadcast v = frame_broadcast out
    /\ (frame_type v = TunnelFrameType.Control \/ frame_stream_id v <> 0).
Proof.
  unfold decode_tunnel_frame. destruct packet as [[data|]]; [|done].
  change (mkView (Some data)) with (view_of data). rewrite view_size_of.
  cbn [view_data view_of]. unfold kTunnelFrameHeaderSize. intros H.
  destruct (Z.ltb_spec (zlen data) 20) as [|Hge]; [done|].
  destruct (list_split_at 20 data) as (hdr & body & -> & Hhdr);
    [unfold zlen in Hge; lia|].
  do 20 (destruct hdr as [|? hdr]; [discriminate Hhdr|]).
  destruct hdr; [|discriminate Hhdr]. clear Hhdr.
  cbn [app drop] in H. rewrite !load_u32_be, load_u16_be, load_u64_be8 in H.
  cbn [lookup_total list_lookup_total] in H.
  case_cond_in H; [done|]. case_cond_in H; [done|]. case_cond_in H; [done|].
  bool_norm. destruct (TunnelFrameType.of_code _) as [ty|] eqn:Hty; [|done].
  apply TunnelFrameType.of_code_Some in Hty.
  assert (be_decode [b; b0; b1; b2] = kMagic) as Hm by assumption.
  assert (byte_val b3 = kVersion) as Hv by assumption.
  rewrite <- E1 in H.
  assert (zlen body <= u32_max) as Hmax.
  { pose proof (be_decode_range [b15; b16; b17; b18]) as Hr.
    change (256 ^ zlen [b15; b16; b17; b18]) with (2 ^ 32) in Hr.
    rewrite <- E1 in Hr. unfold u32_max. autorewrite with iota_len in Hr. lia. }
  injection H as Hok <-. cbn [frame_type frame_stream_id frame_payload frame_broadcast].
  assert (zlen (b :: b0 :: b1 :: b2 :: b3 :: b4 :: b5 :: b6 :: b7 :: b8 :: b9 :: b10
     :: b11 :: b12 :: b13 :: b14 :: b15 :: b16 :: b17 :: b18 :: body) - 20 = zlen body)
    as Hz by (autorewrite with iota_len; lia).
  rewrite Hz in *. exists body. split_and!.
  - f_equal. f_equal. unfold tunnel_header.
    rewrite E1, (be_encode_decode 4 [b15; b16; b17; b18]) by done.
    rewrite (be_encode_decode 8) by done.
    assert (be_encode 4 kMagic = [b; b0; b1; b2]) as ->
      by (rewrite <- Hm; apply be_encode_decode; done).
    assert (be_encode 2 0 = [b5; b6]) as ->
      by (rewrite <- E0; apply be_encode_decode; done).
    rewrite <- Hty, <- Hv, !to_byte_val. done.
  - unfold zlen. rewrite Nat2Z.id, take_ge; done.
  - done.
  - apply (be_decode_range [b7; b8; b9; b10; b11; b12; b13; b14]).
  - done.
  - apply orb_prop in Hok. destruct Hok as [Hok|Hok]; bool_norm; auto.
Qed.

(** Decoding an encoded tunnel frame gives back the type, the stream id and
    the payload, and reports success exactly when the frame is a control frame
    or names a stream. *)
Theorem tunnel_frame_roundtrip type id payload out :
  fits 64 id -> view_size payload <= u32_max ->
  decode_tunnel_frame (view_of (encode_tunnel_frame type id payload)) out =
    (bool_decide (type = TunnelFrameType.Control) || negb (id =? 0),
     {| frame_type := type; frame_stream_id := id;
        frame_payload := view_of (view_bytes payload);
        frame_broadcast := frame_broadcast out |}).
Proof.
  intros Hid Hlen. rewrite encode_tunnel_wire by done.
  apply decode_tunnel_wire; done.
Qed.

Lemma tunnel_frame_roundtrip_witness :
  decode_tunnel_frame
    (view_of (encode_tunnel_frame TunnelFrameType.Data 7 (view_of (str "hi"))))
    TunnelFrameView_default =
  (true, {| frame_type := TunnelFrameType.Data; frame_stream_id := 7;
            frame_payload := view_of (str "hi");
            frame_broadcast := BroadcastMetadata_default |}).
Proof.
  apply (tunnel_frame_roundtrip TunnelFrameType.Data 7 (view_of (str "hi")));
    [split; vm_compute; congruence | vm_compute; congruence].
Defined.

(** The decoder accepts nothing but encoder output: an accepted packet is,
    byte for byte, the encoding of the frame it was decoded to (no trailing
    bytes, no flags, no other version), its stream id fits 64 bits and is 0 only
    on control frames. *)
Theorem tunnel_frame_decode_canonical packet out v :
  decode_tunnel_frame packet out = (true, v) ->
  packet = view_of (encode_tunnel_frame (frame_type v) (frame_stream_id v)
                                        (frame_payload v))
  /\ view_size (frame_payload v) <= u32_max
  /\ fits 64 (frame_stream_id v)
  /\ (frame_type v = TunnelFrameType.Control \/ frame_stream_id v <> 0).
Proof.
  intros H. destruct (decode_tunnel_inv _ _ _ H)
    as (body & -> & Hp & Hmax & Hid & _ & Hz).
  rewrite Hp. split_and!; try done. rewrite encode_tunnel_wire by done. done.
Qed.

Lemma tunnel_frame_decode_canonical_witness :
  let p := view_of (encode_tunnel_frame TunnelFrameType.Control 0 (view_of (str "x"))) in
  let v := {| frame_type := TunnelFrameType.Control; frame_stream_id := 0;
              frame_payload := view_of (str "x");
              frame_broadcast := BroadcastMetadata_default |} in
  decode_tunnel_frame p TunnelFrameView_default = (true, v)
  /\ p = view_of (encode_tunnel_frame (frame_type v) (frame_stream_id v) (frame_payload v)).
Proof.
  intros p v. assert (decode_tunnel_frame p TunnelFrameView_default = (true, v)) as H
    by (vm_compute; reflexivity).
  split; [exact H|]. exact (proj1 (tunnel_frame_decode_canonical p TunnelFrameView_default v H)).
Defined.

(** ** The edge data frame *)

(** The reference layout: MAC, timestamp, payload length, payload. *)
Definition edge_wire (mac : bytes) (ts : Z) (payload : bytes) : bytes :=
  mac ++ be_encode 8 ts ++ be_encode 4 (zlen payload) ++ payload.

Lemma zlen_edge_wire mac ts payload :
  length mac = kEdgeMacSize -> zlen (edge_wire mac ts payload) = 18 + zlen payload.
Proof.
  intros Hm. unfold edge_wire. rewrite !zlen_app. unfold zlen.
  rewrite Hm, !length_be_encode. unfold kEdgeMacSize. lia.
Qed.

Lemma edge_payload_size_wire mac ts payload tail :
  length mac = kEdgeMacSize -> fits 32 (zlen payload) ->
  edge_data_frame_payload_size (view_of (edge_wire mac ts payload ++ tail)) =
    Some (zlen payload).
Proof.
  intros Hm Hlen. unfold edge_data_frame_payload_size. rewrite view_size_of, zlen_app.
  rewrite zlen_edge_wire by done. cbn [view_data view_of].
  pose proof (zlen_nonneg tail). pose proof (zlen_nonneg payload).
  change kEdgeDataFrameHeaderSize with 18.
  destruct (Z.ltb_spec (18 + zlen payload + zlen tail) 18) as [|_]; [lia|].
  unfold edge_wire, kEdgeMacSize in *.
  do 6 (destruct mac as [|? mac]; [discriminate Hm|]).
  destruct mac; [|discriminate Hm]. cbn [app drop Nat.add kEdgeTimestampSize be_encode].
  rewrite load_u32_be. f_equal. exact (be_decode_u32 _ Hlen).
Qed.

Lemma decode_edge_wire mac ts payload :
  length mac = kEdgeMacSize -> fits 64 ts -> zlen payload <= u32_max ->
  decode_edge_data_frame (view_of (edge_wire mac ts payload)) =
    Some {| edge_mac := mac; edge_timestamp_ms := ts; edge_payload := view_of payload |}.
Proof.
  intros Hm Hts Hlen. pose proof (zlen_nonneg payload).
  assert (fits 32 (zlen payload)) as Hfit by (unfold u32_max in Hlen; split; lia).
  unfold decode_edge_data_frame. cbn [view_data view_of].
  pose proof (edge_payload_size_wire mac ts payload [] Hm Hfit) as Hs.
  rewrite app_nil_r in Hs. rewrite Hs, view_size_of, zlen_edge_wire by done.
  change kEdgeDataFrameHeaderSize with 18.
  destruct (Z.ltb_spec (18 + zlen payload) 18) as [|_]; [lia|].
  replace (18 + zlen payload - 18) with (zlen payload) by lia.
  rewrite Z.eqb_refl. cbn [negb]. unfold edge_wire.
  rewrite take_app_length', drop_app_length' by done.
  rewrite load_u64_be by apply length_be_encode.
  rewrite be_decode_u64 by done. do 3 f_equal. f_equal.
  rewrite (app_assoc mac), (app_assoc (mac ++ _)), drop_app_length'.
  - unfold zlen. rewrite Nat2Z.id, take_ge; done.
  - rewrite !length_app, !length_be_encode, Hm. done.
Qed.

Lemma decode_edge_inv frame v :
  decode_edge_data_frame frame = Some v ->
  exists payload,
    frame = view_of (edge_wire (edge_mac v) (edge_timestamp_ms v) payload)
    /\ edge_payload v = view_of payload /\ length (edge_mac v) = kEdgeMacSize
    /\ fits 64 (edge_timestamp_ms v) /\ zlen payload <= u32_max.
Proof.
  unfold decode_edge_data_frame, edge_data_frame_payload_size.
  destruct frame as [[data|]]; [|done].
  change (mkView (Some data)) with (view_of data). rewrite view_size_of.
  cbn [view_data view_of]. change kEdgeDataFrameHeaderSize with 18. intros H.
  destruct (Z.ltb_spec (zlen data) 18) as [|Hge]; [done|].
  destruct (list_split_at 18 data) as (hdr & body & -> & Hhdr);
    [unfold zlen in Hge; lia|].
  do 18 (destruct hdr as [|? hdr]; [discriminate Hhdr|]).
  destruct hdr; [|discriminate Hhdr]. clear Hhdr.
  unfold kEdgeMacSize, kEdgeTimestampSize in *.
  cbn [app drop take Nat.add] in H. rewrite load_u32_be, load_u64_be8 in H.
  case_cond_in H; [done|]. bool_norm. injection H as <-.
  cbn [edge_mac edge_timestamp_ms edge_payload].
  autorewrite with iota_len in E.
  assert (be_decode [b13; b14; b15; b16] = zlen body) as Hb by lia.
  rewrite Hb. exists body. split_and!.
  - unfold edge_wire. rewrite <- Hb, (be_encode_decode 4) by done.
    rewrite (be_encode_decode 8) by done. reflexivity.
  - unfold zlen. rewrite Nat2Z.id, take_ge; done.
  - done.
  - apply (be_decode_range [b5; b6; b7; b8; b9; b10; b11; b12]).
  - pose proof (be_decode_range [b13; b14; b15; b16]) as Hr.
    change (256 ^ zlen [b13; b14; b15; b16]) with (2 ^ 32) in Hr. unfold u32_max. lia.
Qed.

(** The edge frame decoder accepts exactly the frames laid out as a 6-byte
    MAC, a 64-bit timestamp, a 32-bit payload length and a payload of that
    length, and returns their fields. *)
Theorem edge_frame_decode_spec frame v :
  decode_edge_data_frame frame = Some v <->
  exists payload,
    frame = view_of (edge_wire (edge_mac v) (edge_timestamp_ms v) payload)
    /\ edge_payload v = view_of payload /\ length (edge_mac v) = kEdgeMacSize
    /\ fits 64 (edge_timestamp_ms v) /\ zlen payload <= u32_max.
Proof.
  split; [apply decode_edge_inv|].
  intros (payload & -> & Hp & Hm & Hts & Hlen).
  rewrite decode_edge_wire by done. destruct v; simpl in *. congruence.
Qed.
