(* ===== verification/Identity.v ===== *)
(** Node identities and addresses: the hexadecimal codecs, identifiers, textual
    node addresses and endpoints of iota_proxy/src/business/NodeIdentity.cpp and
    iota_proxy/src/common/Endpoint.cpp. *)
From S2P Require Import Prelude KcpConv Frames.

(** ** Endpoints and addresses *)

(** [struct Ipv4Endpoint] *)
Record Ipv4Endpoint := mkEndpoint { host : bytes; port : Z }.

(** [struct NodeAddress] *)
Record NodeAddress := mkNode { endpoint : Ipv4Endpoint; node_id : KcpConv }.

Definition Ipv4Endpoint_default : Ipv4Endpoint := {| host := []; port := 0 |}.
Definition NodeAddress_default : NodeAddress :=
  {| endpoint := Ipv4Endpoint_default; node_id := KcpConv_default |}.

#[global] Instance Ipv4Endpoint_eq_dec : EqDecision Ipv4Endpoint.
Proof. solve_decision. Defined.
#[global] Instance NodeAddress_eq_dec : EqDecision NodeAddress.
Proof. solve_decision. Defined.

(** [sockaddr_in], as far as the program reads it: address and port bytes in
    network order. *)
Record sockaddr_in := mkSockaddr { sin_port : bytes; sin_addr : bytes }.

(** [std::string::empty] *)
Definition str_empty (s : bytes) : bool := zlen s =? 0.

(** [make_sockaddr]; [inet_pton] is the C library's parser of dotted
    addresses, [None] when it does not return 1. *)
Definition make_sockaddr (inet_pton : bytes -> option bytes) (e : Ipv4Endpoint)
    : option sockaddr_in :=
  if str_empty (host e) || (port e =? 0) then None
  else match inet_pton (host e) with
       | None => None
       | Some a => Some {| sin_port := be_encode 2 (port e); sin_addr := a |}
       end.

(** [std::to_string] of an unsigned integer: decimal digits, most significant
    first.  A 64-bit value has at most 20 digits. *)
Definition digit (d : Z) : byte := to_byte (48 + d).

Fixpoint to_string_loop (fuel : nat) (z : Z) (acc : bytes) : bytes :=
  match fuel with
  | O => acc
  | S fuel =>
      let acc := digit (z mod 10) :: acc in
      if z / 10 =? 0 then acc else to_string_loop fuel (z / 10) acc
  end.

Definition to_string (z : Z) : bytes := to_string_loop 20 z [].

(** [endpoint_to_string] *)
Definition endpoint_to_string (e : Ipv4Endpoint) : bytes :=
  host e ++ str ":" ++ to_string (port e).

(** ** Hexadecimal *)

(** [hex_value]: -1 for a character that is no digit. *)
Definition hex_value (c : byte) : Z :=
  let c := byte_val c in
  if (48 <=? c) && (c <=? 57) then c - 48
  else if (97 <=? c) && (c <=? 102) then c - 97 + 10
  else if (65 <=? c) && (c <=? 70) then c - 65 + 10
  else -1.

(** The loop of [parse_hex_256] and [parse_hex_512] over the digit pairs. *)
Fixpoint parse_hex_loop (value : bytes) : option bytes :=
  match value with
  | h :: l :: rest =>
      let hi := hex_value h in
      let lo := hex_value l in
      if (hi <? 0) || (lo <? 0) then None
      else match parse_hex_loop rest with
           | None => None
           | Some parsed => Some (to_byte (Z.lor (Z.shiftl hi 4) lo) :: parsed)
           end
  | _ => Some []
  end.

(** Removal of the optional [0x] prefix. *)
Definition strip_0x (value : bytes) : bytes :=
  match value with
  | a :: b :: rest =>
      if (byte_val a =? 48) && ((byte_val b =? 120) || (byte_val b =? 88))
      then rest else value
  | _ => value
  end.

Definition parse_hex_n (size : nat) (text : bytes) : option bytes :=
  let value := strip_0x text in
  if negb (zlen value =? Z.of_nat size * 2) then None
  else parse_hex_loop value.

(** [parse_hex_256], [parse_hex_512], [hex_256], [hex_512] *)
Definition parse_hex_256 (text : bytes) : option bytes := parse_hex_n 32 text.
Definition parse_hex_512 (text : bytes) : option bytes := parse_hex_n 64 text.
Definition hex_256 (value : bytes) : bytes := value ≫= hex_byte.
Definition hex_512 (value : bytes) : bytes := value ≫= hex_byte.

(** [parse_convid_hex]: rejects the all-zero identifier. *)
Definition parse_convid_hex (text : bytes) : option KcpConv :=
  match parse_hex_256 text with
  | None => None
  | Some value =>
      let conv := mkConv value in
      if conv_empty conv then None else Some conv
  end.

(** [convid_to_hex] *)
Definition convid_to_hex (conv : KcpConv) : bytes := hex_256 (conv_bytes conv).

(** [node_id_from_public_key] and [public_key_from_node_id]; a public key is its
    32 raw bytes. *)
Definition node_id_from_public_key (public_key : bytes) : KcpConv := mkConv public_key.

Definition public_key_from_node_id (id : KcpConv) : option bytes :=
  if conv_empty id then None else Some (conv_bytes id).

(** ** Textual node addresses *)

(** [std::string::find(c, from)] *)
Fixpoint find_byte (c : byte) (s : bytes) : option nat :=
  match s with
  | [] => None
  | b :: s => if bool_decide (b = c) then Some O else S <$> find_byte c s
  end.

Definition find_from (c : byte) (s : bytes) (from : nat) : option nat :=
  Nat.add from <$> find_byte c (drop from s).

(** The C string a [std::string] denotes: the bytes before the first NUL. *)
Fixpoint c_str (s : bytes) : bytes :=
  match s with
  | [] => []
  | b :: s => if bool_decide (b = x00) then [] else b :: c_str s
  end.

Definition is_space (c : byte) : bool :=
  let c := byte_val c in (c =? 32) || ((9 <=? c) && (c <=? 13)).

Definition is_digit (c : byte) : bool :=
  let c := byte_val c in (48 <=? c) && (c <=? 57).

Fixpoint skip_space (s : bytes) : bytes :=
  match s with
  | b :: r => if is_space b then skip_space r else s
  | [] => []
  end.

(** The digits of a number, and what follows them. *)
Fixpoint scan_digits (acc : Z) (s : bytes) : Z * bytes :=
  match s with
  | b :: r => if is_digit b then scan_digits (acc * 10 + (byte_val b - 48)) r
              else (acc, s)
  | [] => (acc, [])
  end.

(** [std::strtoul(s, &end, 10)] on 64-bit [unsigned long]: [None] when no
    conversion is performed ([end == s]), otherwise the value and the rest of
    the string at [end].  A leading minus negates modulo 2^64 and an
    out-of-range value gives [ULONG_MAX], as the C standard says. *)
Definition strtoul10 (s : bytes) : option (Z * bytes) :=
  let r := skip_space s in
  let '(neg, r) :=
    match r with
    | b :: r' =>
        if byte_val b =? 45 then (true, r')
        else if byte_val b =? 43 then (false, r') else (false, r)
    | [] => (false, r)
    end in
  match r with
  | b :: _ =>
      if is_digit b then
        let '(v, rest) := scan_digits 0 r in
        let v := if u64_max <? v then u64_max
                 else if neg then wrap 64 (- v) else v in
        Some (v, rest)
      else None
  | [] => None
  end.

(** [parse_node_address]: [host:port:id] *)
Definition parse_node_address (text : bytes) : option NodeAddress :=
  match find_from x3a text 0 with
  | None => None
  | Some first =>
      match find_from x3a text (first + 1) with
      | None => None
      | Some second =>
          match find_from x3a text (second + 1) with
          | Some _ => None
          | None =>
              let host := take first text in
              let port_text := take (second - first - 1) (drop (first + 1) text) in
              let id_text := drop (second + 1) text in
              if str_empty host || str_empty port_text || str_empty id_text then None
              else
                match strtoul10 (c_str port_text) with
                | None => None
                | Some (port, rest) =>
                    if negb (str_empty rest) || (port =? 0) || (65535 <? port) then None
                    else
                      match parse_convid_hex id_text with
                      | None => None
                      | Some id =>
                          Some {| endpoint := {| host := host; port := wrap 16 port |};
                                  node_id := id |}
                      end
                end
          end
      end
  end.

(** ** Hexadecimal: lemmas *)

Lemma hex_byte_digits b : exists h l,
  hex_byte b = [h; l] /\ 0 <= hex_value h /\ 0 <= hex_value l
  /\ to_byte (Z.lor (Z.shiftl (hex_value h) 4) (hex_value l)) = b
  /\ byte_val l <> 120 /\ byte_val l <> 88 /\ h <> x3a /\ l <> x3a.
Proof.
  exists (hex_byte b !!! 0%nat), (hex_byte b !!! 1%nat).
  destruct b; vm_compute; repeat split; congruence.
Qed.

Lemma length_hex l : length (l ≫= hex_byte) = (2 * length l)%nat.
Proof.
  induction l as [|b l IH]; [done|].
  rewrite bind_cons, length_app, IH. simpl. lia.
Qed.

Lemma parse_hex_loop_hex l : parse_hex_loop (l ≫= hex_byte) = Some l.
Proof.
  induction l as [|b l IH]; [done|]. rewrite bind_cons.
  destruct (hex_byte_digits b) as (h & d & -> & Hh & Hl & Hb & _).
  cbn [app parse_hex_loop]. rewrite IH.
  destruct (Z.ltb_spec (hex_value h) 0); [lia|].
  destruct (Z.ltb_spec (hex_value d) 0); [lia|]. cbn [orb]. congruence.
Qed.

Lemma strip_0x_hex l : strip_0x (l ≫= hex_byte) = l ≫= hex_byte.
Proof.
  destruct l as [|b l]; [done|]. rewrite bind_cons.
  destruct (hex_byte_digits b) as (h & d & -> & _ & _ & _ & Hx & HX & _).
  cbn [app strip_0x].
  destruct (Z.eqb_spec (byte_val d) 120); [done|].
  destruct (Z.eqb_spec (byte_val d) 88); [done|].
  rewrite andb_false_r. done.
Qed.

Lemma parse_hex_n_hex l : parse_hex_n (length l) (l ≫= hex_byte) = Some l.
Proof.
  unfold parse_hex_n. rewrite strip_0x_hex, parse_hex_loop_hex.
  unfold zlen. rewrite length_hex.
  destruct (Z.eqb_spec (Z.of_nat (2 * length l)) (Z.of_nat (length l) * 2)); [done|lia].
Qed.

Lemma length_parse_hex_loop n : forall s l,
  length s = (n * 2)%nat -> parse_hex_loop s = Some l -> length l = n.
Proof.
  induction n as [|n IH]; intros [|a [|b s]] l Hs; try discriminate Hs; cbn.
  - intros [= <-]. done.
  - case_cond; [done|]. destruct (parse_hex_loop s) as [p|] eqn:Hp; [|done].
    intros [= <-]. simpl. f_equal. apply (IH s); [|done].
    simpl in Hs. lia.
Qed.

Lemma length_parse_hex_n n s l : parse_hex_n n s = Some l -> length l = n.
Proof.
  unfold parse_hex_n. case_cond; [done|]. bool_norm.
  apply length_parse_hex_loop. unfold zlen in E. lia.
Qed.

Lemma parse_convid_valid text c :
  parse_convid_hex text = Some c -> conv_wf c /\ conv_empty c = false.
Proof.
  unfold parse_convid_hex, parse_hex_256.
  destruct (parse_hex_n 32 text) as [v|] eqn:Hv; [|done]. case_cond; [done|].
  intros [= <-]. split; [|done]. exact (length_parse_hex_n _ _ _ Hv).
Qed.

Lemma parse_convid_print c :
  conv_wf c -> conv_empty c = false -> parse_convid_hex (convid_to_hex c) = Some c.
Proof.
  intros Hwf He. unfold parse_convid_hex, parse_hex_256, convid_to_hex, hex_256.
  unfold conv_wf, kConvSize in Hwf. rewrite <- Hwf, parse_hex_n_hex.
  destruct c as [l]. cbn [conv_bytes]. rewrite He. done.
Qed.

(** The hexadecimal text of an identifier (the form in which node ids
    travel in discovery messages and are stored in the route table) parses back
    to the identifier; the all-zero identifier is the one exception, it is
    rejected. *)
Theorem convid_hex_roundtrip c :
  conv_wf c ->
  parse_convid_hex (convid_to_hex c) =
    (if bool_decide (c = KcpConv_default) then None else Some c).
Proof.
  intros Hwf. destruct (conv_empty c) eqn:He.
  - apply conv_empty_default in He; [|done]. subst c. done.
  - rewrite parse_convid_print by done. rewrite bool_decide_eq_false_2; [done|].
    intros ->. discriminate He.
Qed.

Lemma convid_hex_roundtrip_witness :
  parse_convid_hex (convid_to_hex (from_uint32 0xdeadbeef)) = Some (from_uint32 0xdeadbeef).
Proof. apply (convid_hex_roundtrip (from_uint32 0xdeadbeef)). vm_compute. reflexivity. Defined.

(** A signature or key printed in hexadecimal parses back unchanged
    ([hex_512] / [parse_hex_512], [hex_256] / [parse_hex_256]), and the parsers
    return arrays of exactly the declared size. *)
Theorem hex_codec_roundtrip sig key :
  length sig = 64%nat -> length key = 32%nat ->
  parse_hex_512 (hex_512 sig) = Some sig /\ parse_hex_256 (hex_256 key) = Some key
  /\ (forall text out, parse_hex_512 text = Some out -> length out = 64%nat)
  /\ (forall text out, parse_hex_256 text = Some out -> length out = 32%nat).
Proof.
  intros Hs Hk. unfold parse_hex_512, parse_hex_256. split_and!.
  - rewrite <- Hs. apply parse_hex_n_hex.
  - rewrite <- Hk. apply parse_hex_n_hex.
  - intros ? ?; apply length_parse_hex_n.
  - intros ? ?; apply length_parse_hex_n.
Qed.

Lemma hex_codec_roundtrip_witness :
  parse_hex_512 (hex_512 (replicate 64 xab)) = Some (replicate 64 xab)
  /\ parse_hex_256 (hex_256 (replicate 32 x01)) = Some (replicate 32 x01).
Proof.
  destruct (hex_codec_roundtrip (replicate 64 xab) (replicate 32 x01) eq_refl eq_refl)
    as (H1 & H2 & _). split; [exact H1 | exact H2].
Defined.

(** ** Decimal numbers *)

Lemma digit_props d : 0 <= d < 10 ->
  byte_val (digit d) = 48 + d /\ is_digit (digit d) = true /\ digit d <> x3a
  /\ digit d <> x00 /\ is_space (digit d) = false.
Proof.
  intros Hd. assert (d = 0 \/ d = 1 \/ d = 2 \/ d = 3 \/ d = 4 \/ d = 5 \/ d = 6
    \/ d = 7 \/ d = 8 \/ d = 9) as Hc by lia.
  repeat (destruct Hc as [-> | Hc]; [vm_compute; repeat split; congruence|]).
  subst d. vm_compute; repeat split; congruence.
Qed.

(** The value of a digit string read from the left. *)
Definition digits_value (acc : Z) (ds : list Z) : Z := fold_left (fun a d => a * 10 + d) ds acc.

Lemma to_string_loop_spec fuel : forall z acc,
  0 <= z < 10 ^ Z.of_nat fuel -> (0 < fuel)%nat ->
  exists ds, to_string_loop fuel z acc = (digit <$> ds) ++ acc
    /\ ds <> [] /\ Forall (fun d => 0 <= d < 10) ds
    /\ forall a, digits_value a ds = a * 10 ^ zlen ds + z.
Proof.
  induction fuel as [|fuel IH]; intros z acc Hz Hf; [lia|].
  cbn [to_string_loop]. pose proof (Z.mod_pos_bound z 10 ltac:(lia)) as Hm.
  pose proof (Z.div_mod z 10 ltac:(lia)) as Hdm.
  destruct (Z.eqb_spec (z / 10) 0) as [E|E].
  - exists [z mod 10]. split_and!; [done..| |].
    + constructor; [done|constructor].
    + intros a. unfold digits_value. cbn [fold_left].
      change (10 ^ zlen [z mod 10]) with 10. lia.
  - rewrite Nat2Z.inj_succ, Z.pow_succ_r in Hz by lia.
    assert (0 <= z / 10 < 10 ^ Z.of_nat fuel) as Hq by (Z.div_mod_to_equations; lia).
    assert (0 < fuel)%nat as Hf' by (destruct fuel; [simpl in Hq; lia|lia]).
    destruct (IH (z / 10) (digit (z mod 10) :: acc) Hq Hf') as (ds & -> & Hne & Hds & Hv).
    exists (ds ++ [z mod 10]). split_and!.
    + rewrite fmap_app, <- app_assoc. done.
    + intros H%app_eq_nil. destruct H; done.
    + apply Forall_app. split; [done|]. constructor; [done|constructor].
    + intros a. unfold digits_value in *. rewrite fold_left_app, Hv. cbn [fold_left].
      rewrite zlen_app, Z.pow_add_r by (auto with iota; done).
      change (10 ^ zlen [z mod 10]) with 10. lia.
Qed.

Lemma scan_digits_value ds rest : Forall (fun d => 0 <= d < 10) ds ->
  match rest with [] => True | b :: _ => is_digit b = false end ->
  forall acc, scan_digits acc ((digit <$> ds) ++ rest) = (digits_value acc ds, rest).
Proof.
  intros Hds Hrest. induction Hds as [|d ds Hd _ IH]; intros acc.
  - cbn. destruct rest as [|b rest]; [done|]. cbn. rewrite Hrest. done.
  - cbn [fmap list_fmap app scan_digits].
    destruct (digit_props d Hd) as (Hv & -> & _). rewrite Hv, IH.
    unfold digits_value. cbn. do 3 f_equal. lia.
Qed.

Lemma to_string_spec z : fits 64 z -> exists ds,
  to_string z = digit <$> ds /\ ds <> [] /\ Forall (fun d => 0 <= d < 10) ds
  /\ digits_value 0 ds = z.
Proof.
  intros Hz. unfold fits in Hz.
  destruct (to_string_loop_spec 20 z [] ltac:(lia) ltac:(lia)) as (ds & E & Hne & Hds & Hv).
  exists ds. rewrite app_nil_r in E. split_and!; [done..|]. rewrite Hv. lia.
Qed.

Lemma strtoul10_to_string z : fits 64 z -> strtoul10 (to_string z) = Some (z, []).
Proof.
  intros Hz. destruct (to_string_spec z Hz) as (ds & -> & Hne & Hds & Hv).
  destruct ds as [|d ds]; [done|].
  pose proof (scan_digits_value (d :: ds) [] Hds I 0) as Hscan.
  rewrite app_nil_r in Hscan. inversion Hds as [|? ? Hd _]; subst.
  destruct (digit_props d Hd) as (Hval & Hdig & _ & _ & Hsp).
  unfold strtoul10. cbn [fmap list_fmap] in *. cbn [skip_space]. rewrite Hsp.
  destruct (Z.eqb_spec (byte_val (digit d)) 45); [lia|].
  destruct (Z.eqb_spec (byte_val (digit d)) 43); [lia|].
  rewrite Hdig, Hscan. unfold fits in Hz. unfold u64_max.
  destruct (Z.ltb_spec (2 ^ 64 - 1) (digits_value 0 (d :: ds))); [lia|done].
Qed.

Lemma to_string_clean z : fits 64 z ->
  to_string z <> [] /\ (x3a ∉ to_string z) /\ (x00 ∉ to_string z).
Proof.
  intros Hz. destruct (to_string_spec z Hz) as (ds & -> & Hne & Hds & _). split_and!.
  - destruct ds; done.
  - intros (d & E & Hin)%list_elem_of_fmap.
    pose proof (proj1 (Forall_forall _ _) Hds d Hin) as Hd. simpl in Hd.
    destruct (digit_props d Hd) as (_ & _ & Hc & _). congruence.
  - intros (d & E & Hin)%list_elem_of_fmap.
    pose proof (proj1 (Forall_forall _ _) Hds d Hin) as Hd. simpl in Hd.
    destruct (digit_props d Hd) as (_ & _ & _ & Hc & _). congruence.
Qed.

(** ** Searching *)

Lemma find_byte_app c s r : c ∉ s -> find_byte c (s ++ c :: r) = Some (length s).
Proof.
  induction s as [|b s IH]; intros Hc; cbn.
  - rewrite bool_decide_eq_true_2; done.
  - apply not_elem_of_cons in Hc as [Hb Hs].
    rewrite bool_decide_eq_false_2 by congruence. rewrite IH by done. done.
Qed.

Lemma find_byte_None c s : c ∉ s -> find_byte c s = None.
Proof.
  induction s as [|b s IH]; intros Hc; cbn; [done|].
  apply not_elem_of_cons in Hc as [Hb Hs].
  rewrite bool_decide_eq_false_2 by congruence. rewrite IH by done. done.
Qed.

Lemma find_byte_Some c s n : find_byte c s = Some n ->
  exists r, s = take n s ++ c :: r /\ (c ∉ take n s) /\ length (take n s) = n.
Proof.
  revert n. induction s as [|b s IH]; intros n; cbn; [done|].
  case_bool_decide as Hb.
  - intros [= <-]. subst b. exists s. split_and!; [done|set_solver|done].
  - destruct (find_byte c s) as [m|] eqn:E; [|done]. intros [= <-].
    destruct (IH m eq_refl) as (r & Hs & Hn & Hl). exists r. cbn. split_and!.
    + f_equal. done.
    + apply not_elem_of_cons. done.
    + f_equal. done.
Qed.

Lemma c_str_clean s : x00 ∉ s -> c_str s = s.
Proof.
  induction s as [|b s IH]; intros H; cbn; [done|].
  apply not_elem_of_cons in H as [Hb Hs].
  rewrite bool_decide_eq_false_2 by congruence. rewrite IH; done.
Qed.

Lemma str_empty_false s : s <> [] -> str_empty s = false.
Proof.
  intros H. apply Z.eqb_neq. intros E. apply zlen_zero in E. done.
Qed.

Lemma hex_no_colon l : x3a ∉ (l ≫= hex_byte).
Proof.
  intros (b & Hin & _)%list_elem_of_bind.
  destruct (hex_byte_digits b) as (h & d & E & _ & _ & _ & _ & _ & Hh & Hd).
  rewrite E in Hin. set_solver.
Qed.

(** ** Node addresses *)

(** What every address the program accepts satisfies; [RouteManager.cpp] checks
    the non-emptiness part as [valid_route_node]. *)
Definition address_ok (n : NodeAddress) : Prop :=
  host (endpoint n) <> [] /\ 0 < port (endpoint n) <= 65535
  /\ conv_wf (node_id n) /\ conv_empty (node_id n) = false.

Definition address_text (n : NodeAddress) : bytes :=
  endpoint_to_string (endpoint n) ++ str ":" ++ convid_to_hex (node_id n).

(** The parser on a text with exactly two separators. *)
Lemma parse_node_address_split h p i :
  x3a ∉ h -> x3a ∉ p -> x3a ∉ i ->
  parse_node_address (h ++ x3a :: p ++ x3a :: i) =
    (if str_empty h || str_empty p || str_empty i then None
     else match strtoul10 (c_str p) with
          | None => None
          | Some (port, rest) =>
              if negb (str_empty rest) || (port =? 0) || (65535 <? port) then None
              else match parse_convid_hex i with
                   | None => None
                   | Some id => Some {| endpoint := {| host := h; port := wrap 16 port |};
                                        node_id := id |}
                   end
          end).
Proof.
  intros Hh Hp Hi. unfold parse_node_address, find_from.
  rewrite drop_0, find_byte_app by done. cbn [fmap option_fmap option_map Nat.add].
  assert (drop (length h + 1) (h ++ x3a :: p ++ x3a :: i) = p ++ x3a :: i) as D1.
  { rewrite drop_app_ge by lia. replace (length h + 1 - length h)%nat with 1%nat by lia. done. }
  rewrite D1, find_byte_app by done. cbn [fmap option_fmap option_map].
  assert (drop (length h + 1 + length p + 1) (h ++ x3a :: p ++ x3a :: i) = i) as D2.
  { rewrite <- drop_drop, <- drop_drop, D1, drop_app_length. done. }
  rewrite D2, find_byte_None by done. cbn [fmap option_fmap option_map].
  replace (length h + 1 + length p - length h - 1)%nat with (length p) by lia.
  rewrite take_app_length, take_app_length. done.
Qed.

(** Printing an address as [host:port:id] and parsing the text gives the
    address back, for every address with a non-empty host without a colon, a
    non-zero port and a non-zero id. *)
Theorem node_address_roundtrip n :
  address_ok n -> x3a ∉ host (endpoint n) ->
  parse_node_address (address_text n) = Some n.
Proof.
  destruct n as [[h p] id]. intros (Hh & Hp & Hwf & He) Hc.
  cbn [endpoint host port node_id] in Hh, Hp, Hwf, He, Hc.
  assert (fits 64 p) as Hfit by (split; lia).
  destruct (to_string_clean p Hfit) as (Hne & Hcolon & Hnul).
  unfold address_text, endpoint_to_string. cbn [endpoint host port node_id].
  rewrite <- !app_assoc. change (str ":") with [x3a]. cbn [app].
  rewrite parse_node_address_split by (done || apply hex_no_colon).
  rewrite (str_empty_false h), (str_empty_false (to_string p)) by done.
  rewrite str_empty_false; cycle 1.
  { intros E. apply (f_equal length) in E. unfold convid_to_hex, hex_256 in E.
    rewrite length_hex, Hwf in E. discriminate E. }
  cbn [orb]. rewrite c_str_clean, strtoul10_to_string by done.
  cbn [str_empty zlen length negb orb Z.of_nat].
  destruct (Z.eqb_spec p 0); [lia|]. destruct (Z.ltb_spec 65535 p); [lia|].
  cbn. rewrite parse_convid_print by done.
  rewrite wrap_id by (split; lia). done.
Qed.

Lemma node_address_roundtrip_witness :
  let n := {| endpoint := {| host := str "10.0.0.7"; port := 9000 |};
              node_id := from_uint32 77 |} in
  parse_node_address (address_text n) = Some n.
Proof.
  intros n. apply (node_address_roundtrip n).
  - repeat split; vm_compute; congruence.
  - apply (bool_decide_unpack _). vm_compute. exact I.
Defined.

Lemma find_byte_split3 c text f s :
  find_from c text 0 = Some f -> find_from c text (f + 1) = Some s ->
  find_from c text (s + 1) = None ->
  exists h p i, text = h ++ c :: p ++ c :: i /\ (c ∉ h) /\ (c ∉ p) /\ (c ∉ i).
Proof.
  unfold find_from. rewrite drop_0.
  destruct (find_byte c text) as [m|] eqn:E1; [|done]. intros [= <-].
  destruct (find_byte_Some _ _ _ E1) as (r & Ht & Hh & Hl).
  assert (drop (m + 1) text = r) as D1.
  { rewrite Ht, drop_app_ge by lia. rewrite Hl.
    replace (m + 1 - m)%nat with 1%nat by lia. done. }
  simpl (0 + m)%nat. rewrite D1.
  destruct (find_byte c r) as [k|] eqn:E2; [|done]. intros [= <-].
  destruct (find_byte_Some _ _ _ E2) as (i & Hr & Hp & Hk).
  replace (m + 1 + k + 1)%nat with (m + 1 + (k + 1))%nat by lia.
  rewrite <- drop_drop, D1.
  assert (drop (k + 1) r = i) as D2.
  { rewrite Hr, drop_app_ge by lia. rewrite Hk.
    replace (k + 1 - k)%nat with 1%nat by lia. done. }
  rewrite D2. destruct (find_byte c i) eqn:E3; [done|]. intros _.
  exists (take m text), (take k r), i. rewrite <- Hr, <- Ht. split_and!; [done..|].
  clear - E3. induction i as [|b i IH]; [set_solver|]. cbn in E3.
  case_bool_decide as Hb; [done|].
  destruct (find_byte c i); [done|]. apply not_elem_of_cons. split; [done|]. auto.
Qed.

Lemma scan_digits_nonneg s : forall acc, 0 <= acc -> 0 <= (scan_digits acc s).1.
Proof.
  induction s as [|b s IH]; intros acc Hacc; [done|]. cbn [scan_digits].
  unfold is_digit. case_cond; [|done]. bool_norm. apply IH. lia.
Qed.

Lemma strtoul10_nonneg s v rest : strtoul10 s = Some (v, rest) -> 0 <= v.
Proof.
  unfold strtoul10. destruct (match skip_space s with [] => _ | _ => _ end) as [neg r].
  destruct r as [|b r]; [done|]. case_cond; [|done].
  pose proof (scan_digits_nonneg (b :: r) 0 ltac:(lia)) as Hv.
  destruct (scan_digits 0 (b :: r)) as [w q]. intros [= <- <-]. cbn in Hv.
  case_cond; [done|]. case_cond; [|done]. apply wrap_fits. lia.
Qed.

(** Every address the textual parser accepts is usable as a route: host not
    empty and free of colons, port in 1..65535, id of 32 bytes and not zero. *)
Theorem parse_node_address_ok text n :
  parse_node_address text = Some n -> address_ok n /\ x3a ∉ host (endpoint n).
Proof.
  intros H. destruct (find_from x3a text 0) as [f|] eqn:E1;
    [|unfold parse_node_address in H; rewrite E1 in H; done].
  destruct (find_from x3a text (f + 1)) as [s|] eqn:E2;
    [|unfold parse_node_address in H; rewrite E1, E2 in H; done].
  destruct (find_from x3a text (s + 1)) as [u|] eqn:E3;
    [unfold parse_node_address in H; rewrite E1, E2, E3 in H; done|].
  destruct (find_byte_split3 _ _ _ _ E1 E2 E3) as (h & p & i & -> & Hh & Hp & Hi).
  rewrite parse_node_address_split in H by done.
  case_cond_in H; [done|]. destruct (strtoul10 (c_str p)) as [[v rest]|] eqn:Hv; [|done].
  case_cond_in H; [done|]. destruct (parse_convid_hex i) as [id|] eqn:Hid; [|done].
  injection H as <-. bool_norm. destruct (parse_convid_valid _ _ Hid) as [Hwf He].
  pose proof (strtoul10_nonneg _ _ _ Hv).
  rewrite wrap_id by (split; lia).
  unfold address_ok. cbn. split_and!; try done; try lia.
  intros ->. discriminate.
Qed.

Lemma parse_node_address_ok_witness :
  exists n, parse_node_address (str "host:80:0x" ++ convid_to_hex (from_uint32 1)) = Some n
            /\ address_ok n.
Proof.
  eexists. split; [vm_compute; reflexivity|].
  refine (proj1 (parse_node_address_ok
    (str "host:80:0x" ++ convid_to_hex (from_uint32 1)) _ _)).
  vm_compute. reflexivity.
Defined.

(** The port field is read with [strtoul], so texts that are not port
    numbers are accepted: leading blanks, a plus sign, and negative numbers that
    wrap modulo 2^64 ("-18446744073709551615" is port 1). *)
Theorem parse_node_address_signed_port :
  port ∘ endpoint <$>
    parse_node_address (str "h:-18446744073709551615:" ++ convid_to_hex (from_uint32 1))
    = Some 1
  /\ port ∘ endpoint <$> parse_node_address (str "h: +80:" ++ convid_to_hex (from_uint32 1))
    = Some 80.
Proof. split; vm_compute; reflexivity. Qed.
