(* ===== verification/Double.v ===== *)
(** IEEE 754 binary64 arithmetic as the program's [double]: the operations of
    Corelib's [SpecFloat] at precision 53 and maximal exponent 1024, the
    conversions and comparisons the program uses, and the order facts the route
    and admission components rely on. *)
From Stdlib Require Import SpecFloat.
From S2P Require Import Prelude.

Abbreviation double := spec_float.

Definition dadd : double -> double -> double := SFadd 53 1024.
Definition dsub : double -> double -> double := SFsub 53 1024.
Definition dmul : double -> double -> double := SFmul 53 1024.
Definition ddiv : double -> double -> double := SFdiv 53 1024.

(** [static_cast<double>] of an integer: round to nearest even. *)
Definition d_of_Z (z : Z) : double := binary_normalize 53 1024 z 0 false.

(** A decimal literal [n / d] with [n] and [d] exactly representable: the
    correctly rounded quotient is the value of the literal. *)
Definition d_lit (n d : Z) : double := ddiv (d_of_Z n) (d_of_Z d).

(** The comparisons of C++: false as soon as an operand is a NaN. *)
Definition dlt (x y : double) : bool := SFltb x y.
Definition dle (x y : double) : bool := SFleb x y.
Definition deq (x y : double) : bool := SFeqb x y.

(** [std::min(a, b)] is [b < a ? b : a]; [std::max(a, b)] is [a < b ? b : a]. *)
Definition dmin (a b : double) : double := if dlt b a then b else a.
Definition dmax (a b : double) : double := if dlt a b then b else a.

(** [std::numeric_limits<double>::max()] *)
Definition DBL_MAX : double := SFmax_float 53 1024.

Definition is_nan (x : double) : bool := match x with S754_nan => true | _ => false end.

(** ** Order facts *)

(** Comparison is lexicographic on a sign class, the exponent and the mantissa;
    [rank] makes that explicit. *)
Definition fin_rank (s : bool) (m : positive) (e : Z) : Z * Z :=
  if s then (- e, - Zpos m) else (e, Zpos m).

Lemma dlt_fin s m e s' m' e' :
  dlt (S754_finite s m e) (S754_finite s' m' e') = true <->
  (s = true /\ s' = false) \/
  (s = s' /\ let '(a, b) := fin_rank s m e in let '(c, d) := fin_rank s' m' e' in
             a < c \/ (a = c /\ b < d)).
Proof.
  unfold dlt, SFltb, SFcompare, fin_rank.
  change (Pos.compare_cont Eq m m') with (Pos.compare m m').
  destruct s, s'.
  - destruct (Z.compare_spec e e'), (Pos.compare_spec m m'); simpl;
      (split; intros Hc; [first [discriminate Hc | right; split; [done|lia]]
                        | destruct Hc as [[? ?]|[_ ?]]; [discriminate|];
                          first [reflexivity | lia]]).
  - split; auto.
  - split; [discriminate|]. intros [[? ?]|[? ?]]; discriminate.
  - destruct (Z.compare_spec e e'), (Pos.compare_spec m m'); simpl;
      (split; intros Hc; [first [discriminate Hc | right; split; [done|lia]]
                        | destruct Hc as [[? ?]|[_ ?]]; [discriminate|];
                          first [reflexivity | lia]]).
Qed.

Lemma dlt_trans a b c : dlt a b = true -> dlt b c = true -> dlt a c = true.
Proof.
  destruct a as [sa|sa| |sa ma ea], b as [sb|sb| |sb mb eb], c as [sc|sc| |sc mc ec];
    try (destruct sa); try (destruct sb); try (destruct sc);
    try (intros; discriminate); try (intros; reflexivity);
    rewrite ?dlt_fin; unfold fin_rank; intros;
    repeat match goal with
    | H : _ \/ _ |- _ => destruct H
    | H : _ /\ _ |- _ => destruct H
    end; try discriminate; try (by auto); right; split; auto; lia.
Qed.

Lemma dlt_irrefl a : dlt a a = false.
Proof.
  destruct a as [[]|[]| |s m e]; try reflexivity.
  destruct (dlt _ _) eqn:E; [|done]. apply dlt_fin in E.
  destruct E as [[-> ?]|[_ E]]; [done|]. destruct s; unfold fin_rank in E; lia.
Qed.

Lemma dlt_asym a b : dlt a b = true -> dlt b a = false.
Proof.
  intros H. destruct (dlt b a) eqn:E; [|done].
  pose proof (dlt_irrefl a).
  pose proof (dlt_trans a b a H E). congruence.
Qed.

(** An element that does not exceed [a] does not exceed anything above [a]. *)
Lemma dlt_ntrans a b s : dlt a s = false -> dlt a b = true -> dlt b s = false.
Proof.
  intros Has Hab. destruct (dlt b s) eqn:E; [|done].
  rewrite (dlt_trans a b s) in Has; done.
Qed.

Lemma dmin_le_l a b : dlt a (dmin a b) = false.
Proof.
  unfold dmin. destruct (dlt b a) eqn:E; [apply dlt_asym; done | apply dlt_irrefl].
Qed.

Lemma dmin_not_nan a b : is_nan a = false -> is_nan (dmin a b) = false.
Proof.
  intros Ha. unfold dmin. destruct (dlt b a) eqn:E; [|done].
  destruct b; try done; destruct a; done.
Qed.

(** Values that compare equal are interchangeable in comparisons. *)
Lemma deq_cases a b : deq a b = true ->
  a = b \/ exists s s', a = S754_zero s /\ b = S754_zero s'.
Proof.
  unfold deq, SFeqb, SFcompare.
  destruct a as [sa|sa| |sa ma ea], b as [sb|sb| |sb mb eb]; try discriminate;
    try (destruct sa); try (destruct sb); try discriminate; eauto 6;
    change (Pos.compare_cont Eq ma mb) with (Pos.compare ma mb);
    destruct (Z.compare_spec ea eb), (Pos.compare_spec ma mb); try discriminate;
    subst; auto.
Qed.

Lemma deq_dlt_l a b c : deq a b = true -> dlt a c = dlt b c.
Proof. intros [->|(? & ? & -> & ->)]%deq_cases; [done|]. destruct c; done. Qed.

Lemma deq_dlt_r a b c : deq a b = true -> dlt c a = dlt c b.
Proof. intros [->|(? & ? & -> & ->)]%deq_cases; [done|]. destruct c; done. Qed.

Lemma deq_trans a b c : deq a b = true -> deq b c = true -> deq a c = true.
Proof.
  intros [->|(? & ? & -> & ->)]%deq_cases; [done|].
  intros [<-|(? & ? & [= <-] & ->)]%deq_cases; done.
Qed.

(** ** Signs and NaNs *)

(** Not negative: +0, a positive number or +infinity. *)
Definition dnonneg (x : double) : bool :=
  match x with
  | S754_zero s | S754_infinity s | S754_finite s _ _ => negb s
  | S754_nan => false
  end.

Lemma dnonneg_not_nan x : dnonneg x = true -> is_nan x = false.
Proof. destruct x; done. Qed.

Lemma shr_1_nonneg mrs : 0 <= shr_m mrs -> 0 <= shr_m (shr_1 mrs).
Proof. destruct mrs as [[|[p|p|]|p] r s]; cbn; lia. Qed.

Lemma iter_shr_nonneg p : forall mrs, 0 <= shr_m mrs -> 0 <= shr_m (@SpecFloat.iter_pos _ shr_1 p mrs).
Proof.
  induction p as [p IH|p IH|]; intros mrs Hm; cbn; auto using shr_1_nonneg.
Qed.

Lemma shr_record_of_loc_m m l : shr_m (shr_record_of_loc m l) = m.
Proof. destruct l as [|[]]; done. Qed.

Lemma shr_fexp_nonneg m e l : 0 <= m -> 0 <= shr_m (shr_fexp 53 1024 m e l).1.
Proof.
  intros Hm. unfold shr_fexp, shr. destruct (_ - _); cbn [fst];
    rewrite ?shr_record_of_loc_m; auto.
  apply iter_shr_nonneg. rewrite shr_record_of_loc_m. done.
Qed.

Lemma round_nonneg m l : 0 <= m -> 0 <= round_nearest_even m l.
Proof. intros Hm. destruct l as [|[]]; cbn; repeat case_cond; lia. Qed.

Lemma binary_round_aux_nonneg m e l :
  0 <= m -> dnonneg (binary_round_aux 53 1024 false m e l) = true.
Proof.
  intros Hm. unfold binary_round_aux.
  pose proof (shr_fexp_nonneg m e l Hm) as H1.
  destruct (shr_fexp 53 1024 m e l) as [mrs e1]. cbn [fst] in H1.
  pose proof (shr_fexp_nonneg (round_nearest_even (shr_m mrs) (loc_of_shr_record mrs)) e1
    loc_Exact (round_nonneg _ _ H1)) as H2.
  destruct (shr_fexp _ _ _ e1 _) as [mrs2 e2]. cbn [fst] in H2.
  destruct (shr_m mrs2); [done| |lia]. case_cond; done.
Qed.

Lemma binary_normalize_nonneg m e :
  0 <= m -> dnonneg (binary_normalize 53 1024 m e false) = true.
Proof.
  intros Hm. unfold binary_normalize. destruct m; [done| |lia].
  unfold binary_round. destruct (shl_align _ _ _). apply binary_round_aux_nonneg. lia.
Qed.

Lemma d_of_Z_nonneg z : 0 <= z -> dnonneg (d_of_Z z) = true.
Proof. apply binary_normalize_nonneg. Qed.

Lemma dadd_nonneg x y : dnonneg x = true -> dnonneg y = true -> dnonneg (dadd x y) = true.
Proof.
  destruct x as [[]|[]| |[] mx ex], y as [[]|[]| |[] my ey]; try done. intros _ _.
  unfold dadd, SFadd. apply binary_normalize_nonneg. cbn. lia.
Qed.

(** Two numbers that are not NaN are comparable. *)
Lemma dlt_total a b : is_nan a = false -> is_nan b = false -> dlt a b = false ->
  dlt b a = true \/ deq a b = true.
Proof.
  unfold dlt, deq, SFltb, SFeqb, SFcompare.
  destruct a as [sa|sa| |sa ma ea], b as [sb|sb| |sb mb eb]; try discriminate;
    try (destruct sa); try (destruct sb); auto; try discriminate; intros _ _;
    rewrite ?(Z.compare_antisym ea eb);
    change (Pos.compare_cont Eq ma mb) with (Pos.compare ma mb);
    change (Pos.compare_cont Eq mb ma) with (Pos.compare mb ma);
    rewrite ?(Pos.compare_antisym ma mb);
    destruct (Z.compare_spec ea eb), (Pos.compare_spec ma mb); cbn; auto; discriminate.
Qed.
