(* ===== verification/Routes.v ===== *)
(** The route table of a node: iota_proxy/src/discovery/RouteManager.cpp.

    [RouteManager] is the state of the class; each public method is a function
    from the clock reading it takes and the state to its result and the new
    state.  Every method body runs under [mutex_], so methods are atomic.
    Persistence to JSON is not part of this file. *)
From S2P Require Import Prelude KcpConv Frames Identity Double.

(** ** Data *)

Module RouteState.
(** [enum class RouteState] *)
Inductive t : Set := New | Tried | Bad.

#[global] Instance t_eq_dec : EqDecision t.
Proof. solve_decision. Defined.
End RouteState.

(** [struct NodeCapability] *)
Record NodeCapability := mkCapability {
  present : bool;
  accepting_ingress : bool;
  cap_max_kcp_links : Z;
  cap_current_kcp_links : Z;
  cap_max_ingress_streams : Z;
  cap_current_ingress_streams : Z;
  cap_max_ingress_bytes_per_second : Z;
  cap_current_ingress_bytes_per_second : Z;
  updated_at_ms : Z;
}.

Definition NodeCapability_default : NodeCapability :=
  {| present := false; accepting_ingress := true; cap_max_kcp_links := 0;
     cap_current_kcp_links := 0; cap_max_ingress_streams := 0;
     cap_current_ingress_streams := 0; cap_max_ingress_bytes_per_second := 0;
     cap_current_ingress_bytes_per_second := 0; updated_at_ms := 0 |}.

(** [struct RouteEntry] *)
Record RouteEntry := mkEntry {
  node : NodeAddress;
  source : NodeAddress;
  capability : NodeCapability;
  state : RouteState.t;
  has_source : bool;
  kcp_connected : bool;
  attempts : Z;
  failures : Z;
  hop_count : Z;
  last_seen_ms : Z;
  last_try_ms : Z;
  last_success_ms : Z;
}.

Definition RouteEntry_default : RouteEntry :=
  {| node := NodeAddress_default; source := NodeAddress_default;
     capability := NodeCapability_default; state := RouteState.New;
     has_source := false; kcp_connected := false; attempts := 0; failures := 0;
     hop_count := 0; last_seen_ms := 0; last_try_ms := 0; last_success_ms := 0 |}.

(** Assignments to a member of an entry. *)
Definition set_node v e := mkEntry v (source e) (capability e) (state e) (has_source e)
  (kcp_connected e) (attempts e) (failures e) (hop_count e) (last_seen_ms e)
  (last_try_ms e) (last_success_ms e).
Definition set_source v e := mkEntry (node e) v (capability e) (state e) (has_source e)
  (kcp_connected e) (attempts e) (failures e) (hop_count e) (last_seen_ms e)
  (last_try_ms e) (last_success_ms e).
Definition set_capability v e := mkEntry (node e) (source e) v (state e) (has_source e)
  (kcp_connected e) (attempts e) (failures e) (hop_count e) (last_seen_ms e)
  (last_try_ms e) (last_success_ms e).
Definition set_state v e := mkEntry (node e) (source e) (capability e) v (has_source e)
  (kcp_connected e) (attempts e) (failures e) (hop_count e) (last_seen_ms e)
  (last_try_ms e) (last_success_ms e).
Definition set_has_source v e := mkEntry (node e) (source e) (capability e) (state e) v
  (kcp_connected e) (attempts e) (failures e) (hop_count e) (last_seen_ms e)
  (last_try_ms e) (last_success_ms e).
Definition set_kcp_connected v e := mkEntry (node e) (source e) (capability e) (state e)
  (has_source e) v (attempts e) (failures e) (hop_count e) (last_seen_ms e)
  (last_try_ms e) (last_success_ms e).
Definition set_attempts v e := mkEntry (node e) (source e) (capability e) (state e)
  (has_source e) (kcp_connected e) v (failures e) (hop_count e) (last_seen_ms e)
  (last_try_ms e) (last_success_ms e).
Definition set_failures v e := mkEntry (node e) (source e) (capability e) (state e)
  (has_source e) (kcp_connected e) (attempts e) v (hop_count e) (last_seen_ms e)
  (last_try_ms e) (last_success_ms e).
Definition set_hop_count v e := mkEntry (node e) (source e) (capability e) (state e)
  (has_source e) (kcp_connected e) (attempts e) (failures e) v (last_seen_ms e)
  (last_try_ms e) (last_success_ms e).
Definition set_last_seen_ms v e := mkEntry (node e) (source e) (capability e) (state e)
  (has_source e) (kcp_connected e) (attempts e) (failures e) (hop_count e) v
  (last_try_ms e) (last_success_ms e).
Definition set_last_try_ms v e := mkEntry (node e) (source e) (capability e) (state e)
  (has_source e) (kcp_connected e) (attempts e) (failures e) (hop_count e)
  (last_seen_ms e) v (last_success_ms e).
Definition set_last_success_ms v e := mkEntry (node e) (source e) (capability e) (state e)
  (has_source e) (kcp_connected e) (attempts e) (failures e) (hop_count e)
  (last_seen_ms e) (last_try_ms e) v.

(** [struct RouteNextHop] *)
Record RouteNextHop := mkNextHop {
  target : NodeAddress;
  next_hop : NodeAddress;
  direct : bool;
  next_hop_count : Z;
}.

(** [struct RouteManagerConfig] *)
Record RouteManagerConfig := mkRouteConfig {
  max_routes : Z;
  max_kcp_links : Z;
  max_response_routes : Z;
  max_response_percent : Z;
  retry_backoff_seconds : Z;
  stale_after_seconds : Z;
  give_up_attempts : Z;
  bad_failure_threshold : Z;
  max_route_hops : Z;
  capability_stale_after_seconds : Z;
}.

Definition RouteManagerConfig_default : RouteManagerConfig :=
  {| max_routes := 4096; max_kcp_links := 512; max_response_routes := 2500;
     max_response_percent := 23; retry_backoff_seconds := 60;
     stale_after_seconds := 30 * 24 * 60 * 60; give_up_attempts := 3;
     bad_failure_threshold := 10; max_route_hops := 8;
     capability_stale_after_seconds := 120 |}.

(** The members of [class RouteManager] that change, plus its configuration. *)
Record RouteManager := mkRoutes {
  config : RouteManagerConfig;
  routes : gmap KcpConv RouteEntry;
  kcp_link_count : Z;
}.

(** ** Constants and helpers *)

Definition kSecondsToMs : Z := 1000.
Definition kFutureSkewMs : Z := 10 * 60 * kSecondsToMs.
Definition kRecentTryPenaltyMs : Z := 10 * 60 * kSecondsToMs.
Definition kMinFailMs : Z := 7 * 24 * 60 * 60 * kSecondsToMs.

Definition valid_route_node (n : NodeAddress) : bool :=
  negb (str_empty (host (endpoint n))) && negb (port (endpoint n) =? 0) &&
  negb (conv_empty (node_id n)).

(** [source != nullptr && valid_route_node( *source)] *)
Definition usable_source (src : option NodeAddress) : option NodeAddress :=
  match src with
  | Some s => if valid_route_node s then Some s else None
  | None => None
  end.

Definition local_hop_count (src : option NodeAddress) (connected : bool)
    (advertised_hop_count : Z) : Z :=
  if connected then 1
  else match usable_source src with
       | Some _ => if advertised_hop_count =? u8_max then advertised_hop_count
                   else wrap 8 (advertised_hop_count + 1)
       | None => advertised_hop_count
       end.

Definition route_state_to_string (s : RouteState.t) : bytes :=
  match s with
  | RouteState.New => str "new"
  | RouteState.Tried => str "tried"
  | RouteState.Bad => str "bad"
  end.

Definition route_state_from_string (text : bytes) : RouteState.t :=
  if bool_decide (text = str "tried") then RouteState.Tried
  else if bool_decide (text = str "bad") then RouteState.Bad
  else RouteState.New.

Definition is_terrible (cfg : RouteManagerConfig) (entry : RouteEntry) (now_ms : Z) : bool :=
  if negb (last_try_ms entry =? 0) &&
     (now_ms - retry_backoff_seconds cfg * kSecondsToMs <=? last_try_ms entry) then false
  else if now_ms + kFutureSkewMs <? last_seen_ms entry then true
  else if (last_seen_ms entry =? 0) ||
          (last_seen_ms entry <? now_ms - stale_after_seconds cfg * kSecondsToMs) then true
  else if (last_success_ms entry =? 0) && (give_up_attempts cfg <=? attempts entry) then true
  else if negb (last_success_ms entry =? 0) &&
          (last_success_ms entry <? now_ms - kMinFailMs) &&
          (bad_failure_threshold cfg <=? failures entry) then true
  else false.

Definition in_retry_backoff (cfg : RouteManagerConfig) (entry : RouteEntry) (now_ms : Z) : bool :=
  if last_try_ms entry =? 0 then false
  else now_ms - retry_backoff_seconds cfg * kSecondsToMs <? last_try_ms entry.

(** ** Scores

    [pow] is the C library's [std::pow]; its rounding is not specified, so it
    is an argument of the definitions that depend on it. *)
Definition route_chance (pow : double -> double -> double)
    (entry : RouteEntry) (now_ms : Z) : double :=
  let chance := d_of_Z 1 in
  let chance :=
    if negb (last_try_ms entry =? 0) &&
       (now_ms - kRecentTryPenaltyMs <? last_try_ms entry)
    then dmul chance (d_lit 1 100) else chance in
  let attempts := Z.min (attempts entry) 8 in
  let chance := dmul chance (pow (d_lit 66 100) (d_of_Z attempts)) in
  match state entry with
  | RouteState.Tried => dmul chance (d_lit 125 100)
  | RouteState.Bad => dmul chance (d_lit 5 100)
  | RouteState.New => chance
  end.

(** One [if (max != 0)] block of [capability_score]: [None] for the early
    [return 0.0]. *)
Definition load_factor (load : double) (current maximum : Z) : option double :=
  if maximum =? 0 then Some load
  else if maximum <=? current then None
  else Some (dmax load (ddiv (d_of_Z current) (d_of_Z maximum))).

Definition capability_score (cfg : RouteManagerConfig) (entry : RouteEntry) (now_ms : Z)
    : double :=
  let cap := capability entry in
  if negb (present cap) then d_of_Z 1
  else if negb (accepting_ingress cap) then d_of_Z 0
  else if negb (updated_at_ms cap =? 0) &&
          (updated_at_ms cap <? now_ms - capability_stale_after_seconds cfg * kSecondsToMs)
  then d_lit 5 10
  else
    match load_factor (d_of_Z 0) (cap_current_kcp_links cap) (cap_max_kcp_links cap) with
    | None => d_of_Z 0
    | Some load =>
        match load_factor load (cap_current_ingress_streams cap)
                          (cap_max_ingress_streams cap) with
        | None => d_of_Z 0
        | Some load =>
            match load_factor load (cap_current_ingress_bytes_per_second cap)
                              (cap_max_ingress_bytes_per_second cap) with
            | None => d_of_Z 0
            | Some load =>
                let load := dmax (d_of_Z 0) (dmin (d_of_Z 1) load) in
                dadd (d_lit 1 10) (dmul (d_lit 9 10) (dsub (d_of_Z 1) load))
            end
        end
    end.

Definition route_score (pow : double -> double -> double) (cfg : RouteManagerConfig)
    (entry : RouteEntry) (now_ms : Z) : double :=
  let score := dmul (route_chance pow entry now_ms) (capability_score cfg entry now_ms) in
  if 1 <? hop_count entry then ddiv score (d_of_Z (hop_count entry)) else score.

(** ** Methods *)

Section route_manager.
Context {order : IterOrder KcpConv RouteEntry}.
Context (pow : double -> double -> double).

(** The constructor. *)
Definition route_manager_init (cfg : RouteManagerConfig) : RouteManager :=
  {| config := cfg; routes := ∅; kcp_link_count := 0 |}.

Definition table_size (m : gmap KcpConv RouteEntry) : Z := Z.of_nat (size m).

(** The score by which [trim_if_needed] chooses its victim. *)
Definition trim_score (cfg : RouteManagerConfig) (entry : RouteEntry) (now_ms : Z) : double :=
  let score := route_score pow cfg entry now_ms in
  if bool_decide (state entry = RouteState.Bad) then dmul score (d_lit 1 100) else score.

Fixpoint find_victim (cfg : RouteManagerConfig) (now_ms : Z)
    (items : list (KcpConv * RouteEntry)) (victim : option KcpConv) (victim_score : double)
    : option KcpConv :=
  match items with
  | [] => victim
  | (id, entry) :: items =>
      if kcp_connected entry then find_victim cfg now_ms items victim victim_score
      else
        let score := trim_score cfg entry now_ms in
        if dlt score victim_score then find_victim cfg now_ms items (Some id) score
        else find_victim cfg now_ms items victim victim_score
  end.

(** [trim_if_needed], on the table. *)
Definition trim_if_needed (cfg : RouteManagerConfig) (now_ms : Z)
    (m : gmap KcpConv RouteEntry) : gmap KcpConv RouteEntry :=
  if table_size m <? max_routes cfg then m
  else
    let m := filter (fun kv => kcp_connected kv.2 || negb (is_terrible cfg kv.2 now_ms) = true) m in
    if table_size m <? max_routes cfg then m
    else match find_victim cfg now_ms (iter_map m) None DBL_MAX with
         | Some victim => delete victim m
         | None => m
         end.

(** [capability != nullptr && capability->present] *)
Definition take_capability (cap : option NodeCapability) (e : RouteEntry) : RouteEntry :=
  match cap with
  | Some c => if present c then set_capability c e else e
  | None => e
  end.

(** The branch of [add_route] for an identifier already in the table. *)
Definition refresh_entry (n : NodeAddress) (src : option NodeAddress) (connected : bool)
    (hops : Z) (cap : option NodeCapability) (now_ms : Z) (e : RouteEntry) : RouteEntry :=
  let e := set_node n e in
  let e := set_last_seen_ms now_ms e in
  let e := take_capability cap e in
  let e :=
    match usable_source src with
    | Some s =>
        let shorter_path := (hop_count e =? 0) || (hops <? hop_count e) in
        if negb (kcp_connected e) && shorter_path
        then set_hop_count hops (set_has_source true (set_source s e))
        else e
    | None => e
    end in
  let e := if bool_decide (state e = RouteState.Bad) then set_state RouteState.New e else e in
  let e := if connected && negb (kcp_connected e) then set_kcp_connected true e else e in
  if connected then
    set_has_source false (set_hop_count 1 (set_failures 0
      (set_last_success_ms now_ms (set_state RouteState.Tried e))))
  else e.

(** The entry [add_route] creates for a new identifier. *)
Definition fresh_entry (n : NodeAddress) (src : option NodeAddress) (connected : bool)
    (hops : Z) (cap : option NodeCapability) (now_ms : Z) : RouteEntry :=
  let e := set_node n RouteEntry_default in
  let e := take_capability cap e in
  let e := set_last_seen_ms now_ms e in
  let e := set_kcp_connected connected e in
  let e := set_hop_count hops e in
  let e := if connected then set_last_success_ms now_ms (set_state RouteState.Tried e) else e in
  match usable_source src with
  | Some s => set_has_source true (set_source s e)
  | None => e
  end.

Definition add_route (now_ms : Z) (n : NodeAddress) (src : option NodeAddress)
    (connected : bool) (advertised_hop_count : Z) (cap : option NodeCapability)
    (st : RouteManager) : bool * RouteManager :=
  if negb (valid_route_node n) then (false, st)
  else
    let hops := local_hop_count src connected advertised_hop_count in
    if max_route_hops (config st) <? hops then (false, st)
    else
      match routes st !! node_id n with
      | Some e =>
          let links := if connected && negb (kcp_connected e)
                       then kcp_link_count st + 1 else kcp_link_count st in
          (false,
           {| config := config st;
              routes := <[node_id n := refresh_entry n src connected hops cap now_ms e]>
                          (routes st);
              kcp_link_count := links |})
      | None =>
          let m := trim_if_needed (config st) now_ms (routes st) in
          let m := if max_routes (config st) <=? table_size m
                   then trim_if_needed (config st) now_ms m else m in
          if max_routes (config st) <=? table_size m
          then (false, {| config := config st; routes := m;
                          kcp_link_count := kcp_link_count st |})
          else
            let links := if connected then kcp_link_count st + 1 else kcp_link_count st in
            (true,
             {| config := config st;
                routes := <[node_id n := fresh_entry n src connected hops cap now_ms]> m;
                kcp_link_count := links |})
      end.

Definition mark_attempt (now_ms : Z) (id : KcpConv) (st : RouteManager) : bool * RouteManager :=
  match routes st !! id with
  | None => (false, st)
  | Some e =>
      let e := set_last_try_ms now_ms e in
      let e := if attempts e <? u32_max then set_attempts (attempts e + 1) e else e in
      (true, {| config := config st; routes := <[id := e]> (routes st);
                kcp_link_count := kcp_link_count st |})
  end.

Definition success_entry (now_ms : Z) (connected : bool) (e : RouteEntry) : RouteEntry :=
  let e := set_state RouteState.Tried e in
  let e := set_failures 0 e in
  let e := set_attempts 0 e in
  let e := set_last_seen_ms now_ms e in
  let e := set_last_try_ms now_ms e in
  let e := set_last_success_ms now_ms e in
  let e := if connected && negb (kcp_connected e) then set_kcp_connected true e else e in
  if connected then set_has_source false (set_hop_count 1 e) else e.

Definition mark_success (now_ms : Z) (id : KcpConv) (connected : bool) (st : RouteManager)
    : bool * RouteManager :=
  match routes st !! id with
  | None => (false, st)
  | Some e =>
      let links := if connected && negb (kcp_connected e)
                   then kcp_link_count st + 1 else kcp_link_count st in
      (true, {| config := config st;
                routes := <[id := success_entry now_ms connected e]> (routes st);
                kcp_link_count := links |})
  end.

Definition failure_entry (cfg : RouteManagerConfig) (now_ms : Z) (e : RouteEntry) : RouteEntry :=
  let e := set_last_try_ms now_ms e in
  let e := if failures e <? u32_max then set_failures (failures e + 1) e else e in
  let e := if kcp_connected e then set_kcp_connected false e else e in
  if is_terrible cfg e now_ms || (bad_failure_threshold cfg <=? failures e)
  then set_state RouteState.Bad e
  else if last_success_ms e =? 0 then set_state RouteState.New e else e.

(** [if (entry.kcp_connected) { ...; if (kcp_link_count_ > 0) --kcp_link_count_; }] *)
Definition drop_link (e : RouteEntry) (links : Z) : Z :=
  if kcp_connected e then (if 0 <? links then links - 1 else links) else links.

Definition mark_failure (now_ms : Z) (id : KcpConv) (st : RouteManager) : bool * RouteManager :=
  match routes st !! id with
  | None => (false, st)
  | Some e =>
      (true, {| config := config st;
                routes := <[id := failure_entry (config st) now_ms e]> (routes st);
                kcp_link_count := drop_link e (kcp_link_count st) |})
  end.

Definition mark_kcp_disconnected (id : KcpConv) (st : RouteManager) : bool * RouteManager :=
  match routes st !! id with
  | None => (false, st)
  | Some e =>
      let e' := if kcp_connected e then set_kcp_connected false e else e in
      (true, {| config := config st; routes := <[id := e']> (routes st);
                kcp_link_count := drop_link e (kcp_link_count st) |})
  end.

Definition can_add_kcp_link (st : RouteManager) : bool :=
  kcp_link_count st <? max_kcp_links (config st).

Definition route_count (st : RouteManager) : Z := table_size (routes st).

Definition snapshot (st : RouteManager) : list RouteEntry := (iter_map (routes st)).*2.

Definition find_route (id : KcpConv) (st : RouteManager) : option RouteEntry := routes st !! id.

(** [select_routes_for_response]; [shuffle] is [std::shuffle] with this node's
    generator. *)
Definition response_candidates (now_ms : Z) (st : RouteManager) : list RouteEntry :=
  filter (fun e => negb (is_terrible (config st) e now_ms) &&
                   bool_decide (state e <> RouteState.Bad) = true) (snapshot st).

Definition select_routes_for_response (shuffle : list RouteEntry -> list RouteEntry)
    (now_ms : Z) (st : RouteManager) : list RouteEntry :=
  let candidates := response_candidates now_ms st in
  match candidates with
  | [] => []
  | _ =>
      let candidates := shuffle candidates in
      let pct_limit := (zlen candidates * max_response_percent (config st) + 99) / 100 in
      let limit := Z.max 1 (Z.min (max_response_routes (config st)) pct_limit) in
      if limit <? zlen candidates then take (Z.to_nat limit) candidates else candidates
  end.

(** [struct ScoredRoute] *)
Record ScoredRoute := mkScored { sc_entry : RouteEntry; sc_score : double; sc_tie_breaker : Z }.

(** The candidate loop of [select_for_feeler]; [rng] are the values this call
    draws from the generator, one per candidate. *)
Fixpoint feeler_candidates (cfg : RouteManagerConfig) (now_ms : Z) (rng : nat -> Z) (i : nat)
    (items : list (KcpConv * RouteEntry)) : list ScoredRoute :=
  match items with
  | [] => []
  | (_, entry) :: items =>
      if kcp_connected entry || bool_decide (state entry = RouteState.Bad) ||
         is_terrible cfg entry now_ms || in_retry_backoff cfg entry now_ms
      then feeler_candidates cfg now_ms rng i items
      else
        let score := route_score pow cfg entry now_ms in
        if dle score (d_of_Z 0) then feeler_candidates cfg now_ms rng i items
        else {| sc_entry := entry; sc_score := score; sc_tie_breaker := rng i |}
               :: feeler_candidates cfg now_ms rng (S i) items
  end.

(** The comparison of the sort: higher score first, then the smaller tie
    breaker. *)
Definition feeler_before (lhs rhs : ScoredRoute) : bool :=
  if negb (deq (sc_score lhs) (sc_score rhs)) then dlt (sc_score rhs) (sc_score lhs)
  else sc_tie_breaker lhs <? sc_tie_breaker rhs.

(** [std::sort(...)] followed by [front()]: an element no other precedes. *)
Fixpoint sort_front (best : ScoredRoute) (l : list ScoredRoute) : ScoredRoute :=
  match l with
  | [] => best
  | c :: l => sort_front (if feeler_before c best then c else best) l
  end.

Definition select_for_feeler (rng : nat -> Z) (now_ms : Z) (st : RouteManager)
    : option RouteEntry :=
  match feeler_candidates (config st) now_ms rng 0 (iter_map (routes st)) with
  | [] => None
  | c :: cs => Some (sc_entry (sort_front c cs))
  end.

Definition select_next_hop (target_id : KcpConv) (st : RouteManager) : option RouteNextHop :=
  match routes st !! target_id with
  | None => None
  | Some tgt =>
      if bool_decide (state tgt = RouteState.Bad) then None
      else if kcp_connected tgt then
        Some {| target := node tgt; next_hop := node tgt; direct := true; next_hop_count := 1 |}
      else if negb (has_source tgt) then None
      else
        match routes st !! node_id (source tgt) with
        | None => None
        | Some src =>
            if negb (kcp_connected src) || bool_decide (state src = RouteState.Bad) then None
            else Some {| target := node tgt; next_hop := node src; direct := false;
                         next_hop_count := hop_count tgt |}
        end
  end.

(** The loop of [select_default_next_hop]; [best] is the best entry so far with
    its score. *)
Fixpoint default_hop_loop (cfg : RouteManagerConfig) (now_ms : Z)
    (items : list (KcpConv * RouteEntry)) (best : option (RouteEntry * double))
    : option (RouteEntry * double) :=
  match items with
  | [] => best
  | (_, entry) :: items =>
      if negb (kcp_connected entry) || bool_decide (state entry = RouteState.Bad)
      then default_hop_loop cfg now_ms items best
      else
        let score := route_score pow cfg entry now_ms in
        if dle score (d_of_Z 0) then default_hop_loop cfg now_ms items best
        else
          match best with
          | Some (_, best_score) =>
              if dlt best_score score
              then default_hop_loop cfg now_ms items (Some (entry, score))
              else default_hop_loop cfg now_ms items best
          | None => default_hop_loop cfg now_ms items (Some (entry, score))
          end
  end.

Definition select_default_next_hop (now_ms : Z) (st : RouteManager) : option RouteNextHop :=
  match default_hop_loop (config st) now_ms (iter_map (routes st)) None with
  | None => None
  | Some (e, _) =>
      Some {| target := node e; next_hop := node e; direct := true; next_hop_count := 1 |}
  end.

End route_manager.
