(* ===== verification/RouteInvariant.v ===== *)
(** Correctness of the route table: the representation invariant of
    [RouteManager] and its preservation by every method, the capacity bound, the
    preservation of live links by trimming, and what the selection methods
    return. *)
From S2P Require Import Prelude KcpConv Frames Identity Double Routes.

(** ** The invariant *)

(** A condition on addresses that every address [add_route] accepts satisfies. *)
Class NodeOk (good : NodeAddress -> Prop) : Prop := node_ok : forall n, valid_route_node n = true -> good n.

Definition valid_node (n : NodeAddress) : Prop := valid_route_node n = true.

(** What a file can hold: the host is not checked. *)
Definition loaded_node (n : NodeAddress) : Prop := port (endpoint n) <> 0 /\ conv_empty (node_id n) = false.

#[global] Instance valid_node_ok : NodeOk valid_node.
Proof. by intros n. Qed.

#[global] Instance loaded_node_ok : NodeOk loaded_node.
Proof. intros n Hn. unfold valid_route_node in Hn. bool_norm. by split. Qed.

(** What holds of the entry stored under [id], with [good] addresses. *)
Record entry_good (good : NodeAddress -> Prop) (cfg : RouteManagerConfig) (id : KcpConv) (e : RouteEntry) : Prop := {
  eo_id : node_id (node e) = id;
  eo_valid : good (node e);
  eo_link : kcp_connected e = true -> hop_count e = 1 /\ state e = RouteState.Tried;
  eo_hops : 0 <= hop_count e <= max_route_hops cfg;
  eo_attempts : fits 32 (attempts e);
  eo_failures : fits 32 (failures e);
  eo_source : has_source e = true -> good (source e);
  eo_tried : state e = RouteState.Tried -> last_success_ms e <> 0;
}.

Notation entry_ok := (entry_good valid_node).

Definition is_link (kv : KcpConv * RouteEntry) : Prop := kcp_connected kv.2 = true.
#[global] Instance is_link_dec kv : Decision (is_link kv).
Proof. unfold is_link. apply _. Defined.

(** The live KCP links of a table. *)
Definition links (m : gmap KcpConv RouteEntry) : gmap KcpConv RouteEntry := filter is_link m.

Definition config_ok (cfg : RouteManagerConfig) : Prop :=
  1 <= max_route_hops cfg <= u8_max /\ 0 <= max_routes cfg.

(** The table; the counter also counts [lost] links that are not in the table any more. *)
Record table_good (good : NodeAddress -> Prop) (lost : Z) (st : RouteManager) : Prop := {
  ri_config : config_ok (config st);
  ri_entries : map_Forall (entry_good good (config st)) (routes st);
  ri_count : kcp_link_count st = table_size (links (routes st)) + lost;
  ri_lost : 0 <= lost;
}.

Notation routes_inv := (table_good valid_node 0).

Lemma ri_links {good} st : table_good good 0 st -> kcp_link_count st = table_size (links (routes st)).
Proof. intros [_ _ -> _]. lia. Qed.

(** ** Counting links *)

Definition link1 (e : RouteEntry) : Z := if kcp_connected e then 1 else 0.

Lemma links_delete id m : links (delete id m) = delete id (links m).
Proof. apply map_filter_delete. Qed.

Lemma links_size_insert id e m :
  table_size (links (<[id := e]> m)) = table_size (links (delete id m)) + link1 e.
Proof.
  unfold links, link1. rewrite map_filter_insert. case_decide as E; unfold is_link in E; cbn in E.
  - rewrite E, <- insert_delete_eq, map_filter_delete.
    unfold table_size. rewrite map_size_insert_None by apply lookup_delete_eq. lia.
  - apply not_true_is_false in E. rewrite E. lia.
Qed.

Lemma links_size_lookup id e m :
  m !! id = Some e ->
  table_size (links m) = table_size (links (delete id m)) + link1 e.
Proof.
  intros Hm. rewrite <- links_size_insert, insert_id by done. done.
Qed.

(** Replacing an entry changes the count by the change of its flag. *)
Lemma links_size_update id e e' m :
  m !! id = Some e ->
  table_size (links (<[id := e']> m)) = table_size (links m) - link1 e + link1 e'.
Proof.
  intros Hm. rewrite links_size_insert, (links_size_lookup id e m) by done. lia.
Qed.

Lemma links_size_fresh id e m :
  m !! id = None ->
  table_size (links (<[id := e]> m)) = table_size (links m) + link1 e.
Proof. intros Hm. rewrite links_size_insert, delete_id by done. done. Qed.

Lemma links_nonneg m : 0 <= table_size (links m).
Proof. unfold table_size. lia. Qed.

(** ** Trimming *)

Section proofs.
Context {order : IterOrder KcpConv RouteEntry}.
Context (pow : double -> double -> double).

Lemma find_victim_spec cfg now items : forall victim score id,
  find_victim pow cfg now items victim score = Some id ->
  victim = Some id \/ exists e, (id, e) ∈ items /\ kcp_connected e = false.
Proof.
  induction items as [|[k e] items IH]; intros victim score id; cbn; [auto|].
  intros Hf. repeat case_cond_in Hf.
  - destruct (IH _ _ _ Hf) as [->|(e' & ? & ?)]; [auto|]. right. exists e'. set_solver.
  - destruct (IH _ _ _ Hf) as [[= ->]|(e' & ? & ?)]; right;
      [exists e | exists e']; set_solver.
  - destruct (IH _ _ _ Hf) as [->|(e' & ? & ?)]; [auto|]. right. exists e'. set_solver.
Qed.

(** Trimming removes entries and nothing else, and never a live link. *)
Lemma trim_spec cfg now m :
  trim_if_needed pow cfg now m ⊆ m /\ links (trim_if_needed pow cfg now m) = links m.
Proof.
  unfold trim_if_needed. case_cond; [done|].
  set (m' := filter _ m).
  assert (m' ⊆ m) as Hsub by apply map_filter_subseteq.
  assert (links m' = links m) as Hl.
  { apply map_eq. intros k. apply option_eq. intros e. unfold links, m'.
    rewrite !map_lookup_filter_Some. unfold is_link. cbn.
    split; [intros [[? ?] ?]; done|]. intros [Hk Hc]. rewrite Hk, Hc. done. }
  case_cond; [done|].
  destruct (find_victim _ _ _ _ _ _) as [v|] eqn:Hv; [|done].
  apply find_victim_spec in Hv as [?|(e & Hin & Hc)]; [done|].
  rewrite elem_of_iter_map in Hin. split.
  - etrans; [apply delete_subseteq|done].
  - rewrite links_delete, Hl. apply delete_id. rewrite <- Hl.
    apply map_lookup_filter_None. right. intros e' He'. unfold is_link. cbn. congruence.
Qed.

Lemma trim_entries P cfg now m :
  map_Forall P m -> map_Forall P (trim_if_needed pow cfg now m).
Proof.
  intros HP k e Hk. apply HP. eapply lookup_weaken; [exact Hk|]. apply trim_spec.
Qed.

(** Both trims of [add_route]. *)
Definition make_room (cfg : RouteManagerConfig) (now : Z) (m : gmap KcpConv RouteEntry) :=
  let m := trim_if_needed pow cfg now m in
  if max_routes cfg <=? table_size m then trim_if_needed pow cfg now m else m.

Lemma make_room_spec cfg now m :
  make_room cfg now m ⊆ m /\ links (make_room cfg now m) = links m.
Proof.
  unfold make_room. destruct (trim_spec cfg now m) as [H1 H2]. case_cond; [|done].
  destruct (trim_spec cfg now (trim_if_needed pow cfg now m)) as [H3 H4].
  split; [etrans; done | congruence].
Qed.

(** ** Entries after each method *)

Ltac entry_cases :=
  repeat match goal with
  | |- context [match ?x with _ => _ end] => destruct x eqn:?
  | |- context [if ?x then _ else _] => destruct x eqn:?
  end.

Lemma usable_source_valid {good} `{!NodeOk good} src s : usable_source src = Some s -> good s.
Proof. unfold usable_source. destruct src; [|done]. case_cond; [|done]. intros [= <-]. by apply node_ok. Qed.

Lemma take_capability_fields cap e :
  exists c, take_capability cap e = set_capability c e.
Proof.
  destruct e. unfold take_capability. destruct cap as [c|]; [case_cond|];
    eexists; reflexivity.
Qed.

Lemma local_hops_range src connected adv :
  fits 8 adv -> 0 <= local_hop_count src connected adv
  /\ (connected = true -> local_hop_count src connected adv = 1).
Proof.
  intros Ha. unfold local_hop_count. split; [|intros ->; done].
  case_cond; [lia|]. destruct (usable_source src); [|apply Ha].
  case_cond; [apply Ha|]. apply wrap_fits. lia.
Qed.

Lemma fresh_entry_ok {good} `{!NodeOk good} cfg n src connected hops cap now :
  config_ok cfg -> valid_route_node n = true -> now <> 0 ->
  0 <= hops <= max_route_hops cfg -> (connected = true -> hops = 1) ->
  entry_good good cfg (node_id n) (fresh_entry n src connected hops cap now).
Proof.
  intros Hcfg Hn Hnow Hh H1. unfold fresh_entry.
  destruct (take_capability_fields cap (set_node n RouteEntry_default)) as [c ->].
  destruct connected, (usable_source src) as [s|] eqn:Hs;
    constructor; cbn; try done; try lia; try (split; lia); try (intros; done);
    try (intros _; split; auto; done); try (by apply node_ok);
    intros _; apply (usable_source_valid src); done.
Qed.

Lemma refresh_entry_ok {good} `{!NodeOk good} cfg n src connected hops cap now e :
  config_ok cfg -> valid_route_node n = true -> now <> 0 ->
  0 <= hops <= max_route_hops cfg ->
  entry_good good cfg (node_id n) e ->
  entry_good good cfg (node_id n) (refresh_entry n src connected hops cap now e).
Proof.
  intros [Hcfg _] Hn Hnow Hh [_ _ Hl Hhc Ha Hf Hsrc Ht]. unfold refresh_entry.
  destruct (take_capability_fields cap (set_last_seen_ms now (set_node n e))) as [c ->].
  destruct e as [en es ec est ehs ek ea ef eh el etr esu]; cbn in *.
  destruct connected, (usable_source src) as [s|] eqn:Hs, ek, est; cbn;
    entry_cases; cbn; bool_norm;
    constructor; cbn; try done; try lia; try (split; lia); try (intros; done);
    try (by apply node_ok); try (intros; exact (usable_source_valid _ _ Hs));
    try (destruct (Hl eq_refl); done); auto.
Qed.

Lemma success_entry_ok {good} `{!NodeOk good} cfg id connected now e :
  config_ok cfg -> now <> 0 -> entry_good good cfg id e ->
  entry_good good cfg id (success_entry now connected e).
Proof.
  intros [Hcfg _] Hnow [Hi Hv Hl Hhc Ha Hf Hsrc Ht]. unfold success_entry.
  destruct e as [en es ec est ehs ek ea ef eh el etr esu]; cbn in *.
  destruct connected, ek; cbn; constructor; cbn; try done; try lia; try (split; lia);
    try (intros; split; [apply Hl; done|done]); auto.
Qed.

Lemma failure_entry_ok {good} `{!NodeOk good} cfg id now e :
  entry_good good cfg id e -> entry_good good cfg id (failure_entry cfg now e).
Proof.
  intros [Hi Hv Hl Hhc Ha Hf Hsrc Ht]. unfold failure_entry.
  set (e1 := set_last_try_ms now e).
  set (e2 := if failures e1 <? u32_max then set_failures (failures e1 + 1) e1 else e1).
  set (e3 := if kcp_connected e2 then set_kcp_connected false e2 else e2).
  assert (node e3 = node e /\ source e3 = source e /\ has_source e3 = has_source e
    /\ state e3 = state e /\ kcp_connected e3 = false /\ hop_count e3 = hop_count e
    /\ attempts e3 = attempts e /\ fits 32 (failures e3)
    /\ last_success_ms e3 = last_success_ms e) as
    (F1 & F2 & F3 & F4 & F5 & F6 & F7 & F8 & F9).
  { unfold e3, e2, e1. cbn. unfold fits in *.
    destruct (Z.ltb_spec (failures e) u32_max) as [Hlt|]; cbn;
      destruct (kcp_connected e) eqn:Ek; cbn; unfold u32_max in *; split_and!;
      try done; lia. }
  clearbody e3. destruct e3; cbn in *; subst.
  case_cond; [|case_cond]; constructor; cbn; auto; try done.
Qed.

Lemma attempt_entry_ok {good} `{!NodeOk good} cfg id now e :
  entry_good good cfg id e ->
  entry_good good cfg id
    (let e := set_last_try_ms now e in
     if attempts e <? u32_max then set_attempts (attempts e + 1) e else e).
Proof.
  intros [Hi Hv Hl Hhc Ha Hf Hsrc Ht]. cbn.
  destruct (Z.ltb_spec (attempts e) u32_max) as [Hlt|]; constructor; cbn; auto.
  unfold fits, u32_max in *. lia.
Qed.

Lemma disconnect_entry_ok {good} `{!NodeOk good} cfg id e :
  entry_good good cfg id e ->
  entry_good good cfg id (if kcp_connected e then set_kcp_connected false e else e).
Proof.
  intros [Hi Hv Hl Hhc Ha Hf Hsrc Ht].
  case_cond; constructor; cbn; try (intros; congruence); auto.
Qed.

(** The flag of the updated entries. *)
Lemma link1_refresh n src connected hops cap now e :
  link1 (refresh_entry n src connected hops cap now e) =
    if connected && negb (kcp_connected e) then 1 else link1 e.
Proof.
  unfold refresh_entry, link1.
  destruct (take_capability_fields cap (set_last_seen_ms now (set_node n e))) as [c ->].
  destruct e as [en es ec est ehs ek ea ef eh el etr esu].
  destruct connected, (usable_source src), ek, est; cbn; try done;
    destruct ((eh =? 0) || (hops <? eh)); done.
Qed.

Lemma link1_fresh n src connected hops cap now :
  link1 (fresh_entry n src connected hops cap now) = if connected then 1 else 0.
Proof.
  unfold fresh_entry, link1.
  destruct (take_capability_fields cap (set_node n RouteEntry_default)) as [c ->].
  destruct connected, (usable_source src); done.
Qed.

Lemma link1_success now connected e :
  link1 (success_entry now connected e) = if connected && negb (kcp_connected e) then 1 else link1 e.
Proof. unfold success_entry, link1. destruct e, connected, kcp_connected; done. Qed.

Lemma link1_failure cfg now e : link1 (failure_entry cfg now e) = 0.
Proof.
  unfold failure_entry, link1. destruct e as [en es ec est ehs ek ea ef eh el etr esu].
  cbn. destruct (ef <? u32_max), ek; cbn;
    destruct (is_terrible _ _ _ || _), (esu =? 0); done.
Qed.

(** ** Preservation *)

Lemma inv_update {good} `{!NodeOk good} {lost} st id e e' n :
  table_good good lost st -> routes st !! id = Some e ->
  entry_good good (config st) id e' ->
  n = kcp_link_count st - link1 e + link1 e' ->
  table_good good lost {| config := config st; routes := <[id := e']> (routes st);
                kcp_link_count := n |}.
Proof.
  intros [Hc He Hl H0] Hid He' ->. constructor; cbn; [done| | |done].
  - apply map_Forall_insert_2; done.
  - rewrite (links_size_update id e) by done. lia.
Qed.

Lemma link1_range e : 0 <= link1 e <= 1.
Proof. unfold link1. case_cond; lia. Qed.

(** A link that is in the table is counted, so the guarded decrement is exact. *)
Lemma drop_link_exact {good} `{!NodeOk good} {lost} st id e :
  table_good good lost st -> routes st !! id = Some e ->
  drop_link e (kcp_link_count st) = kcp_link_count st - link1 e.
Proof.
  intros [_ _ Hl H0] Hid. unfold drop_link, link1. rewrite Hl.
  pose proof (links_size_lookup _ _ _ Hid) as Hs.
  pose proof (links_nonneg (delete id (routes st))). unfold link1 in Hs.
  destruct (kcp_connected e); [|lia]. case_cond; bool_norm; lia.
Qed.

Lemma add_route_inv {good} `{!NodeOk good} {lost} now n src connected adv cap st :
  table_good good lost st -> now <> 0 -> fits 8 adv ->
  table_good good lost (add_route pow now n src connected adv cap st).2.
Proof.
  intros Hinv Hnow Hadv. unfold add_route.
  case_cond; [done|]. case_cond; [done|]. bool_norm.
  destruct (local_hops_range src connected adv Hadv) as [Hh0 Hh1].
  destruct (routes st !! node_id n) as [e|] eqn:Hid; cbn [snd].
  - apply (inv_update st _ e); [done|done| |].
    + apply refresh_entry_ok; try done; [apply Hinv|]. apply Hinv. done.
    + rewrite link1_refresh. unfold link1.
      destruct connected, (kcp_connected e); cbn; lia.
  - destruct Hinv as [Hc He Hl H0].
    change (if max_routes (config st) <=? table_size (trim_if_needed pow (config st) now (routes st))
            then _ else _) with (make_room (config st) now (routes st)).
    destruct (make_room_spec (config st) now (routes st)) as [Hsub Hlk].
    set (m := make_room _ _ _) in *. clearbody m.
    assert (map_Forall (entry_good good (config st)) m) as Hm.
    { intros k x Hk. apply He. eapply lookup_weaken; done. }
    case_cond; constructor; cbn; try done; [congruence| |].
    + apply map_Forall_insert_2; [|done]. apply fresh_entry_ok; done.
    + rewrite links_size_fresh.
      * rewrite link1_fresh, Hlk. destruct connected; lia.
      * eapply lookup_weaken_None; done.
Qed.

Lemma mark_attempt_inv {good} `{!NodeOk good} {lost} now id st :
  table_good good lost st -> table_good good lost (mark_attempt now id st).2.
Proof.
  intros Hinv. unfold mark_attempt.
  destruct (routes st !! id) as [e|] eqn:Hid; [|done].
  apply (inv_update st id e); [done|done| |].
  - apply (attempt_entry_ok (config st) id now). apply Hinv. done.
  - unfold link1. cbn. destruct (attempts e <? u32_max); cbn; lia.
Qed.

Lemma mark_success_inv {good} `{!NodeOk good} {lost} now id connected st :
  table_good good lost st -> now <> 0 -> table_good good lost (mark_success now id connected st).2.
Proof.
  intros Hinv Hnow. unfold mark_success.
  destruct (routes st !! id) as [e|] eqn:Hid; [|done].
  apply (inv_update st id e); [done|done| |].
  - apply success_entry_ok; [apply Hinv|done|]. apply Hinv. done.
  - rewrite link1_success. unfold link1. destruct connected, (kcp_connected e); cbn; lia.
Qed.

Lemma mark_failure_inv {good} `{!NodeOk good} {lost} now id st :
  table_good good lost st -> table_good good lost (mark_failure now id st).2.
Proof.
  intros Hinv. unfold mark_failure.
  destruct (routes st !! id) as [e|] eqn:Hid; [|done].
  apply (inv_update st id e); [done|done| |].
  - apply failure_entry_ok. apply Hinv. done.
  - rewrite link1_failure, (drop_link_exact st id) by done. lia.
Qed.

Lemma mark_kcp_disconnected_inv {good} `{!NodeOk good} {lost} id st :
  table_good good lost st -> table_good good lost (mark_kcp_disconnected id st).2.
Proof.
  intros Hinv. unfold mark_kcp_disconnected.
  destruct (routes st !! id) as [e|] eqn:Hid; [|done].
  apply (inv_update st id e); [done|done| |].
  - apply disconnect_entry_ok. apply Hinv. done.
  - rewrite (drop_link_exact st id) by done. unfold link1.
    destruct (kcp_connected e) eqn:E; cbn; rewrite ?E; lia.
Qed.

(** ** Reachable tables *)

(** One call of a public method that changes the table. *)
Inductive rm_step : RouteManager -> RouteManager -> Prop :=
  | step_add_route st now n src connected adv cap :
      now <> 0 -> fits 8 adv ->
      rm_step st (add_route pow now n src connected adv cap st).2
  | step_mark_attempt st now id : rm_step st (mark_attempt now id st).2
  | step_mark_success st now id connected :
      now <> 0 -> rm_step st (mark_success now id connected st).2
  | step_mark_failure st now id : rm_step st (mark_failure now id st).2
  | step_mark_kcp_disconnected st id : rm_step st (mark_kcp_disconnected id st).2.

Lemma rm_step_inv {good} `{!NodeOk good} {lost} st st' : rm_step st st' -> table_good good lost st -> table_good good lost st'.
Proof.
  intros Hstep Hinv. destruct Hstep.
  - by apply add_route_inv.
  - by apply mark_attempt_inv.
  - by apply mark_success_inv.
  - by apply mark_failure_inv.
  - by apply mark_kcp_disconnected_inv.
Qed.

Lemma init_inv {good} cfg : config_ok cfg -> table_good good 0 (route_manager_init cfg).
Proof. intros Hc. constructor; cbn; [done|apply map_Forall_empty|done|lia]. Qed.

Lemma rm_steps_inv {good} `{!NodeOk good} {lost} st st' :
  rtc rm_step st st' -> table_good good lost st -> table_good good lost st'.
Proof. induction 1 as [|a b c Hab _ IH]; [done|]. intros Ha. by eapply IH, rm_step_inv. Qed.

(** ** Capacity *)

Lemma table_size_mono (m m' : gmap KcpConv RouteEntry) :
  m ⊆ m' -> table_size m <= table_size m'.
Proof. intros Hs. apply Nat2Z.inj_le, map_subseteq_size, Hs. Qed.

Lemma trim_size cfg now m :
  table_size (trim_if_needed pow cfg now m) <= table_size m.
Proof. apply table_size_mono, trim_spec. Qed.

Lemma make_room_size cfg now m : table_size (make_room cfg now m) <= table_size m.
Proof.
  unfold make_room. pose proof (trim_size cfg now m). case_cond; [|done].
  pose proof (trim_size cfg now (trim_if_needed pow cfg now m)). lia.
Qed.

(** What [add_route] does with an identifier that is not in the table. *)
Lemma add_route_new now n src connected adv cap st :
  valid_route_node n = true -> routes st !! node_id n = None ->
  local_hop_count src connected adv <= max_route_hops (config st) ->
  let m := make_room (config st) now (routes st) in
  add_route pow now n src connected adv cap st =
    if max_routes (config st) <=? table_size m
    then (false, {| config := config st; routes := m; kcp_link_count := kcp_link_count st |})
    else (true, {| config := config st;
                   routes := <[node_id n :=
                     fresh_entry n src connected (local_hop_count src connected adv) cap now]> m;
                   kcp_link_count := if connected then kcp_link_count st + 1
                                     else kcp_link_count st |}).
Proof.
  intros Hv Hid Hh m. unfold add_route. rewrite Hv, Hid. cbn [negb].
  destruct (Z.ltb_spec (max_route_hops (config st)) (local_hop_count src connected adv));
    [lia|]. done.
Qed.

Lemma find_victim_Some cfg now items : forall v score,
  is_Some (find_victim pow cfg now items (Some v) score).
Proof.
  induction items as [|[k e] items IH]; intros v score; cbn; [eauto|].
  repeat case_cond; apply IH.
Qed.

Lemma find_victim_finds cfg now items k e score :
  (k, e) ∈ items -> kcp_connected e = false -> dlt (trim_score pow cfg e now) score = true ->
  is_Some (find_victim pow cfg now items None score).
Proof.
  induction items as [|[k' e'] items IH]; intros Hin Hc Hs; [set_solver|].
  apply elem_of_cons in Hin as [[= <- <-]|Hin]; cbn.
  - rewrite Hc, Hs. apply find_victim_Some.
  - repeat case_cond; auto. apply find_victim_Some.
Qed.

(** An entry that trimming can give up: not a live link, and either terrible or
    with a score a victim can have. *)
Definition expendable (cfg : RouteManagerConfig) (now : Z) (e : RouteEntry) : Prop :=
  kcp_connected e = false /\
  (is_terrible cfg e now = true \/ dlt (trim_score pow cfg e now) DBL_MAX = true).

Lemma size_filter_lt (P : KcpConv * RouteEntry -> Prop) `{!forall x, Decision (P x)}
    (m : gmap KcpConv RouteEntry) k e :
  m !! k = Some e -> ~ P (k, e) -> table_size (filter P m) < table_size m.
Proof.
  intros Hk HP. unfold table_size. apply Nat2Z.inj_lt.
  rewrite <- (insert_id m k e Hk) at 2. rewrite <- insert_delete_eq.
  rewrite map_size_insert_None by apply lookup_delete_eq.
  apply Nat.lt_succ_r, map_subseteq_size, map_subseteq_spec. intros k' e' Hk'.
  apply map_lookup_filter_Some in Hk' as [Hk' HP'].
  rewrite lookup_delete_ne by (intros <-; congruence). done.
Qed.

Lemma trim_makes_progress cfg now m k e :
  max_routes cfg <= table_size m -> m !! k = Some e -> expendable cfg now e ->
  table_size (trim_if_needed pow cfg now m) < table_size m.
Proof.
  intros Hfull Hk [Hc He]. unfold trim_if_needed.
  destruct (Z.ltb_spec (table_size m) (max_routes cfg)); [lia|].
  set (m' := filter _ m).
  assert (table_size m' <= table_size m) as Hle
    by apply table_size_mono, map_filter_subseteq.
  destruct (is_terrible cfg e now) eqn:Ht.
  - assert (table_size m' < table_size m) as Hlt.
    { apply (size_filter_lt _ m k e Hk). cbn. rewrite Hc, Ht. done. }
    case_cond; [done|]. destruct (find_victim _ _ _ _ _ _) as [v|] eqn:Hv; [|done].
    pose proof (table_size_mono _ _ (delete_subseteq m' v)). lia.
  - destruct He as [?|Hs]; [done|]. case_cond; [bool_norm; lia|].
    assert (m' !! k = Some e) as Hk'.
    { apply map_lookup_filter_Some. cbn. rewrite Ht. auto using orb_true_r. }
    destruct (find_victim_finds cfg now (iter_map m') k e DBL_MAX) as [v Hv];
      [apply elem_of_iter_map; done | done | done |].
    rewrite Hv. apply find_victim_spec in Hv as [?|(e' & Hin & _)]; [done|].
    apply elem_of_iter_map in Hin. unfold table_size in *.
    rewrite map_size_delete_Some by eauto.
    assert (size m' <> 0%nat) by (intros E0%map_size_empty_inv; rewrite E0 in Hin; done). lia.
Qed.

(** [add_route] keeps the table within [max_routes] and never gives up a live
    link: every entry that is a KCP link before the call is one after it, the
    table never grows beyond its limit, and a route is reported as new exactly
    when it was inserted (with the entry built for it). *)
Theorem add_route_capacity now n src connected adv cap st :
  let '(added, st') := add_route pow now n src connected adv cap st in
  dom (links (routes st)) ⊆ dom (links (routes st'))
  /\ table_size (routes st') <= Z.max (table_size (routes st)) (max_routes (config st))
  /\ (added = true ->
      routes st !! node_id n = None /\ table_size (routes st') <= max_routes (config st)
      /\ routes st' !! node_id n =
         Some (fresh_entry n src connected (local_hop_count src connected adv) cap now)).
Proof.
  destruct (valid_route_node n) eqn:Hv;
    [|unfold add_route; rewrite Hv; cbn; split_and!; [done|lia|done]].
  destruct (Z.leb_spec (local_hop_count src connected adv) (max_route_hops (config st)))
    as [Hh|Hh]; [|unfold add_route; rewrite Hv; cbn;
                  apply Z.ltb_lt in Hh; rewrite Hh; split_and!; [done|lia|done]].
  destruct (routes st !! node_id n) as [e|] eqn:Hid.
  - unfold add_route. rewrite Hv, Hid. cbn [negb].
    destruct (Z.ltb_spec (max_route_hops (config st)) (local_hop_count src connected adv));
      [lia|]. cbn [routes]. split_and!; [| |done].
    + intros k Hk. apply elem_of_dom in Hk as [e0 Hk]. apply elem_of_dom.
      unfold links in *. apply map_lookup_filter_Some in Hk as [Hk Hc].
      destruct (decide (k = node_id n)) as [->|Hne].
      * eexists. apply map_lookup_filter_Some. rewrite lookup_insert_eq. split; [done|].
        assert (e0 = e) as -> by congruence. pose proof (link1_refresh n src connected
          (local_hop_count src connected adv) cap now e) as Hl.
        unfold is_link in *. cbn in *. unfold link1 in Hl. rewrite Hc in Hl.
        rewrite andb_false_r in Hl. destruct (kcp_connected (refresh_entry _ _ _ _ _ _ _)); done.
      * exists e0. apply map_lookup_filter_Some. rewrite lookup_insert_ne; done.
    + unfold table_size. rewrite map_size_insert_Some by eauto. lia.
  - rewrite (add_route_new now n src connected adv cap st) by done.
    destruct (make_room_spec (config st) now (routes st)) as [Hsub Hl].
    pose proof (make_room_size (config st) now (routes st)) as Hsz.
    set (m := make_room _ _ _) in *. clearbody m.
    case_cond; cbn [routes config]; bool_norm.
    + split_and!; [rewrite Hl; done|lia|done].
    + assert (m !! node_id n = None) as Hm by (eapply lookup_weaken_None; done).
      assert (table_size (<[node_id n := fresh_entry n src connected
        (local_hop_count src connected adv) cap now]> m) = table_size m + 1) as ->
        by (unfold table_size; rewrite map_size_insert_None by done; lia).
      split_and!; [|lia|intros _; split_and!; [done|lia|apply lookup_insert_eq]].
      rewrite <- Hl. intros k [e0 Hk]%elem_of_dom. apply elem_of_dom. exists e0.
      unfold links in *. apply map_lookup_filter_Some in Hk as [Hk Hc].
      apply map_lookup_filter_Some.
      rewrite lookup_insert_ne by (intros <-; congruence). done.
Qed.

(** A full table makes room: when the table is within its limit and holds an
    expendable entry (not a link, and terrible or with a finite score), a valid
    new route within the hop limit is admitted. *)
Theorem add_route_admits now n src connected adv cap st :
  valid_route_node n = true -> routes st !! node_id n = None ->
  local_hop_count src connected adv <= max_route_hops (config st) ->
  0 < max_routes (config st) -> table_size (routes st) <= max_routes (config st) ->
  (table_size (routes st) < max_routes (config st) \/
   exists k e, routes st !! k = Some e /\ expendable (config st) now e) ->
  (add_route pow now n src connected adv cap st).1 = true.
Proof.
  intros Hv Hid Hh Hpos Hle Hroom.
  rewrite (add_route_new now n src connected adv cap st) by done.
  assert (table_size (make_room (config st) now (routes st)) < max_routes (config st)) as Hlt.
  { unfold make_room.
    assert (table_size (trim_if_needed pow (config st) now (routes st))
            < max_routes (config st)) as Ht.
    { destruct (decide (table_size (routes st) < max_routes (config st))) as [Hlt|Hge].
      - pose proof (trim_size (config st) now (routes st)). lia.
      - destruct Hroom as [?|(k & e & Hk & He)]; [done|].
        pose proof (trim_makes_progress (config st) now (routes st) k e ltac:(lia) Hk He). lia. }
    destruct (Z.leb_spec (max_routes (config st))
      (table_size (trim_if_needed pow (config st) now (routes st)))); lia. }
  destruct (Z.leb_spec (max_routes (config st))
    (table_size (make_room (config st) now (routes st)))); [lia|done].
Qed.

(** ** Failures *)

(** Recording a failure first sets the time of the last try to now, which
    makes the entry count as recently tried, so [is_terrible] never holds when
    [mark_failure] consults it: the entry becomes Bad exactly by reaching the
    failure threshold (or stays Bad after an earlier success). *)
Theorem mark_failure_state now id st e :
  now <> 0 -> 0 <= retry_backoff_seconds (config st) -> routes st !! id = Some e ->
  exists e', routes (mark_failure now id st).2 !! id = Some e'
    /\ kcp_connected e' = false /\ last_try_ms e' = now
    /\ failures e' = Z.min (failures e + 1) (Z.max u32_max (failures e))
    /\ state e' =
       (if bad_failure_threshold (config st) <=? failures e' then RouteState.Bad
        else if last_success_ms e =? 0 then RouteState.New else state e).
Proof.
  intros Hnow Hb Hid. unfold mark_failure. rewrite Hid. cbn [snd routes].
  exists (failure_entry (config st) now e). split; [apply lookup_insert_eq|].
  unfold failure_entry. destruct e as [en es ec est ehs ek ea ef eh el etr esu].
  cbn [set_last_try_ms failures last_success_ms state].
  set (e3 := if kcp_connected _ then _ else _).
  assert (e3 = mkEntry en es ec est ehs false ea
    (if ef <? u32_max then ef + 1 else ef) eh el now esu) as ->.
  { unfold e3. destruct (ef <? u32_max), ek; done. }
  assert (forall x, last_try_ms x = now -> is_terrible (config st) x now = false) as Ht.
  { intros x Hx. unfold is_terrible. rewrite Hx.
    destruct (Z.eqb_spec now 0); [done|].
    destruct (Z.leb_spec (now - retry_backoff_seconds (config st) * kSecondsToMs) now);
      [done|unfold kSecondsToMs in *; lia]. }
  rewrite Ht by done. cbn [orb failures last_success_ms].
  assert ((if ef <? u32_max then ef + 1 else ef) = Z.min (ef + 1) (Z.max u32_max ef)) as ->
    by (destruct (Z.ltb_spec ef u32_max); lia).
  destruct (bad_failure_threshold (config st) <=? _) eqn:Eb; cbn;
    [rewrite Eb; done|].
  destruct (esu =? 0) eqn:Es; cbn; rewrite Eb; done.
Qed.

(** ** Next hops *)

(** A next hop is always a live link of this node: whatever
    [select_next_hop] returns is the address of a table entry that is connected
    and not Bad; it is the target itself exactly when it is reported direct, and
    otherwise the recorded source of the target. *)
Theorem select_next_hop_live id st hop :
  routes_inv st -> select_next_hop id st = Some hop ->
  exists tgt via, routes st !! id = Some tgt /\ target hop = node tgt
    /\ node_id (target hop) = id
    /\ routes st !! node_id (next_hop hop) = Some via /\ next_hop hop = node via
    /\ kcp_connected via = true /\ state via = RouteState.Tried
    /\ (if direct hop then via = tgt /\ next_hop_count hop = 1
        else kcp_connected tgt = false /\ has_source tgt = true
             /\ node_id (next_hop hop) = node_id (source tgt)
             /\ next_hop_count hop = hop_count tgt).
Proof.
  intros [_ He _ _]. unfold select_next_hop.
  destruct (routes st !! id) as [tgt|] eqn:Hid; [|done].
  pose proof (He id tgt Hid) as Ht. case_cond; [done|].
  destruct (kcp_connected tgt) eqn:Hc.
  - intros [= <-]. cbn. exists tgt, tgt. rewrite (eo_id _ _ _ _ Ht).
    destruct (eo_link _ _ _ _ Ht Hc) as [_ ?]. split_and!; done.
  - destruct (has_source tgt) eqn:Hs; [|done]. cbn [negb].
    destruct (routes st !! node_id (source tgt)) as [via|] eqn:Hv; [|done].
    pose proof (He _ via Hv) as Hvia. case_cond; [done|]. bool_norm.
    intros [= <-]. cbn. exists tgt, via. rewrite (eo_id _ _ _ _ Hvia), (eo_id _ _ _ _ Ht).
    destruct (eo_link _ _ _ _ Hvia) as [_ ?]; [done|]. split_and!; done.
Qed.

(** An entry [select_default_next_hop] may choose. *)
Definition default_eligible (cfg : RouteManagerConfig) (now : Z) (e : RouteEntry) : bool :=
  negb (negb (kcp_connected e) || bool_decide (state e = RouteState.Bad)) &&
  negb (dle (route_score pow cfg e now) (d_of_Z 0)).

Lemma default_hop_loop_skip cfg now k e items best :
  default_eligible cfg now e = false ->
  default_hop_loop pow cfg now ((k, e) :: items) best =
  default_hop_loop pow cfg now items best.
Proof.
  unfold default_eligible. cbn [default_hop_loop].
  destruct (negb (kcp_connected e) || _); [done|].
  destruct (dle _ _); done.
Qed.

Lemma default_hop_loop_take cfg now k e items best :
  default_eligible cfg now e = true ->
  default_hop_loop pow cfg now ((k, e) :: items) best =
  default_hop_loop pow cfg now items
    (match best with
     | Some (b, s) => if dlt s (route_score pow cfg e now)
                      then Some (e, route_score pow cfg e now) else best
     | None => Some (e, route_score pow cfg e now)
     end).
Proof.
  unfold default_eligible. cbn [default_hop_loop].
  destruct (negb (kcp_connected e) || _); [done|].
  destruct (dle _ _); [done|]. destruct best as [[b s]|]; [destruct (dlt _ _)|]; done.
Qed.

(** The loop returns the start value or a strictly better eligible entry, and no
    eligible entry beats the result. *)
Lemma default_hop_loop_spec cfg now items : forall b s,
  exists b' s', default_hop_loop pow cfg now items (Some (b, s)) = Some (b', s')
    /\ ((b', s') = (b, s) \/ dlt s s' = true /\ s' = route_score pow cfg b' now
        /\ exists k, (k, b') ∈ items /\ default_eligible cfg now b' = true)
    /\ forall k e, (k, e) ∈ items -> default_eligible cfg now e = true ->
         dlt s' (route_score pow cfg e now) = false.
Proof.
  induction items as [|[k e] items IH]; intros b s.
  { exists b, s. split_and!; [done|auto|set_solver]. }
  destruct (default_eligible cfg now e) eqn:Hel.
  - rewrite default_hop_loop_take by done.
    set (se := route_score pow cfg e now) in *.
    destruct (dlt s se) eqn:Hlt; [destruct (IH e se) as (b' & s' & -> & Hr & Hall)
                                 |destruct (IH b s) as (b' & s' & -> & Hr & Hall)];
      exists b', s'; split; [done| |done|]; split.
    + right. destruct Hr as [[= -> ->]|(Hss & -> & k' & Hin & Hel')].
      * split_and!; [done|done|]. exists k. set_solver.
      * split_and!; [by apply (dlt_trans s se)|done|]. exists k'. set_solver.
    + intros k0 e0 [[= -> ->]|Hin]%elem_of_cons Hel0; [|by apply (Hall k0)].
      fold se. destruct Hr as [[= -> ->]|(Hss & _)]; [apply dlt_irrefl|by apply dlt_asym].
    + destruct Hr as [?|(Hss & -> & k' & Hin & Hel')]; [auto|].
      right. split_and!; [done|done|]. exists k'. set_solver.
    + intros k0 e0 [[= -> ->]|Hin]%elem_of_cons Hel0; [|by apply (Hall k0)].
      fold se. destruct Hr as [[= -> ->]|(Hss & _)]; [done|by apply (dlt_ntrans s)].
  - rewrite default_hop_loop_skip by done.
    destruct (IH b s) as (b' & s' & -> & Hr & Hall). exists b', s'. split; [done|]. split.
    + destruct Hr as [?|(Hss & -> & k' & Hin & Hel')]; [auto|].
      right. split_and!; [done|done|]. exists k'. set_solver.
    + intros k0 e0 [[= -> ->]|Hin]%elem_of_cons Hel0; [congruence|by apply (Hall k0)].
Qed.

Lemma default_hop_loop_None cfg now items :
  match default_hop_loop pow cfg now items None with
  | None => forall k e, (k, e) ∈ items -> default_eligible cfg now e = false
  | Some (b, s) =>
      (exists k, (k, b) ∈ items /\ default_eligible cfg now b = true)
      /\ forall k e, (k, e) ∈ items -> default_eligible cfg now e = true ->
           dlt (route_score pow cfg b now) (route_score pow cfg e now) = false
  end.
Proof.
  induction items as [|[k e] items IH]; [cbn; set_solver|].
  destruct (default_eligible cfg now e) eqn:Hel.
  - rewrite default_hop_loop_take by done.
    destruct (default_hop_loop_spec cfg now items e (route_score pow cfg e now))
      as (b' & s' & -> & Hr & Hall).
    assert (s' = route_score pow cfg b' now) as ->
      by (destruct Hr as [[= -> ->]|(_ & -> & _)]; done).
    split.
    + destruct Hr as [[= -> _]|(_ & _ & k' & ? & ?)]; [exists k|exists k']; set_solver.
    + intros k0 e0 [[= -> ->]|Hin]%elem_of_cons Hel0; [|by apply (Hall k0)].
      destruct Hr as [[= -> _]|(Hss & _)]; [apply dlt_irrefl|by apply dlt_asym].
  - rewrite default_hop_loop_skip by done.
    destruct (default_hop_loop _ _ _ _ _) as [[b s]|]; [|set_solver].
    destruct IH as [(k' & ? & ?) Hall]. split; [exists k'; set_solver|].
    intros k0 e0 [[= -> ->]|Hin]%elem_of_cons Hel0; [congruence|by apply (Hall k0)].
Qed.

(** The default next hop is a best live link: the chosen entry is connected,
    not Bad and has a positive score, no other such entry has a higher score, and
    nothing is returned only when there is no such entry.  This holds for every
    iteration order of the hash table and every rounding of [std::pow]. *)
Theorem select_default_next_hop_best now st :
  match select_default_next_hop pow now st with
  | Some hop =>
      exists id e, routes st !! id = Some e /\ default_eligible (config st) now e = true
        /\ target hop = node e /\ next_hop hop = node e
        /\ direct hop = true /\ next_hop_count hop = 1
        /\ forall id' e', routes st !! id' = Some e' ->
             default_eligible (config st) now e' = true ->
             dlt (route_score pow (config st) e now)
                 (route_score pow (config st) e' now) = false
  | None => forall id e, routes st !! id = Some e ->
              default_eligible (config st) now e = false
  end.
Proof.
  unfold select_default_next_hop.
  pose proof (default_hop_loop_None (config st) now (iter_map (routes st))) as Hs.
  destruct (default_hop_loop _ _ _ _ _) as [[b s]|].
  - destruct Hs as [(k & Hin & Hel) Hall]. apply elem_of_iter_map in Hin.
    exists k, b. split_and!; try done. intros id' e' Hid' Hel'.
    apply (Hall id'); [apply elem_of_iter_map|]; done.
  - intros id e Hid. apply (Hs id), elem_of_iter_map. done.
Qed.

(** ** Responses and feelers *)

Lemma elem_of_snapshot st e : e ∈ snapshot st <-> exists id, routes st !! id = Some e.
Proof.
  unfold snapshot. rewrite list_elem_of_fmap. split.
  - intros ([k e'] & -> & Hin). exists k. apply elem_of_iter_map. done.
  - intros (id & Hid). exists (id, e). split; [done|]. apply elem_of_iter_map. done.
Qed.

(** A route response leaks neither dead nor excessive routes: every entry
    sent is in the table, not terrible and not Bad; no more are sent than the
    configured maximum or the configured percentage (rounded up, at least one)
    of the eligible entries; and as long as some entry is eligible, at least one
    is sent. *)
Theorem select_routes_for_response_bounds shuffle now st :
  (forall l, shuffle l ≡ₚ l) ->
  0 <= max_response_routes (config st) -> 0 <= max_response_percent (config st) ->
  let out := select_routes_for_response shuffle now st in
  let n := zlen (response_candidates now st) in
  (forall e, e ∈ out -> (exists id, routes st !! id = Some e)
     /\ is_terrible (config st) e now = false /\ state e <> RouteState.Bad)
  /\ zlen out <= Z.max 1 (max_response_routes (config st))
  /\ zlen out <= Z.max 1 ((n * max_response_percent (config st) + 99) / 100)
  /\ (0 < n -> 1 <= zlen out).
Proof.
  intros Hsh Hmax Hpct out n.
  assert (forall e, e ∈ response_candidates now st -> (exists id, routes st !! id = Some e)
     /\ is_terrible (config st) e now = false /\ state e <> RouteState.Bad) as Hc.
  { intros e He. unfold response_candidates in He. apply list_elem_of_filter in He as [Hp He].
    apply elem_of_snapshot in He. bool_norm. done. }
  unfold out, select_routes_for_response, n in *. clear out n.
  set (cs := response_candidates now st) in *. clearbody cs.
  assert (zlen (shuffle cs) = zlen cs) as Hlen
    by (unfold zlen; rewrite (Permutation_length (Hsh cs)); done).
  destruct cs as [|c cs']; [rewrite !zlen_nil; split_and!; [set_solver|lia|lia|lia]|].
  set (cs := c :: cs') in *.
  assert (forall e, e ∈ shuffle cs -> e ∈ cs) as Hin by (intros e; rewrite Hsh; done).
  assert (1 <= zlen cs) as H1 by (unfold cs; rewrite zlen_cons; pose proof (zlen_nonneg cs'); lia).
  clearbody cs. rewrite Hlen.
  set (p := (zlen cs * max_response_percent (config st) + 99) / 100) in *.
  assert (0 <= p) by (apply Z.div_pos; lia).
  destruct (Z.ltb_spec (Z.max 1 (Z.min (max_response_routes (config st)) p)) (zlen cs)) as [Hlt|Hge].
  - assert (zlen (take (Z.to_nat (Z.max 1 (Z.min (max_response_routes (config st)) p))) (shuffle cs))
            = Z.max 1 (Z.min (max_response_routes (config st)) p)) as ->.
    { unfold zlen in *. rewrite length_take_le by lia. lia. }
    split_and!; [|lia..]. intros e He. apply Hc, Hin.
    apply elem_of_take in He as (i & Hi & _). eapply list_elem_of_lookup_2; exact Hi.
  - rewrite Hlen. split_and!; [auto|lia..].
Qed.

(** A candidate no worse than [b]: equally good or strictly better. *)
Definition no_worse (r b : ScoredRoute) : Prop :=
  r = b \/ dlt (sc_score b) (sc_score r) = true \/ deq (sc_score r) (sc_score b) = true.

Lemma no_worse_dlt r b x :
  no_worse r b -> dlt (sc_score b) (sc_score x) = false -> dlt (sc_score r) (sc_score x) = false.
Proof.
  intros [->|[Hr|Hr]] Hx; [done|by apply (dlt_ntrans (sc_score b))|].
  rewrite (deq_dlt_l _ _ _ Hr). done.
Qed.

Lemma feeler_before_trans r c b : feeler_before c b = true -> no_worse r c -> no_worse r b.
Proof.
  unfold feeler_before. destruct (deq (sc_score c) (sc_score b)) eqn:E; cbn.
  - intros _ [->|[Hr|Hr]]; right; [by right| |].
    + left. rewrite <- (deq_dlt_l _ _ _ E). done.
    + right. by apply (deq_trans _ (sc_score c)).
  - intros Hb [->|[Hr|Hr]]; right; left; [done|by apply (dlt_trans _ (sc_score c))|].
    rewrite (deq_dlt_r _ _ _ Hr). done.
Qed.

Lemma feeler_not_before c b : feeler_before c b = false -> dlt (sc_score b) (sc_score c) = false.
Proof.
  unfold feeler_before. destruct (deq (sc_score c) (sc_score b)) eqn:E; cbn; [|done].
  intros _. rewrite (deq_dlt_r _ _ _ E). apply dlt_irrefl.
Qed.

Lemma sort_front_spec l : forall b,
  let r := sort_front b l in
  (r ∈ b :: l) /\ no_worse r b
  /\ forall x, x ∈ b :: l -> dlt (sc_score r) (sc_score x) = false.
Proof.
  induction l as [|c l IH]; intros b; cbn.
  - split_and!; [set_solver|by left|]. intros x [->|[]%not_elem_of_nil]%elem_of_cons.
    apply dlt_irrefl.
  - destruct (feeler_before c b) eqn:Eb.
    + destruct (IH c) as (Hin & Hnw & Hall). split_and!; [set_solver| |].
      * by apply (feeler_before_trans _ c).
      * intros x [->|Hx]%elem_of_cons; [|by apply Hall].
        apply (no_worse_dlt _ b), dlt_irrefl. by apply (feeler_before_trans _ c).
    + destruct (IH b) as (Hin & Hnw & Hall). split_and!; [set_solver|done|].
      intros x [->|[->|Hx]%elem_of_cons]%elem_of_cons; [apply Hall; set_solver| |apply Hall; set_solver].
      apply (no_worse_dlt _ b); [done|]. by apply feeler_not_before.
Qed.

(** An entry the feeler may probe. *)
Definition feeler_eligible (cfg : RouteManagerConfig) (now : Z) (e : RouteEntry) : Prop :=
  kcp_connected e = false /\ state e <> RouteState.Bad /\ is_terrible cfg e now = false
  /\ in_retry_backoff cfg e now = false /\ dle (route_score pow cfg e now) (d_of_Z 0) = false.

Lemma feeler_candidates_spec cfg now rng items : forall i e,
  (exists c, c ∈ feeler_candidates pow cfg now rng i items /\ sc_entry c = e
             /\ sc_score c = route_score pow cfg e now) <->
  (exists k, (k, e) ∈ items /\ feeler_eligible cfg now e).
Proof.
  induction items as [|[k e0] items IH]; intros i e; cbn [feeler_candidates]; [set_solver|].
  assert (forall P : Prop, (exists k', (k', e) ∈ (k, e0) :: items /\ P) <->
    (e = e0 /\ P) \/ (exists k', (k', e) ∈ items /\ P)) as Hcons.
  { intros P. split.
    - intros (k' & [[= -> ->]|Hin]%elem_of_cons & HP); [auto|eauto].
    - intros [[-> HP]|(k' & Hin & HP)]; [exists k|exists k']; set_solver. }
  rewrite Hcons. unfold feeler_eligible.
  repeat case_cond.
  - rewrite IH. split; [auto|]. intros [(-> & H1 & H2 & H3 & H4 & _)|?]; [|done].
    repeat (apply orb_prop in E as [E|E]); bool_norm; congruence.
  - rewrite IH. split; [auto|]. intros [(-> & _ & _ & _ & _ & ?)|?]; [congruence|done].
  - bool_norm. split.
    + intros (c & [->|Hc]%elem_of_cons & He & Hs); cbn in *; [subst; left; done|].
      right. apply (IH (S i)). eauto.
    + intros [(-> & _)|Hr]; [eexists; split; [left|]; done|].
      apply (IH (S i)) in Hr as (c & Hc & ? & ?). exists c. set_solver.
Qed.

Lemma feeler_candidates_score cfg now rng items : forall i c,
  c ∈ feeler_candidates pow cfg now rng i items ->
  sc_score c = route_score pow cfg (sc_entry c) now.
Proof.
  induction items as [|[k e] items IH]; intros i c; cbn [feeler_candidates]; [set_solver|].
  case_cond; [apply IH|]. case_cond; [apply IH|].
  intros [->|Hc]%elem_of_cons; [done|by apply (IH (S i))].
Qed.

(** The feeler probes a best candidate: the chosen route is in the table, is
    neither linked nor Bad nor terrible nor inside its retry back-off, has a
    positive score, and no other such route has a higher score; none is chosen
    only when there is no candidate. *)
Theorem select_for_feeler_best rng now st :
  match select_for_feeler pow rng now st with
  | Some e =>
      (exists id, routes st !! id = Some e) /\ feeler_eligible (config st) now e
      /\ forall id' e', routes st !! id' = Some e' -> feeler_eligible (config st) now e' ->
           dlt (route_score pow (config st) e now) (route_score pow (config st) e' now) = false
  | None => forall id e, routes st !! id = Some e -> ~ feeler_eligible (config st) now e
  end.
Proof.
  unfold select_for_feeler.
  pose proof (feeler_candidates_spec (config st) now rng (iter_map (routes st)) 0) as Hspec.
  pose proof (feeler_candidates_score (config st) now rng (iter_map (routes st)) 0) as Hsc.
  destruct (feeler_candidates _ _ _ _ _ _) as [|c cs].
  - intros id e Hid He. destruct (proj2 (Hspec e)) as (c & Hc & _); [|set_solver].
    exists id. split; [apply elem_of_iter_map|]; done.
  - destruct (sort_front_spec cs c) as (Hin & _ & Hall).
    set (r := sort_front c cs) in *. clearbody r.
    destruct (proj1 (Hspec (sc_entry r))) as (k & Hk & Hel); [exists r; auto|].
    split_and!; [exists k; by apply elem_of_iter_map|done|]. intros id' e' Hid' He'.
    destruct (proj2 (Hspec e')) as (c' & Hc' & <- & Hs');
      [exists id'; split; [apply elem_of_iter_map|]; done|].
    rewrite <- Hs', <- Hsc by done. apply Hall. done.
Qed.

End proofs.

(** ** Running the model *)

Module RouteDemo.
#[local] Instance demo_order : IterOrder KcpConv RouteEntry := canonical_order.

Definition demo_pow : double -> double -> double := fun _ _ => d_of_Z 1.

Definition demo_node (n : Z) : NodeAddress :=
  {| endpoint := {| host := str "10.0.0.1"; port := 9000 |}; node_id := from_uint32 n |}.

Definition demo_cfg (limit : Z) : RouteManagerConfig :=
  {| max_routes := limit; max_kcp_links := 512; max_response_routes := 2500;
     max_response_percent := 23; retry_backoff_seconds := 60;
     stale_after_seconds := 30 * 24 * 60 * 60; give_up_attempts := 3;
     bad_failure_threshold := 10; max_route_hops := 8;
     capability_stale_after_seconds := 120 |}.

(** A table with the live link 1 and a route to 2 learnt from it. *)
Definition demo_one : RouteManager :=
  (add_route demo_pow 1000 (demo_node 1) None true 0 None
     (route_manager_init (demo_cfg 2))).2.
Definition demo_two : RouteManager :=
  (add_route demo_pow 2000 (demo_node 2) (Some (demo_node 1)) false 1 None demo_one).2.

Lemma demo_two_reachable : rtc (rm_step demo_pow) (route_manager_init (demo_cfg 2)) demo_two.
Proof.
  eapply rtc_l; [apply (step_add_route demo_pow _ 1000 (demo_node 1) None true 0 None);
                 [done|split; done]|].
  eapply rtc_l; [|apply rtc_refl].
  apply (step_add_route demo_pow _ 2000 (demo_node 2) (Some (demo_node 1)) false 1 None);
    [done|split; done].
Qed.

Lemma demo_cfg_ok : config_ok (demo_cfg 2).
Proof. unfold config_ok, u8_max. cbn. lia. Qed.

Lemma add_route_admits_witness :
  (add_route demo_pow 3000 (demo_node 3) None false 0 None demo_two).1 = true.
Proof.
  apply (add_route_admits demo_pow 3000 (demo_node 3) None false 0 None demo_two).
  - vm_compute. reflexivity.
  - vm_compute. reflexivity.
  - vm_compute. congruence.
  - vm_compute. reflexivity.
  - vm_compute. congruence.
  - right. eexists (from_uint32 2), _.
    split; [vm_compute; reflexivity|]. split; [reflexivity|].
    right. vm_compute. reflexivity.
Defined.

Lemma mark_failure_state_witness :
  exists e', routes (mark_failure 5000 (from_uint32 1) demo_two).2 !! from_uint32 1 = Some e'
    /\ kcp_connected e' = false /\ last_try_ms e' = 5000.
Proof.
  destruct (mark_failure_state 5000 (from_uint32 1) demo_two
    (default RouteEntry_default (routes demo_two !! from_uint32 1)))
    as (e' & H1 & H2 & H3 & _).
  - lia.
  - vm_compute. congruence.
  - vm_compute. reflexivity.
  - exists e'. split; [exact H1|]. split; [exact H2 | exact H3].
Defined.

Lemma select_next_hop_live_witness :
  exists hop via, select_next_hop (from_uint32 2) demo_two = Some hop
    /\ routes demo_two !! node_id (next_hop hop) = Some via /\ kcp_connected via = true.
Proof.
  destruct (select_next_hop (from_uint32 2) demo_two) as [hop|] eqn:E;
    [|vm_compute in E; discriminate E].
  destruct (select_next_hop_live (from_uint32 2) demo_two hop
    (rm_steps_inv demo_pow _ _ demo_two_reachable (init_inv _ demo_cfg_ok)) E)
    as (tgt & via & _ & _ & _ & H1 & _ & H2 & _).
  exists hop, via. split; [reflexivity|]. split; [exact H1 | exact H2].
Defined.

Lemma select_routes_for_response_bounds_witness :
  1 <= zlen (select_routes_for_response (fun l => l) 3000 demo_two) <= 1.
Proof.
  destruct (select_routes_for_response_bounds (fun l => l) 3000 demo_two)
    as (_ & _ & H2 & H3).
  - intros l. reflexivity.
  - vm_compute. congruence.
  - vm_compute. congruence.
  - split; [apply H3; vm_compute; reflexivity|].
    eapply Z.le_trans; [exact H2|]. vm_compute. congruence.
Defined.
End RouteDemo.
