(* ===== verification/Admission.v ===== *)
(** Admission control: iota_proxy/src/admission/AdmissionControl.cpp.  Streams
    are limited by a set, bytes by a token bucket in [double]s, links by a count.
    Clock readings are arguments; every method that touches the state holds
    [mutex_] and is atomic. *)
From S2P Require Import Prelude KcpConv Frames Identity Double Routes.

(** [struct AdmissionControlConfig] *)
Record AdmissionControlConfig := mkAdmissionConfig {
  max_ingress_streams : Z;
  max_ingress_bytes_per_second : Z;
  admission_max_kcp_links : Z;
}.

(** The members of [class AdmissionControl]. *)
Record AdmissionControl := mkAdmission {
  adm_config : AdmissionControlConfig;
  ingress_streams : gset Z;
  ingress_byte_tokens : double;
  token_refill_ms : Z;
  current_second : Z;
  current_second_bytes : Z;
  last_complete_second_bytes : Z;
}.

Definition steady_second (ms : Z) : Z := if ms <=? 0 then 0 else ms / 1000.

(** The constructor; [now] is the steady clock. *)
Definition admission_init (cfg : AdmissionControlConfig) (now : Z) : AdmissionControl :=
  {| adm_config := cfg; ingress_streams := ∅;
     ingress_byte_tokens := d_of_Z (max_ingress_bytes_per_second cfg);
     token_refill_ms := now; current_second := steady_second now;
     current_second_bytes := 0; last_complete_second_bytes := 0 |}.

Definition stream_count (st : AdmissionControl) : Z := Z.of_nat (size (ingress_streams st)).

Definition set_streams (s : gset Z) (st : AdmissionControl) : AdmissionControl :=
  {| adm_config := adm_config st; ingress_streams := s;
     ingress_byte_tokens := ingress_byte_tokens st; token_refill_ms := token_refill_ms st;
     current_second := current_second st; current_second_bytes := current_second_bytes st;
     last_complete_second_bytes := last_complete_second_bytes st |}.

Definition try_accept_ingress_stream (stream_id : Z) (st : AdmissionControl)
    : bool * AdmissionControl :=
  if stream_id =? 0 then (false, st)
  else if bool_decide (stream_id ∈ ingress_streams st) then (true, st)
  else if negb (max_ingress_streams (adm_config st) =? 0) &&
          (max_ingress_streams (adm_config st) <=? stream_count st) then (false, st)
  else (true, set_streams ({[stream_id]} ∪ ingress_streams st) st).

Definition release_ingress_stream (stream_id : Z) (st : AdmissionControl) : AdmissionControl :=
  if stream_id =? 0 then st
  else set_streams (ingress_streams st ∖ {[stream_id]}) st.

(** [refill_tokens_locked] *)
Definition roll_second (now_ms : Z) (st : AdmissionControl) : AdmissionControl :=
  let second := steady_second now_ms in
  if negb (second =? current_second st) then
    {| adm_config := adm_config st; ingress_streams := ingress_streams st;
       ingress_byte_tokens := ingress_byte_tokens st; token_refill_ms := token_refill_ms st;
       current_second := second; current_second_bytes := 0;
       last_complete_second_bytes := current_second_bytes st |}
  else st.

Definition refill_tokens_locked (now_ms : Z) (st : AdmissionControl) : AdmissionControl :=
  let st := roll_second now_ms st in
  if max_ingress_bytes_per_second (adm_config st) =? 0 then st
  else
    let elapsed_ms := Z.max 0 (now_ms - token_refill_ms st) in
    if elapsed_ms =? 0 then st
    else
      let capacity := d_of_Z (max_ingress_bytes_per_second (adm_config st)) in
      let refill := ddiv (dmul capacity (d_of_Z elapsed_ms)) (d_of_Z 1000) in
      {| adm_config := adm_config st; ingress_streams := ingress_streams st;
         ingress_byte_tokens := dmin capacity (dadd (ingress_byte_tokens st) refill);
         token_refill_ms := now_ms; current_second := current_second st;
         current_second_bytes := current_second_bytes st;
         last_complete_second_bytes := last_complete_second_bytes st |}.

Definition try_accept_ingress_bytes (now : Z) (bytes : Z) (st : AdmissionControl)
    : bool * AdmissionControl :=
  if (bytes =? 0) || (max_ingress_bytes_per_second (adm_config st) =? 0) then (true, st)
  else
    let st := refill_tokens_locked now st in
    let needed := d_of_Z bytes in
    if dlt (ingress_byte_tokens st) needed then (false, st)
    else
      (true,
       {| adm_config := adm_config st; ingress_streams := ingress_streams st;
          ingress_byte_tokens := dsub (ingress_byte_tokens st) needed;
          token_refill_ms := token_refill_ms st; current_second := current_second st;
          current_second_bytes := wrap 64 (current_second_bytes st + bytes);
          last_complete_second_bytes := last_complete_second_bytes st |}).

Definition can_accept_kcp_link (current_kcp_links : Z) (st : AdmissionControl) : bool :=
  (admission_max_kcp_links (adm_config st) =? 0) ||
  (current_kcp_links <? admission_max_kcp_links (adm_config st)).

(** [AdmissionControl::snapshot] with the steady and the wall clock. *)
Definition admission_snapshot (now wall_now : Z) (current_kcp_links : Z)
    (st : AdmissionControl) : NodeCapability * AdmissionControl :=
  let st := refill_tokens_locked now st in
  ({| present := true;
      accepting_ingress :=
        ((max_ingress_streams (adm_config st) =? 0) ||
         (stream_count st <? max_ingress_streams (adm_config st))) &&
        can_accept_kcp_link current_kcp_links st;
      cap_max_kcp_links := admission_max_kcp_links (adm_config st);
      cap_current_kcp_links := current_kcp_links;
      cap_max_ingress_streams := max_ingress_streams (adm_config st);
      cap_current_ingress_streams := stream_count st;
      cap_max_ingress_bytes_per_second := max_ingress_bytes_per_second (adm_config st);
      cap_current_ingress_bytes_per_second :=
        Z.max (current_second_bytes st) (last_complete_second_bytes st);
      updated_at_ms := wall_now |}, st).

(** ** Runs of the component *)

(** A call and the time it happens; the log records accepted bytes. *)
Inductive adm_call : Type :=
  | CallAcceptStream (id : Z)
  | CallReleaseStream (id : Z)
  | CallAcceptBytes (n : Z)
  | CallSnapshot (links : Z).

Definition adm_apply (now : Z) (c : adm_call) (st : AdmissionControl) : bool * AdmissionControl :=
  match c with
  | CallAcceptStream id => try_accept_ingress_stream id st
  | CallReleaseStream id => (true, release_ingress_stream id st)
  | CallAcceptBytes n => try_accept_ingress_bytes now n st
  | CallSnapshot links => (true, (admission_snapshot now now links st).2)
  end.

(** The bytes a call accepts, with the second of the clock at which they were accepted. *)
Definition accepted_bytes (now : Z) (c : adm_call) (st : AdmissionControl) : list (Z * Z) :=
  match c with
  | CallAcceptBytes n =>
      if (try_accept_ingress_bytes now n st).1 && negb (n =? 0)
      then [(steady_second now, n)] else []
  | _ => []
  end.

(** Runs at non-decreasing times, with the log of accepted bytes. *)
Inductive adm_run (cfg : AdmissionControlConfig) : Z -> AdmissionControl -> list (Z * Z) -> Prop :=
  | adm_start now : adm_run cfg now (admission_init cfg now) []
  | adm_next now now' st log c :
      adm_run cfg now st log -> now <= now' ->
      (forall n, c = CallAcceptBytes n -> 0 <= n) ->
      adm_run cfg now' (adm_apply now' c st).2 (accepted_bytes now' c st ++ log).

Definition bytes_in_second (s : Z) (log : list (Z * Z)) : Z :=
  foldr Z.add 0 (snd <$> filter (fun x => x.1 = s) log).

(** ** Lemmas *)

Lemma steady_second_mono a b : a <= b -> steady_second a <= steady_second b.
Proof.
  intros Hab. unfold steady_second.
  destruct (Z.leb_spec a 0), (Z.leb_spec b 0); try lia;
    [apply Z.div_pos | apply Z.div_le_mono]; lia.
Qed.

Lemma refill_fields now st :
  adm_config (refill_tokens_locked now st) = adm_config st
  /\ ingress_streams (refill_tokens_locked now st) = ingress_streams st
  /\ current_second (refill_tokens_locked now st) = steady_second now
  /\ current_second_bytes (refill_tokens_locked now st) =
     (if steady_second now =? current_second st then current_second_bytes st else 0)
  /\ last_complete_second_bytes (refill_tokens_locked now st) =
     (if steady_second now =? current_second st then last_complete_second_bytes st
      else current_second_bytes st).
Proof.
  unfold refill_tokens_locked, roll_second.
  destruct (Z.eqb_spec (steady_second now) (current_second st)) as [E|E]; cbn [negb];
    repeat case_cond; cbn; auto.
Qed.

Lemma bytes_in_second_app s l k :
  bytes_in_second s (l ++ k) = bytes_in_second s l + bytes_in_second s k.
Proof.
  unfold bytes_in_second. rewrite filter_app, fmap_app, foldr_app.
  induction (snd <$> filter (fun x : Z * Z => x.1 = s) l); cbn; lia.
Qed.

(** Accepting or rejecting bytes, in terms of the refilled state. *)
Lemma accept_bytes_cases now n st :
  0 < n -> max_ingress_bytes_per_second (adm_config st) <> 0 ->
  let st1 := refill_tokens_locked now st in
  if dlt (ingress_byte_tokens st1) (d_of_Z n)
  then try_accept_ingress_bytes now n st = (false, st1)
  else exists st2, try_accept_ingress_bytes now n st = (true, st2)
       /\ adm_config st2 = adm_config st /\ ingress_streams st2 = ingress_streams st
       /\ current_second st2 = steady_second now
       /\ ingress_byte_tokens st2 = dsub (ingress_byte_tokens st1) (d_of_Z n)
       /\ current_second_bytes st2 = wrap 64 (current_second_bytes st1 + n)
       /\ last_complete_second_bytes st2 = last_complete_second_bytes st1.
Proof.
  intros Hn Hm. cbn zeta. unfold try_accept_ingress_bytes.
  destruct (Z.eqb_spec n 0); [lia|].
  destruct (Z.eqb_spec (max_ingress_bytes_per_second (adm_config st)) 0); [lia|]. cbn [orb].
  destruct (refill_fields now st) as (H1 & H2 & H3 & _ & _).
  destruct (dlt _ _); [done|]. eexists. split_and!; try done.
Qed.

Lemma try_accept_stream_spec id st :
  let '(ok, st') := try_accept_ingress_stream id st in
  (ok = true <-> id <> 0 /\ ((id ∈ ingress_streams st)
                  \/ max_ingress_streams (adm_config st) = 0
                  \/ stream_count st < max_ingress_streams (adm_config st)))
  /\ ingress_streams st' = (if ok then {[id]} ∪ ingress_streams st else ingress_streams st)
  /\ adm_config st' = adm_config st.
Proof.
  unfold try_accept_ingress_stream.
  destruct (Z.eqb_spec id 0) as [->|Hid]; [naive_solver|].
  case_bool_decide as Hin.
  { split_and!; [naive_solver|set_solver|done]. }
  destruct (Z.eqb_spec (max_ingress_streams (adm_config st)) 0) as [E|E]; cbn [negb andb].
  { cbn. split_and!; [naive_solver|done|done]. }
  destruct (Z.leb_spec (max_ingress_streams (adm_config st)) (stream_count st)); cbn;
    split_and!; try done; split; intros; try done; [|naive_solver].
  destruct_and!. destruct_or!; done || lia.
Qed.

Definition streams_inv (st : AdmissionControl) : Prop :=
  (0 ∉ ingress_streams st)
  /\ (max_ingress_streams (adm_config st) <> 0 -> 0 <= max_ingress_streams (adm_config st) ->
      stream_count st <= max_ingress_streams (adm_config st)).

Lemma streams_inv_same st st' :
  ingress_streams st' = ingress_streams st -> adm_config st' = adm_config st ->
  streams_inv st -> streams_inv st'.
Proof. unfold streams_inv, stream_count. intros -> ->. done. Qed.

Lemma accept_bytes_fields now n st :
  adm_config (try_accept_ingress_bytes now n st).2 = adm_config st
  /\ ingress_streams (try_accept_ingress_bytes now n st).2 = ingress_streams st.
Proof.
  unfold try_accept_ingress_bytes. case_cond; [done|].
  destruct (refill_fields now st) as (H1 & H2 & _). case_cond; done.
Qed.

Lemma adm_apply_config now c st : adm_config (adm_apply now c st).2 = adm_config st.
Proof.
  destruct c; cbn.
  - pose proof (try_accept_stream_spec id st) as H.
    destruct (try_accept_ingress_stream id st). apply H.
  - unfold release_ingress_stream. case_cond; done.
  - apply accept_bytes_fields.
  - apply refill_fields.
Qed.

Lemma adm_apply_streams now c st : streams_inv st -> streams_inv (adm_apply now c st).2.
Proof.
  intros Hinv. destruct c; cbn.
  - pose proof (try_accept_stream_spec id st) as H.
    destruct (try_accept_ingress_stream id st) as [ok st']. destruct H as (Hok & Hs & Hc). cbn [snd].
    destruct ok; [|apply (streams_inv_same st); done].
    destruct Hinv as [H0 Hmax]. destruct Hok as [Hok _]. destruct (Hok eq_refl) as [Hid Hroom].
    split; [rewrite Hs; set_solver|]. rewrite Hc. intros Hne Hpos. specialize (Hmax Hne Hpos).
    unfold stream_count in *. rewrite Hs. destruct Hroom as [Hin|[?|Hlt]]; [|done|].
    + replace ({[id]} ∪ ingress_streams st) with (ingress_streams st) by set_solver. done.
    + pose proof (size_union_alt {[id]} (ingress_streams st)) as Hsz.
      rewrite size_singleton in Hsz.
      assert (size (ingress_streams st ∖ {[id]}) <= size (ingress_streams st))%nat
        by (apply subseteq_size; set_solver). lia.
  - unfold release_ingress_stream. case_cond; [done|]. destruct Hinv as [H0 Hmax]. split; cbn.
    + set_solver.
    + intros Hne Hpos. specialize (Hmax Hne Hpos). unfold stream_count in *. cbn.
      assert (size (ingress_streams st ∖ {[id]}) <= size (ingress_streams st))%nat
        by (apply subseteq_size; set_solver). lia.
  - apply (streams_inv_same st); [apply accept_bytes_fields..|done].
  - destruct (refill_fields now st) as (H1 & H2 & _). apply (streams_inv_same st); done.
Qed.

(** The ingress stream table respects its limit: after any sequence of
    calls it holds no stream with id 0 and, when a limit is configured, at most
    that many streams. *)
Theorem admission_stream_limit cfg now st log :
  adm_run cfg now st log -> adm_config st = cfg /\ streams_inv st.
Proof.
  induction 1 as [now|now now' st log c Hrun [IHc IHs] Hle Hn].
  - split; [done|]. split; [set_solver|]. unfold stream_count. cbn. intros. rewrite size_empty. lia.
  - rewrite adm_apply_config. split; [done|]. apply adm_apply_streams. done.
Qed.

(** A stream is accepted exactly when its id is not 0 and it is already
    registered or there is room; acceptance registers it, rejection changes
    nothing, and releasing it makes room again. *)
Theorem admission_stream_decision id st :
  let '(ok, st') := try_accept_ingress_stream id st in
  (ok = true <-> id <> 0 /\ ((id ∈ ingress_streams st)
                  \/ max_ingress_streams (adm_config st) = 0
                  \/ stream_count st < max_ingress_streams (adm_config st)))
  /\ ingress_streams st' = (if ok then {[id]} ∪ ingress_streams st else ingress_streams st)
  /\ id ∉ ingress_streams (release_ingress_stream id st') \/ id = 0.
Proof.
  pose proof (try_accept_stream_spec id st) as H.
  destruct (try_accept_ingress_stream id st) as [ok st']. destruct H as (H1 & H2 & _).
  unfold release_ingress_stream. destruct (Z.eqb_spec id 0); [auto|].
  left. split_and!; [done|done|]. cbn. set_solver.
Qed.

(** ** Byte accounting *)

(** What the counters mean: the bytes accepted in the second of the counter, and a
    bound on the times in the log. *)
Definition accounting (now : Z) (st : AdmissionControl) (log : list (Z * Z)) : Prop :=
  current_second st <= steady_second now
  /\ Forall (fun x => x.1 <= current_second st) log
  /\ current_second_bytes st = wrap 64 (bytes_in_second (current_second st) log).

Lemma bytes_in_later_second s log : Forall (fun x : Z * Z => x.1 < s) log -> bytes_in_second s log = 0.
Proof.
  unfold bytes_in_second. induction 1 as [|[t n] log Hlt _ IH]; [done|].
  rewrite filter_cons_False by (cbn in *; lia). done.
Qed.

Lemma accounting_refill now now' st log :
  accounting now st log -> now <= now' -> accounting now' (refill_tokens_locked now' st) log.
Proof.
  intros (Hs & Hlog & Hb) Hle. unfold accounting.
  destruct (refill_fields now' st) as (_ & _ & -> & -> & _).
  pose proof (steady_second_mono _ _ Hle). split; [lia|].
  destruct (Z.eqb_spec (steady_second now') (current_second st)) as [->|Hne]; [done|].
  split.
  - eapply Forall_impl; [exact Hlog|]. cbn. lia.
  - rewrite bytes_in_later_second; [done|]. eapply Forall_impl; [exact Hlog|]. cbn. lia.
Qed.

Lemma accounting_same now now' st st' log :
  accounting now st log -> now <= now' ->
  current_second st' = current_second st -> current_second_bytes st' = current_second_bytes st ->
  accounting now' st' log.
Proof.
  intros (Hs & Hlog & Hb) Hle E1 E2. unfold accounting. rewrite E1, E2.
  pose proof (steady_second_mono _ _ Hle). split_and!; [lia|done|done].
Qed.

Lemma accounting_bytes now now' n st log :
  max_ingress_bytes_per_second (adm_config st) <> 0 -> accounting now st log -> now <= now' -> 0 <= n ->
  accounting now' (try_accept_ingress_bytes now' n st).2 (accepted_bytes now' (CallAcceptBytes n) st ++ log).
Proof.
  intros Hm Hacc Hle Hn. cbn [accepted_bytes].
  destruct (Z.eqb_spec n 0) as [->|Hn0].
  { rewrite andb_false_r. by apply (accounting_same now now' st). }
  pose proof (accept_bytes_cases now' n st ltac:(lia) Hm) as Hc.
  pose proof (accounting_refill now now' st log Hacc Hle) as Hr. cbn zeta in Hc.
  destruct (dlt _ _); [rewrite Hc; done|].
  destruct Hc as (st2 & -> & _ & _ & Hs & _ & Hb & _). cbn [fst snd negb andb app].
  destruct Hr as (_ & Hlog & Hbytes).
  destruct (refill_fields now' st) as (_ & _ & Hcs & _ & _). rewrite Hcs in *.
  unfold accounting. rewrite Hs, Hb, Hbytes. split_and!; [lia| |].
  - constructor; [cbn; lia|done].
  - unfold bytes_in_second. rewrite filter_cons_True by done. cbn [fmap list_fmap snd foldr].
    unfold wrap. rewrite Zplus_mod_idemp_l. f_equal. lia.
Qed.

Lemma accounting_call now now' c st log :
  max_ingress_bytes_per_second (adm_config st) <> 0 -> accounting now st log -> now <= now' ->
  (forall n, c = CallAcceptBytes n -> 0 <= n) ->
  accounting now' (adm_apply now' c st).2 (accepted_bytes now' c st ++ log).
Proof.
  intros Hm Hacc Hle Hn. destruct c as [id|id|n|l].
  - apply (accounting_same now now' st); try done; cbn; unfold try_accept_ingress_stream; repeat case_cond; done.
  - apply (accounting_same now now' st); try done; cbn; unfold release_ingress_stream; case_cond; done.
  - apply (accounting_bytes now); auto.
  - apply (accounting_refill now); done.
Qed.

(** Without a limit nothing is counted. *)
Lemma unlimited_call now' c st :
  max_ingress_bytes_per_second (adm_config st) = 0 -> current_second_bytes st = 0 -> last_complete_second_bytes st = 0 ->
  current_second_bytes (adm_apply now' c st).2 = 0 /\ last_complete_second_bytes (adm_apply now' c st).2 = 0.
Proof.
  intros Hm Hb Hl. destruct c as [id|id|n|l]; cbn.
  - unfold try_accept_ingress_stream. repeat case_cond; done.
  - unfold release_ingress_stream. case_cond; done.
  - unfold try_accept_ingress_bytes. rewrite Hm, orb_true_r. done.
  - destruct (refill_fields now' st) as (_ & _ & _ & -> & ->). rewrite Hb, Hl. case_cond; done.
Qed.

(** [C33] With a byte limit the counter is exact: in every run at non-decreasing times the counter of
    the current second is the sum (modulo 2^64) of the bytes accepted in that second, so the rate a
    node advertises is what it really accepted.  Without a limit, the default, nothing is counted and
    the counters stay 0. *)
Theorem admission_byte_accounting cfg now st log :
  adm_run cfg now st log ->
  if max_ingress_bytes_per_second cfg =? 0
  then current_second_bytes st = 0 /\ last_complete_second_bytes st = 0
  else accounting now st log.
Proof.
  intros Hrun. cut (adm_config st = cfg /\ if max_ingress_bytes_per_second cfg =? 0
    then current_second_bytes st = 0 /\ last_complete_second_bytes st = 0 else accounting now st log); [by intros [_ ?]|].
  induction Hrun as [now|now now' st log c Hrun [IHc IH] Hle Hn].
  - split; [done|]. case_cond; [done|]. unfold accounting. cbn. split_and!; [lia|constructor|done].
  - rewrite adm_apply_config. split; [done|]. rewrite <- IHc in *.
    destruct (Z.eqb_spec (max_ingress_bytes_per_second (adm_config st)) 0); [destruct IH; by apply unlimited_call|by apply (accounting_call now)].
Qed.

(** ** The token bucket *)

(** Refilling never overfills the bucket: once time has advanced, the tokens
    are a number not above the configured rate; hence a single request for more
    bytes than one second's worth is refused, and the refusal changes nothing
    beyond the refill. *)
Theorem admission_refill_capped now n st :
  0 < max_ingress_bytes_per_second (adm_config st) -> token_refill_ms st < now ->
  let cap := d_of_Z (max_ingress_bytes_per_second (adm_config st)) in
  let st1 := refill_tokens_locked now st in
  dlt cap (ingress_byte_tokens st1) = false /\ is_nan (ingress_byte_tokens st1) = false
  /\ (0 < n -> dlt cap (d_of_Z n) = true -> try_accept_ingress_bytes now n st = (false, st1)).
Proof.
  intros Hm Hnow cap st1.
  assert (is_nan cap = false) as Hcap by (apply dnonneg_not_nan, d_of_Z_nonneg; lia).
  assert (dlt cap (ingress_byte_tokens st1) = false
          /\ is_nan (ingress_byte_tokens st1) = false) as [H1 H2].
  { unfold st1, refill_tokens_locked.
    assert (adm_config (roll_second now st) = adm_config st
            /\ token_refill_ms (roll_second now st) = token_refill_ms st) as [-> ->]
      by (unfold roll_second; case_cond; done).
    destruct (Z.eqb_spec (max_ingress_bytes_per_second (adm_config st)) 0); [lia|].
    destruct (Z.eqb_spec (Z.max 0 (now - token_refill_ms st)) 0); [lia|]. cbn.
    split; [apply dmin_le_l | apply dmin_not_nan; done]. }
  split_and!; [done|done|]. intros Hn Hbig.
  pose proof (accept_bytes_cases now n st Hn ltac:(lia)) as Hc. cbn zeta in Hc. fold st1 in Hc.
  assert (dlt (ingress_byte_tokens st1) (d_of_Z n) = true) as E; [|rewrite E in Hc; done].
  destruct (dlt_total cap (ingress_byte_tokens st1) Hcap H2 H1) as [Hl|Heq].
  - by apply (dlt_trans _ cap).
  - rewrite <- (deq_dlt_l _ _ _ Heq). done.
Qed.

(** The advertised capability is consistent with the decisions: whenever a
    node advertises that it accepts ingress, a new stream and a new link are
    accepted at that moment. *)
Theorem admission_snapshot_honest now wall links id st :
  id <> 0 ->
  let '(cap, st') := admission_snapshot now wall links st in
  accepting_ingress cap = true ->
  (try_accept_ingress_stream id st').1 = true /\ can_accept_kcp_link links st' = true
  /\ cap_current_ingress_streams cap = stream_count st.
Proof.
  intros Hid. unfold admission_snapshot.
  set (st1 := refill_tokens_locked now st). cbn.
  destruct (refill_fields now st) as (Hc & Hs & _). fold st1 in Hc, Hs.
  intros Ha. apply andb_prop in Ha as [Hroom Hlink]. split_and!; [|done|].
  - pose proof (try_accept_stream_spec id st1) as H.
    destruct (try_accept_ingress_stream id st1) as [ok st']. apply H. split; [done|].
    apply orb_prop in Hroom as [Hr|Hr]; bool_norm; auto.
  - unfold stream_count. rewrite Hs. done.
Qed.

(** With no byte limit configured (the default), accepted traffic is not
    counted at all: the advertised byte rate is 0 in every reachable state. *)
Theorem admission_unlimited_rate_zero cfg now st log wall links :
  max_ingress_bytes_per_second cfg = 0 -> adm_run cfg now st log ->
  cap_current_ingress_bytes_per_second (admission_snapshot now wall links st).1 = 0.
Proof.
  intros Hcfg Hrun.
  assert (adm_config st = cfg /\ current_second_bytes st = 0
          /\ last_complete_second_bytes st = 0) as (_ & Hb & Hl).
  { induction Hrun as [|now now' st log c Hrun (IHc & IHb & IHl) Hle Hn]; [done|].
    rewrite adm_apply_config. split; [done|]. apply unlimited_call; [by rewrite IHc|done..]. }
  cbn. destruct (refill_fields now st) as (_ & _ & _ & -> & ->). rewrite Hb, Hl.
  case_cond; done.
Qed.

(** ** Running the model *)

Module AdmissionDemo.
Definition demo_cfg (rate : Z) : AdmissionControlConfig :=
  {| max_ingress_streams := 2; max_ingress_bytes_per_second := rate;
     admission_max_kcp_links := 4 |}.

Definition demo_state (rate : Z) : AdmissionControl :=
  (adm_apply 1500 (CallAcceptBytes 300)
    (adm_apply 1200 (CallAcceptStream 9) (admission_init (demo_cfg rate) 1000)).2).2.

Lemma demo_run rate : rate = 1000 \/ rate = 0 ->
  adm_run (demo_cfg rate) 1500 (demo_state rate)
    (accepted_bytes 1500 (CallAcceptBytes 300)
       (adm_apply 1200 (CallAcceptStream 9) (admission_init (demo_cfg rate) 1000)).2 ++ []).
Proof.
  intros _. eapply (adm_next _ 1200 1500); [|lia|intros n [= <-]; lia].
  apply (adm_next _ 1000 1200 _ [] (CallAcceptStream 9)); [constructor|lia|done].
Qed.

Lemma admission_stream_limit_witness :
  streams_inv (demo_state 1000) /\ stream_count (demo_state 1000) = 1.
Proof.
  split; [|vm_compute; reflexivity].
  exact (proj2 (admission_stream_limit _ _ _ _ (demo_run 1000 (or_introl eq_refl)))).
Defined.

Lemma admission_byte_accounting_witness :
  accounting 1500 (demo_state 1000) [(1, 300)] /\ current_second_bytes (demo_state 1000) = 300.
Proof.
  split; [|vm_compute; reflexivity].
  exact (admission_byte_accounting _ _ _ _ (demo_run 1000 (or_introl eq_refl))).
Defined.

Lemma admission_refill_capped_witness :
  try_accept_ingress_bytes 2000 1001 (demo_state 1000) =
    (false, refill_tokens_locked 2000 (demo_state 1000)).
Proof.
  refine (proj2 (proj2 (admission_refill_capped 2000 1001 (demo_state 1000) _ _)) _ _);
    vm_compute; reflexivity.
Defined.

Lemma admission_snapshot_honest_witness :
  (try_accept_ingress_stream 5 (admission_snapshot 2000 7 3 (demo_state 1000)).2).1 = true.
Proof.
  refine (proj1 (admission_snapshot_honest 2000 7 3 5 (demo_state 1000) _ _));
    [lia | vm_compute; reflexivity].
Defined.

Lemma admission_unlimited_rate_zero_witness :
  cap_current_ingress_bytes_per_second (admission_snapshot 1500 7 0 (demo_state 0)).1 = 0.
Proof.
  exact (admission_unlimited_rate_zero (demo_cfg 0) 1500 (demo_state 0) _ 7 0 eq_refl
           (demo_run 0 (or_intror eq_refl))).
Defined.
End AdmissionDemo.
