(* ===== verification/Tunnel.v ===== *)
(** The inter-node tunnel: iota_proxy/src/kcp/KcpTunnel.cpp.

    [KcpTunnel] is the state of the class.  Calls of [manager_.send] are outputs:
    a method returns the list of [Send] requests it makes, in order, and
    [mgr_send] gives the boolean the transport answers.  The C library's
    [inet_pton], the bytes drawn by [RAND_bytes] and the clock are arguments.
    The two hash tables are visited in an arbitrary order ([IterOrder]). *)
From S2P Require Import Prelude KcpConv Frames Identity.

(** ** Data *)

(** [struct KcpTunnelConfig], as far as the tunnel itself reads it. *)
Record KcpTunnelConfig := mkTunnelConfig {
  identity_id : KcpConv;
  config_peer : NodeAddress;
  max_peer_links : Z;
  broadcast_ttl : Z;
  max_broadcast_fanout : Z;
  max_seen_broadcasts : Z;
  seen_broadcast_seconds : Z;
}.

(** [struct PeerLink] *)
Record PeerLink := mkLink {
  link_peer : NodeAddress;
  link_conv : KcpConv;
  link_addr : sockaddr_in;
}.

(** The members of [class KcpTunnel]. *)
Record KcpTunnel := mkTunnel {
  tunnel_config : KcpTunnelConfig;
  peer_addr : sockaddr_in;
  peer_links : gmap KcpConv PeerLink;
  seen_broadcasts : gmap bytes Z;
  running : bool;
}.

(** One call of [KcpManager::send]. *)
Record Send := mkSend { send_addr : sockaddr_in; send_conv : KcpConv; send_packet : bytes }.

Definition with_links (m : gmap KcpConv PeerLink) (t : KcpTunnel) : KcpTunnel :=
  {| tunnel_config := tunnel_config t; peer_addr := peer_addr t; peer_links := m;
     seen_broadcasts := seen_broadcasts t; running := running t |}.
Definition with_seen (m : gmap bytes Z) (t : KcpTunnel) : KcpTunnel :=
  {| tunnel_config := tunnel_config t; peer_addr := peer_addr t; peer_links := peer_links t;
     seen_broadcasts := m; running := running t |}.
Definition with_running (b : bool) (t : KcpTunnel) : KcpTunnel :=
  {| tunnel_config := tunnel_config t; peer_addr := peer_addr t; peer_links := peer_links t;
     seen_broadcasts := seen_broadcasts t; running := b |}.
Definition with_peer_addr (a : sockaddr_in) (t : KcpTunnel) : KcpTunnel :=
  {| tunnel_config := tunnel_config t; peer_addr := a; peer_links := peer_links t;
     seen_broadcasts := seen_broadcasts t; running := running t |}.

(** The constructor. *)
Definition tunnel_init (cfg : KcpTunnelConfig) : KcpTunnel :=
  {| tunnel_config := cfg;
     peer_addr := {| sin_port := [x00; x00]; sin_addr := [x00; x00; x00; x00] |};
     peer_links := ∅; seen_broadcasts := ∅; running := false |}.

(** ** Broadcast envelopes *)

Definition kBroadcastMagic : Z := 0x49504742.
Definition kBroadcastVersion : Z := 1.
Definition kBroadcastHeaderSize : Z := 76.

(** [struct BroadcastEnvelopeView] *)
Record BroadcastEnvelopeView := mkEnvelope {
  env_origin : KcpConv;
  env_message_id : KcpConv;
  env_ttl : Z;
  env_payload : bytes;
}.

Definition is_relayed_type (type : TunnelFrameType.t) : bool :=
  bool_decide (type = TunnelFrameType.Control) ||
  bool_decide (type = TunnelFrameType.Replicate) ||
  bool_decide (type = TunnelFrameType.KafkaBroadcast).

Definition auto_relay_type (type : TunnelFrameType.t) : bool :=
  bool_decide (type = TunnelFrameType.Control) ||
  bool_decide (type = TunnelFrameType.Replicate).

(** [make_seen_key]: type, stream id, origin, message id. *)
Definition make_seen_key (type : TunnelFrameType.t) (stream_id : Z)
    (origin message_id : KcpConv) : bytes :=
  let key := [to_byte (TunnelFrameType.code type)] in
  let stream_bytes := store_u64 (replicate 8 x00) 0 stream_id in
  key ++ stream_bytes ++ conv_bytes origin ++ conv_bytes message_id.

(** [make_random_message_id]; [rand] is what [RAND_bytes] wrote, [None] when it
    failed. *)
Definition make_random_message_id (rand : option KcpConv) : option KcpConv :=
  match rand with
  | None => None
  | Some c => if conv_empty c then Some (mkConv (<[31%nat := x01]> (conv_bytes c)))
              else Some c
  end.

(** [std::memcpy(data + off, src, n)] *)
Definition copy_at (dst : bytes) (off : nat) (src : bytes) : bytes :=
  take off dst ++ src ++ drop (off + length src) dst.

Definition encode_broadcast_envelope (origin message_id : KcpConv) (ttl : Z)
    (payload : bytes) : bytes :=
  if conv_empty origin || conv_empty message_id || (u32_max <? zlen payload) then []
  else
    let out := replicate (76 + length payload)%nat x00 in
    let out := store_u32 out 0 kBroadcastMagic in
    let out := <[4%nat := to_byte kBroadcastVersion]> out in
    let out := <[5%nat := to_byte ttl]> out in
    let out := <[6%nat := x00]> out in
    let out := <[7%nat := x00]> out in
    let out := copy_at out 8 (conv_bytes origin) in
    let out := copy_at out 40 (conv_bytes message_id) in
    let out := store_u32 out 72 (wrap 32 (zlen payload)) in
    if zlen payload =? 0 then out
    else string_replace out 76 (length payload) payload.

(** [enum class BroadcastDecodeStatus], with the view written on success. *)
Inductive BroadcastDecodeStatus : Type :=
  | Plain
  | Invalid
  | Envelope (view : BroadcastEnvelopeView).

Definition decode_broadcast_envelope (payload : bytes) : BroadcastDecodeStatus :=
  if zlen payload <? 4 then Plain
  else if negb (load_u32 payload =? kBroadcastMagic) then Plain
  else if (zlen payload <? kBroadcastHeaderSize) ||
          negb (byte_val (payload !!! 4%nat) =? kBroadcastVersion) ||
          negb (byte_val (payload !!! 6%nat) =? 0) ||
          negb (byte_val (payload !!! 7%nat) =? 0) then Invalid
  else
    let payload_len := load_u32 (drop 72 payload) in
    if negb (zlen payload - kBroadcastHeaderSize =? payload_len) then Invalid
    else
      let origin := mkConv (take 32 (drop 8 payload)) in
      let message_id := mkConv (take 32 (drop 40 payload)) in
      if conv_empty origin || conv_empty message_id then Invalid
      else Envelope {| env_origin := origin; env_message_id := message_id;
                       env_ttl := byte_val (payload !!! 5%nat);
                       env_payload := take (Z.to_nat payload_len) (drop 76 payload) |}.

(** ** Duplicate suppression *)

Section seen.
Context {seen_order : IterOrder bytes Z}.

(** [while (size >= max && !empty) erase(begin())] *)
Fixpoint evict_loop (limit : Z) (items : list (bytes * Z)) (m : gmap bytes Z) : gmap bytes Z :=
  match items with
  | [] => m
  | (k, _) :: items =>
      if limit <=? Z.of_nat (size m) then evict_loop limit items (delete k m) else m
  end.

Definition seen_expiry (cfg : KcpTunnelConfig) (now : Z) : Z :=
  let ttl_ms := seen_broadcast_seconds cfg * 1000 in
  if ttl_ms <=? 0 then i64_max else now + ttl_ms.

Definition purge_seen (now : Z) (m : gmap bytes Z) : gmap bytes Z :=
  filter (fun kv => now < kv.2) m.

(** [mark_broadcast_seen], on the table: true when the key was not live. *)
Definition mark_seen (cfg : KcpTunnelConfig) (now : Z) (key : bytes) (m : gmap bytes Z)
    : bool * gmap bytes Z :=
  if (zlen key =? 0) || (max_seen_broadcasts cfg =? 0) then (true, m)
  else
    let m := purge_seen now m in
    match m !! key with
    | Some _ => (false, <[key := seen_expiry cfg now]> m)
    | None =>
        let m := evict_loop (max_seen_broadcasts cfg) (iter_map m) m in
        (true, <[key := seen_expiry cfg now]> m)
    end.

Definition mark_broadcast_seen (now : Z) (key : bytes) (t : KcpTunnel) : bool * KcpTunnel :=
  let '(fresh, m) := mark_seen (tunnel_config t) now key (seen_broadcasts t) in
  (fresh, with_seen m t).
End seen.

(** ** Sending *)

(** The ranking hash of [broadcast_packet]. *)
Definition link_score (message_id : KcpConv) (link : PeerLink) : Z :=
  let hash := fnv_offset in
  let hash := fold_left fnv_mix (conv_bytes message_id) hash in
  let hash := fold_left fnv_mix (conv_bytes (node_id (link_peer link))) hash in
  let hash := fold_left fnv_mix (conv_bytes (link_conv link)) hash in
  let hash := fold_left fnv_mix (sin_addr (link_addr link)) hash in
  fold_left fnv_mix (sin_port (link_addr link)) hash.

(** [std::sort] by a key; among equal keys the order is left open by the
    standard, here it is the order of insertion. *)
Fixpoint insert_by {A} (key : A -> Z) (x : A) (l : list A) : list A :=
  match l with
  | [] => [x]
  | y :: r => if key x <? key y then x :: l else y :: insert_by key x r
  end.

Fixpoint sort_by {A} (key : A -> Z) (l : list A) : list A :=
  match l with
  | [] => []
  | x :: r => insert_by key x (sort_by key r)
  end.

Section tunnel.
Context {peer_order : IterOrder KcpConv PeerLink}.
Context {seen_order : IterOrder bytes Z}.
Context (mgr_send : Send -> bool).

(** The peers a packet goes to. *)
Definition broadcast_targets (message_id : option KcpConv) (t : KcpTunnel) : list PeerLink :=
  let peers := (iter_map (peer_links t)).*2 in
  match message_id with
  | Some id =>
      if negb (max_broadcast_fanout (tunnel_config t) =? 0) &&
         (max_broadcast_fanout (tunnel_config t) <? zlen peers)
      then take (Z.to_nat (max_broadcast_fanout (tunnel_config t)))
                (sort_by (link_score id) peers)
      else peers
  | None => peers
  end.

(** [broadcast_packet]: how many sends were accepted, and the sends. *)
Definition broadcast_packet (packet : bytes) (message_id : option KcpConv) (t : KcpTunnel)
    : Z * list Send :=
  if negb (running t) || (zlen packet =? 0) then (0, [])
  else
    let sends := (fun link => {| send_addr := link_addr link; send_conv := link_conv link;
                                 send_packet := packet |})
                   <$> broadcast_targets message_id t in
    (zlen (filter (fun s => mgr_send s = true) sends), sends).

Context (inet_pton : bytes -> option bytes).

Definition add_peer_link (peer : NodeAddress) (conv : KcpConv) (t : KcpTunnel)
    : bool * KcpTunnel :=
  if str_empty (host (endpoint peer)) || (port (endpoint peer) =? 0) ||
     conv_empty (node_id peer) || conv_empty conv then (false, t)
  else
    match make_sockaddr inet_pton (endpoint peer) with
    | None => (false, t)
    | Some addr =>
        if bool_decide (peer_links t !! node_id peer = None) &&
           (max_peer_links (tunnel_config t) <=? Z.of_nat (size (peer_links t)))
        then (false, t)
        else (true, with_links
                (<[node_id peer := {| link_peer := peer; link_conv := conv;
                                      link_addr := addr |}]> (peer_links t)) t)
    end.

(** [start]; [bind_ok] is the result of [manager_.bind]. *)
Definition tunnel_start (bind_ok : bool) (t : KcpTunnel) : bool * KcpTunnel :=
  if running t then (true, t)
  else
    let t := with_running true t in
    let peer := config_peer (tunnel_config t) in
    let finish (t : KcpTunnel) := if negb bind_ok then (false, with_running false t) else (true, t) in
    if negb (str_empty (host (endpoint peer))) && negb (port (endpoint peer) =? 0) then
      match make_sockaddr inet_pton (endpoint peer) with
      | None => (false, with_running false t)
      | Some a => finish (add_peer_link peer (node_id peer) (with_peer_addr a t)).2
      end
    else finish t.

Definition tunnel_stop (t : KcpTunnel) : KcpTunnel := with_running false t.

Definition send_one (addr : sockaddr_in) (conv : KcpConv) (packet : bytes) : bool * list Send :=
  let s := {| send_addr := addr; send_conv := conv; send_packet := packet |} in
  (mgr_send s, [s]).

Definition send_frame (type : TunnelFrameType.t) (stream_id : Z) (payload : ByteView)
    (t : KcpTunnel) : bool * list Send :=
  if negb (running t) || (stream_id =? 0) then (false, [])
  else
    let packet := encode_tunnel_frame type stream_id payload in
    if zlen packet =? 0 then (false, [])
    else send_one (peer_addr t) (node_id (config_peer (tunnel_config t))) packet.

Definition send_frame_to (next_hop_id : KcpConv) (type : TunnelFrameType.t) (stream_id : Z)
    (payload : ByteView) (t : KcpTunnel) : bool * list Send :=
  if negb (running t) || conv_empty next_hop_id || (stream_id =? 0) then (false, [])
  else
    match peer_links t !! next_hop_id with
    | None => (false, [])
    | Some link =>
        let packet := encode_tunnel_frame type stream_id payload in
        if zlen packet =? 0 then (false, [])
        else send_one (link_addr link) (link_conv link) packet
    end.

Definition send_control_to (peer : NodeAddress) (conv : KcpConv) (payload : ByteView)
    (t : KcpTunnel) : bool * list Send :=
  if negb (running t) || view_empty payload then (false, [])
  else
    match make_sockaddr inet_pton (endpoint peer) with
    | None => (false, [])
    | Some addr =>
        let packet := encode_tunnel_frame TunnelFrameType.Control 0 payload in
        if zlen packet =? 0 then (false, []) else send_one addr conv packet
    end.

(** The last steps of both broadcast methods: frame the payload and send it. *)
Definition broadcast_wire (type : TunnelFrameType.t) (stream_id : Z) (wire_payload : bytes)
    (message_id : KcpConv) (t : KcpTunnel) : Z * list Send * KcpTunnel :=
  let packet := encode_tunnel_frame type stream_id (view_of wire_payload) in
  if zlen packet =? 0 then (0, [], t)
  else (broadcast_packet packet (if conv_empty message_id then None else Some message_id) t, t).

Definition broadcast_control (rand : option KcpConv) (now : Z) (payload : ByteView)
    (t : KcpTunnel) : Z * list Send * KcpTunnel :=
  if negb (running t) || view_empty payload then (0, [], t)
  else
    let me := identity_id (tunnel_config t) in
    if negb (conv_empty me) then
      match make_random_message_id rand with
      | None => (0, [], t)
      | Some message_id =>
          let envelope := encode_broadcast_envelope me message_id
                            (broadcast_ttl (tunnel_config t)) (view_bytes payload) in
          if zlen envelope =? 0 then (0, [], t)
          else
            let t := (mark_broadcast_seen now
                        (make_seen_key TunnelFrameType.Control 0 me message_id) t).2 in
            broadcast_wire TunnelFrameType.Control 0 envelope message_id t
      end
    else broadcast_wire TunnelFrameType.Control 0 (view_bytes payload) KcpConv_default t.

(** [broadcast_frame]: the origin, message id and TTL of the envelope; [None]
    for the early [return 0]s. *)
Definition broadcast_identity (rand : option KcpConv) (metadata : option BroadcastMetadata)
    (cfg : KcpTunnelConfig) : option (KcpConv * KcpConv * Z) :=
  let fresh :=
    match make_random_message_id rand with
    | None => None
    | Some id => Some (identity_id cfg, id, broadcast_ttl cfg)
    end in
  match metadata with
  | Some md =>
      if valid md && negb (conv_empty (origin md)) && negb (conv_empty (message_id md)) then
        if negb (ttl md =? 0) then
          if ttl md <=? 1 then None
          else Some (origin md, message_id md, wrap 8 (ttl md - 1))
        else Some (origin md, message_id md, broadcast_ttl cfg)
      else fresh
  | None => fresh
  end.

Definition broadcast_frame (rand : option KcpConv) (now : Z) (type : TunnelFrameType.t)
    (stream_id : Z) (payload : ByteView) (metadata : option BroadcastMetadata)
    (t : KcpTunnel) : Z * list Send * KcpTunnel :=
  if negb (running t) || (stream_id =? 0) then (0, [], t)
  else if is_relayed_type type && negb (conv_empty (identity_id (tunnel_config t))) then
    match broadcast_identity rand metadata (tunnel_config t) with
    | None => (0, [], t)
    | Some (origin, message_id, ttl) =>
        let envelope := encode_broadcast_envelope origin message_id ttl (view_bytes payload) in
        if zlen envelope =? 0 then (0, [], t)
        else
          let t := (mark_broadcast_seen now (make_seen_key type stream_id origin message_id) t).2 in
          broadcast_wire type stream_id envelope message_id t
    end
  else broadcast_wire type stream_id (view_bytes payload) KcpConv_default t.

Definition peer_link_count (t : KcpTunnel) : Z := Z.of_nat (size (peer_links t)).

(** ** Receiving *)

(** What [prepare_inbound_broadcast] leaves behind. *)
Record Inbound := mkInbound {
  in_ok : bool;
  in_decoded : option bytes;
  in_metadata : BroadcastMetadata;
  in_sends : list Send;
  in_tunnel : KcpTunnel;
}.

Definition relay_sends (type : TunnelFrameType.t) (stream_id : Z) (env : BroadcastEnvelopeView)
    (t : KcpTunnel) : list Send :=
  if auto_relay_type type && (1 <? env_ttl env) then
    let next_ttl := wrap 8 (env_ttl env - 1) in
    let relay_payload := encode_broadcast_envelope (env_origin env) (env_message_id env)
                           next_ttl (env_payload env) in
    if negb (zlen relay_payload =? 0) then
      let packet := encode_tunnel_frame type stream_id (view_of relay_payload) in
      if negb (zlen packet =? 0)
      then (broadcast_packet packet (Some (env_message_id env)) t).2 else []
    else []
  else [].

Definition prepare_inbound_broadcast (now : Z) (type : TunnelFrameType.t) (stream_id : Z)
    (payload : ByteView) (metadata : BroadcastMetadata) (t : KcpTunnel) : Inbound :=
  if negb (is_relayed_type type) then mkInbound true None metadata [] t
  else
    match decode_broadcast_envelope (view_bytes payload) with
    | Plain => mkInbound true None BroadcastMetadata_default [] t
    | Invalid => mkInbound false None BroadcastMetadata_default [] t
    | Envelope env =>
        if conv_eqb (env_origin env) (identity_id (tunnel_config t))
        then mkInbound false None BroadcastMetadata_default [] t
        else
          let seen_key := make_seen_key type stream_id (env_origin env) (env_message_id env) in
          let '(fresh, t) := mark_broadcast_seen now seen_key t in
          if negb fresh then mkInbound false None BroadcastMetadata_default [] t
          else
            mkInbound true (Some (env_payload env))
              {| valid := true; ttl := env_ttl env; origin := env_origin env;
                 message_id := env_message_id env |}
              (relay_sends type stream_id env t) t
    end.

(** What reaches the callbacks. *)
Inductive Delivery : Type :=
  | DeliverControl (payload : ByteView)
  | DeliverFrame (frame : TunnelFrameView).

(** [handle_kcp_message], with both callbacks installed. *)
Definition handle_kcp_message (now : Z) (data : bytes) (t : KcpTunnel)
    : option Delivery * list Send * KcpTunnel :=
  let '(ok, frame) := decode_tunnel_frame (view_of data) TunnelFrameView_default in
  if negb ok then (None, [], t)
  else
    let r := prepare_inbound_broadcast now (frame_type frame) (frame_stream_id frame)
               (frame_payload frame) (frame_broadcast frame) t in
    if negb (in_ok r) then (None, in_sends r, in_tunnel r)
    else
      let frame :=
        {| frame_type := frame_type frame; frame_stream_id := frame_stream_id frame;
           frame_payload := match in_decoded r with
                            | Some p => view_of p
                            | None => frame_payload frame
                            end;
           frame_broadcast := in_metadata r |} in
      if bool_decide (frame_type frame = TunnelFrameType.Control)
      then (Some (DeliverControl (frame_payload frame)), in_sends r, in_tunnel r)
      else (Some (DeliverFrame frame), in_sends r, in_tunnel r).
End tunnel.
