(* ===== verification/Envelope.v ===== *)
(** The wire format of broadcast envelopes (Tunnel.v): layout, round trip and
    canonicity of [encode_broadcast_envelope] and [decode_broadcast_envelope]. *)
From S2P Require Import Prelude KcpConv Frames Tunnel.

(** The fixed part of an envelope, as a concatenation of fields. *)
Definition env_header (o i : KcpConv) (ttl len : Z) : bytes :=
  be_encode 4 kBroadcastMagic ++ [to_byte kBroadcastVersion; to_byte ttl; x00; x00] ++
  conv_bytes o ++ conv_bytes i ++ be_encode 4 len.

Definition env_wire (o i : KcpConv) (ttl : Z) (payload : bytes) : bytes :=
  env_header o i ttl (zlen payload) ++ payload.

(** What a decoded envelope satisfies. *)
Definition env_ok (v : BroadcastEnvelopeView) : Prop :=
  conv_wf (env_origin v) /\ conv_empty (env_origin v) = false /\
  conv_wf (env_message_id v) /\ conv_empty (env_message_id v) = false /\
  fits 8 (env_ttl v) /\ zlen (env_payload v) <= u32_max.

Lemma length_env_header o i ttl len :
  conv_wf o -> conv_wf i -> length (env_header o i ttl len) = 76%nat.
Proof.
  unfold conv_wf, kConvSize. intros Ho Hi. unfold env_header.
  rewrite !length_app, !length_be_encode, Ho, Hi. done.
Qed.

Lemma zlen_env_wire o i ttl p :
  conv_wf o -> conv_wf i -> zlen (env_wire o i ttl p) = 76 + zlen p.
Proof.
  intros. unfold env_wire. rewrite zlen_app. unfold zlen at 1.
  rewrite length_env_header; done.
Qed.

(** Overwriting the block between two others. *)
Lemma copy_at_app a m r src off :
  length a = off -> length src = length m -> copy_at (a ++ m ++ r) off src = a ++ src ++ r.
Proof.
  intros <- Hs. unfold copy_at. rewrite take_app_length. f_equal. f_equal.
  rewrite drop_app_add, Hs, drop_app_length. done.
Qed.

Lemma store_u32_app a w x y z r off v :
  length a = off ->
  store_u32 (a ++ w :: x :: y :: z :: r) off v = a ++ be_encode 4 v ++ r.
Proof.
  intros <-. unfold store_u32. rewrite be_encode_u32.
  rewrite (insert_app_r_alt a _ (length a)), Nat.sub_diag by done. rewrite !insert_app_r.
  cbn [insert list_insert app]. rewrite !to_byte_shift_mask, to_byte_mask by lia. done.
Qed.

Lemma encode_env_wire o i ttl payload :
  conv_wf o -> conv_wf i -> conv_empty o = false -> conv_empty i = false ->
  zlen payload <= u32_max ->
  encode_broadcast_envelope o i ttl payload = env_wire o i ttl payload.
Proof.
  intros Ho Hi Eo Ei Hlen. unfold encode_broadcast_envelope. rewrite Eo, Ei.
  destruct (Z.ltb_spec u32_max (zlen payload)) as [|_]; [lia|]. cbn [orb].
  rewrite wrap_id by (unfold u32_max in Hlen; split; [apply zlen_nonneg|lia]).
  set (out := store_u32 _ 72 _).
  assert (out = env_header o i ttl (zlen payload) ++ replicate (length payload) x00) as Hout.
  { unfold out. clear out. set (z := replicate (length payload) x00).
    replace (store_u32 (replicate (76 + length payload) x00) 0 kBroadcastMagic)
      with (be_encode 4 kBroadcastMagic ++ replicate 72 x00 ++ z) by done.
    change (<[7%nat:=x00]> (<[6%nat:=x00]> (<[5%nat:=to_byte ttl]> (<[4%nat:=to_byte kBroadcastVersion]>
      (be_encode 4 kBroadcastMagic ++ replicate 72 x00 ++ z)))))
      with ((be_encode 4 kBroadcastMagic ++ [to_byte kBroadcastVersion; to_byte ttl; x00; x00])
            ++ replicate 32 x00 ++ (replicate 36 x00 ++ z)).
    rewrite copy_at_app by (rewrite ?Ho; done).
    rewrite app_assoc. change (replicate 36 x00 ++ z) with (replicate 32 x00 ++ (replicate 4 x00 ++ z)).
    unfold conv_wf, kConvSize in *.
    rewrite copy_at_app by (rewrite ?length_app, ?length_be_encode, ?Ho, ?Hi; done).
    rewrite (app_assoc _ (conv_bytes i)). change (replicate 4 x00 ++ z) with (x00 :: x00 :: x00 :: x00 :: z).
    rewrite store_u32_app by (rewrite !length_app, ?length_be_encode, ?Ho, ?Hi; done).
    unfold env_header. rewrite <- !app_assoc. done. }
  rewrite Hout. clear out Hout. destruct (Z.eqb_spec (zlen payload) 0) as [E|_].
  - apply zlen_zero in E. subst payload. done.
  - unfold string_replace, env_wire.
    rewrite take_app_length' by (rewrite length_env_header; done).
    rewrite drop_ge; [rewrite app_nil_r; done|].
    rewrite length_app, length_replicate, length_env_header by done. lia.
Qed.

Lemma encode_env_empty o i ttl payload :
  conv_wf o -> conv_wf i ->
  zlen (encode_broadcast_envelope o i ttl payload) = 0 <->
  conv_empty o = true \/ conv_empty i = true \/ u32_max < zlen payload.
Proof.
  intros Ho Hi. pose proof (zlen_nonneg payload).
  destruct (conv_empty o) eqn:Eo; [unfold encode_broadcast_envelope; rewrite Eo; naive_solver|].
  destruct (conv_empty i) eqn:Ei;
    [unfold encode_broadcast_envelope; rewrite Eo, Ei; naive_solver|].
  destruct (decide (zlen payload <= u32_max)).
  - rewrite encode_env_wire, zlen_env_wire by done.
    split; [lia | intros [?|[?|?]]; [done..|lia]].
  - unfold encode_broadcast_envelope. rewrite Eo, Ei. cbn [orb].
    destruct (Z.ltb_spec u32_max (zlen payload)); [|lia]. split; [auto | done].
Qed.

(** Reading the fields of a wire image. *)
Lemma decode_env_wire o i ttl payload :
  conv_wf o -> conv_wf i -> conv_empty o = false -> conv_empty i = false ->
  zlen payload <= u32_max ->
  decode_broadcast_envelope (env_wire o i ttl payload) =
    Envelope {| env_origin := o; env_message_id := i; env_ttl := wrap 8 ttl;
                env_payload := payload |}.
Proof.
  intros Ho Hi Eo Ei Hlen. unfold decode_broadcast_envelope.
  pose proof (zlen_nonneg payload). rewrite zlen_env_wire by done.
  change (env_wire o i ttl payload) with
    (be_encode 4 kBroadcastMagic ++ [to_byte kBroadcastVersion; to_byte ttl; x00; x00] ++
     (conv_bytes o ++ conv_bytes i ++ be_encode 4 (zlen payload)) ++ payload).
  rewrite <- !app_assoc. set (fields := conv_bytes o ++ _).
  set (data := be_encode 4 kBroadcastMagic ++ _).
  destruct (Z.ltb_spec (76 + zlen payload) 4) as [|_]; [lia|].
  assert (load_u32 data = kBroadcastMagic) as -> by apply load_u32_be.
  change (data !!! 4%nat) with (to_byte kBroadcastVersion).
  change (data !!! 5%nat) with (to_byte ttl).
  change (data !!! 6%nat) with x00. change (data !!! 7%nat) with x00.
  unfold kBroadcastHeaderSize.
  destruct (Z.ltb_spec (76 + zlen payload) 76) as [|_]; [lia|]. cbn [orb negb].
  change (drop 72 data) with (drop 64 fields). change (drop 8 data) with fields.
  change (drop 40 data) with (drop 32 fields). change (drop 76 data) with (drop 68 fields).
  unfold conv_wf, kConvSize in *.
  assert (drop 32 fields = conv_bytes i ++ be_encode 4 (zlen payload) ++ payload) as ->
    by (apply drop_app_length'; done).
  assert (drop 64 fields = be_encode 4 (zlen payload) ++ payload) as ->.
  { unfold fields. rewrite app_assoc. apply drop_app_length'. rewrite length_app; lia. }
  assert (drop 68 fields = payload) as ->.
  { unfold fields. rewrite !app_assoc. apply drop_app_length'.
    rewrite !length_app, length_be_encode. lia. }
  assert (load_u32 (be_encode 4 (zlen payload) ++ payload) = zlen payload) as ->.
  { transitivity (be_decode (be_encode 4 (zlen payload)));
      [apply load_u32_be | apply be_decode_u32; unfold u32_max in Hlen; split; lia]. }
  assert (take 32 fields = conv_bytes o) as -> by (apply take_app_length'; done).
  rewrite (take_app_length' (conv_bytes i)) by done. destruct o as [ob], i as [ib]. cbn [conv_bytes].
  rewrite Eo, Ei. replace (76 + zlen payload - 76) with (zlen payload) by lia.
  change (byte_val (to_byte kBroadcastVersion) =? kBroadcastVersion) with true.
  change (byte_val x00 =? 0) with true. cbn [negb orb].
  rewrite byte_val_to_byte, (take_ge payload) by (unfold zlen; lia).
  unfold wrap. change (2 ^ 8) with 256. rewrite !Z.eqb_refl. done.
Qed.

(** Everything accepted is the wire image of the decoded fields. *)
Lemma decode_env_inv p v :
  decode_broadcast_envelope p = Envelope v ->
  env_ok v /\ p = env_wire (env_origin v) (env_message_id v) (env_ttl v) (env_payload v).
Proof.
  unfold decode_broadcast_envelope. intros H. unfold kBroadcastHeaderSize in H.
  repeat (case_cond_in H; [done|]). bool_norm.
  destruct (list_split_at 8 p) as (hdr & p1 & -> & Hh); [unfold zlen in *; lia|].
  destruct (list_split_at 32 p1) as (ob & p2 & -> & Ho);
    [unfold zlen in *; rewrite length_app in *; lia|].
  destruct (list_split_at 32 p2) as (ib & p3 & -> & Hi);
    [unfold zlen in *; rewrite !length_app in *; lia|].
  destruct (list_split_at 4 p3) as (lb & body & -> & Hl);
    [unfold zlen in *; rewrite !length_app in *; lia|].
  assert (drop 8 (hdr ++ ob ++ ib ++ lb ++ body) = ob ++ ib ++ lb ++ body) as D8
    by (apply drop_app_length'; done).
  assert (drop 40 (hdr ++ ob ++ ib ++ lb ++ body) = ib ++ lb ++ body) as D40
    by (rewrite (app_assoc hdr ob); apply drop_app_length'; rewrite length_app; lia).
  assert (drop 72 (hdr ++ ob ++ ib ++ lb ++ body) = lb ++ body) as D72
    by (rewrite (app_assoc hdr ob), (app_assoc (hdr ++ ob) ib); apply drop_app_length';
        rewrite !length_app; lia).
  assert (drop 76 (hdr ++ ob ++ ib ++ lb ++ body) = body) as D76
    by (rewrite !app_assoc; apply drop_app_length'; rewrite !length_app; lia).
  rewrite D8, D40, D72, D76, (take_app_length' ob), (take_app_length' ib) in * by done.
  do 8 (destruct hdr as [|? hdr]; [discriminate Hh|]).
  destruct hdr; [|discriminate Hh]. clear Hh D8 D40 D72 D76.
  do 4 (destruct lb as [|? lb]; [discriminate Hl|]).
  destruct lb; [|discriminate Hl]. clear Hl.
  cbn [app lookup_total list_lookup_total] in *.
  rewrite !load_u32_be in *. injection H as <-.
  set (len := be_decode [b7; b8; b9; b10]) in *.
  assert (zlen body = len) as Hlen.
  { autorewrite with iota_len in *. unfold zlen in *. lia. }
  assert (0 <= len < 2 ^ 32) as Hr by exact (be_decode_range [b7; b8; b9; b10]).
  assert (take (Z.to_nat len) body = body) as -> by (apply take_ge; unfold zlen in *; lia).
  split.
  - unfold env_ok, conv_wf. cbn. pose proof (byte_val_range b4).
    unfold u32_max, fits. split_and!; try done; lia.
  - unfold env_wire, env_header. cbn [env_origin env_message_id env_ttl env_payload conv_bytes].
    rewrite Hlen. unfold len. rewrite (be_encode_decode 4 [b7; b8; b9; b10]) by done.
    rewrite to_byte_val. assert (be_encode 4 kBroadcastMagic = [b; b0; b1; b2]) as ->.
    { replace kBroadcastMagic with (be_decode [b; b0; b1; b2]). apply be_encode_decode; done. }
    replace (to_byte kBroadcastVersion) with b3
      by (rewrite <- (to_byte_val b3); f_equal; done).
    rewrite (byte_val_zero b5), (byte_val_zero b6) by done.
    rewrite <- !app_assoc. done.
Qed.

(** A payload decodes as a broadcast envelope exactly when it is the encoding
    of the decoded origin, message id, TTL and body, with both identifiers
    non-zero 32-byte values: the codec round-trips and accepts nothing else. *)
Theorem broadcast_envelope_spec p v :
  decode_broadcast_envelope p = Envelope v <->
  env_ok v /\ p = encode_broadcast_envelope (env_origin v) (env_message_id v) (env_ttl v)
                    (env_payload v).
Proof.
  split.
  - intros H. apply decode_env_inv in H as [Hok Hp]. split; [done|].
    destruct Hok as (? & ? & ? & ? & ? & ?). rewrite encode_env_wire; done.
  - intros [(? & ? & ? & ? & ? & ?) ->]. rewrite encode_env_wire, decode_env_wire by done.
    rewrite wrap_id by done. destruct v; done.
Qed.
