(* ===== verification/TunnelProofs.v ===== *)
(** Properties of the inter-node tunnel (Tunnel.v): the duplicate cache, the
    choice of broadcast targets, the invariant of the tunnel's tables, at-most-once
    delivery, relaying and end-to-end delivery of broadcasts. *)
From Stdlib Require Import Sorted.
From S2P Require Import Prelude KcpConv Frames Identity Tunnel Envelope.

(** ** The duplicate cache *)

(** The table remembers [key] at time [now]. *)
Definition seen_live (now : Z) (key : bytes) (m : gmap bytes Z) : bool :=
  match m !! key with
  | Some e => now <? e
  | None => false
  end.

Section seen_facts.
Context {seen_order : IterOrder bytes Z}.
Implicit Types (cfg : KcpTunnelConfig) (m : gmap bytes Z) (key : bytes).

Lemma lookup_purge now m key e :
  purge_seen now m !! key = Some e <-> m !! key = Some e /\ now < e.
Proof. unfold purge_seen. rewrite map_lookup_filter_Some. done. Qed.

Lemma size_purge now m : (size (purge_seen now m) <= size m)%nat.
Proof. apply map_subseteq_size, map_filter_subseteq. Qed.

Lemma evict_subseteq limit items m : evict_loop limit items m ⊆ m.
Proof.
  revert m. induction items as [|[k e] items IH]; intros m; cbn; [done|].
  case_match; [|done]. etrans; [apply IH|apply delete_subseteq].
Qed.

Lemma evict_noop limit items m : Z.of_nat (size m) < limit -> evict_loop limit items m = m.
Proof. intros H. destruct items as [|[k e] items]; cbn; [done|]. case_match; bool_norm; lia || done. Qed.

(** The loop reaches a size below the limit, whatever the iteration order. *)
Lemma evict_size limit items m :
  0 < limit -> NoDup items.*1 ->
  (forall k, is_Some (m !! k) -> k ∈ items.*1) ->
  Z.of_nat (size (evict_loop limit items m)) < limit.
Proof.
  intros Hl. revert m. induction items as [|[k e] items IH]; intros m Hnd Hin; cbn.
  - assert (m = ∅) as ->; [|rewrite map_size_empty; lia].
    apply map_empty. intros k. destruct (m !! k) eqn:E; [|done].
    exfalso. apply (not_elem_of_nil k), Hin. eauto.
  - cbn in Hnd. apply NoDup_cons in Hnd as [Hk Hnd].
    case_match; bool_norm; [|lia]. apply IH; [done|]. intros k' [e' He'].
    apply lookup_delete_Some in He' as [Hne He'].
    destruct (proj1 (elem_of_cons _ _ _) (Hin k' ltac:(eauto))); [done|done].
Qed.

Lemma mark_seen_off cfg now key m :
  max_seen_broadcasts cfg = 0 -> mark_seen cfg now key m = (true, m).
Proof. intros E. unfold mark_seen. rewrite E, orb_true_r. done. Qed.

Lemma purge_live now key m :
  seen_live now key m = bool_decide (is_Some (purge_seen now m !! key)).
Proof.
  unfold seen_live. symmetry. destruct (m !! key) as [e|] eqn:E.
  - destruct (Z.ltb_spec now e).
    + apply bool_decide_eq_true. exists e. apply lookup_purge. done.
    + apply bool_decide_eq_false. intros [e' He']. apply lookup_purge in He' as []. simplify_eq. lia.
  - apply bool_decide_eq_false. intros [e' He']. apply lookup_purge in He' as []. congruence.
Qed.

Section on.
Context (cfg : KcpTunnelConfig) (Hmax : 0 < max_seen_broadcasts cfg).

(** One step of the cache, as a relation to the table before. *)
Lemma mark_seen_spec now key m :
  key <> [] ->
  (mark_seen cfg now key m).1 = negb (seen_live now key m) /\
  exists kept, kept ⊆ purge_seen now m /\
    (mark_seen cfg now key m).2 = <[key := seen_expiry cfg now]> kept /\
    (Z.of_nat (size m) < max_seen_broadcasts cfg -> kept = purge_seen now m) /\
    (Z.of_nat (size m) <= max_seen_broadcasts cfg ->
     Z.of_nat (size (mark_seen cfg now key m).2) <= max_seen_broadcasts cfg).
Proof.
  intros Hkey. unfold mark_seen. rewrite purge_live.
  destruct (Z.eqb_spec (zlen key) 0) as [E|_]; [apply zlen_zero in E; done|].
  destruct (Z.eqb_spec (max_seen_broadcasts cfg) 0) as [|_]; [lia|]. cbn [orb].
  pose proof (size_purge now m) as Hs.
  destruct (purge_seen now m !! key) as [e|] eqn:E; cbn [fst snd].
  - rewrite bool_decide_true by eauto. split; [done|]. exists (purge_seen now m).
    split_and!; try done. rewrite map_size_insert_Some by eauto. lia.
  - rewrite bool_decide_false by (intros [? ?]; congruence). split; [done|].
    set (kept := evict_loop _ _ _). exists kept.
    assert (kept ⊆ purge_seen now m) as Hsub by apply evict_subseteq.
    split_and!; try done.
    + intros ?. apply evict_noop. lia.
    + intros _. rewrite map_size_insert_None; [|by eapply lookup_weaken_None].
      enough (Z.of_nat (size kept) < max_seen_broadcasts cfg) by lia.
      apply evict_size; [done|apply NoDup_iter_keys|]. intros k [e He].
      apply list_elem_of_fmap. exists (k, e). split; [done|]. apply elem_of_iter_map. done.
Qed.




End on.
End seen_facts.

(** ** Sorting and the broadcast targets *)
Section sort_facts.
Context {A : Type} (key : A -> Z).

Lemma insert_by_perm x l : insert_by key x l ≡ₚ x :: l.
Proof.
  induction l as [|y l IH]; cbn; [done|]. case_match; [done|].
  rewrite IH. apply Permutation_swap.
Qed.

Lemma sort_by_perm l : sort_by key l ≡ₚ l.
Proof. induction l as [|x l IH]; cbn; [done|]. rewrite insert_by_perm, IH. done. Qed.

Lemma insert_by_sorted x l :
  StronglySorted (fun a b => key a <= key b) l ->
  StronglySorted (fun a b => key a <= key b) (insert_by key x l).
Proof.
  induction 1 as [|y l Hs IH Hall]; cbn; [repeat constructor|].
  destruct (Z.ltb_spec (key x) (key y)).
  - constructor; [constructor; done|]. constructor; [lia|].
    eapply Forall_impl; [exact Hall|]. cbn. lia.
  - constructor; [done|]. rewrite insert_by_perm. constructor; [lia|done].
Qed.

Lemma sort_by_sorted l : StronglySorted (fun a b => key a <= key b) (sort_by key l).
Proof. induction l; cbn; [constructor|]. apply insert_by_sorted. done. Qed.

(** Everything cut off by a prefix ranks no better than what is kept. *)
Lemma sorted_take_drop n l x y :
  StronglySorted (fun a b => key a <= key b) l ->
  x ∈ take n l -> y ∈ drop n l -> key x <= key y.
Proof.
  intros Hs. revert n. induction Hs as [|z l Hs IH Hall]; intros [|n] Hx Hy; cbn in *;
    try (exfalso; by eapply not_elem_of_nil).
  apply elem_of_cons in Hx as [->|Hx]; [|by eapply IH].
  rewrite Forall_forall in Hall. apply Hall.
  rewrite <- (take_drop n l), elem_of_app. auto.
Qed.
End sort_facts.

Section targets.
Context {peer_order : IterOrder KcpConv PeerLink}.
Implicit Types (t : KcpTunnel).

Definition all_links t : list PeerLink := (iter_map (peer_links t)).*2.

Lemma length_all_links t : length (all_links t) = size (peer_links t).
Proof. unfold all_links. rewrite length_fmap, length_iter_map. done. Qed.

Lemma elem_of_all_links t l : l ∈ all_links t <-> exists k, peer_links t !! k = Some l.
Proof.
  unfold all_links. rewrite list_elem_of_fmap. setoid_rewrite <- elem_of_iter_map.
  split; [intros ([k ?] & -> & ?); eauto | intros (k & ?)]. exists (k, l). done.
Qed.

(** The list of targets is a permutation of a prefix of a permutation of the links. *)
Lemma broadcast_targets_split id t :
  exists rest, broadcast_targets id t ++ rest ≡ₚ all_links t.
Proof.
  unfold broadcast_targets. fold (all_links t).
  destruct id as [id|]; [|exists []; rewrite app_nil_r; done].
  case_match; [|exists []; rewrite app_nil_r; done].
  eexists. rewrite take_drop. apply sort_by_perm.
Qed.

Lemma broadcast_targets_elem id t l :
  l ∈ broadcast_targets id t -> exists k, peer_links t !! k = Some l.
Proof.
  intros Hl. destruct (broadcast_targets_split id t) as [rest Hp].
  apply elem_of_all_links. rewrite <- Hp, elem_of_app. auto.
Qed.

Lemma broadcast_targets_length id t :
  (length (broadcast_targets id t) <= size (peer_links t))%nat.
Proof.
  destruct (broadcast_targets_split id t) as [rest Hp].
  apply Permutation_length in Hp. rewrite length_app, length_all_links in Hp. lia.
Qed.

(** A broadcast goes to distinct peer links of the table; without a fan-out
    limit (or with few peers, or without a message id) to all of them; with a
    limit to exactly that many, and no peer left out ranks strictly before a
    chosen one. *)
Theorem broadcast_targets_spec (id : option KcpConv) t :
  0 <= max_broadcast_fanout (tunnel_config t) ->
  let F := max_broadcast_fanout (tunnel_config t) in
  exists rest,
    broadcast_targets id t ++ rest ≡ₚ (map_to_list (peer_links t)).*2 /\
    (id = None \/ F = 0 \/ peer_link_count t <= F -> rest = []) /\
    (forall i, id = Some i -> 0 < F -> F <= peer_link_count t ->
       zlen (broadcast_targets id t) = F /\
       forall l l', l ∈ broadcast_targets id t -> l' ∈ rest -> link_score i l <= link_score i l').
Proof.
  intros HF F. unfold broadcast_targets. fold (all_links t).
  assert (all_links t ≡ₚ (map_to_list (peer_links t)).*2) as Hall
    by (unfold all_links; rewrite iter_map_perm; done).
  assert (zlen (all_links t) = peer_link_count t) as Hlen
    by (unfold zlen; rewrite length_all_links; done).
  rewrite Hlen. fold F. destruct id as [i|]; cycle 1.
  { exists []. rewrite app_nil_r. split_and!; done. }
  destruct (negb (F =? 0) && (F <? peer_link_count t)) eqn:E; bool_norm.
  - exists (drop (Z.to_nat F) (sort_by (link_score i) (all_links t))).
    split_and!; [rewrite take_drop, sort_by_perm; done|intros [?|[?|?]]; [done|lia..]|].
    intros ? [= <-] _ _. split.
    + unfold zlen in *. rewrite length_take_le; [lia|].
      rewrite (Permutation_length (sort_by_perm _ _)). lia.
    + intros l l'. apply sorted_take_drop, sort_by_sorted.
  - exists []. rewrite app_nil_r. split_and!; [done..|]. intros i' _ HF0 Hle.
    apply andb_false_iff in E as [E|E]; bool_norm; [lia|].
    split; [lia|]. intros l l' _ []%not_elem_of_nil.
Qed.
End targets.

(** ** The tunnel as a state machine *)

(** The calls that can change the tunnel's state. *)
Inductive tunnel_op : Type :=
  | OpAddPeer (peer : NodeAddress) (conv : KcpConv)
  | OpStart (bind_ok : bool)
  | OpStop
  | OpBroadcastControl (rand : option KcpConv) (now : Z) (payload : ByteView)
  | OpBroadcastFrame (rand : option KcpConv) (now : Z) (type : TunnelFrameType.t)
      (stream_id : Z) (payload : ByteView) (metadata : option BroadcastMetadata)
  | OpReceive (now : Z) (data : bytes).

(** The clock read by the call, if it reads it. *)
Definition op_time (op : tunnel_op) : option Z :=
  match op with
  | OpBroadcastControl _ now _ | OpBroadcastFrame _ now _ _ _ _ | OpReceive now _ => Some now
  | _ => None
  end.

Section machine.
Context {peer_order : IterOrder KcpConv PeerLink} {seen_order : IterOrder bytes Z}.
Context (mgr_send : Send -> bool) (inet_pton : bytes -> option bytes).
Implicit Types (t : KcpTunnel).

Abbreviation receive := (handle_kcp_message mgr_send).

Definition tunnel_step (op : tunnel_op) t : KcpTunnel :=
  match op with
  | OpAddPeer peer conv => (add_peer_link inet_pton peer conv t).2
  | OpStart bind_ok => (tunnel_start inet_pton bind_ok t).2
  | OpStop => tunnel_stop t
  | OpBroadcastControl rand now payload => (broadcast_control mgr_send rand now payload t).2
  | OpBroadcastFrame rand now type sid payload md =>
      (broadcast_frame mgr_send rand now type sid payload md t).2
  | OpReceive now data => (receive now data t).2
  end.

Definition tunnel_run (ops : list tunnel_op) t : KcpTunnel :=
  fold_left (fun t op => tunnel_step op t) ops t.

(** What every state satisfies: links are stored under their own identifier,
    with a usable address, and both tables respect their configured bounds. *)
Definition link_ok (id : KcpConv) (l : PeerLink) : Prop :=
  node_id (link_peer l) = id /\ conv_empty id = false /\ conv_empty (link_conv l) = false /\
  make_sockaddr inet_pton (endpoint (link_peer l)) = Some (link_addr l).

Record tunnel_inv t : Prop := {
  inv_links : map_Forall link_ok (peer_links t);
  inv_link_count : peer_link_count t <= max_peer_links (tunnel_config t);
  inv_seen_count : Z.of_nat (size (seen_broadcasts t)) <= max_seen_broadcasts (tunnel_config t);
}.

(** [t'] differs from [t] at most by one mark in the duplicate cache. *)
Definition marks_at (now : option Z) t t' : Prop :=
  t' = t \/ exists n key, now = Some n /\ key <> [] /\ t' = (mark_broadcast_seen n key t).2.

Lemma mark_broadcast_seen_tunnel now key t :
  mark_broadcast_seen now key t =
    ((mark_seen (tunnel_config t) now key (seen_broadcasts t)).1,
     with_seen (mark_seen (tunnel_config t) now key (seen_broadcasts t)).2 t).
Proof. unfold mark_broadcast_seen. destruct (mark_seen _ _ _ _). done. Qed.

Lemma make_seen_key_nonempty ty sid o i : make_seen_key ty sid o i <> [].
Proof. done. Qed.

Lemma marks_at_key n ty sid o i t :
  marks_at (Some n) t (mark_broadcast_seen n (make_seen_key ty sid o i) t).2.
Proof. right. exists n, (make_seen_key ty sid o i). split_and!; done. Qed.

Lemma broadcast_wire_tunnel ty sid p id t : (broadcast_wire mgr_send ty sid p id t).2 = t.
Proof. unfold broadcast_wire. case_match; done. Qed.

Lemma broadcast_control_marks rand now payload t :
  marks_at (Some now) t (broadcast_control mgr_send rand now payload t).2.
Proof.
  unfold broadcast_control. repeat case_match; rewrite ?broadcast_wire_tunnel;
    solve [left; done | apply marks_at_key].
Qed.

Lemma broadcast_frame_marks rand now ty sid payload md t :
  marks_at (Some now) t (broadcast_frame mgr_send rand now ty sid payload md t).2.
Proof.
  unfold broadcast_frame. repeat case_match; rewrite ?broadcast_wire_tunnel;
    solve [left; done | apply marks_at_key].
Qed.

Lemma receive_tunnel now data t :
  (receive now data t).2 =
    (let '(ok, frame) := decode_tunnel_frame (view_of data) TunnelFrameView_default in
     if ok then in_tunnel (prepare_inbound_broadcast mgr_send now (frame_type frame)
                             (frame_stream_id frame) (frame_payload frame)
                             (frame_broadcast frame) t)
     else t).
Proof. unfold handle_kcp_message. repeat (case_match; cbn [negb]; try done). Qed.

Lemma prepare_marks now ty sid payload md t :
  marks_at (Some now) t (in_tunnel (prepare_inbound_broadcast mgr_send now ty sid payload md t)).
Proof.
  unfold prepare_inbound_broadcast. case_match; [left; done|].
  case_match; [left; done..|]. case_match; [left; done|].
  destruct (mark_broadcast_seen _ _ _) as [fresh t'] eqn:E.
  assert (t' = (mark_broadcast_seen now (make_seen_key ty sid (env_origin view)
                 (env_message_id view)) t).2) as -> by (rewrite E; done).
  destruct fresh; apply marks_at_key.
Qed.

Lemma receive_marks now data t : marks_at (Some now) t (receive now data t).2.
Proof.
  rewrite receive_tunnel. destruct (decode_tunnel_frame _ _) as [ok frame].
  destruct ok; [apply prepare_marks | left; done].
Qed.

Lemma add_peer_link_config p c t :
  tunnel_config (add_peer_link inet_pton p c t).2 = tunnel_config t.
Proof. unfold add_peer_link. repeat case_match; done. Qed.

Lemma add_peer_link_seen p c t :
  seen_broadcasts (add_peer_link inet_pton p c t).2 = seen_broadcasts t.
Proof. unfold add_peer_link. repeat case_match; done. Qed.

(** Every call keeps the configuration and marks at most one key. *)
Lemma tunnel_step_seen op t :
  tunnel_config (tunnel_step op t) = tunnel_config t /\
  (seen_broadcasts (tunnel_step op t) = seen_broadcasts t \/
   exists n key, op_time op = Some n /\ key <> [] /\
     seen_broadcasts (tunnel_step op t) =
       (mark_seen (tunnel_config t) n key (seen_broadcasts t)).2).
Proof.
  assert (forall now t', marks_at now t t' -> tunnel_config t' = tunnel_config t /\
    (seen_broadcasts t' = seen_broadcasts t \/
     exists n key, now = Some n /\ key <> [] /\
       seen_broadcasts t' = (mark_seen (tunnel_config t) n key (seen_broadcasts t)).2)) as Hm.
  { intros now t' [->|(n & key & -> & Hk & ->)]; [eauto|].
    rewrite mark_broadcast_seen_tunnel. split; [done|]. right. eauto. }
  destruct op as [p c|b| |rand now p|rand now ty sid p md|now data]; cbn [tunnel_step op_time].
  - rewrite add_peer_link_config, add_peer_link_seen. auto.
  - unfold tunnel_start. repeat case_match; cbn;
      rewrite ?add_peer_link_config, ?add_peer_link_seen; auto.
  - auto.
  - apply Hm, broadcast_control_marks.
  - apply Hm, broadcast_frame_marks.
  - apply Hm, receive_marks.
Qed.

Lemma add_peer_link_inv p c t :
  tunnel_inv t -> tunnel_inv (add_peer_link inet_pton p c t).2.
Proof.
  intros [Hl Hc Hs]. unfold add_peer_link.
  destruct (str_empty _ || _ || _ || _) eqn:E; [done|]. bool_norm.
  destruct (make_sockaddr _ _) as [a|] eqn:Ea; [|done].
  destruct (bool_decide _ && _) eqn:Eb; [done|]. cbn [snd].
  split; cbn [with_links peer_links tunnel_config seen_broadcasts]; [| |done].
  - apply map_Forall_insert_2; [|done]. done.
  - unfold peer_link_count in *. cbn [with_links peer_links]. rewrite map_size_insert.
    destruct (peer_links t !! node_id p); simpl; [lia|].
    apply andb_false_iff in Eb as [Eb|Eb]; bool_norm; [done|lia].
Qed.

Lemma tunnel_inv_flags t b a : tunnel_inv t -> tunnel_inv (with_running b (with_peer_addr a t)).
Proof. intros []; split; done. Qed.

Lemma mark_seen_bound cfg now key m :
  0 <= max_seen_broadcasts cfg -> key <> [] ->
  Z.of_nat (size m) <= max_seen_broadcasts cfg ->
  Z.of_nat (size (mark_seen cfg now key m).2) <= max_seen_broadcasts cfg.
Proof.
  intros H0 Hk Hm. destruct (decide (max_seen_broadcasts cfg = 0)) as [E|E].
  - rewrite mark_seen_off by done. done.
  - destruct (mark_seen_spec cfg ltac:(lia) now key m Hk) as (_ & kept & _ & _ & _ & Hb). auto.
Qed.

Lemma tunnel_step_links op t :
  tunnel_inv t ->
  map_Forall link_ok (peer_links (tunnel_step op t)) /\
  peer_link_count (tunnel_step op t) <= max_peer_links (tunnel_config t).
Proof.
  intros Hinv.
  assert (forall now t', marks_at now t t' -> map_Forall link_ok (peer_links t') /\
    peer_link_count t' <= max_peer_links (tunnel_config t)) as Hm.
  { intros now t' [->|(n & key & -> & _ & ->)]; [|rewrite mark_broadcast_seen_tunnel];
      split; apply Hinv. }
  assert (forall t', tunnel_inv t' -> tunnel_config t' = tunnel_config t ->
    map_Forall link_ok (peer_links t') /\
    peer_link_count t' <= max_peer_links (tunnel_config t)) as Hi.
  { intros t' [] <-. done. }
  destruct op as [p c|b| |rand now p|rand now ty sid p md|now data]; cbn [tunnel_step op_time].
  - apply Hi; [apply add_peer_link_inv; done | apply add_peer_link_config].
  - unfold tunnel_start. repeat case_match; try (split; apply Hinv);
      (apply Hi; [destruct (add_peer_link_inv (config_peer (tunnel_config t))
                  (node_id (config_peer (tunnel_config t)))
                  (with_running true (with_peer_addr s t))
                  (tunnel_inv_flags _ _ _ Hinv)); split; done
        | cbn; rewrite ?add_peer_link_config; done]).
  - split; apply Hinv.
  - eapply Hm, broadcast_control_marks.
  - eapply Hm, broadcast_frame_marks.
  - eapply Hm, receive_marks.
Qed.

Lemma tunnel_step_inv op t :
  0 <= max_seen_broadcasts (tunnel_config t) -> tunnel_inv t -> tunnel_inv (tunnel_step op t).
Proof.
  intros H0 Hinv. destruct (tunnel_step_links op t Hinv) as [Hl Hc].
  destruct (tunnel_step_seen op t) as [Hcfg Hseen].
  split; [done|rewrite Hcfg; done|]. rewrite Hcfg.
  destruct Hseen as [->|(n & key & _ & Hk & ->)]; [apply Hinv|].
  apply mark_seen_bound; [done..|apply Hinv].
Qed.


(** Whatever sequence of calls is made on a fresh tunnel, the peer table stays
    within [max_peer_links], stores every link under its own non-zero identifier
    with the socket address of its endpoint, and the duplicate cache stays within
    [max_seen_broadcasts]. *)
Theorem tunnel_invariant cfg ops :
  0 <= max_peer_links cfg -> 0 <= max_seen_broadcasts cfg ->
  tunnel_inv (tunnel_run ops (tunnel_init cfg)).
Proof.
  intros Hp Hs. assert (tunnel_inv (tunnel_init cfg)) as Hinv
    by (split; [apply map_Forall_empty | done..]).
  assert (0 <= max_seen_broadcasts (tunnel_config (tunnel_init cfg))) as Hs' by done.
  revert Hinv Hs'. generalize (tunnel_init cfg). clear Hp Hs.
  induction ops as [|op ops IH]; intros t Hinv Hs; [done|]. cbn. apply IH.
  - apply tunnel_step_inv; done.
  - destruct (tunnel_step_seen op t) as [-> _]. done.
Qed.

(** ** Receiving broadcasts *)

(** The broadcast a packet carries: frame type, stream id and envelope. *)
Definition inbound_envelope (data : bytes)
    : option (TunnelFrameType.t * Z * BroadcastEnvelopeView) :=
  let '(ok, f) := decode_tunnel_frame (view_of data) TunnelFrameView_default in
  if ok && is_relayed_type (frame_type f) then
    match decode_broadcast_envelope (view_bytes (frame_payload f)) with
    | Envelope v => Some (frame_type f, frame_stream_id f, v)
    | _ => None
    end
  else None.

(** What the callbacks get for a broadcast. *)
Definition delivered (ty : TunnelFrameType.t) (sid : Z) (v : BroadcastEnvelopeView) : Delivery :=
  if bool_decide (ty = TunnelFrameType.Control) then DeliverControl (view_of (env_payload v))
  else DeliverFrame
    {| frame_type := ty; frame_stream_id := sid; frame_payload := view_of (env_payload v);
       frame_broadcast := {| valid := true; ttl := env_ttl v; origin := env_origin v;
                             message_id := env_message_id v |} |}.

Definition envelope_key (ty : TunnelFrameType.t) (sid : Z) (v : BroadcastEnvelopeView) : bytes :=
  make_seen_key ty sid (env_origin v) (env_message_id v).

Lemma receive_broadcast now data ty sid v t :
  inbound_envelope data = Some (ty, sid, v) ->
  receive now data t =
    if bool_decide (env_origin v = identity_id (tunnel_config t)) then (None, [], t)
    else
      let '(fresh, t') := mark_broadcast_seen now (envelope_key ty sid v) t in
      if fresh then (Some (delivered ty sid v), relay_sends mgr_send ty sid v t', t')
      else (None, [], t').
Proof.
  unfold inbound_envelope, handle_kcp_message, prepare_inbound_broadcast.
  destruct (decode_tunnel_frame _ _) as [ok f].
  destruct ok; [|done]. cbn [andb negb]. intros H.
  destruct (is_relayed_type (frame_type f)) eqn:Er; [|done]. cbn [negb].
  destruct (decode_broadcast_envelope _) as [| |v'] eqn:Ed; [done..|]. injection H as <- <- <-.
  unfold conv_eqb. destruct (bool_decide (env_origin v' = _)); [done|].
  unfold envelope_key. destruct (mark_broadcast_seen _ _ _) as [fresh t'].
  destruct fresh; cbn [negb in_ok in_sends in_tunnel in_decoded in_metadata]; [|done].
  unfold delivered. cbn [frame_type frame_payload]. case_match; done.
Qed.



(** ** Relaying and end-to-end delivery *)

Definition stream_ok (ty : TunnelFrameType.t) (sid : Z) : Prop :=
  fits 64 sid /\ (ty = TunnelFrameType.Control \/ sid <> 0).

(** The packet that carries an envelope. *)
Definition broadcast_frame_packet ty sid o i ttl payload : bytes :=
  encode_tunnel_frame ty sid (view_of (encode_broadcast_envelope o i ttl payload)).

Lemma stream_ok_bool ty sid :
  stream_ok ty sid -> bool_decide (ty = TunnelFrameType.Control) || negb (sid =? 0) = true.
Proof.
  intros [_ [->|Hne]]; [done|]. destruct (Z.eqb_spec sid 0); [done|]. apply orb_true_r.
Qed.

Lemma inbound_packet ty sid o i ttl payload :
  is_relayed_type ty = true -> stream_ok ty sid ->
  conv_wf o -> conv_wf i -> conv_empty o = false -> conv_empty i = false ->
  zlen payload <= u32_max - 76 ->
  zlen (broadcast_frame_packet ty sid o i ttl payload) <> 0 /\
  inbound_envelope (broadcast_frame_packet ty sid o i ttl payload) =
    Some (ty, sid, {| env_origin := o; env_message_id := i; env_ttl := wrap 8 ttl;
                      env_payload := payload |}).
Proof.
  intros Hr Hs Ho Hi Eo Ei Hlen. unfold inbound_envelope, broadcast_frame_packet.
  pose proof (zlen_nonneg payload).
  rewrite encode_env_wire by (done || lia).
  assert (zlen (env_wire o i ttl payload) <= u32_max) as Hw
    by (rewrite zlen_env_wire by done; lia).
  rewrite encode_tunnel_wire by done. rewrite view_size_of. cbn [view_of view_bytes view_data default].
  split.
  { rewrite zlen_app. unfold zlen at 1. rewrite length_tunnel_header.
    pose proof (zlen_nonneg (env_wire o i ttl payload)). unfold id. lia. }
  unfold id. rewrite decode_tunnel_wire by (done || apply Hs).
  rewrite (stream_ok_bool _ _ Hs). cbn [frame_type frame_payload frame_stream_id andb].
  rewrite Hr. unfold view_bytes. cbn [view_data view_of default]. unfold id.
  rewrite decode_env_wire by (done || lia). done.
Qed.

Lemma inbound_envelope_inv data ty sid v :
  inbound_envelope data = Some (ty, sid, v) ->
  is_relayed_type ty = true /\ stream_ok ty sid /\ env_ok v /\
  zlen (env_payload v) <= u32_max - 76.
Proof.
  unfold inbound_envelope. destruct (decode_tunnel_frame _ _) as [ok f] eqn:Ef.
  destruct ok; [|done]. cbn [andb]. destruct (is_relayed_type _) eqn:Er; [|done].
  destruct (decode_broadcast_envelope _) as [| |v'] eqn:Ed; [done..|]. intros [= <- <- <-].
  apply decode_tunnel_inv in Ef as (body & _ & Hb & Hlen & Hsid & _ & Hstream).
  rewrite Hb in Ed. cbn in Ed. unfold id in Ed.
  apply decode_env_inv in Ed as [Hok ->]. split_and!; try done.
  destruct Hok as (? & _ & ? & _). rewrite zlen_env_wire in Hlen by done. lia.
Qed.

Definition sends_to (packet : bytes) (links : list PeerLink) : list Send :=
  (fun l => mkSend (link_addr l) (link_conv l) packet) <$> links.

Lemma broadcast_packet_sends packet id t :
  running t = true -> zlen packet <> 0 ->
  (broadcast_packet mgr_send packet id t).2 = sends_to packet (broadcast_targets id t).
Proof.
  intros Hr Hp. unfold broadcast_packet. rewrite Hr. cbn [negb orb].
  destruct (Z.eqb_spec (zlen packet) 0); done.
Qed.

Lemma broadcast_packet_stopped packet id t :
  running t = false -> broadcast_packet mgr_send packet id t = (0, []).
Proof. intros Hr. unfold broadcast_packet. rewrite Hr. done. Qed.

Lemma relay_sends_spec ty sid v t :
  is_relayed_type ty = true -> stream_ok ty sid -> env_ok v ->
  zlen (env_payload v) <= u32_max - 76 ->
  relay_sends mgr_send ty sid v t =
    if auto_relay_type ty && (1 <? env_ttl v) && running t
    then sends_to (broadcast_frame_packet ty sid (env_origin v) (env_message_id v)
                     (env_ttl v - 1) (env_payload v))
                  (broadcast_targets (Some (env_message_id v)) t)
    else [].
Proof.
  intros Hr Hs (Ho & Eo & Hi & Ei & Httl & _) Hlen. unfold relay_sends.
  destruct (auto_relay_type ty && (1 <? env_ttl v)) eqn:E; [|done]. bool_norm.
  rewrite wrap_id by (unfold fits in *; lia).
  destruct (inbound_packet ty sid _ _ (env_ttl v - 1) _ Hr Hs Ho Hi Eo Ei Hlen) as [Hne _].
  destruct (Z.eqb_spec (zlen (encode_broadcast_envelope (env_origin v) (env_message_id v)
    (env_ttl v - 1) (env_payload v))) 0) as [E0|_].
  { rewrite encode_env_empty in E0 by done. destruct E0 as [?|[?|?]]; [congruence..|lia]. }
  cbn [negb]. fold (broadcast_frame_packet ty sid (env_origin v) (env_message_id v)
                      (env_ttl v - 1) (env_payload v)).
  destruct (Z.eqb_spec (zlen (broadcast_frame_packet ty sid (env_origin v) (env_message_id v)
    (env_ttl v - 1) (env_payload v))) 0) as [|_]; [done|]. cbn [negb andb].
  destruct (running t) eqn:Er.
  - apply broadcast_packet_sends; done.
  - rewrite broadcast_packet_stopped by done. done.
Qed.

(** [C28] A received broadcast is either dropped without any effect on the network
    (own origin, or already seen), or delivered to its callback with its payload,
    origin, message id and TTL; a delivered control or replicate broadcast with TTL
    above 1 is forwarded to the chosen peers as a packet that carries the same type,
    stream, origin, message id and payload with the TTL decreased by one, and any
    other delivered broadcast is not forwarded by the tunnel. *)
Theorem broadcast_receive_spec now data ty sid v t :
  inbound_envelope data = Some (ty, sid, v) ->
  0 < max_seen_broadcasts (tunnel_config t) ->
  let drop := bool_decide (env_origin v = identity_id (tunnel_config t)) ||
              seen_live now (envelope_key ty sid v) (seen_broadcasts t) in
  let relays := auto_relay_type ty && (1 <? env_ttl v) && running t in
  exists t' packet,
    receive now data t =
      (if drop then (None, [], t')
       else (Some (delivered ty sid v),
             if relays then sends_to packet (broadcast_targets (Some (env_message_id v)) t) else [],
             t')) /\
    (relays = true -> inbound_envelope packet =
      Some (ty, sid, {| env_origin := env_origin v; env_message_id := env_message_id v;
                        env_ttl := env_ttl v - 1; env_payload := env_payload v |})).
Proof.
  intros Hin Hmax drop relays. pose proof (inbound_envelope_inv _ _ _ _ Hin) as (Hr & Hs & Hok & Hlen).
  rewrite (receive_broadcast _ _ _ _ _ _ Hin), mark_broadcast_seen_tunnel.
  destruct (mark_seen_spec (tunnel_config t) Hmax now (envelope_key ty sid v) (seen_broadcasts t))
    as [-> _]; [done|].
  set (t1 := with_seen _ t). unfold drop. pose proof Hok as (Ho & Eo & Hi & Ei & Httl & _).
  set (packet := broadcast_frame_packet ty sid (env_origin v) (env_message_id v)
                   (env_ttl v - 1) (env_payload v)).
  assert (relays = true -> inbound_envelope packet =
      Some (ty, sid, {| env_origin := env_origin v; env_message_id := env_message_id v;
                        env_ttl := env_ttl v - 1; env_payload := env_payload v |})) as Hp.
  { intros Hrel. unfold relays in Hrel. bool_norm. unfold packet.
    destruct (inbound_packet ty sid _ _ (env_ttl v - 1) _ Hr Hs Ho Hi Eo Ei Hlen) as [_ ->].
    rewrite wrap_id by (unfold fits in *; lia). done. }
  destruct (bool_decide _); [exists t, packet; done|]. cbn [orb]. exists t1, packet.
  split; [|done]. destruct (seen_live _ _ _); [done|]. cbn [negb].
  rewrite relay_sends_spec by done. done.
Qed.

Lemma message_id_ok r : conv_wf r ->
  exists i, make_random_message_id (Some r) = Some i /\ conv_wf i /\ conv_empty i = false.
Proof.
  intros Hr. unfold make_random_message_id. destruct (conv_empty r) eqn:E; [|eauto].
  apply conv_empty_default in E; [|done]. subst r. eexists. split_and!; done.
Qed.

(** Sending an envelope with [broadcast_frame]. *)
Lemma broadcast_frame_sends rand now ty sid payload md t o i ttl :
  running t = true -> is_relayed_type ty = true -> sid <> 0 -> fits 64 sid ->
  conv_empty (identity_id (tunnel_config t)) = false ->
  broadcast_identity rand md (tunnel_config t) = Some (o, i, ttl) ->
  conv_wf o -> conv_wf i -> conv_empty o = false -> conv_empty i = false ->
  view_size payload <= u32_max - 76 ->
  (broadcast_frame mgr_send rand now ty sid payload md t).1.2 =
    sends_to (broadcast_frame_packet ty sid o i ttl (view_bytes payload))
             (broadcast_targets (Some i) t).
Proof.
  intros Hrun Hrel Hsid Hfit Hme Hid Ho Hi Eo Ei Hlen. unfold view_size in Hlen.
  unfold broadcast_frame. rewrite Hrun, Hrel, Hme, Hid. cbn [negb orb andb].
  destruct (Z.eqb_spec sid 0) as [|_]; [done|].
  destruct (Z.eqb_spec (zlen (encode_broadcast_envelope o i ttl (view_bytes payload))) 0) as [E0|_].
  { rewrite encode_env_empty in E0 by done. destruct E0 as [?|[?|?]]; [congruence..|lia]. }
  rewrite mark_broadcast_seen_tunnel. unfold broadcast_wire.
  fold (broadcast_frame_packet ty sid o i ttl (view_bytes payload)).
  destruct (inbound_packet ty sid o i ttl (view_bytes payload) Hrel
              (conj Hfit (or_intror Hsid)) Ho Hi Eo Ei Hlen) as [Hne _].
  destruct (Z.eqb_spec (zlen (broadcast_frame_packet ty sid o i ttl (view_bytes payload))) 0)
    as [|_]; [done|]. rewrite Ei. cbn [fst snd].
  rewrite broadcast_packet_sends by done. done.
Qed.

(** End-to-end delivery: a relayed frame that node A broadcasts is sent to A's
    chosen peers, and every node that receives the packet, is not A and has not seen
    the message delivers A's frame: same type, stream and payload, with A's
    identifier as origin and A's configured TTL. *)
Theorem broadcast_end_to_end r now ty sid payload a b now' :
  running a = true -> is_relayed_type ty = true -> ty <> TunnelFrameType.Control ->
  sid <> 0 -> fits 64 sid -> view_size payload <= u32_max - 76 ->
  let me := identity_id (tunnel_config a) in
  conv_wf me -> conv_empty me = false -> conv_wf r ->
  fits 8 (broadcast_ttl (tunnel_config a)) ->
  identity_id (tunnel_config b) <> me -> 0 < max_seen_broadcasts (tunnel_config b) ->
  exists i packet,
    make_random_message_id (Some r) = Some i /\
    (broadcast_frame mgr_send (Some r) now ty sid payload None a).1.2 =
      sends_to packet (broadcast_targets (Some i) a) /\
    (seen_live now' (make_seen_key ty sid me i) (seen_broadcasts b) = false ->
     (receive now' packet b).1.1 = Some (DeliverFrame
       {| frame_type := ty; frame_stream_id := sid;
          frame_payload := view_of (view_bytes payload);
          frame_broadcast := {| valid := true; ttl := broadcast_ttl (tunnel_config a);
                                origin := me; message_id := i |} |})).
Proof.
  intros Hrun Hrel Hty Hsid Hfit Hlen me Hwf Hme Hr Httl Hb Hmax.
  destruct (message_id_ok r Hr) as (i & Hi & Hiwf & Hie).
  exists i, (broadcast_frame_packet ty sid me i (broadcast_ttl (tunnel_config a)) (view_bytes payload)).
  split; [done|]. split.
  - apply broadcast_frame_sends; try done. unfold broadcast_identity. rewrite Hi. done.
  - intros Hlive.
    destruct (inbound_packet ty sid me i (broadcast_ttl (tunnel_config a)) (view_bytes payload)
                Hrel (conj Hfit (or_intror Hsid)) Hwf Hiwf Hme Hie Hlen) as [_ Hin].
    rewrite wrap_id in Hin by done. set (v := mkEnvelope _ _ _ _) in Hin.
    rewrite (receive_broadcast _ _ _ _ _ _ Hin), mark_broadcast_seen_tunnel.
    destruct (mark_seen_spec (tunnel_config b) Hmax now' (envelope_key ty sid v) (seen_broadcasts b))
      as [-> _]; [done|].
    rewrite bool_decide_false by (intros E; apply Hb; symmetry; exact E).
    change (envelope_key ty sid v) with (make_seen_key ty sid me i). rewrite Hlive.
    unfold delivered. rewrite bool_decide_false by done. done.
Qed.

(** The metadata handed to the frame callback for a broadcast. *)
Definition env_metadata (v : BroadcastEnvelopeView) : BroadcastMetadata :=
  {| valid := true; ttl := env_ttl v; origin := env_origin v; message_id := env_message_id v |}.

(** Re-broadcasting a received frame with its metadata: a frame received with
    TTL 1 is not sent any further, one with a larger TTL is sent with the TTL
    decreased, and one that announced TTL 0 is sent again with the full TTL
    configured at the relaying node; origin, message id and payload are unchanged. *)
Theorem rebroadcast_ttl data ty sid v rand now b :
  inbound_envelope data = Some (ty, sid, v) ->
  running b = true -> sid <> 0 -> conv_empty (identity_id (tunnel_config b)) = false ->
  fits 8 (broadcast_ttl (tunnel_config b)) ->
  let sends := (broadcast_frame mgr_send rand now ty sid (view_of (env_payload v))
                  (Some (env_metadata v)) b).1.2 in
  if env_ttl v =? 1 then sends = []
  else exists packet,
    sends = sends_to packet (broadcast_targets (Some (env_message_id v)) b) /\
    inbound_envelope packet =
      Some (ty, sid, {| env_origin := env_origin v; env_message_id := env_message_id v;
                        env_ttl := if env_ttl v =? 0 then broadcast_ttl (tunnel_config b)
                                   else env_ttl v - 1;
                        env_payload := env_payload v |}).
Proof.
  intros Hin Hrun Hsid Hme Httl sends.
  destruct (inbound_envelope_inv _ _ _ _ Hin) as
    (Hrel & [Hfit Hst] & (Ho & Eo & Hi & Ei & Hvt & _) & Hlen). unfold fits in Hvt.
  set (ttl' := if env_ttl v =? 0 then broadcast_ttl (tunnel_config b) else env_ttl v - 1).
  assert (broadcast_identity rand (Some (env_metadata v)) (tunnel_config b) =
          if env_ttl v =? 1 then None else Some (env_origin v, env_message_id v, ttl')) as Hid.
  { unfold broadcast_identity, env_metadata, ttl'. cbn. rewrite Eo, Ei. cbn [negb andb].
    destruct (Z.eqb_spec (env_ttl v) 0) as [->|]; [done|]. cbn [negb].
    destruct (Z.eqb_spec (env_ttl v) 1) as [->|]; [done|].
    destruct (Z.leb_spec (env_ttl v) 1); [lia|]. rewrite wrap_id by (split; lia). done. }
  destruct (env_ttl v =? 1) eqn:E1; bool_norm.
  - unfold sends, broadcast_frame. rewrite Hrun, Hrel, Hme, Hid.
    destruct (Z.eqb_spec sid 0); done.
  - exists (broadcast_frame_packet ty sid (env_origin v) (env_message_id v) ttl' (env_payload v)).
    split; [apply broadcast_frame_sends; done|].
    destruct (inbound_packet ty sid (env_origin v) (env_message_id v) ttl' (env_payload v)
                Hrel (conj Hfit Hst) Ho Hi Eo Ei Hlen) as [_ ->].
    rewrite wrap_id; [done|]. unfold ttl'. case_match; [done|]. bool_norm. split; lia.
Qed.

(** Receiving a frame that is not a broadcast. *)
Lemma receive_unicast ty sid payload b now :
  sid <> 0 -> fits 64 sid -> view_size payload <= u32_max -> is_relayed_type ty = false ->
  receive now (encode_tunnel_frame ty sid payload) b =
    (Some (DeliverFrame {| frame_type := ty; frame_stream_id := sid;
                           frame_payload := view_of (view_bytes payload);
                           frame_broadcast := BroadcastMetadata_default |}), [], b).
Proof.
  intros Hsid Hfit Hlen Hrel. unfold handle_kcp_message.
  rewrite encode_tunnel_wire by done. unfold view_size.
  rewrite decode_tunnel_wire by done.
  rewrite stream_ok_bool by (split; auto). cbn [negb frame_type frame_stream_id frame_payload].
  unfold prepare_inbound_broadcast. rewrite Hrel. cbn [negb in_ok in_decoded in_metadata].
  rewrite bool_decide_false by (intros ->; done). done.
Qed.

(** Unicast delivery: a data-plane frame handed to a connected next hop is sent
    once, to that link's address and conversation, and the node that receives the
    packet delivers exactly that frame without touching its state. *)
Theorem unicast_end_to_end id l ty sid payload a b now :
  running a = true -> conv_empty id = false -> peer_links a !! id = Some l ->
  sid <> 0 -> fits 64 sid -> view_size payload <= u32_max -> is_relayed_type ty = false ->
  exists packet,
    let s := mkSend (link_addr l) (link_conv l) packet in
    send_frame_to mgr_send id ty sid payload a = (mgr_send s, [s]) /\
    receive now packet b =
      (Some (DeliverFrame {| frame_type := ty; frame_stream_id := sid;
                             frame_payload := view_of (view_bytes payload);
                             frame_broadcast := BroadcastMetadata_default |}), [], b).
Proof.
  intros Hrun Hid Hl Hsid Hfit Hlen Hrel. exists (encode_tunnel_frame ty sid payload). split.
  - unfold send_frame_to. rewrite Hrun, Hid, Hl. cbn [negb orb].
    destruct (Z.eqb_spec sid 0) as [|_]; [done|]. rewrite encode_tunnel_wire by done.
    rewrite zlen_app. unfold zlen at 1. rewrite length_tunnel_header.
    pose proof (zlen_nonneg (view_bytes payload)).
    destruct (Z.eqb_spec (Z.of_nat 20 + zlen (view_bytes payload)) 0); [lia|done].
  - apply receive_unicast; done.
Qed.
End machine.

(** ** Concrete runs *)
Module TunnelDemo.
#[local] Instance demo_peers : IterOrder KcpConv PeerLink := canonical_order.
#[local] Instance demo_seen : IterOrder bytes Z := canonical_order.

Definition demo_send (_ : Send) : bool := true.
Definition demo_pton (_ : bytes) : option bytes := Some [x7f; x00; x00; x01].
Definition demo_config (me : Z) : KcpTunnelConfig :=
  {| identity_id := from_uint32 me;
     config_peer := {| endpoint := {| host := str "127.0.0.1"; port := 9000 |};
                       node_id := from_uint32 (me + 1) |};
     max_peer_links := 8; broadcast_ttl := 4; max_broadcast_fanout := 2;
     max_seen_broadcasts := 16; seen_broadcast_seconds := 600 |}.
(** A started tunnel with one peer link. *)
Definition demo_tunnel (me : Z) : KcpTunnel :=
  tunnel_run demo_send demo_pton [OpStart true] (tunnel_init (demo_config me)).
Definition demo_view (ttl : Z) : BroadcastEnvelopeView :=
  {| env_origin := from_uint32 9; env_message_id := from_uint32 77; env_ttl := ttl;
     env_payload := str "hi" |}.
Definition demo_packet (ty : TunnelFrameType.t) (ttl : Z) : bytes :=
  broadcast_frame_packet ty 5 (from_uint32 9) (from_uint32 77) ttl (str "hi").

(** Evaluate a side condition. *)
Ltac demo_side :=
  vm_compute; first [reflexivity | discriminate | split; [discriminate | reflexivity]].

Lemma broadcast_targets_spec_witness :
  exists rest, broadcast_targets (Some (from_uint32 77)) (demo_tunnel 1) ++ rest
    ≡ₚ (map_to_list (peer_links (demo_tunnel 1))).*2.
Proof.
  destruct (broadcast_targets_spec (Some (from_uint32 77)) (demo_tunnel 1)) as (rest & Hp & _);
    [vm_compute; discriminate|]. exists rest. exact Hp.
Defined.

Lemma tunnel_invariant_witness :
  tunnel_inv demo_pton
    (tunnel_run demo_send demo_pton [OpStart true; OpReceive 10 (demo_packet TunnelFrameType.Replicate 3)]
       (tunnel_init (demo_config 1))).
Proof. apply tunnel_invariant; vm_compute; discriminate. Defined.


Lemma broadcast_receive_spec_witness :
  exists t' packet,
    handle_kcp_message demo_send 10 (demo_packet TunnelFrameType.Replicate 3) (demo_tunnel 1) =
      (Some (delivered TunnelFrameType.Replicate 5 (demo_view 3)),
       sends_to packet (broadcast_targets (Some (from_uint32 77)) (demo_tunnel 1)), t') /\
    inbound_envelope packet = Some (TunnelFrameType.Replicate, 5, demo_view 2).
Proof.
  destruct (broadcast_receive_spec demo_send 10 (demo_packet TunnelFrameType.Replicate 3)
              TunnelFrameType.Replicate 5 (demo_view 3) (demo_tunnel 1)) as (t' & packet & Hr & Hp).
  - vm_compute. reflexivity.
  - vm_compute. reflexivity.
  - exists t', packet. split; [exact Hr | apply Hp; vm_compute; reflexivity].
Defined.

Lemma broadcast_end_to_end_witness :
  exists packet, (handle_kcp_message demo_send 10 packet (demo_tunnel 2)).1.1 =
    Some (DeliverFrame
      {| frame_type := TunnelFrameType.Replicate; frame_stream_id := 5;
         frame_payload := view_of (str "hi");
         frame_broadcast := {| valid := true; ttl := 4; origin := from_uint32 1;
                               message_id := from_uint32 77 |} |}).
Proof.
  destruct (broadcast_end_to_end demo_send (from_uint32 77) 1 TunnelFrameType.Replicate 5
              (view_of (str "hi")) (demo_tunnel 1) (demo_tunnel 2) 10)
    as (i & packet & Hi & _ & Hd);
    [demo_side.. |].
  exists packet. injection Hi as <-. apply Hd. vm_compute. reflexivity.
Defined.

Lemma rebroadcast_ttl_witness :
  exists packet, inbound_envelope packet =
    Some (TunnelFrameType.KafkaBroadcast, 5, demo_view 4).
Proof.
  destruct (rebroadcast_ttl demo_send (demo_packet TunnelFrameType.KafkaBroadcast 0)
              TunnelFrameType.KafkaBroadcast 5 (demo_view 0) None 10 (demo_tunnel 1))
    as (packet & _ & Hp);
    [demo_side.. |].
  exists packet. exact Hp.
Defined.

Lemma unicast_end_to_end_witness :
  exists packet,
    handle_kcp_message demo_send 10 packet (demo_tunnel 2) =
      (Some (DeliverFrame {| frame_type := TunnelFrameType.Data; frame_stream_id := 5;
                             frame_payload := view_of (str "hi");
                             frame_broadcast := BroadcastMetadata_default |}), [], demo_tunnel 2).
Proof.
  destruct (unicast_end_to_end demo_send (from_uint32 2)
              {| link_peer := config_peer (demo_config 1); link_conv := from_uint32 2;
                 link_addr := {| sin_port := be_encode 2 9000; sin_addr := [x7f; x00; x00; x01] |} |}
              TunnelFrameType.Data 5 (view_of (str "hi")) (demo_tunnel 1) (demo_tunnel 2) 10)
    as (packet & _ & Hd);
    [demo_side.. |].
  exists packet. exact Hd.
Defined.
End TunnelDemo.
