(* ===== verification/Gossip.v ===== *)
(** A network of tunnels that relay broadcasts to each other.

    Each node runs [handle_kcp_message] (KcpTunnel.cpp) on the packets it receives, and
    for a delivered Kafka frame the frame callback of ProxyRuntime.cpp, which broadcasts
    the frame again; what is sent is put in flight towards the node its address resolves
    to.  The theorem bounds the traffic a broadcast can cause, whatever the topology, the
    delivery order, losses, the content of the duplicate caches and the answers of Redis:
    the TTL alone makes the relaying stop. *)
From S2P Require Import Prelude KcpConv Frames Identity Tunnel Envelope TunnelProofs.

Section gossip.
Context {Node : Type} `{Countable Node}.
Context {peer_order : IterOrder KcpConv PeerLink} {seen_order : IterOrder bytes Z}.
Context (mgr_send : Send -> bool).
(** Where the network takes a packet sent by a node, if anywhere. *)
Context (resolve : Node -> Send -> option Node).

Record net := mkNet {
  net_nodes : gmap Node KcpTunnel;
  net_flight : list (Node * bytes);
}.

(** The packets the sends of [n] put in flight. *)
Definition arrivals (n : Node) (sends : list Send) : list (Node * bytes) :=
  omap (fun s => if mgr_send s then (fun d => (d, send_packet s)) <$> resolve n s else None) sends.

(** The frame callback on a Kafka frame; [recorded] says whether the bytes were admitted and the
    message was recorded as new. *)
Definition kafka_relay (recorded : bool) (rand : option KcpConv) (now : Z) (d : option Delivery)
    (t : KcpTunnel) : list Send * KcpTunnel :=
  match d with
  | Some (DeliverFrame frame) =>
      if bool_decide (frame_type frame = TunnelFrameType.KafkaBroadcast) && recorded then
        let '(_, sends, t) := broadcast_frame mgr_send rand now TunnelFrameType.KafkaBroadcast
                                (frame_stream_id frame) (frame_payload frame) (Some (frame_broadcast frame)) t in
        (sends, t)
      else ([], t)
  | _ => ([], t)
  end.

Inductive net_step : net -> net -> Prop :=
  | net_deliver nodes pre n data post t now d sends t1 recorded rand now' sends' t2 :
      nodes !! n = Some t ->
      handle_kcp_message mgr_send now data t = (d, sends, t1) ->
      from_option conv_wf True rand ->
      kafka_relay recorded rand now' d t1 = (sends', t2) ->
      net_step (mkNet nodes (pre ++ (n, data) :: post))
               (mkNet (<[n := t2]> nodes) (pre ++ post ++ arrivals n (sends ++ sends')))
  | net_lose nodes pre p post :
      net_step (mkNet nodes (pre ++ p :: post)) (mkNet nodes (pre ++ post)).

(** ** How many packets a packet can cause *)

Fixpoint fan (F k : nat) : nat :=
  match k with
  | O => 1
  | S k => 1 + F * fan F k
  end.

Definition is_kafka (ty : TunnelFrameType.t) : bool := bool_decide (ty = TunnelFrameType.KafkaBroadcast).

(** A broadcast is relayed with its TTL decreased; a Kafka frame without a TTL starts with the one
    configured, which is at most [T]. *)
Definition packet_weight (F T : nat) (data : bytes) : nat :=
  match inbound_envelope data with
  | Some (ty, _, v) =>
      if is_kafka ty && (env_ttl v =? 0) then fan F T
      else if auto_relay_type ty || is_kafka ty then fan F (Z.to_nat (env_ttl v - 1)) else 1
  | None => if is_kafka (frame_type (decode_tunnel_frame (view_of data) TunnelFrameView_default).2) then fan F T else 1
  end.

Definition flight_weight (F T : nat) (fl : list (Node * bytes)) : nat :=
  sum_list_with (fun p => packet_weight F T p.2) fl.

(** At most [F] copies leave a node per broadcast. *)
Definition fanout_within (F : nat) (t : KcpTunnel) : Prop :=
  forall id, (length (broadcast_targets (Some id) t) <= F)%nat.

(** A node has an identity and starts broadcasts with a TTL of 1 to [T]. *)
Definition node_ready (F T : nat) (t : KcpTunnel) : Prop :=
  fanout_within F t /\ conv_wf (identity_id (tunnel_config t)) /\ conv_empty (identity_id (tunnel_config t)) = false
  /\ 1 <= broadcast_ttl (tunnel_config t) <= Z.of_nat T /\ fits 8 (broadcast_ttl (tunnel_config t)).

Definition net_bounded (F T : nat) (s : net) : Prop :=
  map_Forall (fun _ t => node_ready F T t) (net_nodes s).

(** The configuration gives such a bound: the fan-out limit, or the number of links. *)
Lemma fanout_within_config F t :
  0 <= max_broadcast_fanout (tunnel_config t) ->
  (peer_link_count t <= Z.of_nat F \/ 0 < max_broadcast_fanout (tunnel_config t) <= Z.of_nat F) ->
  fanout_within F t.
Proof.
  intros H0 HF id. pose proof (broadcast_targets_length (Some id) t) as Hl.
  unfold peer_link_count in HF. destruct HF as [HF|HF]; [lia|].
  unfold broadcast_targets in *. destruct (_ && _) eqn:E.
  - rewrite length_take. lia.
  - fold (all_links t) in *. apply andb_false_iff in E as [E|E]; bool_norm; [lia|].
    unfold zlen in E. lia.
Qed.

Lemma fan_pos F k : (1 <= fan F k)%nat.
Proof. destruct k; simpl; lia. Qed.

Lemma fan_mono F a b : (a <= b)%nat -> (fan F a <= fan F b)%nat.
Proof.
  intros Hle. induction Hle as [|b _ IH]; [done|]. etrans; [exact IH|]. clear IH.
  induction b as [|b IH]; simpl; [lia|]. simpl in IH. nia.
Qed.

Lemma packet_weight_pos F T data : (1 <= packet_weight F T data)%nat.
Proof. unfold packet_weight. repeat case_match; auto using fan_pos. Qed.

Lemma flight_weight_app F T a b :
  flight_weight F T (a ++ b) = (flight_weight F T a + flight_weight F T b)%nat.
Proof. apply sum_list_with_app. Qed.

(** Equal packets in flight weigh their number times the packet. *)
Lemma arrivals_weight F T n packet links :
  (flight_weight F T (arrivals n (sends_to packet links)) <=
   length links * packet_weight F T packet)%nat.
Proof.
  induction links as [|l links IH]; [simpl; lia|].
  unfold sends_to, arrivals in *. cbn [fmap list_fmap omap list_omap]. unfold flight_weight in *.
  destruct (if mgr_send _ then _ else _) as [[d p]|] eqn:E; cbn [sum_list_with length snd].
  - destruct (mgr_send _); [|done]. apply fmap_Some in E as (? & _ & [= <- <-]). simpl. lia.
  - simpl. lia.
Qed.

Lemma arrivals_app n a b : arrivals n (a ++ b) = arrivals n a ++ arrivals n b.
Proof. unfold arrivals. by rewrite omap_app. Qed.

(** The links and the configuration are not touched when a key is marked. *)
Lemma marks_ready F T now t t' : marks_at now t t' -> node_ready F T t -> node_ready F T t'.
Proof. intros [->|(n & key & _ & _ & ->)] Hr; [done|]. by rewrite mark_broadcast_seen_tunnel. Qed.

Lemma kafka_relay_marks recorded rand now d t :
  marks_at (Some now) t (kafka_relay recorded rand now d t).2.
Proof.
  unfold kafka_relay. destruct d as [[|frame]|]; [by left| |by left]. case_match; [|by left].
  pose proof (broadcast_frame_marks mgr_send rand now TunnelFrameType.KafkaBroadcast (frame_stream_id frame)
    (frame_payload frame) (Some (frame_broadcast frame)) t) as Hm.
  by destruct (broadcast_frame _ _ _ _ _ _ _ _) as [[n sends] t'].
Qed.

(** Only broadcasts cause sends. *)
Lemma receive_plain_sends now data t :
  inbound_envelope data = None -> (handle_kcp_message mgr_send now data t).1.2 = [].
Proof.
  unfold inbound_envelope, handle_kcp_message, prepare_inbound_broadcast.
  destruct (decode_tunnel_frame _ _) as [ok f]. destruct ok; [|done]. cbn [andb negb].
  destruct (is_relayed_type (frame_type f)); cbn [negb].
  - destruct (decode_broadcast_envelope _); [|done|done]. intros _. cbn. case_match; done.
  - intros _. cbn. case_match; done.
Qed.

(** The weight of a packet with an envelope that was just made. *)
Lemma fresh_packet_weight F T ty sid o i k payload :
  auto_relay_type ty || is_kafka ty = true -> is_relayed_type ty = true -> stream_ok ty sid ->
  conv_wf o -> conv_wf i -> conv_empty o = false -> conv_empty i = false -> zlen payload <= u32_max - 76 ->
  1 <= k -> fits 8 k ->
  packet_weight F T (broadcast_frame_packet ty sid o i k payload) = fan F (Z.to_nat (k - 1)).
Proof.
  intros Hty Hr Hs Ho Hi Eo Ei Hlen Hk Hfit. unfold packet_weight.
  destruct (inbound_packet ty sid o i k payload Hr Hs Ho Hi Eo Ei Hlen) as [_ ->]. rewrite wrap_id by done. cbn [env_ttl].
  destruct (Z.eqb_spec k 0); [lia|]. by rewrite andb_false_r, Hty.
Qed.

(** A frame too large for an envelope is not sent. *)
Lemma broadcast_frame_oversize rand now sid payload md t :
  conv_empty (identity_id (tunnel_config t)) = false -> u32_max - 76 < zlen (view_bytes payload) ->
  (forall o i k, broadcast_identity rand md (tunnel_config t) = Some (o, i, k) -> conv_wf o /\ conv_wf i) ->
  (broadcast_frame mgr_send rand now TunnelFrameType.KafkaBroadcast sid payload md t).1.2 = [].
Proof.
  intros Hme Hlen Hwf. unfold broadcast_frame. rewrite Hme. case_match; [done|]. cbn [is_relayed_type negb andb orb].
  destruct (broadcast_identity rand md (tunnel_config t)) as [[[o i] k]|] eqn:E; [|done].
  destruct (Hwf _ _ _ eq_refl) as [Ho Hi]. destruct (Z.eqb_spec (zlen (encode_broadcast_envelope o i k (view_bytes payload))) 0) as [_|Hne]; [done|].
  rewrite mark_broadcast_seen_tunnel. cbn [snd]. unfold broadcast_wire.
  assert (Hbig : u32_max < zlen (encode_broadcast_envelope o i k (view_bytes payload))).
  { rewrite encode_env_empty in Hne by done. rewrite encode_env_wire.
    - rewrite zlen_env_wire by done. lia.
    - done.
    - done.
    - destruct (conv_empty o); [exfalso; apply Hne; auto|done].
    - destruct (conv_empty i); [exfalso; apply Hne; auto|done].
    - destruct (Z.le_gt_cases (zlen (view_bytes payload)) u32_max); [done|exfalso; apply Hne; auto]. }
  unfold encode_tunnel_frame. rewrite view_size_of. by rewrite (proj2 (Z.ltb_lt _ _)).
Qed.

(** The weight of the packets of a Kafka frame that a node broadcasts with TTL [k]. *)
Lemma broadcast_frame_weight F T n rand now sid payload md t o i k :
  node_ready F T t -> fits 64 sid ->
  broadcast_identity rand md (tunnel_config t) = Some (o, i, k) ->
  conv_wf o -> conv_wf i -> conv_empty o = false -> conv_empty i = false -> 1 <= k -> fits 8 k ->
  (flight_weight F T (arrivals n (broadcast_frame mgr_send rand now TunnelFrameType.KafkaBroadcast sid payload md t).1.2)
   <= F * fan F (Z.to_nat (k - 1)))%nat.
Proof.
  intros (HF & _ & Hme & _) Hsid Hid Ho Hi Eo Ei Hk Hfit.
  destruct (Z.le_gt_cases (zlen (view_bytes payload)) (u32_max - 76)) as [Hlen|Hlen]; cycle 1.
  { rewrite broadcast_frame_oversize; [simpl; lia|done|lia|]. rewrite Hid. by intros ? ? ? [= <- <- <-]. }
  destruct (running t) eqn:Hrun; [|unfold broadcast_frame; rewrite Hrun; simpl; lia].
  destruct (Z.eqb_spec sid 0) as [->|Hne]; [unfold broadcast_frame; rewrite Hrun; simpl; lia|].
  rewrite (broadcast_frame_sends mgr_send rand now _ sid payload md t o i k); try done.
  etrans; [apply arrivals_weight|]. rewrite fresh_packet_weight; try done; [|split; [done|by right]].
  apply Nat.mul_le_mono_r, HF.
Qed.

(** What a node that gets a Kafka frame with metadata [md] puts in flight. *)
Lemma rebroadcast_weight F T n rand now sid payload md t :
  node_ready F T t -> fits 64 sid -> from_option conv_wf True rand ->
  (valid md = true -> conv_wf (origin md) /\ conv_wf (message_id md) /\ fits 8 (ttl md)) ->
  (flight_weight F T (arrivals n (broadcast_frame mgr_send rand now TunnelFrameType.KafkaBroadcast sid payload (Some md) t).1.2)
   < if valid md && negb (conv_empty (origin md)) && negb (conv_empty (message_id md)) && negb (ttl md =? 0)%Z
     then fan F (Z.to_nat (ttl md - 1)) else fan F T)%nat.
Proof.
  intros Hready Hsid Hrand Hmd. pose proof Hready as (HF & Hwf & Hme & Httl & Hfit).
  assert (HT : (F * fan F (Z.to_nat (broadcast_ttl (tunnel_config t) - 1)) < fan F T)%nat).
  { destruct T as [|T]; [lia|]. assert (fan F (Z.to_nat (broadcast_ttl (tunnel_config t) - 1)) <= fan F T)%nat by (apply fan_mono; lia).
    simpl. nia. }
  assert (Hnone : broadcast_identity rand (Some md) (tunnel_config t) = None ->
    (broadcast_frame mgr_send rand now TunnelFrameType.KafkaBroadcast sid payload (Some md) t).1.2 = []).
  { intros E. unfold broadcast_frame. rewrite Hme. case_match; [done|]. cbn [is_relayed_type negb andb orb]. by rewrite E. }
  pose proof (fan_pos F T) as HposT.
  destruct (valid md && negb (conv_empty (origin md)) && negb (conv_empty (message_id md))) eqn:Hv; cbn [andb].
  - pose proof Hv as Hv'. apply andb_prop in Hv' as [[Hval Eo]%andb_prop Ei]. apply negb_true_iff in Eo, Ei.
    destruct (Hmd Hval) as (Ho & Hi & Hf). destruct (Z.eqb_spec (ttl md) 0) as [E0|Hne]; cbn [negb] in *.
    + eapply Nat.le_lt_trans; [|exact HT]. apply (broadcast_frame_weight _ _ _ _ _ _ _ _ _ (origin md) (message_id md)); try done; [|lia].
      unfold broadcast_identity. by rewrite Hv, E0.
    + destruct (Z.leb_spec (ttl md) 1) as [Hle|Hgt].
      * rewrite Hnone by (unfold broadcast_identity; by rewrite Hv, (proj2 (Z.eqb_neq _ _) Hne), (proj2 (Z.leb_le _ _) Hle)). simpl. pose proof (fan_pos F (Z.to_nat (ttl md - 1))). lia.
      * unfold fits in Hf. replace (Z.to_nat (ttl md - 1)) with (S (Z.to_nat (ttl md - 1 - 1))) by lia. cbn [fan].
        eapply Nat.le_lt_trans; [apply (broadcast_frame_weight F T n rand now sid payload (Some md) t (origin md) (message_id md) (ttl md - 1))|lia]; try done; [|lia|unfold fits; lia].
        unfold broadcast_identity. rewrite Hv, (proj2 (Z.eqb_neq _ _) Hne), (proj2 (Z.leb_gt _ _) Hgt). cbn [negb].
        by rewrite wrap_id by (unfold fits; lia).
  - destruct rand as [r|]; [|rewrite Hnone by (unfold broadcast_identity; by rewrite Hv); simpl; lia]. cbn in Hrand.
    destruct (message_id_ok r Hrand) as (i & Hi & Hiwf & Hie).
    eapply Nat.le_lt_trans; [|exact HT].
    apply (broadcast_frame_weight _ _ _ _ _ _ _ _ _ (identity_id (tunnel_config t)) i); try done; [|lia].
    unfold broadcast_identity. by rewrite Hv, Hi.
Qed.

(** What the tunnel relays by itself. *)
Lemma relay_weight F T n ty sid v t :
  node_ready F T t -> is_relayed_type ty = true -> stream_ok ty sid -> env_ok v -> zlen (env_payload v) <= u32_max - 76 ->
  (flight_weight F T (arrivals n (relay_sends mgr_send ty sid v t)) < if auto_relay_type ty then fan F (Z.to_nat (env_ttl v - 1)) else 1)%nat.
Proof.
  intros (HF & _) Hr Hs Hok Hlen. rewrite relay_sends_spec by done. destruct Hok as (Ho & Eo & Hi & Ei & Httl & _). unfold fits in Httl.
  pose proof (fan_pos F (Z.to_nat (env_ttl v - 1))). destruct (auto_relay_type ty) eqn:Ha; cbn [andb]; [|simpl; lia].
  destruct (Z.ltb_spec 1 (env_ttl v)) as [Hgt|]; cbn [andb]; [|simpl; lia]. destruct (running t); [|simpl; lia].
  eapply Nat.le_lt_trans; [apply arrivals_weight|]. rewrite fresh_packet_weight; [|by rewrite Ha|done|done|done|done|done|done|done|lia|unfold fits; lia].
  replace (Z.to_nat (env_ttl v - 1)) with (S (Z.to_nat (env_ttl v - 1 - 1))) by lia. cbn [fan].
  assert (length (broadcast_targets (Some (env_message_id v)) t) <= F)%nat by apply HF. nia.
Qed.

(** What the frame callback sends for a frame. *)
Lemma kafka_relay_weight F T n recorded rand now frame t :
  node_ready F T t -> from_option conv_wf True rand -> fits 64 (frame_stream_id frame) ->
  let md := frame_broadcast frame in
  (valid md = true -> conv_wf (origin md) /\ conv_wf (message_id md) /\ fits 8 (ttl md)) ->
  (flight_weight F T (arrivals n (kafka_relay recorded rand now (Some (DeliverFrame frame)) t).1)
   < if is_kafka (frame_type frame) then
       if valid md && negb (conv_empty (origin md)) && negb (conv_empty (message_id md)) && negb (ttl md =? 0)%Z
       then fan F (Z.to_nat (ttl md - 1)) else fan F T
     else 1)%nat.
Proof.
  intros Hready Hrand Hsid md Hmd. unfold kafka_relay, is_kafka. destruct (bool_decide _); cbn [andb]; [|simpl; lia].
  pose proof (rebroadcast_weight F T n rand now (frame_stream_id frame) (frame_payload frame) md t Hready Hsid Hrand Hmd) as Hw.
  fold md. destruct recorded; [by destruct (broadcast_frame _ _ _ _ _ _ _ _) as [[z sends] t']|]. simpl. lia.
Qed.

(** A packet without an envelope is delivered as it is. *)
Lemma receive_plain now data t :
  inbound_envelope data = None ->
  exists d, handle_kcp_message mgr_send now data t = (d, [], t) /\
    (d = None \/ (exists p, d = Some (DeliverControl p)) \/ exists frame, d = Some (DeliverFrame frame)
       /\ frame_type frame = frame_type (decode_tunnel_frame (view_of data) TunnelFrameView_default).2
       /\ fits 64 (frame_stream_id frame) /\ valid (frame_broadcast frame) = false).
Proof.
  unfold inbound_envelope, handle_kcp_message, prepare_inbound_broadcast.
  destruct (decode_tunnel_frame _ _) as [ok f] eqn:E. destruct ok; [|eauto]. cbn [andb negb snd].
  apply decode_tunnel_inv in E as (body & _ & _ & _ & Hsid & Hmd & _).
  destruct (is_relayed_type (frame_type f)); cbn [negb].
  - destruct (decode_broadcast_envelope _); [|by eauto|done]. intros _. cbn. case_match; eauto 10.
  - intros _. cbn. case_match; [eauto 10|]. eexists. split; [done|]. right; right. eexists. split_and!; [done..|]. cbn. by rewrite Hmd.
Qed.

(** The packets a reception causes weigh less than the packet received. *)
Lemma receive_weight F T n now data t d sends t1 recorded rand now' :
  node_ready F T t -> from_option conv_wf True rand -> handle_kcp_message mgr_send now data t = (d, sends, t1) ->
  (flight_weight F T (arrivals n (sends ++ (kafka_relay recorded rand now' d t1).1)) < packet_weight F T data)%nat.
Proof.
  intros Hready Hrand Hh. pose proof (packet_weight_pos F T data) as Hpos. rewrite arrivals_app, flight_weight_app.
  destruct (inbound_envelope data) as [[[ty sid] v]|] eqn:Hin.
  - pose proof (receive_marks mgr_send now data t) as Hm. rewrite Hh in Hm. cbn [snd] in Hm.
    pose proof (marks_ready F T _ _ _ Hm Hready) as Hready1.
    rewrite (receive_broadcast _ _ _ _ _ _ _ Hin), mark_broadcast_seen_tunnel in Hh.
    destruct (inbound_envelope_inv _ _ _ _ Hin) as (Hr & Hs & Hok & Hlen).
    destruct (bool_decide _); [injection Hh as <- <- <-; simpl; lia|].
    destruct (mark_seen _ _ _ _).1; [|injection Hh as <- <- <-; simpl; lia]. injection Hh as <- <- Ht1. rewrite Ht1.
    pose proof (relay_weight F T n ty sid v t1 Hready1 Hr Hs Hok Hlen) as Hrelay.
    unfold packet_weight. rewrite Hin. destruct Hok as (Ho & Eo & Hi & Ei & Httl & _). unfold delivered.
    case_bool_decide as Hc.
    { subst ty. change (arrivals n (kafka_relay _ _ _ _ _).1) with (@nil (Node * bytes)). change (flight_weight F T []) with 0%nat.
      rewrite Nat.add_0_r. exact Hrelay. }
    pose proof (kafka_relay_weight F T n recorded rand now' (mkFrame ty sid (view_of (env_payload v)) (env_metadata v)) t1 Hready1 Hrand (proj1 Hs) (fun _ => conj Ho (conj Hi Httl))) as Hk.
    cbn [frame_type frame_broadcast valid origin message_id ttl env_metadata] in Hk. rewrite Eo, Ei in Hk. cbn [negb andb] in Hk.
    unfold env_metadata in Hk. destruct ty; try done; change (is_kafka _) with false in Hk |- * || change (is_kafka _) with true in Hk |- *.
    + change (auto_relay_type _) with true in Hrelay |- *. cbn [andb orb] in *. lia.
    + change (auto_relay_type _) with false in Hrelay |- *. cbn [andb orb] in *. destruct (env_ttl v =? 0); cbn [negb] in Hk; lia.
  - destruct (receive_plain now data t Hin) as (d' & Hd' & Hcases). rewrite Hd' in Hh. injection Hh as <- <- <-.
    unfold packet_weight in *. rewrite Hin in *. destruct Hcases as [->|[[p ->]|(frame & -> & Hty & Hsid & Hval)]]; [simpl; lia..|].
    pose proof (kafka_relay_weight F T n recorded rand now' frame t Hready Hrand Hsid) as Hk. cbn zeta in Hk. rewrite Hval, Hty in Hk.
    specialize (Hk ltac:(done)). cbn [andb] in Hk. change (flight_weight F T (arrivals n [])) with 0%nat. lia.
Qed.

Lemma net_step_weight F T s s' :
  net_bounded F T s -> net_step s s' ->
  net_bounded F T s' /\ (flight_weight F T (net_flight s') < flight_weight F T (net_flight s))%nat.
Proof.
  intros Hb Hstep. destruct Hstep as [nodes pre n data post t now d sends t1 recorded rand now' sends' t2 Hn Hh Hrand Hk
    |nodes pre p post]; unfold net_bounded in *; cbn [net_nodes net_flight] in *.
  - assert (Hready : node_ready F T t) by (eapply Hb; done). split.
    + apply map_Forall_insert_2; [|done]. pose proof (receive_marks mgr_send now data t) as Hm. rewrite Hh in Hm.
      pose proof (kafka_relay_marks recorded rand now' d t1) as Hm'. rewrite Hk in Hm'. by eapply marks_ready, marks_ready.
    + pose proof (receive_weight F T n now data t d sends t1 recorded rand now' Hready Hrand Hh) as Hw. rewrite Hk in Hw. cbn [fst] in Hw.
      rewrite !flight_weight_app. change (flight_weight F T ((n, data) :: post))
        with (packet_weight F T data + flight_weight F T post)%nat. lia.
  - split; [done|]. rewrite !flight_weight_app.
    change (flight_weight F T (p :: post)) with (packet_weight F T p.2 + flight_weight F T post)%nat.
    pose proof (packet_weight_pos F T p.2). lia.
Qed.

(** [C9] Relayed broadcasts die out: in a network whose nodes have an identity, start broadcasts with
    a TTL of 1 to [T] and fan out to at most [F] peers, every execution delivers and loses at most
    as many packets as the packets initially in flight weigh, whatever the duplicate caches hold and
    Redis answers.  A control or replicate broadcast, which the tunnels relay, and a Kafka
    broadcast, which the runtime broadcasts again, of TTL [k] weigh [1 + F + ... + F^(k-1)], a Kafka
    frame without a TTL, which starts over with the TTL configured, [1 + F + ... + F^T], and any
    other packet 1.  In particular every execution ends.  (Frames that handlers send in answer,
    which are not broadcasts, are not counted.) *)
Theorem gossip_terminates F T k s s' :
  net_bounded F T s -> nsteps net_step k s s' -> (k <= flight_weight F T (net_flight s))%nat.
Proof.
  intros Hb Hsteps. induction Hsteps as [s|k s s1 s2 Hstep _ IH]; [lia|].
  destruct (net_step_weight F T s s1 Hb Hstep) as [Hb1 Hlt]. specialize (IH Hb1). lia.
Qed.
End gossip.

(** ** A concrete network *)
Module GossipDemo.
Import TunnelDemo.
#[local] Instance gossip_peers : IterOrder KcpConv PeerLink := canonical_order.
#[local] Instance gossip_seen : IterOrder bytes Z := canonical_order.

(** Two nodes that send to each other, a replicated frame and a Kafka frame of TTL 0 under way. *)
Definition demo_resolve (n : nat) (_ : Send) : option nat := Some (1 - n)%nat.
Definition demo_net : @net nat _ _ :=
  mkNet {[ 0%nat := demo_tunnel 1; 1%nat := demo_tunnel 2 ]}
        [(0%nat, demo_packet TunnelFrameType.Replicate 3); (1%nat, demo_packet TunnelFrameType.KafkaBroadcast 0)].

Lemma demo_node_ready me : me = 1 \/ me = 2 -> node_ready 2 4 (demo_tunnel me).
Proof.
  intros Hme. assert (Hfan : fanout_within 2 (demo_tunnel me)).
  { apply fanout_within_config; [|right]; destruct Hme as [-> | ->]; vm_compute; try done; split; done. }
  split; [exact Hfan|]. destruct Hme as [-> | ->]; (split_and!; [reflexivity|reflexivity|vm_compute; congruence|vm_compute; congruence|vm_compute; split; congruence]).
Qed.

Lemma gossip_terminates_witness :
  (forall k s', nsteps (net_step demo_send demo_resolve) k demo_net s' ->
    (k <= flight_weight 2 4 (net_flight demo_net))%nat) /\
  exists s', net_step demo_send demo_resolve demo_net s'.
Proof.
  split.
  - intros k s' Hs. apply (gossip_terminates demo_send demo_resolve 2 4 k demo_net s'); [|exact Hs].
    intros n t Ht. unfold demo_net in Ht. cbn [net_nodes] in Ht.
    apply lookup_insert_Some in Ht as [[_ <-]|[_ Ht]]; [apply demo_node_ready; auto|].
    apply lookup_singleton_Some in Ht as [_ <-]. apply demo_node_ready. auto.
  - eexists. apply (net_lose _ _ _ [] _ [_]).
Defined.

(** The replicated frame weighs 1 + 2 + 4, the Kafka frame 1 + 2 + ... + 16. *)
Example demo_weight : flight_weight 2 4 (net_flight demo_net) = 38%nat.
Proof. vm_compute. reflexivity. Qed.
End GossipDemo.
