(* ===== verification/Ingress.v ===== *)
(** The TCP ingress: iota_proxy/src/network/TcpIngress.cpp and TcpEvent.hpp.

    The callbacks of the TCP server are the operations; a connection is a handle
    with its descriptor.  What a callback does outside the object (events handed to
    the handler, calls on a connection) is returned as a list of [IngressAction] in
    order.  The event handler is installed, as ProxyRuntime does at construction. *)
From S2P Require Import Prelude Frames.

(** ** Events *)

Module TcpEventType.
Inductive t : Set := Connected | Data | Closed.
#[global] Instance t_eq_dec : EqDecision t.
Proof. solve_decision. Defined.
End TcpEventType.

Module TcpEventSource.
Inductive t : Set := Ingress | Egress.
#[global] Instance t_eq_dec : EqDecision t.
Proof. solve_decision. Defined.
End TcpEventSource.

(** [struct TcpEvent] *)
Record TcpEvent := mkEvent {
  event_type : TcpEventType.t;
  event_source : TcpEventSource.t;
  event_stream_id : Z;
  event_payload : ByteView;
}.

Definition ingress_event (ty : TcpEventType.t) (sid : Z) (payload : ByteView) : TcpEvent :=
  {| event_type := ty; event_source := TcpEventSource.Ingress; event_stream_id := sid;
     event_payload := payload |}.

(** ** State *)

(** The fields of [TcpIngressConfig] the ingress itself reads. *)
Record TcpIngressConfig := mkIngressConfig {
  ingress_enabled : bool;
  ingress_node_id : Z;
  max_edge_frame_payload_size : Z;
}.

(** A [TcpConnectionPtr]: which object, and its descriptor. *)
Record TcpConnection := mkConnection { conn_handle : Z; conn_fd : Z }.

Record TcpIngress := mkIngress {
  ingress_config : TcpIngressConfig;
  stream_by_fd : gmap Z Z;
  frame_buffer_by_fd : gmap Z bytes;
  connection_by_stream : gmap Z TcpConnection;
  read_closed_streams : gset Z;
  next_stream_id : Z;
}.

Inductive IngressAction : Type :=
  | Emit (e : TcpEvent)
  | ConnSend (c : TcpConnection) (payload : bytes)
  | ConnShutdownWrite (c : TcpConnection)
  | ConnShutdown (c : TcpConnection).

Definition ingress_init (cfg : TcpIngressConfig) : TcpIngress :=
  {| ingress_config := cfg; stream_by_fd := ∅; frame_buffer_by_fd := ∅;
     connection_by_stream := ∅; read_closed_streams := ∅; next_stream_id := 1 |}.

(** ** Operations on a stream *)

(** [send_to_stream]; [connected] and [send_ok] are what the connection answers. *)
Definition ingress_send_to_stream (connected : TcpConnection -> bool)
    (send_ok : TcpConnection -> bytes -> bool) (sid : Z) (payload : ByteView)
    (s : TcpIngress) : bool * list IngressAction :=
  if negb (ingress_enabled (ingress_config s)) || (sid =? 0) ||
     bool_decide (view_data payload = None) || view_empty payload then (false, [])
  else
    match connection_by_stream s !! sid with
    | None => (false, [])
    | Some c =>
        if connected c then (send_ok c (view_bytes payload), [ConnSend c (view_bytes payload)])
        else (false, [])
    end.

Definition ingress_shutdown_stream_write (sid : Z) (s : TcpIngress) : list IngressAction :=
  if sid =? 0 then []
  else match connection_by_stream s !! sid with
       | None => []
       | Some c => [ConnShutdownWrite c]
       end.

Definition ingress_shutdown_stream (sid : Z) (s : TcpIngress) : list IngressAction :=
  if sid =? 0 then []
  else match connection_by_stream s !! sid with
       | None => []
       | Some c => [ConnShutdown c]
       end.

(** ** Connections *)

(** The [do ... while (local_id == 0)] loop on [next_stream_id_]: the local id and
    the counter after it; [None] if the fuel runs out. *)
Fixpoint alloc_local_id (fuel : nat) (next : Z) : option (Z * Z) :=
  match fuel with
  | O => None
  | S fuel =>
      let local_id := Z.land next 0xffffffff in
      let next := wrap 64 (next + 1) in
      if local_id =? 0 then alloc_local_id fuel next else Some (local_id, next)
  end.

Definition make_stream_id (node local_id : Z) : Z :=
  Z.lor (wrap 64 (Z.shiftl node 32)) local_id.

(** [handle_connection] when [connection->connected()]. *)
Definition handle_connected (c : TcpConnection) (s : TcpIngress)
    : option (list IngressAction * TcpIngress) :=
  match alloc_local_id 2 (next_stream_id s) with
  | None => None
  | Some (local_id, next) =>
      let sid := make_stream_id (ingress_node_id (ingress_config s)) local_id in
      Some (if negb (sid =? 0) then [Emit (ingress_event TcpEventType.Connected sid ByteView_default)]
            else [],
            {| ingress_config := ingress_config s;
               stream_by_fd := <[conn_fd c := sid]> (stream_by_fd s);
               frame_buffer_by_fd := <[conn_fd c := []]> (frame_buffer_by_fd s);
               connection_by_stream := <[sid := c]> (connection_by_stream s);
               read_closed_streams := read_closed_streams s;
               next_stream_id := next |})
  end.

(** [handle_connection] when the connection is down. *)
Definition handle_disconnected (c : TcpConnection) (s : TcpIngress)
    : list IngressAction * TcpIngress :=
  match stream_by_fd s !! conn_fd c with
  | None => ([], s)
  | Some sid =>
      let already_read_closed := bool_decide (sid ∈ read_closed_streams s) in
      let event_id := if already_read_closed then 0 else sid in
      (if negb (event_id =? 0)
       then [Emit (ingress_event TcpEventType.Closed event_id ByteView_default)] else [],
       {| ingress_config := ingress_config s;
          stream_by_fd := delete (conn_fd c) (stream_by_fd s);
          frame_buffer_by_fd := delete (conn_fd c) (frame_buffer_by_fd s);
          connection_by_stream := delete sid (connection_by_stream s);
          read_closed_streams := read_closed_streams s ∖ {[sid]};
          next_stream_id := next_stream_id s |})
  end.

Definition handle_connection (connected : bool) (c : TcpConnection) (s : TcpIngress)
    : option (list IngressAction * TcpIngress) :=
  if connected then handle_connected c s else Some (handle_disconnected c s).

Definition handle_read_closed (c : TcpConnection) (s : TcpIngress)
    : list IngressAction * TcpIngress :=
  match stream_by_fd s !! conn_fd c with
  | None => ([], s)
  | Some sid =>
      let s' := {| ingress_config := ingress_config s; stream_by_fd := stream_by_fd s;
                   frame_buffer_by_fd := delete (conn_fd c) (frame_buffer_by_fd s);
                   connection_by_stream := connection_by_stream s;
                   read_closed_streams := read_closed_streams s ∪ {[sid]};
                   next_stream_id := next_stream_id s |} in
      if bool_decide (sid ∈ read_closed_streams s) then ([], s')
      else ([Emit (ingress_event TcpEventType.Closed sid ByteView_default)], s')
  end.

(** ** Framing *)

(** The [while] loop of [handle_data]: [close_connection], the frames cut off, in
    order, and the rest of the buffer.  Each turn removes at least a header. *)
Fixpoint deframe_loop (fuel : nat) (max_payload : Z) (buffer : bytes) (frames : list bytes)
    : bool * list bytes * bytes :=
  match fuel with
  | O => (false, frames, buffer)
  | S fuel =>
      if kEdgeDataFrameHeaderSize <=? zlen buffer then
        match edge_data_frame_payload_size (view_of buffer) with
        | None => (true, frames, buffer)
        | Some payload_size =>
            if max_payload <? payload_size then (true, frames, buffer)
            else
              let frame_size := kEdgeDataFrameHeaderSize + payload_size in
              if zlen buffer <? frame_size then (false, frames, buffer)
              else deframe_loop fuel max_payload (drop (Z.to_nat frame_size) buffer)
                     (frames ++ [take (Z.to_nat frame_size) buffer])
        end
      else (false, frames, buffer)
  end.

Definition deframe (max_payload : Z) (buffer : bytes) : bool * list bytes * bytes :=
  deframe_loop (S (length buffer)) max_payload buffer [].

Definition max_buffer_size (cfg : TcpIngressConfig) : Z :=
  wrap 64 (kEdgeDataFrameHeaderSize + max_edge_frame_payload_size cfg).

Definition with_buffer (fd : Z) (b : bytes) (s : TcpIngress) : TcpIngress :=
  {| ingress_config := ingress_config s; stream_by_fd := stream_by_fd s;
     frame_buffer_by_fd := <[fd := b]> (frame_buffer_by_fd s);
     connection_by_stream := connection_by_stream s;
     read_closed_streams := read_closed_streams s; next_stream_id := next_stream_id s |}.

Definition handle_data (c : TcpConnection) (data : bytes) (s : TcpIngress)
    : list IngressAction * TcpIngress :=
  if zlen data =? 0 then ([], s)
  else
    match stream_by_fd s !! conn_fd c with
    | None => ([], s)
    | Some sid =>
        let buffer := default [] (frame_buffer_by_fd s !! conn_fd c) in
        let limit := max_buffer_size (ingress_config s) in
        let len := zlen data in
        if (limit <? zlen buffer) || (limit <? len) || (limit - len <? zlen buffer)
        then ([ConnShutdown c], with_buffer (conn_fd c) buffer s)
        else
          let '(close, frames, rest) :=
            deframe (max_edge_frame_payload_size (ingress_config s)) (buffer ++ data) in
          (if close then [ConnShutdown c]
           else (fun f => Emit (ingress_event TcpEventType.Data sid (view_of f))) <$> frames,
           with_buffer (conn_fd c) rest s)
    end.

Definition find_stream_id_by_fd (fd : Z) (s : TcpIngress) : Z :=
  default 0 (stream_by_fd s !! fd).
