(* ===== verification/IngressProofs.v ===== *)
(** Properties of the TCP ingress (Ingress.v): framing of the byte stream, and the
    life cycle of streams. *)
From S2P Require Import Prelude Frames Ingress.

(** ** Framing *)

(** A complete edge frame with a payload of at most [max] bytes. *)
Definition edge_frame_ok (max : Z) (f : bytes) : Prop :=
  exists v, decode_edge_data_frame (view_of f) = Some v /\ view_size (edge_payload v) <= max.

(** The beginning of a frame that is not complete yet. *)
Definition incomplete (max : Z) (r : bytes) : Prop :=
  zlen r < 18 \/
  exists n, edge_data_frame_payload_size (view_of r) = Some n /\ n <= max /\ zlen r < 18 + n.

(** [s] is the frames [fs] followed by the unfinished [r]. *)
Definition edge_stream (max : Z) (s : bytes) (fs : list bytes) (r : bytes) : Prop :=
  s = concat fs ++ r /\ Forall (edge_frame_ok max) fs /\ incomplete max r.

Lemma edge_frame_head max f tail :
  edge_frame_ok max f ->
  exists n, edge_data_frame_payload_size (view_of (f ++ tail)) = Some n /\
    zlen f = 18 + n /\ 0 <= n <= max.
Proof.
  intros (v & Hd & Hmax). apply decode_edge_inv in Hd as (p & [= ->] & Hp & Hm & _ & Hlen).
  rewrite Hp, view_size_of in Hmax. pose proof (zlen_nonneg p).
  exists (zlen p). rewrite zlen_edge_wire by done. split; [|lia].
  apply edge_payload_size_wire; [done|]. unfold u32_max in Hlen. split; lia.
Qed.

Lemma payload_size_range b n :
  edge_data_frame_payload_size (view_of b) = Some n -> 18 <= zlen b /\ 0 <= n <= u32_max.
Proof.
  unfold edge_data_frame_payload_size. rewrite view_size_of. cbn [view_of view_data].
  change kEdgeDataFrameHeaderSize with 18. intros H.
  destruct (Z.ltb_spec (zlen b) 18) as [|Hge]; [done|]. split; [done|].
  destruct (list_split_at 18 b) as (hdr & body & -> & Hhdr); [unfold zlen in Hge; lia|].
  do 18 (destruct hdr as [|? hdr]; [discriminate Hhdr|]). destruct hdr; [|discriminate Hhdr].
  cbn [Nat.add kEdgeMacSize kEdgeTimestampSize app drop] in H. rewrite load_u32_be in H.
  injection H as <-. match goal with |- 0 <= be_decode ?l <= _ => pose proof (be_decode_range l) as Hr end.
  change (256 ^ zlen _) with (2 ^ 32) in Hr. unfold u32_max. lia.
Qed.

(** Cutting a frame off at the announced size gives a frame that decodes. *)
Lemma frame_cut b n :
  edge_data_frame_payload_size (view_of b) = Some n -> 18 + n <= zlen b ->
  edge_frame_ok n (take (Z.to_nat (18 + n)) b).
Proof.
  intros Hn Hle. pose proof (payload_size_range _ _ Hn) as [_ Hrange].
  unfold edge_data_frame_payload_size in Hn. rewrite view_size_of in Hn.
  cbn [view_of view_data] in Hn. case_cond_in Hn; [done|]. injection Hn as Hn.
  destruct (list_split_at 6 b) as (mac & b1 & -> & Hm); [unfold zlen in Hle; lia|].
  destruct (list_split_at 8 b1) as (tsb & b2 & -> & Ht);
    [unfold zlen in Hle; rewrite length_app in Hle; lia|].
  destruct (list_split_at 4 b2) as (lb & body & -> & Hl);
    [unfold zlen in Hle; rewrite !length_app in Hle; lia|].
  assert (be_decode lb = n) as Elb.
  { rewrite <- Hn. unfold kEdgeMacSize, kEdgeTimestampSize.
    rewrite app_assoc, drop_app_length' by (rewrite length_app; lia).
    do 4 (destruct lb as [|? lb]; [discriminate Hl|]). destruct lb; [|discriminate Hl].
    cbn [app]. rewrite load_u32_be. done. }
  assert (n <= zlen body) as Hbody.
  { unfold zlen in *. rewrite !length_app in Hle. lia. }
  set (p := take (Z.to_nat n) body).
  assert (zlen p = n) as Hp by (unfold p, zlen in *; rewrite length_take; lia).
  assert (take (Z.to_nat (18 + n)) (mac ++ tsb ++ lb ++ body) =
          edge_wire mac (be_decode tsb) p) as ->.
  { unfold edge_wire. rewrite Hp, <- Elb, (be_encode_decode 8), (be_encode_decode 4) by done.
    rewrite !app_assoc. replace (Z.to_nat (18 + be_decode lb))
      with (length ((mac ++ tsb) ++ lb) + Z.to_nat n)%nat by (rewrite !length_app; lia).
    rewrite take_app_add. done. }
  eexists. split.
  - apply decode_edge_wire; [done| |lia]. pose proof (be_decode_range tsb) as Hr.
    unfold zlen in Hr. rewrite Ht in Hr. exact Hr.
  - cbn. unfold view_size. cbn. unfold id. lia.
Qed.

Section deframe_facts.
Context (max : Z).

Lemma deframe_complete fs : forall fuel s r acc,
  edge_stream max s fs r -> (length fs < fuel)%nat ->
  deframe_loop fuel max s acc = (false, acc ++ fs, r).
Proof.
  induction fs as [|f fs IH]; intros [|fuel] s r acc (Hs & Hok & Hr) Hf; cbn [length] in Hf;
    try lia; cbn [deframe_loop]; change kEdgeDataFrameHeaderSize with 18.
  - cbn in Hs. subst s. rewrite app_nil_r. destruct (Z.leb_spec 18 (zlen r)) as [Hge|]; [|done].
    destruct Hr as [|(n & -> & Hn & Hlt)]; [lia|].
    destruct (Z.ltb_spec max n); [lia|]. destruct (Z.ltb_spec (zlen r) (18 + n)); [done|lia].
  - apply Forall_cons in Hok as [Hf0 Hok]. cbn [concat] in Hs. rewrite <- app_assoc in Hs. subst s.
    destruct (edge_frame_head max f (concat fs ++ r) Hf0) as (n & -> & Hlen & Hn).
    rewrite zlen_app. pose proof (zlen_nonneg (concat fs ++ r)).
    destruct (Z.leb_spec 18 (zlen f + zlen (concat fs ++ r))); [|lia].
    destruct (Z.ltb_spec max n); [lia|].
    destruct (Z.ltb_spec (zlen f + zlen (concat fs ++ r)) (18 + n)); [lia|].
    assert (Z.to_nat (18 + n) = length f) as -> by (unfold zlen in *; lia).
    rewrite drop_app_length, take_app_length, (IH fuel (concat fs ++ r) r); [|done|lia].
    rewrite <- app_assoc. done.
Qed.

(** What the loop returns, and why it stopped. *)
Lemma deframe_sound : forall fuel s acc c fs' r,
  deframe_loop fuel max s acc = (c, fs', r) -> (length s < fuel)%nat ->
  exists fs, fs' = acc ++ fs /\ s = concat fs ++ r /\ Forall (edge_frame_ok max) fs /\
    (c = false -> incomplete max r) /\
    (c = true -> exists n, edge_data_frame_payload_size (view_of r) = Some n /\ max < n).
Proof.
  induction fuel as [|fuel IH]; intros s acc c fs' r H Hf; [lia|]. cbn [deframe_loop] in H.
  change kEdgeDataFrameHeaderSize with 18 in H. unfold incomplete.
  destruct (Z.leb_spec 18 (zlen s)) as [Hge|Hlt]; cycle 1.
  { injection H as <- <- <-. exists []. rewrite app_nil_r. split_and!; [done..| |done]. auto. }
  destruct (edge_data_frame_payload_size (view_of s)) as [n|] eqn:En; cycle 1.
  { unfold edge_data_frame_payload_size in En. rewrite view_size_of in En. cbn in En.
    change kEdgeDataFrameHeaderSize with 18 in En. destruct (Z.ltb_spec (zlen s) 18); [lia|done]. }
  destruct (payload_size_range _ _ En) as [_ Hn].
  destruct (Z.ltb_spec max n) as [Hbig|Hfit].
  { injection H as <- <- <-. exists []. rewrite app_nil_r. split_and!; [done..|]. eauto. }
  destruct (Z.ltb_spec (zlen s) (18 + n)) as [Hshort|Hlong].
  { injection H as <- <- <-. exists []. rewrite app_nil_r. split_and!; [done..| |done]. eauto 10. }
  apply IH in H as (fs & -> & Hs & Hok & Hfalse & Htrue);
    [|rewrite length_drop; unfold zlen in *; lia].
  exists (take (Z.to_nat (18 + n)) s :: fs). rewrite <- app_assoc. split_and!; try done.
  - cbn [concat]. rewrite <- app_assoc, <- Hs, take_drop. done.
  - constructor; [|done]. destruct (frame_cut s n En Hlong) as (v & Hv & Hm). exists v. split; [done|lia].
Qed.

Lemma edge_frames_short fs : Forall (edge_frame_ok max) fs -> (length fs <= length (concat fs))%nat.
Proof.
  induction 1 as [|f fs Hf _ IH]; [simpl; lia|]. cbn [concat length]. rewrite length_app.
  destruct (edge_frame_head max f [] Hf) as (n & _ & Hn & ?). unfold zlen in Hn. lia.
Qed.

(** The frames and the rest of a stream are unique. *)
Lemma deframe_spec s fs r : edge_stream max s fs r <-> deframe max s = (false, fs, r).
Proof.
  unfold deframe. split.
  - intros Hs. rewrite (deframe_complete fs _ s r []); [done..|].
    destruct Hs as (-> & Hok & _). pose proof (edge_frames_short fs Hok).
    rewrite length_app. lia.
  - intros H. apply deframe_sound in H as (fs' & -> & ? & ? & Hi & _); [|lia].
    split_and!; auto.
Qed.

Lemma incomplete_length P r : incomplete P r -> zlen r < 18 + Z.max 0 P.
Proof. intros [?|(n & _ & ? & ?)]; lia. Qed.
End deframe_facts.

(** ** Chunked delivery *)

Lemma edge_frame_ok_mono P max f : P <= max -> edge_frame_ok P f -> edge_frame_ok max f.
Proof. intros ? (v & ? & ?). exists v. split; [done|lia]. Qed.

Lemma edge_stream_mono P max s fs r : P <= max -> edge_stream P s fs r -> edge_stream max s fs r.
Proof.
  intros Hle (-> & Hok & Hr). split_and!; [done| |].
  - eapply Forall_impl; [done|]. intros. by eapply edge_frame_ok_mono.
  - destruct Hr as [?|(n & ? & ? & ?)]; [left; done|]. right. exists n. split_and!; try done; lia.
Qed.

Lemma payload_size_app x y :
  18 <= zlen x ->
  edge_data_frame_payload_size (view_of (x ++ y)) = edge_data_frame_payload_size (view_of x).
Proof.
  intros Hx. unfold edge_data_frame_payload_size. rewrite !view_size_of, zlen_app.
  cbn [view_of view_data]. change kEdgeDataFrameHeaderSize with 18. pose proof (zlen_nonneg y).
  destruct (Z.ltb_spec (zlen x + zlen y) 18); [lia|]. destruct (Z.ltb_spec (zlen x) 18); [lia|].
  destruct (list_split_at 18 x) as (hdr & body & -> & Hhdr); [unfold zlen in Hx; lia|].
  do 18 (destruct hdr as [|? hdr]; [discriminate Hhdr|]). destruct hdr; [|discriminate Hhdr].
  cbn [Nat.add kEdgeMacSize kEdgeTimestampSize app drop]. rewrite !load_u32_be. done.
Qed.

Lemma incomplete_prefix P x y : incomplete P (x ++ y) -> incomplete P x.
Proof.
  intros H. destruct (decide (zlen x < 18)) as [|Hge]; [left; done|]. right.
  pose proof (zlen_nonneg y). rewrite <- (payload_size_app x y) by lia.
  destruct H as [Hlt|(n & ? & ? & Hlt)]; rewrite zlen_app in Hlt; [lia|].
  exists n. split_and!; try done; lia.
Qed.

(** Part of a frame is incomplete. *)
Lemma frame_prefix_incomplete P f x y :
  edge_frame_ok P f -> f = x ++ y -> y <> [] -> incomplete P x.
Proof.
  intros Hf -> Hy. destruct (edge_frame_head P (x ++ y) [] Hf) as (n & Hs & Hlen & Hn).
  destruct (decide (zlen x < 18)) as [|Hge]; [left; done|]. right. exists n.
  rewrite app_nil_r, payload_size_app in Hs by lia. split_and!; [done|lia|].
  rewrite zlen_app in Hlen. pose proof (zlen_nonneg y).
  assert (zlen y <> 0) by (intros E; apply zlen_zero in E; done). lia.
Qed.

(** Prove that something is a stream, part by part. *)
Ltac stream_split := unfold edge_stream; split_and!.

(** A stream can be cut anywhere. *)
Lemma edge_stream_split P fs : forall x y r,
  edge_stream P (x ++ y) fs r ->
  exists fs1 r1 fs2, edge_stream P x fs1 r1 /\ edge_stream P (r1 ++ y) fs2 r /\ fs = fs1 ++ fs2.
Proof.
  assert (forall x, incomplete P x -> edge_stream P x [] x) as Hrest by (intros; stream_split; done).
  induction fs as [|f fs IH]; intros x y r Hs; pose proof Hs as (Hcat & Hok & Hr).
  - exists [], x, []. split_and!; [|done|done]. apply Hrest, (incomplete_prefix P x y).
    rewrite Hcat. done.
  - apply Forall_cons in Hok as [Hf Hok]. cbn [concat] in Hcat. rewrite <- app_assoc in Hcat.
    destruct (app_eq_inv _ _ _ _ Hcat) as [(k & Hx & Hk)|(k & Hfk & Hy)].
    + destruct (IH k y r) as (fs1 & r1 & fs2 & (-> & Hok1 & Hr1) & H2 & ->);
        [stream_split; done|].
      exists (f :: fs1), r1, fs2. split_and!; try done. stream_split; [|constructor; done|done].
      rewrite Hx. cbn. rewrite app_assoc. done.
    + destruct (decide (k = [])) as [->|Hne].
      * rewrite app_nil_r in Hfk. subst f. exists [x], [], fs. split_and!; [| |done].
        -- stream_split; [|constructor; done|left; done]. cbn. rewrite !app_nil_r. done.
        -- cbn in Hy. subst y. stream_split; done.
      * exists [], x, (f :: fs). split_and!; [|done|done].
        apply Hrest, (frame_prefix_incomplete P f x k); done.
Qed.

Definition data_events (sid : Z) (frames : list bytes) : list IngressAction :=
  (fun f => Emit (ingress_event TcpEventType.Data sid (view_of f))) <$> frames.

Definition buffer_of (c : TcpConnection) (s : TcpIngress) : bytes :=
  default [] (frame_buffer_by_fd s !! conn_fd c).

(** Consecutive chunks received on one connection. *)
Fixpoint feed (c : TcpConnection) (chunks : list bytes) (s : TcpIngress)
    : list IngressAction * TcpIngress :=
  match chunks with
  | [] => ([], s)
  | d :: chunks =>
      let '(a, s) := handle_data c d s in
      let '(b, s) := feed c chunks s in
      (a ++ b, s)
  end.

(** A configuration whose buffer limit does not overflow a [std::size_t]. *)
Definition ingress_cfg_ok (cfg : TcpIngressConfig) : Prop :=
  0 <= max_edge_frame_payload_size cfg /\ 18 + max_edge_frame_payload_size cfg < 2 ^ 64.

Lemma max_buffer_size_eq cfg :
  ingress_cfg_ok cfg -> max_buffer_size cfg = 18 + max_edge_frame_payload_size cfg.
Proof. intros [? ?]. unfold max_buffer_size. apply wrap_id. split; [unfold kEdgeDataFrameHeaderSize; lia|done]. Qed.

Section chunks.
Context (s : TcpIngress) (c : TcpConnection) (sid : Z).
Context (Hcfg : ingress_cfg_ok (ingress_config s)).
Context (Hsid : stream_by_fd s !! conn_fd c = Some sid).

(** A chunk that fits: its frames are delivered and the rest is kept. *)
Lemma handle_data_frames d fs r :
  d <> [] ->
  zlen (buffer_of c s) + zlen d <= 18 + max_edge_frame_payload_size (ingress_config s) ->
  edge_stream (max_edge_frame_payload_size (ingress_config s)) (buffer_of c s ++ d) fs r ->
  handle_data c d s = (data_events sid fs, with_buffer (conn_fd c) r s).
Proof.
  intros Hd Hlen Hs. unfold handle_data. rewrite Hsid, max_buffer_size_eq by done.
  fold (buffer_of c s). apply deframe_spec in Hs. rewrite Hs.
  pose proof (zlen_nonneg (buffer_of c s)). pose proof (zlen_nonneg d).
  destruct (Z.eqb_spec (zlen d) 0) as [E|_]; [apply zlen_zero in E; done|].
  repeat match goal with |- context [?a <? ?b] => destruct (Z.ltb_spec a b) end;
    try lia. done.
Qed.

(** A chunk that does not fit closes the connection; the buffer stays. *)
Lemma handle_data_overflow d :
  d <> [] ->
  18 + max_edge_frame_payload_size (ingress_config s) < zlen (buffer_of c s) + zlen d ->
  handle_data c d s = ([ConnShutdown c], with_buffer (conn_fd c) (buffer_of c s) s).
Proof.
  intros Hd Hlen. unfold handle_data. rewrite Hsid, max_buffer_size_eq by done.
  fold (buffer_of c s). destruct (Z.eqb_spec (zlen d) 0) as [E|_]; [apply zlen_zero in E; done|].
  repeat match goal with |- context [?a <? ?b] => destruct (Z.ltb_spec a b) end;
    try lia; done.
Qed.
End chunks.

Lemma buffer_of_with c b s : buffer_of c (with_buffer (conn_fd c) b s) = b.
Proof. unfold buffer_of. cbn. rewrite lookup_insert_eq. done. Qed.

Lemma feed_frames P C c sid chunks : forall s fs r,
  let max := max_edge_frame_payload_size (ingress_config s) in
  ingress_cfg_ok (ingress_config s) -> stream_by_fd s !! conn_fd c = Some sid ->
  0 <= P -> P + C <= max + 1 ->
  incomplete P (buffer_of c s) ->
  Forall (fun d => d <> [] /\ zlen d <= C) chunks ->
  edge_stream P (buffer_of c s ++ concat chunks) fs r ->
  (feed c chunks s).1 = data_events sid fs /\ buffer_of c (feed c chunks s).2 = r.
Proof.
  induction chunks as [|d chunks IH]; intros s fs r max Hcfg Hsid HP HPC Hb Hch Hs.
  - cbn in *. rewrite app_nil_r in Hs.
    assert (edge_stream P (buffer_of c s) [] (buffer_of c s)) as Hs0 by (stream_split; done).
    apply deframe_spec in Hs, Hs0. rewrite Hs in Hs0. injection Hs0 as -> ->. done.
  - apply Forall_cons in Hch as [[Hd HC] Hch]. cbn [concat] in Hs. rewrite app_assoc in Hs.
    destruct (edge_stream_split P fs _ _ _ Hs) as (fs1 & r1 & fs2 & Hs1 & Hs2 & ->).
    assert (0 < zlen d) as Hd1
      by (destruct d; [done|]; rewrite zlen_cons; pose proof (zlen_nonneg d); lia).
    assert (P <= max) as HPmax by lia.
    pose proof (incomplete_length P _ Hb) as Hbl. cbn [feed].
    rewrite (handle_data_frames s c sid Hcfg Hsid d fs1 r1 Hd); [|fold max; lia|];
      [|eapply edge_stream_mono; [exact HPmax|done]].
    destruct (feed c chunks (with_buffer (conn_fd c) r1 s)) as [b s'] eqn:Ef.
    destruct (IH (with_buffer (conn_fd c) r1 s) fs2 r) as [Ha Hr]; try done.
    + rewrite buffer_of_with. apply Hs1.
    + rewrite buffer_of_with. done.
    + rewrite Ef in Ha, Hr. cbn [fst snd] in *. subst b. split; [|done].
      unfold data_events. rewrite fmap_app. done.
Qed.

(** [C10] Framing does not depend on how the stream is cut into reads that are small enough: if the
    frames carry at most [P] payload bytes, the reads at most [C] bytes, and [P + C] is at most the
    configured maximum plus one, then exactly the frames of the stream reach the handler, in order,
    the connection is never shut down, and the buffer holds the unfinished rest. Beyond the bound a
    connection can be closed although its frames are in order ([ingress_pipelining_closed]). *)
Theorem ingress_frames_exact P C c sid chunks s fs r :
  ingress_cfg_ok (ingress_config s) -> stream_by_fd s !! conn_fd c = Some sid ->
  frame_buffer_by_fd s !! conn_fd c = Some [] ->
  0 <= P -> P + C <= max_edge_frame_payload_size (ingress_config s) + 1 ->
  Forall (fun d => d <> [] /\ zlen d <= C) chunks ->
  edge_stream P (concat chunks) fs r ->
  (feed c chunks s).1 = data_events sid fs /\ buffer_of c (feed c chunks s).2 = r.
Proof.
  intros Hcfg Hsid Hbuf HP HPC Hch Hs.
  assert (buffer_of c s = []) as Hb by (unfold buffer_of; rewrite Hbuf; done).
  apply (feed_frames P C); try done; rewrite Hb; [left; done|done].
Qed.

(** A peer that pipelines well-formed frames can be disconnected: when a frame
    with the largest allowed payload is read up to its last byte and the next read
    brings that byte together with the first byte of the next frame, the ingress
    shuts the connection down and delivers neither frame, although the same bytes
    read frame by frame are delivered. *)
Theorem ingress_pipelining_closed c sid s f g :
  let max := max_edge_frame_payload_size (ingress_config s) in
  ingress_cfg_ok (ingress_config s) -> stream_by_fd s !! conn_fd c = Some sid ->
  frame_buffer_by_fd s !! conn_fd c = Some [] ->
  edge_frame_ok max f -> zlen f = 18 + max -> edge_frame_ok max g ->
  let n := (length f - 1)%nat in
  (feed c [take n f; drop n f ++ take 1 g] s).1 = [ConnShutdown c] /\
  (feed c [f; g] s).1 = data_events sid [f; g].
Proof.
  intros max Hcfg Hsid Hbuf Hf Hlen Hg n.
  assert (buffer_of c s = []) as Hb by (unfold buffer_of; rewrite Hbuf; done).
  destruct (edge_frame_head max g [] Hg) as (ng & _ & Hlg & Hng).
  assert (forall x : bytes, 0 < zlen x -> x <> []) as Hne by (intros x Hx ->; done).
  assert (zlen (take n f) = 17 + max) as Ht
    by (unfold zlen, n in *; rewrite length_take; lia).
  assert (zlen (drop n f ++ take 1 g) = 2) as Hd.
  { rewrite zlen_app. unfold zlen, n in *. rewrite length_drop, length_take. lia. }
  assert (incomplete max (take n f)) as Hinc.
  { apply (frame_prefix_incomplete max f (take n f) (drop n f)); [done|rewrite take_drop; done|].
    apply Hne. unfold zlen, n in *. rewrite length_drop. lia. }
  assert (incomplete max []) as Hnil by (left; done).
  destruct Hcfg as [Hmax0 Hmax64]. assert (ingress_cfg_ok (ingress_config s)) as Hcfg by done.
  split; cbn [feed].
  - rewrite (handle_data_frames s c sid Hcfg Hsid (take n f) [] (take n f));
      [|apply Hne; lia|rewrite Hb, zlen_nil; fold max; lia|rewrite Hb; stream_split; done].
    rewrite (handle_data_overflow _ c sid);
      [done|done|done|apply Hne; lia|rewrite buffer_of_with; cbn; fold max; lia].
  - rewrite (handle_data_frames s c sid Hcfg Hsid f [f] []);
      [|apply Hne; lia|rewrite Hb, zlen_nil; fold max; lia|].
    2: { rewrite Hb. stream_split; [cbn; rewrite !app_nil_r; done|constructor; done|done]. }
    rewrite (handle_data_frames (with_buffer (conn_fd c) [] s) c sid Hcfg Hsid g [g] []); [done|apply Hne; lia|..];
      rewrite buffer_of_with.
    + rewrite zlen_nil. cbn. fold max. lia.
    + stream_split; [cbn; rewrite !app_nil_r; done|constructor; done|done].
Qed.

(** ** Stream identifiers and the life cycle of streams *)

Lemma land_mask32 z : Z.land z 0xffffffff = z mod 2 ^ 32.
Proof. change 0xffffffff with (Z.ones 32). apply Z.land_ones. lia. Qed.

(** The allocation loop ends after at most two turns. *)
Lemma alloc_local_id_total next :
  exists l next', alloc_local_id 2 next = Some (l, next') /\ 1 <= l < 2 ^ 32.
Proof.
  cbn [alloc_local_id]. rewrite !land_mask32. unfold wrap.
  pose proof (Z.mod_pos_bound next (2 ^ 32) ltac:(lia)).
  destruct (Z.eqb_spec (next mod 2 ^ 32) 0) as [E|]; [|eexists _, _; split; [done|lia]].
  assert (((next + 1) mod 2 ^ 64) mod 2 ^ 32 = 1) as ->; [|eexists _, _; split; [done|lia]].
  rewrite Z.mod_mod_divide by (exists (2 ^ 32); lia).
  rewrite <- Z.add_mod_idemp_l, E by lia. done.
Qed.

Lemma alloc_local_id_small next :
  1 <= next < 2 ^ 32 -> alloc_local_id 2 next = Some (next, next + 1).
Proof.
  intros H. cbn [alloc_local_id]. rewrite land_mask32, Z.mod_small by lia.
  destruct (Z.eqb_spec next 0); [lia|]. unfold wrap. rewrite Z.mod_small by lia. done.
Qed.

Lemma make_stream_id_eq node l :
  fits 32 node -> 0 <= l < 2 ^ 32 -> make_stream_id node l = node * 2 ^ 32 + l.
Proof.
  intros Hn Hl. unfold make_stream_id, wrap. unfold fits in Hn.
  rewrite Z.mod_small by (rewrite Z.shiftl_mul_pow2 by lia; lia).
  apply lor_shiftl_add; lia.
Qed.

Inductive ingress_op : Type :=
  | OpConnected (c : TcpConnection)
  | OpDisconnected (c : TcpConnection)
  | OpReadClosed (c : TcpConnection)
  | OpData (c : TcpConnection) (data : bytes).

Definition ingress_step (op : ingress_op) (s : TcpIngress) : option (list IngressAction * TcpIngress) :=
  match op with
  | OpConnected c => handle_connection true c s
  | OpDisconnected c => handle_connection false c s
  | OpReadClosed c => Some (handle_read_closed c s)
  | OpData c d => Some (handle_data c d s)
  end.

(** The kernel reports a new connection on a descriptor that is not in use, and the
    32-bit local identifiers have not been used up. *)
Definition ingress_allowed (op : ingress_op) (s : TcpIngress) : Prop :=
  match op with
  | OpConnected c => stream_by_fd s !! conn_fd c = None /\ next_stream_id s < 2 ^ 32
  | _ => True
  end.

(** The states reached from a fresh ingress, with everything it did on the way. *)
Inductive ingress_reach (cfg : TcpIngressConfig) : list IngressAction -> TcpIngress -> Prop :=
  | ingress_start : ingress_reach cfg [] (ingress_init cfg)
  | ingress_next tr s op a s' :
      ingress_reach cfg tr s -> ingress_allowed op s -> ingress_step op s = Some (a, s') ->
      ingress_reach cfg (tr ++ a) s'.

(** How often the handler got an event of a type for a stream. *)
Definition is_event (ty : TcpEventType.t) (sid : Z) (a : IngressAction) : bool :=
  match a with
  | Emit e => bool_decide (event_type e = ty) && (event_stream_id e =? sid)
  | _ => false
  end.

Definition event_count (ty : TcpEventType.t) (sid : Z) (tr : list IngressAction) : nat :=
  length (filter (fun a => is_event ty sid a = true) tr).

Lemma event_count_app ty sid a b :
  event_count ty sid (a ++ b) = (event_count ty sid a + event_count ty sid b)%nat.
Proof. unfold event_count. rewrite filter_app, length_app. done. Qed.

Lemma event_count_emit ty sid ty' sid' p :
  event_count ty sid [Emit (ingress_event ty' sid' p)] =
    Nat.b2n (bool_decide (ty' = ty) && (sid' =? sid)).
Proof.
  unfold event_count. rewrite filter_cons. cbn.
  destruct (bool_decide _ && _); [rewrite decide_True | rewrite decide_False]; done.
Qed.

Lemma event_count_data ty sid sid' fs :
  ty <> TcpEventType.Data -> event_count ty sid (data_events sid' fs) = 0%nat.
Proof.
  intros Hty. unfold event_count, data_events. induction fs as [|f fs IH]; [done|].
  cbn [fmap list_fmap]. rewrite filter_cons, decide_False; [exact IH|].
  cbn. rewrite bool_decide_false by congruence. done.
Qed.

(** A stream is closed towards the handler once it is half closed or gone. *)
Definition stream_closed (s : TcpIngress) (sid : Z) : bool :=
  bool_decide (connection_by_stream s !! sid = None) || bool_decide (sid ∈ read_closed_streams s).

Record ingress_inv (cfg : TcpIngressConfig) (tr : list IngressAction) (s : TcpIngress) : Prop := {
  ii_cfg : ingress_config s = cfg;
  ii_next : 1 <= next_stream_id s <= 2 ^ 32;
  ii_fd : forall fd sid, stream_by_fd s !! fd = Some sid ->
    exists c, connection_by_stream s !! sid = Some c /\ conn_fd c = fd;
  ii_conn : forall sid c, connection_by_stream s !! sid = Some c ->
    stream_by_fd s !! conn_fd c = Some sid /\
    exists l, sid = make_stream_id (ingress_node_id cfg) l /\ 1 <= l < next_stream_id s;
  ii_read : forall sid, sid ∈ read_closed_streams s -> is_Some (connection_by_stream s !! sid);
  ii_trace : forall l, 1 <= l < 2 ^ 32 ->
    let sid := make_stream_id (ingress_node_id cfg) l in
    event_count TcpEventType.Connected sid tr = Nat.b2n (l <? next_stream_id s) /\
    event_count TcpEventType.Closed sid tr =
      Nat.b2n ((l <? next_stream_id s) && stream_closed s sid);
}.

Section lifecycle.
Context (cfg : TcpIngressConfig) (Hnode : fits 32 (ingress_node_id cfg)).

Lemma stream_id_inj l k :
  1 <= l < 2 ^ 32 -> 1 <= k < 2 ^ 32 ->
  (make_stream_id (ingress_node_id cfg) l =? make_stream_id (ingress_node_id cfg) k) = (l =? k).
Proof.
  intros. rewrite !make_stream_id_eq by (done || lia).
  destruct (Z.eqb_spec l k) as [->|]; [apply Z.eqb_refl|]. apply Z.eqb_neq. lia.
Qed.

Lemma stream_id_eq l k :
  1 <= l < 2 ^ 32 -> 1 <= k < 2 ^ 32 ->
  make_stream_id (ingress_node_id cfg) l = make_stream_id (ingress_node_id cfg) k -> l = k.
Proof. intros Hl Hk E. apply Z.eqb_eq. rewrite <- stream_id_inj by done. apply Z.eqb_eq, E. Qed.

Lemma stream_id_nonzero l : 1 <= l < 2 ^ 32 -> make_stream_id (ingress_node_id cfg) l <> 0.
Proof. intros. rewrite make_stream_id_eq by (done || lia). unfold fits in Hnode. lia. Qed.

Lemma inv_connected tr s c a s' :
  ingress_inv cfg tr s -> stream_by_fd s !! conn_fd c = None -> next_stream_id s < 2 ^ 32 ->
  handle_connected c s = Some (a, s') -> ingress_inv cfg (tr ++ a) s'.
Proof.
  intros [Hc Hn Hfd Hconn Hread Htr] Hfree Hlt. unfold handle_connected.
  rewrite alloc_local_id_small, Hc by lia.
  set (next := next_stream_id s) in *. set (sid := make_stream_id _ next).
  assert (sid <> 0) as Hsid by (apply stream_id_nonzero; lia).
  destruct (Z.eqb_spec sid 0) as [|_]; [done|]. cbn [negb]. intros [= <- <-].
  assert (connection_by_stream s !! sid = None) as Hfresh.
  { destruct (connection_by_stream s !! sid) as [c'|] eqn:E; [|done].
    apply Hconn in E as (_ & l & E & Hl). apply stream_id_eq in E; lia. }
  split; cbn; try done; [lia|..].
  - intros fd sid'. rewrite lookup_insert_Some. intros [[<- <-]|[Hne Hs]].
    + exists c. rewrite lookup_insert_eq. done.
    + destruct (Hfd fd sid' Hs) as (c' & Hc' & <-). exists c'. rewrite lookup_insert_ne; [done|].
      intros <-. congruence.
  - intros sid' c'. rewrite lookup_insert_Some. intros [[<- <-]|[Hne Hs]].
    + rewrite lookup_insert_eq. split; [done|]. exists next. split; [done|lia].
    + destruct (Hconn sid' c' Hs) as (Hf & l & -> & Hl). split.
      * rewrite lookup_insert_ne; [done|]. intros E. rewrite E in Hfree. congruence.
      * exists l. split; [done|lia].
  - intros sid' Hin. rewrite lookup_insert_is_Some. destruct (decide (sid = sid')); auto.
  - intros l Hl. destruct (Htr l Hl) as [H1 H2]. rewrite !event_count_app, !event_count_emit, H1, H2.
    unfold sid. rewrite (stream_id_inj next l) by lia. unfold stream_closed. cbn.
    destruct (Z.eqb_spec next l) as [<-|Hne].
    + assert (sid ∉ read_closed_streams s) as Hnr.
      { intros Hin%Hread. rewrite Hfresh in Hin. by destruct Hin. }
      fold sid. rewrite lookup_insert_eq. rewrite (bool_decide_false (sid ∈ _)) by done.
      rewrite Z.ltb_irrefl. destruct (Z.ltb_spec next (next + 1)); [|lia]. done.
    + rewrite lookup_insert_ne by (intros E%stream_id_eq; lia).
      replace (l <? next + 1) with (l <? next)
        by (destruct (Z.ltb_spec l next), (Z.ltb_spec l (next + 1)); lia || done).
      cbn. rewrite !Nat.add_0_r. done.
Qed.

(** The [Closed] event of a registered stream that is still open towards the handler. *)
Definition close_events (sid : Z) (already : bool) : list IngressAction :=
  if already then [] else [Emit (ingress_event TcpEventType.Closed sid ByteView_default)].

Lemma close_events_count ty sid sid' already :
  event_count ty sid (close_events sid' already) =
    Nat.b2n (bool_decide (TcpEventType.Closed = ty) && (sid' =? sid) && negb already).
Proof.
  unfold close_events. destruct already; [rewrite andb_false_r; done|].
  rewrite event_count_emit, andb_true_r. done.
Qed.

(** Closing a registered stream towards the handler, whether or not it is removed. *)
Lemma inv_close_trace tr s s' sid c :
  ingress_inv cfg tr s -> connection_by_stream s !! sid = Some c ->
  next_stream_id s' = next_stream_id s ->
  (forall k, stream_closed s' k = if k =? sid then true else stream_closed s k) ->
  forall l, 1 <= l < 2 ^ 32 ->
    let k := make_stream_id (ingress_node_id cfg) l in
    let a := close_events sid (bool_decide (sid ∈ read_closed_streams s)) in
    event_count TcpEventType.Connected k (tr ++ a) = Nat.b2n (l <? next_stream_id s') /\
    event_count TcpEventType.Closed k (tr ++ a) =
      Nat.b2n ((l <? next_stream_id s') && stream_closed s' k).
Proof.
  intros [Hc Hn Hfd Hconn Hread Htr] Hsid -> Hcl l Hl k a.
  destruct (Htr l Hl) as [H1 H2]. fold k in H1, H2.
  unfold a. rewrite !event_count_app, !close_events_count, H1, H2, Hcl.
  split; [rewrite bool_decide_false by done; cbn [andb Nat.b2n]; lia|].
  rewrite bool_decide_true by done. cbn [andb].
  rewrite (Z.eqb_sym k). destruct (Z.eqb_spec sid k) as [->|]; [|cbn; lia].
  destruct (Hconn k c Hsid) as (_ & l' & E & Hl'). apply stream_id_eq in E; [|lia..]. subst l'.
  destruct (Z.ltb_spec l (next_stream_id s)); [|lia]. cbn [andb].
  unfold stream_closed. rewrite (bool_decide_false (connection_by_stream s !! k = None)) by congruence.
  destruct (bool_decide (k ∈ read_closed_streams s)); done.
Qed.

Lemma inv_disconnected tr s c :
  ingress_inv cfg tr s ->
  ingress_inv cfg (tr ++ (handle_disconnected c s).1) (handle_disconnected c s).2.
Proof.
  intros Hinv. pose proof Hinv as [Hc Hn Hfd Hconn Hread Htr]. unfold handle_disconnected.
  destruct (stream_by_fd s !! conn_fd c) as [sid|] eqn:Es; [|cbn; rewrite app_nil_r; done].
  destruct (Hfd _ _ Es) as (c' & Hc' & Hfd').
  destruct (Hconn _ _ Hc') as (_ & l0 & Hl0 & Hl0r).
  assert (sid <> 0) as Hsid by (rewrite Hl0; apply stream_id_nonzero; lia).
  set (s' := mkIngress _ _ _ _ _ _). cbn [fst snd].
  assert ((if negb ((if bool_decide (sid ∈ read_closed_streams s) then 0 else sid) =? 0)
           then [Emit (ingress_event TcpEventType.Closed
                  (if bool_decide (sid ∈ read_closed_streams s) then 0 else sid) ByteView_default)]
           else []) = close_events sid (bool_decide (sid ∈ read_closed_streams s))) as ->.
  { destruct (bool_decide _); [done|]. destruct (Z.eqb_spec sid 0); done. }
  split; cbn; try done.
  - intros fd k. rewrite lookup_delete_Some. intros [Hne Hs].
    destruct (Hfd fd k Hs) as (d & Hd & <-). exists d. rewrite lookup_delete_ne; [done|].
    intros <-. congruence.
  - intros k d. rewrite lookup_delete_Some. intros [Hne Hk].
    destruct (Hconn k d Hk) as (Hf & Hl). split; [|done]. rewrite lookup_delete_ne; [done|].
    intros E. rewrite <- E in Hf. congruence.
  - intros k [Hk Hne]%elem_of_difference. rewrite lookup_delete_ne; [auto|].
    intros <-. apply Hne, elem_of_singleton. done.
  - apply (inv_close_trace tr s s' sid c' Hinv Hc'); [done|].
    intros k. unfold stream_closed, s'. cbn. destruct (Z.eqb_spec k sid) as [->|Hne].
    + rewrite lookup_delete_eq, bool_decide_true by done. done.
    + rewrite lookup_delete_ne by done. f_equal. apply bool_decide_ext.
      rewrite elem_of_difference, elem_of_singleton. tauto.
Qed.

Lemma inv_read_closed tr s c :
  ingress_inv cfg tr s ->
  ingress_inv cfg (tr ++ (handle_read_closed c s).1) (handle_read_closed c s).2.
Proof.
  intros Hinv. pose proof Hinv as [Hc Hn Hfd Hconn Hread Htr]. unfold handle_read_closed.
  destruct (stream_by_fd s !! conn_fd c) as [sid|] eqn:Es; [|cbn; rewrite app_nil_r; done].
  destruct (Hfd _ _ Es) as (c' & Hc' & Hfd').
  set (s' := mkIngress _ _ _ _ _ _).
  assert ((if bool_decide (sid ∈ read_closed_streams s) then ([], s')
           else ([Emit (ingress_event TcpEventType.Closed sid ByteView_default)], s')) =
          (close_events sid (bool_decide (sid ∈ read_closed_streams s)), s')) as ->
    by (unfold close_events; case_match; done).
  cbn [fst snd]. split; cbn; try done.
  - intros k [Hk| ->%elem_of_singleton]%elem_of_union; eauto.
  - apply (inv_close_trace tr s s' sid c' Hinv Hc'); [done|].
    intros k. unfold stream_closed, s'. cbn. destruct (Z.eqb_spec k sid) as [->|Hne].
    + rewrite (bool_decide_true (sid ∈ _)) by (rewrite elem_of_union, elem_of_singleton; auto).
      apply orb_true_r.
    + f_equal. apply bool_decide_ext. rewrite elem_of_union, elem_of_singleton. tauto.
Qed.

Lemma inv_data tr s c d :
  ingress_inv cfg tr s -> ingress_inv cfg (tr ++ (handle_data c d s).1) (handle_data c d s).2.
Proof.
  intros Hinv.
  assert (forall a fd b, (forall sid ty, ty <> TcpEventType.Data -> event_count ty sid a = 0%nat) ->
    ingress_inv cfg (tr ++ a) (with_buffer fd b s)) as Hbuf.
  { intros a fd b Ha. destruct Hinv as [Hc Hn Hfd Hconn Hread Htr]. split; cbn; try done.
    intros l Hl. rewrite !event_count_app, !Ha, !Nat.add_0_r by done. apply Htr, Hl. }
  unfold handle_data. destruct (zlen d =? 0); [cbn; rewrite app_nil_r; done|].
  destruct (stream_by_fd s !! conn_fd c) as [sid|]; [|cbn; rewrite app_nil_r; done].
  destruct (_ || _); [apply Hbuf; done|].
  destruct (deframe _ _) as [[close frames] rest]. apply Hbuf. intros k ty Hty.
  destruct close; [done|]. apply (event_count_data ty k sid frames Hty).
Qed.

Lemma ingress_reach_inv tr s : ingress_reach cfg tr s -> ingress_inv cfg tr s.
Proof.
  induction 1 as [|tr s op a s' _ IH Hallow Hstep].
  - split; cbn; try done. intros l Hl. destruct (Z.ltb_spec l 1); [lia|done].
  - destruct op as [c|c|c|c d]; cbn in Hallow, Hstep.
    + destruct Hallow. eapply inv_connected; done.
    + injection Hstep as Hstep. pose proof (inv_disconnected tr s c IH) as Hi.
      rewrite Hstep in Hi. exact Hi.
    + injection Hstep as Hstep. pose proof (inv_read_closed tr s c IH) as Hi.
      rewrite Hstep in Hi. exact Hi.
    + injection Hstep as Hstep. pose proof (inv_data tr s c d IH) as Hi.
      rewrite Hstep in Hi. exact Hi.
Qed.
End lifecycle.

(** [C32] The life cycle of a stream, in every execution in which a new connection has a descriptor
    that is not in the tables of the ingress and the 2^32 local identifiers are not used up: each
    local identifier handed out so far has produced exactly one [Connected] event, exactly one
    [Closed] event if its connection is gone or half closed and none otherwise, and identifiers not
    handed out have produced neither; the descriptor and connection tables always describe the same
    set of streams. The server reports the end of a connection after closing its descriptor and can
    break the first condition ([late_end_removes_new_stream]). *)
Theorem ingress_lifecycle cfg tr s :
  fits 32 (ingress_node_id cfg) -> ingress_reach cfg tr s ->
  (forall l, 1 <= l < 2 ^ 32 ->
     let sid := make_stream_id (ingress_node_id cfg) l in
     event_count TcpEventType.Connected sid tr = Nat.b2n (l <? next_stream_id s) /\
     event_count TcpEventType.Closed sid tr =
       Nat.b2n ((l <? next_stream_id s) && stream_closed s sid)) /\
  (forall fd sid, stream_by_fd s !! fd = Some sid <->
     exists c, connection_by_stream s !! sid = Some c /\ conn_fd c = fd).
Proof.
  intros Hnode Hr. apply ingress_reach_inv in Hr as [Hc Hn Hfd Hconn Hread Htr]; [|done].
  split; [exact Htr|]. intros fd sid. split; [apply Hfd|].
  intros (c & Hs & <-). apply (Hconn sid c Hs).
Qed.

(** Identifiers are unique across nodes and never 0: the allocation loop always
    ends, and two stream ids are equal only for the same node and local id. *)
Theorem ingress_stream_ids next node l node' l' :
  (exists k next', alloc_local_id 2 next = Some (k, next') /\ 1 <= k < 2 ^ 32) /\
  (fits 32 node -> fits 32 node' -> 1 <= l < 2 ^ 32 -> 1 <= l' < 2 ^ 32 ->
   make_stream_id node l <> 0 /\
   (make_stream_id node l = make_stream_id node' l' -> node = node' /\ l = l')).
Proof.
  split; [apply alloc_local_id_total|]. intros Hn Hn' Hl Hl'.
  rewrite !make_stream_id_eq by (done || lia). unfold fits in *. lia.
Qed.

(** ** Concrete runs *)
Module IngressDemo.
Definition demo_config : TcpIngressConfig :=
  {| ingress_enabled := true; ingress_node_id := 3; max_edge_frame_payload_size := 4 |}.
Definition demo_conn : TcpConnection := {| conn_handle := 1; conn_fd := 7 |}.
Definition demo_sid : Z := make_stream_id 3 1.
(** An ingress with one connection. *)
Definition demo_ingress : TcpIngress :=
  match handle_connection true demo_conn (ingress_init demo_config) with
  | Some (_, s) => s
  | None => ingress_init demo_config
  end.
Definition demo_frame (payload : bytes) : bytes :=
  edge_wire [x01; x02; x03; x04; x05; x06] 99 payload.

Lemma demo_frame_ok max p : zlen p <= max -> zlen p <= u32_max -> edge_frame_ok max (demo_frame p).
Proof.
  intros Hm Hu. eexists. split; [apply decode_edge_wire; [done|split; lia|done]|]. exact Hm.
Qed.

Lemma demo_max : max_edge_frame_payload_size (ingress_config demo_ingress) = 4.
Proof. vm_compute. reflexivity. Qed.

(** A frame of two bytes and a half frame, in reads of three bytes. *)
Lemma ingress_frames_exact_witness :
  let bs := demo_frame (str "ab") ++ take 10 (demo_frame (str "c")) in
  (feed demo_conn [take 3 bs; take 3 (drop 3 bs); take 3 (drop 6 bs); take 3 (drop 9 bs);
     take 3 (drop 12 bs); take 3 (drop 15 bs); take 3 (drop 18 bs); take 3 (drop 21 bs);
     take 3 (drop 24 bs); drop 27 bs] demo_ingress).1
  = data_events demo_sid [demo_frame (str "ab")].
Proof.
  intros bs.
  apply (ingress_frames_exact 2 3 demo_conn demo_sid _ demo_ingress [demo_frame (str "ab")]
           (take 10 (demo_frame (str "c")))).
  - vm_compute. split; [discriminate | reflexivity].
  - vm_compute. reflexivity.
  - vm_compute. reflexivity.
  - lia.
  - rewrite demo_max. lia.
  - repeat constructor; vm_compute; discriminate.
  - split_and!.
    + vm_compute. reflexivity.
    + repeat constructor. apply demo_frame_ok; vm_compute; discriminate.
    + left. vm_compute. reflexivity.
Defined.

Lemma ingress_pipelining_closed_witness :
  let f := demo_frame (str "abcd") in
  (feed demo_conn [take 21 f; drop 21 f ++ take 1 f] demo_ingress).1 = [ConnShutdown demo_conn].
Proof.
  apply (ingress_pipelining_closed demo_conn demo_sid demo_ingress
           (demo_frame (str "abcd")) (demo_frame (str "abcd"))).
  - vm_compute. split; [discriminate | reflexivity].
  - vm_compute. reflexivity.
  - vm_compute. reflexivity.
  - rewrite demo_max. apply demo_frame_ok; vm_compute; discriminate.
  - vm_compute. reflexivity.
  - rewrite demo_max. apply demo_frame_ok; vm_compute; discriminate.
Defined.

Lemma ingress_lifecycle_witness :
  exists tr, ingress_reach demo_config tr demo_ingress /\
    event_count TcpEventType.Connected demo_sid tr = 1%nat.
Proof.
  assert (ingress_reach demo_config
            ([] ++ [Emit (ingress_event TcpEventType.Connected demo_sid ByteView_default)])
            demo_ingress) as Hr.
  { eapply (ingress_next demo_config [] _ (OpConnected demo_conn)); [constructor| |];
      vm_compute; [split|]; reflexivity. }
  eexists. split; [exact Hr|].
  refine (proj1 (proj1 (ingress_lifecycle demo_config _ demo_ingress _ Hr) 1 _)).
  - vm_compute. split; [discriminate | reflexivity].
  - split; [discriminate | reflexivity].
Defined.

Lemma ingress_stream_ids_witness : make_stream_id 3 1 <> 0.
Proof.
  apply (proj2 (ingress_stream_ids 1 3 1 4 1)); split; (discriminate || reflexivity).
Defined.
End IngressDemo.
