(* ===== verification/Json.v ===== *)
(** JSON documents.

    The program uses the third-party nlohmann::json.  A document is modelled by its
    value kinds ([json]); parsing and dumping are parameters, the class [JsonApi]
    states what the program relies on: a dumped document parses back to the same document
    ([json_sim]).  Objects are association lists without repeated keys; [jfind] is
    [find], [jset] is [doc[key] = value], [push_back] appends to an array.  The accessors
    that throw return [None] for the exception.  [JFloat z] is a number with a fraction or
    an exponent, by its value rounded towards zero, the only thing the accessors use.  Files
    are read with [operator>>] and written with [dump(2)] ([JsonFileApi]).  [json_toy] and
    [json_file_toy] are instances, for running the model. *)
From stdpp Require Import countable.
From S2P Require Import Prelude.

#[warnings="-register-all"]
Inductive json : Type :=
  | JNull
  | JBool (b : bool)
  | JInt (z : Z)
  | JUnsigned (z : Z)
  | JFloat (z : Z)
  | JString (s : bytes)
  | JArray (l : list json)
  | JObject (kvs : list (bytes * json)).

(** [find(key)] on an object; [end()] on every other kind. *)
Fixpoint assoc (key : bytes) (kvs : list (bytes * json)) : option json :=
  match kvs with
  | [] => None
  | (k, v) :: kvs => if bool_decide (k = key) then Some v else assoc key kvs
  end.

Definition jfind (key : bytes) (doc : json) : option json :=
  match doc with
  | JObject kvs => assoc key kvs
  | _ => None
  end.

(** [doc[key] = v] on an object or on a fresh (null) document. *)
Definition jset (key : bytes) (v : json) (doc : json) : json :=
  match doc with
  | JObject kvs => JObject (filter (fun kv => kv.1 <> key) kvs ++ [(key, v)])
  | _ => JObject [(key, v)]
  end.

Definition is_object (doc : json) : bool :=
  match doc with JObject _ => true | _ => false end.

(** No object in the document repeats a key, and unsigned numbers are not negative. *)
Fixpoint json_wf (j : json) : Prop :=
  match j with
  | JUnsigned z => 0 <= z
  | JArray l => fold_right (fun x acc => json_wf x /\ acc) True l
  | JObject kvs => NoDup kvs.*1 /\ fold_right (fun kv acc => json_wf kv.2 /\ acc) True kvs
  | _ => True
  end.

(** Every string of the document is 7-bit, hence valid UTF-8: dumping such a
    document does not fail. *)
Definition ascii_bytes (s : bytes) : Prop := Forall (fun b => byte_val b < 128) s.

Fixpoint json_ascii (j : json) : Prop :=
  match j with
  | JString s => ascii_bytes s
  | JArray l => fold_right (fun x acc => json_ascii x /\ acc) True l
  | JObject kvs => fold_right (fun kv acc => (ascii_bytes kv.1 /\ json_ascii kv.2) /\ acc) True kvs
  | _ => True
  end.

(** A number that is not negative parses as an unsigned number. *)
Definition reparsed (v : json) : json :=
  match v with
  | JInt z => if 0 <=? z then JUnsigned z else v
  | _ => v
  end.

(** The scalar values the messages of the program consist of. *)
Definition scalar (v : json) : Prop :=
  match v with
  | JString _ | JInt _ => True
  | JUnsigned z => 0 <= z
  | _ => False
  end.

(** A document and what it parses back to: the same values under the same keys, in any
    order of the keys. *)
#[warnings="-register-all"]
Inductive json_sim : json -> json -> Prop :=
  | sim_null : json_sim JNull JNull
  | sim_bool b : json_sim (JBool b) (JBool b)
  | sim_int z : json_sim (JInt z) (reparsed (JInt z))
  | sim_unsigned z : json_sim (JUnsigned z) (JUnsigned z)
  | sim_float z : json_sim (JFloat z) (JFloat z)
  | sim_string s : json_sim (JString s) (JString s)
  | sim_array l l' : Forall2 json_sim l l' -> json_sim (JArray l) (JArray l')
  | sim_object kvs kvs' :
      (forall key, option_Forall2 json_sim (assoc key kvs) (assoc key kvs')) ->
      json_sim (JObject kvs) (JObject kvs').

Class JsonApi := {
  json_parse : bytes -> option json;
  json_dump : json -> bytes;
  (** The text of an object is not empty. *)
  json_dump_nonempty : forall doc, is_object doc = true -> json_dump doc <> [];
  (** The compact text is one line: control characters inside strings are escaped. *)
  json_dump_line : forall doc, x0a ∉ json_dump doc;
  (** A dumped document parses back. *)
  json_roundtrip : forall doc, json_wf doc -> json_ascii doc ->
    exists doc', json_parse (json_dump doc) = Some doc' /\ json_sim doc doc';
}.

(** [input >> doc], which reads one document from the start of a stream and throws
    ([inl], with the text of [what()]) when there is none, and [doc.dump(2)], which throws
    ([None]) when a string is not valid UTF-8. *)
Class JsonFileApi := {
  json_read : bytes -> bytes + json;
  json_pretty : json -> option bytes;
  (** A dumped document is read back, whatever follows it on a new line. *)
  json_file_roundtrip : forall doc rest, json_wf doc -> json_ascii doc -> is_object doc = true ->
    exists text doc', json_pretty doc = Some text /\
      json_read (text ++ x0a :: rest) = inr doc' /\ json_sim doc doc';
}.

Lemma json_sim_object doc doc' : json_sim doc doc' -> is_object doc' = is_object doc.
Proof. destruct 1; try done. cbn. by destruct (0 <=? z). Qed.

Lemma json_sim_find doc doc' key :
  json_sim doc doc' -> option_Forall2 json_sim (jfind key doc) (jfind key doc').
Proof. destruct 1; cbn; try constructor; [|done]. destruct (0 <=? z); constructor. Qed.

Lemma json_sim_scalar v v' : json_sim v v' -> scalar v -> v' = reparsed v.
Proof. by destruct 1. Qed.

(** A dumped object of strings and integers has the same members when it is parsed. *)
Lemma json_parse_dump `{JsonApi} doc :
  json_wf doc -> json_ascii doc -> is_object doc = true ->
  (forall key v, jfind key doc = Some v -> scalar v) ->
  exists doc', json_parse (json_dump doc) = Some doc' /\ is_object doc' = true /\
    forall key, jfind key doc' = reparsed <$> jfind key doc.
Proof.
  intros Hwf Ha Ho Hs. destruct (json_roundtrip doc Hwf Ha) as (doc' & Hp & Hsim).
  exists doc'. split; [done|]. split; [by rewrite (json_sim_object _ _ Hsim)|]. intros key.
  pose proof (json_sim_find _ _ key Hsim) as Hf. specialize (Hs key).
  destruct Hf as [v v' Hv|]; [|done]. cbn. f_equal. by apply json_sim_scalar; [|apply Hs].
Qed.

(** ** Access

    [None] is a [type_error]. *)

(** [get<std::string>()] *)
Definition get_string (v : json) : option bytes := match v with JString s => Some s | _ => None end.

(** [get<bool>()] *)
Definition get_bool (v : json) : option bool := match v with JBool b => Some b | _ => None end.

(** [get<T>()] for an unsigned type of 32 or 64 bits and for [std::int64_t]: numbers are
    converted, and the types of less than 64 bits accept booleans. *)
Definition get_u64 (v : json) : option Z :=
  match v with JInt z | JUnsigned z | JFloat z => Some (wrap 64 z) | _ => None end.

Definition get_u32 (v : json) : option Z :=
  match v with
  | JInt z | JUnsigned z | JFloat z => Some (wrap 32 z)
  | JBool b => Some (if b then 1 else 0)
  | _ => None
  end.

Definition to_i64 (z : Z) : Z := let w := wrap 64 z in if w <? 2 ^ 63 then w else w - 2 ^ 64.

Definition get_i64 (v : json) : option Z :=
  match v with JInt z | JUnsigned z | JFloat z => Some (to_i64 z) | _ => None end.

(** [long long] and [unsigned long long], which are not the 64-bit types of the library:
    they accept booleans. *)
Definition get_ll (v : json) : option Z :=
  match v with JBool b => Some (if b then 1 else 0) | _ => get_i64 v end.

Definition get_ull (v : json) : option Z :=
  match v with JBool b => Some (if b then 1 else 0) | _ => get_u64 v end.

(** [int] *)
Definition get_i32 (v : json) : option Z :=
  match v with
  | JInt z | JUnsigned z | JFloat z =>
      let w := wrap 32 z in Some (if w <? 2 ^ 31 then w else w - 2 ^ 32)
  | JBool b => Some (if b then 1 else 0)
  | _ => None
  end.

(** [doc.value(key, fallback)]: throws when [doc] is not an object, or the value does not
    convert. *)
Definition jvalue {A} (get : json -> option A) (key : bytes) (fallback : A) (doc : json) : option A :=
  match doc with
  | JObject kvs => match assoc key kvs with Some v => get v | None => Some fallback end
  | _ => None
  end.

Definition is_string (v : json) : bool := match v with JString _ => true | _ => false end.
Definition is_number_unsigned (v : json) : bool := match v with JUnsigned _ => true | _ => false end.
Definition is_number_integer (v : json) : bool := match v with JUnsigned _ | JInt _ => true | _ => false end.

Definition push_back (v : json) (doc : json) : json :=
  match doc with JArray l => JArray (l ++ [v]) | _ => JArray [v] end.

Lemma jvalue_sim {A} (get : json -> option A) key fallback doc doc' :
  json_sim doc doc' -> is_object doc = true -> (forall v v', json_sim v v' -> get v' = get v) ->
  jvalue get key fallback doc' = jvalue get key fallback doc.
Proof.
  intros Hsim Ho Hg. pose proof (json_sim_find _ _ key Hsim) as Hf. pose proof (json_sim_object _ _ Hsim) as Ho'.
  destruct doc as [| | | | | | |kvs]; try done. destruct doc' as [| | | | | | |kvs']; try done.
  cbn in *. destruct Hf as [v v' Hv|]; [by apply Hg|done].
Qed.

Lemma get_sim v v' :
  json_sim v v' ->
  get_string v' = get_string v /\ get_bool v' = get_bool v /\ get_u64 v' = get_u64 v /\
  get_u32 v' = get_u32 v /\ get_i64 v' = get_i64 v /\ get_i32 v' = get_i32 v /\
  get_ll v' = get_ll v /\ get_ull v' = get_ull v /\
  is_string v' = is_string v /\ is_number_integer v' = is_number_integer v.
Proof. destruct 1; try done. cbn [reparsed]. by destruct (0 <=? z). Qed.

(** ** Lookup and update *)

Lemma assoc_app key a b : assoc key (a ++ b) = match assoc key a with Some v => Some v | None => assoc key b end.
Proof. induction a as [|[k v] a IH]; cbn; [done|]. destruct (bool_decide (k = key)); done. Qed.

Lemma assoc_filter_ne key key' kvs :
  key <> key' -> assoc key (filter (fun kv => kv.1 <> key') kvs) = assoc key kvs.
Proof.
  intros Hne. induction kvs as [|[k v] kvs IH]; [done|].
  rewrite filter_cons. cbn [fst]. case_decide as Hk; cbn [assoc]; rewrite IH; [done|].
  destruct (decide (k = key')); [|tauto]. subst k. rewrite bool_decide_false by congruence. done.
Qed.

Lemma assoc_filter_eq key kvs : assoc key (filter (fun kv => kv.1 <> key) kvs) = None.
Proof.
  induction kvs as [|[k v] kvs IH]; [done|].
  rewrite filter_cons. cbn [fst]. case_decide as Hk; cbn [assoc]; [|done].
  rewrite bool_decide_false by done. done.
Qed.

Lemma jfind_jset key key' v doc :
  is_object doc = true \/ doc = JNull ->
  jfind key (jset key' v doc) = if bool_decide (key' = key) then Some v else jfind key doc.
Proof.
  intros Hdoc. destruct doc as [| | | | | | |kvs]; try (destruct Hdoc; done); cbn [jset jfind].
  rewrite assoc_app. case_bool_decide as E.
  - subst key'. rewrite assoc_filter_eq. cbn. rewrite bool_decide_true by done. done.
  - rewrite assoc_filter_ne by congruence. cbn. rewrite bool_decide_false by done.
    case_match; done.
Qed.

Lemma is_object_jset key v doc : is_object (jset key v doc) = true.
Proof. destruct doc; done. Qed.

Lemma fold_and_Forall {A} (P : A -> Prop) l :
  fold_right (fun x acc => P x /\ acc) True l <-> Forall P l.
Proof. induction l as [|x l IH]; cbn; [split; auto|]. rewrite IH, Forall_cons. done. Qed.

Lemma json_wf_jset key v doc : json_wf doc -> json_wf v -> json_wf (jset key v doc).
Proof.
  intros Hd Hv. destruct doc as [| | | | | | |kvs]; cbn;
    try (split_and!; [apply NoDup_singleton|done|done]).
  destruct Hd as [Hnd Hall]. rewrite fold_and_Forall in *. split.
  - rewrite fmap_app. apply NoDup_app. split_and!.
    + eapply sublist_NoDup; [exact Hnd|]. apply fmap_sublist, sublist_filter.
    + intros k Hk. cbn. rewrite list_elem_of_singleton. intros ->.
      apply list_elem_of_fmap in Hk as ([k' ?] & -> & Hk). apply list_elem_of_filter in Hk as [Hk _].
      done.
    + apply NoDup_singleton.
  - apply Forall_app. split; [|constructor; done].
    eapply Forall_forall. intros x [_ Hx]%list_elem_of_filter. rewrite Forall_forall in Hall. auto.
Qed.

Lemma json_ascii_jset key v doc :
  ascii_bytes key -> json_ascii v -> json_ascii doc -> json_ascii (jset key v doc).
Proof.
  intros Hk Hv Hd. destruct doc as [| | | | | | |kvs]; cbn; try (split; done).
  cbn in Hd. rewrite (fold_and_Forall (fun kv => ascii_bytes kv.1 /\ json_ascii kv.2)) in *.
  apply Forall_app. split; [|constructor; [split; done|constructor]].
  eapply Forall_forall. intros x [_ Hx]%list_elem_of_filter. rewrite Forall_forall in Hd. auto.
Qed.

(** ** One instance

    A self-delimiting binary notation: enough to run the model, and a proof that
    the assumption of [JsonApi] can be met. *)
Module JsonToy.

(** Trees that can be written as numbers. *)
Fixpoint to_tree (v : json) : gen_tree (nat * Z * bytes) :=
  match v with
  | JNull => GenLeaf (0%nat, 0, [])
  | JBool b => GenLeaf (1%nat, if b then 1 else 0, [])
  | JInt z | JUnsigned z => GenLeaf (2%nat, z, [])
  | JFloat z => GenLeaf (3%nat, z, [])
  | JString s => GenLeaf (4%nat, 0, s)
  | JArray l => GenNode 0 (to_tree <$> l)
  | JObject kvs => GenNode 1 ((fun kv => GenNode 2 [GenLeaf (4%nat, 0, kv.1); to_tree kv.2]) <$> kvs)
  end.

Fixpoint of_tree (t : gen_tree (nat * Z * bytes)) : json :=
  match t with
  | GenLeaf (tag, z, s) =>
      match tag with
      | 0%nat => JNull
      | 1%nat => JBool (z =? 1)
      | 2%nat => if 0 <=? z then JUnsigned z else JInt z
      | 3%nat => JFloat z
      | _ => JString s
      end
  | GenNode 0 ts => JArray (of_tree <$> ts)
  | GenNode _ ts =>
      JObject ((fun t => match t with GenNode _ [GenLeaf (_, _, k); v] => (k, of_tree v) | _ => ([], JNull) end) <$> ts)
  end.

(** The bits of a positive number as bytes. *)
Fixpoint pos_bytes (p : positive) : bytes :=
  match p with
  | xH => []
  | xO p => x00 :: pos_bytes p
  | xI p => x01 :: pos_bytes p
  end.

Fixpoint bytes_pos (l : bytes) : positive :=
  match l with
  | [] => xH
  | b :: l => if bool_decide (b = x00) then xO (bytes_pos l) else xI (bytes_pos l)
  end.

Lemma bytes_pos_bytes p : bytes_pos (pos_bytes p) = p.
Proof. induction p as [p IH|p IH|]; cbn; rewrite ?IH; done. Qed.

Lemma pos_bytes_line p : x0a ∉ pos_bytes p.
Proof. induction p; cbn; [..|set_solver]; apply not_elem_of_cons; done. Qed.

Definition toy_dump (doc : json) : bytes := x7b :: pos_bytes (encode (to_tree doc)).

Definition toy_parse (s : bytes) : option json := of_tree <$> decode (bytes_pos (tail s)).

Lemma of_to_tree : forall v, json_wf v -> json_sim v (of_tree (to_tree v)).
Proof.
  fix IH 1. intros [|b|z|z|z|s|l|kvs] Hwf; cbn [to_tree of_tree].
  - constructor.
  - destruct b; constructor.
  - apply (sim_int z).
  - cbn in Hwf. destruct (Z.leb_spec 0 z); [constructor|lia].
  - constructor.
  - constructor.
  - apply sim_array. cbn in Hwf. induction l as [|x l IHl]; cbn; constructor.
    + apply IH, Hwf.
    + apply IHl, Hwf.
  - rewrite <- list_fmap_compose. apply sim_object. intros key.
    change (option_Forall2 json_sim (assoc key kvs) (assoc key ((fun kv => (kv.1, of_tree (to_tree kv.2))) <$> kvs))).
    destruct Hwf as [_ Hwf]. induction kvs as [|[k v] kvs IHl]; cbn; [constructor|].
    case_bool_decide; [constructor; apply IH, Hwf|apply IHl, Hwf].
Qed.

Definition json_toy : JsonApi.
Proof.
  refine {| json_parse := toy_parse; json_dump := toy_dump |}; [done| |].
  { intros doc. apply not_elem_of_cons. split; [done|]. apply pos_bytes_line. }
  intros doc Hwf _. exists (of_tree (to_tree doc)). split; [|by apply of_to_tree].
  unfold toy_parse, toy_dump. cbn [tail]. rewrite bytes_pos_bytes, decode_encode. done.
Defined.

(** The text ends at the first byte that is not a bit. *)
Fixpoint bits_prefix (s : bytes) : bytes :=
  match s with
  | [] => []
  | b :: s => if bool_decide (b = x00 \/ b = x01) then b :: bits_prefix s else []
  end.

Definition toy_read (s : bytes) : bytes + json :=
  match toy_parse (x7b :: bits_prefix (tail s)) with Some doc => inr doc | None => inl (str "parse_error") end.

Lemma bits_prefix_pos p rest : bits_prefix (pos_bytes p ++ x0a :: rest) = pos_bytes p.
Proof. induction p as [p IH|p IH|]; cbn; [by rewrite IH..|done]. Qed.

Definition json_file_toy : JsonFileApi.
Proof.
  refine {| json_read := toy_read; json_pretty := fun doc => Some (toy_dump doc) |}.
  intros doc rest Hwf _ _. exists (toy_dump doc), (of_tree (to_tree doc)).
  split_and!; [done| |by apply of_to_tree]. unfold toy_read, toy_dump, toy_parse. cbn [tail app].
  rewrite bits_prefix_pos, bytes_pos_bytes, decode_encode. done.
Defined.
End JsonToy.
