(* ===== verification/EdgeMessage.v ===== *)
(** Edge messages: iota_proxy/src/business/EdgeDataMessage.cpp.

    A decoded edge frame becomes an [EdgeDataMessage], which is written to Kafka as
    JSON and read back by the broadcast source.  The main theorem is that the message
    survives this round trip. *)
From S2P Require Import Prelude KcpConv Frames Identity Json.

(** [struct EdgeDataMessage] *)
Record EdgeDataMessage := mkEdgeMessage {
  msg_mac_hex : bytes;
  msg_mac_addr : bytes;
  msg_timestamp_ms : Z;
  msg_stream_id : Z;
  msg_payload_base64 : bytes;
  msg_payload_len : Z;
  msg_origin : bytes;
  msg_message_id : bytes;
  msg_received_at_ms : Z;
}.

(** ** Text helpers *)

Definition kAlphabet : bytes :=
  str "ABCDEFGHIJKLMNOPQRSTUVWXYZabcdefghijklmnopqrstuvwxyz0123456789+/".

Definition b64_char (sextet : Z) : byte := kAlphabet !!! Z.to_nat (Z.land sextet 0x3f).

Definition b64_chunk (b0 b1 b2 : Z) : Z :=
  Z.lor (Z.lor (wrap 32 (Z.shiftl b0 16)) (wrap 32 (Z.shiftl b1 8))) b2.

(** [base64_encode]: one turn of the loop per three bytes. *)
Fixpoint base64_encode (data : bytes) : bytes :=
  match data with
  | [] => []
  | [a] =>
      let chunk := b64_chunk (byte_val a) 0 0 in
      [b64_char (Z.shiftr chunk 18); b64_char (Z.shiftr chunk 12); x3d; x3d]
  | [a; b] =>
      let chunk := b64_chunk (byte_val a) (byte_val b) 0 in
      [b64_char (Z.shiftr chunk 18); b64_char (Z.shiftr chunk 12);
       b64_char (Z.shiftr chunk 6); x3d]
  | a :: b :: c :: rest =>
      let chunk := b64_chunk (byte_val a) (byte_val b) (byte_val c) in
      b64_char (Z.shiftr chunk 18) :: b64_char (Z.shiftr chunk 12) ::
      b64_char (Z.shiftr chunk 6) :: b64_char chunk :: base64_encode rest
  end.

(** [mac_hex_to_addr]: a colon before every pair but the first. *)
Fixpoint mac_pairs (first : bool) (mac_hex : bytes) : bytes :=
  match mac_hex with
  | [] => []
  | [a] => (if first then [] else str ":") ++ [a]
  | a :: b :: rest => (if first then [] else str ":") ++ a :: b :: mac_pairs false rest
  end.

Definition mac_hex_to_addr (mac_hex : bytes) : bytes := mac_pairs true mac_hex.

(** The C locale's [tolower] and [isxdigit]. *)
Definition to_lower (b : byte) : byte :=
  let c := byte_val b in if (65 <=? c) && (c <=? 90) then to_byte (c + 32) else b.
Definition is_xdigit (b : byte) : bool :=
  let c := byte_val b in
  ((48 <=? c) && (c <=? 57)) || ((97 <=? c) && (c <=? 102)) || ((65 <=? c) && (c <=? 70)).

Definition compact_mac_hex (value : bytes) : bytes :=
  let kept := filter (fun ch => negb (bool_decide (ch = x3a) || bool_decide (ch = x2d) ||
                                      is_space ch) = true) value in
  let compact := to_lower <$> kept in
  if negb (zlen compact =? 12) then []
  else if forallb is_xdigit compact then compact
  else [].

(** [std::string::find] of a string and of a character. *)
Fixpoint find_sub (pat s : bytes) : option nat :=
  if bool_decide (take (length pat) s = pat) then Some 0%nat
  else match s with
       | [] => None
       | _ :: s => S <$> find_sub pat s
       end.

Definition mac_from_topic (topic : bytes) : bytes :=
  let marker := str "/devices/" in
  match find_sub marker topic with
  | None => []
  | Some marker_pos =>
      let mac_begin := (marker_pos + length marker)%nat in
      match find_sub (str "/") (drop mac_begin topic) with
      | None => []
      | Some n =>
          if bool_decide (take 10 (drop (mac_begin + n) topic) = str "/telemetry")
          then take n (drop mac_begin topic)
          else []
      end
  end.

(** ** Building, printing and parsing messages *)

(** [make_edge_data_message] with the clock reading [now]; [None] for [false]. *)
Definition make_edge_data_message (now stream_id : Z) (frame : ByteView)
    (metadata : BroadcastMetadata) : option EdgeDataMessage :=
  match decode_edge_data_frame frame with
  | None => None
  | Some edge =>
      let mac_hex := edge_mac_to_hex (edge_mac edge) in
      Some {| msg_mac_hex := mac_hex;
              msg_mac_addr := mac_hex_to_addr mac_hex;
              msg_timestamp_ms := edge_timestamp_ms edge;
              msg_stream_id := stream_id;
              msg_payload_base64 := base64_encode (view_bytes (edge_payload edge));
              msg_payload_len := view_size (edge_payload edge);
              msg_origin := if valid metadata then convid_to_hex (origin metadata) else [];
              msg_message_id := if valid metadata then convid_to_hex (message_id metadata) else [];
              msg_received_at_ms := now |}
  end.

Definition json_string (doc : json) (key : bytes) : bytes :=
  match jfind key doc with
  | Some (JString s) => s
  | _ => []
  end.

Definition json_u64 (doc : json) (key : bytes) : Z :=
  match jfind key doc with
  | Some (JUnsigned z) => z
  | Some (JInt z) => if z <? 0 then 0 else z
  | _ => 0
  end.

(** [a.empty() ? b : a] for the fallbacks of the parser. *)
Definition or_else (a b : bytes) : bytes := if zlen a =? 0 then b else a.

Section json.
Context `{JsonApi}.

(** [parse_edge_kafka_message_json] *)
Definition parse_edge_kafka_message_json (now : Z) (payload : ByteView)
    (metadata : BroadcastMetadata) : option EdgeDataMessage :=
  if view_empty payload then None
  else
    match json_parse (view_bytes payload) with
    | None => None
    | Some doc =>
        if negb (is_object doc) then None
        else
          let schema := json_string doc (str "schema") in
          if negb (zlen schema =? 0) && negb (bool_decide (schema = str "iota.edge.raw.v1"))
          then None
          else
            let mac_hex := compact_mac_hex (json_string doc (str "mac_hex")) in
            let mac_hex := or_else mac_hex (compact_mac_hex (json_string doc (str "mac_addr"))) in
            let mac_hex := or_else mac_hex
                             (compact_mac_hex (mac_from_topic (json_string doc (str "topic")))) in
            if zlen mac_hex =? 0 then None
            else
              let ts := json_u64 doc (str "timestamp_ms") in
              let ts := if ts =? 0 then json_u64 doc (str "timestamp") else ts in
              let origin_text := json_string doc (str "origin") in
              let id_text := or_else (json_string doc (str "message_id"))
                                     (json_string doc (str "mqtt_message_id")) in
              Some {| msg_mac_hex := mac_hex;
                      msg_mac_addr := mac_hex_to_addr mac_hex;
                      msg_timestamp_ms := ts;
                      msg_stream_id := json_u64 doc (str "stream_id");
                      msg_payload_base64 := json_string doc (str "payload_base64");
                      msg_payload_len := json_u64 doc (str "payload_len");
                      msg_origin := if valid metadata
                                    then or_else origin_text (convid_to_hex (origin metadata))
                                    else origin_text;
                      msg_message_id := if valid metadata
                                        then or_else id_text (convid_to_hex (message_id metadata))
                                        else id_text;
                      msg_received_at_ms := now |}
    end.

(** The document built by [serialize_edge_data_message_json]. *)
Definition edge_message_doc (m : EdgeDataMessage) : json :=
  let doc := JNull in
  let doc := jset (str "schema") (JString (str "iota.edge.raw.v1")) doc in
  let doc := jset (str "mac_hex") (JString (msg_mac_hex m)) doc in
  let doc := jset (str "mac_addr") (JString (msg_mac_addr m)) doc in
  let doc := jset (str "timestamp_ms") (JUnsigned (msg_timestamp_ms m)) doc in
  let doc := jset (str "stream_id") (JUnsigned (msg_stream_id m)) doc in
  let doc := jset (str "payload_base64") (JString (msg_payload_base64 m)) doc in
  let doc := jset (str "payload_len") (JUnsigned (msg_payload_len m)) doc in
  let doc := jset (str "origin") (JString (msg_origin m)) doc in
  let doc := jset (str "message_id") (JString (msg_message_id m)) doc in
  jset (str "received_at_ms") (JInt (msg_received_at_ms m)) doc.

Definition serialize_edge_data_message_json (m : EdgeDataMessage) : bytes :=
  json_dump (edge_message_doc m).
End json.

(** ** Base64 *)

(** The reference decoder. *)
Definition b64_index (c : byte) : option Z :=
  (fun p => Z.of_nat p.1) <$> list_find (fun x => x = c) kAlphabet.

Definition b64_bytes (n : nat) (chunk : Z) : bytes := take n (be_encode 3 chunk).

Fixpoint base64_decode (s : bytes) : option bytes :=
  match s with
  | [] => Some []
  | c0 :: c1 :: c2 :: c3 :: rest =>
      match b64_index c0, b64_index c1, b64_index c2, b64_index c3 with
      | Some i0, Some i1, Some i2, Some i3 =>
          (fun out => be_encode 3 (((i0 * 64 + i1) * 64 + i2) * 64 + i3) ++ out)
            <$> base64_decode rest
      | Some i0, Some i1, Some i2, None =>
          if bool_decide (c3 = x3d /\ rest = [])
          then Some (b64_bytes 2 (((i0 * 64 + i1) * 64 + i2) * 64)) else None
      | Some i0, Some i1, None, None =>
          if bool_decide (c2 = x3d /\ c3 = x3d /\ rest = [])
          then Some (b64_bytes 1 ((i0 * 64 + i1) * 64 * 64)) else None
      | _, _, _, _ => None
      end
  | _ => None
  end.

Lemma b64_char_small k : 0 <= k < 64 ->
  b64_index (kAlphabet !!! Z.to_nat k) = Some k /\ byte_val (kAlphabet !!! Z.to_nat k) < 128.
Proof.
  intros Hk.
  assert (forallb (fun n => bool_decide (b64_index (kAlphabet !!! n) = Some (Z.of_nat n)) &&
                            (byte_val (kAlphabet !!! n) <? 128)) (seq 0 64) = true) as Hall
    by (vm_compute; reflexivity).
  rewrite forallb_forall in Hall. specialize (Hall (Z.to_nat k)).
  assert (In (Z.to_nat k) (seq 0 64)) as Hin by (apply in_seq; lia).
  apply Hall in Hin. bool_norm. rewrite Z2Nat.id in H by lia. done.
Qed.

Lemma land_63 z : Z.land z 0x3f = z mod 64.
Proof. change 0x3f with (Z.ones 6). apply Z.land_ones. lia. Qed.

Lemma b64_index_char z : b64_index (b64_char z) = Some (z mod 64).
Proof. unfold b64_char. rewrite land_63. apply b64_char_small, Z.mod_pos_bound. lia. Qed.

Lemma b64_char_ascii z : byte_val (b64_char z) < 128.
Proof. unfold b64_char. rewrite land_63. apply b64_char_small, Z.mod_pos_bound. lia. Qed.

Lemma b64_chunk_eq a b c :
  0 <= a < 256 -> 0 <= b < 256 -> 0 <= c < 256 -> b64_chunk a b c = (a * 256 + b) * 256 + c.
Proof.
  intros. unfold b64_chunk, wrap. rewrite !Z.shiftl_mul_pow2 by lia. rewrite !Z.mod_small by lia.
  rewrite <- (Z.shiftl_mul_pow2 a 16), (lor_shiftl_add _ _ 16) by lia.
  replace (a * 2 ^ 16 + b * 2 ^ 8) with ((a * 256 + b) * 2 ^ 8) by lia.
  rewrite <- Z.shiftl_mul_pow2, (lor_shiftl_add _ _ 8) by lia. lia.
Qed.

(** Four sextets make up a 24-bit chunk. *)
Lemma sextets_chunk z : 0 <= z < 2 ^ 24 ->
  (((Z.shiftr z 18 mod 64) * 64 + Z.shiftr z 12 mod 64) * 64 + Z.shiftr z 6 mod 64) * 64 + z mod 64 = z.
Proof.
  intros Hz. rewrite !Z.shiftr_div_pow2 by lia.
  pose proof (Z.div_mod z 64 ltac:(lia)). pose proof (Z.div_mod (z / 2 ^ 6) 64 ltac:(lia)).
  pose proof (Z.div_mod (z / 2 ^ 12) 64 ltac:(lia)).
  assert (z / 2 ^ 6 / 64 = z / 2 ^ 12) by (rewrite Z.div_div by lia; done).
  assert (z / 2 ^ 12 / 64 = z / 2 ^ 18) by (rewrite Z.div_div by lia; done).
  assert (z / 2 ^ 18 mod 64 = z / 2 ^ 18)
    by (apply Z.mod_small; split; [apply Z.div_pos; lia|apply Z.div_lt_upper_bound; lia]).
  change (2 ^ 6) with 64 in *. lia.
Qed.

Lemma be_encode_3 a b c :
  be_encode 3 ((byte_val a * 256 + byte_val b) * 256 + byte_val c) = [a; b; c].
Proof. apply (be_encode_decode 3 [a; b; c]). done. Qed.

(** Induction three elements at a time. *)
Lemma list_ind3 {A} (P : list A -> Prop) :
  P [] -> (forall a, P [a]) -> (forall a b, P [a; b]) ->
  (forall a b c l, P l -> P (a :: b :: c :: l)) -> forall l, P l.
Proof.
  intros H0 H1 H2 H3. fix IH 1. intros [|a [|b [|c l]]]; [exact H0|apply H1|apply H2|].
  apply H3, IH.
Qed.

Lemma eq_not_b64 : b64_index x3d = None.
Proof. vm_compute. reflexivity. Qed.

(** Base64 is lossless: the reference decoder recovers the payload from the
    text [base64_encode] puts in a message, whose length is four characters for
    every three bytes begun. *)
Theorem base64_roundtrip data :
  base64_decode (base64_encode data) = Some data /\
  zlen (base64_encode data) = 4 * ((zlen data + 2) / 3).
Proof.
  induction data as [|a|a b|a b c rest [IH IHlen]] using list_ind3.
  - done.
  - pose proof (byte_val_range a). split; [|done]. cbn [base64_encode base64_decode].
    rewrite !b64_index_char, eq_not_b64, bool_decide_true by done. do 2 f_equal.
    rewrite b64_chunk_eq by lia. set (z := (byte_val a * 256 + 0) * 256 + 0).
    pose proof (sextets_chunk z ltac:(unfold z; lia)) as Hs.
    assert (z mod 64 = 0) as E0 by (unfold z; rewrite Z.mod_divide by lia; exists (byte_val a * 1024); lia).
    assert (Z.shiftr z 6 mod 64 = 0) as E1.
    { rewrite Z.shiftr_div_pow2 by lia. unfold z.
      replace ((byte_val a * 256 + 0) * 256 + 0) with (byte_val a * 1024 * 2 ^ 6) by lia.
      rewrite Z.div_mul by lia. rewrite Z.mod_divide by lia. exists (byte_val a * 16). lia. }
    rewrite E0, E1 in Hs. unfold b64_bytes.
    replace ((Z.shiftr z 18 mod 64 * 64 + Z.shiftr z 12 mod 64) * 64 * 64) with z by lia.
    unfold z. change 0 with (byte_val x00). rewrite be_encode_3. done.
  - pose proof (byte_val_range a). pose proof (byte_val_range b). split; [|done].
    cbn [base64_encode base64_decode].
    rewrite !b64_index_char, eq_not_b64, bool_decide_true by done. do 2 f_equal.
    rewrite b64_chunk_eq by lia. set (z := (byte_val a * 256 + byte_val b) * 256 + 0).
    pose proof (sextets_chunk z ltac:(unfold z; lia)) as Hs.
    assert (z mod 64 = 0) as E0
      by (unfold z; rewrite Z.mod_divide by lia; exists ((byte_val a * 256 + byte_val b) * 4); lia).
    rewrite E0 in Hs. unfold b64_bytes.
    replace (((Z.shiftr z 18 mod 64 * 64 + Z.shiftr z 12 mod 64) * 64 + Z.shiftr z 6 mod 64) * 64)
      with z by lia.
    unfold z. change 0 with (byte_val x00). rewrite be_encode_3. done.
  - pose proof (byte_val_range a). pose proof (byte_val_range b). pose proof (byte_val_range c).
    split.
    + cbn [base64_encode base64_decode]. rewrite !b64_index_char, IH, b64_chunk_eq by lia.
      rewrite sextets_chunk by lia. rewrite be_encode_3. done.
    + cbn [base64_encode]. rewrite !zlen_cons, IHlen.
      replace (1 + (1 + (1 + zlen rest)) + 2) with (zlen rest + 2 + 1 * 3) by lia.
      rewrite Z.div_add by lia. lia.
Qed.

(** ** MAC addresses *)

(** A lower-case hexadecimal digit. *)
Definition hex_ok (c : byte) : Prop :=
  bool_decide (c = x3a) || bool_decide (c = x2d) || is_space c = false /\
  to_lower c = c /\ is_xdigit c = true /\ byte_val c < 128.

#[global] Instance hex_ok_dec c : Decision (hex_ok c).
Proof. unfold hex_ok. apply _. Defined.

Lemma hex_byte_ok b : Forall hex_ok (hex_byte b).
Proof.
  assert (forallb (fun b => bool_decide (Forall hex_ok (hex_byte b)))
            (to_byte <$> (Z.of_nat <$> seq 0 256)) = true) as Hall by (vm_compute; reflexivity).
  rewrite forallb_forall in Hall. apply (bool_decide_eq_true (Forall hex_ok (hex_byte b))), Hall.
  apply list_elem_of_In, list_elem_of_fmap. exists (byte_val b). rewrite to_byte_val. split; [done|].
  apply list_elem_of_fmap. exists (Z.to_nat (byte_val b)). pose proof (byte_val_range b).
  split; [lia|]. apply elem_of_seq. lia.
Qed.

Lemma hex_text_ok l : Forall hex_ok (l ≫= hex_byte).
Proof.
  induction l as [|b l IH]; [constructor|]. rewrite bind_cons. apply Forall_app.
  split; [apply hex_byte_ok|done].
Qed.

Lemma hex_ascii s : Forall hex_ok s -> ascii_bytes s.
Proof. intros H. eapply Forall_impl; [exact H|]. intros c (_ & _ & _ & ?). done. Qed.

Lemma b64_ascii data : ascii_bytes (base64_encode data).
Proof.
  induction data as [|a|a b|a b c rest IH] using list_ind3; cbn [base64_encode];
    repeat (constructor; [first [apply b64_char_ascii | done]|]); try constructor. done.
Qed.

Lemma compact_of_filter value h :
  filter (fun ch => negb (bool_decide (ch = x3a) || bool_decide (ch = x2d) || is_space ch) = true)
    value = h -> Forall hex_ok h -> length h = 12%nat -> compact_mac_hex value = h.
Proof.
  intros Hf Hok Hlen. unfold compact_mac_hex. rewrite Hf.
  assert (to_lower <$> h = h) as ->.
  { clear Hf Hlen. induction Hok as [|c h (_ & Hc & _) _ IH]; cbn; [done|]. rewrite Hc. f_equal. exact IH. }
  unfold zlen. rewrite Hlen. cbn [negb Z.eqb].
  assert (forallb is_xdigit h = true) as ->; [|done].
  apply forallb_forall. intros c Hc%list_elem_of_In. rewrite Forall_forall in Hok.
  apply Hok in Hc as (_ & _ & Hc & _). done.
Qed.

Lemma filter_hex h :
  Forall hex_ok h ->
  filter (fun ch => negb (bool_decide (ch = x3a) || bool_decide (ch = x2d) || is_space ch) = true) h = h.
Proof.
  induction 1 as [|c h (Hc & _) _ IH]; [done|]. rewrite filter_cons, Hc, decide_True by done.
  f_equal. exact IH.
Qed.

(** Induction two elements at a time. *)
Lemma list_ind2 {A} (P : list A -> Prop) :
  P [] -> (forall a, P [a]) -> (forall a b l, P l -> P (a :: b :: l)) -> forall l, P l.
Proof. intros H0 H1 H2. fix IH 1. intros [|a [|b l]]; [exact H0|apply H1|]. apply H2, IH. Qed.

Lemma filter_mac_pairs h first :
  Forall hex_ok h ->
  filter (fun ch => negb (bool_decide (ch = x3a) || bool_decide (ch = x2d) || is_space ch) = true)
    (mac_pairs first h) = h.
Proof.
  revert first. induction h as [|a|a b h IH] using list_ind2; intros first Hok; cbn [mac_pairs]; [done|..];
    rewrite filter_app;
    (replace (filter _ (if first then [] else str ":")) with (@nil byte) by (destruct first; done)); cbn [app].
  - apply filter_hex. done.
  - apply Forall_cons in Hok as [(Ha & _) Hok]. apply Forall_cons in Hok as [(Hb & _) Hok].
    rewrite !filter_cons, Ha, Hb, !decide_True by done. do 2 f_equal. apply IH. done.
Qed.

Lemma compact_mac_id mac :
  length mac = kEdgeMacSize -> compact_mac_hex (edge_mac_to_hex mac) = edge_mac_to_hex mac.
Proof.
  intros Hm. pose proof (hex_text_ok mac : Forall hex_ok (edge_mac_to_hex mac)) as Hok.
  apply compact_of_filter; [apply filter_hex; done|done|].
  unfold edge_mac_to_hex. rewrite length_hex, Hm. done.
Qed.

(** MAC addresses are normalised: the compact form of a MAC is itself, the
    colon-separated form compacts back to it, and whatever [compact_mac_hex] accepts
    it turns into twelve hexadecimal digits. *)
Theorem mac_normalisation mac value :
  length mac = kEdgeMacSize ->
  compact_mac_hex (edge_mac_to_hex mac) = edge_mac_to_hex mac /\
  compact_mac_hex (mac_hex_to_addr (edge_mac_to_hex mac)) = edge_mac_to_hex mac /\
  (compact_mac_hex value <> [] ->
   length (compact_mac_hex value) = 12%nat /\ forallb is_xdigit (compact_mac_hex value) = true).
Proof.
  intros Hm. assert (length (edge_mac_to_hex mac) = 12%nat) as Hlen
    by (unfold edge_mac_to_hex; rewrite length_hex, Hm; done).
  pose proof (hex_text_ok mac : Forall hex_ok (edge_mac_to_hex mac)) as Hok. split_and!.
  - apply compact_mac_id; done.
  - apply compact_of_filter; [apply filter_mac_pairs|..]; done.
  - unfold compact_mac_hex. case_match eqn:E; [done|]. case_match eqn:Ex; [|done]. intros _.
    bool_norm. unfold zlen in E. split; [lia|done].
Qed.

Lemma mac_normalisation_witness :
  compact_mac_hex (mac_hex_to_addr (str "0a1b2c3d4e5f")) = str "0a1b2c3d4e5f".
Proof.
  exact (proj1 (proj2 (mac_normalisation [x0a; x1b; x2c; x3d; x4e; x5f] [] eq_refl))).
Defined.

(** ** From frame to Kafka and back *)
Section roundtrip.
Context `{JsonApi}.

Definition with_received (now : Z) (m : EdgeDataMessage) : EdgeDataMessage :=
  {| msg_mac_hex := msg_mac_hex m; msg_mac_addr := msg_mac_addr m;
     msg_timestamp_ms := msg_timestamp_ms m; msg_stream_id := msg_stream_id m;
     msg_payload_base64 := msg_payload_base64 m; msg_payload_len := msg_payload_len m;
     msg_origin := msg_origin m; msg_message_id := msg_message_id m; msg_received_at_ms := now |}.

(** What [make_edge_data_message] guarantees about its result. *)
Record message_ok (m : EdgeDataMessage) : Prop := {
  mok_mac : exists mac, length mac = kEdgeMacSize /\ msg_mac_hex m = edge_mac_to_hex mac;
  mok_addr : msg_mac_addr m = mac_hex_to_addr (msg_mac_hex m);
  mok_numbers : 0 <= msg_timestamp_ms m /\ 0 <= msg_stream_id m /\ 0 <= msg_payload_len m;
  mok_text : ascii_bytes (msg_payload_base64 m) /\ ascii_bytes (msg_origin m) /\
             ascii_bytes (msg_message_id m);
}.

Lemma mac_pairs_ascii first h : Forall hex_ok h -> ascii_bytes (mac_pairs first h).
Proof.
  revert first. induction h as [|a|a b h IH] using list_ind2; intros first Hok; cbn [mac_pairs];
    [constructor|..]; apply hex_ascii in Hok as Ha; apply Forall_app;
    (split; [destruct first; repeat constructor|]).
  - done.
  - apply Forall_cons in Ha as [Ha1 Ha]. apply Forall_cons in Ha as [Ha2 _].
    constructor; [done|]. constructor; [done|]. apply IH.
    apply Forall_cons in Hok as [_ Hok]. apply Forall_cons in Hok as [_ Hok]. done.
Qed.

Lemma make_message_ok now sid frame md m :
  0 <= sid -> make_edge_data_message now sid frame md = Some m -> message_ok m.
Proof.
  intros Hsid. unfold make_edge_data_message.
  destruct (decode_edge_data_frame frame) as [edge|] eqn:E; [|done]. intros [= <-].
  apply decode_edge_inv in E as (p & _ & Hp & Hm & Hts & Hlen).
  split; cbn; [eauto|done|..].
  - split_and!; [apply Hts|done|apply zlen_nonneg].
  - split_and!; [apply b64_ascii|..]; (destruct (valid md); [apply hex_ascii, hex_text_ok|constructor]).
Qed.

Lemma edge_doc_eq m : edge_message_doc m =
  JObject [(str "schema", JString (str "iota.edge.raw.v1")); (str "mac_hex", JString (msg_mac_hex m));
           (str "mac_addr", JString (msg_mac_addr m)); (str "timestamp_ms", JUnsigned (msg_timestamp_ms m));
           (str "stream_id", JUnsigned (msg_stream_id m));
           (str "payload_base64", JString (msg_payload_base64 m));
           (str "payload_len", JUnsigned (msg_payload_len m)); (str "origin", JString (msg_origin m));
           (str "message_id", JString (msg_message_id m));
           (str "received_at_ms", JInt (msg_received_at_ms m))].
Proof. vm_compute. reflexivity. Qed.

Lemma edge_doc_fields m :
  jfind (str "schema") (edge_message_doc m) = Some (JString (str "iota.edge.raw.v1")) /\
  jfind (str "mac_hex") (edge_message_doc m) = Some (JString (msg_mac_hex m)) /\
  jfind (str "timestamp_ms") (edge_message_doc m) = Some (JUnsigned (msg_timestamp_ms m)) /\
  jfind (str "timestamp") (edge_message_doc m) = None /\
  jfind (str "stream_id") (edge_message_doc m) = Some (JUnsigned (msg_stream_id m)) /\
  jfind (str "payload_base64") (edge_message_doc m) = Some (JString (msg_payload_base64 m)) /\
  jfind (str "payload_len") (edge_message_doc m) = Some (JUnsigned (msg_payload_len m)) /\
  jfind (str "origin") (edge_message_doc m) = Some (JString (msg_origin m)) /\
  jfind (str "message_id") (edge_message_doc m) = Some (JString (msg_message_id m)) /\
  jfind (str "mqtt_message_id") (edge_message_doc m) = None.
Proof. split_and!; vm_compute; reflexivity. Qed.

Lemma ascii_str_dec s : forallb (fun b => byte_val b <? 128) s = true -> ascii_bytes s.
Proof.
  intros Hs. apply Forall_forall. intros b Hb%list_elem_of_In. rewrite forallb_forall in Hs.
  apply Hs in Hb. bool_norm. done.
Qed.

(** The serialized document satisfies what [JsonApi] asks for. *)
Lemma edge_doc_dumps m :
  message_ok m ->
  json_wf (edge_message_doc m) /\ json_ascii (edge_message_doc m) /\
  is_object (edge_message_doc m) = true /\
  (forall key v, jfind key (edge_message_doc m) = Some v -> scalar v).
Proof.
  intros [(mac & Hmac & Hhex) Haddr (Ht & Hs & Hl) (Hb & Ho & Hi)]. rewrite edge_doc_eq.
  pose proof (hex_text_ok mac : Forall hex_ok (edge_mac_to_hex mac)) as Hok. split_and!.
  - cbn. split; [|split_and!; done].
    apply (bool_decide_eq_true (NoDup _)). vm_compute. reflexivity.
  - cbn. rewrite Haddr, Hhex. pose proof (hex_ascii _ Hok). pose proof (mac_pairs_ascii true _ Hok).
    split_and!; try done; apply ascii_str_dec; vm_compute; reflexivity.
  - done.
  - intros key v. cbn [jfind]. cbn [assoc].
    repeat (case_bool_decide; [intros [= <-]; done|]). done.
Qed.

(** [C34] The message a node publishes to Kafka is the one its readers reconstruct:
    parsing the serialized form of a message made from an edge frame gives back every
    field (MAC, timestamp, stream, Base64 payload and its length, origin, message id),
    only the receive time is the reader's. *)
Theorem edge_message_roundtrip now now' sid frame md m :
  0 <= sid -> make_edge_data_message now sid frame md = Some m ->
  parse_edge_kafka_message_json now' (view_of (serialize_edge_data_message_json m))
    BroadcastMetadata_default = Some (with_received now' m).
Proof.
  intros Hsid Hmake. apply make_message_ok in Hmake as Hok; [|done].
  destruct (edge_doc_dumps m Hok) as (Hwf & Hasc & Hobj & Hsc).
  destruct (json_parse_dump _ Hwf Hasc Hobj Hsc) as (doc & Hparse & Hdoc & Hfind).
  unfold parse_edge_kafka_message_json, serialize_edge_data_message_json.
  pose proof (json_dump_nonempty _ Hobj) as Hne. unfold view_empty. rewrite view_size_of.
  destruct (Z.eqb_spec (zlen (json_dump (edge_message_doc m))) 0) as [E|_];
    [apply zlen_zero in E; done|].
  cbn [view_bytes view_of view_data default]. unfold id. rewrite Hparse, Hdoc. cbn [negb].
  destruct (edge_doc_fields m) as (F1 & F2 & F3 & F4 & F5 & F6 & F7 & F8 & F9 & F10).
  destruct Hok as [(mac & Hmac & Hhex) Haddr (Ht & Hs & Hl) _].
  assert (zlen (msg_mac_hex m) = 12) as Hlen
    by (rewrite Hhex; unfold zlen, edge_mac_to_hex; rewrite length_hex, Hmac; done).
  assert (compact_mac_hex (msg_mac_hex m) = msg_mac_hex m) as Ec
    by (rewrite Hhex; apply compact_mac_id; done).
  pose proof (Hfind (str "schema")) as D1. pose proof (Hfind (str "mac_hex")) as D2.
  pose proof (Hfind (str "timestamp_ms")) as D3. pose proof (Hfind (str "timestamp")) as D4.
  pose proof (Hfind (str "stream_id")) as D5. pose proof (Hfind (str "payload_base64")) as D6.
  pose proof (Hfind (str "payload_len")) as D7. pose proof (Hfind (str "origin")) as D8.
  pose proof (Hfind (str "message_id")) as D9. pose proof (Hfind (str "mqtt_message_id")) as D10.
  rewrite ?F1, ?F2, ?F3, ?F4, ?F5, ?F6, ?F7, ?F8, ?F9, ?F10 in *.
  unfold json_string, json_u64. rewrite D1, D2. cbn [fmap option_fmap option_map reparsed].
  rewrite Ec, bool_decide_true, andb_false_r by done.
  assert (forall x, or_else (msg_mac_hex m) x = msg_mac_hex m) as Eor
    by (intros x; unfold or_else; rewrite Hlen; done).
  rewrite !Eor, Hlen, D3, D4, D5, D6, D7, D8, D9, D10. cbn.
  unfold with_received. f_equal. f_equal; [symmetry; exact Haddr| |].
  - destruct (Z.eqb_spec (msg_timestamp_ms m) 0); congruence.
  - unfold or_else. destruct (Z.eqb_spec (zlen (msg_message_id m)) 0) as [E|]; [|done].
    apply zlen_zero in E. congruence.
Qed.
End roundtrip.

Lemma edge_message_roundtrip_witness :
  let frame := view_of (edge_wire [x01; x02; x03; x04; x05; x06] 99 (str "hi")) in
  exists m, make_edge_data_message 1 7 frame BroadcastMetadata_default = Some m /\
    @parse_edge_kafka_message_json JsonToy.json_toy 5
      (view_of (@serialize_edge_data_message_json JsonToy.json_toy m)) BroadcastMetadata_default
    = Some (with_received 5 m).
Proof.
  intros frame. eexists. split; [vm_compute; reflexivity|].
  apply (@edge_message_roundtrip JsonToy.json_toy 1 5 7 frame BroadcastMetadata_default);
    [lia|vm_compute; reflexivity].
Defined.
