(* ===== verification/KcpSession.v ===== *)
(** One KCP connection: myring/src/Kcp/KcpSession.cpp.

    The protocol machine below it is the vendored C library ikcp (myring/thirdparty/ikcp), seen
    through the class [Ikcp]: a control block and the functions the session calls.  The library
    hands datagrams to its output callback only inside [ikcp_update] and ignores what the callback
    returns, so [ikcp_update] returns the datagrams it wrote.  [ikcp_recv] returns the number and
    the bytes it stored in the buffer. *)
From S2P Require Import Prelude KcpConv Identity.

Class Ikcp := {
  ikcpcb : Type;
  ikcp_create : KcpConv -> ikcpcb;
  ikcp_setmtu : ikcpcb -> Z -> ikcpcb;
  ikcp_wndsize : ikcpcb -> Z -> Z -> ikcpcb;
  ikcp_nodelay : ikcpcb -> Z -> Z -> Z -> Z -> ikcpcb;
  ikcp_input : ikcpcb -> bytes -> Z * ikcpcb;
  ikcp_update : ikcpcb -> Z -> list bytes * ikcpcb;
  ikcp_check : ikcpcb -> Z -> Z;
  ikcp_peeksize : ikcpcb -> Z;
  ikcp_recv : ikcpcb -> Z -> (Z * bytes) * ikcpcb;
  ikcp_send : ikcpcb -> bytes -> Z * ikcpcb;
}.

(** What the receiving side of ikcp promises: the messages that can be read now are a finite
    sequence; [ikcp_peeksize] is the size of the next one, negative if there is none, and
    [ikcp_recv] with a buffer of at least this size returns and removes it. *)
Class IkcpReceive (K : Ikcp) := {
  ikcp_ready : ikcpcb -> list bytes;
  ikcp_ready_none : forall k, ikcp_ready k = [] <-> ikcp_peeksize k < 0;
  ikcp_ready_size : forall k m ms, ikcp_ready k = m :: ms -> ikcp_peeksize k = zlen m;
  ikcp_ready_recv : forall k m ms len, ikcp_ready k = m :: ms -> zlen m <= len ->
    exists k', ikcp_recv k len = ((zlen m, m), k') /\ ikcp_ready k' = ms;
}.

(** A [sockaddr] with its family; the proxy uses IPv4 addresses only.  A pointer to one is an
    option, and its length is an argument of its own, as in the code. *)
Definition AF_INET : Z := 2.
Definition sizeof_sockaddr_in : Z := 16.
Definition sizeof_sockaddr_storage : Z := 128.

Record sockaddr := mkSock { sa_family : Z; sa_in : sockaddr_in }.

Definition sockaddr_zero : sockaddr :=
  mkSock 0 (mkSockaddr [x00; x00] [x00; x00; x00; x00]).

Record KcpSessionConfig := {
  mtu : Z;
  sndwnd : Z;
  rcvwnd : Z;
  nodelay : Z;
  interval : Z;
  resend : Z;
  nc : Z;
  session_recv_buffer_size : Z;
}.

Definition default_session_config : KcpSessionConfig :=
  {| mtu := 1400; sndwnd := 128; rcvwnd := 128; nodelay := 1; interval := 20; resend := 2;
     nc := 1; session_recv_buffer_size := 64 * 1024 |}.

Section session.
Context {I : Ikcp}.

(** [class KcpSession].  [output_] says whether the callback is set, [recv_capacity] is the
    capacity of the buffer [recv_buffer_]. *)
Record KcpSession := mkSession {
  session_conv : KcpConv;
  session_peer : sockaddr;
  session_peer_len : Z;
  output_ : bool;
  recv_capacity : Z;
  kcp_ : option ikcpcb;
  session_config : KcpSessionConfig;
}.

Definition with_kcp (k : ikcpcb) (s : KcpSession) : KcpSession :=
  mkSession (session_conv s) (session_peer s) (session_peer_len s) (output_ s) (recv_capacity s)
    (Some k) (session_config s).

(** [assign_peer]: the stored address and length. *)
Definition assign_peer (peer : option sockaddr) (peer_len : Z) : sockaddr * Z :=
  match peer with
  | None => (sockaddr_zero, 0)
  | Some a =>
      if (peer_len =? 0) || (sizeof_sockaddr_storage <? peer_len) then (sockaddr_zero, 0)
      else (a, peer_len)
  end.

(** [configure] *)
Definition configure (c : KcpSessionConfig) (k : ikcpcb) : ikcpcb :=
  let k := if 0 <? mtu c then ikcp_setmtu k (mtu c) else k in
  let k := ikcp_wndsize k (sndwnd c) (rcvwnd c) in
  ikcp_nodelay k (nodelay c) (interval c) (resend c) (nc c).

(** The constructor; [created] says whether [ikcp_create] found memory. *)
Definition new_KcpSession (created : bool) (conv : KcpConv) (peer : option sockaddr)
    (peer_len : Z) (output : bool) (c : KcpSessionConfig) : KcpSession :=
  let '(a, len) := assign_peer peer peer_len in
  let capacity :=
    if session_recv_buffer_size c =? 0 then 64 * 1024 else session_recv_buffer_size c in
  let k := if created then Some (configure c (ikcp_create conv)) else None in
  mkSession conv a len output capacity k c.

Definition session_valid (s : KcpSession) : bool :=
  match kcp_ s with None => false | Some _ => negb (session_peer_len s =? 0) && output_ s end.

(** [handle_output], reached through [output_bridge]: the arguments of the call of the output
    callback, if it is made. *)
Definition handle_output (s : KcpSession) (buf : bytes) : option (sockaddr * Z * bytes) :=
  if negb (output_ s) || (zlen buf <=? 0) then None
  else Some (session_peer s, session_peer_len s, buf).

(** [input_packet]: the result, the datagrams for the output callback and the new session. *)
Definition input_packet (s : KcpSession) (data : bytes) (now_ms : Z)
    : Z * list bytes * KcpSession :=
  match kcp_ s with
  | None => (-1, [], s)
  | Some k =>
      if (zlen data =? 0) || (i64_max <? zlen data) then (-1, [], s)
      else
        let '(ret, k) := ikcp_input k data in
        if ret <? 0 then (ret, [], with_kcp k s)
        else let '(out, k) := ikcp_update k now_ms in (ret, out, with_kcp k s)
  end.

(** [send_app_data] *)
Definition send_app_data (s : KcpSession) (data : bytes) (now_ms : Z)
    : Z * list bytes * KcpSession :=
  match kcp_ s with
  | None => (-1, [], s)
  | Some k =>
      if (zlen data =? 0) || (2 ^ 31 - 1 <? zlen data) then (-1, [], s)
      else
        let '(ret, k) := ikcp_send k data in
        if ret <? 0 then (ret, [], with_kcp k s)
        else let '(out, k) := ikcp_update k now_ms in (ret, out, with_kcp k s)
  end.

(** [update] *)
Definition session_update (s : KcpSession) (now_ms : Z) : list bytes * KcpSession :=
  match kcp_ s with
  | None => ([], s)
  | Some k => let '(out, k) := ikcp_update k now_ms in (out, with_kcp k s)
  end.

(** [check], a 32-bit time. *)
Definition session_check (s : KcpSession) (now_ms : Z) : Z :=
  match kcp_ s with None => now_ms | Some k => wrap 32 (ikcp_check k now_ms) end.

(** The loop of [drain_messages]: the messages handed to the callback, in order.  A message that
    fits is read into [recv_buffer_], whose length is set to the result and cut to the
    capacity; another one is read into a string of its size.  [None]: out of fuel. *)
Fixpoint drain_loop (fuel : nat) (capacity : Z) (k : ikcpcb) : option (list bytes * ikcpcb) :=
  match fuel with
  | O => None
  | S fuel =>
      let peek := ikcp_peeksize k in
      if peek <=? 0 then Some ([], k)
      else
        let '((n, data), k') := ikcp_recv k peek in
        if n <=? 0 then Some ([], k')
        else
          let message :=
            if peek <=? capacity then take (Z.to_nat (Z.min n capacity)) data
            else take (Z.to_nat n) data in
          r ← drain_loop fuel capacity k';
          Some (message :: r.1, r.2)
  end.

Definition drain_messages (fuel : nat) (s : KcpSession) : option (list bytes * KcpSession) :=
  match kcp_ s with
  | None => Some ([], s)
  | Some k =>
      r ← drain_loop fuel (recv_capacity s) k;
      Some (r.1, with_kcp r.2 s)
  end.

(** ** Draining *)

(** The messages up to the first empty one. *)
Fixpoint before_empty (ms : list bytes) : list bytes :=
  match ms with
  | [] => []
  | m :: ms => if zlen m =? 0 then [] else m :: before_empty ms
  end.

Fixpoint from_empty (ms : list bytes) : list bytes :=
  match ms with
  | [] => []
  | m :: rest => if zlen m =? 0 then ms else from_empty rest
  end.

Lemma before_from_empty ms : before_empty ms ++ from_empty ms = ms.
Proof. induction ms as [|m ms IH]; simpl; [done|]. case_cond; simpl; congruence. Qed.

Lemma before_empty_all ms : [] ∉ ms -> before_empty ms = ms /\ from_empty ms = [].
Proof.
  induction ms as [|m ms IH]; simpl; [done|]. rewrite not_elem_of_cons. intros [Hm Hms].
  case_cond; bool_norm; [apply zlen_zero in E; congruence|].
  destruct (IH Hms) as [-> ->]. done.
Qed.

Context {R : IkcpReceive I}.

Lemma drain_loop_spec capacity : forall fuel k,
  (length (ikcp_ready k) < fuel)%nat ->
  exists k', drain_loop fuel capacity k = Some (before_empty (ikcp_ready k), k') /\
             ikcp_ready k' = from_empty (ikcp_ready k).
Proof.
  induction fuel as [|fuel IH]; intros k Hf; [lia|]. cbn [drain_loop].
  destruct (ikcp_ready k) as [|m ms] eqn:Er.
  - pose proof (proj1 (ikcp_ready_none k) Er). rewrite (proj2 (Z.leb_le _ _)) by lia. eauto.
  - rewrite (ikcp_ready_size k m ms Er). cbn [before_empty from_empty].
    pose proof (zlen_nonneg m).
    destruct (zlen m =? 0) eqn:E0; bool_norm.
    { rewrite (proj2 (Z.leb_le _ _)) by lia. exists k. rewrite Er. done. }
    rewrite (proj2 (Z.leb_gt _ _)) by lia.
    destruct (ikcp_ready_recv k m ms (zlen m) Er ltac:(lia)) as (k1 & -> & Er1).
    rewrite (proj2 (Z.leb_gt _ _)) by lia.
    destruct (IH k1) as (k2 & -> & Hk2); [rewrite Er1; simpl in Hf; lia|].
    exists k2. rewrite Hk2, Er1. cbn. split; [|done]. do 3 f_equal.
    case_cond; bool_norm; apply take_ge; unfold zlen in *; lia.
Qed.

(** Draining a session terminates; it hands over the messages that are ready, in order and
    complete, whatever the capacity of the buffer, up to the first empty message.  An empty
    message is never removed: it and everything behind it stay in the session. *)
Theorem drain_messages_spec s k fuel :
  kcp_ s = Some k -> (length (ikcp_ready k) < fuel)%nat ->
  exists k', drain_messages fuel s = Some (before_empty (ikcp_ready k), with_kcp k' s) /\
             before_empty (ikcp_ready k) ++ ikcp_ready k' = ikcp_ready k /\
             ([] ∉ ikcp_ready k -> ikcp_ready k' = []).
Proof.
  intros Hk Hf. unfold drain_messages. rewrite Hk.
  destruct (drain_loop_spec (recv_capacity s) fuel k Hf) as (k' & -> & Hk').
  exists k'. rewrite Hk'. split; [done|]. split; [apply before_from_empty|].
  intros ?. apply before_empty_all. done.
Qed.
End session.
