(* ===== verification/KcpManager.v ===== *)
(** The KCP manager and its UDP dispatcher: myring/src/Kcp/KcpManager.cpp and
    myring/src/Kcp/UdpDispatcher.cpp.

    All sessions belong to one thread, the loop of the dispatcher's [ProactorThread].  Requests
    are pushed to its queue by any thread; the loop takes them out one by one, runs the callback
    of a posted request at once and gives the others to the kernel, which completes them in any
    order.  A callback is a constructor of [Request] here, with the values the lambda captured.
    The operations are computations [K A] over the state [KState]; the class [KcpEnv] gives what
    comes from outside, and [ticks] counts the questions, so that every answer can differ.
    A push finds room in the queue; [ProactorThread] describes the queue itself.  Stopping takes
    two steps, since the loop goes on until it is joined. *)
From S2P Require Import Prelude KcpConv Identity KcpSession.

(** ** Time *)

Definition kcp_now_ms (mono_ms : Z) : Z := Z.land mono_ms 0xffffffff.

(** The conversion to a signed 32-bit integer. *)
Definition to_i32 (z : Z) : Z :=
  let w := wrap 32 z in if w <? 2 ^ 31 then w else w - 2 ^ 32.

Definition kcp_time_reached (now_ms due_ms : Z) : bool := 0 <=? to_i32 (wrap 32 (now_ms - due_ms)).

Definition kcp_delay_ms (now_ms due_ms : Z) : Z :=
  if kcp_time_reached now_ms due_ms then 1 else wrap 32 (due_ms - now_ms).

(** ** Heaps of the standard library

    [std::push_heap] and [std::pop_heap] as the standard specifies them: a heap has no element
    that its parent is ordered after; pushing turns a heap with one element behind it into a heap;
    popping moves the front to the back and leaves a heap before it. *)
Definition is_heap {A} (comp : A -> A -> bool) (l : list A) : Prop :=
  forall i a b, (0 < i)%nat -> l !! i = Some b -> l !! ((i - 1) / 2)%nat = Some a ->
    comp a b = false.

Class HeapAlgorithms {A} (comp : A -> A -> bool) := {
  push_heap : list A -> list A;
  pop_heap : list A -> list A;
  push_heap_spec : forall l x, is_heap comp l ->
    push_heap (l ++ [x]) ≡ₚ l ++ [x] /\ is_heap comp (push_heap (l ++ [x]));
  pop_heap_spec : forall x l, is_heap comp (x :: l) ->
    exists l', pop_heap (x :: l) = l' ++ [x] /\ l' ≡ₚ l /\ is_heap comp l';
}.

(** ** Data *)

(** [struct KcpSessionKey], without the field [reserved], which is always 0 and never compared;
    address and port are the bytes in network order. *)
Record KcpSessionKey := mkKey { addr_be : bytes; port_be : bytes; key_conv : KcpConv }.

#[global] Instance KcpSessionKey_eq_dec : EqDecision KcpSessionKey.
Proof. solve_decision. Defined.

#[global] Instance KcpSessionKey_countable : Countable KcpSessionKey.
Proof.
  apply (inj_countable' (fun k => (addr_be k, port_be k, key_conv k))
           (fun t => mkKey t.1.1 t.1.2 t.2)).
  intros []; reflexivity.
Defined.

Definition zero_addr : bytes := [x00; x00; x00; x00].
Definition zero_port : bytes := [x00; x00].

(** The constructor from an address. *)
Definition make_key (conv : KcpConv) (peer : option sockaddr) (peer_len : Z) : KcpSessionKey :=
  match peer with
  | None => mkKey zero_addr zero_port conv
  | Some a =>
      if (peer_len <? sizeof_sockaddr_in) || negb (sa_family a =? AF_INET)
      then mkKey zero_addr zero_port conv
      else mkKey (sin_addr (sa_in a)) (sin_port (sa_in a)) conv
  end.

Definition key_valid (k : KcpSessionKey) : bool :=
  (negb (bool_decide (addr_be k = zero_addr)) || negb (bool_decide (port_be k = zero_port))) &&
  negb (conv_empty (key_conv k)).

Definition make_ipv4_addr (k : KcpSessionKey) : sockaddr :=
  mkSock AF_INET (mkSockaddr (port_be k) (addr_be k)).

(** [extract_conv]: the first 32 bytes. *)
Definition extract_conv (data : bytes) : option KcpConv :=
  if zlen data <? Z.of_nat kConvSize then None else Some (mkConv (take kConvSize data)).

(** The requests pushed to the loop, by the callback they carry. *)
Inductive Request :=
  | UdpRecvRequest
  | UdpSendRequest (peer : sockaddr) (peer_len : Z) (data : bytes)
  | TimeoutRequest (timeout_ms : Z) (tick_seq : Z)
  | PostFirstTick
  | PostSend (key : KcpSessionKey) (payload : bytes).

#[global] Instance sockaddr_in_eq_dec : EqDecision sockaddr_in.
Proof. solve_decision. Defined.

#[global] Instance sockaddr_eq_dec : EqDecision sockaddr.
Proof. solve_decision. Defined.

#[global] Instance Request_eq_dec : EqDecision Request.
Proof. solve_decision. Defined.

(** [class UdpDispatcher] with the loop it owns: [io_running] is the flag of the thread,
    [queue_] its submissions, [inflight_] the requests given to the kernel.  [closed_fds] are the
    descriptors closed so far. *)
Record UdpDispatcher := mkDispatcher {
  socket_fd_ : Z;
  recv_buffer_size_ : Z;
  d_running_ : bool;
  d_callback : bool;
  io_running : bool;
  queue_ : list Request;
  inflight_ : list Request;
  closed_fds : list Z;
}.

Record TimerNode := mkTimer { due_mono_ms : Z; timer_seq : Z; timer_key : KcpSessionKey }.

#[global] Instance TimerNode_eq_dec : EqDecision TimerNode.
Proof. solve_decision. Defined.

Definition TimerNodeGreater (lhs rhs : TimerNode) : bool := due_mono_ms rhs <? due_mono_ms lhs.

(** What comes from outside: the steady clock in milliseconds, whether [ikcp_create] and the
    request pools find memory, and the calls that create and bind a socket. *)
Class KcpEnv := {
  env_clock : nat -> Z;
  env_create : nat -> bool;
  env_request : nat -> bool;
  env_socket : nat -> option Z;
  env_bind : nat -> sockaddr_in -> bool;
  env_pton : bytes -> option bytes;
}.

Section manager.
Context {I : Ikcp} {E : KcpEnv} {H : HeapAlgorithms TimerNodeGreater}.

Record SessionEntry := mkEntry {
  entry_session : KcpSession;
  last_active_mono_ms : Z;
  next_due_mono_ms : Z;
  schedule_seq : Z;
}.

Record KcpManager := mkManager {
  running_ : bool;
  sessions_ : gmap KcpSessionKey SessionEntry;
  timer_heap_ : list TimerNode;
  has_callback : bool;
  session_config_ : KcpSessionConfig;
  idle_timeout_ms_ : Z;
  fallback_tick_ms_ : Z;
  next_idle_gc_mono_ms_ : Z;
  armed_tick_due_mono_ms_ : Z;
  armed_tick_seq_ : Z;
}.

(** The manager, its dispatcher, the messages handed to the message callback so far. *)
Record KState := mkK {
  mgr : KcpManager;
  dispatcher_ : UdpDispatcher;
  delivered : list (KcpSessionKey * bytes);
  ticks : nat;
}.

Definition K (A : Type) : Type := KState -> A * KState.

#[global] Instance K_ret : MRet K := fun A x s => (x, s).
#[global] Instance K_bind : MBind K := fun A B f m s => let '(x, s) := m s in f x s.

Definition gets {A} (f : KState -> A) : K A := fun s => (f s, s).
Definition modify_mgr (f : KcpManager -> KcpManager) : K unit :=
  fun s => (tt, mkK (f (mgr s)) (dispatcher_ s) (delivered s) (ticks s)).
Definition modify_dispatcher (f : UdpDispatcher -> UdpDispatcher) : K unit :=
  fun s => (tt, mkK (mgr s) (f (dispatcher_ s)) (delivered s) (ticks s)).
Definition deliver (key : KcpSessionKey) (data : bytes) : K unit :=
  fun s => (tt, mkK (mgr s) (dispatcher_ s) (delivered s ++ [(key, data)]) (ticks s)).
Definition ask {A} (f : nat -> A) : K A :=
  fun s => (f (ticks s), mkK (mgr s) (dispatcher_ s) (delivered s) (S (ticks s))).

(** Field updates. *)
Definition with_m_running (b : bool) (m : KcpManager) : KcpManager :=
  mkManager b (sessions_ m) (timer_heap_ m) (has_callback m) (session_config_ m)
    (idle_timeout_ms_ m) (fallback_tick_ms_ m) (next_idle_gc_mono_ms_ m)
    (armed_tick_due_mono_ms_ m) (armed_tick_seq_ m).
Definition with_sessions (t : gmap KcpSessionKey SessionEntry) (m : KcpManager) : KcpManager :=
  mkManager (running_ m) t (timer_heap_ m) (has_callback m) (session_config_ m)
    (idle_timeout_ms_ m) (fallback_tick_ms_ m) (next_idle_gc_mono_ms_ m)
    (armed_tick_due_mono_ms_ m) (armed_tick_seq_ m).
Definition with_heap (h : list TimerNode) (m : KcpManager) : KcpManager :=
  mkManager (running_ m) (sessions_ m) h (has_callback m) (session_config_ m)
    (idle_timeout_ms_ m) (fallback_tick_ms_ m) (next_idle_gc_mono_ms_ m)
    (armed_tick_due_mono_ms_ m) (armed_tick_seq_ m).
Definition with_callback (b : bool) (m : KcpManager) : KcpManager :=
  mkManager (running_ m) (sessions_ m) (timer_heap_ m) b (session_config_ m)
    (idle_timeout_ms_ m) (fallback_tick_ms_ m) (next_idle_gc_mono_ms_ m)
    (armed_tick_due_mono_ms_ m) (armed_tick_seq_ m).
Definition with_gc (z : Z) (m : KcpManager) : KcpManager :=
  mkManager (running_ m) (sessions_ m) (timer_heap_ m) (has_callback m) (session_config_ m)
    (idle_timeout_ms_ m) (fallback_tick_ms_ m) z (armed_tick_due_mono_ms_ m) (armed_tick_seq_ m).
Definition with_armed (due seq : Z) (m : KcpManager) : KcpManager :=
  mkManager (running_ m) (sessions_ m) (timer_heap_ m) (has_callback m) (session_config_ m)
    (idle_timeout_ms_ m) (fallback_tick_ms_ m) (next_idle_gc_mono_ms_ m) due seq.

Definition with_d_running (b : bool) (d : UdpDispatcher) : UdpDispatcher :=
  mkDispatcher (socket_fd_ d) (recv_buffer_size_ d) b (d_callback d) (io_running d) (queue_ d)
    (inflight_ d) (closed_fds d).
Definition with_d_callback (d : UdpDispatcher) : UdpDispatcher :=
  mkDispatcher (socket_fd_ d) (recv_buffer_size_ d) (d_running_ d) true (io_running d) (queue_ d)
    (inflight_ d) (closed_fds d).
Definition with_io_running (b : bool) (d : UdpDispatcher) : UdpDispatcher :=
  mkDispatcher (socket_fd_ d) (recv_buffer_size_ d) (d_running_ d) (d_callback d) b (queue_ d)
    (inflight_ d) (closed_fds d).
Definition with_requests (q l : list Request) (d : UdpDispatcher) : UdpDispatcher :=
  mkDispatcher (socket_fd_ d) (recv_buffer_size_ d) (d_running_ d) (d_callback d) (io_running d)
    q l (closed_fds d).
Definition with_socket (fd : Z) (closed : list Z) (d : UdpDispatcher) : UdpDispatcher :=
  mkDispatcher fd (recv_buffer_size_ d) (d_running_ d) (d_callback d) (io_running d) (queue_ d)
    (inflight_ d) closed.

(** ** The dispatcher *)

Definition new_UdpDispatcher (recv_buffer_size : Z) : UdpDispatcher :=
  mkDispatcher (-1) (if recv_buffer_size =? 0 then 2048 else recv_buffer_size) false false false
    [] [] [].

(** [bind_ipv4_socket]: the address it binds to, if the host can be parsed. *)
Definition bind_ipv4_addr (host : bytes) (port : Z) : option sockaddr_in :=
  let p := be_encode 2 port in
  if bool_decide (host = []) || bool_decide (host = str "0.0.0.0")
  then Some (mkSockaddr p zero_addr)
  else a ← env_pton (c_str host); Some (mkSockaddr p a).

(** [UdpDispatcher::bind]; [None] is the exception of [create_udp_socket]. *)
Definition dispatcher_bind (host : bytes) (port : Z) : K (option bool) :=
  d ← gets dispatcher_;
  if 0 <=? socket_fd_ d then mret (Some false)
  else
    r ← ask env_socket;
    match r with
    | None => mret None
    | Some fd =>
        ok ← match bind_ipv4_addr host port with
             | None => mret false
             | Some a => ask (fun n => env_bind n a)
             end;
        if ok : bool
        then modify_dispatcher (fun d => with_socket fd (closed_fds d) d);; mret (Some true)
        else modify_dispatcher (fun d => with_socket (socket_fd_ d) (fd :: closed_fds d) d);;
             mret (Some false)
    end.

(** A request is made, which can fail, and pushed. *)
Definition push_request (r : Request) : K bool :=
  ok ← ask env_request;
  if ok : bool
  then modify_dispatcher (fun d => with_requests (queue_ d ++ [r]) (inflight_ d) d);; mret true
  else mret false.

Definition arm_recv : K unit :=
  d ← gets dispatcher_;
  if negb (d_running_ d) || (socket_fd_ d <? 0) then mret tt
  else _ ← push_request UdpRecvRequest; mret tt.

(** [UdpDispatcher::start]; [false] is the exception. *)
Definition dispatcher_start : K bool :=
  d ← gets dispatcher_;
  if socket_fd_ d <? 0 then mret false
  else if d_running_ d then mret true
  else
    modify_dispatcher (with_d_running true);;
    modify_dispatcher (with_io_running true);;
    arm_recv;;
    mret true.

Definition send_to (peer : sockaddr) (peer_len : Z) (data : bytes) : K bool :=
  d ← gets dispatcher_;
  if negb (d_running_ d) || (socket_fd_ d <? 0) then mret false
  else push_request (UdpSendRequest peer peer_len data).

Definition schedule_timeout (timeout_ms tick_seq : Z) : K bool :=
  d ← gets dispatcher_;
  if negb (d_running_ d) then mret false else push_request (TimeoutRequest timeout_ms tick_seq).

Definition post (r : Request) : K bool :=
  d ← gets dispatcher_;
  if negb (d_running_ d) then mret false else push_request r.

(** ** Sessions of the manager *)

(** [struct KcpManagerConfig], without the two settings of the ring. *)
Record KcpManagerConfig := {
  manager_recv_buffer_size : Z;
  idle_timeout_ms : Z;
  fallback_tick_ms : Z;
  manager_session_config : KcpSessionConfig;
}.

Definition new_KcpManager (c : KcpManagerConfig) : KState :=
  mkK (mkManager false ∅ [] false (manager_session_config c) (idle_timeout_ms c)
         (if fallback_tick_ms c =? 0 then 10 else fallback_tick_ms c) 0 0 0)
    (new_UdpDispatcher (manager_recv_buffer_size c)) [] 0.

Definition manager_bind (host : bytes) (port : Z) : K (option bool) := dispatcher_bind host port.

Definition set_message_callback : K unit := modify_mgr (with_callback true).

(** The output callback of a session: every datagram goes to the dispatcher. *)
Fixpoint send_output (s : KcpSession) (out : list bytes) : K unit :=
  match out with
  | [] => mret tt
  | buf :: out =>
      match handle_output s buf with
      | None => send_output s out
      | Some (peer, peer_len, data) => _ ← send_to peer peer_len data; send_output s out
      end
  end.

(** Write through a reference to the entry of a key. *)
Definition update_entry (key : KcpSessionKey) (f : SessionEntry -> SessionEntry) : K unit :=
  modify_mgr (fun m => with_sessions (alter f key (sessions_ m)) m).

Definition set_session (key : KcpSessionKey) (s : KcpSession) : K unit :=
  update_entry key (fun e => mkEntry s (last_active_mono_ms e) (next_due_mono_ms e) (schedule_seq e)).

(** [arm_tick_for_due_in_loop] *)
Definition arm_tick_for_due_in_loop (due : Z) : K unit :=
  m ← gets mgr;
  if negb (running_ m) then mret tt
  else if negb (armed_tick_due_mono_ms_ m =? 0) && (armed_tick_due_mono_ms_ m <=? due) then mret tt
  else
    now ← ask env_clock;
    let delay_ms := if now <? due then due - now else 1 in
    let tick_seq := wrap 64 (armed_tick_seq_ m + 1) in
    modify_mgr (with_armed due tick_seq);;
    _ ← schedule_timeout delay_ms tick_seq;
    mret tt.

(** [schedule_session_in_loop] *)
Definition schedule_session_in_loop (key : KcpSessionKey) (kcp_now mono_now : Z) : K unit :=
  m ← gets mgr;
  match sessions_ m !! key with
  | None => mret tt
  | Some e =>
      let due_kcp_ms := session_check (entry_session e) kcp_now in
      let delay_ms := kcp_delay_ms kcp_now due_kcp_ms in
      let due := wrap 64 (mono_now + delay_ms) in
      let seq := wrap 64 (schedule_seq e + 1) in
      update_entry key (fun e => mkEntry (entry_session e) (last_active_mono_ms e) due seq);;
      modify_mgr (fun m => with_heap (push_heap (timer_heap_ m ++ [mkTimer due seq key])) m);;
      arm_tick_for_due_in_loop due
  end.

(** [find_or_create_session_entry_in_loop]; [false] is the null pointer, after [true] the table
    has an entry for the key. *)
Definition find_or_create_session_entry_in_loop (key : KcpSessionKey) : K bool :=
  m ← gets mgr;
  match sessions_ m !! key with
  | Some _ => mret true
  | None =>
      if negb (key_valid key) then mret false
      else
        created ← ask env_create;
        let s := new_KcpSession created (key_conv key) (Some (make_ipv4_addr key))
                   sizeof_sockaddr_in true (session_config_ m) in
        if negb (session_valid s) then mret false
        else
          now ← ask env_clock;
          modify_mgr (fun m => with_sessions (<[key := mkEntry s now 0 0]> (sessions_ m)) m);;
          mret true
  end.

(** [drain_session_messages_in_loop] and [handle_session_message].  The fuel of the drain loop is
    an argument of the loop's handlers. *)
Fixpoint handle_session_messages (key : KcpSessionKey) (ms : list bytes) : K unit :=
  match ms with
  | [] => mret tt
  | m :: ms => deliver key m;; handle_session_messages key ms
  end.

Definition drain_session_messages_in_loop (fuel : nat) (key : KcpSessionKey) : K unit :=
  m ← gets mgr;
  if negb (has_callback m) then mret tt
  else
    match sessions_ m !! key with
    | None => mret tt
    | Some e =>
        match drain_messages fuel (entry_session e) with
        | None => mret tt
        | Some (ms, s) => handle_session_messages key ms;; set_session key s
        end
    end.

(** Run an operation of the session of a key: the new session is stored, the datagrams sent. *)
Definition run_session {A} (key : KcpSessionKey) (default : A)
    (op : KcpSession -> A * list bytes * KcpSession) : K A :=
  m ← gets mgr;
  match sessions_ m !! key with
  | None => mret default
  | Some e =>
      let '(r, out, s) := op (entry_session e) in
      set_session key s;;
      send_output s out;;
      mret r
  end.

Definition touch_entry (key : KcpSessionKey) (mono_now : Z) : K unit :=
  update_entry key (fun e => mkEntry (entry_session e) mono_now (next_due_mono_ms e) (schedule_seq e)).

(** [handle_udp_packet] *)
Definition handle_udp_packet (fuel : nat) (peer : option sockaddr) (peer_len : Z) (data : bytes)
    : K unit :=
  match extract_conv data with
  | None => mret tt
  | Some conv =>
      let key := make_key conv peer peer_len in
      found ← find_or_create_session_entry_in_loop key;
      if negb found then mret tt
      else
        mono_now ← ask env_clock;
        let now := kcp_now_ms mono_now in
        touch_entry key mono_now;;
        r ← run_session key (-1) (fun s => input_packet s data now);
        if r <? 0 then mret tt
        else
          drain_session_messages_in_loop fuel key;;
          schedule_session_in_loop key now mono_now
  end.

(** [send_in_loop] *)
Definition send_in_loop (key : KcpSessionKey) (data : bytes) : K bool :=
  if negb (key_valid key) || (zlen data =? 0) then mret false
  else
    found ← find_or_create_session_entry_in_loop key;
    if negb found then mret false
    else
      mono_now ← ask env_clock;
      let now := kcp_now_ms mono_now in
      touch_entry key mono_now;;
      r ← run_session key (-1) (fun s => send_app_data s data now);
      if r <? 0 then mret false
      else schedule_session_in_loop key now mono_now;; mret true.

(** [maybe_collect_idle_sessions_in_loop] *)
Definition is_idle (idle_timeout mono_now : Z) (e : SessionEntry) : bool :=
  idle_timeout <=? wrap 64 (mono_now - last_active_mono_ms e).

Definition maybe_collect_idle_sessions_in_loop (mono_now : Z) : K unit :=
  m ← gets mgr;
  if idle_timeout_ms_ m =? 0 then mret tt
  else if negb (next_idle_gc_mono_ms_ m =? 0) && (mono_now <? next_idle_gc_mono_ms_ m) then mret tt
  else
    modify_mgr (with_gc (wrap 64 (mono_now + 1000)));;
    modify_mgr (fun m => with_sessions
      (filter (fun p => is_idle (idle_timeout_ms_ m) mono_now p.2 = false) (sessions_ m)) m).

(** The loop of [handle_tick] over the due timers; [false]: out of fuel. *)
Definition update_if_due (key : KcpSessionKey) (now : Z) : K unit :=
  run_session key tt (fun s =>
    if kcp_time_reached now (session_check s now)
    then let '(out, s) := session_update s now in (tt, out, s)
    else (tt, [], s)).

Definition is_current (node : TimerNode) (e : SessionEntry) : bool :=
  (schedule_seq e =? timer_seq node) && (next_due_mono_ms e =? due_mono_ms node).

Fixpoint tick_loop (fuel : nat) (now mono_now : Z) : K bool :=
  match fuel with
  | O => mret false
  | S fuel =>
      m ← gets mgr;
      match timer_heap_ m with
      | [] => mret true
      | top :: _ =>
          if mono_now <? due_mono_ms top
          then arm_tick_for_due_in_loop (due_mono_ms top);; mret true
          else
            let popped := pop_heap (timer_heap_ m) in
            match last popped with
            | None => mret true
            | Some node =>
                modify_mgr (with_heap (take (length popped - 1) popped));;
                match sessions_ m !! timer_key node with
                | None => tick_loop fuel now mono_now
                | Some e =>
                    if negb (is_current node e) then tick_loop fuel now mono_now
                    else
                      update_if_due (timer_key node) now;;
                      schedule_session_in_loop (timer_key node) now mono_now;;
                      tick_loop fuel now mono_now
                end
            end
      end
  end.

(** [handle_tick]; the fuel of its loop is the number of timers plus one, and the result says
    whether it was enough. *)
Definition handle_tick : K bool :=
  m ← gets mgr;
  if negb (running_ m) then mret true
  else
    mono_now ← ask env_clock;
    let now := kcp_now_ms mono_now in
    ok ← tick_loop (S (length (timer_heap_ m))) now mono_now;
    m ← gets mgr;
    (if bool_decide (timer_heap_ m = []) && running_ m
     then arm_tick_for_due_in_loop (wrap 64 (mono_now + fallback_tick_ms_ m)) else mret tt);;
    maybe_collect_idle_sessions_in_loop mono_now;;
    mret ok.

(** ** Callbacks of the loop *)

(** The callback of a timeout. *)
Definition on_timeout (tick_seq : Z) : K bool :=
  m ← gets mgr;
  if negb (running_ m) || negb (tick_seq =? armed_tick_seq_ m) then mret true
  else modify_mgr (fun m => with_armed 0 (armed_tick_seq_ m) m);; handle_tick.

(** The callback posted by [start]. *)
Definition on_first_tick : K unit :=
  now ← ask env_clock;
  modify_mgr (with_gc (wrap 64 (now + 1000)));;
  m ← gets mgr;
  arm_tick_for_due_in_loop (wrap 64 (now + fallback_tick_ms_ m)).

(** [UdpDispatcher::handle_recv]: the result of the call, the address and the bytes in the
    buffer, whose length is set to the result first. *)
Definition handle_recv (fuel : nat) (res : Z) (peer : sockaddr) (peer_len : Z) (data : bytes)
    : K unit :=
  d ← gets dispatcher_;
  (if (0 <? res) && d_callback d
   then handle_udp_packet fuel (Some peer) peer_len (take (Z.to_nat (Z.min res (recv_buffer_size_ d))) data)
   else mret tt);;
  d ← gets dispatcher_;
  if d_running_ d then arm_recv else mret tt.

(** ** Operations for other threads *)

(** [KcpManager::start]; [false] is the exception of the dispatcher. *)
Definition manager_start : K bool :=
  m ← gets mgr;
  if running_ m then mret true
  else
    modify_mgr (with_m_running true);;
    modify_dispatcher with_d_callback;;
    ok ← dispatcher_start;
    if negb ok then mret false
    else _ ← post PostFirstTick; mret true.

(** [KcpManager::stop] up to the join of the thread, and from there. *)
Definition stop_begin : K bool :=
  m ← gets mgr;
  modify_mgr (with_m_running false);;
  if negb (running_ m) then mret false
  else modify_dispatcher (with_d_running false);; mret true.

Definition stop_finish : K unit :=
  modify_dispatcher (with_io_running false);;
  modify_mgr (fun m => with_armed 0 0 (with_gc 0 (with_heap [] (with_sessions ∅ m)))).

(** [KcpManager::send]; a null pointer is [None]. *)
Definition manager_send (key : KcpSessionKey) (data : option bytes) : K bool :=
  m ← gets mgr;
  match data with
  | None => mret false
  | Some payload =>
      if negb (key_valid key) || (zlen payload =? 0) || negb (running_ m) then mret false
      else post (PostSend key payload)
  end.

Definition send_peer (peer : option sockaddr) (peer_len : Z) (conv : KcpConv)
    (data : option bytes) : K bool :=
  manager_send (make_key conv peer peer_len) data.

(** ** The loop

    One step of the system: a call of another thread, or a turn of the loop.  The loop takes the
    first request of the queue; a posted one runs at once, another one is given to the kernel,
    which can fail ([submitted]), and is then forgotten.  The kernel completes any request it
    has. *)
Inductive Event :=
  | EStart
  | EStopBegin
  | EStopFinish
  | ESend (key : KcpSessionKey) (data : option bytes)
  | ESubmit (submitted : bool)
  | ETimeout (i : nat)
  | ERecv (i : nat) (res : Z) (peer : sockaddr) (peer_len : Z) (data : bytes) (fuel : nat)
  | ESent (i : nat).

(** Take a request out of the kernel. *)
Definition complete (i : nat) : K unit :=
  modify_dispatcher (fun d => with_requests (queue_ d) (delete i (inflight_ d)) d).

Definition loop_step (ev : Event) : K unit :=
  d ← gets dispatcher_;
  m ← gets mgr;
  match ev with
  | EStart => if io_running d && negb (running_ m) then mret tt else _ ← manager_start; mret tt
  | EStopBegin => if running_ m then _ ← stop_begin; mret tt else mret tt
  | EStopFinish => if running_ m then mret tt else stop_finish
  | ESend key data => _ ← manager_send key data; mret tt
  | ESubmit submitted =>
      if negb (io_running d) then mret tt
      else
        match queue_ d with
        | [] => mret tt
        | r :: q =>
            modify_dispatcher (fun d => with_requests q
              (if submitted && negb (match r with PostFirstTick | PostSend _ _ => true | _ => false end)
               then inflight_ d ++ [r] else inflight_ d) d);;
            match r with
            | PostFirstTick => on_first_tick
            | PostSend key payload => _ ← send_in_loop key payload; mret tt
            | _ => mret tt
            end
        end
  | ETimeout i =>
      match inflight_ d !! i with
      | Some (TimeoutRequest _ seq) => if io_running d then complete i;; _ ← on_timeout seq; mret tt else mret tt
      | _ => mret tt
      end
  | ERecv i res peer peer_len data fuel =>
      match inflight_ d !! i with
      | Some UdpRecvRequest =>
          if io_running d then complete i;; handle_recv fuel res peer peer_len data else mret tt
      | _ => mret tt
      end
  | ESent i =>
      match inflight_ d !! i with
      | Some (UdpSendRequest _ _ _) => if io_running d then complete i else mret tt
      | _ => mret tt
      end
  end.

Definition run_events (evs : list Event) (s : KState) : KState :=
  fold_left (fun s ev => (loop_step ev s).2) evs s.
End manager.
