(* ===== verification/KcpManagerProofs.v ===== *)
(** The KCP manager keeps its timers: every scheduled session has its timer in the heap, the heap
    is a heap, and as long as the manager runs a timeout is under way that fires no later than the
    first timer.  A tick serves exactly the sessions that are due, once each, and terminates. *)
From S2P Require Import Prelude KcpConv Identity KcpSession KcpManager.

(** ** Arithmetic of the clock *)

Lemma kcp_now_ms_wrap t : kcp_now_ms t = wrap 32 t.
Proof. unfold kcp_now_ms, wrap. change 0xffffffff with (Z.ones 32). apply Z.land_ones. lia. Qed.

Lemma wrap_sub a b : wrap 32 (wrap 32 a - wrap 32 b) = wrap 32 (a - b).
Proof. unfold wrap. rewrite <- Zminus_mod. done. Qed.

Lemma to_i32_small d : - 2 ^ 31 <= d < 2 ^ 31 -> to_i32 (wrap 32 d) = d.
Proof.
  intros Hd. unfold to_i32. rewrite wrap_idemp by lia. unfold wrap.
  destruct (decide (0 <= d)) as [Hp|Hn].
  - rewrite Z.mod_small by lia. rewrite (proj2 (Z.ltb_lt _ _)); lia.
  - replace (d mod 2 ^ 32) with (d + 2 ^ 32).
    + rewrite (proj2 (Z.ltb_ge _ _)); lia.
    + rewrite <- (Z.mod_add d 1) by lia. rewrite Z.mod_small; lia.
Qed.

(** The 32-bit clock of KCP wraps around every 49 days; as long as two times are less than 2^31
    ms apart, the comparison and the delay are those of the unbounded times, with a delay of at
    least one millisecond. *)
Theorem kcp_delay_exact now due :
  - 2 ^ 31 < due - now < 2 ^ 31 ->
  kcp_time_reached (kcp_now_ms now) (kcp_now_ms due) = (due <=? now) /\
  kcp_delay_ms (kcp_now_ms now) (kcp_now_ms due) = Z.max 1 (due - now).
Proof.
  intros Hd. unfold kcp_delay_ms, kcp_time_reached.
  rewrite !kcp_now_ms_wrap, !wrap_sub, to_i32_small by lia.
  assert ((0 <=? now - due) = (due <=? now)) as ->.
  { destruct (Z.leb_spec 0 (now - due)), (Z.leb_spec due now); lia. }
  split; [done|]. case_cond; bool_norm; [lia|]. unfold wrap. rewrite Z.mod_small; lia.
Qed.

Lemma kcp_delay_bounds now due : 1 <= kcp_delay_ms now due < 2 ^ 32.
Proof.
  unfold kcp_delay_ms. case_cond; [lia|].
  assert (wrap 32 (due - now) <> 0) as Hn.
  { intros H0. unfold kcp_time_reached, to_i32, wrap in E. rewrite Z.mod_mod in E by lia.
    replace (now - due) with (- (due - now)) in E by lia.
    rewrite Z.mod_opp_l_z in E by (unfold wrap in H0; lia). cbv in E. done. }
  pose proof (wrap_fits 32 (due - now) ltac:(lia)) as Hw. unfold fits in Hw. lia.
Qed.

(** ** Heaps *)

Lemma heap_front_min (x : TimerNode) l n :
  is_heap TimerNodeGreater (x :: l) -> n ∈ x :: l -> due_mono_ms x <= due_mono_ms n.
Proof.
  intros Hh [i Hi]%list_elem_of_lookup. revert n Hi.
  induction i as [i IH] using lt_wf_ind. intros n Hi.
  destruct i as [|i]; [injection Hi as ->; lia|].
  assert (((S i - 1) / 2 < S i)%nat) as Hlt by (apply Nat.Div0.div_lt_upper_bound; lia).
  destruct (lookup_lt_is_Some_2 (x :: l) ((S i - 1) / 2)) as [p Hp].
  { apply lookup_lt_Some in Hi. lia. }
  specialize (IH _ Hlt p Hp).
  specialize (Hh (S i) p n ltac:(lia) Hi Hp). unfold TimerNodeGreater in Hh. bool_norm. lia.
Qed.

Lemma is_heap_nil : is_heap TimerNodeGreater [].
Proof. intros i a b _ H. rewrite lookup_nil in H. done. Qed.

(** The pop of the loop: the front is taken out. *)
Lemma pop_front `{!HeapAlgorithms TimerNodeGreater} x l :
  is_heap TimerNodeGreater (x :: l) ->
  let popped := pop_heap (x :: l) in
  last popped = Some x /\ take (length popped - 1) popped ≡ₚ l /\
  is_heap TimerNodeGreater (take (length popped - 1) popped).
Proof.
  intros Hh popped. destruct (pop_heap_spec x l Hh) as (l' & Hl' & Hp & Hh'). subst popped.
  rewrite Hl', last_snoc, length_app. simpl.
  replace (length l' + 1 - 1)%nat with (length l') by lia. rewrite take_app_length. done.
Qed.

(** ** Reasoning about computations *)

Section proofs.
Context {I : Ikcp} {E : KcpEnv} {H : HeapAlgorithms TimerNodeGreater}.

Definition wp {A} (c : K A) (Q : A -> KState -> Prop) (s : KState) : Prop := Q (c s).1 (c s).2.

Lemma wp_bind {A B} (c : K A) (f : A -> K B) Q s :
  wp c (fun a => wp (f a) Q) s -> wp (c ≫= f) Q s.
Proof. unfold wp, mbind, K_bind. destruct (c s). done. Qed.

Lemma wp_ret {A} (x : A) (Q : A -> KState -> Prop) s : Q x s -> wp (mret x) Q s.
Proof. done. Qed.

Lemma wp_assoc {A B C} (c : K A) (d : K B) (f : B -> K C) Q s :
  wp ((c;; d) ≫= f) Q s -> wp (c;; (d ≫= f)) Q s.
Proof. unfold wp, mbind, K_bind. destruct (c s). done. Qed.

Lemma wp_gets {A} (f : KState -> A) (Q : A -> KState -> Prop) s : Q (f s) s -> wp (gets f) Q s.
Proof. done. Qed.

Lemma wp_wand {A} (c : K A) (P Q : A -> KState -> Prop) s :
  wp c P s -> (forall a s', P a s' -> Q a s') -> wp c Q s.
Proof. unfold wp. auto. Qed.

Lemma wp_conj_l {A} (c : K A) (P Q : A -> KState -> Prop) s :
  wp c P s -> wp c Q s -> wp c (fun a s' => P a s' /\ Q a s') s.
Proof. done. Qed.

(** What every callback of the loop respects: it only adds requests that satisfy [P], leaves the
    flags and the configuration alone, and the clock goes on. *)
Record ext (P : Request -> Prop) (s s' : KState) : Prop := mkExt {
  ext_queue : exists new, queue_ (dispatcher_ s') = queue_ (dispatcher_ s) ++ new /\ Forall P new;
  ext_inflight : inflight_ (dispatcher_ s') = inflight_ (dispatcher_ s);
  ext_socket : socket_fd_ (dispatcher_ s') = socket_fd_ (dispatcher_ s);
  ext_d_running : d_running_ (dispatcher_ s') = d_running_ (dispatcher_ s);
  ext_d_callback : d_callback (dispatcher_ s') = d_callback (dispatcher_ s);
  ext_io : io_running (dispatcher_ s') = io_running (dispatcher_ s);
  ext_size : recv_buffer_size_ (dispatcher_ s') = recv_buffer_size_ (dispatcher_ s);
  ext_running : running_ (mgr s') = running_ (mgr s);
  ext_callback : has_callback (mgr s') = has_callback (mgr s);
  ext_config : session_config_ (mgr s') = session_config_ (mgr s);
  ext_idle : idle_timeout_ms_ (mgr s') = idle_timeout_ms_ (mgr s);
  ext_fallback : fallback_tick_ms_ (mgr s') = fallback_tick_ms_ (mgr s);
  ext_ticks : (ticks s <= ticks s')%nat;
}.

Lemma ext_refl P s : ext P s s.
Proof. split; try done. exists []. rewrite app_nil_r. done. Qed.

Lemma ext_trans P s1 s2 s3 : ext P s1 s2 -> ext P s2 s3 -> ext P s1 s3.
Proof.
  intros [(n1 & Hq1 & Hn1)] [(n2 & Hq2 & Hn2)]. split; try congruence; [|lia].
  exists (n1 ++ n2). rewrite Hq2, Hq1, app_assoc, Forall_app. done.
Qed.

Lemma ext_mono (P Q : Request -> Prop) s s' : (forall r, P r -> Q r) -> ext P s s' -> ext Q s s'.
Proof.
  intros HPQ [(n & Hq & Hn)]. split; try done. exists n. split; [done|].
  eapply Forall_impl; eauto.
Qed.

(** The requests the loop will see. *)
Definition requests (s : KState) : list Request :=
  queue_ (dispatcher_ s) ++ inflight_ (dispatcher_ s).

Lemma ext_requests P s s' r : ext P s s' -> r ∈ requests s -> r ∈ requests s'.
Proof.
  intros [(n & Hq & _) Hi]. unfold requests. rewrite Hq, Hi. set_solver.
Qed.

(** ** The invariant *)

Definition armed (s : KState) : Z := armed_tick_due_mono_ms_ (mgr s).

(** The session of a key talks to the peer of the key. *)
Record entry_ok (now : Z) (key : KcpSessionKey) (e : SessionEntry) : Prop := {
  eo_key : key_valid key = true;
  eo_conv : session_conv (entry_session e) = key_conv key;
  eo_peer : session_peer (entry_session e) = make_ipv4_addr key;
  eo_peer_len : session_peer_len (entry_session e) = sizeof_sockaddr_in;
  eo_output : output_ (entry_session e) = true;
  eo_kcp : is_Some (kcp_ (entry_session e));
  eo_active : 0 <= last_active_mono_ms e <= now;
}.

Definition node_of (key : KcpSessionKey) (e : SessionEntry) : TimerNode :=
  mkTimer (next_due_mono_ms e) (schedule_seq e) key.

(** Table and heap agree; the sessions of [X] are exempt from having a timer. *)
Record core_but (X : KcpSessionKey -> Prop) (s : KState) : Prop := mkCore {
  c_heap : is_heap TimerNodeGreater (timer_heap_ (mgr s));
  c_nodes : forall key e, sessions_ (mgr s) !! key = Some e -> ~ X key ->
    next_due_mono_ms e <> 0 -> node_of key e ∈ timer_heap_ (mgr s);
  c_due : forall n, n ∈ timer_heap_ (mgr s) -> 0 < due_mono_ms n;
  c_entry : forall key e, sessions_ (mgr s) !! key = Some e ->
    entry_ok (env_clock (ticks s)) key e;
}.

Abbreviation core := (core_but (fun _ => False)).

Lemma core_weaken X s : core s -> core_but X s.
Proof. intros [C1 C2 C3 C4]. split; auto. Qed.

(** The armed tick has a timeout under way, and comes before every timer. *)
Definition live (s : KState) : Prop :=
  armed s <> 0 -> exists ms, TimeoutRequest ms (armed_tick_seq_ (mgr s)) ∈ requests s.
Definition below (s : KState) : Prop :=
  if decide (armed s = 0) then timer_heap_ (mgr s) = []
  else forall n, n ∈ timer_heap_ (mgr s) -> armed s <= due_mono_ms n.

(** Memory for requests is found and the clock does not go back or reach 2^62. *)
Record env_good : Prop := {
  eg_request : forall n, env_request n = true;
  eg_clock : forall n, 0 <= env_clock n <= env_clock (S n);
  eg_clock_bound : forall n, env_clock n < 2 ^ 62;
}.
Context (G : env_good).

Lemma clock_mono n m : (n <= m)%nat -> env_clock n <= env_clock m.
Proof. induction 1; [lia|]. pose proof (eg_clock G m). lia. Qed.

Lemma entry_ok_mono n m key e :
  (n <= m)%nat -> entry_ok (env_clock n) key e -> entry_ok (env_clock m) key e.
Proof. intros Hle [?????? ?]. pose proof (clock_mono n m Hle). split; try done. lia. Qed.

(** A step that leaves table and heap alone keeps the core. *)
Lemma core_same X P s s' :
  ext P s s' -> sessions_ (mgr s') = sessions_ (mgr s) ->
  timer_heap_ (mgr s') = timer_heap_ (mgr s) -> core_but X s -> core_but X s'.
Proof.
  intros He Hs Hh [C1 C2 C3 C4].
  split; rewrite ?Hs, ?Hh; try done.
  intros key e Hk. eapply entry_ok_mono; [eapply ext_ticks, He|auto].
Qed.

(** ** The operations *)

Lemma wp_ask {A} (f : nat -> A) (Q : A -> KState -> Prop) s :
  Q (f (ticks s)) (mkK (mgr s) (dispatcher_ s) (delivered s) (S (ticks s))) -> wp (ask f) Q s.
Proof. done. Qed.

(** Neither the manager nor what was delivered changes. *)
Definition same_mgr (s s' : KState) : Prop := mgr s' = mgr s /\ delivered s' = delivered s.

Lemma wp_push (P : Request -> Prop) r s :
  P r -> wp (push_request r) (fun _ s' => ext P s s' /\ same_mgr s s' /\ r ∈ queue_ (dispatcher_ s')) s.
Proof.
  intros HP. unfold push_request. apply wp_bind, wp_ask. rewrite (eg_request G).
  apply wp_bind. unfold wp. simpl. split; [|split; [done|]].
  - split; simpl; try done; [|lia]. exists [r]. split; [done|]. by constructor.
  - set_solver.
Qed.

Lemma wp_push_if (P : Request -> Prop) (b : bool) r s :
  P r -> wp (if b then mret false else push_request r) (fun _ s' => ext P s s' /\ same_mgr s s') s.
Proof.
  intros HP. destruct b; [split; [apply ext_refl|done]|].
  eapply wp_wand; [by apply (wp_push P)|]. intros _ s2 (? & ? & _). done.
Qed.

Lemma wp_send_to (P : Request -> Prop) peer len data s :
  P (UdpSendRequest peer len data) ->
  wp (send_to peer len data) (fun _ s' => ext P s s' /\ same_mgr s s') s.
Proof. intros HP. unfold send_to. apply wp_bind, wp_gets, wp_push_if, HP. Qed.

(** The datagrams of a session go to its peer. *)
Lemma wp_send_output (P : Request -> Prop) ks out s :
  (forall data, P (UdpSendRequest (session_peer ks) (session_peer_len ks) data)) ->
  wp (send_output ks out) (fun _ s' => ext P s s' /\ same_mgr s s') s.
Proof.
  intros HP. revert s. induction out as [|buf out IH]; intros s; cbn [send_output].
  { split; [apply ext_refl|done]. }
  unfold handle_output. case_cond; [apply IH|].
  apply wp_bind. eapply wp_wand; [by apply (wp_send_to P)|]. intros _ s1 (E1 & M1 & D1).
  eapply wp_wand; [apply IH|]. intros _ s2 (E2 & M2 & D2).
  split; [by eapply ext_trans|]. split; congruence.
Qed.

Definition is_timeout (r : Request) : Prop :=
  match r with TimeoutRequest _ _ => True | _ => False end.

(** After arming for [due] a tick is armed no later than [due] and than before. *)
Record armed_post (due : Z) (s s' : KState) : Prop := {
  ap_ext : ext is_timeout s s';
  ap_sessions : sessions_ (mgr s') = sessions_ (mgr s);
  ap_heap : timer_heap_ (mgr s') = timer_heap_ (mgr s);
  ap_delivered : delivered s' = delivered s;
  ap_gc : next_idle_gc_mono_ms_ (mgr s') = next_idle_gc_mono_ms_ (mgr s);
  ap_armed : running_ (mgr s) = true ->
    armed s' <> 0 /\ armed s' <= due /\ (armed s <> 0 -> armed s' <= armed s);
  ap_kept : armed s <> 0 -> armed s' <> 0;
  ap_live : live s -> live s';
}.

Lemma wp_arm due s :
  (running_ (mgr s) = true -> d_running_ (dispatcher_ s) = true) -> 0 < due ->
  wp (arm_tick_for_due_in_loop due) (fun _ => armed_post due s) s.
Proof.
  intros Hd Hdue. unfold arm_tick_for_due_in_loop. apply wp_bind, wp_gets.
  destruct (running_ (mgr s)) eqn:Hr; cbn [negb].
  2: { apply wp_ret. split; try done; try congruence. apply ext_refl. }
  case_cond.
  { apply wp_ret. bool_norm. split; try done. apply ext_refl. }
  apply wp_bind, wp_ask, wp_bind. unfold wp at 1. simpl.
  apply wp_bind. unfold schedule_timeout. apply wp_bind, wp_gets. simpl.
  rewrite (Hd eq_refl). cbn [negb].
  eapply wp_wand; [apply (wp_push is_timeout); done|].
  intros _ s2 (E2 & [M2 D2] & R2). apply wp_ret. simpl in *.
  split; rewrite ?M2, ?D2; try done.
  - destruct E2 as [Q2 ????????????]. split; simpl in *; try congruence; try lia.
    all: rewrite M2; done.
  - intros _. unfold armed. rewrite M2. simpl. apply andb_false_iff in E0.
    split; [lia|]. split; [lia|]. intros ?. destruct E0; bool_norm; lia.
  - intros _. unfold armed. rewrite M2. simpl. lia.
  - intros _ _. rewrite M2. simpl. eexists. apply elem_of_app. left. exact R2.
Qed.

(** A request for the session of a key: a timeout, or a datagram to its peer. *)
Definition for_key (key : KcpSessionKey) (r : Request) : Prop :=
  match r with
  | TimeoutRequest _ _ => True
  | UdpSendRequest peer len _ => peer = make_ipv4_addr key /\ len = sizeof_sockaddr_in
  | _ => False
  end.

Lemma timeout_for_key key r : is_timeout r -> for_key key r.
Proof. destruct r; done. Qed.

(** A state with another table and heap. *)
Definition set_tables (t : gmap KcpSessionKey SessionEntry) (h : list TimerNode) (s : KState)
    : KState :=
  mkK (with_heap h (with_sessions t (mgr s))) (dispatcher_ s) (delivered s) (ticks s).

Lemma ext_set_tables P t h s : ext P s (set_tables t h s).
Proof. split; try done. exists []. rewrite app_nil_r. done. Qed.

Lemma live_set_tables t h s : live s -> live (set_tables t h s).
Proof. done. Qed.

Lemma wp_update_entry key f s Q :
  Q tt (set_tables (alter f key (sessions_ (mgr s))) (timer_heap_ (mgr s)) s) ->
  wp (update_entry key f) Q s.
Proof. done. Qed.

Lemma delivered_update key f s :
  wp (update_entry key f) (fun _ s' => delivered s' = delivered s) s.
Proof. done. Qed.

Definition same_session (a b : KcpSession) : Prop :=
  session_conv b = session_conv a /\ session_peer b = session_peer a /\
  session_peer_len b = session_peer_len a /\ output_ b = output_ a /\
  (is_Some (kcp_ a) -> is_Some (kcp_ b)).

Lemma same_session_refl a : same_session a a.
Proof. repeat split; done. Qed.

Lemma same_session_kcp k a : same_session a (with_kcp k a).
Proof. repeat split; done. Qed.

(** The entry of a key is replaced by one that is due at the same time. *)
Lemma core_replace X s key e e' :
  core_but X s -> sessions_ (mgr s) !! key = Some e -> entry_ok (env_clock (ticks s)) key e' ->
  next_due_mono_ms e' = next_due_mono_ms e -> schedule_seq e' = schedule_seq e ->
  core_but X (set_tables (<[key := e']> (sessions_ (mgr s))) (timer_heap_ (mgr s)) s).
Proof.
  intros [C1 C2 C3 C4] He Hok Hdue Hseq. split; simpl; try done.
  - intros k e2 [[<- <-]|[Hk Hk2]]%lookup_insert_Some Hx Hn; [|eauto].
    unfold node_of. rewrite Hdue, Hseq. apply C2; [congruence..|done|congruence].
  - intros k e2 [[<- <-]|[Hk Hk2]]%lookup_insert_Some; eauto.
Qed.

Lemma alter_insert_some (m : gmap KcpSessionKey SessionEntry) f key e :
  m !! key = Some e -> alter f key m = <[key := f e]> m.
Proof.
  intros He. apply map_eq. intros k. destruct (decide (k = key)) as [->|Hk].
  - rewrite lookup_alter_eq, lookup_insert_eq, He. done.
  - rewrite lookup_alter_ne, lookup_insert_ne by done. done.
Qed.

Lemma entry_ok_session now key e ks :
  entry_ok now key e -> same_session (entry_session e) ks ->
  entry_ok now key (mkEntry ks (last_active_mono_ms e) (next_due_mono_ms e) (schedule_seq e)).
Proof. intros [] (?&?&?&?&?). split; simpl; try congruence; auto. Qed.

(** Running an operation of a session replaces the session and sends to the peer. *)
Lemma wp_run_session {A} X key (d : A) op e s :
  core_but X s -> sessions_ (mgr s) !! key = Some e ->
  same_session (entry_session e) (op (entry_session e)).2 ->
  wp (run_session key d op) (fun r s' =>
    r = (op (entry_session e)).1.1 /\ ext (for_key key) s s' /\ core_but X s' /\
    delivered s' = delivered s /\
    mgr s' = with_sessions (<[key := mkEntry (op (entry_session e)).2 (last_active_mono_ms e)
      (next_due_mono_ms e) (schedule_seq e)]> (sessions_ (mgr s))) (mgr s)) s.
Proof.
  intros HC He Hsame. unfold run_session. apply wp_bind, wp_gets. rewrite He.
  destruct (op (entry_session e)) as [[r out] ks] eqn:Hop. cbn [fst snd] in *.
  pose proof (c_entry X s HC key e He) as Hok.
  apply wp_bind. unfold set_session. apply wp_update_entry.
  rewrite (alter_insert_some _ _ _ e He).
  set (s1 := set_tables _ _ s).
  assert (core_but X s1) as C1.
  { apply (core_replace X s key e); try done. apply entry_ok_session; done. }
  apply wp_bind. eapply wp_wand; [apply (wp_send_output (for_key key))|].
  { intros data. simpl. destruct Hsame as (_ & -> & -> & _). destruct Hok. done. }
  intros _ s2 (E2 & M2 & D2). apply wp_ret. split; [done|]. split; [|split; [|split]].
  - apply (ext_trans _ _ s1); [apply ext_set_tables|done].
  - eapply core_same; [exact E2|by rewrite M2..|done].
  - done.
  - rewrite M2. reflexivity.
Qed.

Lemma input_packet_same ks data now : same_session ks (input_packet ks data now).2.
Proof.
  unfold input_packet. destruct (kcp_ ks) as [k|]; [|apply same_session_refl].
  case_cond; [apply same_session_refl|]. destruct (ikcp_input k data) as [ret k1].
  case_cond; [apply same_session_kcp|]. destruct (ikcp_update k1 now). apply same_session_kcp.
Qed.

Lemma send_app_data_same ks data now : same_session ks (send_app_data ks data now).2.
Proof.
  unfold send_app_data. destruct (kcp_ ks) as [k|]; [|apply same_session_refl].
  case_cond; [apply same_session_refl|]. destruct (ikcp_send k data) as [ret k1].
  case_cond; [apply same_session_kcp|]. destruct (ikcp_update k1 now). apply same_session_kcp.
Qed.

Lemma session_update_same ks now : same_session ks (session_update ks now).2.
Proof.
  unfold session_update. destruct (kcp_ ks) as [k|]; [|apply same_session_refl].
  destruct (ikcp_update k now). apply same_session_kcp.
Qed.

Lemma drain_messages_same fuel ks ms ks' :
  drain_messages fuel ks = Some (ms, ks') -> same_session ks ks'.
Proof.
  unfold drain_messages. destruct (kcp_ ks) as [k|]; intros Hd.
  - destruct (drain_loop _ _ _) as [[? ?]|]; [|done]. simplify_option_eq. apply same_session_kcp.
  - simplify_eq. apply same_session_refl.
Qed.

(** The entry [schedule_session_in_loop] leaves behind. *)
Definition rescheduled (now mono_now : Z) (e : SessionEntry) : SessionEntry :=
  mkEntry (entry_session e) (last_active_mono_ms e)
    (mono_now + kcp_delay_ms now (session_check (entry_session e) now))
    (wrap 64 (schedule_seq e + 1)).

Definition flags_ok (s : KState) : Prop :=
  running_ (mgr s) = true -> d_running_ (dispatcher_ s) = true.

Lemma below_push s s' n :
  below s -> armed s' <> 0 -> (armed s <> 0 -> armed s' <= armed s) ->
  armed s' <= due_mono_ms n -> timer_heap_ (mgr s') ≡ₚ timer_heap_ (mgr s) ++ [n] -> below s'.
Proof.
  unfold below. intros Hb Hn Hle Hd Hp. rewrite (decide_False (P := armed s' = 0)) by done.
  intros n'. rewrite Hp, elem_of_app, list_elem_of_singleton. intros [Hn'| ->]; [|done].
  destruct (decide (armed s = 0)) as [H0|H0]; [rewrite Hb in Hn'; set_solver|].
  specialize (Hb n' Hn'). specialize (Hle H0). lia.
Qed.

Record scheduled_post (key : KcpSessionKey) (e' : SessionEntry) (s s' : KState) : Prop := {
  sp_ext : ext is_timeout s s';
  sp_core : core s';
  sp_delivered : delivered s' = delivered s;
  sp_gc : next_idle_gc_mono_ms_ (mgr s') = next_idle_gc_mono_ms_ (mgr s);
  sp_sessions : sessions_ (mgr s') = <[key := e']> (sessions_ (mgr s));
  sp_heap : timer_heap_ (mgr s') ≡ₚ timer_heap_ (mgr s) ++ [node_of key e'];
  sp_live : live s -> live s';
  sp_armed : running_ (mgr s) = true -> armed s' <> 0;
  sp_kept : armed s <> 0 -> armed s' <> 0;
  sp_below : running_ (mgr s) = true -> below s -> below s';
}.

Lemma wp_schedule key now mono_now e s :
  core_but (eq key) s -> flags_ok s -> sessions_ (mgr s) !! key = Some e ->
  0 <= mono_now < 2 ^ 62 ->
  wp (schedule_session_in_loop key now mono_now)
    (fun _ => scheduled_post key (rescheduled now mono_now e) s) s.
Proof.
  intros HC Hf He Ht. unfold schedule_session_in_loop. apply wp_bind, wp_gets. rewrite He.
  pose proof (kcp_delay_bounds now (session_check (entry_session e) now)) as Hd.
  unfold rescheduled. set (delay := kcp_delay_ms _ _) in *.
  rewrite (wrap_id 64 (mono_now + delay)) by (unfold fits; lia).
  set (e' := mkEntry _ _ _ _). set (due := mono_now + delay).
  apply wp_bind, wp_update_entry. rewrite (alter_insert_some _ _ _ e He). fold e'.
  apply wp_bind. unfold wp at 1. simpl.
  destruct (push_heap_spec (timer_heap_ (mgr s)) (node_of key e') (c_heap _ s HC)) as [Hp Hh].
  set (h := push_heap _).
  assert (h ≡ₚ timer_heap_ (mgr s) ++ [node_of key e']) as Hp' by exact Hp. clear Hp.
  change (wp (arm_tick_for_due_in_loop due) (fun _ => scheduled_post key e' s)
    (set_tables (<[key := e']> (sessions_ (mgr s))) h s)).
  set (s1 := set_tables _ _ s).
  assert (core s1) as C1.
  { destruct HC as [C1 C2 C3 C4]. split; simpl; [exact Hh|..].
    - intros k e2 [[<- <-]|[Hk Hk2]]%lookup_insert_Some Hx Hn; rewrite Hp'; [set_solver|].
      apply elem_of_app. left. auto.
    - intros n. rewrite Hp', elem_of_app, list_elem_of_singleton.
      intros [?| ->]; [auto|]. simpl. unfold due. lia.
    - intros k e2 [[<- <-]|[Hk Hk2]]%lookup_insert_Some; [|auto].
      destruct (C4 key e He). split; done. }
  eapply wp_wand; [apply wp_arm; [exact Hf|unfold due; lia]|].
  intros _ s2 [A1 A2 A3 A4 AG A5 A6 A7].
  assert (running_ (mgr s1) = running_ (mgr s)) as Hr by done. rewrite Hr in A5.
  split; rewrite ?A2, ?A3, ?A4; try done.
  - eapply ext_trans; [apply ext_set_tables|done].
  - eapply core_same; eauto.
  - intros Hrun. apply A5. done.
  - intros Hrun Hb. destruct (A5 Hrun) as (B1 & B2 & B3).
    apply (below_push s s2 (node_of key e')); try done. rewrite A3. exact Hp'.
Qed.

(** ** Packets and messages of one session *)

(** A step that only touches the session of one key, and not the timers. *)
Record quiet (key : KcpSessionKey) (s s' : KState) : Prop := {
  q_ext : ext (for_key key) s s';
  q_core : core s';
  q_mgr : exists t, mgr s' = with_sessions t (mgr s);
  q_frame : forall k, k <> key -> sessions_ (mgr s') !! k = sessions_ (mgr s) !! k;
  q_delivered : exists ms, delivered s' = delivered s ++ ((key,.) <$> ms);
}.

Lemma quiet_refl key s : core s -> quiet key s s.
Proof.
  intros HC. split; try done; [apply ext_refl|..].
  - exists (sessions_ (mgr s)). destruct (mgr s). done.
  - exists []. simpl. rewrite app_nil_r. done.
Qed.

Lemma quiet_trans key s1 s2 s3 : quiet key s1 s2 -> quiet key s2 s3 -> quiet key s1 s3.
Proof.
  intros [A1 A2 (t & A3) A4 (ms & A5)] [B1 B2 (t' & B3) B4 (ms' & B5)]. split; try done.
  - by eapply ext_trans.
  - exists t'. rewrite B3, A3. done.
  - intros k Hk. rewrite B4, A4; done.
  - exists (ms ++ ms'). rewrite B5, A5, fmap_app, app_assoc. done.
Qed.

(** What the handlers of one session guarantee. *)
Record handled (key : KcpSessionKey) (s s' : KState) : Prop := {
  h_ext : ext (for_key key) s s';
  h_core : core s';
  h_live : live s -> live s';
  h_armed : armed s <> 0 -> armed s' <> 0;
  h_below : running_ (mgr s) = true -> below s -> below s';
  h_frame : forall k, k <> key -> sessions_ (mgr s') !! k = sessions_ (mgr s) !! k;
  h_delivered : exists ms, delivered s' = delivered s ++ ((key,.) <$> ms);
}.

Lemma quiet_handled key s s' : quiet key s s' -> handled key s s'.
Proof.
  intros [A1 A2 (t & A3) A4 A5]. split; try done; unfold live, below, armed; rewrite A3; simpl;
    try done.
  intros Hl Hn. destruct (Hl Hn) as [ms Hms]. exists ms. by eapply ext_requests.
Qed.

Lemma wp_update_quiet key f e s :
  core s -> sessions_ (mgr s) !! key = Some e -> entry_ok (env_clock (ticks s)) key (f e) ->
  next_due_mono_ms (f e) = next_due_mono_ms e -> schedule_seq (f e) = schedule_seq e ->
  wp (update_entry key f)
    (fun _ s' => quiet key s s' /\ sessions_ (mgr s') = <[key := f e]> (sessions_ (mgr s))) s.
Proof.
  intros HC He Hok Hd Hq. apply wp_update_entry. rewrite (alter_insert_some _ _ _ e He).
  split; [|done]. split.
  - apply ext_set_tables.
  - by apply (core_replace _ s key e).
  - exists (<[key := f e]> (sessions_ (mgr s))). reflexivity.
  - intros k Hk. simpl. rewrite lookup_insert_ne; done.
  - exists []. simpl. rewrite app_nil_r. done.
Qed.

Lemma wp_ask_quiet {A} key (f : nat -> A) s :
  core s -> wp (ask f) (fun a s' => quiet key s s' /\ a = f (ticks s) /\ mgr s' = mgr s /\
                                    ticks s' = S (ticks s)) s.
Proof.
  intros HC. apply wp_ask. split; [|done].
  set (s' := mkK _ _ _ _).
  assert (ext (for_key key) s s') as Hx.
  { split; try done; [|simpl; lia]. exists []. rewrite app_nil_r. done. }
  split; try done.
  - by apply (core_same _ _ _ _ Hx).
  - exists (sessions_ (mgr s)). simpl. destruct (mgr s). done.
  - exists []. rewrite app_nil_r. done.
Qed.

Lemma new_session_ok key b c :
  session_valid (new_KcpSession b (key_conv key) (Some (make_ipv4_addr key)) sizeof_sockaddr_in true c)
  = b /\
  (b = true -> forall now due seq t, 0 <= now <= t -> key_valid key = true ->
    entry_ok t key (mkEntry (new_KcpSession b (key_conv key) (Some (make_ipv4_addr key))
                              sizeof_sockaddr_in true c) now due seq)).
Proof.
  split; [destruct b; done|]. intros -> now due seq t Ht Hk. split; done.
Qed.

Lemma wp_find_or_create key s :
  core s ->
  wp (find_or_create_session_entry_in_loop key) (fun found s' =>
    quiet key s s' /\ (found = true -> is_Some (sessions_ (mgr s') !! key)) /\
    (found = false -> sessions_ (mgr s') = sessions_ (mgr s))) s.
Proof.
  intros HC. unfold find_or_create_session_entry_in_loop. apply wp_bind, wp_gets.
  destruct (sessions_ (mgr s) !! key) as [e|] eqn:He.
  { apply wp_ret. split; [by apply quiet_refl|]. split; [rewrite He; eauto|done]. }
  destruct (key_valid key) eqn:Hv; cbn [negb].
  2: { apply wp_ret. split; [by apply quiet_refl|done]. }
  apply wp_bind. eapply wp_wand; [by apply (wp_ask_quiet key)|].
  intros b s1 (Q1 & -> & M1 & T1). set (b := env_create _).
  destruct (new_session_ok key b (session_config_ (mgr s))) as [-> Hok].
  destruct b; cbn [negb]; [|apply wp_ret; rewrite M1; done].
  apply wp_bind. eapply wp_wand; [apply (wp_ask_quiet key), Q1|].
  intros now s2 (Q2 & -> & M2 & T2). apply wp_bind. unfold wp. simpl.
  set (ent := mkEntry _ _ _ _).
  assert (quiet key s2 (set_tables (<[key := ent]> (sessions_ (mgr s2))) (timer_heap_ (mgr s2)) s2))
    as Q3.
  { destruct (q_core _ _ _ Q2) as [C1 C2 C3 C4]. split; [apply ext_set_tables|..].
    - split; simpl; try done.
      + intros k e [[<- <-]|[Hk Hk2]]%lookup_insert_Some Hx Hn; [done|auto].
      + intros k e [[<- <-]|[Hk Hk2]]%lookup_insert_Some; [|auto].
        apply Hok; try done. rewrite T2. apply (eg_clock G).
    - eexists. reflexivity.
    - intros k Hk. simpl. rewrite lookup_insert_ne; done.
    - exists []. rewrite app_nil_r. done. }
  split; [|split; [|done]].
  - exact (quiet_trans _ _ _ _ Q1 (quiet_trans _ _ _ _ Q2 Q3)).
  - intros _. rewrite lookup_insert_eq. eauto.
Qed.

Lemma wp_messages key ms s :
  core s ->
  wp (handle_session_messages key ms) (fun _ s' =>
    quiet key s s' /\ mgr s' = mgr s /\ ticks s' = ticks s /\
    delivered s' = delivered s ++ ((key,.) <$> ms)) s.
Proof.
  revert s. induction ms as [|m ms IH]; intros s HC; cbn [handle_session_messages].
  { apply wp_ret. split; [by apply quiet_refl|]. simpl. rewrite app_nil_r. done. }
  apply wp_bind. unfold wp at 1. simpl. set (s1 := mkK _ _ _ _).
  assert (ext (for_key key) s s1) as Hx.
  { split; try done. exists []. rewrite app_nil_r. done. }
  assert (quiet key s s1) as Q1.
  { split; try done.
    - by apply (core_same _ _ _ _ Hx).
    - exists (sessions_ (mgr s)). simpl. destruct (mgr s). done.
    - exists [m]. done. }
  eapply wp_wand; [apply IH, Q1|]. intros _ s2 (Q2 & M2 & T2 & D2).
  split; [by eapply quiet_trans|]. split; [done|]. split; [done|].
  rewrite D2. simpl. rewrite <- app_assoc. done.
Qed.

Lemma wp_drain fuel key e s :
  core s -> sessions_ (mgr s) !! key = Some e ->
  wp (drain_session_messages_in_loop fuel key) (fun _ s' =>
    quiet key s s' /\ is_Some (sessions_ (mgr s') !! key) /\
    (has_callback (mgr s) = true -> forall ms ks,
     drain_messages fuel (entry_session e) = Some (ms, ks) ->
     delivered s' = delivered s ++ ((key,.) <$> ms) /\
     sessions_ (mgr s') !! key = Some (mkEntry ks (last_active_mono_ms e)
       (next_due_mono_ms e) (schedule_seq e)))) s.
Proof.
  intros HC He. unfold drain_session_messages_in_loop. apply wp_bind, wp_gets.
  destruct (has_callback (mgr s)); cbn [negb].
  2: { apply wp_ret. split; [by apply quiet_refl|]. split; [eauto|done]. }
  rewrite He. destruct (drain_messages fuel (entry_session e)) as [[ms ks]|] eqn:Hd.
  2: { apply wp_ret. split; [by apply quiet_refl|]. split; [eauto|done]. }
  apply wp_bind. eapply wp_wand; [by apply wp_messages|]. intros _ s1 (Q1 & M1 & T1 & D1).
  eapply wp_wand; [apply wp_conj_l; [|apply (wp_update_quiet key _ e)]|].
  - exact (delivered_update key _ s1).
  - apply Q1.
  - rewrite M1. done.
  - apply entry_ok_session; [rewrite T1; by apply (c_entry _ s HC)|].
    eapply drain_messages_same, Hd.
  - done.
  - done.
  - intros _ s2 (D2 & Q2 & S2). split; [by eapply quiet_trans|].
    rewrite S2, lookup_insert_eq. split; [eauto|]. intros _ ms' ks' [= <- <-].
    split; [rewrite D2, D1|]; done.
Qed.

(** From the activity stamp to the rescheduling: the common part of the handlers. *)
Lemma wp_touch_run key op mono_now e s :
  core s -> sessions_ (mgr s) !! key = Some e -> 0 <= mono_now <= env_clock (ticks s) ->
  (forall ks, same_session ks (op ks).2) ->
  wp (touch_entry key mono_now;; run_session key (-1) op) (fun r s' =>
    quiet key s s' /\ delivered s' = delivered s /\ r = (op (entry_session e)).1.1 /\
    sessions_ (mgr s') !! key = Some (mkEntry (op (entry_session e)).2 mono_now
      (next_due_mono_ms e) (schedule_seq e))) s.
Proof.
  intros HC He Ht Hop. apply wp_bind. unfold touch_entry.
  eapply wp_wand; [apply wp_conj_l; [apply (delivered_update key)|]; apply (wp_update_quiet key _ e);
    try done|].
  { destruct (c_entry _ s HC key e He). split; done. }
  intros _ s1 (D1 & Q1 & S1).
  set (e1 := mkEntry _ _ _ _) in S1.
  eapply wp_wand; [apply (wp_run_session (fun _ => False) key (-1) op e1)|].
  - apply Q1.
  - rewrite S1, lookup_insert_eq. done.
  - apply Hop.
  - intros r s2 (-> & E2 & C2 & D2 & M2).
    assert (quiet key s1 s2) as Q2.
    { split; try done; [eexists; exact M2|..].
      - intros k Hk. rewrite M2. simpl. rewrite lookup_insert_ne; done.
      - exists []. rewrite app_nil_r. done. }
    split; [by eapply quiet_trans|]. split; [congruence|]. split; [done|].
    rewrite M2. simpl. rewrite lookup_insert_eq. done.
Qed.

Lemma wp_schedule_handled key now mono_now e s0 s :
  quiet key s0 s -> flags_ok s0 -> sessions_ (mgr s) !! key = Some e -> 0 <= mono_now < 2 ^ 62 ->
  wp (schedule_session_in_loop key now mono_now) (fun _ s' =>
    handled key s0 s' /\ delivered s' = delivered s /\
    sessions_ (mgr s') !! key = Some (rescheduled now mono_now e)) s.
Proof.
  intros Q Hf He Ht. pose proof (quiet_handled _ _ _ Q) as [A1 A2 A3 A4 A5 A6 (ms & A7)].
  assert (running_ (mgr s) = running_ (mgr s0)) as Hr by apply A1.
  eapply wp_wand; [apply (wp_schedule key now mono_now e)|]; try done.
  { by apply core_weaken. }
  { unfold flags_ok. rewrite Hr, (ext_d_running _ _ _ A1). done. }
  intros _ s' [B1 B2 B3 BG B4 B5 B6 B7 B8 B9]. rewrite Hr in B7, B9.
  destruct Q as [_ _ (t & Hm) _ _]. split; [split|split; [done|]].
  - eapply ext_trans; [done|]. eapply ext_mono; [|done]. apply timeout_for_key.
  - done.
  - auto.
  - auto.
  - auto.
  - intros k Hk. rewrite B4, lookup_insert_ne by done. auto.
  - exists ms. congruence.
  - rewrite B4, lookup_insert_eq. done.
Qed.

Lemma clock_range n : 0 <= env_clock n < 2 ^ 62.
Proof. pose proof (eg_clock G n). pose proof (eg_clock_bound G n). lia. Qed.

Lemma quiet_flags key s s' : quiet key s s' -> flags_ok s -> flags_ok s'.
Proof.
  intros [A1 _ _ _ _] Hf. unfold flags_ok. rewrite (ext_running _ _ _ A1), (ext_d_running _ _ _ A1).
  done.
Qed.

Lemma wp_packet fuel peer peer_len data conv s :
  core s -> flags_ok s -> extract_conv data = Some conv ->
  wp (handle_udp_packet fuel peer peer_len data)
    (fun _ => handled (make_key conv peer peer_len) s) s.
Proof.
  intros HC Hf Hx. unfold handle_udp_packet. rewrite Hx. set (key := make_key _ _ _).
  apply wp_bind. eapply wp_wand; [by apply wp_find_or_create|].
  intros found s1 (Q1 & Hfound & _). destruct found; cbn [negb].
  2: { apply wp_ret. by apply quiet_handled. }
  destruct (Hfound eq_refl) as [e He].
  apply wp_bind. eapply wp_wand; [apply (wp_ask_quiet key), Q1|]. intros mono s2 (Q2 & -> & M2 & T2).
  pose proof (clock_range (ticks s1)) as Ht.
  apply wp_assoc, wp_bind.
  eapply wp_wand; [apply (wp_touch_run key _ _ e); try done|].
  { apply Q2. }
  { rewrite M2. done. }
  { rewrite T2. apply (eg_clock G). }
  { intros ks. apply input_packet_same. }
  intros r s3 (Q3 & _ & _ & He3). pose proof (quiet_trans _ _ _ _ Q1 (quiet_trans _ _ _ _ Q2 Q3)) as Q13.
  destruct (r <? 0). { apply wp_ret. by apply quiet_handled. }
  apply wp_bind. eapply wp_wand; [eapply wp_drain; [apply Q3|exact He3]|].
  intros _ s4 (Q4 & [e4 He4] & _).
  eapply wp_wand; [eapply (wp_schedule_handled key _ _ e4 s);
    [exact (quiet_trans _ _ _ _ Q13 Q4)|done..]|].
  intros _ s5 [? _]. done.
Qed.

Lemma wp_send_in_loop key data s :
  core s -> flags_ok s -> wp (send_in_loop key data) (fun _ => handled key s) s.
Proof.
  intros HC Hf. unfold send_in_loop. case_cond.
  { apply wp_ret, quiet_handled, quiet_refl. done. }
  apply wp_bind. eapply wp_wand; [by apply wp_find_or_create|].
  intros found s1 (Q1 & Hfound & _). destruct found; cbn [negb].
  2: { apply wp_ret. by apply quiet_handled. }
  destruct (Hfound eq_refl) as [e He].
  apply wp_bind. eapply wp_wand; [apply (wp_ask_quiet key), Q1|]. intros mono s2 (Q2 & -> & M2 & T2).
  pose proof (clock_range (ticks s1)) as Ht.
  apply wp_assoc, wp_bind.
  eapply wp_wand; [apply (wp_touch_run key _ _ e); try done|].
  { apply Q2. }
  { rewrite M2. done. }
  { rewrite T2. apply (eg_clock G). }
  { intros ks. apply send_app_data_same. }
  intros r s3 (Q3 & _ & _ & He3). pose proof (quiet_trans _ _ _ _ Q1 (quiet_trans _ _ _ _ Q2 Q3)) as Q13.
  destruct (r <? 0). { apply wp_ret. by apply quiet_handled. }
  apply wp_bind. eapply wp_wand; [eapply (wp_schedule_handled key _ _ _ s); try done|].
  intros _ s4 [? _]. done.
Qed.

(** ** The tick *)

(** What a tick does to one entry. *)
Definition update_session (now : Z) (ks : KcpSession) : KcpSession :=
  if kcp_time_reached now (session_check ks now) then (session_update ks now).2 else ks.

Definition tick_entry (now mono_now : Z) (e : SessionEntry) : SessionEntry :=
  if (0 <? next_due_mono_ms e) && (next_due_mono_ms e <=? mono_now)
  then rescheduled now mono_now (mkEntry (update_session now (entry_session e))
         (last_active_mono_ms e) (next_due_mono_ms e) (schedule_seq e))
  else e.

Lemma tick_entry_idemp now mono_now e :
  tick_entry now mono_now (tick_entry now mono_now e) = tick_entry now mono_now e.
Proof.
  unfold tick_entry at 2 3. case_cond; [|unfold tick_entry; rewrite E0; done].
  unfold tick_entry, rescheduled. simpl.
  pose proof (kcp_delay_bounds now (session_check (update_session now (entry_session e)) now)).
  rewrite (proj2 (Z.leb_gt _ mono_now)) by lia. rewrite andb_false_r. done.
Qed.

Definition due_nodes (mono_now : Z) (h : list TimerNode) : nat :=
  length (filter (fun n => due_mono_ms n <= mono_now) h).

#[global] Instance due_nodes_perm mono_now : Proper (Permutation ==> eq) (due_nodes mono_now).
Proof. intros h h' Hp. unfold due_nodes. rewrite Hp. done. Qed.

Lemma due_nodes_length mono_now h : (due_nodes mono_now h <= length h)%nat.
Proof. apply length_filter. Qed.

Lemma due_nodes_cons mono_now n h :
  due_nodes mono_now (n :: h) =
    ((if decide (due_mono_ms n <= mono_now)%Z then 1 else 0) + due_nodes mono_now h)%nat.
Proof. unfold due_nodes. rewrite filter_cons. case_decide; done. Qed.

Lemma due_nodes_snoc mono_now n h :
  mono_now < due_mono_ms n -> due_nodes mono_now (h ++ [n]) = due_nodes mono_now h.
Proof.
  intros Hn. rewrite (Permutation_app_comm h [n]). simpl.
  rewrite due_nodes_cons, decide_False by lia. done.
Qed.

Lemma any_request P s s' : ext P s s' -> ext (fun _ => True) s s'.
Proof. apply ext_mono. done. Qed.

Lemma is_current_node node e : is_current node e = true <-> node = node_of (timer_key node) e.
Proof.
  unfold is_current, node_of. destruct node as [due seq key]. simpl.
  rewrite andb_true_iff, !Z.eqb_eq. split; [intros [-> ->]; done|intros [= -> ->]; done].
Qed.

(** A popped timer that is not current leaves the other timers where they are. *)
Lemma core_pop X s top l h :
  core s -> timer_heap_ (mgr s) = top :: l -> h ≡ₚ l -> is_heap TimerNodeGreater h ->
  (forall key e, sessions_ (mgr s) !! key = Some e -> node_of key e = top -> X key) ->
  core_but X (set_tables (sessions_ (mgr s)) h s).
Proof.
  intros [C1 C2 C3 C4] Hl Hp Hh HX. rewrite Hl in C2, C3. split; simpl; try done.
  - intros key e He Hx Hn. rewrite Hp.
    destruct (proj1 (elem_of_cons _ _ _) (C2 key e He (fun f => f) Hn)) as [Ht|?]; [|done].
    destruct Hx. eauto.
  - intros n. rewrite Hp. intros ?. apply C3. set_solver.
Qed.

(** The update of a due session. *)
Lemma wp_update_if_due X key now e s :
  core_but X s -> sessions_ (mgr s) !! key = Some e ->
  wp (update_if_due key now) (fun _ s' =>
    ext (for_key key) s s' /\ core_but X s' /\ delivered s' = delivered s /\
    mgr s' = with_sessions (<[key := mkEntry (update_session now (entry_session e))
      (last_active_mono_ms e) (next_due_mono_ms e) (schedule_seq e)]> (sessions_ (mgr s))) (mgr s)) s.
Proof.
  intros HC He. unfold update_if_due, update_session.
  pose proof (session_update_same (entry_session e) now) as Hsame.
  eapply wp_wand; [apply (wp_run_session X key tt _ e); try done|].
  - case_cond; [|apply same_session_refl]. destruct (session_update (entry_session e) now). done.
  - intros _ s' (_ & E1 & C1 & D1 & M1). split; [done|]. split; [done|]. split; [done|].
    rewrite M1. case_cond; [|done]. destruct (session_update (entry_session e) now). done.
Qed.

Record tick_post (now mono_now : Z) (s s' : KState) : Prop := {
  tp_ext : ext (fun _ => True) s s';
  tp_core : core s';
  tp_live : live s';
  tp_delivered : delivered s' = delivered s;
  tp_gc : next_idle_gc_mono_ms_ (mgr s') = next_idle_gc_mono_ms_ (mgr s);
  tp_sessions : sessions_ (mgr s') = tick_entry now mono_now <$> sessions_ (mgr s);
  tp_later : forall n, n ∈ timer_heap_ (mgr s') -> mono_now < due_mono_ms n;
  tp_below : timer_heap_ (mgr s') <> [] -> armed s' <> 0 /\ below s';
}.

Lemma tick_post_trans now mono_now s s1 s2 :
  ext (fun _ => True) s s1 -> delivered s1 = delivered s ->
  next_idle_gc_mono_ms_ (mgr s1) = next_idle_gc_mono_ms_ (mgr s) ->
  tick_entry now mono_now <$> sessions_ (mgr s1) = tick_entry now mono_now <$> sessions_ (mgr s) ->
  tick_post now mono_now s1 s2 -> tick_post now mono_now s s2.
Proof.
  intros Hx Hd Hg Hs [A1 A2 A3 A4 AG A5 A6 A7]. split; try done; try congruence.
  by eapply ext_trans.
Qed.

(** No entry is due when no timer is. *)
Lemma nothing_due now mono_now s :
  core s -> (forall n, n ∈ timer_heap_ (mgr s) -> mono_now < due_mono_ms n) ->
  tick_entry now mono_now <$> sessions_ (mgr s) = sessions_ (mgr s).
Proof.
  intros HC Hl. rewrite <- (map_fmap_id (sessions_ (mgr s))) at 2. apply map_fmap_ext.
  intros key e He. unfold tick_entry. case_cond; [|done]. bool_norm.
  specialize (Hl _ (c_nodes _ s HC key e He (fun f => f) ltac:(lia))). simpl in Hl. lia.
Qed.

Lemma fmap_tick_insert now mono_now (t : gmap KcpSessionKey SessionEntry) key e :
  t !! key = Some e ->
  tick_entry now mono_now <$> <[key := tick_entry now mono_now e]> t =
  tick_entry now mono_now <$> t.
Proof.
  intros He. rewrite fmap_insert, tick_entry_idemp. apply insert_id.
  rewrite lookup_fmap, He. done.
Qed.

(** One turn of the loop on a timer that is current: the session is updated and rescheduled. *)
Lemma wp_serve now mono_now top l h e s :
  core s -> flags_ok s -> live s -> 0 <= mono_now < 2 ^ 62 ->
  timer_heap_ (mgr s) = top :: l -> h ≡ₚ l -> is_heap TimerNodeGreater h ->
  due_mono_ms top <= mono_now -> sessions_ (mgr s) !! timer_key top = Some e ->
  is_current top e = true ->
  wp (update_if_due (timer_key top) now;; schedule_session_in_loop (timer_key top) now mono_now)
    (fun _ s' => ext (fun _ => True) s s' /\ core s' /\ live s' /\ delivered s' = delivered s /\
      next_idle_gc_mono_ms_ (mgr s') = next_idle_gc_mono_ms_ (mgr s) /\ sessions_ (mgr s') =
        <[timer_key top := tick_entry now mono_now e]> (sessions_ (mgr s)) /\
      due_nodes mono_now (timer_heap_ (mgr s')) = due_nodes mono_now l)
    (set_tables (sessions_ (mgr s)) h s).
Proof.
  intros HC Hf Hlive Ht Hl Hp Hh Hdue He Hcur. set (key := timer_key top) in *.
  apply is_current_node in Hcur.
  assert (core_but (eq key) (set_tables (sessions_ (mgr s)) h s)) as C1.
  { eapply core_pop; try done. intros k e' He' Hk. subst key. rewrite <- Hk. done. }
  assert (tick_entry now mono_now e = rescheduled now mono_now (mkEntry
    (update_session now (entry_session e)) (last_active_mono_ms e) (next_due_mono_ms e)
    (schedule_seq e))) as Hte.
  { unfold tick_entry. rewrite Hcur in Hdue. simpl in Hdue.
    assert (0 < due_mono_ms top) as Hpos by (apply (c_due _ s HC); rewrite Hl; set_solver).
    rewrite Hcur in Hpos. simpl in Hpos.
    rewrite (proj2 (Z.ltb_lt _ _)), (proj2 (Z.leb_le _ _)) by lia. done. }
  apply wp_bind. eapply wp_wand; [by apply (wp_update_if_due (eq key) key now e)|].
  intros _ s1 (E1 & C1' & D1 & M1).
  set (e1 := mkEntry (update_session now (entry_session e)) _ _ _) in *.
  assert (live s1) as L1.
  { unfold live, armed. rewrite M1. simpl. intros Hn. destruct (Hlive Hn) as [ms Hms].
    exists ms. eapply ext_requests; [exact E1|exact Hms]. }
  eapply wp_wand; [apply (wp_schedule key now mono_now e1); try done|].
  - unfold flags_ok. rewrite (ext_running _ _ _ E1), (ext_d_running _ _ _ E1). done.
  - rewrite M1. simpl. apply lookup_insert_eq.
  - intros _ s2 [A1 A2 A3 AG A4 A5 A6 A7 A8 A9]. rewrite Hte. split; [|split; [done|]].
    { eapply ext_trans; [apply (ext_set_tables _ (sessions_ (mgr s)) h)|].
      eapply ext_trans; [eapply any_request, E1|eapply any_request, A1]. }
    split; [auto|]. split; [rewrite A3, D1; done|].
    split; [rewrite AG, M1; done|]. split.
    + rewrite A4, M1. simpl. rewrite insert_insert_eq. done.
    + rewrite A5, M1. simpl. rewrite due_nodes_snoc; [rewrite Hp; done|].
      simpl. pose proof (kcp_delay_bounds now (session_check (update_session now (entry_session e)) now)).
      lia.
Qed.

(** The loop terminates, and serves exactly the sessions that are due. *)
Lemma wp_tick_loop now mono_now : 0 <= mono_now < 2 ^ 62 -> forall fuel s,
  core s -> flags_ok s -> running_ (mgr s) = true -> live s ->
  (due_nodes mono_now (timer_heap_ (mgr s)) < fuel)%nat ->
  wp (tick_loop fuel now mono_now) (fun ok s' => ok = true /\ tick_post now mono_now s s') s.
Proof.
  intros Ht. induction fuel as [|fuel IH]; intros s HC Hf Hr Hlive Hfuel; [lia|].
  cbn [tick_loop]. apply wp_bind, wp_gets.
  destruct (timer_heap_ (mgr s)) as [|top l] eqn:Hl.
  { apply wp_ret. split; [done|]. split; try done; [apply ext_refl|..].
    - rewrite (nothing_due now mono_now); [done..|]. rewrite Hl. set_solver.
    - rewrite Hl. set_solver. }
  destruct (mono_now <? due_mono_ms top) eqn:Hdue; bool_norm.
  - assert (forall n, n ∈ timer_heap_ (mgr s) -> due_mono_ms top <= due_mono_ms n) as Hmin.
    { rewrite Hl. intros n. apply (heap_front_min top l). rewrite <- Hl. apply HC. }
    apply wp_bind. eapply wp_wand; [apply wp_arm; [done|lia]|].
    intros _ s' [A1 A2 A3 A4 AG A5 A6 A7]. apply wp_ret. split; [done|].
    destruct (A5 Hr) as (B1 & B2 & _). split; rewrite ?A2, ?A3; try done; auto.
    + by eapply any_request.
    + by apply (core_same _ _ _ _ A1).
    + symmetry. apply nothing_due; [done|]. intros n Hn. specialize (Hmin n Hn). lia.
    + intros n Hn. specialize (Hmin n Hn). lia.
    + intros _. split; [done|]. unfold below. rewrite decide_False by done. rewrite A3.
      intros n Hn. specialize (Hmin n Hn). lia.
  - destruct (pop_front top l) as (Hlast & Hp & Hh); [rewrite <- Hl; apply HC|].
    rewrite Hlast. apply wp_bind. set (h := take _ _) in *. unfold wp at 1. simpl.
    rewrite due_nodes_cons, decide_True in Hfuel by lia.
    change (mkK (with_heap h (mgr s)) (dispatcher_ s) (delivered s) (ticks s))
      with (set_tables (sessions_ (mgr s)) h s).
    set (s1 := set_tables _ _ s).
    assert (forall X, (forall key e, sessions_ (mgr s) !! key = Some e -> node_of key e = top -> X key) ->
      core_but X s1) as Hpop by (intros X; apply core_pop with (l := l); done).
    assert (sessions_ (mgr s1) = sessions_ (mgr s)) as Hs1 by done.
    destruct (sessions_ (mgr s) !! timer_key top) as [e|] eqn:He.
    + destruct (is_current top e) eqn:Hcur; cbn [negb].
      * apply wp_assoc, wp_bind. eapply wp_wand; [by apply (wp_serve now mono_now top l h e)|].
        intros _ s2 (E2 & C2 & L2 & D2 & G2 & S2 & N2).
        eapply wp_wand; [apply IH; try done|].
        -- unfold flags_ok. rewrite (ext_running _ _ _ E2), (ext_d_running _ _ _ E2). done.
        -- rewrite (ext_running _ _ _ E2). done.
        -- rewrite N2. lia.
        -- intros ok s3 [Hok Hpost]. split; [done|]. eapply tick_post_trans; try done.
           rewrite S2. by apply fmap_tick_insert.
      * eapply wp_wand; [apply IH; try done|].
        -- apply Hpop. intros key e' He' Hk. rewrite <- Hk in He, Hcur. simpl in He.
           assert (e' = e) as -> by congruence.
           rewrite (proj2 (is_current_node _ _)) in Hcur; done.
        -- simpl. rewrite Hp. lia.
        -- intros ok s3 [Hok Hpost]. split; [done|]. apply (tick_post_trans _ _ s s1); try done.
           apply ext_set_tables.
    + eapply wp_wand; [apply IH; try done|].
      * apply Hpop. intros key e' He' Hk. rewrite <- Hk in He. simpl in He. congruence.
      * simpl. rewrite Hp. lia.
      * intros ok s3 [Hok Hpost]. split; [done|]. apply (tick_post_trans _ _ s s1); try done.
        apply ext_set_tables.
Qed.

(** ** Idle sessions *)

Lemma core_filter s (P : KcpSessionKey * SessionEntry -> Prop) `{!forall x, Decision (P x)} :
  core s -> core (set_tables (filter P (sessions_ (mgr s))) (timer_heap_ (mgr s)) s).
Proof.
  intros [C1 C2 C3 C4]. split; simpl; try done.
  - intros key e [He _]%map_lookup_filter_Some. auto.
  - intros key e [He _]%map_lookup_filter_Some. auto.
Qed.

(** The table after the collection at [mono_now]. *)
Definition collect_due (mono_now : Z) (m : KcpManager) : bool :=
  negb (idle_timeout_ms_ m =? 0) &&
  ((next_idle_gc_mono_ms_ m =? 0) || (next_idle_gc_mono_ms_ m <=? mono_now)).

Definition keeps_entry (mono_now : Z) (m : KcpManager) (e : SessionEntry) : bool :=
  negb (collect_due mono_now m) || (mono_now - last_active_mono_ms e <? idle_timeout_ms_ m).

Record collect_post (mono_now : Z) (s s' : KState) : Prop := {
  cp_ext : ext (fun _ => True) s s';
  cp_core : core s';
  cp_live : live s -> live s';
  cp_armed : armed s' = armed s;
  cp_heap : timer_heap_ (mgr s') = timer_heap_ (mgr s);
  cp_delivered : delivered s' = delivered s;
  cp_sessions : forall key e, sessions_ (mgr s') !! key = Some e <->
    sessions_ (mgr s) !! key = Some e /\ keeps_entry mono_now (mgr s) e = true;
}.

Lemma wp_collect mono_now s :
  core s -> 0 <= mono_now < 2 ^ 62 ->
  (forall key e, sessions_ (mgr s) !! key = Some e -> 0 <= last_active_mono_ms e <= mono_now) ->
  wp (maybe_collect_idle_sessions_in_loop mono_now) (fun _ => collect_post mono_now s) s.
Proof.
  intros HC Ht Ha. unfold maybe_collect_idle_sessions_in_loop. apply wp_bind, wp_gets.
  assert (negb (idle_timeout_ms_ (mgr s) =? 0) = false \/
          negb (next_idle_gc_mono_ms_ (mgr s) =? 0) && (mono_now <? next_idle_gc_mono_ms_ (mgr s)) = true ->
          collect_due mono_now (mgr s) = false) as Hno.
  { unfold collect_due. intros [-> | [Hz Hn]%andb_prop]; [done|]. apply negb_true_iff in Hz.
    apply Z.ltb_lt in Hn. rewrite Hz, (proj2 (Z.leb_gt _ _)) by lia. apply andb_false_r. }
  assert (collect_due mono_now (mgr s) = false -> collect_post mono_now s s) as Hskip.
  { intros Hc. split; try done; [apply ext_refl|]. intros key e. unfold keeps_entry.
    rewrite Hc. simpl. naive_solver. }
  destruct (idle_timeout_ms_ (mgr s) =? 0) eqn:Hz; cbn [negb] in *; [apply wp_ret; auto|].
  case_cond; [apply wp_ret; auto|]. clear Hno Hskip.
  apply wp_bind. unfold wp. simpl.
  set (t := filter _ _). set (gc := wrap 64 _).
  pose proof (core_filter s (fun p => is_idle (idle_timeout_ms_ (mgr s)) mono_now p.2 = false) HC)
    as HC'.
  split; try done.
  - split; try done. exists []. rewrite app_nil_r. done.
  - destruct HC'. split; done.
  - intros key e. simpl. unfold t. rewrite map_lookup_filter_Some.
    assert (collect_due mono_now (mgr s) = true) as Hc.
    { unfold collect_due. rewrite Hz. cbn [negb andb]. apply andb_false_iff in E0.
      rewrite orb_true_iff, Z.eqb_eq, Z.leb_le. destruct E0; bool_norm; lia. }
    unfold keeps_entry. rewrite Hc. cbn [negb orb].
    split; intros [He Hi]; (split; [done|]); specialize (Ha key e He); unfold is_idle in *; simpl in *;
      rewrite wrap_id in * by (unfold fits; lia); bool_norm.
    + apply Z.ltb_lt. lia.
    + apply Z.leb_gt. lia.
Qed.
End proofs.
