(* ===== verification/KcpLoop.v ===== *)
(** The event loop of the KCP manager: a tick as a whole, and the invariant of the manager, its
    dispatcher and the requests under way, kept by every step of every thread. *)
From S2P Require Import Prelude KcpConv Identity KcpSession KcpManager KcpManagerProofs.

Section kcp_loop.
Context {I : Ikcp} {E : KcpEnv} {H : HeapAlgorithms TimerNodeGreater}.
Context (G : env_good).

Abbreviation core := (core_but (fun _ => False)).

(** ** A tick *)

Record served (mono_now : Z) (s s' : KState) : Prop := {
  sv_ext : ext (fun _ => True) s s';
  sv_core : core s';
  sv_live : live s';
  sv_armed : armed s' <> 0;
  sv_below : below s';
  sv_delivered : delivered s' = delivered s;
  sv_sessions : forall key e', sessions_ (mgr s') !! key = Some e' <->
    exists e, sessions_ (mgr s) !! key = Some e /\ keeps_entry mono_now (mgr s) e = true /\
      e' = tick_entry (kcp_now_ms mono_now) mono_now e;
  sv_later : forall n, n ∈ timer_heap_ (mgr s') -> mono_now < due_mono_ms n;
}.

Lemma tick_entry_active now mono_now e :
  last_active_mono_ms (tick_entry now mono_now e) = last_active_mono_ms e.
Proof. unfold tick_entry. case_cond; done. Qed.

Lemma below_empty s : armed s <> 0 -> timer_heap_ (mgr s) = [] -> below s.
Proof. intros Hn Hh. unfold below. rewrite decide_False, Hh by done. set_solver. Qed.

Lemma wp_handle_tick s :
  core s -> flags_ok s -> running_ (mgr s) = true -> live s ->
  0 < fallback_tick_ms_ (mgr s) < 2 ^ 62 ->
  wp handle_tick (fun ok s' => ok = true /\ served (env_clock (ticks s)) s s') s.
Proof.
  intros HC Hf Hr Hl Hfb. unfold handle_tick. apply wp_bind, wp_gets. rewrite Hr. cbn [negb].
  apply wp_bind, wp_ask. set (mono := env_clock (ticks s)). set (s1 := mkK _ _ _ _).
  pose proof (clock_range G (ticks s)) as Ht. fold mono in Ht.
  assert (ext (fun _ => True) s s1) as E1.
  { split; try done; [|simpl; lia]. exists []. rewrite app_nil_r. done. }
  assert (core s1) as C1 by (apply (core_same G _ _ _ _ E1); done).
  apply wp_bind. eapply wp_wand; [apply (wp_tick_loop G); try done|].
  { pose proof (due_nodes_length mono (timer_heap_ (mgr s1))). simpl in *. lia. }
  intros ok s2 [-> [A1 A2 A3 A4 A5 A6 A7 A8]]. apply wp_bind, wp_gets.
  assert (running_ (mgr s2) = true) as Hr2 by (rewrite (ext_running _ _ _ A1); done).
  assert (flags_ok s2) as Hf2.
  { unfold flags_ok. rewrite (ext_d_running _ _ _ A1). intros _. apply Hf. done. }
  assert (fallback_tick_ms_ (mgr s2) = fallback_tick_ms_ (mgr s)) as Hfb2
    by (rewrite (ext_fallback _ _ _ A1); done).
  apply wp_bind.
  apply (wp_wand _ (fun _ s3 => ext (fun _ => True) s2 s3 /\ core s3 /\ live s3 /\ armed s3 <> 0 /\
    below s3 /\ delivered s3 = delivered s2 /\ sessions_ (mgr s3) = sessions_ (mgr s2) /\
    timer_heap_ (mgr s3) = timer_heap_ (mgr s2) /\
    next_idle_gc_mono_ms_ (mgr s3) = next_idle_gc_mono_ms_ (mgr s2))).
  - destruct (decide (timer_heap_ (mgr s2) = [])) as [Hh|Hh].
    + rewrite (bool_decide_eq_true_2 _ Hh), Hr2. cbn [andb].
      rewrite Hfb2, wrap_id by (unfold fits; lia).
      eapply wp_wand; [apply (wp_arm G); [done|lia]|].
      intros _ s3 [B1 B2 B3 B4 BG B5 B6 B7]. destruct (B5 Hr2) as (B8 & _).
      assert (timer_heap_ (mgr s3) = []) as Hh3 by congruence.
      split; [by eapply any_request|]. split; [by apply (core_same G _ _ _ _ B1)|].
      split; [auto|]. split; [done|]. split; [by apply below_empty|]. done.
    + rewrite (bool_decide_eq_false_2 _ Hh). cbn [andb]. apply wp_ret.
      destruct (A8 Hh). split; [apply ext_refl|]. done.
  - intros _ s3 (B1 & B2 & B3 & B4 & B5 & B6 & B7 & B8 & BG).
    apply wp_bind. eapply wp_wand; [apply (wp_collect mono); try done|].
    { intros key e. rewrite B7, A6, lookup_fmap_Some. intros (e0 & <- & He0).
      rewrite tick_entry_active. apply (c_entry _ s HC key e0 He0). }
    intros _ s4 [D1 D2 D3 D4 D5 D6 D7]. apply wp_ret. split; [done|].
    pose proof (ext_trans _ _ _ _ E1 (ext_trans _ _ _ _ A1 B1)) as X3.
    split; rewrite ?D4, ?D5, ?D6, ?B8; try done; auto; try congruence.
    + by eapply ext_trans.
    + unfold below in *. rewrite D4, D5. done.
    + rewrite B6, A4. done.
    + intros key e'. rewrite D7, B7, A6, lookup_fmap_Some.
      assert (forall e, keeps_entry mono (mgr s3) (tick_entry (kcp_now_ms mono) mono e) =
                        keeps_entry mono (mgr s) e) as Hk.
      { intros e. unfold keeps_entry, collect_due.
        rewrite tick_entry_active, BG, A5, (ext_idle _ _ _ X3). done. }
      split.
      * intros [(e & <- & He) Hk']. rewrite Hk in Hk'. exists e. done.
      * intros (e & He & Hk' & ->). rewrite Hk. split; [eexists; split; done|done].
Qed.

(** ** The invariant *)

Record kcp_flags (s : KState) : Prop := {
  kf_socket : 0 <= socket_fd_ (dispatcher_ s);
  kf_fallback : 0 < fallback_tick_ms_ (mgr s) < 2 ^ 62;
  kf_running : running_ (mgr s) = true ->
    d_running_ (dispatcher_ s) = true /\ io_running (dispatcher_ s) = true;
  kf_stopping : running_ (mgr s) = false -> d_running_ (dispatcher_ s) = false;
}.

Record kcp_inv (s : KState) : Prop := {
  ki_flags : kcp_flags s;
  ki_stopped : running_ (mgr s) = false -> io_running (dispatcher_ s) = false ->
    armed s = 0 /\ timer_heap_ (mgr s) = [] /\ sessions_ (mgr s) = ∅;
  ki_core : core s;
  ki_live : running_ (mgr s) = true -> live s;
  ki_below : running_ (mgr s) = true -> below s;
  ki_first : running_ (mgr s) = true -> armed s = 0 -> PostFirstTick ∈ queue_ (dispatcher_ s);
}.

Lemma kcp_inv_flags s : kcp_flags s -> flags_ok s.
Proof. intros Hi Hr. apply (kf_running s Hi Hr). Qed.

Lemma kcp_flags_ext P s s' : kcp_flags s -> ext P s s' -> kcp_flags s'.
Proof.
  intros [A1 A2 A3 A4] [_ X1 X2 X3 X4 X5 X6 X7 X8 X9 X10 X11 X12].
  split; try congruence; rewrite ?X7, ?X3, ?X5, ?X11; auto.
Qed.

(** A callback of the loop keeps the invariant if it keeps table, heap and armed tick in order. *)
Lemma kcp_inv_ext P s s' :
  kcp_inv s -> io_running (dispatcher_ s) = true -> ext P s s' -> core s' ->
  (running_ (mgr s) = true -> live s' /\ below s' /\ (armed s' = 0 -> armed s = 0)) -> kcp_inv s'.
Proof.
  intros [A1 A2 A3 A4 A5 A6] Hio X HC Hr. pose proof (ext_running _ _ _ X) as Hrun.
  split; [by eapply kcp_flags_ext|..]; try rewrite Hrun; try done.
  - rewrite (ext_io _ _ _ X). congruence.
  - apply Hr.
  - apply Hr.
  - intros Hr1 H0. destruct (ext_queue _ _ _ X) as (new & -> & _). apply elem_of_app. left.
    apply A6; [done|]. apply Hr; done.
Qed.

Lemma handled_inv key s s' :
  kcp_inv s -> io_running (dispatcher_ s) = true -> handled key s s' -> kcp_inv s'.
Proof.
  intros Hi Hio [A1 A2 A3 A4 A5 A6 A7]. apply (kcp_inv_ext (for_key key) s); try done.
  intros Hr. split; [apply A3, Hi, Hr|]. split; [apply A5; [done|apply Hi, Hr]|].
  intros H0. destruct (decide (armed s = 0)) as [|Hn]; [done|]. destruct (A4 Hn H0).
Qed.

(** Requests move between the queue and the kernel. *)
Lemma kcp_inv_requests s q l :
  kcp_inv s ->
  (forall ms seq, running_ (mgr s) = true -> seq = armed_tick_seq_ (mgr s) -> armed s <> 0 ->
    TimeoutRequest ms seq ∈ requests s -> TimeoutRequest ms seq ∈ q ++ l) ->
  (PostFirstTick ∈ queue_ (dispatcher_ s) -> PostFirstTick ∈ q) ->
  kcp_inv (mkK (mgr s) (with_requests q l (dispatcher_ s)) (delivered s) (ticks s)).
Proof.
  intros [A1 A2 A3 A4 A5 A6] Hq Hp. split; try done.
  - destruct A1. split; done.
  - destruct A3. split; done.
  - intros Hr Hn. destruct (A4 Hr Hn) as [ms Hms]. exists ms. by apply Hq.
  - intros Hr H0. apply Hp, A6; done.
Qed.

Lemma elem_of_delete_other {A} (x y : A) (l : list A) (i : nat) :
  l !! i = Some y -> x <> y -> x ∈ l -> x ∈ delete i l.
Proof.
  intros Hi Hn Hx. rewrite (delete_Permutation l i y Hi) in Hx. set_solver.
Qed.

Lemma wp_arm_recv s :
  kcp_inv s -> io_running (dispatcher_ s) = true -> wp arm_recv (fun _ => kcp_inv) s.
Proof.
  intros Hi Hio. unfold arm_recv. apply wp_bind, wp_gets. case_cond; [apply wp_ret; done|].
  apply wp_bind. eapply wp_wand; [apply (wp_push G (fun _ => True)); done|].
  intros _ s' (X & [M D] & _). apply wp_ret. apply (kcp_inv_ext (fun _ => True) s); try done.
  - apply (core_same G _ _ _ _ X); [by rewrite M..|apply Hi].
  - intros Hr. unfold below, armed. rewrite M. split; [|split; [apply Hi, Hr|done]].
    unfold live, armed. rewrite M. intros Hn. destruct (ki_live s Hi Hr Hn) as [ms Hms].
    exists ms. by eapply ext_requests.
Qed.

Lemma wp_handle_recv fuel res peer peer_len data s :
  kcp_inv s -> io_running (dispatcher_ s) = true ->
  wp (handle_recv fuel res peer peer_len data) (fun _ => kcp_inv) s.
Proof.
  intros Hi Hio. unfold handle_recv. apply wp_bind, wp_gets. apply wp_bind.
  apply (wp_wand _ (fun _ s' => kcp_inv s' /\ io_running (dispatcher_ s') = true)).
  - case_cond; [|apply wp_ret; done]. set (d := take _ _).
    destruct (extract_conv d) as [conv|] eqn:Hx.
    + eapply wp_wand; [apply (wp_packet G); try done; [apply Hi|apply kcp_inv_flags, Hi]|].
      intros [] s' Hh. split; [by eapply handled_inv|]. rewrite (ext_io _ _ _ (h_ext _ _ _ Hh)). done.
    + unfold handle_udp_packet. rewrite Hx. apply wp_ret. done.
  - intros _ s' (Hi' & Hio'). apply wp_bind, wp_gets. destruct (d_running_ _); [by apply wp_arm_recv|].
    apply wp_ret. done.
Qed.

Lemma served_inv mono_now s s' :
  kcp_flags s -> running_ (mgr s) = true -> served mono_now s s' -> kcp_inv s'.
Proof.
  intros Hi Hr [A1 A2 A3 A4 A5 A6 A7 A8]. pose proof (ext_running _ _ _ A1) as Hr'.
  split; try done; [by eapply kcp_flags_ext|]. congruence.
Qed.

(** A timeout that is not the armed one does nothing; the armed one runs a tick. *)
Lemma wp_on_timeout seq s :
  kcp_flags s -> core s -> (running_ (mgr s) = false \/ seq <> armed_tick_seq_ (mgr s) -> kcp_inv s) ->
  wp (on_timeout seq) (fun _ => kcp_inv) s.
Proof.
  intros Hfl HC Hi. unfold on_timeout. apply wp_bind, wp_gets.
  destruct (running_ (mgr s)) eqn:Hr; cbn [negb orb]; [|apply wp_ret; auto].
  destruct (seq =? armed_tick_seq_ (mgr s)) eqn:Hs; cbn [negb]; bool_norm; [|apply wp_ret; auto].
  apply wp_bind. unfold wp at 1. simpl. set (s1 := mkK _ _ _ _).
  assert (kcp_flags s1) as Hf1 by (destruct Hfl; split; done).
  eapply wp_wand; [apply wp_handle_tick|]; try done.
  - destruct HC. split; done.
  - by apply kcp_inv_flags.
  - intros Hn. destruct Hn. done.
  - apply Hf1.
  - intros ok s2 [_ Hsv]. by eapply served_inv.
Qed.

Lemma wp_on_first_tick q s :
  kcp_inv s -> io_running (dispatcher_ s) = true -> queue_ (dispatcher_ s) = PostFirstTick :: q ->
  wp on_first_tick (fun _ => kcp_inv)
    (mkK (mgr s) (with_requests q (inflight_ (dispatcher_ s)) (dispatcher_ s)) (delivered s) (ticks s)).
Proof.
  intros Hi Hio Hq. set (s0 := mkK _ _ _ _). unfold on_first_tick. apply wp_bind, wp_ask.
  apply wp_bind. unfold wp at 1. simpl. apply wp_bind, wp_gets. simpl.
  set (s1 := mkK _ _ _ _). pose proof (clock_range G (ticks s)) as Ht.
  destruct Hi as [A1 A2 A3 A4 A5 A6]. pose proof (kf_fallback _ A1) as Hfb.
  rewrite wrap_id by (unfold fits; lia).
  assert (kcp_flags s1) as Hf1 by (destruct A1; split; done).
  assert (core s1) as C1.
  { destruct A3. split; try done. intros key e He. simpl.
    eapply (entry_ok_mono G (ticks s)); [lia|auto]. }
  eapply wp_wand; [apply (wp_arm G); [by apply kcp_inv_flags|lia]|].
  intros _ s2 [B1 B2 B3 B4 BG B5 B6 B7]. pose proof (ext_running _ _ _ B1) as Hr2. simpl in Hr2.
  split; try rewrite Hr2; [by eapply kcp_flags_ext|..].
  - rewrite (ext_io _ _ _ B1). simpl. congruence.
  - by apply (core_same G _ _ _ _ B1).
  - intros Hr. apply B7. intros Hn. destruct (A4 Hr Hn) as [ms Hms]. exists ms.
    unfold requests in *. rewrite Hq in Hms. simpl in *. set_solver.
  - intros Hr. destruct (B5 Hr) as (D1 & D2 & D3). specialize (A5 Hr). unfold below in *.
    rewrite (decide_False (P := armed s2 = 0)), B3 by done. simpl.
    change (armed s1) with (armed s) in D3.
    destruct (decide (armed s = 0)) as [H0|H0]; [rewrite A5; set_solver|].
    intros n Hn. specialize (A5 n Hn). specialize (D3 H0). lia.
  - intros Hr H0. destruct (B5 Hr). done.
Qed.

(** ** Steps *)

Lemma wp_start s :
  kcp_inv s -> (io_running (dispatcher_ s) = true -> running_ (mgr s) = true) ->
  wp manager_start (fun ok s' => ok = true /\ kcp_inv s') s.
Proof.
  intros Hi Hst. unfold manager_start. apply wp_bind, wp_gets.
  destruct (running_ (mgr s)) eqn:Hr; [apply wp_ret; done|].
  destruct (io_running (dispatcher_ s)) eqn:Hio; [specialize (Hst eq_refl); done|].
  destruct Hi as [A1 A2 A3 A4 A5 A6]. destruct (A2 Hr Hio) as (Ha & Hh & Hs).
  apply wp_bind. unfold wp at 1. simpl. apply wp_bind. unfold wp at 1. simpl.
  apply wp_bind. unfold dispatcher_start. apply wp_bind, wp_gets. simpl.
  pose proof (kf_socket _ A1) as Hsock. rewrite (proj2 (Z.ltb_ge _ _)) by lia.
  rewrite (kf_stopping _ A1 Hr). apply wp_bind. unfold wp at 1. simpl.
  apply wp_bind. unfold wp at 1. simpl. set (s1 := mkK _ _ _ _).
  apply wp_bind. unfold arm_recv. apply wp_bind, wp_gets. simpl.
  rewrite (proj2 (Z.ltb_ge _ _)) by lia. cbn [negb orb].
  apply wp_bind. eapply wp_wand; [apply (wp_push G (fun _ => True)); done|].
  intros _ s2 (X2 & [M2 D2] & _). apply wp_ret, wp_ret. cbn [negb].
  apply wp_bind. unfold post. apply wp_bind, wp_gets.
  rewrite (ext_d_running _ _ _ X2). cbn [negb s1 dispatcher_ with_io_running with_d_running d_running_].
  eapply wp_wand; [apply (wp_push G (fun r => r = PostFirstTick)); done|].
  intros _ s3 (X3 & [M3 D3] & Hin). apply wp_ret. split; [done|].
  assert (kcp_flags s1) as F1.
  { destruct A1. split; done. }
  assert (mgr s3 = mgr s1) as Hm by congruence.
  pose proof (ext_trans _ _ _ _ X2 (any_request _ _ _ X3)) as X.
  split; rewrite ?Hm; try done.
  - by eapply kcp_flags_ext.
  - apply (core_same G _ _ _ _ X); [by rewrite Hm..|]. split; simpl; rewrite ?Hh, ?Hs.
    + apply is_heap_nil.
    + done.
    + set_solver.
    + done.
  - intros _ Hn. unfold armed in *. rewrite Hm in Hn. done.
  - intros _. unfold below, armed in *. rewrite Hm. simpl. rewrite decide_True by done. done.
Qed.

Lemma wp_stop_begin s :
  kcp_inv s -> running_ (mgr s) = true -> wp stop_begin (fun _ => kcp_inv) s.
Proof.
  intros [A1 A2 A3 A4 A5 A6] Hr. unfold stop_begin. apply wp_bind, wp_gets.
  apply wp_bind. unfold wp at 1. simpl. rewrite Hr. cbn [negb].
  destruct (kf_running _ A1 Hr) as [_ Hio].
  apply wp_bind. unfold wp. simpl. split; simpl; try done; [|congruence|].
  - destruct A1. split; done.
  - destruct A3. split; done.
Qed.

Lemma wp_stop_finish s :
  kcp_inv s -> running_ (mgr s) = false -> wp stop_finish (fun _ => kcp_inv) s.
Proof.
  intros [A1 A2 A3 A4 A5 A6] Hr. unfold stop_finish. apply wp_bind. unfold wp. simpl.
  split; simpl; try done; try congruence.
  - destruct A1. split; simpl; try done. congruence.
  - split; simpl; [apply is_heap_nil|done|set_solver|done].
Qed.

Lemma wp_send key data s : kcp_inv s -> wp (manager_send key data) (fun _ => kcp_inv) s.
Proof.
  intros Hi. unfold manager_send. apply wp_bind, wp_gets. destruct data as [payload|]; [|apply wp_ret; done].
  destruct (running_ (mgr s)) eqn:Hr.
  2: { rewrite orb_true_r. apply wp_ret. done. }
  case_cond; [apply wp_ret; done|]. unfold post. apply wp_bind, wp_gets.
  destruct (kf_running _ (ki_flags _ Hi) Hr) as [-> Hio]. cbn [negb].
  eapply wp_wand; [apply (wp_push G (fun _ => True)); done|]. intros _ s' (X & [M D] & _).
  apply (kcp_inv_ext (fun _ => True) s); try done.
  - apply (core_same G _ _ _ _ X); [by rewrite M..|apply Hi].
  - intros _. unfold live, below, armed. rewrite M. split; [|split; [apply Hi, Hr|done]].
    intros Hn. destruct (ki_live s Hi Hr Hn) as [ms Hms]. exists ms. by eapply ext_requests.
Qed.

(** A request given to the kernel is not forgotten. *)
Definition no_loss (ev : Event) : Prop :=
  match ev with ESubmit submitted => submitted = true | _ => True end.

Lemma wp_submit s r q :
  kcp_inv s -> io_running (dispatcher_ s) = true -> queue_ (dispatcher_ s) = r :: q ->
  wp (loop_step (ESubmit true)) (fun _ => kcp_inv) s.
Proof.
  intros Hi Hio Hq. unfold loop_step. apply wp_bind, wp_gets, wp_bind, wp_gets.
  rewrite Hio, Hq. cbn [negb]. apply wp_bind. unfold wp at 1. simpl.
  assert (forall l, (forall ms seq, r = TimeoutRequest ms seq -> r ∈ l) ->
    inflight_ (dispatcher_ s) ⊆ l -> r <> PostFirstTick ->
    kcp_inv (mkK (mgr s) (with_requests q l (dispatcher_ s)) (delivered s) (ticks s))) as Hmove.
  { intros l Hr Hl Hp. apply kcp_inv_requests; [done|..]; rewrite ?Hq; [|set_solver].
    intros ms seq _ _ _. unfold requests. rewrite Hq. simpl. intros [Hin|Hin]%elem_of_cons.
    - apply elem_of_app. right. rewrite Hin. eauto.
    - set_solver. }
  destruct r as [|peer len data|ms seq| |key payload]; simpl.
  1-3: apply wp_ret, Hmove; [set_solver|set_solver|done].
  - by apply wp_on_first_tick.
  - pose proof (Hmove (inflight_ (dispatcher_ s)) ltac:(done) ltac:(done) ltac:(done)) as Hi1.
    apply wp_bind. eapply wp_wand; [apply (wp_send_in_loop G); [apply Hi1|apply kcp_inv_flags, Hi1]|].
    intros b s' Hh. apply wp_ret. exact (handled_inv key _ _ Hi1 Hio Hh).
Qed.

Lemma wp_complete i r s :
  kcp_inv s -> inflight_ (dispatcher_ s) !! i = Some r ->
  wp (complete i) (fun _ s' => mgr s' = mgr s /\ kcp_flags s' /\ core s' /\
    io_running (dispatcher_ s') = io_running (dispatcher_ s) /\
    ((forall ms, running_ (mgr s) = true -> r <> TimeoutRequest ms (armed_tick_seq_ (mgr s))) ->
     kcp_inv s')) s.
Proof.
  intros Hi Hr. unfold complete, wp. simpl. split; [done|].
  split; [destruct (ki_flags s Hi); split; done|].
  split; [destruct (ki_core s Hi); split; done|]. split; [done|].
  intros Hne. apply kcp_inv_requests; [done|..|done].
  intros ms seq Hrun -> _. unfold requests. rewrite !elem_of_app. intros [?|Hin]; [auto|].
  right. apply (elem_of_delete_other _ r); [done| |done]. intros Heq. apply (Hne ms Hrun). done.
Qed.

Lemma loop_step_inv ev s : kcp_inv s -> no_loss ev -> kcp_inv (loop_step ev s).2.
Proof.
  intros Hi Hev. change (wp (loop_step ev) (fun _ => kcp_inv) s).
  destruct ev as [| | |key data|b|i|i res peer len data fuel|i];
    try (unfold loop_step; apply wp_bind, wp_gets, wp_bind, wp_gets).
  - destruct (io_running (dispatcher_ s)) eqn:Hio, (running_ (mgr s)) eqn:Hr; simpl;
      try (apply wp_ret; done).
    all: apply wp_bind; eapply wp_wand; [apply wp_start; [exact Hi|rewrite Hio, Hr; done]|];
      intros ok s2 [_ Hs2]; exact Hs2.
  - destruct (running_ (mgr s)) eqn:Hr; [|apply wp_ret; done].
    apply wp_bind. eapply wp_wand; [by apply wp_stop_begin|]. done.
  - destruct (running_ (mgr s)) eqn:Hr; [apply wp_ret; done|]. by apply wp_stop_finish.
  - apply wp_bind. eapply wp_wand; [by apply wp_send|]. done.
  - simpl in Hev. subst b. change (wp (loop_step (ESubmit true)) (fun _ => kcp_inv) s).
    destruct (io_running (dispatcher_ s)) eqn:Hio.
    + destruct (queue_ (dispatcher_ s)) as [|r q] eqn:Hq; [|by eapply wp_submit].
      unfold loop_step. apply wp_bind, wp_gets, wp_bind, wp_gets. rewrite Hio, Hq. apply wp_ret. done.
    + unfold loop_step. apply wp_bind, wp_gets, wp_bind, wp_gets. rewrite Hio. apply wp_ret. done.
  - destruct (inflight_ (dispatcher_ s) !! i) as [[|?|ms seq| |]|] eqn:Hin; try (apply wp_ret; done).
    destruct (io_running (dispatcher_ s)) eqn:Hio; [|apply wp_ret; done].
    apply wp_bind. eapply wp_wand; [by apply wp_complete|].
    intros _ s' (M & F & C & Hio' & Hinv). apply wp_bind.
    eapply wp_wand; [apply wp_on_timeout; [done..|]|done]. rewrite M.
    intros Hor. apply Hinv. intros ms' Hr [= _ ->]. destruct Hor; congruence.
  - destruct (inflight_ (dispatcher_ s) !! i) as [[|?|? ?| |]|] eqn:Hin; try (apply wp_ret; done).
    destruct (io_running (dispatcher_ s)) eqn:Hio; [|apply wp_ret; done].
    apply wp_bind. eapply wp_wand; [by apply wp_complete|].
    intros _ s' (M & F & C & Hio' & Hinv). apply wp_handle_recv; [by apply Hinv|congruence].
  - destruct (inflight_ (dispatcher_ s) !! i) as [[|?|? ?| |]|] eqn:Hin; try (apply wp_ret; done).
    destruct (io_running (dispatcher_ s)) eqn:Hio; [|apply wp_ret; done].
    eapply wp_wand; [by apply wp_complete|].
    intros _ s' (M & F & C & Hio' & Hinv). by apply Hinv.
Qed.

Lemma run_inv evs s : kcp_inv s -> Forall no_loss evs -> kcp_inv (run_events evs s).
Proof.
  revert s. induction evs as [|ev evs IH]; intros s Hi Hl; [done|].
  inversion_clear Hl. apply IH; [by apply loop_step_inv|done].
Qed.

(** A new manager, once its socket is bound. *)
Definition ready_manager (c : KcpManagerConfig) (host : bytes) (port : Z) : option bool * KState :=
  let '(r, s) := manager_bind host port (new_KcpManager c) in (r, (set_message_callback s).2).

Lemma ready_manager_inv c host port s :
  (forall n fd, env_socket n = Some fd -> 0 <= fd) -> 0 <= fallback_tick_ms c < 2 ^ 62 ->
  ready_manager c host port = (Some true, s) -> kcp_inv s.
Proof.
  intros Hfd Hfb. unfold ready_manager, manager_bind, dispatcher_bind.
  destruct ((gets dispatcher_ ≫= _) (new_KcpManager c)) as [r s1] eqn:Hb. intros [= -> <-].
  revert Hb. unfold mbind, K_bind, gets. cbn -[env_pton].
  destruct (env_socket 0) as [fd|] eqn:Hs; [|done]. specialize (Hfd _ _ Hs).
  destruct (bind_ipv4_addr host port) as [a|]; cbn; [|done].
  destruct (env_bind 1 a); cbn; [|done]. intros [= <-].
  split; cbn; try done.
  - split; cbn; try done. case_cond; bool_norm; lia.
  - split; cbn; [apply is_heap_nil|done|set_solver|done].
Qed.

(** [C12] From the creation of the manager on, whatever the threads do and the network delivers,
    provided that memory for requests is found, the clock does not go back, and no request of the
    loop is lost on its way to the kernel ([env_good], [no_loss]): every session talks to the peer
    and the conversation of its key; and while the manager runs, a tick is under way, and each
    session that waits for an update has its timer in the heap and is not due before the tick.
    Without the proviso a lost tick is never replaced ([tick_lost_for_good]). *)
Theorem kcp_timers_kept c host port s0 evs :
  (forall n fd, env_socket n = Some fd -> 0 <= fd) -> 0 <= fallback_tick_ms c < 2 ^ 62 ->
  ready_manager c host port = (Some true, s0) -> Forall no_loss evs ->
  let s := run_events evs s0 in
  (forall key e, sessions_ (mgr s) !! key = Some e ->
    session_conv (entry_session e) = key_conv key /\
    session_peer (entry_session e) = make_ipv4_addr key) /\
  (running_ (mgr s) = true ->
    (PostFirstTick ∈ requests s \/
     exists ms, TimeoutRequest ms (armed_tick_seq_ (mgr s)) ∈ requests s) /\
    (forall key e, sessions_ (mgr s) !! key = Some e -> next_due_mono_ms e <> 0 ->
      node_of key e ∈ timer_heap_ (mgr s) /\
      (exists ms, TimeoutRequest ms (armed_tick_seq_ (mgr s)) ∈ requests s) /\
      armed s <= next_due_mono_ms e)).
Proof.
  intros Hfd Hfb Hs Hl s.
  assert (kcp_inv s) as [A1 A2 A3 A4 A5 A6] by (apply run_inv; [by eapply ready_manager_inv|done]).
  split; [intros key e He; destruct (c_entry _ _ A3 key e He); done|].
  intros Hr. specialize (A4 Hr). specialize (A5 Hr). specialize (A6 Hr). split.
  - destruct (decide (armed s = 0)) as [H0|H0]; [left; apply elem_of_app; auto|auto].
  - intros key e He Hn. pose proof (c_nodes _ _ A3 key e He (fun f => f) Hn) as Hnode.
    unfold below in A5. destruct (decide (armed s = 0)) as [H0|H0].
    + rewrite A5 in Hnode. set_solver.
    + split; [done|]. split; [auto|]. apply (A5 _ Hnode).
Qed.

(** [C13] In every state of a running manager that satisfies the invariant of the loop, and as long
    as memory for requests is found and the clock does not go back ([env_good]): the armed timeout
    runs a tick at time [t] that terminates, serves exactly the sessions that are due at [t], each
    once, drops exactly those idle for at least the configured time when a collection is due, hands
    no message over, and leaves no timer due at [t] and the request for the next tick queued. (The
    header of the manager says a session is dropped when it is idle for more than that time.) *)
Theorem kcp_tick_serves s :
  kcp_inv s -> running_ (mgr s) = true ->
  let t := env_clock (ticks s) in
  let '(ok, s') := on_timeout (armed_tick_seq_ (mgr s)) s in
  ok = true /\
  (forall key e', sessions_ (mgr s') !! key = Some e' <->
    exists e, sessions_ (mgr s) !! key = Some e /\ keeps_entry t (mgr s) e = true /\
      e' = tick_entry (kcp_now_ms t) t e) /\
  (forall n, n ∈ timer_heap_ (mgr s') -> t < due_mono_ms n) /\
  delivered s' = delivered s /\
  (exists ms, TimeoutRequest ms (armed_tick_seq_ (mgr s')) ∈ requests s').
Proof.
  intros Hi Hr t.
  assert (wp (on_timeout (armed_tick_seq_ (mgr s))) (fun ok s' => ok = true /\ served t s s') s) as W.
  { unfold on_timeout. apply wp_bind, wp_gets. rewrite Hr, Z.eqb_refl. cbn [negb orb].
    apply wp_bind. unfold wp at 1. simpl. set (s1 := mkK _ _ _ _).
    eapply wp_wand; [apply wp_handle_tick; try done|].
    - destruct (ki_core _ Hi). split; done.
    - apply (kcp_inv_flags s), Hi.
    - intros Hn. destruct Hn. done.
    - apply (kf_fallback _ (ki_flags _ Hi)).
    - intros ok s2 [Hok [B1 B2 B3 B4 B5 B6 B7 B8]]. split; [done|]. split; try done.
      destruct B1. split; done. }
  unfold wp in W. destruct (on_timeout _ s) as [ok s']. destruct W as [Hok [A1 A2 A3 A4 A5 A6 A7 A8]].
  split; [done|]. split; [done|]. split; [done|]. split; [done|]. auto.
Qed.

(** ** A datagram of a known session *)

Lemma input_packet_ok ks data now k ret k1 out k2 :
  kcp_ ks = Some k -> 0 < zlen data <= i64_max -> ikcp_input k data = (ret, k1) -> 0 <= ret ->
  ikcp_update k1 now = (out, k2) -> input_packet ks data now = (ret, out, with_kcp k2 ks).
Proof.
  intros Hk Hlen Hin Hret Hup. unfold input_packet. rewrite Hk, Hin, Hup.
  rewrite (proj2 (Z.eqb_neq _ _)), (proj2 (Z.ltb_ge i64_max _)), (proj2 (Z.ltb_ge ret _)) by lia.
  done.
Qed.

Context {R : IkcpReceive I}.

(** [C14] A datagram that ikcp accepts for an existing session, when the message callback is set, is
    handed to this session alone: the messages that are then complete are delivered in order under
    the key of the sender, up to the first empty one, which stays and blocks the rest; everything
    the handler sends goes to this peer, the other sessions do not change, and the session is
    stamped and scheduled in the future. *)
Theorem udp_packet_delivers s data conv peer peer_len fuel e k ret k1 out k2 :
  let key := make_key conv peer peer_len in
  let t := env_clock (ticks s) in
  kcp_inv s -> has_callback (mgr s) = true -> extract_conv data = Some conv ->
  zlen data <= i64_max -> sessions_ (mgr s) !! key = Some e -> kcp_ (entry_session e) = Some k ->
  ikcp_input k data = (ret, k1) -> 0 <= ret -> ikcp_update k1 (kcp_now_ms t) = (out, k2) ->
  (length (ikcp_ready k2) < fuel)%nat ->
  let s' := (handle_udp_packet fuel peer peer_len data s).2 in
  delivered s' = delivered s ++ ((key,.) <$> before_empty (ikcp_ready k2)) /\
  (exists new, queue_ (dispatcher_ s') = queue_ (dispatcher_ s) ++ new /\ Forall (for_key key) new) /\
  (forall key', key' <> key -> sessions_ (mgr s') !! key' = sessions_ (mgr s) !! key') /\
  (exists e' k', sessions_ (mgr s') !! key = Some e' /\ kcp_ (entry_session e') = Some k' /\
    before_empty (ikcp_ready k2) ++ ikcp_ready k' = ikcp_ready k2 /\
    last_active_mono_ms e' = t /\ t < next_due_mono_ms e').
Proof.
  intros key t Hi Hcb Hx Hlen He Hk Hin Hret Hup Hfuel.
  pose proof (ki_core s Hi) as HC. pose proof (clock_range G (ticks s)) as Ht. fold t in Ht.
  assert (0 < zlen data) as Hpos.
  { unfold extract_conv in Hx. case_cond_in Hx; [done|]. bool_norm.
    change (Z.of_nat kConvSize) with 32 in E0. lia. }
  assert (wp (handle_udp_packet fuel peer peer_len data) (fun _ s' => handled key s s' /\
    delivered s' = delivered s ++ ((key,.) <$> before_empty (ikcp_ready k2)) /\
    exists ks k', sessions_ (mgr s') !! key = Some (rescheduled (kcp_now_ms t) t
      (mkEntry ks t (next_due_mono_ms e) (schedule_seq e))) /\ kcp_ ks = Some k' /\
      before_empty (ikcp_ready k2) ++ ikcp_ready k' = ikcp_ready k2) s) as W.
  { unfold handle_udp_packet. rewrite Hx. fold key. apply wp_bind.
    unfold find_or_create_session_entry_in_loop. apply wp_bind, wp_gets. rewrite He. apply wp_ret.
    cbn [negb]. apply wp_bind. eapply wp_wand; [apply (wp_conj_l _ (fun _ s' => delivered s' = delivered s));
      [|apply (wp_ask_quiet G key), HC]; done|].
    intros mono s1 (D1 & Q1 & -> & M1 & T1). fold t. apply wp_assoc, wp_bind.
    eapply wp_wand; [apply (wp_touch_run G key _ _ e); try done|].
    { apply Q1. }
    { rewrite M1. done. }
    { rewrite T1. apply (eg_clock G). }
    { intros ks. apply input_packet_same. }
    intros r s2 (Q2 & D2 & -> & He2).
    rewrite (input_packet_ok _ _ _ k ret k1 out k2) in * by (done || lia). cbn [fst snd] in *.
    rewrite (proj2 (Z.ltb_ge ret _)) by lia. apply wp_bind.
    assert (has_callback (mgr s2) = true) as Hcb2.
    { rewrite (ext_callback _ _ _ (q_ext _ _ _ Q2)), M1. done. }
    destruct (drain_messages_spec (with_kcp k2 (entry_session e)) k2 fuel eq_refl Hfuel)
      as (k' & Hd & Happ & _).
    eapply wp_wand; [eapply (wp_drain G _ key); [apply Q2|exact He2]|].
    intros _ s3 (Q3 & _ & H3). destruct (H3 Hcb2 _ _ Hd) as [D3 He3].
    eapply wp_wand; [eapply (wp_schedule_handled G key _ _ _ s);
      [exact (quiet_trans _ _ _ _ Q1 (quiet_trans _ _ _ _ Q2 Q3))|apply kcp_inv_flags, Hi|exact He3|done]|].
    intros _ s4 (Hh & D4 & He4). split; [done|]. split; [congruence|].
    eexists _, k'. split; [exact He4|]. split; [done|exact Happ]. }
  unfold wp in W. destruct W as ([A1 A2 A3 A4 A5 A6 A7] & D & ks & k' & B1 & B2 & B3).
  split; [done|]. split; [apply A1|]. split; [done|].
  eexists _, k'. split; [exact B1|]. split; [done|]. split; [done|]. split; [done|].
  unfold rescheduled. simpl. pose proof (kcp_delay_bounds (kcp_now_ms t) (session_check ks (kcp_now_ms t))).
  lia.
Qed.

(** ** Refused messages *)

(** [send] answers before ikcp has seen the message: when ikcp refuses it later, the caller has
    been told that it was sent, and nothing is. *)
Theorem refused_message_lost s key e k k' ret data :
  kcp_inv s -> running_ (mgr s) = true -> key_valid key = true -> 0 < zlen data < 2 ^ 31 ->
  sessions_ (mgr s) !! key = Some e -> kcp_ (entry_session e) = Some k ->
  ikcp_send k data = (ret, k') -> ret < 0 ->
  (manager_send key (Some data) s).1 = true /\
  let '(ok, s') := send_in_loop key data s in
  ok = false /\ queue_ (dispatcher_ s') = queue_ (dispatcher_ s) /\
  timer_heap_ (mgr s') = timer_heap_ (mgr s).
Proof.
  intros Hi Hr Hv Hlen He Hk Hs Hret. destruct (kf_running _ (ki_flags _ Hi) Hr) as [Hd _].
  assert ((zlen data =? 0) = false) as Hz by (apply Z.eqb_neq; lia). split.
  - unfold manager_send, post, push_request, mbind, K_bind, gets, ask. cbn.
    rewrite Hv, Hz, Hr. cbn. rewrite Hd. cbn. rewrite (eg_request G). done.
  - unfold send_in_loop. rewrite Hv, Hz. cbn [negb orb].
    unfold find_or_create_session_entry_in_loop, touch_entry, run_session, update_entry, modify_mgr,
      gets, ask, mbind, K_bind. cbn. rewrite He. cbn. rewrite lookup_alter_eq, He. cbn.
    unfold send_app_data. rewrite Hk, Hz, Hs, (proj2 (Z.ltb_ge _ _)) by lia.
    rewrite (proj2 (Z.ltb_lt ret 0)) by lia. cbn. rewrite (proj2 (Z.ltb_lt ret 0)) by lia. done.
Qed.
End kcp_loop.
