(* ===== verification/KcpDemo.v ===== *)
(** Runs of the KCP manager: a sorted list as the timer heap, a small stand-in for ikcp, witnesses
    of the theorems, and behaviour the code should not have. *)
From stdpp Require Import sorting.
From S2P Require Import Prelude KcpConv Identity KcpSession KcpManager KcpManagerProofs KcpLoop.

(** ** A heap *)

Definition due_le (a b : TimerNode) : Prop := due_mono_ms a <= due_mono_ms b.

#[global] Instance due_le_dec : RelDecision due_le.
Proof. intros a b. unfold due_le. apply _. Defined.

#[global] Instance due_le_total : Total due_le.
Proof. intros a b. unfold due_le. lia. Qed.

#[global] Instance due_le_trans : Transitive due_le.
Proof. intros a b c. unfold due_le. lia. Qed.

Lemma sorted_lookup l i j a b :
  StronglySorted due_le l -> (j < i)%nat -> l !! j = Some a -> l !! i = Some b -> due_le a b.
Proof.
  intros Hs. revert i j. induction Hs as [|x l Hs IH Hall]; intros i j Hlt Ha Hb; [done|].
  destruct i as [|i]; [lia|]. destruct j as [|j]; simpl in *.
  - injection Ha as ->. rewrite Forall_lookup in Hall. eauto.
  - apply (IH i j); [lia|done..].
Qed.

Lemma sorted_is_heap l : Sorted due_le l -> is_heap TimerNodeGreater l.
Proof.
  intros Hs%Sorted_StronglySorted; [|apply _]. intros i a b Hi Hb Ha.
  apply Z.ltb_ge, (sorted_lookup l i ((i - 1) / 2)); [done| |done..].
  apply Nat.Div0.div_lt_upper_bound. lia.
Qed.

(** Sorting is a legal implementation of the heap operations. *)
#[global, program] Instance sorted_heap : HeapAlgorithms TimerNodeGreater := {|
  push_heap := fun l => merge_sort due_le l;
  pop_heap := fun l => match l with [] => [] | x :: l => merge_sort due_le l ++ [x] end;
|}.
Next Obligation.
  intros l x _. split; [apply merge_sort_Permutation|]. apply sorted_is_heap, Sorted_merge_sort, _.
Qed.
Next Obligation.
  intros x l _. eexists. split; [done|]. split; [apply merge_sort_Permutation|].
  apply sorted_is_heap, Sorted_merge_sort, _.
Qed.

(** ** A stand-in for ikcp

    A datagram is the conversation and one message, every message is sent in one datagram at the
    next update, and updates are due every 20 ms.  A message is refused as in [ikcp_send], when
    it has 128 fragments or more. *)
Definition mss : Z := 1400 - 52.

Definition fragment_count (len : Z) : Z := if len <=? mss then 1 else (len + mss - 1) / mss.

Record ToyKcp := mkToy { toy_conv : KcpConv; toy_in : list bytes; toy_out : list bytes }.

#[global] Instance toy_ikcp : Ikcp := {|
  ikcpcb := ToyKcp;
  ikcp_create := fun conv => mkToy conv [] [];
  ikcp_setmtu := fun k _ => k;
  ikcp_wndsize := fun k _ _ => k;
  ikcp_nodelay := fun k _ _ _ _ => k;
  ikcp_input := fun k data =>
    if head (drop 32 data) is Some xff then (-1, k)
    else (0, mkToy (toy_conv k) (toy_in k ++ [drop 32 data]) (toy_out k));
  ikcp_update := fun k _ => (toy_out k, mkToy (toy_conv k) (toy_in k) []);
  ikcp_check := fun _ now => now + 20;
  ikcp_peeksize := fun k => if toy_in k is m :: _ then zlen m else -1;
  ikcp_recv := fun k _ =>
    if toy_in k is m :: ms then ((zlen m, m), mkToy (toy_conv k) ms (toy_out k)) else ((-1, []), k);
  ikcp_send := fun k data =>
    if 128 <=? fragment_count (zlen data) then (-2, k)
    else (zlen data, mkToy (toy_conv k) (toy_in k) (toy_out k ++ [conv_bytes (toy_conv k) ++ data]));
|}.

#[global, program] Instance toy_receive : IkcpReceive toy_ikcp := {| ikcp_ready := toy_in |}.
Next Obligation.
  intros [c [|m ms] o]; simpl; [split; [lia|done]|]. pose proof (zlen_nonneg m). split; [done|lia].
Qed.
Next Obligation. intros [c ins o] m ms Hk. simpl in *. rewrite Hk. done. Qed.
Next Obligation. intros [c ins o] m ms len Hk Hlen. simpl in *. rewrite Hk. eauto. Qed.

#[global] Instance demo_env : KcpEnv := {|
  env_clock := fun n => 1000 + Z.min (Z.of_nat n) 1000000;
  env_create := fun _ => true;
  env_request := fun _ => true;
  env_socket := fun _ => Some 7;
  env_bind := fun _ _ => true;
  env_pton := fun _ => None;
|}.

Lemma demo_env_good : env_good.
Proof. split; simpl; intros; [done|lia|lia]. Qed.

Definition demo_config : KcpManagerConfig :=
  {| manager_recv_buffer_size := 2048; idle_timeout_ms := 0; fallback_tick_ms := 10;
     manager_session_config := default_session_config |}.

Definition demo_peer : sockaddr := mkSock AF_INET (mkSockaddr [x1f; x90] [x0a; x00; x00; x01]).
Definition demo_conv : KcpConv := from_uint32 7.
Definition demo_key : KcpSessionKey := make_key demo_conv (Some demo_peer) 16.

Definition demo_start : KState := (ready_manager demo_config [] 9000).2.

(** Start, send a message, run the loop, take the tick. *)
Definition demo_events : list Event :=
  [EStart; ESend demo_key (Some (str "hello")); ESubmit true; ESubmit true; ESubmit true;
   ESubmit true; ESubmit true; ESubmit true; ETimeout 1].

Definition demo_state : KState := run_events demo_events demo_start.

Lemma demo_state_run : demo_state = run_events demo_events demo_start.
Proof. unfold demo_state. reflexivity. Qed.

Lemma demo_ready : ready_manager demo_config [] 9000 = (Some true, demo_start).
Proof. reflexivity. Qed.

Lemma demo_events_ok : Forall no_loss demo_events.
Proof. repeat constructor. Qed.

Lemma demo_socket : forall n fd, env_socket n = Some fd -> 0 <= fd.
Proof. intros n fd [= <-]. lia. Qed.

Lemma demo_inv : kcp_inv demo_state.
Proof.
  rewrite demo_state_run. apply (run_inv demo_env_good); [|exact demo_events_ok].
  apply (ready_manager_inv demo_env_good demo_config [] 9000); [exact demo_socket|simpl; lia|exact demo_ready].
Qed.

Lemma kcp_timers_kept_witness :
  running_ (mgr demo_state) = true /\
  (exists e, sessions_ (mgr demo_state) !! demo_key = Some e /\ next_due_mono_ms e <> 0 /\
    node_of demo_key e ∈ timer_heap_ (mgr demo_state) /\ armed demo_state <= next_due_mono_ms e).
Proof.
  assert (running_ (mgr demo_state) = true) as Hr by (vm_compute; reflexivity).
  split; [exact Hr|].
  pose proof (kcp_timers_kept demo_env_good demo_config [] 9000 demo_start demo_events demo_socket
    ltac:(simpl; lia) demo_ready demo_events_ok) as H.
  cbv zeta in H. rewrite <- demo_state_run in H.
  destruct H as [_ H]. destruct (H Hr) as [_ Hk]. eexists. split; [vm_compute; reflexivity|].
  split; [vm_compute; discriminate|].
  destruct (Hk demo_key _ ltac:(vm_compute; reflexivity) ltac:(vm_compute; discriminate))
    as (H1 & _ & H2).
  split; [exact H1|exact H2].
Defined.

Lemma kcp_tick_serves_witness :
  (on_timeout (armed_tick_seq_ (mgr demo_state)) demo_state).1 = true.
Proof.
  pose proof (kcp_tick_serves demo_env_good demo_state demo_inv ltac:(vm_compute; reflexivity)) as H.
  destruct (on_timeout _ _) as [ok s]. apply H.
Defined.

(** A datagram of the peer, with a message behind the conversation. *)
Definition demo_datagram (message : bytes) : bytes := conv_bytes demo_conv ++ message.

Lemma udp_packet_delivers_witness :
  delivered (handle_udp_packet 3 (Some demo_peer) 16 (demo_datagram (str "ping")) demo_state).2
  = [(demo_key, str "ping")].
Proof.
  rewrite (proj1 (udp_packet_delivers demo_env_good demo_state (demo_datagram (str "ping")) demo_conv
    (Some demo_peer) 16 3 _ _ 0 _ _ _ demo_inv ltac:(vm_compute; reflexivity)
    ltac:(vm_compute; reflexivity) ltac:(vm_compute; discriminate) ltac:(vm_compute; reflexivity)
    ltac:(vm_compute; reflexivity) ltac:(vm_compute; reflexivity) ltac:(lia)
    ltac:(vm_compute; reflexivity) ltac:(vm_compute; lia))).
  vm_compute. reflexivity.
Defined.

Lemma kcp_delay_exact_witness :
  kcp_delay_ms (kcp_now_ms (2 ^ 32 - 5)) (kcp_now_ms (2 ^ 32 + 7)) = 12.
Proof. rewrite (proj2 (kcp_delay_exact (2 ^ 32 - 5) (2 ^ 32 + 7) ltac:(lia))). reflexivity. Defined.

Definition demo_session (ins : list bytes) : KcpSession :=
  mkSession (I := toy_ikcp) demo_conv demo_peer 16 true 4 (Some (mkToy demo_conv ins []))
    default_session_config.

Lemma drain_messages_spec_witness :
  drain_messages 3 (demo_session [str "a"; str "longer"]) =
  Some ([str "a"; str "longer"], demo_session []).
Proof.
  destruct (drain_messages_spec (R := toy_receive) (demo_session [str "a"; str "longer"])
    (mkToy demo_conv [str "a"; str "longer"] []) 3 eq_refl ltac:(vm_compute; repeat constructor)) as (k' & H & _).
  rewrite H. vm_compute in H. injection H as <-. reflexivity.
Defined.

(** ** Behaviour the code should not have *)

(** A lost submission of the tick is never repeated: the session waits for a tick that nobody
    will make, and messages sent later do not help, since the tick counts as armed. *)
Example tick_lost_for_good :
  let s := run_events (take 5 demo_events ++ [ESubmit false; ESend demo_key (Some (str "again"));
    ESubmit true; ESubmit true; ESubmit true; ESubmit true; ESubmit true; ESubmit true]) demo_start in
  running_ (mgr s) = true /\ is_Some (sessions_ (mgr s) !! demo_key) /\
  Forall (fun r => ~ is_timeout r) (requests s).
Proof. vm_compute. repeat split; [eauto|]. repeat constructor; tauto. Qed.

(** An empty message, which ikcp allows, blocks the session: it is never read, and neither are
    the messages behind it. *)
Example empty_message_blocks_session :
  let packet m := (handle_udp_packet 9 (Some demo_peer) 16 (demo_datagram m)) in
  delivered (packet (str "second") (packet [] (packet (str "first") demo_state).2).2).2
  = [(demo_key, str "first")].
Proof. vm_compute. reflexivity. Qed.

(** A datagram that ikcp rejects leaves a session behind; with the default idle time of 0 no tick
    ever removes it. *)
Definition stranger : sockaddr := mkSock AF_INET (mkSockaddr [x00; x35] [x01; x02; x03; x04]).
Definition stranger_key : KcpSessionKey := make_key (from_uint32 99) (Some stranger) 16.

Example rejected_datagram_keeps_session :
  let s := (handle_udp_packet 9 (Some stranger) 16 (conv_bytes (from_uint32 99) ++ [xff]) demo_state).2 in
  sessions_ (mgr demo_state) !! stranger_key = None /\
  is_Some (sessions_ (mgr s) !! stranger_key) /\
  (forall mono_now e, keeps_entry mono_now (mgr s) e = true).
Proof.
  split; [vm_compute; reflexivity|]. split; [vm_compute; eauto|].
  intros mono_now e. unfold keeps_entry, collect_due.
  replace (idle_timeout_ms_ _) with 0 by (vm_compute; reflexivity). done.
Qed.

(** A frame of one MiB, which the ingress accepts, has 778 fragments: it is taken by [send] and
    refused by ikcp. *)
Definition large_frame : bytes := replicate (Z.to_nat (1024 * 1024)) x00.

Lemma zlen_large_frame : zlen large_frame = 1024 * 1024.
Proof. unfold zlen, large_frame. rewrite length_replicate. lia. Qed.

#[local] Opaque large_frame.

Lemma refused_message_lost_witness : (manager_send demo_key (Some large_frame) demo_state).1 = true.
Proof.
  destruct (sessions_ (mgr demo_state) !! demo_key) as [e|] eqn:He; [|vm_compute in He; discriminate].
  assert (kcp_ (entry_session e) = Some (mkToy demo_conv [] [])) as Hk.
  { vm_compute in He. injection He as <-. reflexivity. }
  edestruct (refused_message_lost demo_env_good demo_state demo_key e) as [H _].
  - exact demo_inv.
  - vm_compute. reflexivity.
  - vm_compute. reflexivity.
  - rewrite zlen_large_frame. lia.
  - exact He.
  - exact Hk.
  - cbn [ikcp_send toy_ikcp]. rewrite zlen_large_frame. reflexivity.
  - lia.
  - exact H.
Defined.

(** [start] before [bind] throws and leaves the manager marked as running, so that [start] after
    [bind] does nothing. *)
Example start_before_bind :
  let '(ok, s) := manager_start (new_KcpManager demo_config) in
  let '(r, s) := manager_bind [] 9000 s in
  let '(ok', s) := manager_start s in
  ok = false /\ r = Some true /\ ok' = true /\ io_running (dispatcher_ s) = false /\
  (manager_send demo_key (Some (str "x")) s).1 = false.
Proof. vm_compute. done. Qed.
