(* ===== verification/Proactor.v ===== *)
(** The event loop on io_uring: myring/src/Proactor/Proactor.cpp, ProactorThread.cpp and the
    requests of myring/include/Proactor/Request.hpp.

    A request is an object at an address; its unique owner is the submission queue, the table
    [inflight_] or a local variable of the loop.  The ring knows requests by their address: entries
    that are prepared but not submitted, requests in the kernel, and completions.  One step is one
    access to something shared: a push of another thread and its write to the eventfd, a
    completion by the kernel, or a step of the loop, whose place in the program is [pc].  A
    callback of the user is the list of requests it pushes, which the loop pushes one by one
    ([LCall]), waiting while the queue is full; such a push and its write to the eventfd are one
    step, since the loop itself is the reader.  [io_uring_submit] submits all prepared entries or
    fails. *)
From S2P Require Import Prelude.

(** ** Requests *)

Inductive RequestType :=
  | ACCEPT | RECV | SEND | UDP_RECV | UDP_SEND | TIMEOUT | CLOSE | UNKNOWN | WAKEUP.

#[global] Instance RequestType_eq_dec : EqDecision RequestType.
Proof. solve_decision. Defined.

Abbreviation ptr := positive.

(** [struct RequestContext] and the fields of the requests the loop uses: the buffer with its
    capacity and length, and what has been sent of it. *)
Record RequestContext := mkRequest {
  req_type : RequestType;
  req_fd : Z;
  io_result : Z;
  buffer_capacity : Z;
  buffer_length : Z;
  req_offset : Z;
}.

Definition with_result (res : Z) (r : RequestContext) : RequestContext :=
  mkRequest (req_type r) (req_fd r) res (buffer_capacity r) (buffer_length r) (req_offset r).

(** [Buffer::set_length] *)
Definition set_length (n : Z) (r : RequestContext) : RequestContext :=
  mkRequest (req_type r) (req_fd r) (io_result r) (buffer_capacity r)
    (if n <=? buffer_capacity r then n else buffer_capacity r) (req_offset r).

(** [SendRequest::remaining], [advance] and [finished]; sizes have 64 bits. *)
Definition remaining (r : RequestContext) : Z := wrap 64 (buffer_length r - req_offset r).
Definition advance (n : Z) (r : RequestContext) : RequestContext :=
  mkRequest (req_type r) (req_fd r) (io_result r) (buffer_capacity r) (buffer_length r)
    (wrap 64 (req_offset r + n)).
Definition finished (r : RequestContext) : bool := buffer_length r <=? req_offset r.

(** ** The thread *)

(** [ProactorThread::kQueueCapacity] *)
Definition kQueueCapacity : nat := 4096.

(** How a request ended: its callback was called for the last time, with the request as it was
    then, or it was dropped without a call. *)
Inductive Outcome := Completed (r : RequestContext) | Dropped.

(** Where the loop is: at the head of its [while], in [wait_one], in [handle_ready_requests] with
    the rest of the batch, in [drain_submissions], or in a callback that still has requests to
    push, followed by the resubmission of its own request, if any. *)
Inductive PC :=
  | LTop
  | LWait
  | LHandle (batch : list ptr)
  | LDrain (batch : list ptr)
  | LCall (pushes : list (ptr * RequestContext)) (owner : option (ptr * RequestContext)) (next : PC)
  | LDone.

(** [class ProactorThread] with its [Proactor].  [entries] is the size of the ring, [wake] the
    address of the wake-up request.  [wake_count] is the counter of the eventfd, [notifying] the
    number of threads between a push, or [stop], and the write to the eventfd.  [pushed_log],
    [finished_log] and [stale_writes] record what happened: requests pushed, requests ended, and
    results written to a request that no longer exists. *)
Record ProactorThread := mkThread {
  entries : nat;
  max_events_ : nat;
  wake : ptr;
  p_running : bool;
  wakeup_armed_ : bool;
  wake_count : Z;
  notifying : nat;
  p_inflight : gmap ptr RequestContext;
  p_queue : list (ptr * RequestContext);
  ring_sq : list ptr;
  ring_kernel : list ptr;
  ring_cq : list (ptr * Z);
  pc : PC;
  pushed_log : list ptr;
  finished_log : list (ptr * Outcome);
  stale_writes : list ptr;
}.

Definition with_pc (c : PC) (s : ProactorThread) : ProactorThread :=
  mkThread (entries s) (max_events_ s) (wake s) (p_running s) (wakeup_armed_ s) (wake_count s)
    (notifying s) (p_inflight s) (p_queue s) (ring_sq s) (ring_kernel s) (ring_cq s) c
    (pushed_log s) (finished_log s) (stale_writes s).
Definition with_run (b : bool) (s : ProactorThread) : ProactorThread :=
  mkThread (entries s) (max_events_ s) (wake s) b (wakeup_armed_ s) (wake_count s)
    (notifying s) (p_inflight s) (p_queue s) (ring_sq s) (ring_kernel s) (ring_cq s) (pc s)
    (pushed_log s) (finished_log s) (stale_writes s).
Definition with_wakeup (b : bool) (s : ProactorThread) : ProactorThread :=
  mkThread (entries s) (max_events_ s) (wake s) (p_running s) b (wake_count s)
    (notifying s) (p_inflight s) (p_queue s) (ring_sq s) (ring_kernel s) (ring_cq s) (pc s)
    (pushed_log s) (finished_log s) (stale_writes s).
Definition with_eventfd (count : Z) (n : nat) (s : ProactorThread) : ProactorThread :=
  mkThread (entries s) (max_events_ s) (wake s) (p_running s) (wakeup_armed_ s) count
    n (p_inflight s) (p_queue s) (ring_sq s) (ring_kernel s) (ring_cq s) (pc s)
    (pushed_log s) (finished_log s) (stale_writes s).
Definition with_inflight (t : gmap ptr RequestContext) (s : ProactorThread) : ProactorThread :=
  mkThread (entries s) (max_events_ s) (wake s) (p_running s) (wakeup_armed_ s) (wake_count s)
    (notifying s) t (p_queue s) (ring_sq s) (ring_kernel s) (ring_cq s) (pc s)
    (pushed_log s) (finished_log s) (stale_writes s).
Definition with_queue (q : list (ptr * RequestContext)) (log : list ptr) (s : ProactorThread)
    : ProactorThread :=
  mkThread (entries s) (max_events_ s) (wake s) (p_running s) (wakeup_armed_ s) (wake_count s)
    (notifying s) (p_inflight s) q (ring_sq s) (ring_kernel s) (ring_cq s) (pc s)
    log (finished_log s) (stale_writes s).
Definition with_ring (sq k : list ptr) (cq : list (ptr * Z)) (s : ProactorThread) : ProactorThread :=
  mkThread (entries s) (max_events_ s) (wake s) (p_running s) (wakeup_armed_ s) (wake_count s)
    (notifying s) (p_inflight s) (p_queue s) sq k cq (pc s) (pushed_log s)
    (finished_log s) (stale_writes s).
Definition finish (p : ptr) (o : Outcome) (s : ProactorThread) : ProactorThread :=
  mkThread (entries s) (max_events_ s) (wake s) (p_running s) (wakeup_armed_ s) (wake_count s)
    (notifying s) (p_inflight s) (p_queue s) (ring_sq s) (ring_kernel s) (ring_cq s) (pc s)
    (pushed_log s) (finished_log s ++ [(p, o)]) (stale_writes s).
Definition stale (p : ptr) (s : ProactorThread) : ProactorThread :=
  mkThread (entries s) (max_events_ s) (wake s) (p_running s) (wakeup_armed_ s) (wake_count s)
    (notifying s) (p_inflight s) (p_queue s) (ring_sq s) (ring_kernel s) (ring_cq s) (pc s)
    (pushed_log s) (finished_log s) (stale_writes s ++ [p]).

Definition new_ProactorThread (entries max_events : nat) (wake : ptr) : ProactorThread :=
  mkThread entries (if decide (max_events = 0%nat) then 1%nat else max_events) wake false false 0 0
    ∅ [] [] [] [] LDone [] [] [].

(** ** The ring *)

(** [get_sqe] and the [prep_] functions: the entry is in the ring, not yet submitted. *)
Definition prep (p : ptr) (s : ProactorThread) : option ProactorThread :=
  if decide (length (ring_sq s) < entries s)%nat
  then Some (with_ring (ring_sq s ++ [p]) (ring_kernel s) (ring_cq s) s)
  else None.

(** [submit] *)
Definition submit (ok : bool) (s : ProactorThread) : ProactorThread :=
  if ok then with_ring [] (ring_kernel s ++ ring_sq s) (ring_cq s) s else s.

(** The result of a completion is written to the request at its address. *)
Definition write_result (c : ptr * Z) (s : ProactorThread) : ProactorThread :=
  match p_inflight s !! c.1 with
  | Some r => with_inflight (<[c.1 := with_result c.2 r]> (p_inflight s)) s
  | None => if decide (c.1 = wake s) then s else stale c.1 s
  end.

(** [peek_batch]: up to [max_events_] completions. *)
Definition peek_batch (s : ProactorThread) : list ptr * ProactorThread :=
  let batch := take (max_events_ s) (ring_cq s) in
  let s := fold_left (fun s c => write_result c s) batch s in
  (batch.*1, with_ring (ring_sq s) (ring_kernel s) (drop (max_events_ s) (ring_cq s)) s).

(** [wait_one], once a completion is there. *)
Definition wait_one (s : ProactorThread) : option (list ptr * ProactorThread) :=
  match ring_cq s with
  | [] => None
  | c :: cq =>
      let s := write_result c s in
      Some ([c.1], with_ring (ring_sq s) (ring_kernel s) cq s)
  end.

(** ** The loop *)

(** [arm_wakeup] *)
Definition arm_wakeup (ok : bool) (s : ProactorThread) : bool * ProactorThread :=
  if wakeup_armed_ s then (false, s)
  else
    match prep (wake s) s with
    | None => (false, s)
    | Some s =>
        if ok then (true, with_wakeup true (submit true s)) else (false, submit false s)
    end.

(** [submit_request]: the switch over the type.  A request that is not submitted is destroyed. *)
Definition submit_request (ok : bool) (pushes : list (ptr * RequestContext)) (p : ptr)
    (r : RequestContext) (next : PC) (s : ProactorThread) : ProactorThread :=
  match req_type r with
  | CLOSE => with_pc (LCall pushes None next) (finish p (Completed r) s)
  | WAKEUP | UNKNOWN => with_pc next (finish p Dropped s)
  | _ =>
      let prepared :=
        if decide (req_type r = SEND) then if remaining r =? 0 then None else prep p s
        else prep p s in
      match prepared with
      | None => with_pc next (finish p Dropped s)
      | Some s =>
          if ok
          then with_pc next (with_inflight (<[p := r]> (p_inflight s)) (submit true s))
          else with_pc next (finish p Dropped (submit false s))
      end
  end.

(** The bytes a RECV or UDP_RECV callback sees: [process] sets the length of the buffer first. *)
Definition received (r : RequestContext) : RequestContext :=
  match req_type r with
  | RECV | UDP_RECV => if 0 <? io_result r then set_length (io_result r) r else r
  | _ => r
  end.

(** [process]: the owner is taken out of the table, then the switch over the type. *)
Definition process (ok : bool) (pushes : list (ptr * RequestContext)) (p : ptr) (batch : list ptr)
    (s : ProactorThread) : ProactorThread :=
  match p_inflight s !! p with
  | None => with_pc (LHandle batch) s
  | Some r =>
      let s := with_inflight (delete p (p_inflight s)) s in
      let last r := with_pc (LCall pushes None (LHandle batch)) (finish p (Completed r) s) in
      match req_type r with
      | ACCEPT => with_pc (LCall pushes (Some (p, r)) (LHandle batch)) s
      | RECV | UDP_RECV | CLOSE | UDP_SEND | TIMEOUT => last (received r)
      | SEND =>
          let r := if 0 <? io_result r then advance (io_result r) r else r in
          if (0 <? io_result r) && negb (finished r)
          then submit_request ok pushes p r (LHandle batch) s
          else last r
      | UNKNOWN | WAKEUP => with_pc (LHandle batch) (finish p Dropped s)
      end
  end.

(** [push_wait] succeeds when the queue has room. *)
Definition try_push (p : ptr) (r : RequestContext) (s : ProactorThread) : option ProactorThread :=
  if decide (length (p_queue s) < kQueueCapacity)%nat
  then Some (with_queue (p_queue s ++ [(p, r)]) (pushed_log s ++ [p]) s) else None.

(** [notify_wakeup]: the write to the eventfd. *)
Definition notify_wakeup (s : ProactorThread) : ProactorThread :=
  with_eventfd (wake_count s + 1) (notifying s) s.

(** One step of the loop: [ok] is the result of [io_uring_submit], or whether [io_uring_wait_cqe]
    returns a completion; [pushes] are the requests pushed by the callback, if one runs. *)
Definition loop_turn (ok : bool) (pushes : list (ptr * RequestContext)) (s : ProactorThread)
    : ProactorThread :=
  match pc s with
  | LDone => s
  | LTop =>
      if negb (p_running s) then with_pc LDone s
      else if wakeup_armed_ s then with_pc LWait s
      else
        let '(armed, s) := arm_wakeup ok s in
        if armed then with_pc LWait s else with_pc LDone (with_run false s)
  | LWait =>
      if ok
      then match wait_one s with None => s | Some (batch, s) => with_pc (LHandle batch) s end
      else with_pc LTop s
  | LHandle [] =>
      let '(batch, s) := peek_batch s in
      with_pc (if decide (batch = []) then LTop else LHandle batch) s
  | LHandle (p :: batch) =>
      if decide (p = wake s) then
        let s := with_wakeup false s in
        if p_running s then with_pc (LDrain batch) s else with_pc (LHandle batch) s
      else process ok pushes p batch s
  | LDrain batch =>
      match p_queue s with
      | [] => with_pc (LHandle batch) s
      | (p, r) :: q => submit_request ok pushes p r (LDrain batch) (with_queue q (pushed_log s) s)
      end
  | LCall ((p, r) :: rest) owner next =>
      match try_push p r s with
      | None => s
      | Some s => with_pc (LCall rest owner next) (notify_wakeup s)
      end
  | LCall [] None next => with_pc next s
  | LCall [] (Some (p, r)) next =>
      if p_running s then submit_request ok [] p r next s else with_pc next (finish p Dropped s)
  end.

(** ** Steps *)

Inductive PEvent :=
  | PStart
  | PPush (p : ptr) (r : RequestContext)
  | PNotify
  | PStop
  | PKernel (i : nat) (res : Z)
  | PLoop (ok : bool) (pushes : list (ptr * RequestContext)).

(** The kernel completes a request it has; the read of the eventfd waits for a positive counter
    and resets it. *)
Definition kernel_complete (i : nat) (res : Z) (s : ProactorThread) : ProactorThread :=
  match ring_kernel s !! i with
  | None => s
  | Some p =>
      if decide (p = wake s) then
        if wake_count s <=? 0 then s
        else with_eventfd 0 (notifying s)
               (with_ring (ring_sq s) (delete i (ring_kernel s)) (ring_cq s ++ [(p, 8)]) s)
      else with_ring (ring_sq s) (delete i (ring_kernel s)) (ring_cq s ++ [(p, res)]) s
  end.

Definition proactor_step (ev : PEvent) (s : ProactorThread) : ProactorThread :=
  match ev with
  | PStart => match pc s with
              | LDone => if p_running s then s else with_pc LTop (with_run true s)
              | _ => s
              end
  | PPush p r =>
      match try_push p r s with
      | None => s
      | Some s => with_eventfd (wake_count s) (S (notifying s)) s
      end
  | PNotify =>
      match notifying s with
      | O => s
      | S n => with_eventfd (wake_count s + 1) n s
      end
  | PStop =>
      if p_running s
      then with_eventfd (wake_count s) (S (notifying s)) (with_run false s) else s
  | PKernel i res => kernel_complete i res s
  | PLoop ok pushes => loop_turn ok pushes s
  end.
