(* ===== verification/ProactorProofs.v ===== *)
(** The event loop: every request has one owner and ends exactly once, the ring never refers to a
    request that is gone, and no wake-up is lost. *)
From S2P Require Import Prelude Proactor.

(** ** Views of a state *)

Definition keys (t : gmap ptr RequestContext) : list ptr := (map_to_list t).*1.

Fixpoint batch_of (c : PC) : list ptr :=
  match c with LHandle b | LDrain b => b | LCall _ _ n => batch_of n | _ => [] end.
Fixpoint draining (c : PC) : bool :=
  match c with LDrain _ => true | LCall _ _ n => draining n | _ => false end.
Definition owner_of (c : PC) : list ptr :=
  match c with LCall _ (Some (p, _)) _ => [p] | _ => [] end.
Definition pushes_of (c : PC) : list ptr :=
  match c with LCall ps _ _ => ps.*1 | _ => [] end.
Definition resting (c : PC) : Prop := match c with LHandle _ | LDrain _ => True | _ => False end.

Definition armed_list (s : ProactorThread) : list ptr := if wakeup_armed_ s then [wake s] else [].

(** Something will wake the loop up, or has: a thread about to write to the eventfd, a positive
    counter, or a completion of its read. *)
Definition waking (b : list ptr) (s : ProactorThread) : Prop :=
  (0 < notifying s)%nat \/ 0 < wake_count s \/ wake s ∈ (ring_cq s).*1 ++ b.

(** The invariant, with the part of the place in the program as arguments: the request held by
    the loop, the requests about to be pushed, the rest of the batch, whether it is draining. *)
Record pinv_at (h ps b : list ptr) (d : bool) (s : ProactorThread) : Prop := {
  pi_entries : (0 < entries s)%nat;
  pi_events : (0 < max_events_ s)%nat;
  pi_sq : ring_sq s = [];
  pi_ring : ring_kernel s ++ (ring_cq s).*1 ++ b ≡ₚ armed_list s ++ keys (p_inflight s);
  pi_owners : NoDup (wake s :: (p_queue s).*1 ++ keys (p_inflight s) ++ h ++ ps);
  pi_log : pushed_log s ≡ₚ (finished_log s).*1 ++ (p_queue s).*1 ++ keys (p_inflight s) ++ h;
  pi_stale : stale_writes s = [];
  pi_count : 0 <= wake_count s;
  pi_wake : p_running s = true -> p_queue s <> [] -> d = true \/ waking b s;
}.

Record pinv (s : ProactorThread) : Prop := {
  pi_at : pinv_at (owner_of (pc s)) (pushes_of (pc s)) (batch_of (pc s)) (draining (pc s)) s;
  pi_next : match pc s with LCall _ _ n => resting n | _ => True end;
  pi_wait : pc s = LWait -> wakeup_armed_ s = true /\ (p_running s = false -> waking [] s);
}.

Lemma keys_insert t p r : t !! p = None -> keys (<[p := r]> t) ≡ₚ p :: keys t.
Proof. intros Hp. unfold keys. rewrite map_to_list_insert by done. done. Qed.

Lemma keys_replace t p r r' : t !! p = Some r -> keys (<[p := r']> t) ≡ₚ keys t.
Proof.
  intros Hp. rewrite <- (insert_delete_id t p r Hp) at 2.
  rewrite <- insert_delete_eq, !keys_insert by apply lookup_delete_eq. done.
Qed.

Lemma keys_delete t p r : t !! p = Some r -> keys t ≡ₚ p :: keys (delete p t).
Proof.
  intros Hp. rewrite <- (insert_delete_id t p r Hp) at 1. apply keys_insert, lookup_delete_eq.
Qed.

Lemma elem_of_keys t p : p ∈ keys t <-> is_Some (t !! p).
Proof.
  unfold keys. rewrite list_elem_of_fmap. split.
  - intros ([q r] & -> & Hq%elem_of_map_to_list). eauto.
  - intros [r Hr]. exists (p, r). split; [done|]. by apply elem_of_map_to_list.
Qed.

(** A state that differs only in its program counter. *)
Lemma pinv_with_pc c s :
  pinv_at (owner_of c) (pushes_of c) (batch_of c) (draining c) s ->
  match c with LCall _ _ n => resting n | _ => True end ->
  (c = LWait -> wakeup_armed_ s = true /\ (p_running s = false -> waking [] s)) -> pinv (with_pc c s).
Proof. intros Ha Hn Hw. split; [destruct Ha; split; done|done|done]. Qed.

Lemma pinv_resting n s :
  resting n -> pinv_at [] [] (batch_of n) (draining n) s -> pinv (with_pc n s).
Proof. destruct n; try done; intros _ Ha; apply pinv_with_pc; try done. Qed.

Lemma NoDup_perm {A} (l k : list A) : k ≡ₚ l -> NoDup l -> NoDup k.
Proof. intros ->. done. Qed.

Lemma NoDup_drop_one {A} (x : A) l k : l ≡ₚ x :: k -> NoDup l -> NoDup k.
Proof. intros ->. apply NoDup_cons. Qed.

(** The held request ends. *)
Lemma pinv_finish p o ps b d s : pinv_at [p] ps b d s -> pinv_at [] ps b d (finish p o s).
Proof.
  intros [A1 A2 A3 A4 A5 A6 A7 A8 A9]. split; simpl; try done.
  - eapply (NoDup_drop_one p); [|exact A5]. simpl. solve_Permutation.
  - rewrite A6, fmap_app. simpl. rewrite !app_nil_r. solve_Permutation.
Qed.

(** The held request goes to the kernel. *)
Lemma pinv_submit p r b d s :
  pinv_at [p] [] b d s ->
  pinv_at [] [] b d (with_inflight (<[p := r]> (p_inflight s))
    (with_ring [] (ring_kernel s ++ [p]) (ring_cq s) s)).
Proof.
  intros [A1 A2 A3 A4 A5 A6 A7 A8 A9].
  assert (p_inflight s !! p = None) as Hp.
  { apply eq_None_not_Some. rewrite <- elem_of_keys. intros Hin. simpl in A5.
    apply NoDup_cons in A5 as [_ (_ & _ & A5)%NoDup_app].
    apply NoDup_app in A5 as (_ & A5 & _). apply (A5 p Hin). set_solver. }
  split; simpl; try done.
  - rewrite keys_insert by done. change (armed_list _) with (armed_list s).
    transitivity (p :: armed_list s ++ keys (p_inflight s)); [rewrite <- A4|]; solve_Permutation.
  - rewrite keys_insert by done. eapply NoDup_perm; [|exact A5]. solve_Permutation.
  - rewrite keys_insert by done. rewrite A6. solve_Permutation.
Qed.

Lemma submit_request_pinv pushes p r n s :
  resting n -> pinv_at [p] [] (batch_of n) (draining n) s ->
  (NoDup (wake s :: (p_queue s).*1 ++ keys (p_inflight s) ++ [p] ++ pushes.*1)) ->
  pinv (submit_request true pushes p r n s).
Proof.
  intros Hn Ha Hps. unfold submit_request.
  assert (forall o, pinv (with_pc n (finish p o s))) as Hdrop.
  { intros o. apply pinv_resting; [done|]. by apply pinv_finish. }
  assert (pinv (with_pc n (with_inflight (<[p := r]> (p_inflight s))
    (with_ring [] (ring_kernel s ++ [p]) (ring_cq s) s)))) as Hsub.
  { apply pinv_resting; [done|]. by apply pinv_submit. }
  assert (prep p s = Some (with_ring [p] (ring_kernel s) (ring_cq s) s)) as Hprep.
  { unfold prep. rewrite (pi_sq _ _ _ _ _ Ha), decide_True by (apply Ha). done. }
  destruct (req_type r) eqn:Ht; rewrite ?Hprep; simpl; try done.
  - case_cond; [apply Hdrop|exact Hsub].
  - apply pinv_with_pc; simpl; [|done|done].
    destruct (pinv_finish p (Completed r) [] _ _ _ Ha). split; simpl; try done.
    eapply (NoDup_drop_one p); [|exact Hps]. solve_Permutation.
Qed.

(** A request is taken out of the table. *)
Lemma pinv_take p r b d s :
  pinv_at [] [] (p :: b) d s -> p <> wake s -> p_inflight s !! p = Some r ->
  pinv_at [p] [] b d (with_inflight (delete p (p_inflight s)) s).
Proof.
  intros [A1 A2 A3 A4 A5 A6 A7 A8 A9] Hw Hp. pose proof (keys_delete _ _ _ Hp) as Hk.
  split; simpl; try done.
  - apply (Permutation_cons_inv (a := p)). change (armed_list _) with (armed_list s).
    transitivity (ring_kernel s ++ (ring_cq s).*1 ++ p :: b); [solve_Permutation|].
    rewrite A4, Hk. solve_Permutation.
  - eapply NoDup_perm; [|exact A5]. rewrite Hk. solve_Permutation.
  - rewrite A6, Hk. solve_Permutation.
  - intros Hr Hq. destruct (A9 Hr Hq) as [?|[?|[?|Hin]]]; [auto|right; left; done|right; right; left; done|].
    right. right. right. simpl. set_solver.
Qed.

Lemma pinv_at_inflight h ps b d t s :
  pinv_at h ps b d s -> keys t ≡ₚ keys (p_inflight s) -> pinv_at h ps b d (with_inflight t s).
Proof.
  intros [A1 A2 A3 A4 A5 A6 A7 A8 A9] Hk. split; simpl; try done; rewrite Hk; done.
Qed.

(** The pushes of a callback that starts now. *)
Lemma pinv_call pushes (owner : option (ptr * RequestContext)) n s :
  resting n -> pinv_at (owner_of (LCall [] owner n)) [] (batch_of n) (draining n) s ->
  NoDup (wake s :: (p_queue s).*1 ++ keys (p_inflight s) ++ owner_of (LCall [] owner n) ++ pushes.*1) ->
  pinv (with_pc (LCall pushes owner n) s).
Proof.
  intros Hn [A1 A2 A3 A4 A5 A6 A7 A8 A9] Hps. apply pinv_with_pc; [|done|done].
  split; simpl; done.
Qed.

Lemma process_pinv pushes p b s :
  pinv_at [] [] (p :: b) false s -> p <> wake s ->
  NoDup (wake s :: (p_queue s).*1 ++ keys (p_inflight s) ++ pushes.*1) ->
  pinv (process true pushes p b s).
Proof.
  intros Ha Hw Hps. unfold process.
  assert (is_Some (p_inflight s !! p)) as [r Hr].
  { apply elem_of_keys. assert (p ∈ armed_list s ++ keys (p_inflight s)) as Hin.
    { rewrite <- (pi_ring _ _ _ _ _ Ha). set_solver. }
    apply elem_of_app in Hin as [Hin|?]; [|done]. unfold armed_list in Hin.
    destruct (wakeup_armed_ s); set_solver. }
  rewrite Hr. pose proof (pinv_take p r b false s Ha Hw Hr) as Ht.
  set (s1 := with_inflight _ s) in *.
  assert (NoDup (wake s1 :: (p_queue s1).*1 ++ keys (p_inflight s1) ++ [p] ++ pushes.*1)) as Hps1.
  { eapply NoDup_perm; [|exact Hps]. simpl. rewrite (keys_delete _ _ _ Hr). solve_Permutation. }
  assert (forall r', pinv (with_pc (LCall pushes None (LHandle b)) (finish p (Completed r') s1))) as Hlast.
  { intros r'. apply pinv_call; [done|by apply pinv_finish|].
    eapply (NoDup_drop_one p); [|exact Hps1]. simpl. solve_Permutation. }
  destruct (req_type r) eqn:Hty; try apply Hlast.
  - by apply pinv_call.
  - set (r1 := if 0 <? io_result r then _ else r).
    destruct ((0 <? io_result r1) && negb (finished r1)); [by apply submit_request_pinv|apply Hlast].
  - apply (pinv_resting (LHandle b)); [done|]. by apply pinv_finish.
  - apply (pinv_resting (LHandle b)); [done|]. by apply pinv_finish.
Qed.

(** ** Completions *)

Lemma write_result_pinv c h ps b d s :
  pinv_at h ps b d s -> c ∈ ring_cq s ->
  pinv_at h ps b d (write_result c s) /\ ring_cq (write_result c s) = ring_cq s /\
  max_events_ (write_result c s) = max_events_ s.
Proof.
  intros Ha Hc. unfold write_result.
  destruct (p_inflight s !! c.1) as [r|] eqn:Hr.
  - split; [|done]. apply pinv_at_inflight; [done|]. by eapply keys_replace.
  - rewrite decide_True; [done|].
    assert (c.1 ∈ armed_list s ++ keys (p_inflight s)) as Hin.
    { rewrite <- (pi_ring _ _ _ _ _ Ha), !elem_of_app. right. left. by apply list_elem_of_fmap_2. }
    apply elem_of_app in Hin as [Hin|[? ?]%elem_of_keys]; [|congruence].
    unfold armed_list in Hin. destruct (wakeup_armed_ s); set_solver.
Qed.

Lemma write_results_pinv l h ps b d s :
  pinv_at h ps b d s -> (forall c, c ∈ l -> c ∈ ring_cq s) ->
  let s' := fold_left (fun s c => write_result c s) l s in
  pinv_at h ps b d s' /\ ring_cq s' = ring_cq s /\ max_events_ s' = max_events_ s.
Proof.
  revert s. induction l as [|c l IH]; intros s Ha Hl; [done|]. simpl.
  destruct (write_result_pinv c h ps b d s Ha) as (Ha' & Hq & Hm); [set_solver|].
  destruct (IH (write_result c s) Ha') as (H1 & H2 & H3); [rewrite Hq; set_solver|].
  split; [done|]. split; congruence.
Qed.

(** Completions move to the batch. *)
Lemma pinv_move l1 l2 h ps b d s :
  pinv_at h ps b d s -> ring_cq s = l1 ++ l2 ->
  pinv_at h ps (l1.*1 ++ b) d (with_ring (ring_sq s) (ring_kernel s) l2 s).
Proof.
  intros [A1 A2 A3 A4 A5 A6 A7 A8 A9] Hc. rewrite Hc, fmap_app in A4.
  split; simpl; try done.
  - change (armed_list _) with (armed_list s). rewrite <- A4. solve_Permutation.
  - intros Hr Hq. destruct (A9 Hr Hq) as [?|[?|[?|Hin]]]; [auto|right; left; done|right; right; left; done|].
    right. right. right. simpl. rewrite Hc in Hin. set_solver.
Qed.

Lemma peek_batch_pinv d s :
  pinv_at [] [] [] d s ->
  let '(batch, s') := peek_batch s in pinv_at [] [] batch d s' /\ (batch = [] -> ring_cq s = []).
Proof.
  intros Ha. unfold peek_batch. set (l := take _ _).
  destruct (write_results_pinv l [] [] [] d s Ha) as (H1 & H2 & H3).
  { intros c Hc. rewrite <- (take_drop (max_events_ s) (ring_cq s)). apply elem_of_app. left. exact Hc. }
  set (s' := fold_left _ _ _) in *. split.
  - rewrite <- (app_nil_r l.*1). apply pinv_move; [done|]. rewrite H2. symmetry.
    subst l. rewrite H3. apply take_drop.
  - intros Hl%fmap_nil_inv. subst l. pose proof (pi_events _ _ _ _ _ Ha).
    destruct (ring_cq s) as [|c cq]; [done|]. destruct (max_events_ s); [lia|done].
Qed.

(** ** Steps *)

(** The addresses in use. *)
Definition owned_ptrs (s : ProactorThread) : list ptr :=
  wake s :: (p_queue s).*1 ++ keys (p_inflight s) ++ owner_of (pc s) ++ pushes_of (pc s).

(** New requests have new addresses, and [io_uring_submit] does not fail; [io_uring_wait_cqe] can. *)
Definition allowed (s : ProactorThread) (ev : PEvent) : Prop :=
  match ev with
  | PStart => False
  | PPush p _ => p ∉ owned_ptrs s
  | PLoop ok ps => (ok = false -> pc s = LWait) /\ NoDup (owned_ptrs s ++ ps.*1)
  | _ => True
  end.

Inductive preach (s0 : ProactorThread) : ProactorThread -> Prop :=
  | preach_init : preach s0 s0
  | preach_step s ev : preach s0 s -> allowed s ev -> preach s0 (proactor_step ev s).

Lemma pinv_wake_change s s' h ps b d :
  pinv_at h ps b d s -> entries s' = entries s -> max_events_ s' = max_events_ s ->
  ring_sq s' = ring_sq s -> ring_kernel s' = ring_kernel s -> ring_cq s' = ring_cq s ->
  wake s' = wake s -> wakeup_armed_ s' = wakeup_armed_ s -> p_inflight s' = p_inflight s ->
  p_queue s' = p_queue s -> pushed_log s' = pushed_log s -> finished_log s' = finished_log s ->
  stale_writes s' = stale_writes s -> 0 <= wake_count s' ->
  (p_running s' = true -> p_queue s <> [] -> d = true \/ waking b s') -> pinv_at h ps b d s'.
Proof.
  intros [A1 A2 A3 A4 A5 A6 A7 A8 A9] E1 E2 E3 E4 E5 E6 E7 E8 E9 E10 E11 E12 Hc Hw.
  split; unfold armed_list in *; rewrite ?E1, ?E2, ?E3, ?E4, ?E5, ?E6, ?E7, ?E8, ?E9, ?E10, ?E11, ?E12;
    try done.
Qed.

(** The loop at the head of its [while], and waiting. *)
Lemma top_turn_pinv ok ps s :
  pinv s -> pc s = LTop -> (ok = false -> pc s = LWait) -> pinv (loop_turn ok ps s).
Proof.
  intros [Ha Hn Hw] Hpc Hok. unfold loop_turn. rewrite Hpc in *. simpl in Ha.
  destruct (p_running s) eqn:Hr; simpl; [|apply pinv_with_pc; done].
  destruct (wakeup_armed_ s) eqn:Harm; [apply pinv_with_pc; try done; intros _; split; congruence|].
  destruct ok; [|specialize (Hok eq_refl); done].
  unfold arm_wakeup. rewrite Harm. unfold prep. rewrite (pi_sq _ _ _ _ _ Ha), decide_True by apply Ha.
  simpl. apply pinv_with_pc; simpl; [|done|intros _; split; [done|congruence]].
  destruct Ha as [A1 A2 A3 A4 A5 A6 A7 A8 A9]. split; simpl; try done.
  unfold armed_list in *. rewrite Harm in A4. simpl in *. rewrite <- A4. solve_Permutation.
Qed.

Lemma wait_turn_pinv ok ps s : pinv s -> pc s = LWait -> pinv (loop_turn ok ps s).
Proof.
  intros Hi Hpc. pose proof (pi_at s Hi) as Ha. unfold loop_turn. rewrite Hpc in *. simpl in Ha.
  destruct ok; [|apply pinv_with_pc; done].
  unfold wait_one. destruct (ring_cq s) as [|c cq] eqn:Hc; [done|].
  destruct (write_result_pinv c [] [] [] false s Ha) as (H1 & H2 & H3); [rewrite Hc; set_solver|].
  apply (pinv_resting (LHandle [c.1])); [done|]. simpl.
  apply (pinv_move [c] cq [] [] [] false (write_result c s) H1). rewrite H2. done.
Qed.

(** The wake-up request at the head of the batch. *)
Lemma wakeup_pinv b s :
  pinv_at [] [] (wake s :: b) false s ->
  pinv_at [] [] b true (with_wakeup false s).
Proof.
  intros [A1 A2 A3 A4 A5 A6 A7 A8 A9].
  assert (wake s ∈ armed_list s ++ keys (p_inflight s)) as Hin by (rewrite <- A4; set_solver).
  apply elem_of_app in Hin as [Hin|Hin].
  2: { apply NoDup_cons in A5 as [A5 _]. destruct A5. set_solver. }
  unfold armed_list in *. destruct (wakeup_armed_ s); [|set_solver].
  split; unfold armed_list; simpl in *; try done; [|auto].
  apply (Permutation_cons_inv (a := wake s)). rewrite <- A4. solve_Permutation.
Qed.

Lemma handle_turn_pinv ok ps b s :
  pinv s -> pc s = LHandle b -> allowed s (PLoop ok ps) -> pinv (loop_turn ok ps s).
Proof.
  intros Hi Hpc [Hok Hps]. pose proof (pi_at s Hi) as Ha. unfold loop_turn, owned_ptrs in *.
  rewrite Hpc in *. simpl in Ha, Hps. destruct b as [|p b].
  - pose proof (peek_batch_pinv false s Ha) as Hp. destruct (peek_batch s) as [batch s'].
    destruct Hp as [Hp _]. case_decide as Hb; [|by apply (pinv_resting (LHandle batch))].
    subst batch. apply pinv_with_pc; done.
  - case_decide as Hp.
    + subst p. pose proof (wakeup_pinv b s Ha) as H1. destruct (p_running s) eqn:Hr; simpl; rewrite Hr.
      * by apply (pinv_resting (LDrain b)).
      * apply (pinv_resting (LHandle b)); [done|]. destruct H1. split; try done. simpl. congruence.
    + destruct ok; [|specialize (Hok eq_refl); done]. apply process_pinv; [done..|].
      eapply NoDup_perm; [|exact Hps]. solve_Permutation.
Qed.

Lemma drain_turn_pinv ok ps b s :
  pinv s -> pc s = LDrain b -> allowed s (PLoop ok ps) -> pinv (loop_turn ok ps s).
Proof.
  intros Hi Hpc [Hok Hps]. pose proof (pi_at s Hi) as Ha. unfold loop_turn, owned_ptrs in *.
  rewrite Hpc in *. simpl in Ha, Hps. destruct (p_queue s) as [|[p r] q] eqn:Hq.
  - apply (pinv_resting (LHandle b)); [done|]. destruct Ha. split; done.
  - destruct ok; [|specialize (Hok eq_refl); done]. simpl in Hps.
    apply submit_request_pinv; [done|..]; simpl.
    + destruct Ha as [A1 A2 A3 A4 A5 A6 A7 A8 A9]. rewrite Hq in *. split; simpl; try done; [..|auto].
      * eapply NoDup_perm; [|exact A5]. simpl. solve_Permutation.
      * rewrite A6. simpl. solve_Permutation.
    + eapply NoDup_perm; [|exact Hps]. solve_Permutation.
Qed.

Lemma call_turn_pinv ok ps pushes owner n s :
  pinv s -> pc s = LCall pushes owner n -> allowed s (PLoop ok ps) -> pinv (loop_turn ok ps s).
Proof.
  intros Hi Hpc [Hok Hps]. pose proof (pi_at s Hi) as Ha. pose proof (pi_next s Hi) as Hn.
  unfold loop_turn, owned_ptrs in *. rewrite Hpc in *. destruct pushes as [|[p r] rest].
  - destruct owner as [[p r]|].
    + destruct (p_running s) eqn:Hr.
      * destruct ok; [|specialize (Hok eq_refl); done]. apply submit_request_pinv; [done..|].
        apply (pi_owners _ _ _ _ _ Ha).
      * apply pinv_resting; [done|]. by apply pinv_finish.
    + by apply pinv_resting.
  - unfold try_push. case_decide; [|done]. apply pinv_with_pc; [|done|done].
    destruct Ha as [A1 A2 A3 A4 A5 A6 A7 A8 A9]. simpl in *.
    assert (owner_of (LCall rest owner n) = owner_of (LCall ((p, r) :: rest) owner n)) as Hown
      by (destruct owner as [[]|]; done).
    split; simpl; try done.
    + eapply NoDup_perm; [|exact A5]. rewrite fmap_app. simpl. solve_Permutation.
    + rewrite A6, fmap_app. simpl. solve_Permutation.
    + lia.
    + intros _ _. right. right. left. simpl. lia.
Qed.

Lemma loop_turn_pinv ok ps s : pinv s -> allowed s (PLoop ok ps) -> pinv (loop_turn ok ps s).
Proof.
  intros Hi Hal. destruct (pc s) as [| |b|b|pushes owner n|] eqn:Hpc.
  - apply top_turn_pinv; [done..|]. apply Hal.
  - by apply wait_turn_pinv.
  - by eapply handle_turn_pinv.
  - by eapply drain_turn_pinv.
  - by eapply call_turn_pinv.
  - unfold loop_turn. rewrite Hpc. done.
Qed.

Lemma kernel_complete_pinv i res s : pinv s -> pinv (kernel_complete i res s).
Proof.
  intros [Ha Hn Hw]. unfold kernel_complete. destruct (ring_kernel s !! i) as [p|] eqn:Hp; [|done].
  assert (forall c, ring_kernel s ++ (ring_cq s).*1 ++ batch_of (pc s) ≡ₚ
    delete i (ring_kernel s) ++ (ring_cq s ++ [(p, c)]).*1 ++ batch_of (pc s)) as Hmove.
  { intros c. rewrite (delete_Permutation _ _ _ Hp) at 1. rewrite fmap_app. simpl. solve_Permutation. }
  assert (forall c b, waking b s -> waking b (with_ring (ring_sq s) (delete i (ring_kernel s))
    (ring_cq s ++ [(p, c)]) s)) as Hwk.
  { intros c b [?|[?|Hin]]; [left; done|right; left; done|]. right. right. simpl. rewrite fmap_app.
    set_solver. }
  case_decide as Hwake; [case_cond; [done|]|].
  - assert (forall b, waking b (with_eventfd 0 (notifying s) (with_ring (ring_sq s)
      (delete i (ring_kernel s)) (ring_cq s ++ [(p, 8)]) s))) as Hwk'.
    { intros b. right. right. simpl. rewrite fmap_app, Hwake. set_solver. }
    split; simpl; [|done|intros Hpc; split; [by apply Hw|done]].
    destruct Ha as [A1 A2 A3 A4 A5 A6 A7 A8 A9]. split; simpl; try done; [|auto].
    change (armed_list _) with (armed_list s). rewrite <- A4. symmetry. apply Hmove.
  - split; simpl; [|done|intros Hpc; destruct (Hw Hpc); split; auto].
    destruct Ha as [A1 A2 A3 A4 A5 A6 A7 A8 A9]. split; simpl; try done.
    + change (armed_list _) with (armed_list s). rewrite <- A4. symmetry. apply Hmove.
    + intros Hr Hq. destruct (A9 Hr Hq); auto.
Qed.

Lemma proactor_step_pinv ev s : pinv s -> allowed s ev -> pinv (proactor_step ev s).
Proof.
  intros Hi Hal. destruct ev as [|p r| | |i res|ok ps]; simpl.
  - destruct Hal.
  - unfold try_push. case_decide; [|done]. destruct Hi as [Ha Hn Hw].
    split; simpl; [|done|intros Hpc; split; [by apply Hw|]; intros _; left; simpl; lia].
    destruct Ha as [A1 A2 A3 A4 A5 A6 A7 A8 A9]. split; simpl; try done.
    + rewrite fmap_app. simpl. apply (NoDup_perm (p :: owned_ptrs s)).
      * unfold owned_ptrs. solve_Permutation.
      * by apply NoDup_cons.
    + rewrite A6, fmap_app. simpl. solve_Permutation.
    + intros _ _. right. left. simpl. lia.
  - destruct (notifying s) as [|k] eqn:Hk; [done|]. destruct Hi as [Ha Hn Hw].
    pose proof (pi_count _ _ _ _ _ Ha).
    assert (forall b, waking b (with_eventfd (wake_count s + 1) k s)) as Hwk
      by (intros b; right; left; simpl; lia).
    split; simpl; [|done|intros Hpc; split; [by apply Hw|auto]].
    eapply pinv_wake_change; try done; [simpl; lia|auto].
  - destruct (p_running s) eqn:Hr; [|done]. destruct Hi as [Ha Hn Hw].
    split; simpl; [|done|intros Hpc; split; [by apply Hw|]; intros _; left; simpl; lia].
    eapply pinv_wake_change; try done. apply (pi_count _ _ _ _ _ Ha).
  - by apply kernel_complete_pinv.
  - by apply loop_turn_pinv.
Qed.

(** A thread that has been started. *)
Definition started (n m : nat) (w : ptr) : ProactorThread := proactor_step PStart (new_ProactorThread n m w).

Lemma started_pinv n m w : (0 < n)%nat -> pinv (started n m w).
Proof.
  intros Hn. split; [|done|done]. split; simpl; try done.
  - case_decide; lia.
  - apply NoDup_singleton.
Qed.

Lemma preach_pinv s0 s : pinv s0 -> preach s0 s -> pinv s.
Proof. intros Hi. induction 1; [done|]. by apply proactor_step_pinv. Qed.

(** [C15] However threads, kernel and loop interleave after the start, as long as [io_uring_submit]
    does not fail: no result is ever written to a request that is gone; the ring holds exactly the
    requests of the table, and the wake-up request while it is armed, each once; and every request
    that was pushed has ended exactly once or has exactly one place, the queue, the table, or the
    loop's hands. A failed submission breaks this ([failed_submit_leaves_entry]). *)
Theorem proactor_requests_safe n m w s :
  (0 < n)%nat -> preach (started n m w) s ->
  stale_writes s = [] /\
  ring_kernel s ++ (ring_cq s).*1 ++ batch_of (pc s) ≡ₚ armed_list s ++ keys (p_inflight s) /\
  NoDup (owned_ptrs s) /\
  pushed_log s ≡ₚ (finished_log s).*1 ++ (p_queue s).*1 ++ keys (p_inflight s) ++ owner_of (pc s).
Proof.
  intros Hn Hs. destruct (preach_pinv _ _ (started_pinv n m w Hn) Hs) as [[A1 A2 A3 A4 A5 A6 A7 A8 A9] _ _].
  done.
Qed.


(** The loop that pushes into its own full queue waits for itself: nothing any thread or the kernel
    does will ever move it, or make room. *)
Theorem proactor_self_deadlock s0 s p r rest owner n :
  pc s0 = LCall ((p, r) :: rest) owner n -> (kQueueCapacity <= length (p_queue s0))%nat ->
  preach s0 s -> pc s = pc s0 /\ p_queue s = p_queue s0.
Proof.
  intros Hpc Hfull. induction 1 as [|s ev Hs [IHpc IHq] _]; [done|].
  assert (forall p r, try_push p r s = None) as Hno.
  { intros p' r'. unfold try_push. rewrite decide_False; [done|]. rewrite IHq. lia. }
  destruct ev as [|p' r'| | |i res|ok ps]; simpl; rewrite ?Hno; try done.
  - rewrite IHpc, Hpc. split; congruence.
  - destruct (notifying s); done.
  - destruct (p_running s); done.
  - unfold kernel_complete. repeat (case_match || case_decide); done.
  - unfold loop_turn. rewrite IHpc, Hpc, Hno. split; congruence.
Qed.

(** ** Runs *)

#[global] Instance allowed_dec s ev : Decision (allowed s ev).
Proof.
  destruct ev as [|p r| | |i res|[] ps]; simpl; try apply _.
  all: destruct (pc s); apply and_dec; try apply _;
    first [left; done | right; intros H; by specialize (H eq_refl)].
Defined.

Definition prun (evs : list PEvent) (s : ProactorThread) : ProactorThread :=
  fold_left (fun s ev => proactor_step ev s) evs s.

Fixpoint all_allowed (evs : list PEvent) (s : ProactorThread) : bool :=
  match evs with
  | [] => true
  | ev :: evs => bool_decide (allowed s ev) && all_allowed evs (proactor_step ev s)
  end.

Lemma prun_reach evs s0 s : preach s0 s -> all_allowed evs s = true -> preach s0 (prun evs s).
Proof.
  revert s. induction evs as [|ev evs IH]; intros s Hs Hal; [done|].
  simpl in Hal. bool_norm. apply IH; [by constructor|done].
Qed.

Module ProactorDemo.
Definition timer : RequestContext := mkRequest TIMEOUT (-1) 0 0 0 0.
Definition demo : ProactorThread := started 4 8 1.

(** A thread pushes a timeout; the loop arms its wake-up, is woken, and submits the timeout, which
    fires. *)
Definition demo_events : list PEvent :=
  [PPush 2 timer; PNotify; PLoop true []; PKernel 0 8; PLoop true []; PLoop true [];
   PLoop true []; PLoop true []; PLoop true []; PLoop true []; PKernel 0 (-62); PLoop true [];
   PLoop true []].

Lemma demo_reach evs : all_allowed evs demo = true -> preach demo (prun evs demo).
Proof. apply prun_reach. constructor. Qed.

Lemma proactor_requests_safe_witness :
  pushed_log (prun demo_events demo) = [2%positive] /\
  stale_writes (prun demo_events demo) = [] /\ NoDup (owned_ptrs (prun demo_events demo)).
Proof.
  split; [vm_compute; reflexivity|].
  destruct (proactor_requests_safe 4 8 1 (prun demo_events demo)) as (H1 & _ & H2 & _);
    [lia|apply demo_reach; vm_compute; reflexivity|]. split; [exact H1|exact H2].
Defined.



(** A callback that pushes while the queue is full. *)
Definition stuck : ProactorThread :=
  with_pc (LCall [(2%positive, timer)] None (LHandle []))
    (with_queue (replicate kQueueCapacity (3%positive, timer)) [] demo).

Lemma proactor_self_deadlock_witness : pc (proactor_step PNotify stuck) = pc stuck.
Proof.
  apply (proactor_self_deadlock stuck _ 2%positive timer [] None (LHandle [])).
  - reflexivity.
  - unfold stuck. cbn [p_queue with_pc with_queue]. rewrite length_replicate. apply le_n.
  - apply preach_step; [constructor|exact I].
Defined.

(** When [io_uring_submit] fails once, the request is destroyed but its entry stays in the ring:
    the next submission gives it to the kernel, and its result is written to freed memory. *)
Example failed_submit_leaves_entry :
  let s := prun [PLoop true []; PPush 2 timer; PNotify; PKernel 0 8; PLoop true []; PLoop true [];
                 PLoop false []; PPush 3 timer; PNotify; PLoop true []; PKernel 0 0; PLoop true [];
                 PLoop true []; PLoop true []] demo in
  (finished_log s).*1 = [2%positive] /\ stale_writes s = [2%positive].
Proof. vm_compute. done. Qed.
End ProactorDemo.
