(* ===== verification/TcpServer.v ===== *)
(** The TCP server: myring/src/TcpServer.cpp, TcpConnection.cpp and Proactor/LoopThreadPool.cpp.

    The table of connections is guarded by a mutex; what a handler does after it has released the
    mutex (callbacks, closing the socket, pushing the next request) is interleaved with other
    threads.  A handler is therefore its critical section, which is one step, followed by the list
    of actions its thread has still to do ([threads]); each action is one step again.
    Descriptors are numbers the kernel reuses as soon as they are closed, and [TcpConnection]
    objects live in a store, since callbacks keep pointers to them.  Callbacks are recorded in
    [trace]; what they do to the server are steps of their own. *)
From S2P Require Import Prelude.

(** ** Lines *)

(** [extract_messages]: the loop over the line ends. *)
Definition strip_cr (m : bytes) : bytes :=
  match last m with Some x0d => take (length m - 1) m | _ => m end.

Fixpoint split_line (b : bytes) : option (bytes * bytes) :=
  match b with
  | [] => None
  | c :: b =>
      if bool_decide (c = x0a) then Some ([], b)
      else match split_line b with None => None | Some (l, rest) => Some (c :: l, rest) end
  end.

Fixpoint extract_loop (fuel : nat) (b : bytes) : list bytes * bytes :=
  match fuel with
  | O => ([], b)
  | S fuel =>
      match split_line b with
      | None => ([], b)
      | Some (l, rest) =>
          let '(ms, b) := extract_loop fuel rest in
          let m := strip_cr l in
          (if bool_decide (m = []) then ms else m :: ms, b)
      end
  end.

Definition extract_messages (b : bytes) (flush_remaining : bool) : list bytes * bytes :=
  let '(ms, b) := extract_loop (S (length b)) b in
  if flush_remaining && negb (bool_decide (b = [])) then (ms ++ [b], []) else (ms, b).

(** ** State *)

Abbreviation fd := Z.
Abbreviation conn := nat.

(** [TcpServer::Impl::ConnectionState] *)
Record ConnectionState := mkState {
  cs_connection : conn;
  cs_worker : nat;
  input_buffer : bytes;
  read_closed : bool;
  write_shutdown_requested : bool;
  write_closed : bool;
  pending_sends : Z;
}.

(** [class TcpConnection] *)
Record TcpConnection := mkConnection { conn_fd : fd; conn_connected : bool }.

(** Requests at the workers. *)
Inductive IoRequest := RecvReq (f : fd) | SendReq (f : fd) (data : bytes).

(** What a thread has still to do, in order. *)
Inductive Action :=
  | APushRecv (f : fd)
  | AAcceptResult (f : fd) (accepted : bool)
  | ARaw (c : conn) (data : bytes)
  | AMessage (c : conn) (m : bytes)
  | AConnect (c : conn)
  | ADisconnect (c : conn)
  | AReadClosed (c : conn) (f : fd)
  | ARearm (c : conn) (f : fd)
  | ARearmRecv (f : fd)
  | ASendOn (f : fd) (data : bytes)
  | APushSend (f : fd) (data : bytes)
  | ASendFailed (f : fd)
  | AShutdown (f : fd)
  | AShutdownWrite (f : fd)
  | AClose (f : fd).

(** Calls of the callbacks of the user; the state of the connection is the one at the call. *)
Inductive Call :=
  | CConnection (c : conn) (connected : bool)
  | CRaw (c : conn) (data : bytes)
  | CMessage (c : conn) (m : bytes)
  | CReadClosed (c : conn).

(** [TcpServer::Impl], the connection objects, the open descriptors, the requests under way, the
    threads, the callbacks made, the connections whose end has been reported, the sockets shut down
    for writing, and calls of [close] on a descriptor that was not open. *)
Record TcpServer := mkServer {
  connection_callback : bool;
  message_callback : bool;
  raw_message_callback : bool;
  read_closed_callback : bool;
  worker_threads : nat;
  next_thread_index : nat;
  connections : gmap fd ConnectionState;
  objects : gmap conn TcpConnection;
  open_fds : gset fd;
  io_requests : list IoRequest;
  threads : gmap nat (list Action);
  trace : list Call;
  disconnect_log : list conn;
  write_shutdowns : list fd;
  bad_closes : list fd;
}.

Definition with_connections (t : gmap fd ConnectionState) (o : gmap conn TcpConnection)
    (s : TcpServer) : TcpServer :=
  mkServer (connection_callback s) (message_callback s) (raw_message_callback s)
    (read_closed_callback s) (worker_threads s) (next_thread_index s) t o (open_fds s)
    (io_requests s) (threads s) (trace s) (disconnect_log s)
    (write_shutdowns s) (bad_closes s).
Definition with_next (n : nat) (s : TcpServer) : TcpServer :=
  mkServer (connection_callback s) (message_callback s) (raw_message_callback s)
    (read_closed_callback s) (worker_threads s) n (connections s) (objects s) (open_fds s)
    (io_requests s) (threads s) (trace s) (disconnect_log s)
    (write_shutdowns s) (bad_closes s).
Definition with_fds (o : gset fd) (bad : list fd) (s : TcpServer) : TcpServer :=
  mkServer (connection_callback s) (message_callback s) (raw_message_callback s)
    (read_closed_callback s) (worker_threads s) (next_thread_index s) (connections s) (objects s) o
    (io_requests s) (threads s) (trace s) (disconnect_log s)
    (write_shutdowns s) bad.
Definition with_io (l : list IoRequest) (s : TcpServer) : TcpServer :=
  mkServer (connection_callback s) (message_callback s) (raw_message_callback s)
    (read_closed_callback s) (worker_threads s) (next_thread_index s) (connections s) (objects s)
    (open_fds s) l (threads s) (trace s) (disconnect_log s)
    (write_shutdowns s) (bad_closes s).
Definition with_threads (t : gmap nat (list Action)) (s : TcpServer) : TcpServer :=
  mkServer (connection_callback s) (message_callback s) (raw_message_callback s)
    (read_closed_callback s) (worker_threads s) (next_thread_index s) (connections s) (objects s)
    (open_fds s) (io_requests s) t (trace s) (disconnect_log s)
    (write_shutdowns s) (bad_closes s).
Definition call (c : Call) (s : TcpServer) : TcpServer :=
  mkServer (connection_callback s) (message_callback s) (raw_message_callback s)
    (read_closed_callback s) (worker_threads s) (next_thread_index s) (connections s) (objects s)
    (open_fds s) (io_requests s) (threads s) (trace s ++ [c]) (disconnect_log s)
    (write_shutdowns s) (bad_closes s).
Definition shut_write (f : fd) (s : TcpServer) : TcpServer :=
  mkServer (connection_callback s) (message_callback s) (raw_message_callback s)
    (read_closed_callback s) (worker_threads s) (next_thread_index s) (connections s) (objects s)
    (open_fds s) (io_requests s) (threads s) (trace s) (disconnect_log s)
    (write_shutdowns s ++ [f]) (bad_closes s).

Definition log_disconnect (c : conn) (s : TcpServer) : TcpServer :=
  mkServer (connection_callback s) (message_callback s) (raw_message_callback s)
    (read_closed_callback s) (worker_threads s) (next_thread_index s) (connections s) (objects s)
    (open_fds s) (io_requests s) (threads s) (trace s) (disconnect_log s ++ [c])
    (write_shutdowns s) (bad_closes s).

Definition connected (s : TcpServer) (c : conn) : bool :=
  match objects s !! c with Some o => conn_connected o | None => false end.

Definition set_connected (b : bool) (c : conn) (o : gmap conn TcpConnection) : gmap conn TcpConnection :=
  alter (fun k => mkConnection (conn_fd k) b) c o.

(** The end of a connection, under the mutex: marked as not connected and taken out of the table. *)
Definition drop_connection (f : fd) (c : conn) (s : TcpServer) : TcpServer :=
  with_connections (delete f (connections s)) (set_connected false c (objects s)) s.

Definition update_state (f : fd) (st : ConnectionState) (s : TcpServer) : TcpServer :=
  with_connections (<[f := st]> (connections s)) (objects s) s.

(** ** Critical sections

    Each returns the new state and the actions that follow. *)

(** [pick_thread]: round robin. *)
Definition pick_thread (s : TcpServer) : option nat * TcpServer :=
  if decide (worker_threads s = 0%nat) then (None, s)
  else
    let index := (next_thread_index s mod worker_threads s)%nat in
    (Some index, with_next ((index + 1) mod worker_threads s)%nat s).

(** [handle_accept] up to the registration by [make_initial_recv_request]; [made] says whether the
    pool had a request left. *)
Definition handle_accept (made : bool) (f : fd) (s : TcpServer) : TcpServer * list Action :=
  let '(worker, s) := pick_thread s in
  match worker with
  | None => (s, [AClose f])
  | Some w =>
      let c := fresh (dom (objects s)) in
      (with_connections (<[f := mkState c w [] false false false 0]> (connections s))
         (<[c := mkConnection f true]> (objects s)) s,
       if made then [APushRecv f; AAcceptResult f true] else [AAcceptResult f false; AClose f])
  end.

(** [handle_accept_result] *)
Definition handle_accept_result (f : fd) (accepted : bool) (s : TcpServer) : TcpServer * list Action :=
  match connections s !! f with
  | None => (s, [])
  | Some st =>
      let c := cs_connection st in
      if negb accepted then (drop_connection f c s, [])
      else (s, if connection_callback s then [AConnect c] else [])
  end.

(** [shutdown_connection] *)
Definition shutdown_connection (f : fd) (s : TcpServer) : TcpServer * list Action :=
  match connections s !! f with
  | None => (s, [])
  | Some st =>
      let c := cs_connection st in
      (drop_connection f c s, AClose f :: (if connection_callback s then [ADisconnect c] else []))
  end.

(** [rearm_recv]; [made] says whether the request could be made. *)
Definition rearm_recv (made : bool) (f : fd) (s : TcpServer) : TcpServer * list Action :=
  match connections s !! f with
  | None => (s, [])
  | Some _ => if made then (with_io (io_requests s ++ [RecvReq f]) s, []) else (s, [AShutdown f])
  end.

(** [handle_recv] *)
Definition handle_recv (f : fd) (res : Z) (data : bytes) (s : TcpServer)
    : TcpServer * list Action :=
  match connections s !! f with
  | None => (s, [])
  | Some st =>
      let c := cs_connection st in
      if 0 <? res then
        let '(messages, buffer) :=
          if message_callback s then extract_messages (input_buffer st ++ data) false
          else ([], input_buffer st) in
        (update_state f (mkState c (cs_worker st) buffer (read_closed st)
           (write_shutdown_requested st) (write_closed st) (pending_sends st)) s,
         (if raw_message_callback s && negb (bool_decide (data = [])) then [ARaw c data] else []) ++
         (if message_callback s then AMessage c <$> messages else []) ++ [ARearm c f])
      else if res =? 0 then
        let '(messages, buffer) :=
          if message_callback s then extract_messages (input_buffer st) true
          else ([], input_buffer st) in
        (update_state f (mkState c (cs_worker st) buffer true
           (write_shutdown_requested st) (write_closed st) (pending_sends st)) s,
         (if message_callback s then AMessage c <$> messages else []) ++
         (if negb (read_closed st) then [AReadClosed c f] else [ARearm c f]))
      else
        (drop_connection f c s, AClose f :: (if connection_callback s then [ADisconnect c] else []))
  end.

Definition with_pending (n : Z) (st : ConnectionState) : ConnectionState :=
  mkState (cs_connection st) (cs_worker st) (input_buffer st) (read_closed st)
    (write_shutdown_requested st) (write_closed st) n.

(** The end of a connection whose two directions are closed: shut down for writing, then closed. *)
Definition half_close_actions (s : TcpServer) (f : fd) (c : conn) (disconnect : bool) : list Action :=
  AShutdownWrite f ::
  (if disconnect then AClose f :: (if connection_callback s then [ADisconnect c] else []) else []).

(** [handle_send] *)
Definition handle_send (f : fd) (res : Z) (s : TcpServer) : TcpServer * list Action :=
  match connections s !! f with
  | None => (s, [])
  | Some st =>
      let c := cs_connection st in
      let pending := if 0 <? pending_sends st then pending_sends st - 1 else pending_sends st in
      let st' := with_pending pending st in
      if res <? 0 then
        (drop_connection f c s, AClose f :: (if connection_callback s then [ADisconnect c] else []))
      else if write_shutdown_requested st && (pending =? 0) && negb (write_closed st) then
        let st'' := mkState c (cs_worker st) (input_buffer st) (read_closed st) true true pending in
        (if read_closed st then drop_connection f c s else update_state f st'' s,
         half_close_actions s f c (read_closed st))
      else (update_state f st' s, [])
  end.

(** [send_on_connection]: the entry counts one more send, whatever follows; then the request is
    made and pushed, or, if that fails, the send is taken back and the connection shut down. *)
Definition send_on_connection (f : fd) (data : bytes) (s : TcpServer) : TcpServer * list Action :=
  match connections s !! f with
  | None => (s, [])
  | Some st =>
      if negb (connected s (cs_connection st)) then (s, [])
      else
        (update_state f (with_pending (pending_sends st + 1) st) s,
         if bool_decide (data = []) then [] else [APushSend f data])
  end.

Definition push_send (made : bool) (f : fd) (data : bytes) (s : TcpServer) : TcpServer * list Action :=
  if made then (with_io (io_requests s ++ [SendReq f data]) s, [])
  else (s, [ASendFailed f; AShutdown f]).

Definition send_failed (f : fd) (s : TcpServer) : TcpServer :=
  match connections s !! f with
  | None => s
  | Some st => if 0 <? pending_sends st then update_state f (with_pending (pending_sends st - 1) st) s else s
  end.

(** [shutdown_write_connection] *)
Definition shutdown_write_connection (f : fd) (s : TcpServer) : TcpServer * list Action :=
  match connections s !! f with
  | None => (s, [])
  | Some st =>
      let c := cs_connection st in
      if negb (connected s c) || write_closed st then (s, [])
      else if pending_sends st =? 0 then
        (if read_closed st then drop_connection f c s
         else update_state f (mkState c (cs_worker st) (input_buffer st) (read_closed st) true true 0) s,
         half_close_actions s f c (read_closed st))
      else
        (update_state f (mkState c (cs_worker st) (input_buffer st) (read_closed st) true
           (write_closed st) (pending_sends st)) s, [])
  end.

(** [TcpConnection::send], [shutdown_write] and [shutdown], while the server exists. *)
Definition conn_send (c : conn) (data : bytes) (s : TcpServer) : TcpServer * list Action :=
  match objects s !! c with
  | None => (s, [])
  | Some o =>
      (s, if negb (conn_connected o) || bool_decide (data = []) then [] else [ASendOn (conn_fd o) data])
  end.

Definition conn_shutdown_write (c : conn) (s : TcpServer) : TcpServer * list Action :=
  match objects s !! c with
  | None => (s, [])
  | Some o => shutdown_write_connection (conn_fd o) s
  end.

Definition conn_shutdown (c : conn) (s : TcpServer) : TcpServer * list Action :=
  match objects s !! c with
  | None => (s, [])
  | Some o => shutdown_connection (conn_fd o) s
  end.

(** [close_all_connections], in the order [order] of the table. *)
Definition close_all_connections `{!IterOrder fd ConnectionState} (s : TcpServer)
    : TcpServer * list Action :=
  let active := iter_map (connections s) in
  (with_connections ∅
     (fold_left (fun o p => set_connected false (cs_connection p.2) o) active (objects s)) s,
   active ≫= (fun p => AClose p.1 ::
     (if connection_callback s then [ADisconnect (cs_connection p.2)] else []))).

(** ** Actions *)

(** [close_socket_fd]; closing a descriptor that is not open is recorded. *)
Definition close_socket_fd (f : fd) (s : TcpServer) : TcpServer :=
  if decide (f ∈ open_fds s) then with_fds (open_fds s ∖ {[f]}) (bad_closes s) s
  else with_fds (open_fds s) (bad_closes s ++ [f]) s.

Definition run_action (made : bool) (a : Action) (s : TcpServer) : TcpServer * list Action :=
  match a with
  | APushRecv f => (with_io (io_requests s ++ [RecvReq f]) s, [])
  | AAcceptResult f accepted => handle_accept_result f accepted s
  | ARaw c data => (call (CRaw c data) s, [])
  | AMessage c m => (call (CMessage c m) s, [])
  | AConnect c => (call (CConnection c (connected s c)) s, [])
  | ADisconnect c => (log_disconnect c (call (CConnection c (connected s c)) s), [])
  | AReadClosed c f =>
      if read_closed_callback s then (call (CReadClosed c) s, []) else shutdown_connection f s
  | ARearm c f => (s, if connected s c then [ARearmRecv f] else [])
  | ARearmRecv f => rearm_recv made f s
  | ASendOn f data => send_on_connection f data s
  | APushSend f data => push_send made f data s
  | ASendFailed f => (send_failed f s, [])
  | AShutdown f => shutdown_connection f s
  | AShutdownWrite f => (shut_write f s, [])
  | AClose f => (close_socket_fd f s, [])
  end.

(** ** Steps *)

Inductive SEvent :=
  | SAccept (t : nat) (f : fd) (made : bool)
  | SRecvDone (t : nat) (i : nat) (res : Z) (data : bytes)
  | SSendDone (t : nat) (i : nat) (res : Z)
  | SSend (t : nat) (c : conn) (data : bytes)
  | SShutdownWrite (t : nat) (c : conn)
  | SShutdown (t : nat) (c : conn)
  | SStop (t : nat)
  | SRun (t : nat) (made : bool).

(** A thread without actions starts a handler. *)
Definition begin (t : nat) (r : TcpServer * list Action) : TcpServer :=
  with_threads (<[t := r.2]> (threads r.1)) r.1.

Definition actions (s : TcpServer) (t : nat) : list Action := default [] (threads s !! t).

Definition server_step `{!IterOrder fd ConnectionState} (ev : SEvent) (s : TcpServer) : TcpServer :=
  match ev with
  | SRun t made =>
      match actions s t with
      | [] => s
      | a :: rest =>
          let '(s, more) := run_action made a s in
          with_threads (<[t := more ++ rest]> (threads s)) s
      end
  | SAccept t f made =>
      if decide (actions s t = [] /\ f ∉ open_fds s)
      then begin t (handle_accept made f (with_fds (open_fds s ∪ {[f]}) (bad_closes s) s)) else s
  | SRecvDone t i res data =>
      match actions s t, io_requests s !! i with
      | [], Some (RecvReq f) => begin t (handle_recv f res data (with_io (delete i (io_requests s)) s))
      | _, _ => s
      end
  | SSendDone t i res =>
      match actions s t, io_requests s !! i with
      | [], Some (SendReq f _) => begin t (handle_send f res (with_io (delete i (io_requests s)) s))
      | _, _ => s
      end
  | SSend t c data => if decide (actions s t = []) then begin t (conn_send c data s) else s
  | SShutdownWrite t c => if decide (actions s t = []) then begin t (conn_shutdown_write c s) else s
  | SShutdown t c => if decide (actions s t = []) then begin t (conn_shutdown c s) else s
  | SStop t => if decide (actions s t = []) then begin t (close_all_connections s) else s
  end.

Definition new_TcpServer (connection_cb message_cb raw_cb read_closed_cb : bool) (workers : nat)
    : TcpServer :=
  mkServer connection_cb message_cb raw_cb read_closed_cb (if decide (workers = 0%nat) then 1%nat else workers)
    0 ∅ ∅ ∅ [] ∅ [] [] [] [].
