(* ===== verification/TcpServerProofs.v ===== *)
(** The TCP server closes every descriptor exactly once and reports the end of every connection
    exactly once, under every interleaving of its threads; lines do not depend on how the stream
    is cut.  Runs at the end show what goes wrong when the kernel reuses a descriptor. *)
From S2P Require Import Prelude TcpServer.

(** ** Lines *)

Lemma split_line_some b l rest : split_line b = Some (l, rest) -> b = l ++ x0a :: rest.
Proof.
  revert l rest. induction b as [|c b IH]; simpl; intros l rest; [done|].
  case_bool_decide as Hc; [intros [= <- <-]; rewrite Hc; done|].
  destruct (split_line b) as [[l' r']|]; [|done]. intros [= <- <-]. rewrite (IH l' r') by done. done.
Qed.

Lemma split_line_app b d l rest :
  split_line b = Some (l, rest) -> split_line (b ++ d) = Some (l, rest ++ d).
Proof.
  revert l rest. induction b as [|c b IH]; simpl; intros l rest; [done|].
  case_bool_decide; [intros [= <- <-]; done|].
  destruct (split_line b) as [[l' r']|]; [|done]. intros [= <- <-]. rewrite (IH l' r') by done. done.
Qed.

Lemma extract_loop_fuel fuel fuel' b :
  (length b < fuel)%nat -> (length b < fuel')%nat -> extract_loop fuel b = extract_loop fuel' b.
Proof.
  revert fuel' b. induction fuel as [|fuel IH]; intros fuel' b Hf Hf'; [lia|].
  destruct fuel' as [|fuel']; [lia|]. simpl.
  destruct (split_line b) as [[l rest]|] eqn:Hs; [|done].
  apply split_line_some in Hs. subst b. rewrite length_app in Hf, Hf'. simpl in *.
  rewrite (IH fuel' rest) by lia. done.
Qed.

Definition cons_line (l : bytes) (ms : list bytes) : list bytes :=
  if bool_decide (strip_cr l = []) then ms else strip_cr l :: ms.

(** [extract_messages] line by line. *)
Lemma extract_step b :
  extract_messages b false =
    match split_line b with
    | None => ([], b)
    | Some (l, rest) => let '(ms, r) := extract_messages rest false in (cons_line l ms, r)
    end.
Proof.
  unfold extract_messages. cbn [extract_loop andb].
  destruct (split_line b) as [[l rest]|] eqn:Hs; [|done].
  apply split_line_some in Hs. rewrite (extract_loop_fuel (length b) (S (length rest)) rest).
  - cbn [extract_loop]. destruct (split_line rest) as [[l' r']|]; [|done].
    destruct (extract_loop (length rest) r'). done.
  - subst b. rewrite length_app. simpl. lia.
  - lia.
Qed.

(** The lines of a stream are those of a first part, and those of its rest followed by the second. *)
Lemma extract_app b d :
  extract_messages (b ++ d) false =
    let '(ms, rest) := extract_messages b false in
    let '(ms', rest') := extract_messages (rest ++ d) false in (ms ++ ms', rest').
Proof.
  remember (length b) as n eqn:Hn. revert b Hn. induction n as [n IH] using lt_wf_ind.
  intros b ->. rewrite (extract_step b). destruct (split_line b) as [[l rest]|] eqn:Hs.
  - rewrite (extract_step (b ++ d)), (split_line_app b d l rest Hs).
    assert (length rest < length b)%nat as Hlt.
    { apply split_line_some in Hs. subst b. rewrite length_app. simpl. lia. }
    rewrite (IH _ Hlt rest eq_refl).
    destruct (extract_messages rest false) as [ms r].
    destruct (extract_messages (r ++ d) false) as [ms' r'].
    unfold cons_line. case_bool_decide; done.
  - destruct (extract_messages (b ++ d) false). done.
Qed.

(** Reading a stream in pieces. *)
Fixpoint feed (chunks : list bytes) (buffer : bytes) : list bytes * bytes :=
  match chunks with
  | [] => ([], buffer)
  | d :: chunks =>
      let '(ms, buffer) := extract_messages (buffer ++ d) false in
      let '(ms', buffer) := feed chunks buffer in (ms ++ ms', buffer)
  end.

(** The lines handed to the message callback, and the rest kept in the buffer, do not depend on
    how the stream is cut into reads. *)
Theorem lines_independent_of_cuts chunks :
  feed chunks [] = extract_messages (concat chunks) false.
Proof.
  enough (forall b, split_line b = None -> feed chunks b = extract_messages (b ++ concat chunks) false)
    as Hall by (apply Hall; done).
  induction chunks as [|d chunks IH]; intros b Hb; simpl.
  - rewrite app_nil_r, extract_step, Hb. done.
  - rewrite app_assoc, (extract_app (b ++ d)).
    destruct (extract_messages (b ++ d) false) as [ms r] eqn:He.
    rewrite (IH r); [done|]. clear -He. remember (length (b ++ d)) as n eqn:Hn. revert He Hn.
    generalize (b ++ d) as x. revert ms. induction n as [n IH] using lt_wf_ind.
    intros ms x He ->. rewrite extract_step in He.
    destruct (split_line x) as [[l rest]|] eqn:Hs; [|injection He as <- <-; done].
    destruct (extract_messages rest false) as [ms' r'] eqn:He'. injection He as _ <-.
    eapply IH; [|exact He'|reflexivity]. apply split_line_some in Hs. subst x.
    rewrite length_app. simpl. lia.
Qed.

(** ** What the threads have still to do *)

Definition close_of (a : Action) : option fd := match a with AClose f => Some f | _ => None end.
Definition end_of (a : Action) : option conn := match a with ADisconnect c => Some c | _ => None end.
(** Not the answer to an accepted connection for which no request could be made. *)
Definition clean (a : Action) : Prop := match a with AAcceptResult _ false => False | _ => True end.
Definition closes_of (l : list Action) : list fd := omap close_of l.
Definition ends_of (l : list Action) : list conn := omap end_of l.

(** The images of the actions of all threads. *)
Definition all_of {A} (g : Action -> option A) (m : gmap nat (list Action)) : list A :=
  map_to_list m ≫= (fun p => omap g p.2).

Lemma all_of_insert {A} (g : Action -> option A) m t l :
  all_of g (<[t := l]> m) ≡ₚ omap g l ++ all_of g (delete t m).
Proof.
  unfold all_of. rewrite <- insert_delete_eq, map_to_list_insert by apply lookup_delete_eq. done.
Qed.

Lemma all_of_split {A} (g : Action -> option A) m t :
  all_of g m ≡ₚ omap g (default [] (m !! t)) ++ all_of g (delete t m).
Proof.
  destruct (m !! t) as [l|] eqn:Hl; simpl.
  - rewrite <- all_of_insert, insert_id by done. done.
  - rewrite delete_id by done. done.
Qed.

Definition fds_of (t : gmap fd ConnectionState) : list fd := (map_to_list t).*1.
Definition conns_of (t : gmap fd ConnectionState) : list conn := cs_connection <$> (map_to_list t).*2.

Lemma fds_insert t f st : t !! f = None -> fds_of (<[f := st]> t) ≡ₚ f :: fds_of t.
Proof. intros Hf. unfold fds_of. rewrite map_to_list_insert by done. done. Qed.

Lemma conns_insert t f st :
  t !! f = None -> conns_of (<[f := st]> t) ≡ₚ cs_connection st :: conns_of t.
Proof. intros Hf. unfold conns_of. rewrite map_to_list_insert by done. done. Qed.

Lemma fds_delete t f st : t !! f = Some st -> fds_of t ≡ₚ f :: fds_of (delete f t).
Proof.
  intros Hf. rewrite <- (fds_insert _ f st) by apply lookup_delete_eq.
  rewrite insert_delete_id by done. done.
Qed.

Lemma conns_delete t f st :
  t !! f = Some st -> conns_of t ≡ₚ cs_connection st :: conns_of (delete f t).
Proof.
  intros Hf. rewrite <- (conns_insert _ f st) by apply lookup_delete_eq.
  rewrite insert_delete_id by done. done.
Qed.

(** ** The invariant *)

(** The table and the connection objects agree. *)
Record tables_ok (s : TcpServer) : Prop := {
  to_state : forall f st, connections s !! f = Some st ->
    objects s !! cs_connection st = Some (mkConnection f true);
  to_gone : forall c o, objects s !! c = Some o -> conn_connected o = true ->
    exists st, connections s !! conn_fd o = Some st /\ cs_connection st = c;
}.

Record sinv (s : TcpServer) : Prop := {
  si_callback : connection_callback s = true;
  si_tables : tables_ok s;
  si_fds : elements (open_fds s) ≡ₚ fds_of (connections s) ++ all_of close_of (threads s);
  si_conns : elements (dom (objects s)) ≡ₚ
    conns_of (connections s) ++ all_of end_of (threads s) ++ disconnect_log s;
  si_bad : bad_closes s = [];
  si_clean : forall t, Forall clean (actions s t);
}.

(** A critical section hands the descriptors and connections it takes out of the table to its
    thread. *)
Record balanced (s s' : TcpServer) (acts : list Action) : Prop := {
  b_tables : tables_ok s';
  b_fds : fds_of (connections s') ++ closes_of acts ≡ₚ fds_of (connections s);
  b_conns : conns_of (connections s') ++ ends_of acts ≡ₚ conns_of (connections s);
  b_objects : dom (objects s') = dom (objects s);
  b_callback : connection_callback s' = connection_callback s;
  b_open : open_fds s' = open_fds s;
  b_threads : threads s' = threads s;
  b_log : disconnect_log s' = disconnect_log s;
  b_bad : bad_closes s' = bad_closes s;
  b_clean : Forall clean acts;
}.

(** Actions that neither close a descriptor nor report an end. *)
Definition harmless (acts : list Action) : Prop :=
  closes_of acts = [] /\ ends_of acts = [] /\ Forall clean acts.

Ltac harmless := split; [done|split; [done|by repeat constructor]].

Lemma balanced_same s acts : tables_ok s -> harmless acts -> balanced s s acts.
Proof. intros Ht (Hc & He & Hcl). split; try done; rewrite ?Hc, ?He, app_nil_r; done. Qed.

Lemma balanced_update s f st st' acts :
  tables_ok s -> connections s !! f = Some st -> cs_connection st' = cs_connection st ->
  harmless acts -> balanced s (update_state f st' s) acts.
Proof.
  intros [T1 T2] Hf Hc (Hcl & He & Hclean). split; try done; rewrite ?Hcl, ?He, ?app_nil_r; simpl.
  - split; simpl.
    + intros f2 st2 [[<- <-]|[Hne Hf2]]%lookup_insert_Some; [rewrite Hc|]; auto.
    + intros c o Ho Hcon. destruct (T2 c o Ho Hcon) as (st2 & Hst2 & <-).
      destruct (decide (f = conn_fd o)) as [->|Hne].
      * exists st'. rewrite lookup_insert_eq. split; [done|]. congruence.
      * exists st2. rewrite lookup_insert_ne by done. done.
  - rewrite <- insert_delete_eq, fds_insert by apply lookup_delete_eq. rewrite (fds_delete _ _ _ Hf). done.
  - rewrite <- insert_delete_eq, conns_insert by apply lookup_delete_eq.
    rewrite (conns_delete _ _ _ Hf), Hc. done.
Qed.

Lemma balanced_drop s f st acts :
  tables_ok s -> connections s !! f = Some st ->
  closes_of acts = [f] -> ends_of acts = [cs_connection st] ->
  Forall clean acts ->
  balanced s (drop_connection f (cs_connection st) s) acts.
Proof.
  intros [T1 T2] Hf Hcl He Hclean. pose proof (T1 f st Hf) as Ho. split; simpl; try done; rewrite ?Hcl, ?He.
  - split; simpl.
    + intros f2 st2 [Hne Hf2]%lookup_delete_Some. pose proof (T1 f2 st2 Hf2) as Ho2.
      unfold set_connected. rewrite lookup_alter_ne; [done|]. intros Heq.
      rewrite <- Heq, Ho in Ho2. congruence.
    + intros c o. unfold set_connected. destruct (decide (c = cs_connection st)) as [->|Hne].
      * rewrite lookup_alter_eq, Ho. simpl. intros [= <-]. done.
      * rewrite lookup_alter_ne by done. intros Hc Hcon. destruct (T2 c o Hc Hcon) as (st2 & Hst2 & <-).
        exists st2. rewrite lookup_delete_ne; [done|]. intros ->. congruence.
  - rewrite (fds_delete _ _ _ Hf). solve_Permutation.
  - rewrite (conns_delete _ _ _ Hf). solve_Permutation.
  - unfold set_connected. rewrite dom_alter_L. done.
Qed.

(** ** Every critical section is balanced *)

Lemma balanced_trans s s1 s2 acts :
  balanced s s1 [] -> balanced s1 s2 acts -> balanced s s2 acts.
Proof.
  intros [A1 A2 A3 A4 A5 A6 A7 A8 A9 A10] [B1 B2 B3 B4 B5 B6 B7 B8 B9 B10].
  simpl in A2, A3. rewrite app_nil_r in A2, A3. split; try done; try congruence.
  - rewrite B2, A2. done.
  - rewrite B3, A3. done.
Qed.

Lemma balanced_io s l : tables_ok s -> balanced s (with_io l s) [].
Proof. intros [T1 T2]. split; try done; rewrite ?app_nil_r; done. Qed.

Lemma balanced_call s c : tables_ok s -> balanced s (call c s) [].
Proof. intros [T1 T2]. split; try done; rewrite ?app_nil_r; done. Qed.

Lemma balanced_nothing s : tables_ok s -> balanced s s [].
Proof. intros Ht. apply balanced_same; [done|harmless]. Qed.

Create HintDb tcp.
#[local] Hint Resolve balanced_io balanced_call balanced_nothing : tcp.

Lemma balanced_end s f st :
  tables_ok s -> connection_callback s = true -> connections s !! f = Some st ->
  balanced s (drop_connection f (cs_connection st) s)
    (AClose f :: (if connection_callback s then [ADisconnect (cs_connection st)] else [])).
Proof. intros Ht -> Hf. apply balanced_drop; [done..|]. by repeat constructor. Qed.

Lemma shutdown_balanced s f :
  tables_ok s -> connection_callback s = true ->
  balanced s (shutdown_connection f s).1 (shutdown_connection f s).2.
Proof.
  intros Ht Hcb. unfold shutdown_connection.
  destruct (connections s !! f) as [st|] eqn:Hf; [by apply balanced_end|simpl; auto with tcp].
Qed.

Lemma omap_messages {A} (g : Action -> option A) c ms :
  (forall m, g (AMessage c m) = None) -> omap g (AMessage c <$> ms) = [].
Proof. intros Hg. induction ms as [|m ms IH]; [done|]. simpl. rewrite Hg. exact IH. Qed.

Lemma harmless_app l k : harmless l -> harmless k -> harmless (l ++ k).
Proof.
  intros (H1 & H2 & H3) (H4 & H5 & H6). unfold harmless, closes_of, ends_of in *.
  rewrite !omap_app, H1, H2, H4, H5, Forall_app. done.
Qed.

Lemma harmless_messages (b : bool) c ms : harmless (if b then AMessage c <$> ms else []).
Proof.
  destruct b; [|harmless]. split; [|split]; [by apply omap_messages..|].
  apply Forall_fmap, Forall_true. done.
Qed.

Lemma handle_recv_balanced s f res data :
  tables_ok s -> connection_callback s = true ->
  balanced s (handle_recv f res data s).1 (handle_recv f res data s).2.
Proof.
  intros Ht Hcb. unfold handle_recv.
  destruct (connections s !! f) as [st|] eqn:Hf; [|simpl; auto with tcp].
  destruct (0 <? res); [|destruct (res =? 0)].
  - destruct (if message_callback s then _ else _) as [ms buffer].
    eapply balanced_update; try done. apply harmless_app; [destruct (_ && _); harmless|].
    apply harmless_app; [apply harmless_messages|harmless].
  - destruct (if message_callback s then _ else _) as [ms buffer].
    eapply balanced_update; try done. apply harmless_app; [apply harmless_messages|].
    destruct (read_closed st); harmless.
  - by apply balanced_end.
Qed.

Lemma half_close_balanced s f st st' :
  tables_ok s -> connection_callback s = true -> connections s !! f = Some st ->
  cs_connection st' = cs_connection st ->
  balanced s (if read_closed st then drop_connection f (cs_connection st) s else update_state f st' s)
    (half_close_actions s f (cs_connection st) (read_closed st)).
Proof.
  intros Ht Hcb Hf Hc. unfold half_close_actions. rewrite Hcb. destruct (read_closed st).
  - apply balanced_drop; [done..|]. by repeat constructor.
  - eapply balanced_update; [done..|harmless].
Qed.

Lemma handle_send_balanced s f res :
  tables_ok s -> connection_callback s = true ->
  balanced s (handle_send f res s).1 (handle_send f res s).2.
Proof.
  intros Ht Hcb. unfold handle_send.
  destruct (connections s !! f) as [st|] eqn:Hf; [|simpl; auto with tcp].
  set (pending := if 0 <? pending_sends st then _ else _).
  destruct (res <? 0); [by apply balanced_end|].
  destruct (write_shutdown_requested st && (pending =? 0) && negb (write_closed st)).
  - by apply half_close_balanced.
  - eapply balanced_update; [done..|harmless].
Qed.

Lemma shutdown_write_balanced s f :
  tables_ok s -> connection_callback s = true ->
  balanced s (shutdown_write_connection f s).1 (shutdown_write_connection f s).2.
Proof.
  intros Ht Hcb. unfold shutdown_write_connection.
  destruct (connections s !! f) as [st|] eqn:Hf; [|simpl; auto with tcp].
  destruct (negb _ || _); [simpl; auto with tcp|].
  destruct (pending_sends st =? 0); [by apply half_close_balanced|].
  eapply balanced_update; [done..|harmless].
Qed.

Lemma send_on_balanced s f data :
  tables_ok s -> balanced s (send_on_connection f data s).1 (send_on_connection f data s).2.
Proof.
  intros Ht. unfold send_on_connection.
  destruct (connections s !! f) as [st|] eqn:Hf; [|simpl; auto with tcp].
  destruct (negb _); [simpl; auto with tcp|].
  eapply balanced_update; try done. destruct (bool_decide _); harmless.
Qed.

Lemma send_failed_balanced s f : tables_ok s -> balanced s (send_failed f s) [].
Proof.
  intros Ht. unfold send_failed. destruct (connections s !! f) as [st|] eqn:Hf; [|simpl; auto with tcp].
  destruct (0 <? _); [by eapply balanced_update|simpl; auto with tcp].
Qed.

(** The actions other than closing and reporting. *)
Lemma run_action_balanced made a s :
  tables_ok s -> connection_callback s = true -> clean a -> close_of a = None -> end_of a = None ->
  balanced s (run_action made a s).1 (run_action made a s).2.
Proof.
  intros Ht Hcb Hclean Hc He. destruct a; simpl in *; try done; simpl; auto with tcp.
  - unfold handle_accept_result. destruct (connections s !! f) as [st|]; [|simpl; auto with tcp].
    destruct accepted; [|done]. rewrite Hcb. apply balanced_same; [done|harmless].
  - destruct (read_closed_callback s); [simpl; auto with tcp|by apply shutdown_balanced].
  - apply balanced_same; [done|]. destruct (connected s c); harmless.
  - unfold rearm_recv. destruct (connections s !! f); [|simpl; auto with tcp].
    destruct made; [simpl; auto with tcp|]. apply balanced_same; [done|harmless].
  - by apply send_on_balanced.
  - unfold push_send. destruct made; [simpl; auto with tcp|]. apply balanced_same; [done|harmless].
  - by apply send_failed_balanced.
  - by apply shutdown_balanced.
  - destruct Ht as [T1 T2]. split; try done; rewrite app_nil_r; done.
Qed.

(** ** Steps *)

Lemma actions_insert s t t' l :
  actions (with_threads (<[t := l]> (threads s)) s) t' = if decide (t = t') then l else actions s t'.
Proof.
  unfold actions. simpl. destruct (decide (t = t')) as [->|Hne].
  - rewrite lookup_insert_eq. done.
  - rewrite lookup_insert_ne by done. done.
Qed.

(** The thread goes on with the actions of a balanced section, after [rest]. *)
Lemma sinv_continue s s' t acts a rest :
  sinv s -> balanced s s' acts -> actions s t = a ++ rest -> closes_of a = [] -> ends_of a = [] ->
  sinv (with_threads (<[t := acts ++ rest]> (threads s')) s').
Proof.
  intros [A1 A2 A3 A4 A5 A6] [B1 B2 B3 B4 B5 B6 B7 B8 B9 B10] Hact Hc He.
  pose proof (A6 t) as Hrest. rewrite Hact, Forall_app in Hrest. unfold actions in Hact.
  split; simpl; try congruence.
  - destruct B1. split; done.
  - rewrite B6, A3, B7, <- B2, (all_of_insert close_of), (all_of_split close_of _ t), Hact.
    rewrite !omap_app. unfold closes_of in *. rewrite Hc. simpl. solve_Permutation.
  - rewrite B4, A4, B7, B8, <- B3, (all_of_insert end_of), (all_of_split end_of _ t), Hact.
    rewrite !omap_app. unfold ends_of in *. rewrite He. simpl. solve_Permutation.
  - intros t'. rewrite actions_insert. destruct (decide _); [apply Forall_app; naive_solver|].
    unfold actions. rewrite B7. apply A6.
Qed.

Lemma sinv_begin s s' t acts :
  sinv s -> balanced s s' acts -> actions s t = [] -> sinv (begin t (s', acts)).
Proof.
  intros Hs Hb Hact. unfold begin. simpl. rewrite <- (app_nil_r acts).
  eapply (sinv_continue s s' t acts [] []); done.
Qed.

(** [close_all_connections] *)
Lemma set_all_lookup l o c k :
  fold_left (fun o (p : fd * ConnectionState) => set_connected false (cs_connection p.2) o) l o !! c = Some k ->
  conn_connected k = true ->
  o !! c = Some k /\ (forall p, p ∈ l -> cs_connection p.2 <> c).
Proof.
  revert o. induction l as [|p l IH]; simpl; intros o Hk Hcon; [set_solver|].
  destruct (IH _ Hk Hcon) as [Ho Hl]. unfold set_connected in Ho.
  destruct (decide (c = cs_connection p.2)) as [->|Hne].
  - rewrite lookup_alter_eq in Ho. destruct (o !! _); [|done]. injection Ho as <-. done.
  - rewrite lookup_alter_ne in Ho by done. split; [done|]. intros q [->|Hq]%elem_of_cons; auto.
Qed.

Lemma set_all_dom (l : list (fd * ConnectionState)) o :
  dom (fold_left (fun o p => set_connected false (cs_connection p.2) o) l o) = dom o.
Proof.
  revert o. induction l as [|p l IH]; simpl; intros o; [done|].
  rewrite IH. unfold set_connected. apply dom_alter_L.
Qed.

Lemma ends_all (l : list (fd * ConnectionState)) :
  let acts := l ≫= (fun p => [AClose p.1; ADisconnect (cs_connection p.2)]) in
  closes_of acts = l.*1 /\ ends_of acts = cs_connection <$> l.*2 /\ Forall clean acts.
Proof.
  induction l as [|p l (IH1 & IH2 & IH3)]; [done|]. cbv zeta in *.
  unfold closes_of, ends_of in *. rewrite bind_cons, !omap_app, IH1, IH2, Forall_app.
  split; [done|split; [done|]]. split; [by repeat constructor|done].
Qed.

Lemma close_all_balanced `{!IterOrder fd ConnectionState} s :
  tables_ok s -> connection_callback s = true ->
  balanced s (close_all_connections s).1 (close_all_connections s).2.
Proof.
  intros [T1 T2] Hcb. unfold close_all_connections. rewrite Hcb. cbn [fst snd].
  destruct (ends_all (iter_map (connections s))) as (H1 & H2 & H3).
  split; simpl; try done.
  - split; simpl; [intros f st; rewrite lookup_empty; done|].
    intros c o Ho Hcon. destruct (set_all_lookup _ _ _ _ Ho Hcon) as [Ho' Hl]. exfalso.
    destruct (T2 c o Ho' Hcon) as (st & Hst & Hc). apply (Hl (conn_fd o, st)); [|exact Hc].
    apply elem_of_iter_map. exact Hst.
  - rewrite H1. unfold fds_of. rewrite map_to_list_empty, iter_map_perm. done.
  - rewrite H2. unfold conns_of. rewrite map_to_list_empty, iter_map_perm. done.
  - apply set_all_dom.
Qed.

(** Closing a descriptor and reporting an end. *)
Lemma sinv_close s t f rest :
  sinv s -> actions s t = AClose f :: rest ->
  sinv (with_threads (<[t := rest]> (threads s)) (close_socket_fd f s)).
Proof.
  intros [A1 A2 A3 A4 A5 A6] Hact. pose proof (A6 t) as Hrest. rewrite Hact in Hrest.
  apply Forall_cons in Hrest as [_ Hrest]. unfold actions in Hact.
  rewrite (all_of_split close_of _ t), Hact in A3. simpl in A3.
  assert (f ∈ open_fds s) as Hf by (apply elem_of_elements; rewrite A3; set_solver).
  unfold close_socket_fd. rewrite decide_True by done. split; simpl; try done.
  - destruct A2. split; done.
  - rewrite (all_of_insert close_of).
    assert (open_fds s = {[f]} ∪ open_fds s ∖ {[f]}) as Heq by (apply union_difference_singleton_L; done).
    rewrite Heq, elements_union_singleton in A3 by set_solver.
    apply (Permutation_cons_inv (a := f)). rewrite A3. solve_Permutation.
  - rewrite A4, (all_of_insert end_of), (all_of_split end_of _ t), Hact. done.
  - intros t'. pose proof (actions_insert s t t' rest) as Ha. unfold actions in Ha |- *.
    simpl in Ha |- *. rewrite Ha. destruct (decide _); [done|]. apply A6.
Qed.

Lemma sinv_disconnect s t c rest :
  sinv s -> actions s t = ADisconnect c :: rest ->
  sinv (with_threads (<[t := rest]> (threads s)) (log_disconnect c (call (CConnection c (connected s c)) s))).
Proof.
  intros [A1 A2 A3 A4 A5 A6] Hact. pose proof (A6 t) as Hrest. rewrite Hact in Hrest.
  apply Forall_cons in Hrest as [_ Hrest]. unfold actions in Hact. split; simpl; try done.
  - destruct A2. split; done.
  - rewrite A3, (all_of_insert close_of), (all_of_split close_of _ t), Hact. done.
  - rewrite A4, (all_of_insert end_of), (all_of_split end_of _ t), Hact. simpl. solve_Permutation.
  - intros t'. pose proof (actions_insert s t t' rest) as Ha. unfold actions in Ha |- *.
    simpl in Ha |- *. rewrite Ha. destruct (decide _); [done|]. apply A6.
Qed.

(** A connection is accepted. *)
Lemma sinv_accept s t f :
  sinv s -> actions s t = [] -> f ∉ open_fds s ->
  sinv (begin t (handle_accept true f (with_fds (open_fds s ∪ {[f]}) (bad_closes s) s))).
Proof.
  intros [A1 [T1 T2] A3 A4 A5 A6] Hact Hf. unfold actions in Hact.
  assert (connections s !! f = None) as Hnew.
  { apply eq_None_not_Some. intros [st Hst]. apply Hf, elem_of_elements. rewrite A3.
    rewrite (fds_delete _ _ _ Hst). set_solver. }
  set (c := fresh (dom (objects s))). assert (c ∉ dom (objects s)) as Hc by apply is_fresh.
  assert (objects s !! c = None) as Hnc by (by apply not_elem_of_dom).
  assert (elements (open_fds s ∪ {[f]}) ≡ₚ f :: elements (open_fds s)) as Hopen.
  { rewrite (comm_L (∪)). apply elements_union_singleton. done. }
  assert (forall l, Forall clean l -> forall t', Forall clean (default [] (<[t := l]> (threads s) !! t'))) as Hcl.
  { intros l Hl t'. destruct (decide (t = t')) as [->|Hne].
    - rewrite lookup_insert_eq. done.
    - rewrite lookup_insert_ne by done. apply A6. }
  unfold begin, handle_accept, pick_thread. simpl. destruct (decide (worker_threads s = 0%nat)); simpl.
  - split; simpl; try done.
    + rewrite Hopen, A3, (all_of_insert close_of), (all_of_split close_of _ t), Hact. simpl. solve_Permutation.
    + rewrite A4, (all_of_insert end_of), (all_of_split end_of _ t), Hact. done.
    + apply Hcl. by repeat constructor.
  - fold c. split; simpl; try done.
    + split; simpl.
      * intros f2 st2 [[<- <-]|[Hne Hst2]]%lookup_insert_Some; simpl; [apply lookup_insert_eq|].
        rewrite lookup_insert_ne; [auto|]. intros Heq. rewrite Heq, (T1 f2 st2 Hst2) in Hnc. done.
      * intros c2 o [[<- <-]|[Hne Ho]]%lookup_insert_Some Hcon; simpl.
        { rewrite lookup_insert_eq. eauto. }
        destruct (T2 c2 o Ho Hcon) as (st & Hst & <-). exists st.
        rewrite lookup_insert_ne; [done|]. intros ->. congruence.
    + rewrite Hopen, A3, fds_insert, (all_of_insert close_of), (all_of_split close_of _ t), Hact by done.
      done.
    + rewrite dom_insert_L, elements_union_singleton, A4, conns_insert by done.
      rewrite (all_of_insert end_of), (all_of_split end_of _ t), Hact. done.
    + apply Hcl. by repeat constructor.
Qed.

(** The request of every accepted connection can be made. *)
Definition request_made (ev : SEvent) : Prop :=
  match ev with SAccept _ _ made => made = true | _ => True end.

Section reachable.
Context `{!IterOrder fd ConnectionState}.

Lemma server_step_sinv ev s : request_made ev -> sinv s -> sinv (server_step ev s).
Proof.
  intros Hev Hs. pose proof Hs as [A1 A2 _ _ _ A6].
  assert (forall l s' acts, balanced (with_io l s) s' acts -> balanced s s' acts) as Hio.
  { intros l s' acts Hb. exact (balanced_trans _ _ _ _ (balanced_io s l A2) Hb). }
  assert (forall l, tables_ok (with_io l s)) as Htio
    by (intros l; exact (b_tables _ _ _ (balanced_io s l A2))).
  destruct ev; simpl in *.
  - case_decide as Hd; [|done]. destruct Hd. subst made. by apply sinv_accept.
  - destruct (actions s t) eqn:Ha; [|done]. destruct (io_requests s !! i) as [[f|]|]; [|done..].
    rewrite (surjective_pairing (handle_recv _ _ _ _)). apply sinv_begin with s; [done| |done].
    eapply Hio. by apply handle_recv_balanced.
  - destruct (actions s t) eqn:Ha; [|done]. destruct (io_requests s !! i) as [[|f d]|]; [done| |done].
    rewrite (surjective_pairing (handle_send _ _ _)). apply sinv_begin with s; [done| |done].
    eapply Hio. by apply handle_send_balanced.
  - case_decide; [|done]. rewrite (surjective_pairing (conn_send _ _ _)).
    apply sinv_begin with s; [done| |done]. unfold conn_send. destruct (objects s !! c); [|simpl; auto with tcp].
    apply balanced_same; [done|]. destruct (_ || _); harmless.
  - case_decide; [|done]. rewrite (surjective_pairing (conn_shutdown_write _ _)).
    apply sinv_begin with s; [done| |done]. unfold conn_shutdown_write.
    destruct (objects s !! c); [|simpl; auto with tcp]. by apply shutdown_write_balanced.
  - case_decide; [|done]. rewrite (surjective_pairing (conn_shutdown _ _)).
    apply sinv_begin with s; [done| |done]. unfold conn_shutdown.
    destruct (objects s !! c); [|simpl; auto with tcp]. by apply shutdown_balanced.
  - case_decide; [|done]. rewrite (surjective_pairing (close_all_connections s)).
    apply sinv_begin with s; [done| |done]. by apply close_all_balanced.
  - destruct (actions s t) as [|a rest] eqn:Ha; [done|].
    destruct (close_of a) as [f|] eqn:Hc; [|destruct (end_of a) as [c|] eqn:He].
    + destruct a; try done. simpl. unfold close_socket_fd at 1.
      pose proof (sinv_close _ _ _ _ Hs Ha) as Hn. unfold close_socket_fd in *. destruct (decide _); done.
    + destruct a; try done. exact (sinv_disconnect _ _ _ _ Hs Ha).
    + rewrite (surjective_pairing (run_action made a s)). cbv iota beta.
      apply (sinv_continue s _ _ _ [a]); [done| |done|..].
      * apply run_action_balanced; try done. pose proof (A6 t) as Hcl. rewrite Ha in Hcl.
        by apply Forall_cons in Hcl as [? _].
      * unfold closes_of. simpl. rewrite Hc. done.
      * unfold ends_of. simpl. rewrite He. done.
Qed.

Definition run_server (evs : list SEvent) (s : TcpServer) : TcpServer :=
  fold_left (fun s ev => server_step ev s) evs s.

Lemma run_server_sinv evs s : Forall request_made evs -> sinv s -> sinv (run_server evs s).
Proof.
  revert s. induction evs as [|ev evs IH]; intros s; [done|].
  intros [Hev Hevs]%Forall_cons Hs. apply IH; [done|]. by apply server_step_sinv.
Qed.

Lemma new_sinv message_cb raw_cb read_closed_cb workers :
  sinv (new_TcpServer true message_cb raw_cb read_closed_cb workers).
Proof. split; done. Qed.

(** [C17] Under every interleaving of accepted connections, completions, sends, shutdowns and the
    steps of the threads in which the first request of every accepted connection can be made,
    [close] is only called on the descriptor of a connection that is open, so never twice, and the
    open ones are exactly those of the table and those some thread is about to close. When a first
    request cannot be made, a descriptor can be closed twice ([refused_accept_closes_twice]). *)
Theorem server_descriptors_closed_once message_cb raw_cb read_closed_cb workers evs :
  Forall request_made evs ->
  let s := run_server evs (new_TcpServer true message_cb raw_cb read_closed_cb workers) in
  bad_closes s = [] /\
  elements (open_fds s) ≡ₚ fds_of (connections s) ++ all_of close_of (threads s).
Proof.
  intros Hevs. destruct (run_server_sinv evs _ Hevs (new_sinv message_cb raw_cb read_closed_cb workers)).
  done.
Qed.

(** The end of a connection is reported exactly once: every connection ever accepted is, exactly
    once, in the table, or in the end a thread is about to report, or in an end reported; and it
    counts as connected exactly as long as it is in the table. *)
Theorem server_ends_reported_once message_cb raw_cb read_closed_cb workers evs :
  Forall request_made evs ->
  let s := run_server evs (new_TcpServer true message_cb raw_cb read_closed_cb workers) in
  NoDup (conns_of (connections s) ++ all_of end_of (threads s) ++ disconnect_log s) /\
  (forall c, c ∈ dom (objects s) <->
     c ∈ conns_of (connections s) ++ all_of end_of (threads s) ++ disconnect_log s) /\
  (forall c, connected s c = true <-> c ∈ conns_of (connections s)).
Proof.
  intros Hevs. destruct (run_server_sinv evs _ Hevs (new_sinv message_cb raw_cb read_closed_cb workers))
    as [_ [T1 T2] _ Hconns _ _].
  set (s := run_server evs _) in *. split; [|split].
  - rewrite <- Hconns. apply NoDup_elements.
  - intros c. rewrite <- Hconns, elem_of_elements. done.
  - intros c. unfold connected, conns_of. rewrite list_elem_of_fmap. split.
    + destruct (objects s !! c) as [o|] eqn:Ho; [|done]. intros Hcon.
      destruct (T2 c o Ho Hcon) as (st & Hst & <-). exists st. split; [done|].
      apply list_elem_of_fmap. exists (conn_fd o, st). split; [done|]. by apply elem_of_map_to_list.
    + intros (st & -> & ([f st'] & -> & Hin%elem_of_map_to_list)%list_elem_of_fmap).
      simpl. rewrite (T1 f st' Hin). done.
Qed.




End reachable.
