(* ===== verification/TcpDemo.v ===== *)
(** Runs of the TCP server: witnesses of its theorems, and interleavings in which a connection is
    taken for another one that had the same descriptor, a descriptor stays open for good, or the
    ingress loses data. *)
From S2P Require Import Prelude Ingress TcpServer TcpServerProofs.

#[local] Instance connection_order : IterOrder fd ConnectionState := canonical_order.

(** The server as the ingress sets it up: raw data and the end of the reading direction. *)
Definition ingress_server : TcpServer := new_TcpServer true false true true 2.

(** Thread [t] makes [n] steps. *)
Definition go (t n : nat) : list SEvent := replicate n (SRun t true).

(** A connection on [f] is accepted by thread [t] and reported. *)
Definition accepted (t : nat) (f : fd) : list SEvent := SAccept t f true :: go t 3.

(** ** Witnesses *)

Definition two_connections : list SEvent :=
  accepted 0 7 ++ accepted 0 8 ++ [SRecvDone 1 0 (-104) []; SSend 2 1%nat [x41]] ++ go 1 1 ++ go 2 2.

Lemma server_descriptors_closed_once_witness :
  Forall request_made two_connections /\
  let s := run_server two_connections ingress_server in
  (elements (open_fds s) = [8] /\ connections s !! 7 = None /\ all_of end_of (threads s) = [0%nat]) /\
  bad_closes s = [] /\
  elements (open_fds s) ≡ₚ fds_of (connections s) ++ all_of close_of (threads s).
Proof.
  split; [by repeat constructor|]. split; [vm_compute; done|].
  apply (server_descriptors_closed_once false true true 2 two_connections). by repeat constructor.
Defined.

Lemma server_ends_reported_once_witness :
  let evs := two_connections ++ go 1 1 in
  let s := run_server evs ingress_server in
  Forall request_made evs /\
  (disconnect_log s = [0%nat] /\ connected s 1 = true) /\
  NoDup (conns_of (connections s) ++ all_of end_of (threads s) ++ disconnect_log s) /\
  (forall c, c ∈ dom (objects s) <->
     c ∈ conns_of (connections s) ++ all_of end_of (threads s) ++ disconnect_log s) /\
  (forall c, connected s c = true <-> c ∈ conns_of (connections s)).
Proof.
  split; [by repeat constructor|]. split; [vm_compute; done|].
  apply (server_ends_reported_once false true true 2 (two_connections ++ go 1 1)). by repeat constructor.
Defined.


(** ** Findings *)

(** The server shuts down its direction first; when the peer then closes its own, nobody closes the
    socket: both directions are closed and the entry and the descriptor stay. *)
Example half_closed_stays_open :
  let s := run_server (accepted 0 7 ++ [SShutdownWrite 1 0%nat] ++ go 1 1 ++ [SRecvDone 2 0 0 []] ++ go 2 1)
             ingress_server in
  trace s = [CConnection 0 true; CReadClosed 0] /\ threads s !! 2%nat = Some [] /\
  io_requests s = [] /\ elements (open_fds s) = [7] /\
  (conns_of (connections s), (fun st => (read_closed st, write_closed st)) <$> connections s !! 7) =
    ([0%nat], Some (true, true)) /\
  (shutdown_write_connection 7 s).2 = [].
Proof. vm_compute. done. Qed.

(** A reader that was cancelled by the close of an old connection completes after the descriptor
    was given to a new connection, which is closed in its place. *)
Example stale_completion_closes_new_connection :
  let s := run_server (accepted 0 7 ++ [SShutdown 1 0%nat] ++ go 1 2 ++ accepted 0 7 ++
             [SRecvDone 2 0 (-125) []] ++ go 2 2) ingress_server in
  trace s = [CConnection 0 true; CConnection 0 false; CConnection 1 true; CConnection 1 false].
Proof. vm_compute. done. Qed.

(** [TcpConnection::shutdown] passes its descriptor on even if its connection has ended. *)
Example stale_shutdown_closes_new_connection :
  let s := run_server (accepted 0 7 ++ [SShutdown 1 0%nat] ++ go 1 2 ++ accepted 0 7 ++
             [SShutdown 1 0%nat] ++ go 1 2) ingress_server in
  trace s = [CConnection 0 true; CConnection 0 false; CConnection 1 true; CConnection 1 false].
Proof. vm_compute. done. Qed.

(** When no request is left for an accepted connection, its descriptor is closed whatever happened
    to it meanwhile: here twice. *)
Example refused_accept_closes_twice :
  let s := run_server (accepted 0 7 ++ [SShutdown 1 0%nat] ++ go 1 2 ++ [SAccept 0 7 false; SShutdown 1 0%nat] ++
             go 1 2 ++ go 0 2) ingress_server in
  bad_closes s = [7].
Proof. vm_compute. done. Qed.

(** ** Together with the ingress *)

(** The callbacks of the server are the operations of the ingress. *)
Definition ingress_call (objs : gmap conn TcpConnection) (i : TcpIngress) (c : Call) : TcpIngress :=
  let ptr n := Ingress.mkConnection (Z.of_nat n) (default 0 (conn_fd <$> objs !! n)) in
  match c with
  | CConnection n up =>
      match handle_connection up (ptr n) i with Some (_, i) => i | None => i end
  | CRaw n data => (handle_data (ptr n) data i).2
  | CMessage _ _ => i
  | CReadClosed n => (handle_read_closed (ptr n) i).2
  end.

Definition ingress_after (s : TcpServer) : TcpIngress :=
  fold_left (ingress_call (objects s)) (trace s) (ingress_init (mkIngressConfig true 1 1024)).

(** The reading request is pushed before the connection is reported: data can be handed over
    first, and the ingress, which knows no stream yet, drops it. *)
Example first_bytes_dropped :
  let s := run_server ([SAccept 0 7 true] ++ go 0 1 ++ [SRecvDone 1 0 3 [x41; x42; x43]] ++ go 1 1 ++ go 0 2)
             ingress_server in
  trace s = [CRaw 0 [x41; x42; x43]; CConnection 0 true] /\
  frame_buffer_by_fd (ingress_after s) !! 7 = Some [].
Proof. vm_compute. done. Qed.

(** The end of a connection is reported after its descriptor has been closed.  When a new
    connection gets the descriptor in between, the ingress removes the stream of the new one. *)
Example late_end_removes_new_stream :
  let s := run_server (accepted 0 7 ++ [SShutdown 1 0%nat] ++ go 1 1 ++ accepted 0 7 ++ go 1 1) ingress_server in
  trace s = [CConnection 0 true; CConnection 1 true; CConnection 0 false] /\
  connected s 1 = true /\ stream_by_fd (ingress_after s) !! 7 = None.
Proof. vm_compute. done. Qed.
