(* ===== verification/FileStore.v ===== *)
(** Files written as a whole: the way [RouteManager::save_json_file] and
    [save_node_identity_to_json] store a JSON document.

    The document is written to a temporary file beside the target, which is then renamed.  The
    file system is a map from paths to contents; the answers of the operating system are the
    fields of [FsEnv].  The theorem is that a target is replaced as a whole or not at all. *)
From S2P Require Import Prelude KcpConv Frames Identity Json.

(** How a call that reads or writes a file ends: [true], [false] with the text of the error, or
    an exception. *)
Inductive FileResult := FileOk | FileError (message : bytes) | FileThrew.

(** What the operating system answers during one call. *)
Record FsEnv := mkFsEnv {
  fs_create_directories : bytes -> option bytes;  (* the message of the error *)
  fs_open : bytes -> bool;
  fs_stream_ok : bool;      (* the state of the stream after [<<], most of it buffered *)
  fs_written : nat;         (* how many bytes have reached the file once it is closed *)
  fs_rename : option bytes;
  fs_remove : option bytes;
  fs_getpid : Z;
}.

(** [parent_path()] *)
Fixpoint strip_slashes (reversed : bytes) : bytes :=
  match reversed with
  | b :: rest => if bool_decide (b = x2f) then strip_slashes rest else reversed
  | [] => []
  end.

Fixpoint strip_name (reversed : bytes) : bytes :=
  match reversed with
  | b :: rest => if bool_decide (b = x2f) then reversed else strip_name rest
  | [] => []
  end.

Definition parent_path (path : bytes) : bytes :=
  let dir := strip_name (reverse path) in
  if str_empty dir then [] else
  let dir := reverse (strip_slashes dir) in
  if str_empty dir then str "/" else dir.

Definition temp_path (fs : FsEnv) (path : bytes) : bytes :=
  path ++ str ".tmp." ++ to_string (fs_getpid fs).

Section store.
Context `{JsonFileApi}.

(** The texts of the errors. *)
Record InstallMessages := mkMessages {
  im_directory : bytes;
  im_open : bytes;
  im_write : bytes;
  im_install : bytes;
}.

(** Create the directory, write the document to a temporary file and rename it; [files] are
    the files by path. *)
Definition install_file (msgs : InstallMessages) (fs : FsEnv) (path : bytes) (doc : json) (files : gmap bytes bytes)
    : FileResult * gmap bytes bytes :=
  let parent := parent_path path in
  match (if str_empty parent then None else fs_create_directories fs parent) with
  | Some message => (FileError (im_directory msgs ++ message), files)
  | None =>
      let temp := temp_path fs path in
      if negb (fs_open fs temp) then (FileError (im_open msgs), files)
      else
        let files := <[temp := []]> files in
        match json_pretty doc with
        | None => (FileThrew, files)
        | Some text =>
            let files := <[temp := take (fs_written fs) (text ++ [x0a])]> files in
            if negb (fs_stream_ok fs) then (FileError (im_write msgs), files)
            else
              match fs_rename fs with
              | None => (FileOk, match files !! temp with
                                 | Some text => <[path := text]> (delete temp files)
                                 | None => files
                                 end)
              | Some _ =>
                  (* [remove] stores its own result in [ec] before the message is taken *)
                  let '(message, files) :=
                    match fs_remove fs with
                    | None => (str "Success", delete temp files)
                    | Some message => (message, files)
                    end in
                  (FileError (im_install msgs ++ message), files)
              end
        end
  end.

(** The environment in which every file operation succeeds. *)
Record fs_works (fs : FsEnv) (path : bytes) (doc : json) : Prop := {
  fw_mkdir : fs_create_directories fs (parent_path path) = None;
  fw_open : fs_open fs (temp_path fs path) = true;
  fw_stream : fs_stream_ok fs = true;
  fw_written : forall text, json_pretty doc = Some text -> (length text < fs_written fs)%nat;
  fw_rename : fs_rename fs = None;
}.

Lemma install_file_works msgs fs path doc files text :
  fs_works fs path doc -> json_pretty doc = Some text ->
  install_file msgs fs path doc files
  = (FileOk, <[path := text ++ [x0a]]> (delete (temp_path fs path) files)).
Proof.
  intros [Hm Ho Hs Hw Hr] Ht. unfold install_file.
  assert ((if str_empty (parent_path path) then None
           else fs_create_directories fs (parent_path path)) = None) as -> by (case_cond; done).
  rewrite Ho, Ht, Hs, Hr, lookup_insert_eq. cbn [negb]. specialize (Hw _ Ht).
  rewrite take_ge by (rewrite length_app; cbn; lia).
  by rewrite !insert_insert_eq, delete_insert_eq.
Qed.

Lemma temp_path_ne fs path : temp_path fs path <> path.
Proof.
  unfold temp_path. intros E. apply (f_equal length) in E. rewrite !length_app in E.
  change (length (str ".tmp.")) with 5%nat in E. lia.
Qed.

(** The file at [path] changes only with the result [FileOk]. *)
Lemma install_file_atomic msgs fs path doc files res files' :
  install_file msgs fs path doc files = (res, files') ->
  (res <> FileOk -> files' !! path = files !! path)
  /\ (res = FileOk -> files' !! temp_path fs path = None /\
      exists text, json_pretty doc = Some text /\
        files' !! path = Some (take (fs_written fs) (text ++ [x0a])) /\
        ((length text < fs_written fs)%nat -> files' !! path = Some (text ++ [x0a])))
  /\ (forall other, other <> path -> other <> temp_path fs path -> files' !! other = files !! other).
Proof.
  pose proof (temp_path_ne fs path) as Ht. unfold install_file.
  destruct (if str_empty (parent_path path) then _ else _); [by intros [= <- <-]|].
  destruct (fs_open fs _); cbn [negb]; [|by intros [= <- <-]].
  destruct (json_pretty _) as [text|] eqn:Htext; cycle 1.
  { intros [= <- <-]. split_and!; [intros _; by rewrite lookup_insert_ne|done|].
    intros o _ Ho. by rewrite lookup_insert_ne. }
  rewrite insert_insert_eq. destruct (fs_stream_ok fs); cbn [negb]; cycle 1.
  { intros [= <- <-]. split_and!; [intros _; by rewrite lookup_insert_ne|done|].
    intros o _ Ho. by rewrite lookup_insert_ne. }
  destruct (fs_rename fs).
  - destruct (fs_remove fs); intros [= <- <-]; (split_and!; [intros _|done|intros o _ Ho]);
      by rewrite ?lookup_delete_ne, ?lookup_insert_ne.
  - rewrite lookup_insert_eq. intros [= <- <-]. split_and!; [done| |].
    + intros _. rewrite lookup_insert_ne, lookup_delete_eq by done. split; [done|].
      exists text. rewrite lookup_insert_eq. split_and!; [done..|]. intros Hw.
      rewrite take_ge by (rewrite length_app; cbn; lia). done.
    + intros o Ho1 Ho2. by rewrite lookup_insert_ne, lookup_delete_ne, lookup_insert_ne by congruence.
Qed.
End store.
