(* ===== verification/RouteJson.v ===== *)
(** The route table as a JSON file: the conversions of
    iota_proxy/src/discovery/RouteManager.cpp and its methods [load_json_file] and
    [save_json_file].

    A method that an exception leaves ends in [FileThrew], with the state reached so far. *)
From S2P Require Import Prelude KcpConv Frames Identity Double Routes RouteInvariant Json FileStore.

(** ** Conversions *)

(** [contains(key) && item[key].is_string()], with the value. *)
Definition find_string (key : bytes) (item : json) : option bytes :=
  match jfind key item with
  | Some (JString s) => Some s
  | _ => None
  end.

Definition node_to_json (n : NodeAddress) : json :=
  let item := JNull in
  let item := jset (str "host") (JString (host (endpoint n))) item in
  let item := jset (str "port") (JUnsigned (port (endpoint n))) item in
  jset (str "public_key") (JString (convid_to_hex (node_id n))) item.

Definition json_size_value (item : json) (key : bytes) (fallback : Z) : Z :=
  match jfind key item with
  | Some (JUnsigned z) => wrap 64 z
  | _ => fallback
  end.

Definition capability_to_json (c : NodeCapability) : json :=
  let item := JNull in
  let item := jset (str "accepting_ingress") (JBool (accepting_ingress c)) item in
  let item := jset (str "max_kcp_links") (JUnsigned (cap_max_kcp_links c)) item in
  let item := jset (str "current_kcp_links") (JUnsigned (cap_current_kcp_links c)) item in
  let item := jset (str "max_ingress_streams") (JUnsigned (cap_max_ingress_streams c)) item in
  let item := jset (str "current_ingress_streams") (JUnsigned (cap_current_ingress_streams c)) item in
  let item := jset (str "max_ingress_bytes_per_second")
                (JUnsigned (cap_max_ingress_bytes_per_second c)) item in
  let item := jset (str "current_ingress_bytes_per_second")
                (JUnsigned (cap_current_ingress_bytes_per_second c)) item in
  jset (str "updated_at_ms") (JInt (updated_at_ms c)) item.

(** [None] is an exception, [Some None] the result [false]. *)
Definition capability_from_json (item : json) : option (option NodeCapability) :=
  if negb (is_object item) then Some None
  else
    accepting ← jvalue get_bool (str "accepting_ingress") true item;
    let size key := json_size_value item (str key) 0 in
    updated ← jvalue get_ll (str "updated_at_ms") 0 item;
    Some (Some
      {| present := true;
         accepting_ingress := accepting;
         cap_max_kcp_links := size "max_kcp_links"%string;
         cap_current_kcp_links := size "current_kcp_links"%string;
         cap_max_ingress_streams := size "max_ingress_streams"%string;
         cap_current_ingress_streams := size "current_ingress_streams"%string;
         cap_max_ingress_bytes_per_second := size "max_ingress_bytes_per_second"%string;
         cap_current_ingress_bytes_per_second := size "current_ingress_bytes_per_second"%string;
         updated_at_ms := updated |}).

(** [item["port"].is_number_unsigned()] and [item["port"].get<unsigned>()]. *)
Definition find_port (item : json) : option Z :=
  match jfind (str "port") item with
  | Some (JUnsigned z) => Some (wrap 32 z)
  | _ => None
  end.

Definition node_from_json (item : json) : option NodeAddress :=
  h ← find_string (str "host") item;
  p ← find_port item;
  id_text ← match find_string (str "public_key") item with
            | Some text => Some text
            | None => match find_string (str "id") item with
                      | Some text => Some text
                      | None => find_string (str "convid") item
                      end
            end;
  if (p =? 0) || (65535 <? p) then None
  else
    id ← parse_convid_hex id_text;
    Some {| endpoint := {| host := h; port := wrap 16 p |}; node_id := id |}.

(** ** [load_json_file] *)

(** The document check: [None] is an exception. *)
Definition route_schema (doc : json) : option (option (list json)) :=
  if negb (is_object doc) then Some None
  else
    version ← jvalue get_i32 (str "version") 0 doc;
    if negb (version =? 1) then Some None
    else match jfind (str "entries") doc with
         | Some (JArray items) => Some (Some items)
         | _ => Some None
         end.

(** One turn of the loop: [None] is an exception, [Some None] a [continue]. *)
Definition entry_from_json (cfg : RouteManagerConfig) (local_id : KcpConv) (now_ms : Z)
    (item : json) : option (option RouteEntry) :=
  match jfind (str "node") item with
  | None => Some None
  | Some node_item =>
      match node_from_json node_item with
      | None => Some None
      | Some n =>
          if conv_eqb (node_id n) local_id || conv_empty (node_id n) then Some None
          else
            st ← jvalue get_string (str "state") (str "new") item;
            let state := route_state_from_string st in
            attempts ← jvalue get_u32 (str "attempts") 0 item;
            failures ← jvalue get_u32 (str "failures") 0 item;
            capability ← match jfind (str "capability") item with
                         | Some c => default NodeCapability_default <$> capability_from_json c
                         | None => Some NodeCapability_default
                         end;
            hops ← jvalue get_u32 (str "hop_count") 0 item;
            let hop_count := wrap 8 (Z.min hops (max_route_hops cfg)) in
            last_seen ← jvalue get_i64 (str "last_seen_ms") now_ms item;
            last_try ← jvalue get_ll (str "last_try_ms") 0 item;
            last_success ← jvalue get_ll (str "last_success_ms") 0 item;
            let source := jfind (str "source") item ≫= node_from_json in
            let has_source :=
              match source with
              | Some s => negb (conv_eqb (node_id s) (node_id n)) && negb (conv_eqb (node_id s) local_id)
              | None => false
              end in
            let last_seen := if last_seen =? 0 then now_ms else last_seen in
            let state := if bool_decide (state = RouteState.Tried) && (last_success =? 0)
                         then RouteState.New else state in
            if max_route_hops cfg <? hop_count then Some None
            else Some (Some (mkEntry n (default NodeAddress_default source) capability state has_source
                               false attempts failures hop_count last_seen last_try last_success))
      end
  end.

(** The loop, on the table; [false] when an exception left it. *)
Fixpoint load_entries (cfg : RouteManagerConfig) (local_id : KcpConv) (now_ms : Z)
    (items : list json) (m : gmap KcpConv RouteEntry) : bool * gmap KcpConv RouteEntry :=
  match items with
  | [] => (true, m)
  | item :: items =>
      match entry_from_json cfg local_id now_ms item with
      | None => (false, m)
      | Some None => load_entries cfg local_id now_ms items m
      | Some (Some e) => load_entries cfg local_id now_ms items (<[node_id (node e) := e]> m)
      end
  end.

Definition set_routes (m : gmap KcpConv RouteEntry) (st : RouteManager) : RouteManager :=
  {| config := config st; routes := m; kcp_link_count := kcp_link_count st |}.

Section files.
Context {order : IterOrder KcpConv RouteEntry} (pow : double -> double -> double).
Context `{JsonFileApi}.

(** [input] is the contents of the file at [path], [None] when it cannot be opened. *)
Definition load_json_file (path : bytes) (input : option bytes) (local_id : KcpConv) (now_ms : Z)
    (st : RouteManager) : FileResult * RouteManager :=
  if str_empty path then (FileOk, st)
  else
    match input with
    | None => (FileOk, st)
    | Some text =>
        match json_read text with
        | inl what => (FileError (str "route table parse failed: " ++ what), st)
        | inr doc =>
            match route_schema doc with
            | None => (FileThrew, st)
            | Some None => (FileError (str "route table schema is invalid"), st)
            | Some (Some items) =>
                let '(done, m) := load_entries (config st) local_id now_ms items (routes st) in
                if done then (FileOk, set_routes (trim_if_needed pow (config st) now_ms m) st)
                else (FileThrew, set_routes m st)
            end
        end
    end.

(** ** [save_json_file] *)

Definition route_entry_to_json (e : RouteEntry) : json :=
  let route := JNull in
  let route := jset (str "node") (node_to_json (node e)) route in
  let route := jset (str "state") (JString (route_state_to_string (state e))) route in
  let route := jset (str "attempts") (JUnsigned (attempts e)) route in
  let route := jset (str "failures") (JUnsigned (failures e)) route in
  let route := if present (capability e)
               then jset (str "capability") (capability_to_json (capability e)) route else route in
  let route := jset (str "hop_count") (JUnsigned (hop_count e)) route in
  let route := jset (str "last_seen_ms") (JInt (last_seen_ms e)) route in
  let route := jset (str "last_try_ms") (JInt (last_try_ms e)) route in
  let route := jset (str "last_success_ms") (JInt (last_success_ms e)) route in
  if has_source e && valid_route_node (source e)
  then jset (str "source") (node_to_json (source e)) route else route.

Definition saved (local_id : KcpConv) (e : RouteEntry) : bool :=
  negb (conv_eqb (node_id (node e)) local_id || negb (valid_route_node (node e))).

Definition route_document (local_id : KcpConv) (st : RouteManager) : json :=
  let doc := jset (str "version") (JInt 1) JNull in
  jset (str "entries")
    (foldl (fun entries kv => if saved local_id kv.2 then push_back (route_entry_to_json kv.2) entries
                              else entries)
       (JArray []) (iter_map (routes st))) doc.

Definition route_file_messages : InstallMessages :=
  {| im_directory := str "failed to create route table directory: ";
     im_open := str "route table temp file is not writable";
     im_write := str "failed to write route table";
     im_install := str "failed to install route table: " |}.

Definition save_json_file (fs : FsEnv) (path : bytes) (local_id : KcpConv) (st : RouteManager)
    (files : gmap bytes bytes) : FileResult * gmap bytes bytes :=
  if str_empty path then (FileOk, files)
  else install_file route_file_messages fs path (route_document local_id st) files.
End files.
