(* ===== verification/RouteJsonProofs.v ===== *)
(** Persistence of the route table: a saved table loads back as the same table with its
    links down, whatever is loaded respects the invariant of the table, and a save either
    installs the whole file or leaves the previous one. *)
From S2P Require Import Prelude KcpConv Frames Identity Double Routes RouteInvariant Json EdgeMessage FileStore RouteJson.

(** ** Members of a document that was written and parsed back *)

Lemma sim_member doc doc' key v :
  json_sim doc doc' -> jfind key doc = Some v -> exists v', jfind key doc' = Some v' /\ json_sim v v'.
Proof.
  intros Hs Hk. pose proof (json_sim_find _ _ key Hs) as Hf. rewrite Hk in Hf.
  inversion Hf as [? v' Hv|]; subst. eauto.
Qed.

Lemma sim_absent doc doc' key : json_sim doc doc' -> jfind key doc = None -> jfind key doc' = None.
Proof. intros Hs Hk. pose proof (json_sim_find _ _ key Hs) as Hf. rewrite Hk in Hf. by inversion Hf. Qed.

(** Strings, booleans and unsigned numbers come back as they are. *)
Definition plain (v : json) : Prop :=
  match v with JString _ | JBool _ | JUnsigned _ => True | _ => False end.

Lemma sim_plain doc doc' key v :
  json_sim doc doc' -> jfind key doc = Some v -> plain v -> jfind key doc' = Some v.
Proof. intros Hs Hk Hp. destruct (sim_member _ _ _ _ Hs Hk) as (v' & -> & Hv). by destruct Hv. Qed.

Lemma to_i64_id z : - 2 ^ 63 <= z < 2 ^ 63 -> to_i64 z = z.
Proof.
  intros Hz. unfold to_i64, wrap. destruct (Z.le_gt_cases 0 z).
  - rewrite Z.mod_small by lia. case_cond; bool_norm; lia.
  - rewrite <- (Z_mod_plus_full z 1), Z.mod_small by lia. case_cond; bool_norm; lia.
Qed.

(** ** Round trips of the parts *)

Definition fits_i64 (z : Z) : Prop := - 2 ^ 63 <= z < 2 ^ 63.

(** The values a node and a capability can hold in the program. *)
Definition node_range (n : NodeAddress) : Prop :=
  0 < port (endpoint n) <= 65535 /\ conv_wf (node_id n) /\ conv_empty (node_id n) = false.

Record cap_range (c : NodeCapability) : Prop := {
  cr_max_links : fits 64 (cap_max_kcp_links c);
  cr_links : fits 64 (cap_current_kcp_links c);
  cr_max_streams : fits 64 (cap_max_ingress_streams c);
  cr_streams : fits 64 (cap_current_ingress_streams c);
  cr_max_bytes : fits 64 (cap_max_ingress_bytes_per_second c);
  cr_bytes : fits 64 (cap_current_ingress_bytes_per_second c);
  cr_updated : fits_i64 (updated_at_ms c);
}.

Lemma node_json_roundtrip n item :
  node_range n -> json_sim (node_to_json n) item -> node_from_json item = Some n.
Proof.
  intros (Hp & Hwf & He) Hs. unfold node_from_json, find_string, find_port.
  rewrite (sim_plain _ _ (str "host") (JString (host (endpoint n))) Hs) by done.
  rewrite (sim_plain _ _ (str "port") (JUnsigned (port (endpoint n))) Hs) by done.
  rewrite (sim_plain _ _ (str "public_key") (JString (convid_to_hex (node_id n))) Hs) by done.
  cbn. rewrite (wrap_id 32) by (split; lia). rewrite (wrap_id 16) by (split; lia).
  destruct (Z.eqb_spec (port (endpoint n)) 0); [lia|].
  destruct (Z.ltb_spec 65535 (port (endpoint n))); [lia|]. cbn.
  rewrite parse_convid_print by done. by destruct n as [[]].
Qed.

Lemma json_size_sim doc doc' key z fallback :
  json_sim doc doc' -> jfind key doc = Some (JUnsigned z) -> fits 64 z ->
  json_size_value doc' key fallback = z.
Proof.
  intros Hs Hk Hz. unfold json_size_value. rewrite (sim_plain _ _ _ _ Hs Hk) by done. by apply wrap_id.
Qed.

(** The members read with [value]. *)
Lemma jvalue_int_sim get doc doc' key z fallback :
  json_sim doc doc' -> is_object doc = true -> jfind key doc = Some (JInt z) -> fits_i64 z ->
  get = get_ll \/ get = get_i64 -> jvalue get key fallback doc' = Some z.
Proof.
  intros Hs Ho Hk Hz Hg. rewrite (jvalue_sim get key fallback doc doc' Hs Ho).
  - destruct doc; try done. cbn in *. rewrite Hk. destruct Hg as [-> | ->]; cbn; by rewrite to_i64_id.
  - intros v v' Hv. destruct Hg as [-> | ->]; apply (get_sim _ _ Hv).
Qed.

Lemma jvalue_u32_sim doc doc' key z fallback :
  json_sim doc doc' -> is_object doc = true -> jfind key doc = Some (JUnsigned z) -> fits 32 z ->
  jvalue get_u32 key fallback doc' = Some z.
Proof.
  intros Hs Ho Hk Hz. rewrite (jvalue_sim get_u32 key fallback doc doc' Hs Ho).
  - destruct doc; try done. cbn in *. rewrite Hk. cbn. by rewrite wrap_id.
  - intros v v' Hv. apply (get_sim _ _ Hv).
Qed.

Lemma jvalue_string_sim doc doc' key s fallback :
  json_sim doc doc' -> is_object doc = true -> jfind key doc = Some (JString s) ->
  jvalue get_string key fallback doc' = Some s.
Proof.
  intros Hs Ho Hk. rewrite (jvalue_sim get_string key fallback doc doc' Hs Ho).
  - destruct doc; try done. cbn in *. by rewrite Hk.
  - intros v v' Hv. apply (get_sim _ _ Hv).
Qed.

Lemma capability_json_roundtrip c item :
  present c = true -> cap_range c -> json_sim (capability_to_json c) item ->
  capability_from_json item = Some (Some c).
Proof.
  intros Hp [] Hs. unfold capability_from_json.
  rewrite (json_sim_object _ _ Hs). cbn [negb capability_to_json is_object].
  change (is_object (capability_to_json c)) with true. cbn [negb].
  rewrite (jvalue_sim get_bool _ _ _ _ Hs) by (done || intros ? ? Hv; apply (get_sim _ _ Hv)).
  change (jvalue get_bool (str "accepting_ingress") true (capability_to_json c))
    with (Some (accepting_ingress c)). cbn [mbind option_bind].
  rewrite (jvalue_int_sim get_ll _ _ _ (updated_at_ms c) _ Hs) by (done || auto).
  cbn [mbind option_bind].
  erewrite !json_size_sim by (done || eapply Hs || reflexivity). destruct c; cbn in *. by subst.
Qed.

(** ** Entries *)

(** What the file keeps of an entry: the link flag and an unusable source are dropped. *)
Definition reload (local_id : KcpConv) (now_ms : Z) (e : RouteEntry) : RouteEntry :=
  let keep_source := has_source e && valid_route_node (source e) in
  mkEntry (node e)
    (if keep_source then source e else NodeAddress_default)
    (if present (capability e) then capability e else NodeCapability_default)
    (state e)
    (keep_source && negb (conv_eqb (node_id (source e)) (node_id (node e)))
       && negb (conv_eqb (node_id (source e)) local_id))
    false (attempts e) (failures e) (hop_count e)
    (if last_seen_ms e =? 0 then now_ms else last_seen_ms e)
    (last_try_ms e) (last_success_ms e).

(** The values an entry can hold in the program, and hosts that are 7-bit text. *)
Record entry_range (e : RouteEntry) : Prop := {
  er_node : node_range (node e);
  er_source : has_source e = true -> node_range (source e);
  er_capability : present (capability e) = true -> cap_range (capability e);
  er_last_seen : fits_i64 (last_seen_ms e);
  er_last_try : fits_i64 (last_try_ms e);
  er_last_success : fits_i64 (last_success_ms e);
  er_ascii : ascii_bytes (host (endpoint (node e)));
  er_source_ascii : has_source e = true -> ascii_bytes (host (endpoint (source e)));
}.

(** The members of a written entry. *)
Lemma entry_json_members e :
  is_object (route_entry_to_json e) = true
  /\ jfind (str "node") (route_entry_to_json e) = Some (node_to_json (node e))
  /\ jfind (str "state") (route_entry_to_json e) = Some (JString (route_state_to_string (state e)))
  /\ jfind (str "attempts") (route_entry_to_json e) = Some (JUnsigned (attempts e))
  /\ jfind (str "failures") (route_entry_to_json e) = Some (JUnsigned (failures e))
  /\ jfind (str "capability") (route_entry_to_json e) =
       (if present (capability e) then Some (capability_to_json (capability e)) else None)
  /\ jfind (str "hop_count") (route_entry_to_json e) = Some (JUnsigned (hop_count e))
  /\ jfind (str "last_seen_ms") (route_entry_to_json e) = Some (JInt (last_seen_ms e))
  /\ jfind (str "last_try_ms") (route_entry_to_json e) = Some (JInt (last_try_ms e))
  /\ jfind (str "last_success_ms") (route_entry_to_json e) = Some (JInt (last_success_ms e))
  /\ jfind (str "source") (route_entry_to_json e) =
       (if has_source e && valid_route_node (source e) then Some (node_to_json (source e)) else None).
Proof.
  unfold route_entry_to_json.
  destruct (present (capability e)), (has_source e && valid_route_node (source e)); split_and!; reflexivity.
Qed.

Lemma state_string_roundtrip s : route_state_from_string (route_state_to_string s) = s.
Proof. by destruct s. Qed.

Lemma entry_json_roundtrip {good} cfg id local_id now e item :
  config_ok cfg -> entry_good good cfg id e -> entry_range e -> node_id (node e) <> local_id ->
  json_sim (route_entry_to_json e) item ->
  entry_from_json cfg local_id now item = Some (Some (reload local_id now e)).
Proof.
  intros [Hcfg _] [Hid Hval Hlink Hhops Hatt Hfail Hsrc Htried] [Rn Rs Rc R1 R2 R3 _ _] Hloc Hs.
  destruct (entry_json_members e) as (Ho & Mn & Ms & Ma & Mf & Mc & Mh & M1 & M2 & M3 & Msrc).
  unfold entry_from_json.
  destruct (sim_member _ _ _ _ Hs Mn) as (item_n & -> & Hn). rewrite (node_json_roundtrip _ _ Rn Hn).
  unfold conv_eqb at 1. rewrite bool_decide_eq_false_2 by done. rewrite (proj2 (proj2 Rn)). cbn [orb].
  rewrite (jvalue_string_sim _ _ _ _ _ Hs Ho Ms). cbn [mbind option_bind].
  rewrite state_string_roundtrip.
  rewrite (jvalue_u32_sim _ _ _ _ _ Hs Ho Ma Hatt), (jvalue_u32_sim _ _ _ _ _ Hs Ho Mf Hfail).
  rewrite (jvalue_u32_sim _ _ _ _ _ Hs Ho Mh) by (unfold fits, u8_max in *; lia).
  rewrite (jvalue_int_sim get_i64 _ _ _ _ _ Hs Ho M1 R1) by auto.
  rewrite (jvalue_int_sim get_ll _ _ _ _ _ Hs Ho M2 R2), (jvalue_int_sim get_ll _ _ _ _ _ Hs Ho M3 R3) by auto.
  assert (match jfind (str "capability") item with
          | Some c => default NodeCapability_default <$> capability_from_json c
          | None => Some NodeCapability_default end
          = Some (if present (capability e) then capability e else NodeCapability_default)) as ->.
  { destruct (present (capability e)) eqn:Hp.
    - destruct (sim_member _ _ _ _ Hs Mc) as (c' & -> & Hc).
      by rewrite (capability_json_roundtrip _ _ Hp (Rc eq_refl) Hc).
    - by rewrite (sim_absent _ _ _ Hs Mc). }
  assert (jfind (str "source") item ≫= node_from_json
          = if has_source e && valid_route_node (source e) then Some (source e) else None) as ->.
  { destruct (has_source e && valid_route_node (source e)) eqn:Hp.
    - destruct (sim_member _ _ _ _ Hs Msrc) as (s' & -> & Hs'). cbn.
      apply node_json_roundtrip; [|done]. bool_norm. by apply Rs.
    - by rewrite (sim_absent _ _ _ Hs Msrc). }
  cbn [mbind option_bind]. unfold u8_max in Hcfg.
  rewrite Z.min_l, wrap_id by (unfold fits; lia). rewrite (proj2 (Z.ltb_ge _ _)) by lia.
  unfold reload. do 2 f_equal.
  replace (bool_decide (state e = RouteState.Tried) && (last_success_ms e =? 0)) with false.
  - destruct (has_source e && valid_route_node (source e)); done.
  - symmetry. apply andb_false_iff. case_bool_decide as Ht; [|by left]. right.
    apply Z.eqb_neq. auto.
Qed.

(** ** Documents that can be dumped *)

Definition json_clean (v : json) : Prop := json_wf v /\ json_ascii v.

Create HintDb json_clean discriminated.

Lemma clean_jset key v doc :
  forallb (fun b => byte_val b <? 128) key = true -> json_clean v -> json_clean doc ->
  json_clean (jset key v doc).
Proof.
  intros Hk [Hv1 Hv2] [Hd1 Hd2]. split; [by apply json_wf_jset|].
  apply json_ascii_jset; [|done..]. by apply ascii_str_dec.
Qed.

Lemma clean_null : json_clean JNull. Proof. done. Qed.
Lemma clean_bool b : json_clean (JBool b). Proof. done. Qed.
Lemma clean_int z : json_clean (JInt z). Proof. done. Qed.
Lemma clean_unsigned z : 0 <= z -> json_clean (JUnsigned z). Proof. done. Qed.
Lemma clean_string s : ascii_bytes s -> json_clean (JString s). Proof. done. Qed.

Lemma clean_array l : Forall json_clean l -> json_clean (JArray l).
Proof.
  intros Hl. unfold json_clean. cbn. rewrite !fold_and_Forall. unfold json_clean in Hl.
  split; eapply Forall_impl; try exact Hl; by intros ? [].
Qed.

Lemma convid_ascii c : ascii_bytes (convid_to_hex c).
Proof. apply hex_ascii, hex_text_ok. Qed.

#[export] Hint Opaque jset node_to_json capability_to_json route_entry_to_json json_clean : json_clean.
#[export] Hint Resolve clean_null clean_bool clean_int clean_unsigned clean_string convid_ascii : json_clean.

(** Closes cleanness of a document built by assignments to members. *)
Ltac solve_clean :=
  repeat match goal with
  | |- json_clean (jset _ _ _) => apply clean_jset; [vm_compute; reflexivity| |]
  | |- json_clean (JUnsigned _) => apply clean_unsigned; unfold fits in *; lia
  end; try solve [auto with json_clean].

Lemma node_clean n : node_range n -> ascii_bytes (host (endpoint n)) -> json_clean (node_to_json n).
Proof. intros [Hp _] Ha. unfold node_to_json. solve_clean. Qed.

Lemma capability_clean c : cap_range c -> json_clean (capability_to_json c).
Proof. intros []. unfold capability_to_json. solve_clean. Qed.

Lemma state_string_ascii s : ascii_bytes (route_state_to_string s).
Proof. destruct s; apply ascii_str_dec; vm_compute; reflexivity. Qed.

Lemma entry_clean {good} cfg id e : entry_good good cfg id e -> entry_range e -> json_clean (route_entry_to_json e).
Proof.
  intros [] []. unfold route_entry_to_json.
  assert (json_clean (JString (route_state_to_string (state e)))) by (apply clean_string, state_string_ascii).
  destruct (present (capability e)), (has_source e) eqn:Hs, (valid_route_node (source e)); cbn [andb];
    solve_clean; match goal with
    | |- json_clean (JString _) => assumption
    | |- json_clean (capability_to_json _) => apply capability_clean; by auto
    | |- json_clean (node_to_json _) => apply node_clean; by auto
    end.
Qed.

(** ** The whole table *)

Section table.
Context {order : IterOrder KcpConv RouteEntry} (pow : double -> double -> double).

Definition saved_entries (local_id : KcpConv) (st : RouteManager) : list RouteEntry :=
  (filter (fun kv => saved local_id kv.2 = true) (iter_map (routes st))).*2.

Lemma push_back_entries local_id kvs acc :
  foldl (fun entries kv => if saved local_id kv.2 then push_back (route_entry_to_json kv.2) entries
                           else entries) (JArray acc) kvs
  = JArray (acc ++ (route_entry_to_json <$>
      (filter (fun kv : KcpConv * RouteEntry => saved local_id kv.2 = true) kvs).*2)).
Proof.
  revert acc. induction kvs as [|kv kvs IH]; intros acc; cbn [foldl]; [by rewrite app_nil_r|].
  rewrite filter_cons. destruct (saved local_id kv.2) eqn:E.
  - cbn [push_back]. rewrite IH, decide_True by done. by rewrite <- app_assoc.
  - rewrite IH, decide_False by done. done.
Qed.

Lemma route_document_members local_id st :
  is_object (route_document local_id st) = true
  /\ jfind (str "version") (route_document local_id st) = Some (JInt 1)
  /\ jfind (str "entries") (route_document local_id st)
     = Some (JArray (route_entry_to_json <$> saved_entries local_id st)).
Proof. unfold route_document. rewrite push_back_entries. split_and!; reflexivity. Qed.

Lemma saved_true local_id e :
  saved local_id e = true <-> node_id (node e) <> local_id /\ valid_route_node (node e) = true.
Proof.
  unfold saved, conv_eqb. rewrite negb_true_iff, orb_false_iff, negb_false_iff, bool_decide_eq_false. done.
Qed.

Lemma elem_of_saved_entries {lost} local_id st e :
  table_good valid_node lost st ->
  e ∈ saved_entries local_id st <->
  routes st !! node_id (node e) = Some e /\ node_id (node e) <> local_id.
Proof.
  intros [_ He _ _]. unfold saved_entries. rewrite list_elem_of_fmap. split.
  - intros ([id e'] & -> & [Hk%saved_true Hin]%list_elem_of_filter). apply elem_of_iter_map in Hin.
    cbn [snd] in *. rewrite (eo_id _ _ _ _ (He _ _ Hin)) in *. split; [done|apply Hk].
  - intros [Hk Hne]. exists (node_id (node e), e). split; [done|].
    apply list_elem_of_filter. rewrite elem_of_iter_map, saved_true. split; [|done].
    split; [done|]. apply (eo_valid _ _ _ _ (He _ _ Hk)).
Qed.

Lemma NoDup_saved_ids {lost} local_id st :
  table_good valid_node lost st -> NoDup ((fun e => node_id (node e)) <$> saved_entries local_id st).
Proof.
  intros [_ He _ _]. unfold saved_entries. rewrite <- list_fmap_compose.
  rewrite (list_fmap_ext _ fst).
  - eapply sublist_NoDup; [apply NoDup_iter_keys|]. apply fmap_sublist, sublist_filter.
  - intros i [id e] Hi. apply list_elem_of_lookup_2, list_elem_of_filter in Hi as [_ Hi].
    apply elem_of_iter_map in Hi. cbn. by rewrite (eo_id _ _ _ _ (He _ _ Hi)).
Qed.

Definition insert_all (es : list RouteEntry) (m : gmap KcpConv RouteEntry) : gmap KcpConv RouteEntry :=
  foldl (fun m e => <[node_id (node e) := e]> m) m es.

Lemma load_entries_all cfg local_id now items es : forall m,
  Forall2 (fun item e => entry_from_json cfg local_id now item = Some (Some e)) items es ->
  load_entries cfg local_id now items m = (true, insert_all es m).
Proof.
  intros m H. revert m. induction H as [|item e items es He _ IH]; intros m; [done|].
  cbn. by rewrite He, IH.
Qed.

Lemma insert_all_lookup es : forall m k e,
  NoDup ((fun e => node_id (node e)) <$> es) ->
  insert_all es m !! k = Some e <->
  (e ∈ es /\ node_id (node e) = k) \/ ((forall e', e' ∈ es -> node_id (node e') <> k) /\ m !! k = Some e).
Proof.
  induction es as [|x es IH]; intros m k e Hnd; cbn [insert_all foldl].
  - set_solver.
  - cbn in Hnd. apply NoDup_cons in Hnd as [Hx Hnd]. fold (insert_all es (<[node_id (node x) := x]> m)).
    rewrite IH by done. destruct (decide (node_id (node x) = k)) as [<-|Hne].
    + rewrite lookup_insert_eq. split.
      * intros [[Hin Hk]|[Hno [= ->]]]; left; split; [set_solver|done|set_solver|done].
      * intros [[[->|Hin]%elem_of_cons Hk]|[Hno _]]; [|by left|exfalso; apply (Hno x); set_solver].
        right. split; [|done]. intros e' Hin E. apply Hx. apply list_elem_of_fmap. by exists e'.
    + rewrite lookup_insert_ne by done. split.
      * intros [[Hin Hk]|[Hno Hm]]; [left; set_solver|right]. split; [|done].
        intros e' [->|Hin]%elem_of_cons; [done|by apply Hno].
      * intros [[[->|Hin]%elem_of_cons Hk]|[Hno Hm]]; [done|by left|right]. set_solver.
Qed.

Lemma reload_node local_id now e : node (reload local_id now e) = node e.
Proof. done. Qed.

Lemma entries_load {good} cfg local_id now es : forall items,
  config_ok cfg ->
  (forall e, e ∈ es -> exists id, entry_good good cfg id e /\ entry_range e /\ node_id (node e) <> local_id) ->
  Forall2 json_sim (route_entry_to_json <$> es) items ->
  Forall2 (fun item e => entry_from_json cfg local_id now item = Some (Some e)) items
    (reload local_id now <$> es).
Proof.
  induction es as [|e es IH]; intros items Hcfg Hes Hs; inversion Hs as [|? item ? items' Hi Hs']; subst;
    constructor.
  - destruct (Hes e ltac:(set_solver)) as (id & He & Hr & Hne). by eapply entry_json_roundtrip.
  - apply IH; [done| |done]. set_solver.
Qed.

(** Loading what [saved_entries] lists gives the table without the local node. *)
Lemma insert_all_reload {lost} local_id now st :
  table_good valid_node lost st ->
  insert_all (reload local_id now <$> saved_entries local_id st) ∅
  = reload local_id now <$> delete local_id (routes st).
Proof.
  intros Hinv. apply map_eq. intros k. apply option_eq. intros e.
  rewrite insert_all_lookup.
  - rewrite lookup_fmap, fmap_Some, lookup_empty. split.
    + intros [[Hin Hk]|[_ ?]]; [|done]. apply list_elem_of_fmap in Hin as (e0 & -> & Hin).
      apply (elem_of_saved_entries (lost := lost)) in Hin as [Hl Hne]; [|done]. cbn in Hk. subst k.
      exists e0. by rewrite lookup_delete_ne.
    + intros (e0 & Hl & ->). apply lookup_delete_Some in Hl as [Hne Hl]. left.
      pose proof (eo_id _ _ _ _ (ri_entries _ _ _ Hinv _ _ Hl)) as Hid. split; [|done].
      apply list_elem_of_fmap. exists e0. split; [done|]. apply (elem_of_saved_entries (lost := lost)); [done|].
      by rewrite Hid.
  - rewrite <- list_fmap_compose. rewrite (list_fmap_ext _ (fun e => node_id (node e))) by done.
    by eapply NoDup_saved_ids.
Qed.

Lemma trim_small cfg now m : table_size m < max_routes cfg -> trim_if_needed pow cfg now m = m.
Proof. intros Hm. unfold trim_if_needed. by rewrite (proj2 (Z.ltb_lt _ _)). Qed.

Lemma route_document_clean {lost} local_id st :
  table_good valid_node lost st -> map_Forall (fun _ => entry_range) (routes st) -> json_clean (route_document local_id st).
Proof.
  intros Hinv Hr. unfold route_document. rewrite push_back_entries. cbn [app].
  solve_clean.
  apply clean_array, Forall_fmap, Forall_forall. intros e He.
  apply (elem_of_saved_entries (lost := lost) local_id) in He as [Hl _]; [|done]. cbn.
  eapply entry_clean; [by apply Hinv|]. by apply Hr in Hl.
Qed.

Context `{JsonFileApi}.

Lemma load_document cfg now path local_id doc items text es :
  path <> [] -> json_read text = inr doc -> is_object doc = true ->
  jvalue get_i32 (str "version") 0 doc = Some 1 -> jfind (str "entries") doc = Some (JArray items) ->
  Forall2 (fun item e => entry_from_json cfg local_id now item = Some (Some e)) items es ->
  load_json_file pow path (Some text) local_id now (route_manager_init cfg)
  = (FileOk, set_routes (trim_if_needed pow cfg now (insert_all es ∅)) (route_manager_init cfg)).
Proof.
  intros Hp Hr Ho Hv He Hes. unfold load_json_file. rewrite str_empty_false, Hr by done.
  unfold route_schema. rewrite Ho, Hv. cbn [negb mbind option_bind].
  change (negb (1 =? 1)) with false. rewrite He. cbn [config routes route_manager_init].
  by rewrite (load_entries_all _ _ _ _ es).
Qed.

(** [C31] When the file system writes the whole document ([fs_works]), every route has a host, and the
    values of the entries are in the range of their types, saving a table succeeds, and a restarted
    node that loads the file gets every route but the local node's own, with its address, state,
    counters, times, hop count, capability and usable source and with the links down, trimmed once
    as after every load.  A table below its limit is not trimmed. *)
Theorem route_table_file_roundtrip fs path local_id now lost st files :
  table_good valid_node lost st -> map_Forall (fun _ => entry_range) (routes st) -> path <> [] ->
  fs_works fs path (route_document local_id st) ->
  exists text,
    save_json_file fs path local_id st files
      = (FileOk, <[path := text]> (delete (temp_path fs path) files))
    /\ load_json_file pow path (Some text) local_id now (route_manager_init (config st))
       = (FileOk, set_routes (trim_if_needed pow (config st) now
                                (reload local_id now <$> delete local_id (routes st)))
                    (route_manager_init (config st)))
    /\ (table_size (routes st) < max_routes (config st) ->
        routes (load_json_file pow path (Some text) local_id now (route_manager_init (config st))).2
        = reload local_id now <$> delete local_id (routes st)).
Proof.
  intros Hinv Hr Hp Hfs. destruct (route_document_clean local_id st Hinv Hr) as [Hwf Ha].
  destruct (route_document_members local_id st) as (Ho & Hv & He).
  destruct (json_file_roundtrip _ [] Hwf Ha Ho) as (text & doc & Ht & Hread & Hsim).
  exists (text ++ [x0a]).
  assert (load_json_file pow path (Some (text ++ [x0a])) local_id now (route_manager_init (config st))
     = (FileOk, set_routes (trim_if_needed pow (config st) now
                  (reload local_id now <$> delete local_id (routes st))) (route_manager_init (config st)))) as HL.
  { destruct (sim_member _ _ _ _ Hsim He) as (arr & Harr & Hsa).
    inversion Hsa as [| | | | | |l l' Hl|]; subst. rewrite <- insert_all_reload by done.
    eapply load_document; [done|exact Hread|by rewrite (json_sim_object _ _ Hsim)| |exact Harr|].
    - rewrite (jvalue_sim get_i32 _ _ _ _ Hsim Ho) by (intros ? ? Hg; apply (get_sim _ _ Hg)).
      destruct (route_document local_id st); try done. cbn in *. by rewrite Hv.
    - apply (entries_load (good := valid_node)); [apply Hinv| |done]. intros e Hin.
      apply (elem_of_saved_entries (lost := lost)) in Hin as [Hk Hne]; [|done]. exists (node_id (node e)).
      split_and!; [by apply Hinv|by apply Hr in Hk|done]. }
  split_and!; [|exact HL|].
  - unfold save_json_file. rewrite str_empty_false by done. by apply install_file_works.
  - intros Hsz. rewrite HL. cbn. apply trim_small. eapply Z.le_lt_trans; [|exact Hsz].
    unfold table_size. rewrite map_size_fmap. apply Nat2Z.inj_le, map_subseteq_size, delete_subseteq.
Qed.

(** ** What is loaded *)

Lemma node_from_json_range item n : node_from_json item = Some n -> node_range n.
Proof.
  unfold node_from_json. intros E.
  apply bind_Some in E as (h & _ & E). apply bind_Some in E as (p & Hp & E).
  apply bind_Some in E as (t & _ & E). case_cond_in E; [done|].
  apply bind_Some in E as (id & Hid & E). injection E as <-.
  destruct (parse_convid_valid _ _ Hid) as [Hwf He]. bool_norm.
  assert (0 <= p).
  { unfold find_port in Hp. destruct (jfind (str "port") item) as [[]|]; try done.
    injection Hp as <-. apply wrap_fits. lia. }
  split; [cbn; rewrite wrap_id by (split; lia); lia|]. done.
Qed.

Lemma node_range_valid n : node_range n -> host (endpoint n) <> [] -> valid_route_node n = true.
Proof.
  intros (Hp & _ & He) Hh. unfold valid_route_node. rewrite str_empty_false, He by done.
  destruct (Z.eqb_spec (port (endpoint n)) 0); [lia|done].
Qed.

Lemma jvalue_u32_fits key fallback doc v :
  jvalue get_u32 key fallback doc = Some v -> fits 32 fallback -> fits 32 v.
Proof.
  destruct doc as [| | | | | | |kvs]; try done. cbn. destruct (assoc key kvs) as [x|]; [|by intros [= ->]].
  destruct x; try done; intros [= <-] _; try (apply wrap_fits; lia). destruct b; split; lia.
Qed.

Lemma node_range_loaded n : node_range n -> loaded_node n.
Proof. intros (Hp & _ & He). split; [lia|done]. Qed.

(** An entry of a file, once accepted, is not a link and not the local node, and it is a
    well-formed entry but for its hosts, and entirely as soon as its hosts are not empty. *)
Lemma entry_from_json_ok cfg local_id now item e :
  config_ok cfg -> entry_from_json cfg local_id now item = Some (Some e) ->
  kcp_connected e = false /\ node_id (node e) <> local_id
  /\ entry_good loaded_node cfg (node_id (node e)) e
  /\ (host (endpoint (node e)) <> [] -> (has_source e = true -> host (endpoint (source e)) <> []) ->
      entry_ok cfg (node_id (node e)) e).
Proof.
  intros [Hcfg _] E. unfold entry_from_json in E.
  destruct (jfind (str "node") item) as [ni|]; [|done].
  destruct (node_from_json ni) as [n|] eqn:Hn; [|done].
  apply node_from_json_range in Hn. case_cond_in E; [done|].
  apply bind_Some in E as (sta & _ & E).
  apply bind_Some in E as (att & Ha%jvalue_u32_fits & E); [|split; lia].
  apply bind_Some in E as (fai & Hf%jvalue_u32_fits & E); [|split; lia].
  apply bind_Some in E as (cap & _ & E).
  apply bind_Some in E as (hops & Hh%jvalue_u32_fits & E); [|split; lia].
  apply bind_Some in E as (seen & _ & E). apply bind_Some in E as (ltry & _ & E).
  apply bind_Some in E as (succ & _ & E).
  set (src := jfind (str "source") item ≫= node_from_json) in E.
  assert (forall x, src = Some x -> node_range x) as Hr.
  { intros x (si & _ & Hx)%bind_Some. by apply node_from_json_range in Hx. }
  clearbody src. case_cond_in E; [done|]. injection E as <-. cbn.
  unfold conv_eqb in *. bool_norm. split; [done|]. split; [done|].
  pose proof (wrap_fits 8 (Z.min hops (max_route_hops cfg)) ltac:(lia)) as Hw. destruct Hw as [Hw _].
  split; [|intros Hhost Hsrc]; (constructor; cbn; try done).
  - by apply node_range_loaded.
  - destruct src as [x|]; [|done]. intros _. by apply node_range_loaded, Hr.
  - case_bool_decide as Ht; cbn; [|by intros ?]. destruct (Z.eqb_spec succ 0); cbn; [done|by intros].
  - by apply node_range_valid.
  - destruct src as [x|]; [|done]. intros Hs. apply node_range_valid; [by apply Hr|]. by apply Hsrc.
  - case_bool_decide as Ht; cbn; [|by intros ?]. destruct (Z.eqb_spec succ 0); cbn; [done|by intros].
Qed.


(** Every entry of the table was there before, or comes from the file. *)
Lemma load_entries_cases cfg local_id now items : forall m k e,
  (load_entries cfg local_id now items m).2 !! k = Some e ->
  m !! k = Some e \/ (node_id (node e) = k /\ exists item, item ∈ items /\
    entry_from_json cfg local_id now item = Some (Some e)).
Proof.
  induction items as [|item items IH]; intros m k e; cbn; [by left|].
  destruct (entry_from_json cfg local_id now item) as [[x|]|] eqn:Hx; [| |by left].
  - intros [Hm|(Hk & it & Hin & He)]%IH.
    + apply lookup_insert_Some in Hm as [[<- ->]|[_ Hm]]; [|by left].
      right. split; [done|]. exists item. set_solver.
    + right. split; [done|]. exists it. set_solver.
  - intros [Hm|(Hk & it & Hin & He)]%IH; [by left|]. right. split; [done|]. exists it. set_solver.
Qed.

(** The table after a load is a part of the table before it and of accepted entries. *)
Lemma load_json_file_cases path input local_id now st k e :
  routes (load_json_file pow path input local_id now st).2 !! k = Some e ->
  routes st !! k = Some e \/ (node_id (node e) = k /\ exists item,
    entry_from_json (config st) local_id now item = Some (Some e)).
Proof.
  unfold load_json_file. case_cond; [by left|]. destruct input as [text|]; [|by left].
  destruct (json_read text) as [what|doc]; [by left|].
  destruct (route_schema doc) as [[items|]|]; [|by left..].
  pose proof (load_entries_cases (config st) local_id now items (routes st) k e) as Hc.
  destruct (load_entries _ _ _ _ _) as [[] m]; cbn in *.
  - intros Hk. destruct Hc as [|(? & it & _ & ?)]; [|by left|by eauto].
    eapply lookup_weaken; [exact Hk|]. apply trim_spec.
  - intros Hk. destruct (Hc Hk) as [|(? & it & _ & ?)]; [by left|by eauto].
Qed.

Definition hosts_ok (e : RouteEntry) : Prop :=
  host (endpoint (node e)) <> [] /\ (has_source e = true -> host (endpoint (source e)) <> []).

(** What a load leaves of the table: entries without a link, none of the local node. *)
Lemma load_json_file_entries path input local_id now st :
  routes_inv st -> links (routes st) = ∅ -> routes st !! local_id = None ->
  let st' := (load_json_file pow path input local_id now st).2 in
  (config st' = config st /\ kcp_link_count st' = kcp_link_count st)
  /\ (forall k e, routes st' !! k = Some e ->
        kcp_connected e = false /\ k <> local_id /\ node_id (node e) = k /\
        (hosts_ok e -> entry_ok (config st') k e))
  /\ links (routes st') = ∅.
Proof.
  intros Hinv Hlinks Hloc st'.
  assert (config st' = config st /\ kcp_link_count st' = kcp_link_count st) as [Hcfg Hcount].
  { unfold st', load_json_file. repeat (case_cond || case_match); done. }
  assert (forall k e, routes st' !! k = Some e ->
    kcp_connected e = false /\ k <> local_id /\ node_id (node e) = k /\ (hosts_ok e -> entry_ok (config st') k e)) as Hall.
  { intros k e [Hm|(<- & item & He)]%load_json_file_cases.
    - pose proof (ri_entries _ _ _ Hinv _ _ Hm) as Hok. rewrite Hcfg. split_and!; [|congruence|apply Hok|done].
      destruct (kcp_connected e) eqn:Hc; [|done]. exfalso.
      assert (links (routes st) !! k = Some e) as Hk; [|by rewrite Hlinks in Hk].
      by apply map_lookup_filter_Some.
    - destruct (entry_from_json_ok _ _ _ _ _ (ri_config _ _ _ Hinv) He) as (Hc & Hne & _ & Hok).
      rewrite Hcfg. split_and!; [done..|]. intros [? ?]. by apply Hok. }
  split_and!; [done..|].
  apply map_empty. intros k. apply map_lookup_filter_None. right. intros e Hk Hc.
  destruct (Hall _ _ Hk) as [Hf _]. unfold is_link in Hc. cbn in Hc. congruence.
Qed.

(** Whatever a file holds, also when reading it ends in an exception: every entry of the table is
    afterwards a well-formed entry under its own identifier unless its host or its source's host is
    the empty string; the local node does not enter the table; and no link is added, so the link
    count stays exact. *)
Theorem load_json_file_safe path input local_id now st :
  routes_inv st -> links (routes st) = ∅ -> routes st !! local_id = None ->
  let st' := (load_json_file pow path input local_id now st).2 in
  config st' = config st
  /\ map_Forall (fun id e => node_id (node e) = id /\ (hosts_ok e -> entry_ok (config st') id e)) (routes st')
  /\ routes st' !! local_id = None
  /\ links (routes st') = ∅ /\ kcp_link_count st' = table_size (links (routes st')).
Proof.
  intros Hinv Hlinks Hloc st'.
  destruct (load_json_file_entries path input local_id now st Hinv Hlinks Hloc) as ([Hcfg Hcount] & Hall & Hl).
  fold st' in Hcfg, Hcount, Hall, Hl. split_and!; [done| | |done|].
  - intros k e Hk. by destruct (Hall _ _ Hk) as (_ & _ & ? & ?).
  - destruct (routes st' !! local_id) as [e|] eqn:Hk; [|done]. by destruct (Hall _ _ Hk) as (_ & ? & _).
  - by rewrite Hcount, (ri_links _ Hinv), Hl, Hlinks.
Qed.

(** The links that are gone when the table [m] becomes [m']. *)
Definition overwritten (m m' : gmap KcpConv RouteEntry) : Z := table_size (links m) - table_size (links m').

(** A load at any time, of any file: what comes from the file is well-formed but for its hosts, and
    a live link the file lists is not a link any more but still counted. *)
Lemma load_json_file_good path input local_id now st lost :
  table_good loaded_node lost st ->
  let st' := (load_json_file pow path input local_id now st).2 in
  table_good loaded_node (lost + overwritten (routes st) (routes st')) st'
  /\ (routes st !! local_id = None -> routes st' !! local_id = None).
Proof.
  intros Hinv st'. assert (config st' = config st /\ kcp_link_count st' = kcp_link_count st) as [Hcfg Hcount].
  { unfold st', load_json_file. repeat (case_cond || case_match); done. }
  assert (Hall : forall k e, routes st' !! k = Some e -> routes st !! k = Some e \/
    (kcp_connected e = false /\ k <> local_id /\ entry_good loaded_node (config st) k e)).
  { intros k e [Hm|(<- & item & He)]%load_json_file_cases; [by left|right].
    by destruct (entry_from_json_ok _ _ _ _ _ (ri_config _ _ _ Hinv) He) as (? & ? & ? & _). }
  assert (Hlinks : table_size (links (routes st')) <= table_size (links (routes st))).
  { apply table_size_mono, map_subseteq_spec. intros k e. unfold links. rewrite !map_lookup_filter_Some.
    intros [Hk Hc]. destruct (Hall _ _ Hk) as [Hm|(Hf & _)]; [done|]. unfold is_link in Hc. cbn in Hc. congruence. }
  split.
  - destruct Hinv as [H1 H2 H3 H4]. constructor; rewrite ?Hcfg, ?Hcount; unfold overwritten; [done| |lia|lia].
    intros k e Hk. destruct (Hall _ _ Hk) as [Hm|(_ & _ & Hg)]; [by apply H2|done].
  - intros Hno. destruct (routes st' !! local_id) as [e|] eqn:Hk; [|done]. destruct (Hall _ _ Hk) as [Hm|(_ & ? & _)]; [congruence|done].
Qed.

(** ** All calls that change the table *)

(** The states that calls of the methods lead to, loads of any file included, with the number of
    links the loads have overwritten. *)
Inductive rm_run (cfg : RouteManagerConfig) : Z -> RouteManager -> Prop :=
  | run_new : rm_run cfg 0 (route_manager_init cfg)
  | run_step lost st st' : rm_run cfg lost st -> rm_step pow st st' -> rm_run cfg lost st'
  | run_load lost st path input local_id now :
      rm_run cfg lost st ->
      let st' := (load_json_file pow path input local_id now st).2 in
      rm_run cfg (lost + overwritten (routes st) (routes st')) st'.

(** [C2] After any sequence of the calls that change the table, in any order and at any times (which are
    not 0), loads of any file included: entries are stored under their own identifier, with a port
    and an identifier; an entry that is a live link has hop count 1 and state Tried; hop counts stay
    within the configured limit; attempt and failure counters stay in 32 bits; a Tried entry has a
    success time; and the link counter is the number of live links plus the number of live links
    that a load has overwritten.  Without a load, addresses and recorded sources also have a host,
    and the link counter is the number of live links. *)
Theorem route_table_invariant cfg :
  config_ok cfg ->
  (forall lost st, rm_run cfg lost st -> table_good loaded_node lost st)
  /\ (forall st, rtc (rm_step pow) (route_manager_init cfg) st -> routes_inv st).
Proof.
  intros Hc. split.
  - induction 1 as [|lost st st' _ IH Hstep|lost st path input local_id now _ IH]; [by apply init_inv|exact (rm_step_inv pow st st' Hstep IH)|].
    by apply load_json_file_good.
  - intros st Hsteps. refine (rm_steps_inv pow _ _ Hsteps _). by apply init_inv.
Qed.

(** ** Atomicity of a save *)

(** A save changes the file at [path] only when it reports success, and then the file holds what
    reached the temporary file, the complete document if the operating system wrote all of it; every
    other file except the temporary one is untouched, and the temporary file is gone after a success. *)
Theorem save_json_file_atomic fs path local_id st files res files' :
  path <> [] -> save_json_file fs path local_id st files = (res, files') ->
  (res <> FileOk -> files' !! path = files !! path)
  /\ (res = FileOk -> files' !! temp_path fs path = None /\
      exists text, json_pretty (route_document local_id st) = Some text /\
        files' !! path = Some (take (fs_written fs) (text ++ [x0a])) /\
        ((length text < fs_written fs)%nat -> files' !! path = Some (text ++ [x0a])))
  /\ (forall other, other <> path -> other <> temp_path fs path -> files' !! other = files !! other).
Proof.
  intros Hp. unfold save_json_file. rewrite str_empty_false by done. apply install_file_atomic.
Qed.
End table.

(** ** Concrete tables *)

Module RouteFileDemo.
Import RouteDemo.
#[local] Existing Instance JsonToy.json_file_toy.
#[local] Existing Instance demo_order.

Definition demo_fs (written : nat) (rename : option bytes) : FsEnv :=
  {| fs_create_directories := fun _ => None; fs_open := fun _ => true; fs_stream_ok := true;
     fs_written := written; fs_rename := rename; fs_remove := None; fs_getpid := 77 |}.

Definition demo_path : bytes := str "/var/lib/iota/routes.json".

(** A live link and a route learnt from it, which has a capability. *)
Definition demo_cap : NodeCapability := mkCapability true false 512 3 100 7 0 0 1500.
Definition demo_table : RouteManager :=
  (add_route demo_pow 2000 (demo_node 2) (Some (demo_node 1)) false 1 (Some demo_cap)
     (add_route demo_pow 1000 (demo_node 1) None true 0 None
        (route_manager_init (demo_cfg 10))).2).2.

Lemma demo_table_inv : routes_inv demo_table.
Proof.
  apply add_route_inv; [apply _| |done|split; done]. apply add_route_inv; [apply _| |done|split; done].
  apply init_inv. unfold config_ok, u8_max. cbn. lia.
Qed.

Lemma demo_table_range : map_Forall (fun _ => entry_range) (routes demo_table).
Proof.
  apply map_Forall_to_list. vm_compute map_to_list.
  repeat constructor; unfold fits, fits_i64; cbn; try lia; try done.
Qed.

Definition demo_text_size : nat :=
  length (JsonToy.toy_dump (route_document (from_uint32 9) demo_table)).

Lemma route_table_file_roundtrip_witness :
  exists text,
    (save_json_file (demo_fs (S demo_text_size) None) demo_path (from_uint32 9) demo_table ∅).2
      !! demo_path = Some text
    /\ routes (load_json_file demo_pow demo_path (Some text) (from_uint32 9) 5000
                (route_manager_init (demo_cfg 10))).2
       = reload (from_uint32 9) 5000 <$> delete (from_uint32 9) (routes demo_table).
Proof.
  destruct (route_table_file_roundtrip demo_pow (demo_fs (S demo_text_size) None) demo_path
    (from_uint32 9) 5000 0 demo_table ∅ demo_table_inv demo_table_range ltac:(done)) as (text & Hs & _ & Hl).
  - constructor; try done. intros text [= <-]. apply Nat.lt_succ_diag_r.
  - exists text. rewrite Hs. split; [apply lookup_insert_eq|]. apply Hl. vm_compute. reflexivity.
Defined.

(** What this table looks like after the restart: no link, and the capability of the second route. *)
Example demo_reloaded :
  (fun e => (kcp_connected e, has_source e, hop_count e, accepting_ingress (capability e))) <$>
    (reload (from_uint32 9) 5000 <$> delete (from_uint32 9) (routes demo_table)) !! from_uint32 2
  = Some (false, true, 2, false)
  /\ kcp_connected <$> (routes demo_table !! from_uint32 1) = Some true.
Proof. split; vm_compute; reflexivity. Qed.

Definition demo_file (node_items : list json) : bytes :=
  JsonToy.toy_dump (JObject [(str "version", JInt 1); (str "entries", JArray node_items)]).

Definition demo_item (h : bytes) (id : Z) : json :=
  JObject [(str "node", node_to_json {| endpoint := {| host := h; port := 80 |}; node_id := from_uint32 id |})].

Lemma load_json_file_safe_witness :
  let st' := (load_json_file demo_pow demo_path (Some (demo_file [demo_item (str "h") 9; demo_item (str "h") 4]))
                (from_uint32 9) 5000 (route_manager_init (demo_cfg 10))).2 in
  routes st' !! from_uint32 9 = None /\ is_Some (routes st' !! from_uint32 4).
Proof.
  intros st'. split; [|vm_compute; eauto].
  refine (proj1 (proj2 (proj2 (load_json_file_safe demo_pow demo_path _ (from_uint32 9) 5000
    (route_manager_init (demo_cfg 10)) _ _ _)))).
  - apply init_inv. unfold config_ok, u8_max. cbn. lia.
  - reflexivity.
  - reflexivity.
Defined.

(** The live link of [demo_table] is loaded from a file. *)
Definition reloaded_link : RouteManager :=
  (load_json_file demo_pow demo_path (Some (demo_file [demo_item (str "h") 1])) (from_uint32 9) 5000 demo_table).2.

Lemma route_table_invariant_witness :
  table_good loaded_node 1 reloaded_link /\ routes_inv demo_two.
Proof.
  destruct (route_table_invariant demo_pow (demo_cfg 10) (ltac:(unfold config_ok, u8_max; cbn; lia))) as [Hload _].
  split; [|exact (proj2 (route_table_invariant demo_pow (demo_cfg 2) demo_cfg_ok) demo_two demo_two_reachable)].
  apply Hload. change 1 with (0 + overwritten (routes demo_table) (routes reloaded_link)). apply run_load.
  apply (run_step _ _ _ (add_route demo_pow 1000 (demo_node 1) None true 0 None (route_manager_init (demo_cfg 10))).2).
  - apply (run_step _ _ _ (route_manager_init (demo_cfg 10))); [apply run_new|]. by constructor.
  - by constructor.
Defined.

(** The counter keeps a link that the file has overwritten. *)
Example load_overwrites_link :
  kcp_link_count reloaded_link = 1 /\ links (routes reloaded_link) = ∅.
Proof. split; vm_compute; reflexivity. Qed.

(** [load_json_file] accepts a route with an empty host, which [add_route] would refuse. *)
Example load_accepts_empty_host :
  exists e, routes (load_json_file demo_pow demo_path (Some (demo_file [demo_item [] 4]))
              (from_uint32 9) 5000 (route_manager_init (demo_cfg 10))).2 !! from_uint32 4 = Some e
    /\ valid_route_node (node e) = false.
Proof. eexists. split; vm_compute; reflexivity. Qed.

(** A file with more routes than the limit leaves the table above its limit: a load trims once. *)
Example load_exceeds_limit :
  table_size (routes (load_json_file demo_pow demo_path
    (Some (demo_file [demo_item (str "h") 1; demo_item (str "h") 2; demo_item (str "h") 3; demo_item (str "h") 4]))
    (from_uint32 9) 5000 (route_manager_init (demo_cfg 2))).2) = 3.
Proof. vm_compute. reflexivity. Qed.

(** A member of the wrong kind ends the load in an exception no caller catches. *)
Example load_throws_on_mistyped_member :
  (load_json_file demo_pow demo_path
     (Some (demo_file [jset (str "attempts") (JString (str "3")) (demo_item (str "h") 1)]))
     (from_uint32 9) 5000 (route_manager_init (demo_cfg 2))).1 = FileThrew.
Proof. vm_compute. reflexivity. Qed.

Lemma save_json_file_atomic_witness :
  let files : gmap bytes bytes := {[demo_path := str "old"]} in
  let saved := save_json_file (demo_fs (S demo_text_size) (Some (str "Is a directory"))) demo_path
                 (from_uint32 9) demo_table files in
  saved.2 !! demo_path = Some (str "old").
Proof.
  intros files saved. destruct saved as [res files'] eqn:E.
  refine (proj1 (save_json_file_atomic (demo_fs (S demo_text_size) (Some (str "Is a directory"))) demo_path
    (from_uint32 9) demo_table files res files' ltac:(done) E) _).
  intros ->. discriminate E.
Defined.

(** The stream is tested before it is flushed: when the rest of the text does not fit on the disk,
    the save reports success and installs a truncated file. *)
Example save_installs_truncated_file :
  let st := route_manager_init (demo_cfg 10) in
  let saved := save_json_file (demo_fs 10 None) demo_path (from_uint32 9) st ∅ in
  exists text, json_pretty (route_document (from_uint32 9) st) = Some text /\ (10 < length text)%nat
    /\ saved.1 = FileOk /\ saved.2 !! demo_path = Some (take 10 text).
Proof.
  exists (JsonToy.toy_dump (route_document (from_uint32 9) (route_manager_init (demo_cfg 10)))).
  split; [reflexivity|]. split; [apply Nat.ltb_lt; vm_compute; reflexivity|].
  split; vm_compute; reflexivity.
Qed.

(** After a failed rename the message is the one of the [remove] that follows. *)
Example save_reports_wrong_error :
  (save_json_file (demo_fs 10 (Some (str "Is a directory"))) demo_path
     (from_uint32 9) (route_manager_init (demo_cfg 10)) ∅).1 = FileError (str "failed to install route table: Success").
Proof. vm_compute. reflexivity. Qed.
End RouteFileDemo.
