(* ===== verification/IdentityFile.v ===== *)
(** The identity of a node and its file: the keys, signatures and JSON functions of
    iota_proxy/src/business/NodeIdentity.cpp.

    OpenSSL's Ed25519 is the class [Ed25519]; whether each OpenSSL call succeeds is an argument
    ([EvpEnv]).  A function that returns [false] with an error text is [inl], one that succeeds
    [inr]; [None] is an exception. *)
From S2P Require Import Prelude KcpConv Frames Identity Json FileStore.

(** ** Keys and signatures *)

(** RFC 8032: keys are 32 bytes, signatures 64, and what a private key signs its public key
    verifies. *)
Class Ed25519 := {
  ed_public : bytes -> bytes;
  ed_sign : bytes -> bytes -> bytes;
  ed_verify : bytes -> bytes -> bytes -> bool;
  ed_public_length : forall sk, length sk = 32%nat -> length (ed_public sk) = 32%nat;
  ed_sign_length : forall sk m, length (ed_sign sk m) = 64%nat;
  ed_correct : forall sk m, length sk = 32%nat -> ed_verify (ed_public sk) m (ed_sign sk m) = true;
}.

(** The OpenSSL calls that can fail. *)
Inductive EvpCall :=
  | EVP_PKEY_new_raw_private_key | EVP_PKEY_new_raw_public_key
  | EVP_PKEY_get_raw_private_key | EVP_PKEY_get_raw_public_key
  | EVP_PKEY_CTX_new_id | EVP_PKEY_keygen_init | EVP_PKEY_keygen
  | EVP_MD_CTX_new | EVP_DigestSignInit | EVP_DigestSign | EVP_DigestVerifyInit.

Record EvpEnv := mkEvp {
  evp_ok : EvpCall -> bool;
  evp_fresh : bytes;   (* the private key [EVP_PKEY_keygen] generates *)
}.

(** [struct NodeKeyPair] *)
Record NodeKeyPair := mkKeyPair { private_key : bytes; public_key : bytes }.

(** [struct NodeIdentity] *)
Record NodeIdentity := mkIdentity { key_pair : NodeKeyPair; identity_id : KcpConv; configured : bool }.

Definition result (A : Type) : Type := bytes + A.

Section crypto.
Context `{Ed25519} (evp : EvpEnv).

(** [read_raw_private_key] and [read_raw_public_key], with the key of the handle. *)
Definition read_raw_private_key (sk : bytes) : result bytes :=
  if negb (evp_ok evp EVP_PKEY_get_raw_private_key) || negb (zlen sk =? 32)
  then inl (str "failed to read raw Ed25519 private key") else inr sk.

Definition read_raw_public_key (pk : bytes) : result bytes :=
  if negb (evp_ok evp EVP_PKEY_get_raw_public_key) || negb (zlen pk =? 32)
  then inl (str "failed to read raw Ed25519 public key") else inr pk.

Definition generate_node_key_pair : result NodeKeyPair :=
  if negb (evp_ok evp EVP_PKEY_CTX_new_id) then inl (str "failed to create Ed25519 keygen context")
  else if negb (evp_ok evp EVP_PKEY_keygen_init) then inl (str "failed to initialize Ed25519 keygen")
  else if negb (evp_ok evp EVP_PKEY_keygen) then inl (str "failed to generate Ed25519 key pair")
  else match read_raw_private_key (evp_fresh evp) with
       | inl error => inl error
       | inr sk => match read_raw_public_key (ed_public (evp_fresh evp)) with
                   | inl error => inl error
                   | inr pk => inr (mkKeyPair sk pk)
                   end
       end.

Definition derive_public_key (sk : bytes) : result bytes :=
  if negb (evp_ok evp EVP_PKEY_new_raw_private_key)
  then inl (str "failed to import raw Ed25519 private key")
  else read_raw_public_key (ed_public sk).

Definition set_identity_from_private_key (sk : bytes) : result NodeIdentity :=
  match derive_public_key sk with
  | inl error => inl error
  | inr pk => inr (mkIdentity (mkKeyPair sk pk) (node_id_from_public_key pk) true)
  end.

Definition sign_node_message (sk message : bytes) : result bytes :=
  if negb (evp_ok evp EVP_PKEY_new_raw_private_key)
  then inl (str "failed to import raw Ed25519 private key")
  else if negb (evp_ok evp EVP_MD_CTX_new) then inl (str "failed to create Ed25519 signing context")
  else if negb (evp_ok evp EVP_DigestSignInit) then inl (str "failed to initialize Ed25519 signing")
  else
    let signature := ed_sign sk message in
    if negb (evp_ok evp EVP_DigestSign) || negb (zlen signature =? 64)
    then inl (str "failed to sign Ed25519 message") else inr signature.

Definition verify_node_message (pk message signature : bytes) : result unit :=
  if negb (evp_ok evp EVP_PKEY_new_raw_public_key)
  then inl (str "failed to import raw Ed25519 public key")
  else if negb (evp_ok evp EVP_MD_CTX_new) then inl (str "failed to create Ed25519 verify context")
  else if negb (evp_ok evp EVP_DigestVerifyInit) then inl (str "failed to initialize Ed25519 verify")
  else if negb (ed_verify pk message signature)
  then inl (str "Ed25519 signature verification failed") else inr tt.
End crypto.

(** ** The identity file *)

(** [default_identity_file_path]; [home] is the environment variable, [operator/] adds a slash
    unless there is one. *)
Definition default_identity_file_path (home : option bytes) : bytes :=
  match home with
  | Some (b :: rest) =>
      let h := b :: rest in
      (if bool_decide (last h = Some x2f) then h else h ++ str "/") ++ str ".iota_proxy/identity.json"
  | _ => str "iota_identity.json"
  end.

(** A member that must be a given text when it is present. *)
Definition member_matches (key text : bytes) (doc : json) : bool :=
  match jfind key doc with
  | None => true
  | Some (JString s) => bool_decide (s = text)
  | Some _ => false
  end.

Section identity_file.
Context `{Ed25519} `{JsonFileApi} (evp : EvpEnv).

(** The first check of the document: [None] is an exception, [inr] the text of the private key. *)
Definition identity_schema (doc : json) : option (result bytes) :=
  let invalid := inl (str "identity json schema is invalid") in
  if negb (is_object doc) then Some invalid
  else
    version ← jvalue get_i32 (str "version") 0 doc;
    if negb (version =? 1) then Some invalid
    else
      algorithm ← jvalue get_string (str "algorithm") [] doc;
      if negb (bool_decide (algorithm = str "ed25519")) then Some invalid
      else match jfind (str "private_key") doc with
           | Some (JString s) => Some (inr s)
           | _ => Some invalid
           end.

Definition identity_from_document (doc : json) : option (result NodeIdentity) :=
  key ← identity_schema doc;
  Some (match key with
        | inl error => inl error
        | inr text =>
            match parse_hex_256 text with
            | None => inl (str "identity private_key is invalid")
            | Some sk =>
                match set_identity_from_private_key evp sk with
                | inl error => inl error
                | inr loaded =>
                    if negb (member_matches (str "public_key") (hex_256 (public_key (key_pair loaded))) doc)
                    then inl (str "identity public_key does not match private_key")
                    else if negb (member_matches (str "id") (convid_to_hex (identity_id loaded)) doc)
                    then inl (str "identity id does not match public_key")
                    else inr loaded
                end
            end
        end).

(** [input] is the contents of the file, [None] when it cannot be opened. *)
Definition load_node_identity_from_json (path : bytes) (input : option bytes)
    : option (result NodeIdentity) :=
  if str_empty path then Some (inl (str "invalid identity file path"))
  else match input with
       | None => Some (inl (str "identity file is not readable"))
       | Some text =>
           match json_read text with
           | inl what => Some (inl (str "identity json parse failed: " ++ what))
           | inr doc => identity_from_document doc
           end
       end.

Definition identity_file_messages : InstallMessages :=
  {| im_directory := str "failed to create identity directory: ";
     im_open := str "identity temp file is not writable";
     im_write := str "failed to write identity json";
     im_install := str "failed to install identity file: " |}.

(** The document; [existing] is what the file held before, [JNull] when it did not parse. *)
Definition identity_document (ident : NodeIdentity) (existing : json) : json :=
  let doc := JNull in
  let doc := jset (str "version") (JInt 1) doc in
  let doc := jset (str "algorithm") (JString (str "ed25519")) doc in
  let doc := jset (str "private_key") (JString (hex_256 (private_key (key_pair ident)))) doc in
  let doc := jset (str "public_key") (JString (hex_256 (public_key (key_pair ident)))) doc in
  let doc := jset (str "id") (JString (convid_to_hex (identity_id ident))) doc in
  jset (str "bootstrap_nodes")
    (match jfind (str "bootstrap_nodes") existing with
     | Some (JArray l) => JArray l
     | _ => JArray []
     end) doc.

Definition existing_document (input : option bytes) : json :=
  match input with
  | None => JNull
  | Some text => match json_read text with inl _ => JNull | inr doc => doc end
  end.

(** [readable]: the process may open the file for reading.  The permissions of the file, which
    are set last, are not part of [files]. *)
Definition save_node_identity_to_json (fs : FsEnv) (readable : bool) (path : bytes) (ident : NodeIdentity)
    (files : gmap bytes bytes) : FileResult * gmap bytes bytes :=
  if str_empty path || negb (configured ident)
  then (FileError (str "identity is not configured"), files)
  else install_file identity_file_messages fs path
         (identity_document ident (existing_document (files !! path))) files.

(** The identity and whether it was created, with the files afterwards; [None] is an exception. *)
Definition load_or_create_node_identity (fs : FsEnv) (readable : bool) (path : bytes) (files : gmap bytes bytes)
    : option (result (NodeIdentity * bool)) * gmap bytes bytes :=
  if str_empty path then (Some (inl (str "invalid identity file path")), files)
  else
    match files !! path with
    | Some text =>
        (res ← load_node_identity_from_json path (if readable then Some text else None);
         Some (match res with inl error => inl error | inr loaded => inr (loaded, false) end), files)
    | None =>
        match generate_node_key_pair evp with
        | inl error => (Some (inl error), files)
        | inr keys =>
            let generated := mkIdentity keys (node_id_from_public_key (public_key keys)) true in
            match save_node_identity_to_json fs readable path generated files with
            | (FileOk, files) => (Some (inr (generated, true)), files)
            | (FileError error, files) => (Some (inl error), files)
            | (FileThrew, files) => (None, files)
            end
        end
    end.

(** ** Bootstrap nodes *)

Definition bootstrap_node (item : json) : result NodeAddress :=
  match jfind (str "host") item, jfind (str "port") item with
  | Some (JString h), Some (JUnsigned p) =>
      let p := wrap 32 p in
      if (p =? 0) || (65535 <? p) then inl (str "bootstrap node port is invalid")
      else
        let text :=
          match jfind (str "id") item with
          | Some (JString s) => Some s
          | _ => match jfind (str "public_key") item with
                 | Some (JString s) => Some s
                 | _ => match jfind (str "convid") item with Some (JString s) => Some s | _ => None end
                 end
          end in
        match text with
        | None => inl (str "bootstrap node id is missing")
        | Some text =>
            match parse_convid_hex text with
            | None => inl (str "bootstrap node id is invalid")
            | Some id => inr {| endpoint := {| host := h; port := wrap 16 p |}; node_id := id |}
            end
        end
  | _, _ => inl (str "bootstrap node schema is invalid")
  end.

Fixpoint bootstrap_items (items : list json) (out : list NodeAddress)
    : option bytes * list NodeAddress :=
  match items with
  | [] => (None, out)
  | item :: items =>
      match bootstrap_node item with
      | inl error => (Some error, out)
      | inr n => bootstrap_items items (out ++ [n])
      end
  end.

(** The error, if any, and the contents of [*out]. *)
Definition load_bootstrap_nodes_from_json (input : option bytes) : option bytes * list NodeAddress :=
  match input with
  | None => (None, [])
  | Some text =>
      match json_read text with
      | inl what => (Some (str "identity json parse failed: " ++ what), [])
      | inr doc =>
          match jfind (str "bootstrap_nodes") doc with
          | None => (None, [])
          | Some (JArray items) => bootstrap_items items []
          | Some _ => (Some (str "bootstrap_nodes must be an array"), [])
          end
      end
  end.
End identity_file.
