(* ===== verification/IdentityFileProofs.v ===== *)
(** The identity file: a saved identity loads back unchanged and keeps the bootstrap nodes of the
    file, whatever loads is the identity of its private key, and a node that has no file creates
    one it loads at the next start. *)
From S2P Require Import Prelude KcpConv Frames Identity Double Routes RouteInvariant Json EdgeMessage FileStore RouteJson RouteJsonProofs IdentityFile.

Section proofs.
Context `{Ed25519} `{JsonFileApi} (evp : EvpEnv).

(** An identity is the one its private key determines. *)
Definition identity_of (sk : bytes) : NodeIdentity :=
  mkIdentity (mkKeyPair sk (ed_public sk)) (mkConv (ed_public sk)) true.

Definition evp_works : Prop := forall call, evp_ok evp call = true.

Lemma set_identity_spec sk :
  length sk = 32%nat ->
  set_identity_from_private_key evp sk = inr (identity_of sk)
  \/ exists error, set_identity_from_private_key evp sk = inl error.
Proof.
  intros Hl. unfold set_identity_from_private_key, derive_public_key, read_raw_public_key.
  case_cond; [right; eauto|]. case_cond; [right; eauto|]. by left.
Qed.

Lemma set_identity_works sk :
  evp_works -> length sk = 32%nat -> set_identity_from_private_key evp sk = inr (identity_of sk).
Proof.
  intros He Hl. unfold set_identity_from_private_key, derive_public_key, read_raw_public_key.
  rewrite !He. unfold zlen. rewrite ed_public_length by done. done.
Qed.

(** An identity that loads is the identity of the private key in the file: its public key and its
    node id are derived from that key, also when the file states others. *)
Theorem load_node_identity_derived path input ident :
  load_node_identity_from_json evp path input = Some (inr ident) ->
  exists sk, length sk = 32%nat /\ ident = identity_of sk.
Proof.
  unfold load_node_identity_from_json. case_cond; [done|]. destruct input as [text|]; [|done].
  destruct (json_read text) as [|doc]; [done|]. intros (key & _ & Hb)%bind_Some.
  destruct key as [|text']; [done|]. destruct (parse_hex_256 text') as [sk|] eqn:Hsk; [|done].
  pose proof (length_parse_hex_n _ _ _ Hsk) as Hl.
  destruct (set_identity_spec sk Hl) as [Es|[error Es]]; rewrite Es in Hb; [|done].
  repeat case_cond_in Hb; try done. injection Hb as <-. eauto.
Qed.

(** ** Round trip *)

Definition identity_members (doc : json) (ident : NodeIdentity) (nodes : list json) : Prop :=
  is_object doc = true
  /\ jvalue get_i32 (str "version") 0 doc = Some 1
  /\ jvalue get_string (str "algorithm") [] doc = Some (str "ed25519")
  /\ jfind (str "private_key") doc = Some (JString (hex_256 (private_key (key_pair ident))))
  /\ jfind (str "public_key") doc = Some (JString (hex_256 (public_key (key_pair ident))))
  /\ jfind (str "id") doc = Some (JString (convid_to_hex (identity_id ident)))
  /\ jfind (str "bootstrap_nodes") doc = Some (JArray nodes).

Definition existing_nodes (existing : json) : list json :=
  match jfind (str "bootstrap_nodes") existing with Some (JArray l) => l | _ => [] end.

Lemma identity_document_members ident existing :
  identity_members (identity_document ident existing) ident (existing_nodes existing).
Proof.
  unfold identity_document, existing_nodes.
  destruct (jfind (str "bootstrap_nodes") existing) as [[]|]; repeat split; reflexivity.
Qed.

Lemma identity_members_sim doc doc' ident nodes :
  json_sim doc doc' -> identity_members doc ident nodes ->
  exists nodes', Forall2 json_sim nodes nodes' /\ identity_members doc' ident nodes'.
Proof.
  intros Hs (Ho & Hv & Ha & Hk & Hp & Hi & Hn). destruct (sim_member _ _ _ _ Hs Hn) as (arr & Harr & Hsa).
  inversion Hsa as [| | | | | |l l' Hl|]; subst. exists l'. split; [done|]. unfold identity_members.
  rewrite (json_sim_object _ _ Hs), (jvalue_sim get_i32 _ _ _ _ Hs Ho), (jvalue_sim get_string _ _ _ _ Hs Ho)
    by (intros ? ? Hg; apply (get_sim _ _ Hg)).
  split_and!; try done; by eapply sim_plain.
Qed.

Lemma identity_from_members doc sk nodes :
  evp_works -> length sk = 32%nat -> identity_members doc (identity_of sk) nodes ->
  identity_from_document evp doc = Some (inr (identity_of sk)).
Proof.
  intros He Hl (Ho & Hv & Ha & Hk & Hp & Hi & _). unfold identity_from_document, identity_schema.
  rewrite Ho, Hv. cbn [negb mbind option_bind]. rewrite Ha. cbn [mbind option_bind].
  rewrite bool_decide_eq_true_2 by done. change (negb (1 =? 1)) with false. cbn [negb].
  rewrite Hk. cbn [mbind option_bind]. unfold parse_hex_256.
  change (hex_256 (private_key (key_pair (identity_of sk)))) with (sk ≫= hex_byte).
  rewrite <- Hl, parse_hex_n_hex, set_identity_works by done.
  unfold member_matches. rewrite Hp, Hi. by rewrite !bool_decide_eq_true_2.
Qed.

Lemma identity_document_clean sk existing :
  Forall json_clean (existing_nodes existing) -> json_clean (identity_document (identity_of sk) existing).
Proof.
  intros Hn. unfold identity_document, existing_nodes in *.
  assert (forall l, ascii_bytes (hex_256 l)) as Hh by (intros l; apply hex_ascii, hex_text_ok).
  destruct (jfind (str "bootstrap_nodes") existing) as [[]|];
    solve_clean; try (apply clean_string; auto; apply ascii_str_dec; vm_compute; reflexivity);
    apply clean_array; done.
Qed.

(** ** Bootstrap nodes *)

Lemma sim_string_of doc doc' key :
  json_sim doc doc' -> find_string key doc' = find_string key doc.
Proof.
  intros Hs. unfold find_string. pose proof (json_sim_find _ _ key Hs) as Hf.
  destruct Hf as [v v' Hv|]; [|done]. destruct Hv; try done. cbn. by destruct (0 <=? z).
Qed.

Lemma bootstrap_node_strings item :
  bootstrap_node item =
    match find_string (str "host") item, jfind (str "port") item with
    | Some h, Some (JUnsigned p) =>
        let p := wrap 32 p in
        if (p =? 0) || (65535 <? p) then inl (str "bootstrap node port is invalid")
        else match match find_string (str "id") item with
                   | Some s => Some s
                   | None => match find_string (str "public_key") item with
                             | Some s => Some s
                             | None => find_string (str "convid") item
                             end
                   end with
             | None => inl (str "bootstrap node id is missing")
             | Some text =>
                 match parse_convid_hex text with
                 | None => inl (str "bootstrap node id is invalid")
                 | Some id => inr {| endpoint := {| host := h; port := wrap 16 p |}; node_id := id |}
                 end
             end
    | _, _ => inl (str "bootstrap node schema is invalid")
    end.
Proof.
  unfold bootstrap_node, find_string.
  destruct (jfind (str "host") item) as [[]|], (jfind (str "port") item) as [[]|]; try done. cbv zeta.
  case_cond; [done|].
  destruct (jfind (str "id") item) as [[]|], (jfind (str "public_key") item) as [[]|]; try done;
    destruct (jfind (str "convid") item) as [[]|]; done.
Qed.

Lemma bootstrap_node_sim item item' n :
  json_sim item item' -> bootstrap_node item = inr n -> bootstrap_node item' = inr n.
Proof.
  intros Hs. rewrite !bootstrap_node_strings, !(sim_string_of item item') by done.
  destruct (find_string (str "host") item); [|done].
  destruct (jfind (str "port") item) as [[| | |p| | | |]|] eqn:Hp; try done.
  by rewrite (sim_plain _ _ _ _ Hs Hp).
Qed.

Lemma bootstrap_items_sim items items' : forall acc out,
  Forall2 json_sim items items' ->
  bootstrap_items items acc = (None, out) -> bootstrap_items items' acc = (None, out).
Proof.
  intros acc out Hs. revert acc. induction Hs as [|item item' items items' Hi _ IH]; intros acc; [done|].
  cbn. destruct (bootstrap_node item) as [|n] eqn:Hn; [done|].
  rewrite (bootstrap_node_sim _ _ _ Hi Hn). apply IH.
Qed.

(** The text of a saved identity: what it loads to, and the bootstrap nodes it lists. *)
Lemma identity_text_loads path sk existing :
  evp_works -> length sk = 32%nat -> path <> [] -> Forall json_clean (existing_nodes existing) ->
  exists text,
    json_pretty (identity_document (identity_of sk) existing) = Some text
    /\ load_node_identity_from_json evp path (Some (text ++ [x0a])) = Some (inr (identity_of sk))
    /\ forall nodes, bootstrap_items (existing_nodes existing) [] = (None, nodes) ->
         load_bootstrap_nodes_from_json (Some (text ++ [x0a])) = (None, nodes).
Proof.
  intros He Hl Hp Hn. destruct (identity_document_clean sk existing Hn) as [Hwf Ha].
  pose proof (identity_document_members (identity_of sk) existing) as Hm.
  destruct (json_file_roundtrip _ [] Hwf Ha (proj1 Hm)) as (text & doc & Ht & Hread & Hsim).
  destruct (identity_members_sim _ _ _ _ Hsim Hm) as (nodes' & Hns & Hm').
  exists text. split_and!; [done| |].
  - unfold load_node_identity_from_json. rewrite str_empty_false, Hread by done.
    by eapply identity_from_members.
  - intros nodes Hload. unfold load_bootstrap_nodes_from_json. rewrite Hread.
    rewrite (proj2 (proj2 (proj2 (proj2 (proj2 (proj2 Hm')))))). by eapply bootstrap_items_sim.
Qed.

Lemma existing_nodes_load input nodes :
  load_bootstrap_nodes_from_json input = (None, nodes) ->
  bootstrap_items (existing_nodes (existing_document input)) [] = (None, nodes).
Proof.
  unfold load_bootstrap_nodes_from_json, existing_document, existing_nodes.
  destruct input as [text|]; [|done]. destruct (json_read text) as [|doc]; [done|].
  destruct (jfind (str "bootstrap_nodes") doc) as [[]|]; done.
Qed.

(** An identity that is saved loads back as the same identity, and the file keeps the bootstrap
    nodes it listed before. *)
Theorem identity_file_roundtrip fs path sk files :
  evp_works -> length sk = 32%nat -> path <> [] ->
  Forall json_clean (existing_nodes (existing_document (files !! path))) ->
  fs_works fs path (identity_document (identity_of sk) (existing_document (files !! path))) ->
  exists text,
    save_node_identity_to_json fs true path (identity_of sk) files
      = (FileOk, <[path := text]> (delete (temp_path fs path) files))
    /\ load_node_identity_from_json evp path (Some text) = Some (inr (identity_of sk))
    /\ forall nodes, load_bootstrap_nodes_from_json (files !! path) = (None, nodes) ->
         load_bootstrap_nodes_from_json (Some text) = (None, nodes).
Proof.
  intros He Hl Hp Hn Hfs.
  destruct (identity_text_loads path sk _ He Hl Hp Hn) as (text & Ht & Hload & Hb).
  exists (text ++ [x0a]). split_and!; [|done|].
  - unfold save_node_identity_to_json. rewrite str_empty_false by done. cbn [orb negb configured identity_of].
    by apply install_file_works.
  - intros nodes Hold. by apply Hb, existing_nodes_load.
Qed.

Lemma generate_works :
  evp_works -> length (evp_fresh evp) = 32%nat ->
  generate_node_key_pair evp = inr (mkKeyPair (evp_fresh evp) (ed_public (evp_fresh evp))).
Proof.
  intros He Hl. unfold generate_node_key_pair, read_raw_private_key, read_raw_public_key, zlen.
  by rewrite !He, ed_public_length, Hl.
Qed.

(** A node without an identity file creates one, and the next start loads that identity from it. *)
Theorem load_or_create_stable fs path files :
  evp_works -> length (evp_fresh evp) = 32%nat -> path <> [] -> files !! path = None ->
  fs_works fs path (identity_document (identity_of (evp_fresh evp)) JNull) ->
  exists files',
    load_or_create_node_identity evp fs true path files = (Some (inr (identity_of (evp_fresh evp), true)), files')
    /\ load_or_create_node_identity evp fs true path files'
       = (Some (inr (identity_of (evp_fresh evp), false)), files').
Proof.
  intros He Hl Hp Hnone Hfs.
  destruct (identity_text_loads path (evp_fresh evp) JNull) as (text & Ht & Hload & _); [done..|constructor|].
  assert (save_node_identity_to_json fs true path (identity_of (evp_fresh evp)) files
    = (FileOk, <[path := text ++ [x0a]]> (delete (temp_path fs path) files))) as Hs.
  { unfold save_node_identity_to_json. rewrite str_empty_false, Hnone by done.
    cbn [orb negb configured identity_of]. by apply install_file_works. }
  eexists. unfold load_or_create_node_identity at 1. rewrite str_empty_false, Hnone by done.
  rewrite generate_works by done. cbn [public_key].
  change (node_id_from_public_key (ed_public (evp_fresh evp))) with (mkConv (ed_public (evp_fresh evp))).
  fold (identity_of (evp_fresh evp)). rewrite Hs. split; [done|].
  unfold load_or_create_node_identity. rewrite str_empty_false, lookup_insert_eq by done. by rewrite Hload.
Qed.

(** What was signed with the private key of a node is accepted under that node's id. *)
Lemma sign_verify sk message :
  evp_works -> length sk = 32%nat -> conv_empty (identity_id (identity_of sk)) = false ->
  exists signature, sign_node_message evp sk message = inr signature
    /\ length signature = 64%nat
    /\ public_key_from_node_id (identity_id (identity_of sk)) = Some (ed_public sk)
    /\ verify_node_message evp (ed_public sk) message signature = inr tt.
Proof.
  intros He Hl Hne. exists (ed_sign sk message). unfold sign_node_message, verify_node_message, zlen.
  rewrite !He, ed_sign_length, ed_correct by done. split_and!; [done..| |done].
  unfold public_key_from_node_id. by rewrite Hne.
Qed.
End proofs.

(** ** Concrete identities *)

(** A signature scheme with the laws of [Ed25519] (and no security), for running the model. *)
Module ToyEd25519.
Definition toy_sign (sk m : bytes) : bytes := take 64 (sk ++ m ++ replicate 64 x00).

Definition toy_ed25519 : Ed25519.
Proof.
  refine {| ed_public := fun sk => sk; ed_sign := toy_sign;
            ed_verify := fun pk m s => bool_decide (s = toy_sign pk m) |}.
  - done.
  - intros sk m. unfold toy_sign. rewrite length_take, !length_app, length_replicate. lia.
  - intros sk m _. by apply bool_decide_eq_true_2.
Defined.
End ToyEd25519.

Module IdentityDemo.
#[local] Existing Instance ToyEd25519.toy_ed25519.
#[local] Existing Instance JsonToy.json_file_toy.

Definition demo_sk : bytes := x05 :: replicate 31 x00.
Definition demo_evp : EvpEnv := {| evp_ok := fun _ => true; evp_fresh := demo_sk |}.
Definition demo_identity_path : bytes := str "id.json".

Lemma demo_evp_works : evp_works demo_evp.
Proof. by intros call. Qed.

(** A file with a bootstrap node and no identity. *)
Definition demo_bootstrap : json :=
  JObject [(str "bootstrap_nodes", JArray [JObject
    [(str "host", JString (str "h")); (str "port", JUnsigned 80); (str "id", JString (convid_to_hex (from_uint32 7)))]])].
Definition demo_files : gmap bytes bytes := {[demo_identity_path := JsonToy.toy_dump demo_bootstrap]}.

Definition demo_fs_for (doc : json) : FsEnv :=
  {| fs_create_directories := fun _ => None; fs_open := fun _ => true; fs_stream_ok := true;
     fs_written := S (length (JsonToy.toy_dump doc)); fs_rename := None; fs_remove := None; fs_getpid := 77 |}.

Lemma demo_fs_for_works path doc : fs_works (demo_fs_for doc) path doc.
Proof. constructor; try done. intros text [= <-]. apply Nat.lt_succ_diag_r. Qed.

Lemma load_node_identity_derived_witness :
  exists ident sk, length sk = 32%nat /\ ident = identity_of sk /\ identity_id ident = from_uint32 5.
Proof.
  pose (doc := identity_document (identity_of demo_sk) JNull).
  destruct (load_node_identity_derived demo_evp demo_identity_path (Some (JsonToy.toy_dump doc)) (identity_of demo_sk))
    as (sk & Hl & Hi); [vm_compute; reflexivity|].
  exists (identity_of demo_sk), sk. split; [exact Hl|]. split; [exact Hi|]. vm_compute. reflexivity.
Defined.

Lemma demo_existing : existing_document (demo_files !! demo_identity_path) = demo_bootstrap.
Proof. vm_compute. reflexivity. Qed.

Lemma identity_file_roundtrip_witness :
  exists text n,
    load_node_identity_from_json demo_evp demo_identity_path (Some text) = Some (inr (identity_of demo_sk))
    /\ load_bootstrap_nodes_from_json (Some text) = (None, [n]) /\ node_id n = from_uint32 7.
Proof.
  destruct (identity_file_roundtrip demo_evp
    (demo_fs_for (identity_document (identity_of demo_sk) (existing_document (demo_files !! demo_identity_path))))
    demo_identity_path demo_sk demo_files demo_evp_works ltac:(done) ltac:(done)) as (text & _ & Hl & Hb).
  - rewrite demo_existing. constructor; [|constructor]. split; [|vm_compute; repeat constructor].
    split; [|cbn; lia]. apply (bool_decide_unpack _). vm_compute. exact I.
  - apply demo_fs_for_works.
  - eexists text, _. split; [exact Hl|]. split; [apply Hb; vm_compute; reflexivity|]. vm_compute. reflexivity.
Defined.

Lemma load_or_create_stable_witness :
  exists files',
    load_or_create_node_identity demo_evp (demo_fs_for (identity_document (identity_of demo_sk) JNull)) true
      demo_identity_path ∅ = (Some (inr (identity_of demo_sk, true)), files').
Proof.
  destruct (load_or_create_stable demo_evp (demo_fs_for (identity_document (identity_of demo_sk) JNull))
    demo_identity_path ∅ demo_evp_works ltac:(done) ltac:(done) ltac:(done)) as (files' & Hc & _).
  - apply demo_fs_for_works.
  - exists files'. exact Hc.
Defined.
End IdentityDemo.
