(* ===== verification/Discovery.v ===== *)
(** Node discovery: iota_proxy/src/discovery/DiscoveryService.cpp.

    Each function of the service is a computation [D A]: it changes the state of the service
    ([DState]: the route table, the files, what has been sent) and returns a value, or ends in an
    exception ([None]), which nothing in the threads of the service catches.  What comes from
    outside is the class of arguments [DiscoveryEnv]: the clock, the random generator, the sockets,
    the callbacks of the runtime; [ticks] counts these questions, so that every answer can differ.
    A socket is the list of the results its system calls return, after which it fails.  Log output
    is left out. *)
From S2P Require Import Prelude KcpConv Frames Identity Double Routes RouteInvariant Json FileStore RouteJson IdentityFile.

Definition kHelloClockSkewMs : Z := 10 * 60 * 1000.

(** ** Lines over a socket *)

Inductive SendResult := Sent (n : Z) | SendInterrupted | SendFailed.
Inductive RecvResult := Received (c : byte) | RecvClosed | RecvInterrupted | RecvFailed.

(** [write_all]: the result and the bytes sent. *)
Fixpoint write_all (script : list SendResult) (data : bytes) : bool * bytes :=
  match data with
  | [] => (true, [])
  | _ =>
      match script with
      | [] | SendFailed :: _ => (false, [])
      | SendInterrupted :: script => write_all script data
      | Sent n :: script =>
          if n =? 0 then (false, [])
          else
            let '(ok, sent) := write_all script (drop (Z.to_nat n) data) in
            (ok, take (Z.to_nat n) data ++ sent)
      end
  end.

(** [read_line]: the line, or [None] for [false], and the rest of the input. *)
Fixpoint read_line_loop (script : list RecvResult) (out : bytes) : option bytes * list RecvResult :=
  match script with
  | [] => (None, [])
  | RecvInterrupted :: script => read_line_loop script out
  | RecvFailed :: script => (None, script)
  | RecvClosed :: script => (if str_empty out then None else Some out, script)
  | Received c :: script =>
      if bool_decide (c = x0a) then (Some out, script)
      else if 1024 * 1024 <? zlen out then (None, script)
      else read_line_loop script (out ++ [c])
  end.

Definition read_line (script : list RecvResult) : option bytes * list RecvResult :=
  read_line_loop script [].

(** ** Messages *)

Definition capability_to_json (c : NodeCapability) : json := RouteJson.capability_to_json c.

(** [None] is an exception, [Some None] the result [false]. *)
Definition capability_from_json (item : json) : option (option NodeCapability) :=
  if negb (is_object item) then Some None
  else
    accepting ← jvalue get_bool (str "accepting_ingress") true item;
    max_links ← jvalue get_ull (str "max_kcp_links") 0 item;
    links ← jvalue get_ull (str "current_kcp_links") 0 item;
    max_streams ← jvalue get_ull (str "max_ingress_streams") 0 item;
    streams ← jvalue get_ull (str "current_ingress_streams") 0 item;
    max_bytes ← jvalue get_ull (str "max_ingress_bytes_per_second") 0 item;
    current ← jvalue get_ull (str "current_ingress_bytes_per_second") 0 item;
    updated ← jvalue get_ll (str "updated_at_ms") 0 item;
    Some (Some (mkCapability true accepting max_links links max_streams streams max_bytes current updated)).

Definition node_to_json (n : NodeAddress) (cap : option NodeCapability) : json :=
  let item := JNull in
  let item := jset (str "host") (JString (host (endpoint n))) item in
  let item := jset (str "port") (JUnsigned (port (endpoint n))) item in
  let item := jset (str "public_key") (JString (convid_to_hex (node_id n))) item in
  match cap with
  | Some c => if present c then jset (str "capability") (capability_to_json c) item else item
  | None => item
  end.

Definition route_to_json (route : RouteEntry) : json :=
  jset (str "hop_count") (JUnsigned (hop_count route))
    (node_to_json (node route) (Some (capability route))).

Definition route_hop_count_from_json (item : json) : option Z :=
  value ← jvalue get_u32 (str "hop_count") 0 item;
  Some (wrap 8 (Z.min value u8_max)).

Definition node_from_json (item : json) : option NodeAddress :=
  h ← find_string (str "host") item;
  p ← find_port item;
  id_text ← match find_string (str "public_key") item with
            | Some text => Some text
            | None => find_string (str "id") item
            end;
  if (p =? 0) || (65535 <? p) then None
  else
    id ← parse_convid_hex id_text;
    Some {| endpoint := {| host := h; port := wrap 16 p |}; node_id := id |}.

Definition node_capability_from_json (item : json) : option (option NodeCapability) :=
  match jfind (str "capability") item with
  | None => Some None
  | Some c => capability_from_json c
  end.

(** [std::to_string] of a signed integer. *)
Definition to_string_signed (z : Z) : bytes :=
  if z <? 0 then str "-" ++ to_string (- z) else to_string z.

Definition hello_signing_payload (n : NodeAddress) (target_id : KcpConv) (timestamp_ms : Z)
    (nonce_hex : bytes) : bytes :=
  str "iota-discovery-v1" ++ [x0a] ++
  convid_to_hex target_id ++ [x0a] ++
  convid_to_hex (node_id n) ++ [x0a] ++
  host (endpoint n) ++ [x0a] ++
  to_string (port (endpoint n)) ++ [x0a] ++
  to_string_signed timestamp_ms ++ [x0a] ++
  nonce_hex.

(** ** The service *)

(** [struct DiscoveryConfig] *)
Record DiscoveryConfig := mkDiscoveryConfig {
  identity : NodeIdentity;
  local_endpoint : Ipv4Endpoint;
  bootstrap_nodes : list NodeAddress;
  discovery_max_kcp_links : Z;
  listen_backlog : Z;
  route_feeler_interval_seconds : Z;
  route_table_file : bytes;
  route_manager : RouteManagerConfig;
}.

(** What leaves the service. *)
Inductive Event :=
  | EvSend (data : bytes)
  | EvClose
  | EvBroadcast (payload : bytes)
  | EvLink (peer : NodeAddress) (conv : KcpConv)
  | EvAdmission (peer : NodeAddress).

(** [running] is [running_] as [start] and [stop] see it; [events] are in reverse order. *)
Record DState := mkDState {
  routes_ : RouteManager;
  running : bool;
  files : gmap bytes bytes;
  ticks : nat;
  events : list Event;
}.

(** The callbacks are [None] while they are not set. *)
Record DiscoveryEnv := mkDiscoveryEnv {
  env_now : nat -> Z;
  env_running : nat -> bool;
  env_rand : nat -> option bytes;                (* [RAND_bytes] of 32 bytes *)
  env_evp : nat -> EvpEnv;
  env_fs : nat -> FsEnv;
  env_listen : nat -> bool;
  env_send : nat -> list SendResult;
  env_connect : nat -> option (list RecvResult); (* [connect], with what the peer will send *)
  env_inet_pton : bytes -> option bytes;
  env_shuffle : nat -> list RouteEntry -> list RouteEntry;
  env_rng : nat -> nat -> Z;
  env_sort : nat -> list RouteEntry -> list RouteEntry;
  env_kcp_link : option (nat -> bool);
  env_admission : option (nat -> bool);
  env_capability : option (nat -> NodeCapability);
  env_broadcast : bool;
}.

Definition D (A : Type) : Type := DState -> option A * DState.

#[global] Instance D_ret : MRet D := fun A a s => (Some a, s).
#[global] Instance D_bind : MBind D := fun A B f m s =>
  match m s with
  | (Some a, s') => f a s'
  | (None, s') => (None, s')
  end.

(** The steps the functions are made of. *)
Definition lift {A} (value : option A) : D A := fun s => (value, s).

Definition ask {A} (answer : nat -> A) : D A := fun s =>
  (Some (answer (ticks s)), mkDState (routes_ s) (running s) (files s) (S (ticks s)) (events s)).

Definition emit (ev : Event) : D unit := fun s =>
  (Some tt, mkDState (routes_ s) (running s) (files s) (ticks s) (ev :: events s)).

Definition with_routes {A} (method : RouteManager -> A * RouteManager) : D A := fun s =>
  let '(a, rm) := method (routes_ s) in
  (Some a, mkDState rm (running s) (files s) (ticks s) (events s)).

Definition get {A} (f : DState -> A) : D A := fun s => (Some (f s), s).

Definition set_running (b : bool) : D unit := fun s =>
  (Some tt, mkDState (routes_ s) b (files s) (ticks s) (events s)).

Definition set_files (fs : gmap bytes bytes) : D unit := fun s =>
  (Some tt, mkDState (routes_ s) (running s) fs (ticks s) (events s)).

(** [derive_kcp_convid]; [inet_pton] as in [make_sockaddr]. *)
Definition encode_ipv4_endpoint_half (inet_pton : bytes -> option bytes) (e : Ipv4Endpoint) : bytes :=
  (match inet_pton (host e) with Some addr => addr | None => replicate 4 x00 end) ++
  [to_byte (Z.land (Z.shiftr (port e) 8) 0xff); to_byte (Z.land (port e) 0xff)] ++ replicate 10 x00.

Definition derive_kcp_convid (inet_pton : bytes -> option bytes) (peer local : Ipv4Endpoint) : KcpConv :=
  mkConv (encode_ipv4_endpoint_half inet_pton peer ++ encode_ipv4_endpoint_half inet_pton local).

Definition self_node (config : DiscoveryConfig) : NodeAddress :=
  {| endpoint := local_endpoint config; node_id := identity_id (identity config) |}.

Definition route_manager_config (config : DiscoveryConfig) : RouteManagerConfig :=
  let c := route_manager config in
  {| max_routes := max_routes c; max_kcp_links := discovery_max_kcp_links config;
     max_response_routes := max_response_routes c; max_response_percent := max_response_percent c;
     retry_backoff_seconds := retry_backoff_seconds c; stale_after_seconds := stale_after_seconds c;
     give_up_attempts := give_up_attempts c; bad_failure_threshold := bad_failure_threshold c;
     max_route_hops := max_route_hops c;
     capability_stale_after_seconds := capability_stale_after_seconds c |}.

(** The constructor. *)
Definition discovery_init (config : DiscoveryConfig) (fs : gmap bytes bytes) : DState :=
  mkDState (route_manager_init (route_manager_config config)) false fs 0 [].

(** [std::sort]'s comparison in [bootstrap_loop]. *)
Definition bootstrap_before (lhs rhs : RouteEntry) : bool :=
  if negb (bool_decide (state lhs = state rhs)) then bool_decide (state lhs = RouteState.Tried)
  else last_success_ms rhs <? last_success_ms lhs.

Section service.
Context {order : IterOrder KcpConv RouteEntry} (pow : double -> double -> double).
Context `{JsonApi} `{JsonFileApi} `{Ed25519}.
Context (env : DiscoveryEnv) (cfg : DiscoveryConfig).

Definition route_time_now_ms : D Z := ask (env_now env).

Definition write_json_line (doc : json) : D bool :=
  script ← ask (env_send env);
  let '(ok, sent) := write_all script (json_dump doc ++ [x0a]) in
  emit (EvSend sent);;
  mret ok.

Definition local_capability : D NodeCapability :=
  match env_capability env with
  | Some provider =>
      c ← ask provider;
      updated ← (if updated_at_ms c =? 0 then route_time_now_ms else mret (updated_at_ms c));
      mret (mkCapability true (accepting_ingress c) (cap_max_kcp_links c) (cap_current_kcp_links c)
              (cap_max_ingress_streams c) (cap_current_ingress_streams c)
              (cap_max_ingress_bytes_per_second c) (cap_current_ingress_bytes_per_second c) updated)
  | None =>
      updated ← route_time_now_ms;
      mret (mkCapability true true 0 0 0 0 0 0 updated)
  end.

(** The signed message, or [None] for [false]. *)
Definition attach_hello_signature (hello : json) (n : NodeAddress) (target_id : KcpConv) : D (option json) :=
  rand ← ask (env_rand env);
  match rand with
  | None => mret None
  | Some nonce =>
      timestamp_ms ← route_time_now_ms;
      let nonce_hex := hex_256 nonce in
      let payload := hello_signing_payload n target_id timestamp_ms nonce_hex in
      evp ← ask (env_evp env);
      match sign_node_message evp (private_key (key_pair (identity cfg))) payload with
      | inl _ => mret None
      | inr signature =>
          let hello := jset (str "timestamp_ms") (JInt timestamp_ms) hello in
          let hello := jset (str "nonce") (JString nonce_hex) hello in
          mret (Some (jset (str "signature") (JString (hex_512 signature)) hello))
      end
  end.

Definition find_integer (key : bytes) (doc : json) : option Z :=
  v ← jfind key doc;
  if is_number_integer v then get_i64 v else None.

Definition verify_hello_signature (hello : json) (peer : NodeAddress) : D bool :=
  match find_integer (str "timestamp_ms") hello, find_string (str "nonce") hello,
        find_string (str "signature") hello with
  | Some timestamp_ms, Some nonce_hex, Some signature_hex =>
      now_ms ← route_time_now_ms;
      if (timestamp_ms <? now_ms - kHelloClockSkewMs) || (now_ms + kHelloClockSkewMs <? timestamp_ms)
      then mret false
      else
        match parse_hex_256 nonce_hex, parse_hex_512 signature_hex, public_key_from_node_id (node_id peer) with
        | Some _, Some signature, Some pk =>
            let payload := hello_signing_payload peer (identity_id (identity cfg)) timestamp_ms nonce_hex in
            evp ← ask (env_evp env);
            mret (match verify_node_message evp pk payload signature with inl _ => false | inr _ => true end)
        | _, _, _ => mret false
        end
  | _, _, _ => mret false
  end.

(** [DiscoveryService::add_route] *)
Definition service_add_route (n : NodeAddress) (src : option NodeAddress) (connected : bool)
    (advertised_hop_count : Z) (cap : option NodeCapability) : D bool :=
  if str_empty (host (endpoint n)) || (port (endpoint n) =? 0) || conv_empty (node_id n) ||
     conv_eqb (node_id n) (identity_id (identity cfg))
  then mret false
  else
    now_ms ← route_time_now_ms;
    with_routes (add_route pow now_ms n src connected advertised_hop_count cap).

Definition service_mark_attempt (id : KcpConv) : D bool :=
  now_ms ← route_time_now_ms; with_routes (mark_attempt now_ms id).
Definition service_mark_success (id : KcpConv) (connected : bool) : D bool :=
  now_ms ← route_time_now_ms; with_routes (mark_success now_ms id connected).
Definition service_mark_failure (id : KcpConv) : D bool :=
  now_ms ← route_time_now_ms; with_routes (mark_failure now_ms id).

Definition announce_route (route : RouteEntry) : D unit :=
  if negb (env_broadcast env) then mret tt
  else
    let message := jset (str "type") (JString (str "node")) JNull in
    let message := jset (str "node") (route_to_json route) message in
    emit (EvBroadcast (json_dump message)).

Definition send_routes : D unit :=
  now_ms ← route_time_now_ms;
  shuffle ← ask (env_shuffle env);
  snapshot ← get (fun s => select_routes_for_response shuffle now_ms (routes_ s));
  let message := jset (str "type") (JString (str "routes")) JNull in
  let entries :=
    foldl (fun entries e =>
             if conv_eqb (node_id (node e)) (identity_id (identity cfg)) then entries
             else push_back (route_to_json e) entries) (JArray []) snapshot in
  write_json_line (jset (str "entries") entries message);;
  mret tt.

(** [kcp_link_callback_(peer, conv)] *)
Definition call_kcp_link (callback : nat -> bool) (peer : NodeAddress) (conv : KcpConv) : D bool :=
  emit (EvLink peer conv);; ask callback.

Definition announce_connected (peer : NodeAddress) : D unit :=
  connected ← get (fun s => find_route (node_id peer) (routes_ s));
  match connected with
  | Some e => announce_route e
  | None => mret tt
  end.

Definition negotiate_kcp_link (peer : NodeAddress) : D bool :=
  can ← get (fun s => can_add_kcp_link (routes_ s));
  if negb can then mret false
  else
    admitted ← match env_admission env with
               | Some callback => emit (EvAdmission peer);; ask callback
               | None => mret true
               end;
    if negb admitted then
      let message := jset (str "type") (JString (str "admission_rejected")) JNull in
      let message := jset (str "reason") (JString (str "kcp capacity exhausted")) message in
      write_json_line message;;
      mret false
    else
      let conv := derive_kcp_convid (env_inet_pton env) (endpoint peer) (local_endpoint cfg) in
      linked ← match env_kcp_link env with
               | Some callback => call_kcp_link callback peer conv
               | None => mret true
               end;
      if negb linked then
        service_mark_failure (node_id peer);;
        mret false
      else
        service_add_route peer None true 0 None;;
        service_mark_success (node_id peer) true;;
        announce_connected peer;;
        capability ← local_capability;
        let message := jset (str "type") (JString (str "kcp_conv")) JNull in
        let message := jset (str "node") (node_to_json (self_node cfg) (Some capability)) message in
        let message := jset (str "convid") (JString (convid_to_hex conv)) message in
        write_json_line message.

(** [peer.endpoint.host.empty() || peer.endpoint.host == "0.0.0.0"] *)
Definition unspecified_host (h : bytes) : bool := str_empty h || bool_decide (h = str "0.0.0.0").

Definition set_host (h : bytes) (n : NodeAddress) : NodeAddress :=
  {| endpoint := {| host := h; port := port (endpoint n) |}; node_id := node_id n |}.

(** What a session does once the hello of [peer] has been verified. *)
Definition accepted_session (peer : NodeAddress) (capability : option NodeCapability)
    (remote_host : bytes) : D unit :=
  let peer := if unspecified_host (host (endpoint peer)) then set_host remote_host peer else peer in
  service_add_route peer None false 0 capability;;
  send_routes;;
  negotiate_kcp_link peer;;
  emit EvClose.

(** The fixed members of a hello; [None] is an exception. *)
Definition hello_ok (hello : json) : option bool :=
  if negb (is_object hello) then Some false
  else
    type ← jvalue get_string (str "type") [] hello;
    if negb (bool_decide (type = str "hello")) then Some false
    else
      version ← jvalue get_i32 (str "version") 0 hello;
      if negb (version =? 1) then Some false
      else
        target ← jvalue get_string (str "target_public_key") [] hello;
        Some (bool_decide (target = convid_to_hex (identity_id (identity cfg)))).

Definition handle_tcp_session (input : list RecvResult) (remote_host : bytes) : D unit :=
  match (read_line input).1 ≫= json_parse with
  | None => emit EvClose
  | Some hello =>
      ok ← lift (hello_ok hello);
      if negb ok then emit EvClose
      else
        match jfind (str "node") hello with
        | None => emit EvClose
        | Some item =>
            match node_from_json item with
            | None => emit EvClose
            | Some peer =>
                capability ← lift (node_capability_from_json item);
                verified ← verify_hello_signature hello peer;
                if negb verified then emit EvClose
                else accepted_session peer capability remote_host
            end
        end
  end.

(** A node of a message, added as a route. *)
Definition add_route_item (item : json) (src : option NodeAddress) : D unit :=
  match node_from_json item with
  | None => mret tt
  | Some route =>
      capability ← lift (node_capability_from_json item);
      hops ← lift (route_hop_count_from_json item);
      service_add_route route src false hops capability;;
      mret tt
  end.

Fixpoint add_route_items (items : list json) (src : option NodeAddress) : D unit :=
  match items with
  | [] => mret tt
  | item :: items => add_route_item item src;; add_route_items items src
  end.

(** The message [kcp_conv] from [n]. *)
Definition handle_kcp_conv (message : json) (n : NodeAddress) : D unit :=
  match jfind (str "node") message with
  | None => mret tt
  | Some item =>
      match node_from_json item, find_string (str "convid") message ≫= parse_convid_hex with
      | Some peer, Some conv =>
          capability ← lift (node_capability_from_json item);
          let peer := if unspecified_host (host (endpoint peer))
                      then set_host (host (endpoint n)) peer else peer in
          let peer := if port (endpoint peer) =? 0
                      then {| endpoint := {| host := host (endpoint peer); port := port (endpoint n) |};
                              node_id := node_id peer |} else peer in
          linked ← match env_kcp_link env with
                   | Some callback => call_kcp_link callback peer conv
                   | None => mret false
                   end;
          match linked with
          | true =>
              service_add_route peer (Some n) true 0 capability;;
              service_mark_success (node_id peer) true;;
              announce_connected peer
          | false => service_mark_failure (node_id peer);; mret tt
          end
      | _, _ => mret tt
      end
  end.

(** One line from the bootstrap node [n]. *)
Definition handle_bootstrap_line (n : NodeAddress) (line : bytes) : D unit :=
  match json_parse line with
  | None => mret tt
  | Some message =>
      type ← lift (jvalue get_string (str "type") [] message);
      match bool_decide (type = str "routes"), jfind (str "entries") message with
      | true, Some (JArray items) => add_route_items items (Some n)
      | _, _ =>
          if bool_decide (type = str "node") then
            match jfind (str "node") message with
            | Some item => add_route_item item (Some n)
            | None => mret tt
            end
          else if bool_decide (type = str "kcp_conv") then handle_kcp_conv message n
          else mret tt
      end
  end.

(** [while (read_line(fd, &line))]: every turn consumes input, so [length input] turns are
    enough. *)
Fixpoint bootstrap_messages (fuel : nat) (n : NodeAddress) (input : list RecvResult) : D unit :=
  match fuel with
  | O => mret tt
  | S fuel =>
      match read_line input with
      | (None, _) => mret tt
      | (Some line, input) => handle_bootstrap_line n line;; bootstrap_messages fuel n input
      end
  end.

Definition connect_tcp (e : Ipv4Endpoint) : D (option (list RecvResult)) :=
  match make_sockaddr (env_inet_pton env) e with
  | None => mret None
  | Some _ => ask (env_connect env)
  end.

(** The hello to the node [target_id], before it is signed. *)
Definition hello_message (target_id : KcpConv) (capability : NodeCapability) : json :=
  let hello := jset (str "type") (JString (str "hello")) JNull in
  let hello := jset (str "version") (JInt 1) hello in
  let hello := jset (str "target_public_key") (JString (convid_to_hex target_id)) hello in
  jset (str "node") (node_to_json (self_node cfg) (Some capability)) hello.

Definition connect_bootstrap_node (n : NodeAddress) : D unit :=
  service_add_route n None false 0 None;;
  service_mark_attempt (node_id n);;
  connection ← connect_tcp (endpoint n);
  match connection with
  | None => service_mark_failure (node_id n);; mret tt
  | Some input =>
      let local_node := self_node cfg in
      capability ← local_capability;
      signed ← attach_hello_signature (hello_message (node_id n) capability) local_node (node_id n);
      written ← match signed with
                | Some hello => write_json_line hello
                | None => mret false
                end;
      if negb written then
        service_mark_failure (node_id n);;
        emit EvClose
      else
        service_mark_success (node_id n) false;;
        bootstrap_messages (length input) n input;;
        emit EvClose
  end.

Definition handle_control_json (payload : bytes) : D unit :=
  match json_parse payload with
  | None => mret tt
  | Some message =>
      type ← lift (jvalue get_string (str "type") [] message);
      if bool_decide (type = str "node") then
        match jfind (str "node") message with
        | Some item => add_route_item item None
        | None => mret tt
        end
      else mret tt
  end.

Definition on_kcp_control (payload : ByteView) : D unit :=
  if view_empty payload then mret tt else handle_control_json (view_bytes payload).

(** ** Threads *)

Fixpoint bootstrap_configured (nodes : list NodeAddress) : D unit :=
  match nodes with
  | [] => mret tt
  | n :: nodes =>
      go ← ask (env_running env);
      if negb go then mret tt
      else if conv_eqb (node_id n) (identity_id (identity cfg)) then bootstrap_configured nodes
      else connect_bootstrap_node n;; bootstrap_configured nodes
  end.

Fixpoint bootstrap_persisted (entries : list RouteEntry) : D unit :=
  match entries with
  | [] => mret tt
  | e :: entries =>
      go ← ask (env_running env);
      can ← get (fun s => can_add_kcp_link (routes_ s));
      if negb go || negb can then mret tt
      else if kcp_connected e || conv_eqb (node_id (node e)) (identity_id (identity cfg)) ||
              bool_decide (state e = RouteState.Bad)
      then bootstrap_persisted entries
      else connect_bootstrap_node (node e);; bootstrap_persisted entries
  end.

(** [env_sort] is [std::sort] by [bootstrap_before]. *)
Definition bootstrap_loop : D unit :=
  bootstrap_configured (bootstrap_nodes cfg);;
  persisted ← get (fun s => snapshot (routes_ s));
  sort ← ask (env_sort env);
  bootstrap_persisted (sort persisted).

(** One turn of [feeler_loop] before its wait. *)
Definition feeler_turn : D unit :=
  capability ← local_capability;
  announce_route (mkEntry (self_node cfg) NodeAddress_default capability RouteState.New false true 0 0 0 0 0 0);;
  can ← get (fun s => can_add_kcp_link (routes_ s));
  if negb can then mret tt
  else
    now_ms ← route_time_now_ms;
    rng ← ask (env_rng env);
    candidate ← get (fun s => select_for_feeler pow rng now_ms (routes_ s));
    match candidate with
    | Some e => if conv_eqb (node_id (node e)) (identity_id (identity cfg)) then mret tt
                else connect_bootstrap_node (node e)
    | None => mret tt
    end.

(** The wait: [false] when the service was stopped. *)
Fixpoint feeler_wait (seconds : nat) : D bool :=
  match seconds with
  | O => mret true
  | S seconds =>
      go ← ask (env_running env);
      if negb go then mret false else feeler_wait seconds
  end.

Definition feeler_interval : Z :=
  if route_feeler_interval_seconds cfg =? 0 then 30 else route_feeler_interval_seconds cfg.

(** At most [turns] turns of [feeler_loop]. *)
Fixpoint feeler_loop (turns : nat) : D unit :=
  match turns with
  | O => mret tt
  | S turns =>
      go ← ask (env_running env);
      if negb go then mret tt
      else
        feeler_turn;;
        on ← feeler_wait (Z.to_nat feeler_interval);
        if negb on then mret tt else feeler_loop turns
  end.

(** ** Start and stop *)

Definition load_route_table : D bool :=
  if str_empty (route_table_file cfg) then mret true
  else
    contents ← get (fun s => files s !! route_table_file cfg);
    now_ms ← route_time_now_ms;
    res ← with_routes (load_json_file pow (route_table_file cfg) contents (identity_id (identity cfg)) now_ms);
    match res with
    | FileOk => mret true
    | FileError _ => mret false
    | FileThrew => lift None
    end.

Definition save_route_table : D bool :=
  if str_empty (route_table_file cfg) then mret true
  else
    fs ← ask (env_fs env);
    saved ← get (fun s => save_json_file fs (route_table_file cfg) (identity_id (identity cfg)) (routes_ s) (files s));
    set_files saved.2;;
    match saved.1 with
    | FileOk => mret true
    | FileError _ => mret false
    | FileThrew => lift None
    end.

(** [start] up to the creation of the threads, which run [accept_loop], [bootstrap_loop] and
    [feeler_loop]. *)
Definition start : D bool :=
  already ← get running;
  match already with
  | true => mret true
  | false =>
      set_running true;;
      load_route_table;;
      capability ← local_capability;
      service_add_route (self_node cfg) None true 0 (Some capability);;
      listening ← ask (env_listen env);
      if negb listening then set_running false;; mret false
      else mret true
  end.

(** [stop] after the threads have ended. *)
Definition stop : D unit :=
  was_running ← get running;
  set_running false;;
  if negb was_running then mret tt
  else save_route_table;; mret tt.
End service.
