(* ===== verification/DiscoveryLines.v ===== *)
(** The wire format of discovery: lines over a socket, the nodes and routes of messages, the
    signed part of a hello, and the conversation id of a link. *)
From S2P Require Import Prelude KcpConv Frames Identity Double Routes RouteInvariant Json EdgeMessage FileStore RouteJson RouteJsonProofs IdentityFile Discovery.

(** ** Lines *)

(** [write_all] reports success exactly when everything was sent, and what was sent is always a
    prefix of the data. *)
Lemma write_all_spec script : forall data,
  let '(ok, sent) := write_all script data in
  sent `prefix_of` data /\ (ok = true -> sent = data).
Proof.
  induction script as [|r script IH]; intros data; destruct data as [|b data]; try by split.
  - split; [apply prefix_nil|done].
  - cbn [write_all]. destruct r as [n| |].
    + case_cond; [split; [apply prefix_nil|done]|].
      specialize (IH (drop (Z.to_nat n) (b :: data))).
      destruct (write_all script (drop (Z.to_nat n) (b :: data))) as [ok sent].
      destruct IH as [[k Hk] Hok]. split.
      * exists k. rewrite <- app_assoc, <- Hk. symmetry. apply take_drop.
      * intros Htrue. rewrite (Hok Htrue). apply take_drop.
    + apply IH.
    + split; [apply prefix_nil|done].
Qed.

Lemma read_line_loop_app line : forall acc rest,
  x0a ∉ line -> zlen acc + zlen line <= 1024 * 1024 + 1 ->
  read_line_loop ((Received <$> line) ++ Received x0a :: rest) acc = (Some (acc ++ line), rest).
Proof.
  induction line as [|c line IH]; intros acc rest Hn Hl; cbn [fmap list_fmap app read_line_loop].
  - rewrite bool_decide_eq_true_2 by done. by rewrite app_nil_r.
  - apply not_elem_of_cons in Hn as [Hc Hn]. rewrite bool_decide_eq_false_2 by congruence.
    unfold zlen in *. cbn [length] in Hl. rewrite (proj2 (Z.ltb_ge _ _)) by lia.
    rewrite IH; [by rewrite <- app_assoc|done|]. rewrite length_app. cbn. lia.
Qed.

(** A line of at most 1 MiB is read as it was written. *)
Lemma read_line_app line rest :
  x0a ∉ line -> zlen line <= 1024 * 1024 + 1 ->
  read_line ((Received <$> line) ++ Received x0a :: rest) = (Some line, rest).
Proof. intros Hn Hl. unfold read_line. apply (read_line_loop_app line []); done. Qed.

(** Reading a line consumes input. *)
Lemma read_line_loop_shorter input : forall acc line rest,
  read_line_loop input acc = (Some line, rest) -> (length rest < length input)%nat.
Proof.
  induction input as [|r input IH]; intros acc line rest; cbn [read_line_loop]; [done|].
  destruct r as [c| | |].
  - case_cond; [intros [= _ <-]; cbn; lia|]. case_cond; [done|]. intros Hr%IH. cbn. lia.
  - case_cond; [done|]. intros [= _ <-]. cbn. lia.
  - intros Hr%IH. cbn. lia.
  - done.
Qed.

(** A line is never longer than the limit. *)
Lemma read_line_loop_bound input : forall acc line rest,
  zlen acc <= 1024 * 1024 + 1 -> read_line_loop input acc = (Some line, rest) ->
  zlen line <= 1024 * 1024 + 1.
Proof.
  induction input as [|r input IH]; intros acc line rest Ha; cbn [read_line_loop]; [done|].
  destruct r as [c| | |].
  - case_cond; [by intros [= <- _]|]. case_cond; [done|]. bool_norm. apply IH.
    unfold zlen in *. rewrite length_app. cbn. lia.
  - case_cond; [done|]. by intros [= <- _].
  - by apply IH.
  - done.
Qed.

(** ** Nodes and routes in messages *)

Lemma node_to_json_members n cap :
  is_object (node_to_json n cap) = true
  /\ jfind (str "host") (node_to_json n cap) = Some (JString (host (endpoint n)))
  /\ jfind (str "port") (node_to_json n cap) = Some (JUnsigned (port (endpoint n)))
  /\ jfind (str "public_key") (node_to_json n cap) = Some (JString (convid_to_hex (node_id n)))
  /\ jfind (str "capability") (node_to_json n cap)
     = (c ← cap; if present c then Some (capability_to_json c) else None).
Proof. destruct cap as [c|]; cbn [node_to_json]; [destruct (present c) eqn:E|]; cbn [mbind option_bind]; rewrite ?E; split_and!; reflexivity. Qed.

Definition node_members (item : json) (n : NodeAddress) (cap : option NodeCapability) : Prop :=
  is_object item = true
  /\ jfind (str "host") item = Some (JString (host (endpoint n)))
  /\ jfind (str "port") item = Some (JUnsigned (port (endpoint n)))
  /\ jfind (str "public_key") item = Some (JString (convid_to_hex (node_id n)))
  /\ option_Forall2 (fun c item => json_sim (capability_to_json c) item)
       (c ← cap; if present c then Some c else None) (jfind (str "capability") item).

Lemma node_members_sim n cap doc item :
  is_object doc = true ->
  (forall key, key = str "host" \/ key = str "port" \/ key = str "public_key" \/ key = str "capability" ->
     jfind key doc = jfind key (node_to_json n cap)) ->
  json_sim doc item -> node_members item n cap.
Proof.
  intros Ho Hk Hs. destruct (node_to_json_members n cap) as (_ & Hh & Hp & Hi & Hc).
  unfold node_members. rewrite (json_sim_object _ _ Hs).
  split_and!; [done|eapply sim_plain; [exact Hs| |done]..|].
  - rewrite Hk by auto. exact Hh.
  - rewrite Hk by auto. exact Hp.
  - rewrite Hk by auto. exact Hi.
  - rewrite <- (Hk _ ltac:(auto)) in Hc. pose proof (json_sim_find _ _ (str "capability") Hs) as Hf.
    rewrite Hc in Hf. destruct cap as [c|]; cbn [mbind option_bind] in *; [|inversion Hf; constructor].
    destruct (present c); cbn in *; inversion Hf; subst; constructor; done.
Qed.

Lemma node_from_members item n cap :
  node_range n -> node_members item n cap -> node_from_json item = Some n.
Proof.
  intros (Hp & Hwf & He) (_ & Eh & Ep & Ei & _). unfold node_from_json, find_string, find_port.
  rewrite Eh, Ep, Ei. cbn. rewrite (wrap_id 32) by (split; lia). rewrite (wrap_id 16) by (split; lia).
  destruct (Z.eqb_spec (port (endpoint n)) 0); [lia|].
  destruct (Z.ltb_spec 65535 (port (endpoint n))); [lia|]. cbn.
  rewrite parse_convid_print by done. by destruct n as [[]].
Qed.

Lemma jvalue_ull_sim doc doc' key z fallback :
  json_sim doc doc' -> is_object doc = true -> jfind key doc = Some (JUnsigned z) -> fits 64 z ->
  jvalue get_ull key fallback doc' = Some z.
Proof.
  intros Hs Ho Hk Hz. rewrite (jvalue_sim get_ull key fallback doc doc' Hs Ho).
  - destruct doc; try done. cbn in *. rewrite Hk. cbn. by rewrite wrap_id.
  - intros v v' Hv. apply (get_sim _ _ Hv).
Qed.

Lemma capability_roundtrip c item :
  present c = true -> cap_range c -> json_sim (capability_to_json c) item ->
  capability_from_json item = Some (Some c).
Proof.
  intros Hp [] Hs. unfold capability_from_json. rewrite (json_sim_object _ _ Hs).
  change (is_object (capability_to_json c)) with true. cbn [negb].
  rewrite (jvalue_sim get_bool _ _ _ _ Hs) by (done || intros ? ? Hv; apply (get_sim _ _ Hv)).
  change (jvalue get_bool (str "accepting_ingress") true (capability_to_json c))
    with (Some (accepting_ingress c)). cbn [mbind option_bind].
  rewrite (jvalue_ull_sim _ _ (str "max_kcp_links") (cap_max_kcp_links c) _ Hs eq_refl eq_refl) by done.
  rewrite (jvalue_ull_sim _ _ (str "current_kcp_links") (cap_current_kcp_links c) _ Hs eq_refl eq_refl) by done.
  rewrite (jvalue_ull_sim _ _ (str "max_ingress_streams") (cap_max_ingress_streams c) _ Hs eq_refl eq_refl) by done.
  rewrite (jvalue_ull_sim _ _ (str "current_ingress_streams") (cap_current_ingress_streams c) _ Hs eq_refl eq_refl) by done.
  rewrite (jvalue_ull_sim _ _ (str "max_ingress_bytes_per_second") (cap_max_ingress_bytes_per_second c) _ Hs eq_refl eq_refl) by done.
  rewrite (jvalue_ull_sim _ _ (str "current_ingress_bytes_per_second") (cap_current_ingress_bytes_per_second c) _ Hs eq_refl eq_refl) by done.
  rewrite (jvalue_int_sim get_ll _ _ (str "updated_at_ms") (updated_at_ms c) _ Hs) by (done || auto).
  cbn [mbind option_bind]. destruct c; cbn in *. by subst.
Qed.

(** What a receiver takes of a capability. *)
Definition sent_capability (cap : option NodeCapability) : option NodeCapability :=
  c ← cap; if present c then Some c else None.

Lemma capability_from_members item n cap :
  (forall c, cap = Some c -> present c = true -> cap_range c) -> node_members item n cap ->
  node_capability_from_json item = Some (sent_capability cap).
Proof.
  intros Hr (_ & _ & _ & _ & Hc). unfold node_capability_from_json, sent_capability.
  destruct cap as [c|]; cbn [mbind option_bind] in *; [|by inversion Hc].
  destruct (present c) eqn:Hp; inversion Hc as [? ? Hs|]; [|done]. subst.
  by apply capability_roundtrip; [|apply Hr|].
Qed.

(** ** The signed part of a hello *)

(** The last separator of a text splits it in one way only. *)
Lemma split_last (x : byte) a a' b b' :
  x ∉ b -> x ∉ b' -> a ++ x :: b = a' ++ x :: b' -> a = a' /\ b = b'.
Proof.
  revert a'. induction a as [|y a IH]; intros [|y' a'] Hb Hb' E; cbn in E.
  - by injection E.
  - injection E as -> ->. set_solver.
  - injection E as -> <-. set_solver.
  - injection E as -> E. destruct (IH a' Hb Hb' E) as [-> ->]. done.
Qed.

Lemma digits_no c ds :
  Forall (fun d => 0 <= d < 10) ds -> is_digit c = false -> c ∉ (digit <$> ds).
Proof.
  intros Hds Hc (d & -> & Hin)%list_elem_of_fmap. rewrite Forall_forall in Hds.
  destruct (digit_props d (Hds d Hin)) as (_ & Hd & _). congruence.
Qed.

Lemma to_string_no c z : fits 64 z -> is_digit c = false -> c ∉ to_string z.
Proof.
  intros Hz Hc. destruct (to_string_spec z Hz) as (ds & -> & _ & Hds & _). by apply digits_no.
Qed.

Lemma to_string_inj z z' : fits 64 z -> fits 64 z' -> to_string z = to_string z' -> z = z'.
Proof.
  intros Hz Hz' E. apply strtoul10_to_string in Hz, Hz'. rewrite E in Hz. congruence.
Qed.

Lemma to_string_signed_no z : fits_i64 z -> x0a ∉ to_string_signed z.
Proof.
  intros Hz. unfold to_string_signed, fits_i64 in *. case_cond; bool_norm.
  - apply not_elem_of_app. split; [by apply (bool_decide_unpack _); vm_compute|].
    apply to_string_no; [split; lia|done].
  - apply to_string_no; [split; lia|done].
Qed.

Lemma to_string_signed_inj z z' :
  fits_i64 z -> fits_i64 z' -> to_string_signed z = to_string_signed z' -> z = z'.
Proof.
  intros Hz Hz'. unfold to_string_signed, fits_i64 in *. change (str "-") with [x2d].
  assert (forall w t, fits 64 w -> to_string w = x2d :: t -> False) as Hno.
  { intros w t Hw E. apply (to_string_no x2d w Hw eq_refl). rewrite E. set_solver. }
  repeat case_cond; bool_norm; cbn [app]; intros Hq.
  - injection Hq as Hq. apply to_string_inj in Hq; unfold fits; lia.
  - exfalso. eapply (Hno z'); [split; lia|by symmetry].
  - exfalso. eapply (Hno z); [split; lia|exact Hq].
  - apply to_string_inj in Hq; unfold fits; lia.
Qed.

Lemma convid_to_hex_inj a b : conv_wf a -> conv_wf b -> convid_to_hex a = convid_to_hex b -> a = b.
Proof.
  destruct a as [a], b as [b]. unfold conv_wf, convid_to_hex, hex_256. cbn. intros Ha Hb E. f_equal.
  pose proof (parse_hex_n_hex a) as Pa. pose proof (parse_hex_n_hex b) as Pb.
  rewrite Ha in Pa. rewrite Hb in Pb. rewrite E in Pa. congruence.
Qed.

Lemma length_convid a : conv_wf a -> length (convid_to_hex a) = 64%nat.
Proof. intros Ha. unfold convid_to_hex, hex_256. rewrite length_hex, Ha. done. Qed.

(** Two hellos with the same signed text are the same hello: the signature binds the receiver, the
    sender's id, host and port, the time and the nonce (a host may contain any byte). *)
Theorem hello_signing_payload_injective n t ts nonce n' t' ts' nonce' :
  conv_wf t -> conv_wf t' -> conv_wf (node_id n) -> conv_wf (node_id n') ->
  fits 16 (port (endpoint n)) -> fits 16 (port (endpoint n')) -> fits_i64 ts -> fits_i64 ts' ->
  x0a ∉ nonce -> x0a ∉ nonce' ->
  hello_signing_payload n t ts nonce = hello_signing_payload n' t' ts' nonce' ->
  n = n' /\ t = t' /\ ts = ts' /\ nonce = nonce'.
Proof.
  intros Ht Ht' Hi Hi' Hp Hp' Hs Hs' Hn Hn'. unfold hello_signing_payload. cbn [app].
  intros E. apply app_inj_1 in E as [_ E]; [|done]. injection E as E.
  apply app_inj_1 in E as [Et E]; [|by rewrite !length_convid]. injection E as E.
  apply app_inj_1 in E as [Ei E]; [|by rewrite !length_convid]. injection E as E.
  apply convid_to_hex_inj in Et; [|done..]. apply convid_to_hex_inj in Ei; [|done..].
  assert (forall h p s nn, h ++ x0a :: p ++ x0a :: s ++ x0a :: nn
    = ((h ++ x0a :: p) ++ x0a :: s) ++ x0a :: nn) as Hassoc by (intros; by rewrite <- !app_assoc).
  rewrite !Hassoc in E. apply split_last in E as [E En]; [|done..].
  apply split_last in E as [E Es]; [|by apply to_string_signed_no..].
  apply split_last in E as [Eh Ep]; [|apply to_string_no; [unfold fits in *; lia|done]..].
  apply to_string_signed_inj in Es; [|done..]. apply to_string_inj in Ep; [|unfold fits in *; lia..].
  destruct n as [[]], n' as [[]]; cbn in *. by subst.
Qed.

(** ** Conversation ids *)

(** [inet_pton] returns the four bytes of a dotted address. *)
Lemma length_half inet_pton e :
  (forall text addr, inet_pton text = Some addr -> length addr = 4%nat) ->
  length (encode_ipv4_endpoint_half inet_pton e) = 16%nat.
Proof.
  intros Hi. unfold encode_ipv4_endpoint_half. rewrite !length_app, length_replicate.
  destruct (inet_pton (host e)) as [a|] eqn:E; [rewrite (Hi _ _ E)|]; done.
Qed.

Lemma land_ff z : Z.land z 0xff = z mod 2 ^ 8.
Proof. change 0xff with (Z.ones 8). apply Z.land_ones. lia. Qed.

Lemma port_bytes_inj p q :
  fits 16 p -> fits 16 q ->
  to_byte (Z.land (Z.shiftr p 8) 0xff) = to_byte (Z.land (Z.shiftr q 8) 0xff) ->
  to_byte (Z.land p 0xff) = to_byte (Z.land q 0xff) -> p = q.
Proof.
  unfold fits. intros Hp Hq H1 H2. rewrite !land_ff, ?Z.shiftr_div_pow2 in * by lia.
  apply (f_equal byte_val) in H1, H2. rewrite !byte_val_to_byte in H1, H2.
  Z.div_mod_to_equations; lia.
Qed.

Lemma half_inj inet_pton e e' :
  (forall text addr, inet_pton text = Some addr -> length addr = 4%nat) ->
  is_Some (inet_pton (host e)) -> is_Some (inet_pton (host e')) ->
  fits 16 (port e) -> fits 16 (port e') ->
  encode_ipv4_endpoint_half inet_pton e = encode_ipv4_endpoint_half inet_pton e' ->
  inet_pton (host e) = inet_pton (host e') /\ port e = port e'.
Proof.
  intros Hi [a Ha] [a' Ha'] Hp Hp'. unfold encode_ipv4_endpoint_half. rewrite Ha, Ha'. intros E.
  apply app_inj_1 in E as [-> E]; [|by rewrite (Hi _ _ Ha), (Hi _ _ Ha')]. cbn [app] in E.
  split; [done|]. injection E as E1 E2. by apply port_bytes_inj.
Qed.

(** The conversation id of a link is a full 32-byte id, is not the empty one when the peer has a
    port, and determines address and port of both ends. *)
Theorem derive_kcp_convid_injective inet_pton peer local peer' local' :
  (forall text addr, inet_pton text = Some addr -> length addr = 4%nat) ->
  is_Some (inet_pton (host peer)) -> is_Some (inet_pton (host peer')) ->
  is_Some (inet_pton (host local)) -> is_Some (inet_pton (host local')) ->
  0 < port peer < 2 ^ 16 -> fits 16 (port peer') -> fits 16 (port local) -> fits 16 (port local') ->
  conv_wf (derive_kcp_convid inet_pton peer local)
  /\ conv_empty (derive_kcp_convid inet_pton peer local) = false
  /\ (derive_kcp_convid inet_pton peer local = derive_kcp_convid inet_pton peer' local' ->
      inet_pton (host peer) = inet_pton (host peer') /\ port peer = port peer'
      /\ inet_pton (host local) = inet_pton (host local') /\ port local = port local').
Proof.
  intros Hi Sp Sp' Sl Sl' Hp Hp' Hl Hl'. split_and!.
  - unfold conv_wf, derive_kcp_convid. cbn. by rewrite length_app, !length_half.
  - apply not_true_is_false. unfold conv_empty, derive_kcp_convid, encode_ipv4_endpoint_half. cbn [conv_bytes].
    rewrite !forallb_app. cbn [forallb]. intros Hz. bool_norm. rewrite !byte_val_to_byte, !land_ff in *.
    rewrite Z.shiftr_div_pow2 in * by lia. Z.div_mod_to_equations; lia.
  - intros [= E]. apply app_inj_1 in E as [E1 E2]; [|by rewrite !length_half].
    apply half_inj in E1 as [-> ->]; [|done..|unfold fits; lia|done]. by apply half_inj in E2 as [-> ->].
Qed.

(** ** Concrete messages *)

Module DiscoveryLinesDemo.
(** Dotted addresses by a table, in place of [inet_pton]. *)
Definition demo_pton (text : bytes) : option bytes :=
  if bool_decide (text = str "10.0.0.1") then Some [x0a; x00; x00; x01]
  else if bool_decide (text = str "10.0.0.2") then Some [x0a; x00; x00; x02]
  else None.

Lemma demo_pton_length text addr : demo_pton text = Some addr -> length addr = 4%nat.
Proof. unfold demo_pton. repeat case_cond; by intros [= <-]. Qed.

Definition demo_end (h : bytes) (p : Z) : Ipv4Endpoint := {| host := h; port := p |}.

Lemma derive_kcp_convid_injective_witness :
  derive_kcp_convid demo_pton (demo_end (str "10.0.0.1") 9000) (demo_end (str "10.0.0.2") 9001)
  <> derive_kcp_convid demo_pton (demo_end (str "10.0.0.1") 9000) (demo_end (str "10.0.0.2") 9002).
Proof.
  intros E. destruct (derive_kcp_convid_injective demo_pton (demo_end (str "10.0.0.1") 9000)
    (demo_end (str "10.0.0.2") 9001) (demo_end (str "10.0.0.1") 9000) (demo_end (str "10.0.0.2") 9002)
    demo_pton_length) as (_ & _ & H).
  all: try (vm_compute; eauto; fail). all: try (split; cbn; lia).
  destruct (H E) as (_ & _ & _ & Hp). discriminate Hp.
Defined.

Definition demo_sender (h : bytes) : NodeAddress :=
  {| endpoint := demo_end h 9000; node_id := from_uint32 5 |}.

(** A host with a line break does not make two different hellos look the same. *)
Lemma hello_signing_payload_injective_witness :
  hello_signing_payload (demo_sender (str "h")) (from_uint32 6) 1000 (hex_256 (replicate 32 x01))
  <> hello_signing_payload (demo_sender (str "h" ++ [x0a] ++ str "9000")) (from_uint32 6) 1000
       (hex_256 (replicate 32 x01)).
Proof.
  intros E. destruct (hello_signing_payload_injective (demo_sender (str "h")) (from_uint32 6) 1000
    (hex_256 (replicate 32 x01)) (demo_sender (str "h" ++ [x0a] ++ str "9000")) (from_uint32 6) 1000
    (hex_256 (replicate 32 x01))) as (H & _); [..|exact E|discriminate H].
  all: try reflexivity. all: try (unfold fits, fits_i64; cbn; lia).
  all: apply (bool_decide_unpack _); vm_compute; exact I.
Defined.
End DiscoveryLinesDemo.
