(* ===== verification/DiscoverySession.v ===== *)
(** The discovery handshake: what a session accepts, that an honest hello is accepted, how a
    routes message reaches the table of its receiver, and that control messages leave the links
    alone. *)
From S2P Require Import Prelude KcpConv Frames Identity Double Routes RouteInvariant Json EdgeMessage FileStore RouteJson RouteJsonProofs IdentityFile IdentityFileProofs Discovery DiscoveryLines DiscoveryProofs.

Section session.
Context {order : IterOrder KcpConv RouteEntry} (pow : double -> double -> double).
Context `{JsonApi} `{JsonFileApi} `{Ed25519}.

(** A hello of [peer] to the node [id], signed with the private key behind the id of [peer], at most
    ten minutes away from [now]. *)
Definition authentic_hello (id : KcpConv) (now : Z) (hello : json) (peer : NodeAddress) : Prop :=
  exists timestamp nonce signature,
    find_integer (str "timestamp_ms") hello = Some timestamp
    /\ find_string (str "nonce") hello = Some nonce
    /\ (find_string (str "signature") hello ≫= parse_hex_512) = Some signature
    /\ now - kHelloClockSkewMs <= timestamp <= now + kHelloClockSkewMs
    /\ conv_empty (node_id peer) = false
    /\ ed_verify (conv_bytes (node_id peer)) (hello_signing_payload peer id timestamp nonce) signature = true.

Lemma verify_node_message_ok evp pk m signature :
  verify_node_message evp pk m signature = inr tt -> ed_verify pk m signature = true.
Proof. unfold verify_node_message. do 4 (case_cond; [done|]). bool_norm. done. Qed.

Section one_node.
Context (env : DiscoveryEnv) (cfg : DiscoveryConfig).

(** [verify_hello_signature] changes nothing but the count of questions. *)
Lemma verify_hello_signature_spec hello peer s :
  exists b s', verify_hello_signature env cfg hello peer s = (Some b, s')
    /\ routes_ s' = routes_ s /\ events s' = events s
    /\ (b = true -> authentic_hello (self_id cfg) (env_now env (ticks s)) hello peer).
Proof.
  unfold verify_hello_signature.
  destruct (find_integer (str "timestamp_ms") hello) as [ts|] eqn:Ht; [|by (do 2 eexists; split_and!)].
  destruct (find_string (str "nonce") hello) as [nonce|] eqn:Hn; [|by (do 2 eexists; split_and!)].
  destruct (find_string (str "signature") hello) as [sig|] eqn:Hs; [|by (do 2 eexists; split_and!)].
  unfold mbind, D_bind, route_time_now_ms, ask. destruct (_ || _) eqn:Hfresh; [by (do 2 eexists; split_and!)|].
  destruct (parse_hex_256 nonce) as [|]; [|by (do 2 eexists; split_and!)].
  destruct (parse_hex_512 sig) as [signature|] eqn:Hsig; [|by (do 2 eexists; split_and!)].
  destruct (public_key_from_node_id (node_id peer)) as [pk|] eqn:Hpk; [|by (do 2 eexists; split_and!)].
  cbn. do 2 eexists. split; [reflexivity|]. split_and!; [done..|]. intros Hv.
  unfold public_key_from_node_id in Hpk. destruct (conv_empty (node_id peer)) eqn:He; [done|].
  injection Hpk as <-. bool_norm. exists ts, nonce, signature. split_and!; [done|done|rewrite Hs; exact Hsig|lia|lia|done|].
  eapply verify_node_message_ok.
  destruct (verify_node_message _ _ _ _) as [|[]] eqn:Ev in Hv; [done|exact Ev].
Qed.

(** [C7] A session with any input either leaves the route table as it is and sends nothing, or it has
    received a hello that names this node and is signed with the key of the peer it announces. *)
Theorem tcp_session_authentic input remote_host s :
  let s' := (handle_tcp_session pow env cfg input remote_host s).2 in
  (routes_ s' = routes_ s /\ (events s' = events s \/ events s' = EvClose :: events s))
  \/ exists hello item peer,
       ((read_line input).1 ≫= json_parse) = Some hello
       /\ jvalue get_string (str "target_public_key") [] hello = Some (convid_to_hex (self_id cfg))
       /\ jfind (str "node") hello = Some item /\ node_from_json item = Some peer
       /\ authentic_hello (self_id cfg) (env_now env (ticks s)) hello peer.
Proof.
  cbv zeta. unfold handle_tcp_session.
  destruct ((read_line input).1 ≫= json_parse) as [hello|]; [|left; split; auto].
  destruct (hello_ok cfg hello) as [ok|] eqn:Hok; [rewrite run_lift|rewrite run_throw; left; split; auto].
  destruct ok; cbn [negb]; [|left; split; auto].
  destruct (jfind (str "node") hello) as [item|] eqn:Hitem; [|left; split; auto].
  destruct (node_from_json item) as [peer|] eqn:Hpeer; [|left; split; auto].
  destruct (node_capability_from_json item) as [cap|]; [rewrite run_lift|rewrite run_throw; left; split; auto].
  destruct (verify_hello_signature_spec hello peer s) as (b & s1 & Hv & Hr & He & Ha).
  rewrite (run_bind _ _ _ _ _ Hv). destruct b; cbn [negb]; cycle 1.
  { left. split; [exact Hr|]. right. unfold emit. cbn [snd events]. by rewrite He. }
  right. exists hello, item, peer. split_and!; try done; [|by apply Ha].
  unfold hello_ok in Hok. case_cond_in Hok; [done|].
  apply bind_Some in Hok as (ty & _ & Hok). case_cond_in Hok; [done|].
  apply bind_Some in Hok as (ver & _ & Hok). case_cond_in Hok; [done|].
  apply bind_Some in Hok as (target & Ht & Hok). injection Hok as Hok. bool_norm. by subst target.
Qed.
End one_node.

(** ** An honest hello *)

Definition signed_hello (hello : json) (ts : Z) (nonce signature : bytes) : json :=
  jset (str "signature") (JString (hex_512 signature))
    (jset (str "nonce") (JString (hex_256 nonce)) (jset (str "timestamp_ms") (JInt ts) hello)).

Lemma attach_hello_signature_spec env cfg hello n target s signed s' :
  attach_hello_signature env cfg hello n target s = (Some (Some signed), s') ->
  exists nonce,
    let ts := env_now env (S (ticks s)) in
    let payload := hello_signing_payload n target ts (hex_256 nonce) in
    env_rand env (ticks s) = Some nonce
    /\ signed = signed_hello hello ts nonce (ed_sign (private_key (key_pair (identity cfg))) payload).
Proof.
  unfold attach_hello_signature. rewrite (run_bind _ _ _ (env_rand env (ticks s))
    (mkDState (routes_ s) (running s) (files s) (S (ticks s)) (events s))) by done.
  destruct (env_rand env (ticks s)) as [nonce|]; [|done]. unfold route_time_now_ms.
  erewrite run_bind by reflexivity. cbv zeta. erewrite run_bind by reflexivity.
  cbn [ticks]. unfold sign_node_message. do 4 (case_cond; [done|]).
  intros E'. exists nonce. split; [done|]. by injection E' as <- _.
Qed.

Lemma hello_message_clean cfg target cap :
  node_range (self_node cfg) -> ascii_bytes (host (endpoint (self_node cfg))) -> cap_range cap ->
  json_clean (hello_message cfg target cap).
Proof.
  intros Hn Ha Hc. unfold hello_message, node_to_json.
  assert (json_clean (capability_to_json cap)) by by apply capability_clean.
  destruct Hn as [Hp _]. destruct (present cap); solve_clean;
    try (apply clean_string, ascii_str_dec; vm_compute; reflexivity); assumption.
Qed.

Lemma signed_hello_clean hello ts nonce signature :
  json_clean hello -> json_clean (signed_hello hello ts nonce signature).
Proof.
  intros Hh. assert (forall l, ascii_bytes (l ≫= hex_byte)) by (intros l; apply hex_ascii, hex_text_ok).
  unfold signed_hello. solve_clean; try apply clean_string; done.
Qed.

(** The members of the message that is sent. *)
Lemma signed_hello_members cfg target cap ts nonce signature :
  let doc := signed_hello (hello_message cfg target cap) ts nonce signature in
  is_object doc = true
  /\ jfind (str "type") doc = Some (JString (str "hello"))
  /\ jfind (str "version") doc = Some (JInt 1)
  /\ jfind (str "target_public_key") doc = Some (JString (convid_to_hex target))
  /\ jfind (str "node") doc = Some (node_to_json (self_node cfg) (Some cap))
  /\ jfind (str "timestamp_ms") doc = Some (JInt ts)
  /\ jfind (str "nonce") doc = Some (JString (hex_256 nonce))
  /\ jfind (str "signature") doc = Some (JString (hex_512 signature)).
Proof. cbv zeta. split_and!; reflexivity. Qed.

Lemma find_integer_sim doc doc' key :
  json_sim doc doc' -> find_integer key doc' = find_integer key doc.
Proof.
  intros Hs. unfold find_integer. pose proof (json_sim_find _ _ key Hs) as Hf.
  destruct Hf as [v v' Hv|]; [|done]. cbn.
  destruct (get_sim _ _ Hv) as (_ & _ & _ & _ & Hg & _ & _ & _ & _ & Hi). by rewrite Hg, Hi.
Qed.

Lemma hello_ok_sim cfg doc doc' :
  json_sim doc doc' -> hello_ok cfg doc' = hello_ok cfg doc.
Proof.
  intros Hs. unfold hello_ok. rewrite (json_sim_object _ _ Hs).
  destruct (is_object doc) eqn:Ho; [|done]. cbn [negb].
  by rewrite !(jvalue_sim get_string _ _ _ _ Hs Ho), (jvalue_sim get_i32 _ _ _ _ Hs Ho)
    by (intros ? ? Hg; apply (get_sim _ _ Hg)).
Qed.

Lemma jvalue_found {A} (get : json -> option A) key fallback doc v :
  is_object doc = true -> jfind key doc = Some v -> jvalue get key fallback doc = get v.
Proof. destruct doc; try done. cbn. by intros _ ->. Qed.

Lemma verify_honest env cfg hello n sk nonce ts s :
  identity_id (identity_of sk) = node_id n -> length sk = 32%nat -> conv_empty (node_id n) = false ->
  length nonce = 32%nat ->
  evp_works (env_evp env (S (ticks s))) ->
  env_now env (ticks s) - kHelloClockSkewMs <= ts <= env_now env (ticks s) + kHelloClockSkewMs ->
  find_integer (str "timestamp_ms") hello = Some ts ->
  find_string (str "nonce") hello = Some (hex_256 nonce) ->
  find_string (str "signature") hello
    = Some (hex_512 (ed_sign sk (hello_signing_payload n (self_id cfg) ts (hex_256 nonce)))) ->
  verify_hello_signature env cfg hello n s
  = (Some true, mkDState (routes_ s) (running s) (files s) (S (S (ticks s))) (events s)).
Proof.
  intros Hid Hsk Hne Hnonce Hevp Hts Ft Fn Fs. unfold verify_hello_signature. rewrite Ft, Fn, Fs.
  unfold route_time_now_ms. erewrite run_bind by reflexivity.
  destruct (_ || _) eqn:Hf; [apply orb_true_iff in Hf as [Hf|Hf]; apply Z.ltb_lt in Hf; lia|].
  set (payload := hello_signing_payload n (self_id cfg) ts (hex_256 nonce)) in *.
  assert (parse_hex_256 (hex_256 nonce) = Some nonce) as ->
    by (unfold parse_hex_256; rewrite <- Hnonce; apply parse_hex_n_hex).
  assert (parse_hex_512 (hex_512 (ed_sign sk payload)) = Some (ed_sign sk payload)) as ->
    by (unfold parse_hex_512; rewrite <- (ed_sign_length sk payload); apply parse_hex_n_hex).
  unfold public_key_from_node_id. rewrite Hne. cbv zeta. erewrite run_bind by reflexivity. cbn [ticks].
  destruct (sign_verify _ sk payload Hevp Hsk ltac:(by rewrite Hid)) as (sig & Hsig & _ & _ & Hv).
  assert (sig = ed_sign sk payload) as ->.
  { unfold sign_node_message in Hsig. repeat case_cond_in Hsig; by inversion Hsig. }
  rewrite <- Hid. cbn [identity_id identity_of conv_bytes]. fold payload. fold (self_id cfg). fold payload.
  by rewrite Hv.
Qed.

(** [C8] The hello a node sends to another is accepted there, if their clocks differ by at most ten
    minutes: the session of the receiver adds the sender, with the capability it announced, answers
    with routes and negotiates a link. *)
Theorem honest_hello_accepted envA cfgA envB cfgB sk cap sA sA' signed remote_host rest s :
  identity cfgA = identity_of sk -> length sk = 32%nat ->
  (forall t nonce, env_rand envA t = Some nonce -> length nonce = 32%nat) ->
  node_range (self_node cfgA) -> ascii_bytes (host (local_endpoint cfgA)) ->
  present cap = true -> cap_range cap ->
  attach_hello_signature envA cfgA (hello_message cfgA (self_id cfgB) cap) (self_node cfgA) (self_id cfgB) sA
    = (Some (Some signed), sA') ->
  fits_i64 (env_now envA (S (ticks sA))) ->
  Z.abs (env_now envA (S (ticks sA)) - env_now envB (ticks s)) <= kHelloClockSkewMs ->
  evp_works (env_evp envB (S (ticks s))) ->
  zlen (json_dump signed) <= 1024 * 1024 + 1 ->
  handle_tcp_session pow envB cfgB ((Received <$> json_dump signed) ++ Received x0a :: rest) remote_host s
  = accepted_session pow envB cfgB (self_node cfgA) (Some cap) remote_host
      (mkDState (routes_ s) (running s) (files s) (S (S (ticks s))) (events s)).
Proof.
  intros Hid Hsk Hrand Hn Ha Hp Hc Hsign Hts Hskew Hevp Hlen.
  apply attach_hello_signature_spec in Hsign as (nonce & Hnonce & ->). apply Hrand in Hnonce.
  set (ts := env_now envA (S (ticks sA))) in *. rewrite Hid in Hlen |- *. cbn [key_pair private_key identity_of] in Hlen |- *.
  set (sig := ed_sign sk _) in *. set (doc := signed_hello _ _ _ sig) in *.
  assert (json_clean doc) as [Hwf Hascii] by (by apply signed_hello_clean, hello_message_clean).
  destruct (json_roundtrip doc Hwf Hascii) as (hello & Hparse & Hs).
  destruct (signed_hello_members cfgA (self_id cfgB) cap ts nonce sig) as (Ho & Mty & Mve & Mta & Mno & Mts & Mnn & Msi).
  fold doc in Ho, Mty, Mve, Mta, Mno, Mts, Mnn, Msi.
  unfold handle_tcp_session. rewrite read_line_app by (done || apply json_dump_line).
  cbn [fst mbind option_bind]. rewrite Hparse, (hello_ok_sim _ _ _ Hs).
  assert (hello_ok cfgB doc = Some true) as ->.
  { unfold hello_ok. rewrite Ho, (jvalue_found _ _ _ _ _ Ho Mty). cbn [negb get_string mbind option_bind].
    rewrite bool_decide_eq_true_2, (jvalue_found _ _ _ _ _ Ho Mve) by done. cbn [negb mbind option_bind].
    rewrite (jvalue_found _ _ _ _ _ Ho Mta). cbn. by rewrite bool_decide_eq_true_2. }
  rewrite run_lift. cbn [negb]. destruct (sim_member _ _ _ _ Hs Mno) as (item & -> & Hitem).
  pose proof (node_members_sim (self_node cfgA) (Some cap) _ item
    (proj1 (node_to_json_members _ _)) (fun _ _ => eq_refl) Hitem) as Hm.
  rewrite (node_from_members _ _ _ Hn Hm).
  assert (forall c, Some cap = Some c -> present c = true -> cap_range c) as Hcr by (by intros c [= <-]).
  rewrite (capability_from_members _ _ _ Hcr Hm), run_lift.
  unfold sent_capability. cbn [mbind option_bind]. rewrite Hp.
  destruct Hn as (_ & _ & Hne).
  rewrite (run_bind _ _ _ _ _ (verify_honest envB cfgB hello (self_node cfgA) sk nonce ts s
    ltac:(cbn; by rewrite Hid) Hsk Hne Hnonce Hevp ltac:(lia)
    ltac:(rewrite (find_integer_sim _ _ _ Hs); unfold find_integer; rewrite Mts; cbn; by rewrite to_i64_id)
    ltac:(rewrite (sim_string_of _ _ _ Hs); unfold find_string; by rewrite Mnn)
    ltac:(rewrite (sim_string_of _ _ _ Hs); unfold find_string; by rewrite Msi))).
  done.
Qed.

(** ** Routes messages *)

Definition routes_message (cfg : DiscoveryConfig) (entries : list RouteEntry) : json :=
  jset (str "entries")
    (foldl (fun acc e => if conv_eqb (node_id (node e)) (self_id cfg) then acc
                         else push_back (route_to_json e) acc) (JArray []) entries)
    (jset (str "type") (JString (str "routes")) JNull).

(** What a receiver does with the routes of [n]. *)
Fixpoint add_entries (env : DiscoveryEnv) (cfg : DiscoveryConfig) (n : NodeAddress)
    (entries : list RouteEntry) : D unit :=
  match entries with
  | [] => mret tt
  | e :: entries =>
      service_add_route pow env cfg (node e) (Some n) false (hop_count e) (sent_capability (Some (capability e)));;
      add_entries env cfg n entries
  end.

Definition not_sender (cfg : DiscoveryConfig) (entries : list RouteEntry) : list RouteEntry :=
  filter (fun e => conv_eqb (node_id (node e)) (self_id cfg) = false) entries.

Lemma push_back_routes cfg entries acc :
  foldl (fun acc e => if conv_eqb (node_id (node e)) (self_id cfg) then acc
                      else push_back (route_to_json e) acc) (JArray acc) entries
  = JArray (acc ++ (route_to_json <$> not_sender cfg entries)).
Proof.
  unfold not_sender. revert acc. induction entries as [|e es IH]; intros acc; cbn [foldl]; [by rewrite app_nil_r|].
  rewrite filter_cons. destruct (conv_eqb (node_id (node e)) (self_id cfg)) eqn:E.
  - rewrite IH, decide_False by done. done.
  - cbn [push_back]. rewrite IH, decide_True by done. by rewrite <- app_assoc.
Qed.

Lemma route_to_json_members e item :
  fits 8 (hop_count e) -> json_sim (route_to_json e) item ->
  node_members item (node e) (Some (capability e))
  /\ route_hop_count_from_json item = Some (hop_count e).
Proof.
  intros Hh Hs. split.
  - eapply node_members_sim; [|clear Hs|exact Hs]; [unfold route_to_json; apply is_object_jset|].
    intros key Hk. unfold route_to_json.
    rewrite jfind_jset by (left; apply node_to_json_members).
    rewrite bool_decide_eq_false_2; [done|]. by destruct Hk as [->|[->|[->| ->]]].
  - unfold route_hop_count_from_json. unfold fits in Hh.
    rewrite (jvalue_u32_sim (route_to_json e) item (str "hop_count") (hop_count e) 0 Hs).
    + cbn [mbind option_bind]. unfold u8_max. by rewrite Z.min_l, wrap_id by (unfold fits; lia).
    + unfold route_to_json. apply is_object_jset.
    + unfold route_to_json. rewrite jfind_jset by (left; apply node_to_json_members).
      by rewrite bool_decide_eq_true_2.
    + unfold fits. lia.
Qed.

Lemma add_route_items_entries env cfg n entries : forall items s,
  Forall (fun e => entry_range e /\ fits 8 (hop_count e)) entries ->
  Forall2 json_sim (route_to_json <$> entries) items ->
  add_route_items pow env cfg items (Some n) s = add_entries env cfg n entries s.
Proof.
  induction entries as [|e es IH]; intros items s Hes Hs; inversion Hs as [|? item ? items' Hi Hs']; subst; [done|].
  inversion Hes as [|? ? [Hr Hh] Hes']; subst. cbn [add_route_items add_entries].
  destruct (route_to_json_members e item Hh Hi) as [Hm Hhops].
  unfold mbind, D_bind. unfold add_route_item.
  rewrite (node_from_members _ _ _ (er_node _ Hr) Hm).
  assert (forall c, Some (capability e) = Some c -> present c = true -> cap_range c) as Hcr
    by (intros c [= <-]; apply (er_capability _ Hr)).
  rewrite (capability_from_members _ _ _ Hcr Hm), Hhops, !run_lift. unfold mbind, D_bind.
  destruct (service_add_route pow env cfg _ _ _ _ _ s) as [[b|] s']; [|done]. cbn. by apply IH.
Qed.

Lemma node_json_clean n cap :
  node_range n -> ascii_bytes (host (endpoint n)) -> (present cap = true -> cap_range cap) ->
  json_clean (node_to_json n (Some cap)).
Proof.
  intros [Hp _] Ha Hc. unfold node_to_json. destruct (present cap); solve_clean.
  apply capability_clean. auto.
Qed.

Lemma routes_message_clean cfg entries :
  Forall (fun e => entry_range e /\ fits 8 (hop_count e)) entries -> json_clean (routes_message cfg entries).
Proof.
  intros He. unfold routes_message. rewrite push_back_routes. cbn [app].
  apply clean_jset; [vm_compute; reflexivity| |].
  - apply clean_array, Forall_fmap, Forall_forall. intros e [_ Hin]%list_elem_of_filter.
    rewrite Forall_forall in He. destruct (He e Hin) as [[] Hh]. cbn. unfold route_to_json.
    apply clean_jset; [vm_compute; reflexivity|apply clean_unsigned; apply Hh|by apply node_json_clean].
  - apply clean_jset; [vm_compute; reflexivity| |apply clean_null].
    apply clean_string, ascii_str_dec. vm_compute. reflexivity.
Qed.

Lemma routes_message_received env cfgA cfgB n entries s :
  Forall (fun e => entry_range e /\ fits 8 (hop_count e)) entries ->
  handle_bootstrap_line pow env cfgA n (json_dump (routes_message cfgB entries)) s
  = add_entries env cfgA n (not_sender cfgB entries) s.
Proof.
  intros He. destruct (routes_message_clean cfgB entries He) as [Hwf Ha].
  destruct (json_roundtrip _ Hwf Ha) as (message & Hparse & Hs).
  assert (is_object (routes_message cfgB entries) = true) as Ho by apply is_object_jset.
  assert (jfind (str "type") (routes_message cfgB entries) = Some (JString (str "routes"))) as Mt
    by reflexivity.
  assert (jfind (str "entries") (routes_message cfgB entries)
          = Some (JArray (route_to_json <$> not_sender cfgB entries))) as Me.
  { unfold routes_message. rewrite push_back_routes. reflexivity. }
  unfold handle_bootstrap_line. rewrite Hparse, (jvalue_string_sim _ _ _ _ _ Hs Ho Mt), run_lift.
  rewrite bool_decide_eq_true_2 by done. destruct (sim_member _ _ _ _ Hs Me) as (arr & -> & Harr).
  inversion Harr as [| | | | | |l l' Hl|]; subst. apply add_route_items_entries; [|done].
  unfold not_sender. apply Forall_forall. intros e [_ Hin]%list_elem_of_filter.
  rewrite Forall_forall in He. by apply He.
Qed.

Lemma elem_of_response shuffle now rm e :
  (forall l, shuffle l ≡ₚ l) -> e ∈ select_routes_for_response shuffle now rm ->
  exists id, routes rm !! id = Some e.
Proof.
  intros Hsh He. unfold select_routes_for_response in He.
  destruct (response_candidates now rm) as [|c cs] eqn:Hc; [by apply not_elem_of_nil in He|].
  assert (e ∈ shuffle (c :: cs)) as Hin.
  { cbv zeta in He. destruct (_ <? _) in He; [|exact He].
    match type of He with _ ∈ take ?k _ => rewrite <- (take_drop k) end. apply elem_of_app. by left. }
  rewrite Hsh, <- Hc in Hin. unfold response_candidates in Hin.
  apply list_elem_of_filter in Hin as [_ Hin]. by apply elem_of_snapshot.
Qed.

(** *** What the receiver makes of the routes *)

(** The entry of a route that [n] advertised: a new one, or the old one brought up to date. *)
Definition learnt_entry (n : NodeAddress) (e : RouteEntry) (now : Z) (old : option RouteEntry) : RouteEntry :=
  let hops := local_hop_count (Some n) false (hop_count e) in
  let cap := sent_capability (Some (capability e)) in
  match old with
  | Some o => refresh_entry (node e) (Some n) false hops cap now o
  | None => fresh_entry (node e) (Some n) false hops cap now
  end.

(** The routes a receiver takes: with an address, not its own, and not too far away. *)
Definition taken_route (cfg : DiscoveryConfig) (n : NodeAddress) (max_hops : Z) (e : RouteEntry) : Prop :=
  valid_route_node (node e) = true /\ node_id (node e) <> self_id cfg
  /\ local_hop_count (Some n) false (hop_count e) <= max_hops.

(** [add_route] when the table has room. *)
Lemma add_route_room now m src adv cap rm :
  table_size (routes rm) < max_routes (config rm) ->
  let hops := local_hop_count src false adv in
  let rm' := (add_route pow now m src false adv cap rm).2 in
  config rm' = config rm /\ table_size (routes rm') <= table_size (routes rm) + 1
  /\ (forall id, id <> node_id m -> routes rm' !! id = routes rm !! id)
  /\ (valid_route_node m = true -> hops <= max_route_hops (config rm) ->
      routes rm' !! node_id m = Some match routes rm !! node_id m with
        | Some o => refresh_entry m src false hops cap now o
        | None => fresh_entry m src false hops cap now
        end).
Proof.
  intros Hroom hops rm'. unfold rm', add_route. fold hops.
  assert (Hsize : forall e, table_size (<[node_id m := e]> (routes rm)) <= table_size (routes rm) + 1).
  { intros e. unfold table_size. rewrite map_size_insert. destruct (routes rm !! node_id m); cbn; lia. }
  destruct (valid_route_node m); cbn [negb]; [|split_and!; cbn; [done|lia|done|done]].
  destruct (Z.ltb_spec (max_route_hops (config rm)) hops); [split_and!; [done|cbn [snd]; lia|done|intros ? ?; lia]|].
  pose proof (proj2 (Z.leb_gt (max_routes (config rm)) (table_size (routes rm))) Hroom) as Hle.
  rewrite (trim_small pow) by done. rewrite Hle, Hle.
  destruct (routes rm !! node_id m) as [o|] eqn:E; cbn [snd routes config].
  - split_and!; [done|apply Hsize|intros id Hne; by rewrite lookup_insert_ne|intros _ _; by rewrite lookup_insert_eq].
  - split_and!; [done|apply Hsize|intros id Hne; by rewrite lookup_insert_ne|intros _ _; by rewrite lookup_insert_eq].
Qed.

(** The same for the call of the service. *)
Lemma service_add_route_room env cfg n e s :
  table_size (routes (routes_ s)) < max_routes (config (routes_ s)) ->
  exists b s' now, service_add_route pow env cfg (node e) (Some n) false (hop_count e) (sent_capability (Some (capability e))) s = (Some b, s')
  /\ config (routes_ s') = config (routes_ s) /\ table_size (routes (routes_ s')) <= table_size (routes (routes_ s)) + 1
  /\ (forall id, id <> node_id (node e) -> routes (routes_ s') !! id = routes (routes_ s) !! id)
  /\ (taken_route cfg n (max_route_hops (config (routes_ s))) e ->
      routes (routes_ s') !! node_id (node e) = Some (learnt_entry n e now (routes (routes_ s) !! node_id (node e)))).
Proof.
  intros Hroom. unfold service_add_route, taken_route, self_id.
  destruct (_ || _ || _ || conv_eqb _ _) eqn:E.
  - exists false, s, 0. split_and!; [done|done|lia|done|]. intros (Hv & Hne & _). unfold valid_route_node in Hv. unfold conv_eqb in E.
    rewrite (bool_decide_eq_false_2 _ Hne) in E. by destruct (str_empty _), (_ =? 0), (conv_empty _).
  - unfold mbind, D_bind, route_time_now_ms, ask, with_routes. cbn [ticks routes_ files running events].
    set (now := env_now env (ticks s)).
    destruct (add_route_room now (node e) (Some n) (hop_count e) (sent_capability (Some (capability e))) (routes_ s) Hroom) as (Hr1 & Hr2 & Hr3 & Hr4).
    destruct (add_route _ _ _ _ _ _ _ _) as [b rm]. cbn [snd] in *. eexists b, _, now. split; [done|]. cbn [routes_].
    split_and!; [done|done|done|]. intros (Hv & _ & Hh). by apply Hr4.
Qed.

Lemma add_entries_learn env cfg n entries : forall s,
  NoDup ((fun e => node_id (node e)) <$> entries) ->
  table_size (routes (routes_ s)) + zlen entries <= max_routes (config (routes_ s)) ->
  let s' := (add_entries env cfg n entries s).2 in
  (forall id, id ∉ ((fun e => node_id (node e)) <$> entries) -> routes (routes_ s') !! id = routes (routes_ s) !! id)
  /\ (forall e, e ∈ entries -> taken_route cfg n (max_route_hops (config (routes_ s))) e ->
      exists now, routes (routes_ s') !! node_id (node e) = Some (learnt_entry n e now (routes (routes_ s) !! node_id (node e)))).
Proof.
  unfold zlen. induction entries as [|x es IH]; intros s Hnd Hroom; [split; [done|set_solver]|].
  cbn [fmap list_fmap] in Hnd. apply NoDup_cons in Hnd as [Hx Hnd]. cbn [length] in Hroom.
  destruct (service_add_route_room env cfg n x s ltac:(lia)) as (b & s1 & now & Hrun & Hc & Hsz & Hother & Hadd).
  cbn [add_entries]. unfold mbind, D_bind. rewrite Hrun. cbn [snd].
  destruct (IH s1 Hnd ltac:(rewrite Hc; lia)) as [IH1 IH2]. rewrite Hc in IH2. split.
  - intros id Hid. cbn in Hid. apply not_elem_of_cons in Hid as [Hne Hid]. by rewrite IH1, Hother.
  - intros e [->|He]%elem_of_cons Htaken.
    + exists now. by rewrite IH1, Hadd.
    + destruct (IH2 e He Htaken) as [t Ht]. exists t. rewrite Ht. rewrite Hother; [done|].
      intros E. apply Hx. rewrite <- E. apply list_elem_of_fmap. by exists e.
Qed.

Lemma response_ids_NoDup good lost cfg shuffle now rm :
  table_good good lost rm -> (forall l, shuffle l ≡ₚ l) ->
  NoDup ((fun e => node_id (node e)) <$> not_sender cfg (select_routes_for_response shuffle now rm)).
Proof.
  intros Hinv Hsh. assert (Hsnap : NoDup ((fun e => node_id (node e)) <$> snapshot rm)).
  { unfold snapshot. rewrite <- list_fmap_compose, (list_fmap_ext _ fst); [apply NoDup_iter_keys|].
    intros i [id e] Hi. apply list_elem_of_lookup_2, elem_of_iter_map in Hi. cbn. apply (ri_entries _ _ _ Hinv _ _ Hi). }
  assert (Hcand : NoDup ((fun e => node_id (node e)) <$> shuffle (response_candidates now rm))).
  { rewrite Hsh. eapply sublist_NoDup; [exact Hsnap|]. apply fmap_sublist, sublist_filter. }
  unfold not_sender, select_routes_for_response. destruct (response_candidates now rm) as [|c cs]; [constructor|].
  cbv zeta. eapply sublist_NoDup; [exact Hcand|]. apply fmap_sublist. etrans; [apply sublist_filter|].
  destruct (_ <? _); [apply sublist_take|done].
Qed.

(** [C30] The routes a node sends reach the table of the node that receives them: the line it writes is
    read by the receiver as the routes of the answer other than the sender's own; and when the
    receiver's table has room for them, every one of these routes that has an address, is not the
    receiver and is not too far away is in its table afterwards, with the address that was sent and,
    if the route is new, with the next hop count, the capability that was sent and the sender as its
    source; routes that were not sent stay as they are. *)
Theorem routes_exchange envA cfgA envB cfgB n sA sB lost :
  table_good loaded_node lost (routes_ sB) -> map_Forall (fun _ => entry_range) (routes (routes_ sB)) ->
  (forall l, env_shuffle envB (S (ticks sB)) l ≡ₚ l) ->
  let entries := not_sender cfgB
    (select_routes_for_response (env_shuffle envB (S (ticks sB))) (env_now envB (ticks sB)) (routes_ sB)) in
  exists line,
    events (send_routes envB cfgB sB).2
      = EvSend (write_all (env_send envB (S (S (ticks sB)))) (line ++ [x0a])).2 :: events sB
    /\ let table := routes (routes_ sA) in
       let table' := routes (routes_ (handle_bootstrap_line pow envA cfgA n line sA).2) in
       (table_size table + zlen entries <= max_routes (config (routes_ sA)) ->
        (forall e, e ∈ entries -> taken_route cfgA n (max_route_hops (config (routes_ sA))) e ->
           exists now, table' !! node_id (node e) = Some (learnt_entry n e now (table !! node_id (node e))))
        /\ (forall id, (forall e, e ∈ entries -> node_id (node e) <> id) -> table' !! id = table !! id)).
Proof.
  intros Hinv Hr Hsh. cbv zeta. set (sent := select_routes_for_response _ _ _).
  exists (json_dump (routes_message cfgB sent)). split.
  - unfold send_routes, route_time_now_ms. do 3 (erewrite run_bind by reflexivity). cbv zeta.
    unfold write_json_line, mbind, D_bind, ask, emit. cbn [ticks routes_ running files events].
    fold (self_id cfgB). fold sent. fold (routes_message cfgB sent).
    by destruct (write_all _ _) as [ok out].
  - intros Hroom. rewrite routes_message_received.
    + destruct (add_entries_learn envA cfgA n (not_sender cfgB sent) sA) as [Hkeep Hlearn]; [by eapply response_ids_NoDup|done|].
      split; [exact Hlearn|]. intros id Hid. apply Hkeep. intros (e & -> & He)%list_elem_of_fmap. by apply (Hid e).
    + apply Forall_forall. intros e He.
      apply elem_of_response in He as [id He]; [|done]. split; [by apply (Hr id)|].
      pose proof (ri_entries _ _ _ Hinv _ _ He) as [_ _ _ Hh _ _ _ _]. destruct (ri_config _ _ _ Hinv) as [Hc _].
      unfold fits, u8_max in *. lia.
Qed.
End session.
