(* ===== verification/DiscoveryLinks.v ===== *)
(** Links and the discovery service: control messages leave the links alone, a session opens at
    most one link and only below the limit, and the message loop of a connection ends. *)
From S2P Require Import Prelude KcpConv Frames Identity Double Routes RouteInvariant Json EdgeMessage FileStore RouteJson RouteJsonProofs IdentityFile IdentityFileProofs Discovery DiscoveryLines DiscoveryProofs.

Section links.
Context {order : IterOrder KcpConv RouteEntry} (pow : double -> double -> double).
Context `{JsonApi} `{JsonFileApi} `{Ed25519}.
Context (env : DiscoveryEnv) (cfg : DiscoveryConfig).

(** ** Adding a route that is not a link *)

Definition same_links (a b : RouteManager) : Prop :=
  config b = config a /\ kcp_link_count b = kcp_link_count a /\
  forall id, id ∈ dom (links (routes b)) <-> id ∈ dom (links (routes a)).

#[export] Instance same_links_preorder : PreOrder same_links.
Proof.
  split; [by intros a|]. intros a b c (Ha1 & Ha2 & Hab) (Hb1 & Hb2 & Hbc). split_and!; try congruence.
  intros id. by rewrite Hbc, Hab.
Qed.

Lemma elem_of_links id m : id ∈ dom (links m) <-> exists e, m !! id = Some e /\ kcp_connected e = true.
Proof.
  rewrite elem_of_dom. unfold links, is_Some. setoid_rewrite map_lookup_filter_Some. done.
Qed.

Lemma refresh_connected n src connected hops cap now e :
  kcp_connected (refresh_entry n src connected hops cap now e) = connected || kcp_connected e.
Proof.
  pose proof (link1_refresh n src connected hops cap now e) as Hl. unfold link1 in Hl.
  destruct (kcp_connected (refresh_entry _ _ _ _ _ _ _)), connected, (kcp_connected e); done.
Qed.

Lemma fresh_connected n src connected hops cap now :
  kcp_connected (fresh_entry n src connected hops cap now) = connected.
Proof.
  pose proof (link1_fresh n src connected hops cap now) as Hl. unfold link1 in Hl.
  destruct (kcp_connected (fresh_entry _ _ _ _ _ _)), connected; done.
Qed.

Lemma add_route_same_links now n src adv cap rm : same_links rm (add_route pow now n src false adv cap rm).2.
Proof.
  unfold add_route. case_cond; [done|]. case_cond; [done|].
  destruct (routes rm !! node_id n) as [e|] eqn:He; cbn [andb negb].
  - split_and!; [done..|]. intros id. cbn [snd routes]. rewrite !elem_of_links.
    destruct (decide (id = node_id n)) as [->|Hne]; [|by rewrite lookup_insert_ne].
    rewrite lookup_insert_eq, He. split.
    + intros (e' & <-%(inj Some) & Hc). exists e. by rewrite refresh_connected in Hc.
    + intros (e' & [= <-] & Hc). eexists. split; [done|]. by rewrite refresh_connected.
  - fold (make_room pow (config rm) now (routes rm)).
    destruct (make_room_spec pow (config rm) now (routes rm)) as [Hsub Hlk].
    set (m := make_room pow (config rm) now (routes rm)) in *.
    case_cond; (split_and!; [done..|]); intros id; cbn [snd routes]; rewrite <- Hlk; [done|]. rewrite !elem_of_links.
    assert (m !! node_id n = None) as Hm by (by eapply lookup_weaken_None).
    destruct (decide (id = node_id n)) as [->|Hne]; [|by rewrite lookup_insert_ne].
    rewrite lookup_insert_eq, Hm. split; [|by intros (? & ? & _)]. intros (e' & <-%(inj Some) & Hc).
    by rewrite fresh_connected in Hc.
Qed.

Lemma same_links_add_route n src adv cap : keeps same_links (service_add_route pow env cfg n src false adv cap).
Proof.
  unfold service_add_route. case_cond; [apply keeps_ret; apply _|]. apply keeps_bind_ask. intros t.
  apply keeps_with_routes. intros rm. apply add_route_same_links.
Qed.

Lemma same_links_add_route_item item src : keeps same_links (add_route_item pow env cfg item src).
Proof.
  unfold add_route_item. destruct (node_from_json item); [|apply keeps_ret; apply _].
  solve_keeps. apply same_links_add_route.
Qed.

(** A control message, whatever its bytes, neither opens nor drops a link, and makes the service
    send nothing. *)
Theorem control_message_keeps_links payload s :
  let s' := (on_kcp_control pow env cfg payload s).2 in
  kcp_link_count (routes_ s') = kcp_link_count (routes_ s)
  /\ (forall id, id ∈ dom (links (routes (routes_ s'))) <-> id ∈ dom (links (routes (routes_ s))))
  /\ events s' = events s.
Proof.
  intros s'. assert (keeps same_links (on_kcp_control pow env cfg payload)) as Hk.
  { unfold on_kcp_control, handle_control_json. solve_keeps. apply same_links_add_route_item. }
  destruct (Hk s) as (_ & H1' & H2'). split_and!; [exact H1'|exact H2'|].
  unfold s', on_kcp_control, handle_control_json, add_route_item, service_add_route, route_time_now_ms,
    mbind, D_bind, lift, ask, with_routes, mret, D_ret.
  repeat (case_match; try done). all: by simplify_eq.
Qed.

(** ** The limit on links *)

(** The count of links is at most the limit. *)
Definition below_limit (rm : RouteManager) : Prop := kcp_link_count rm <= max_kcp_links (config rm).

(** After a connected [add_route] the count grew by one only if the entry is a link. *)
Lemma add_route_link now n src adv cap rm :
  let rm' := (add_route pow now n src true adv cap rm).2 in
  config rm' = config rm /\
  (kcp_link_count rm' = kcp_link_count rm
   \/ (kcp_link_count rm' = kcp_link_count rm + 1 /\
       exists e, routes rm' !! node_id n = Some e /\ kcp_connected e = true)).
Proof.
  unfold add_route. case_cond; [by split; [|left]|]. case_cond; [by split; [|left]|].
  destruct (routes rm !! node_id n) as [e|] eqn:He; cbn [snd config kcp_link_count routes].
  - split; [done|]. destruct (kcp_connected e) eqn:Hc; cbn [andb negb]; [by left|]. right. split; [done|].
    eexists. rewrite lookup_insert_eq. split; [done|]. by rewrite refresh_connected.
  - fold (make_room pow (config rm) now (routes rm)).
    case_cond; cbn [snd config kcp_link_count routes]; (split; [done|]); [by left|]. right. split; [done|].
    eexists. rewrite lookup_insert_eq. split; [done|]. by rewrite fresh_connected.
Qed.

Lemma mark_success_link now id rm :
  let rm' := (mark_success now id true rm).2 in
  config rm' = config rm /\ kcp_link_count rm' <= kcp_link_count rm + 1 /\
  (forall e, routes rm !! id = Some e -> kcp_connected e = true -> kcp_link_count rm' = kcp_link_count rm).
Proof.
  unfold mark_success. destruct (routes rm !! id) as [e|] eqn:He; cbn; [|split_and!; [done|lia|done]].
  split_and!; [done|case_cond; lia|]. intros e' [= <-] Hc. by rewrite Hc.
Qed.

Lemma mark_failure_link now id rm :
  let rm' := (mark_failure now id rm).2 in
  config rm' = config rm /\ kcp_link_count rm' <= kcp_link_count rm.
Proof.
  unfold mark_failure. destruct (routes rm !! id) as [e|] eqn:He; cbn; [|by split].
  split; [done|]. unfold drop_link. repeat case_cond; lia.
Qed.

(** Pure parts of a computation do not move the table. *)
#[local] Instance eq_rm_preorder : PreOrder (@eq RouteManager). Proof. split; congruence. Qed.

Lemma keeps_eq_write doc : keeps eq (write_json_line env doc).
Proof. unfold write_json_line. solve_keeps. Qed.
Lemma keeps_eq_announce e : keeps eq (announce_route env e).
Proof. unfold announce_route. solve_keeps. Qed.
Lemma keeps_eq_connected peer : keeps eq (announce_connected env peer).
Proof. unfold announce_connected. solve_keeps. apply keeps_eq_announce. Qed.
Lemma keeps_eq_capability : keeps eq (local_capability env).
Proof. unfold local_capability, route_time_now_ms. solve_keeps. Qed.
Lemma keeps_eq_link f peer conv : keeps eq (call_kcp_link f peer conv).
Proof. unfold call_kcp_link. solve_keeps. Qed.
Lemma keeps_eq_routes : keeps eq (send_routes env cfg).
Proof. unfold send_routes, route_time_now_ms. solve_keeps. apply keeps_eq_write. Qed.

(** From a table with [c] links, at most [c + k] afterwards. *)
Definition adds (k : Z) (a b : RouteManager) : Prop :=
  config b = config a /\ kcp_link_count b <= kcp_link_count a + k.

Lemma adds_bind {A B} j k (m : D A) (f : A -> D B) :
  0 <= k -> keeps (adds j) m -> (forall a, keeps (adds k) (f a)) -> keeps (adds (j + k)) (m ≫= f).
Proof.
  intros Hk Hm Hf s. specialize (Hm s). unfold mbind, D_bind.
  destruct (m s) as [[a|] s'] eqn:E; cbn in *; unfold adds in *.
  - destruct Hm as [? ?], (Hf a s') as [? ?]. split; [congruence|lia].
  - split; [apply Hm|]. destruct Hm. lia.
Qed.

Lemma adds_weaken {A} R (m : D A) k :
  (forall a b, R a b -> adds k a b) -> keeps R m -> keeps (adds k) m.
Proof. intros HR Hm s. apply HR, Hm. Qed.

Lemma adds_eq {A} (m : D A) : keeps eq m -> keeps (adds 0) m.
Proof. apply adds_weaken. intros a b <-. split; [done|lia]. Qed.

Lemma adds_failure id : keeps (adds 0) (service_mark_failure env id).
Proof.
  apply keeps_bind_ask. intros t. apply keeps_with_routes. intros rm.
  destruct (mark_failure_link (env_now env t) id rm). split; [done|lia].
Qed.

(** The two steps that record a link count it once. *)
Lemma adds_record_link peer src adv cap {A} (k : D A) :
  keeps eq k ->
  keeps (adds 1) (service_add_route pow env cfg peer src true adv cap;;
                  service_mark_success env (node_id peer) true;; k).
Proof.
  intros Hk s. unfold service_add_route. destruct (_ || _).
  - unfold mbind at 1, D_bind at 1, mret, D_ret. unfold service_mark_success, route_time_now_ms, ask, with_routes.
    unfold mbind, D_bind. cbn [routes_ ticks running files events].
    destruct (mark_success_link (env_now env (ticks s)) (node_id peer) (routes_ s)) as (Hc & Hn & _).
    destruct (mark_success (env_now env (ticks s)) (node_id peer) true (routes_ s)) as [b rm].
    unfold adds. rewrite <- (Hk _). cbn in *. split; [done|lia].
  - unfold service_mark_success, route_time_now_ms, ask, with_routes, mbind, D_bind.
    cbn [routes_ ticks running files events].
    pose proof (add_route_link (env_now env (ticks s)) peer src adv cap (routes_ s)) as [Hc1 Hl].
    destruct (add_route pow (env_now env (ticks s)) peer src true adv cap (routes_ s)) as [b rm].
    cbn [routes_ ticks running files events snd] in *.
    destruct (mark_success_link (env_now env (S (ticks s))) (node_id peer) rm) as (Hc2 & Hn & He).
    destruct (mark_success (env_now env (S (ticks s))) (node_id peer) true rm) as [b' rm'].
    unfold adds. rewrite <- (Hk _). cbn in *. split; [congruence|].
    destruct Hl as [Hl|[Hl (e & Hin & Hcon)]]; [lia|]. specialize (He e Hin Hcon). lia.
Qed.

Lemma negotiate_below_limit peer : keeps (fun a b => below_limit a -> below_limit b)
  (negotiate_kcp_link pow env cfg peer).
Proof.
  intros s Hb. unfold negotiate_kcp_link. erewrite run_bind by reflexivity. cbv beta.
  unfold can_add_kcp_link. destruct (Z.ltb_spec (kcp_link_count (routes_ s)) (max_kcp_links (config (routes_ s))))
    as [Hlt|Hge]; cbn [negb]; [|done].
  match goal with |- below_limit (routes_ (?m s).2) => assert (keeps (adds 1) m) as Hk end.
  { apply (adds_bind 0 1); [lia|apply adds_eq; solve_keeps; solve [apply _]|]. intros admitted.
    destruct admitted; cbn [negb]; cycle 1.
    { eapply adds_weaken; [|apply (keeps_bind eq); [apply keeps_eq_write|intros; apply (keeps_ret eq)]].
      intros a b <-. split; [done|lia]. }
    apply (adds_bind 0 1); [lia|apply adds_eq; solve_keeps; apply keeps_eq_link|]. intros linked.
    destruct linked; cbn [negb].
    - apply adds_record_link. solve_keeps; [apply keeps_eq_connected|apply keeps_eq_capability|apply keeps_eq_write].
    - apply (adds_bind 0 1); [lia|apply adds_failure|]. intros b s'. split; [done|cbn; lia]. }
  destruct (Hk s) as [Hc Hn]. unfold below_limit in *. rewrite Hc. lia.
Qed.

Definition limit_kept (a b : RouteManager) : Prop := below_limit a -> below_limit b.

#[local] Instance limit_preorder : PreOrder limit_kept.
Proof. unfold limit_kept. split; [intros a; exact id|]. intros a b c. auto. Qed.

Lemma keeps_weaken {A} (R R' : RouteManager -> RouteManager -> Prop) (m : D A) :
  (forall a b, R a b -> R' a b) -> keeps R m -> keeps R' m.
Proof. intros HR Hm s. apply HR, Hm. Qed.

Lemma same_links_limit a b : same_links a b -> limit_kept a b.
Proof. intros (Hc & Hn & _). unfold limit_kept, below_limit. by rewrite Hc, Hn. Qed.

(** A session, whatever it receives, opens a link only below the limit of links. *)
Theorem tcp_session_link_limit input remote_host s :
  below_limit (routes_ s) ->
  below_limit (routes_ (handle_tcp_session pow env cfg input remote_host s).2).
Proof.
  apply (fun k : keeps limit_kept _ => k s).
  unfold handle_tcp_session, accepted_session, verify_hello_signature, route_time_now_ms. solve_keeps.
  - apply (keeps_weaken same_links); [exact same_links_limit|apply same_links_add_route].
  - apply (keeps_weaken eq); [intros x y <-; exact id|apply keeps_eq_routes].
  - apply negotiate_below_limit.
Qed.

(** ** The loop over the messages of a connection *)

(** [while (read_line(fd, &line))] ends: each turn consumes input, so a number of turns that is the
    length of the input is enough, and more do not change the result. *)
Theorem bootstrap_messages_terminates n input k s :
  bootstrap_messages pow env cfg (length input + k) n input s
  = bootstrap_messages pow env cfg (length input) n input s.
Proof.
  assert (forall m input, (length input <= m)%nat -> forall f f' s, (length input <= f)%nat ->
    (length input <= f')%nat -> bootstrap_messages pow env cfg f n input s = bootstrap_messages pow env cfg f' n input s)
    as Hfuel; [|eapply Hfuel; [done|lia|lia]].
  clear. induction m as [|m IH]; intros input Hm f f' s Hf Hf'.
  - destruct input; [|cbn in Hm; lia]. by destruct f, f'.
  - destruct f as [|f]; [destruct input; [by destruct f'|cbn in Hf; lia]|].
    destruct f' as [|f']; [destruct input; [done|cbn in Hf'; lia]|].
    cbn [bootstrap_messages]. destruct (read_line input) as [[line|] rest] eqn:Hr; [|done].
    apply read_line_loop_shorter in Hr. unfold mbind, D_bind.
    destruct (handle_bootstrap_line pow env cfg n line s) as [[[]|] s']; [|done].
    apply IH; lia.
Qed.
End links.
