(* ===== verification/DiscoveryDemo.v ===== *)
(** Runs of the discovery service on concrete inputs: the theorems at work, and inputs that the
    service does not handle as its code intends. *)
From S2P Require Import Prelude KcpConv Frames Identity Double Routes RouteInvariant Json EdgeMessage FileStore RouteJson RouteJsonProofs IdentityFile IdentityFileProofs Discovery DiscoveryLines DiscoveryProofs DiscoverySession DiscoveryLinks.

(** The comparison [bootstrap_loop] sorts by is not a strict weak order, which [std::sort] requires:
    a new and a bad route are never ordered, but two new routes are. *)
Lemma bootstrap_before_not_weak_order :
  exists a b c, bootstrap_before a b = false /\ bootstrap_before b a = false
    /\ bootstrap_before b c = false /\ bootstrap_before c b = false /\ bootstrap_before c a = true.
Proof.
  exists (set_last_success_ms 5 RouteEntry_default),
         (set_last_success_ms 7 (set_state RouteState.Bad RouteEntry_default)),
         (set_last_success_ms 9 RouteEntry_default).
  split_and!; vm_compute; reflexivity.
Qed.

(** The signature of a hello does not cover the capability: any other [node] member that names the
    same node verifies as well. *)
Lemma capability_not_signed `{Ed25519} env cfg hello item peer s :
  is_object hello = true ->
  verify_hello_signature env cfg (jset (str "node") item hello) peer s
  = verify_hello_signature env cfg hello peer s.
Proof.
  intros Ho. unfold verify_hello_signature, find_integer, find_string.
  rewrite !jfind_jset by auto. rewrite !bool_decide_eq_false_2 by done. done.
Qed.

Module DiscoveryDemo.
Import RouteDemo DiscoveryLinesDemo.
#[local] Existing Instance demo_order.
#[local] Existing Instance ToyEd25519.toy_ed25519.
#[local] Existing Instance JsonToy.json_toy.
#[local] Existing Instance JsonToy.json_file_toy.

Definition demo_env (links : bool) : DiscoveryEnv :=
  {| env_now := fun t => 100000 + Z.of_nat t; env_running := fun _ => true;
     env_rand := fun _ => Some (replicate 32 x07);
     env_evp := fun _ => {| evp_ok := fun _ => true; evp_fresh := [] |};
     env_fs := fun _ => RouteFileDemo.demo_fs 0 None; env_listen := fun _ => true;
     env_send := fun _ => [SendInterrupted; Sent 3; Sent (2 ^ 20)];
     env_connect := fun _ => None; env_inet_pton := demo_pton;
     env_shuffle := fun _ l => l; env_rng := fun _ _ => 0; env_sort := fun _ l => l;
     env_kcp_link := Some (fun _ => links); env_admission := None; env_capability := None;
     env_broadcast := true |}.

Definition demo_key (k : byte) : bytes := k :: replicate 31 x00.

Definition demo_config (k : byte) (h : bytes) (limit : Z) : DiscoveryConfig :=
  {| identity := identity_of (demo_key k); local_endpoint := demo_end h 9000; bootstrap_nodes := [];
     discovery_max_kcp_links := limit; listen_backlog := 128; route_feeler_interval_seconds := 30;
     route_table_file := []; route_manager := demo_cfg 10 |}.

Definition node_a : DiscoveryConfig := demo_config x05 (str "10.0.0.1") 8.
Definition node_b : DiscoveryConfig := demo_config x06 (str "10.0.0.2") 8.

Definition fresh (cfg : DiscoveryConfig) : DState := discovery_init cfg ∅.

Definition demo_hello_cap : NodeCapability := mkCapability true true 512 3 100 7 0 0 1500.

(** The hello of [node_a] to [node_b]. *)
Definition demo_hello : json :=
  default JNull (default None (attach_hello_signature (demo_env true) node_a
    (hello_message node_a (self_id node_b) demo_hello_cap) (self_node node_a) (self_id node_b) (fresh node_a)).1).

Definition demo_input (doc : json) : list RecvResult := (Received <$> json_dump doc) ++ [Received x0a].

Lemma honest_hello_accepted_witness :
  exists rest,
    handle_tcp_session demo_pow (demo_env true) node_b (demo_input demo_hello) (str "10.0.0.9") (fresh node_b)
    = accepted_session demo_pow (demo_env true) node_b (self_node node_a) (Some demo_hello_cap) (str "10.0.0.9")
        (mkDState (routes_ (fresh node_b)) false ∅ 2 rest).
Proof.
  exists []. unfold demo_input.
  refine (honest_hello_accepted demo_pow (demo_env true) node_a (demo_env true) node_b (demo_key x05) demo_hello_cap
    (fresh node_a) _ demo_hello (str "10.0.0.9") [] (fresh node_b) _ _ _ _ _ _ _ _ _ _ _ _).
  - reflexivity.
  - reflexivity.
  - intros t nonce [= <-]. reflexivity.
  - split; [vm_compute; split; congruence|]. split; vm_compute; reflexivity.
  - apply ascii_str_dec. vm_compute. reflexivity.
  - reflexivity.
  - constructor; unfold fits, fits_i64; cbn; lia.
  - vm_compute. reflexivity.
  - unfold fits_i64. cbn. lia.
  - vm_compute. congruence.
  - intros call. reflexivity.
  - apply Z.leb_le. vm_compute. reflexivity.
Defined.

(** The state of [node_b] after that session. *)
Definition started_b : DState := (start demo_pow (demo_env true) node_b (fresh node_b)).2.
Definition linked_b : DState :=
  (run_call demo_pow (demo_env true) node_b (CallSession (demo_input demo_hello) (str "10.0.0.9")) started_b).2.

Lemma demo_clock_ok : clock_ok (demo_env true).
Proof. intros t. cbn. lia. Qed.

Lemma demo_config_ok : config_ok (route_manager_config node_b).
Proof. unfold config_ok, u8_max. cbn. lia. Qed.

(** [node_b] is stopped and started again while it has a link. *)
Definition restarted_b : DState :=
  (start demo_pow (demo_env true) node_b (run_call demo_pow (demo_env true) node_b CallStop linked_b).2).2.

Lemma discovery_service_invariant_witness :
  let overwrites := start_overwrites demo_pow (demo_env true) node_b in
  let stopped := (run_call demo_pow (demo_env true) node_b CallStop linked_b).2 in
  table_good loaded_node (0 + overwrites (discovery_init node_b ∅) + overwrites stopped) (routes_ restarted_b)
  /\ routes (routes_ restarted_b) !! self_id node_b = None.
Proof.
  intros overwrites stopped.
  refine (discovery_service_invariant demo_pow (demo_env true) node_b ∅ _ restarted_b demo_clock_ok demo_config_ok
    (srun_start _ _ _ _ _ stopped (srun_call _ _ _ _ _ linked_b CallStop (srun_call _ _ _ _ _ started_b _
      (srun_start _ _ _ _ _ (discovery_init node_b ∅) (srun_new _ _ _ _)))))).
Defined.

Lemma tcp_session_link_limit_witness : below_limit (routes_ linked_b).
Proof.
  refine (tcp_session_link_limit demo_pow (demo_env true) node_b (demo_input demo_hello) (str "10.0.0.9")
    started_b _).
  unfold below_limit. vm_compute. congruence.
Defined.

(** The table of a node with one route, sent to [node_a]. *)
Definition route_c : NodeAddress := {| endpoint := demo_end (str "10.0.0.3") 9000; node_id := from_uint32 12 |}.
Definition knows_c : DState :=
  mkDState (add_route demo_pow 1000 route_c None false 0 None (route_manager_init (route_manager_config node_b))).2
    true ∅ 0 [].

Lemma knows_c_good : table_good loaded_node 0 (routes_ knows_c).
Proof. apply add_route_inv; [apply _| |done|split; done]. apply init_inv, demo_config_ok. Qed.

Lemma knows_c_range : map_Forall (fun _ => entry_range) (routes (routes_ knows_c)).
Proof.
  apply map_Forall_to_list. vm_compute map_to_list.
  repeat constructor; unfold fits, fits_i64; cbn; try lia; try done.
Qed.

Definition entry_c : RouteEntry := fresh_entry route_c None false 0 None 1000.

Lemma routes_exchange_witness :
  exists line now,
    routes (routes_ (handle_bootstrap_line demo_pow (demo_env true) node_a (self_node node_b) line (fresh node_a)).2)
      !! node_id route_c = Some (learnt_entry (self_node node_b) entry_c now None).
Proof.
  destruct (routes_exchange demo_pow (demo_env true) node_a (demo_env true) node_b (self_node node_b)
    (fresh node_a) knows_c 0 knows_c_good knows_c_range (fun l => reflexivity l)) as (line & _ & Hl).
  exists line. refine (proj1 (Hl _) entry_c _ _).
  - vm_compute. congruence.
  - apply list_elem_of_filter. split; [reflexivity|]. apply list_elem_of_lookup_2 with 0%nat. vm_compute. reflexivity.
  - unfold taken_route. split_and!; vm_compute; congruence.
Defined.

(** The new entry: one hop further than the sender, which is its source. *)
Example learnt_c : (fun e => (node e, source e, has_source e, hop_count e)) (learnt_entry (self_node node_b) entry_c 5 None)
  = (route_c, self_node node_b, true, 1).
Proof. reflexivity. Qed.

(** ** Inputs the service does not handle *)

(** A line to the discovery port whose [type] is a number ends the session thread in an exception
    that nothing catches; no signature is needed. *)
Example hello_type_number_throws :
  (handle_tcp_session demo_pow (demo_env true) node_b (demo_input (JObject [(str "type", JUnsigned 1)]))
     (str "10.0.0.9") (fresh node_b)).1 = None.
Proof. vm_compute. reflexivity. Qed.

(** So does a control message that is not an object. *)
Example control_array_throws :
  (on_kcp_control demo_pow (demo_env true) node_b (view_of (json_dump (JArray []))) (fresh node_b)).1 = None.
Proof. vm_compute. reflexivity. Qed.

(** A hello verifies again when it is sent again: the nonce is not remembered. *)
Example hello_replayed :
  let first := verify_hello_signature (demo_env true) node_b demo_hello (self_node node_a) (fresh node_b) in
  let again := verify_hello_signature (demo_env true) node_b demo_hello (self_node node_a) first.2 in
  first.1 = Some true /\ again.1 = Some true.
Proof. split; vm_compute; reflexivity. Qed.

(** A [kcp_conv] message opens a link beyond the limit, which only the threads check, before they
    connect. *)
Example kcp_conv_exceeds_limit :
  let cfg := demo_config x06 (str "10.0.0.2") 0 in
  let message := JObject [(str "type", JString (str "kcp_conv"));
                          (str "node", node_to_json (self_node node_a) None);
                          (str "convid", JString (convid_to_hex (from_uint32 9)))] in
  let s := (handle_bootstrap_line demo_pow (demo_env true) cfg route_c (json_dump message) (fresh cfg)).2 in
  kcp_link_count (routes_ s) = 1 /\ max_kcp_links (config (routes_ s)) = 0.
Proof. split; vm_compute; reflexivity. Qed.
End DiscoveryDemo.
