(* ===== verification/CommandLine.v ===== *)
(** The command line of the proxy: iota_proxy/src/app/main.cpp.

    [ProxyRuntimeConfig] is the record [main] fills in, with the members its options and its
    configuration file can set; [Options] adds the local variables of [main].  A [field] names a
    member together with its type, [get] and [set] access it.  The chain of comparisons in
    [parse_args] is the table [options], the members read by [load_redis_config_json] are the table
    [file_fields], both in the order of the code.  [main] itself is the function [main_run] up to
    the construction of the runtime, on the map of files. *)
From S2P Require Import Prelude KcpConv Frames Identity Json FileStore IdentityFile Routes Admission Discovery.

(** ** Configuration *)

Record TcpSettings := mkTcp {
  tcp_enabled : bool;
  tcp_host : bytes;
  tcp_port : Z;
  tcp_worker_threads : Z;
  tcp_node_id : Z;
  tcp_max_payload : Z;
}.

Record EgressSettings := mkEgressSettings { eg_target : Ipv4Endpoint; eg_connect_timeout_ms : Z }.

Record RedisSettings := mkRedisSettings {
  rd_endpoint : Ipv4Endpoint;
  rd_connect_timeout_ms : Z;
  rd_io_timeout_ms : Z;
  rd_state_ttl : Z;
  rd_latest_ttl : Z;
  rd_seen_ttl : Z;
}.

Record KafkaSettings := mkKafka {
  kf_brokers : bytes;
  kf_topic : bytes;
  kf_client_id : bytes;
  kf_acks : bytes;
  kf_message_timeout_ms : Z;
  kf_flush_timeout_ms : Z;
}.

Record BroadcastSettings := mkBroadcast {
  kb_enabled : bool;
  kb_brokers : bytes;
  kb_topic : bytes;
  kb_group_id : bytes;
  kb_client_id : bytes;
  kb_auto_offset_reset : bytes;
  kb_poll_timeout_ms : Z;
}.

Record KcpSettings := mkKcp {
  kcp_local : Ipv4Endpoint;
  kcp_identity : NodeIdentity;
  kcp_peer : NodeAddress;
  kcp_max_peer_links : Z;
  kcp_broadcast_ttl : Z;
  kcp_max_broadcast_fanout : Z;
  kcp_max_seen_broadcasts : Z;
  kcp_seen_broadcast_seconds : Z;
}.

(** [struct ProxyRuntimeConfig] *)
Record ProxyRuntimeConfig := mkConfig {
  cfg_admission : AdmissionControlConfig;
  cfg_tcp : TcpSettings;
  cfg_egress : EgressSettings;
  cfg_redis : RedisSettings;
  cfg_kafka : KafkaSettings;
  cfg_broadcast : BroadcastSettings;
  cfg_kcp : KcpSettings;
  cfg_discovery : DiscoveryConfig;
}.

(** [NodeIdentity()] *)
Definition NodeIdentity_default : NodeIdentity :=
  mkIdentity (mkKeyPair (replicate 32 x00) (replicate 32 x00)) KcpConv_default false.

(** The initial values of the members. *)
Definition ProxyRuntimeConfig_default : ProxyRuntimeConfig :=
  mkConfig
    (mkAdmissionConfig 4096 0 512)
    (mkTcp true (str "0.0.0.0") 7000 1 1 (1024 * 1024))
    (mkEgressSettings Ipv4Endpoint_default 3000)
    (mkRedisSettings Ipv4Endpoint_default 1000 1000 60 (24 * 60 * 60) (10 * 60))
    (mkKafka [] [] (str "iota-proxy") (str "all") 5000 5000)
    (mkBroadcast false [] [] (str "iota-proxy-kcp-broadcast") (str "iota-proxy-kcp-broadcast")
       (str "latest") 1000)
    (mkKcp (mkEndpoint (str "0.0.0.0") 9000) NodeIdentity_default NodeAddress_default 512 4 32 8192 (10 * 60))
    (mkDiscoveryConfig NodeIdentity_default (mkEndpoint (str "0.0.0.0") 9000) [] 512 128 30 []
       RouteManagerConfig_default).

(** The configuration and the other variables of [main]. *)
Record Options := mkOptions {
  opt_config : ProxyRuntimeConfig;
  opt_help : bool;
  opt_generate_identity : bool;
  opt_identity_file : bytes;
  opt_private_key_override : bool;
  opt_redis_config_file : bytes;
}.

(** ** Members *)

Inductive field : Type -> Type :=
  | FHelp : field bool | FGenerateIdentity : field bool | FPrivateKeyOverride : field bool
  | FIdentityFile : field bytes | FRedisConfigFile : field bytes
  | FTcpEnabled : field bool | FTcpHost : field bytes | FTcpPort : field Z
  | FTcpWorkers : field Z | FTcpNodeId : field Z | FTcpMaxPayload : field Z
  | FEgressHost : field bytes | FEgressPort : field Z | FEgressTimeout : field Z
  | FRedisHost : field bytes | FRedisPort : field Z | FRedisConnectTimeout : field Z
  | FRedisIoTimeout : field Z | FRedisStateTtl : field Z | FRedisLatestTtl : field Z
  | FRedisSeenTtl : field Z
  | FKafkaBrokers : field bytes | FKafkaTopic : field bytes | FKafkaClientId : field bytes
  | FKafkaAcks : field bytes | FKafkaMessageTimeout : field Z | FKafkaFlushTimeout : field Z
  | FBroadcastEnabled : field bool | FBroadcastGroupId : field bytes
  | FBroadcastClientId : field bytes | FBroadcastOffsetReset : field bytes
  | FBroadcastPollTimeout : field Z
  | FKcpHost : field bytes | FKcpPort : field Z | FKcpPeerHost : field bytes
  | FKcpPeerPort : field Z | FKcpPeerId : field KcpConv | FKcpIdentity : field NodeIdentity
  | FBroadcastTtl : field Z | FBroadcastFanout : field Z | FBroadcastSeenCache : field Z
  | FBroadcastSeenSeconds : field Z
  | FBootstrapNodes : field (list NodeAddress) | FRouteTableFile : field bytes
  | FMaxKcpLinks : field Z
  | FMaxIngressStreams : field Z | FMaxIngressBytes : field Z.

Definition get {A} (f : field A) (o : Options) : A :=
  let c := opt_config o in
  match f with
  | FHelp => opt_help o
  | FGenerateIdentity => opt_generate_identity o
  | FPrivateKeyOverride => opt_private_key_override o
  | FIdentityFile => opt_identity_file o
  | FRedisConfigFile => opt_redis_config_file o
  | FTcpEnabled => tcp_enabled (cfg_tcp c)
  | FTcpHost => tcp_host (cfg_tcp c)
  | FTcpPort => tcp_port (cfg_tcp c)
  | FTcpWorkers => tcp_worker_threads (cfg_tcp c)
  | FTcpNodeId => tcp_node_id (cfg_tcp c)
  | FTcpMaxPayload => tcp_max_payload (cfg_tcp c)
  | FEgressHost => host (eg_target (cfg_egress c))
  | FEgressPort => port (eg_target (cfg_egress c))
  | FEgressTimeout => eg_connect_timeout_ms (cfg_egress c)
  | FRedisHost => host (rd_endpoint (cfg_redis c))
  | FRedisPort => port (rd_endpoint (cfg_redis c))
  | FRedisConnectTimeout => rd_connect_timeout_ms (cfg_redis c)
  | FRedisIoTimeout => rd_io_timeout_ms (cfg_redis c)
  | FRedisStateTtl => rd_state_ttl (cfg_redis c)
  | FRedisLatestTtl => rd_latest_ttl (cfg_redis c)
  | FRedisSeenTtl => rd_seen_ttl (cfg_redis c)
  | FKafkaBrokers => kf_brokers (cfg_kafka c)
  | FKafkaTopic => kf_topic (cfg_kafka c)
  | FKafkaClientId => kf_client_id (cfg_kafka c)
  | FKafkaAcks => kf_acks (cfg_kafka c)
  | FKafkaMessageTimeout => kf_message_timeout_ms (cfg_kafka c)
  | FKafkaFlushTimeout => kf_flush_timeout_ms (cfg_kafka c)
  | FBroadcastEnabled => kb_enabled (cfg_broadcast c)
  | FBroadcastGroupId => kb_group_id (cfg_broadcast c)
  | FBroadcastClientId => kb_client_id (cfg_broadcast c)
  | FBroadcastOffsetReset => kb_auto_offset_reset (cfg_broadcast c)
  | FBroadcastPollTimeout => kb_poll_timeout_ms (cfg_broadcast c)
  | FKcpHost => host (kcp_local (cfg_kcp c))
  | FKcpPort => port (kcp_local (cfg_kcp c))
  | FKcpPeerHost => host (endpoint (kcp_peer (cfg_kcp c)))
  | FKcpPeerPort => port (endpoint (kcp_peer (cfg_kcp c)))
  | FKcpPeerId => node_id (kcp_peer (cfg_kcp c))
  | FKcpIdentity => kcp_identity (cfg_kcp c)
  | FBroadcastTtl => kcp_broadcast_ttl (cfg_kcp c)
  | FBroadcastFanout => kcp_max_broadcast_fanout (cfg_kcp c)
  | FBroadcastSeenCache => kcp_max_seen_broadcasts (cfg_kcp c)
  | FBroadcastSeenSeconds => kcp_seen_broadcast_seconds (cfg_kcp c)
  | FBootstrapNodes => bootstrap_nodes (cfg_discovery c)
  | FRouteTableFile => route_table_file (cfg_discovery c)
  | FMaxKcpLinks => discovery_max_kcp_links (cfg_discovery c)
  | FMaxIngressStreams => max_ingress_streams (cfg_admission c)
  | FMaxIngressBytes => max_ingress_bytes_per_second (cfg_admission c)
  end.

Definition on_admission (h : AdmissionControlConfig -> AdmissionControlConfig) (c : ProxyRuntimeConfig) : ProxyRuntimeConfig :=
  mkConfig (h (cfg_admission c)) (cfg_tcp c) (cfg_egress c) (cfg_redis c) (cfg_kafka c) (cfg_broadcast
    c) (cfg_kcp c) (cfg_discovery c).
Definition on_tcp (h : TcpSettings -> TcpSettings) (c : ProxyRuntimeConfig) : ProxyRuntimeConfig :=
  mkConfig (cfg_admission c) (h (cfg_tcp c)) (cfg_egress c) (cfg_redis c) (cfg_kafka c) (cfg_broadcast
    c) (cfg_kcp c) (cfg_discovery c).
Definition on_egress (h : EgressSettings -> EgressSettings) (c : ProxyRuntimeConfig) : ProxyRuntimeConfig :=
  mkConfig (cfg_admission c) (cfg_tcp c) (h (cfg_egress c)) (cfg_redis c) (cfg_kafka c) (cfg_broadcast
    c) (cfg_kcp c) (cfg_discovery c).
Definition on_redis (h : RedisSettings -> RedisSettings) (c : ProxyRuntimeConfig) : ProxyRuntimeConfig :=
  mkConfig (cfg_admission c) (cfg_tcp c) (cfg_egress c) (h (cfg_redis c)) (cfg_kafka c) (cfg_broadcast
    c) (cfg_kcp c) (cfg_discovery c).
Definition on_kafka (h : KafkaSettings -> KafkaSettings) (c : ProxyRuntimeConfig) : ProxyRuntimeConfig :=
  mkConfig (cfg_admission c) (cfg_tcp c) (cfg_egress c) (cfg_redis c) (h (cfg_kafka c)) (cfg_broadcast
    c) (cfg_kcp c) (cfg_discovery c).
Definition on_broadcast (h : BroadcastSettings -> BroadcastSettings) (c : ProxyRuntimeConfig) : ProxyRuntimeConfig :=
  mkConfig (cfg_admission c) (cfg_tcp c) (cfg_egress c) (cfg_redis c) (cfg_kafka c) (h (cfg_broadcast
    c)) (cfg_kcp c) (cfg_discovery c).
Definition on_kcp (h : KcpSettings -> KcpSettings) (c : ProxyRuntimeConfig) : ProxyRuntimeConfig :=
  mkConfig (cfg_admission c) (cfg_tcp c) (cfg_egress c) (cfg_redis c) (cfg_kafka c) (cfg_broadcast c)
    (h (cfg_kcp c)) (cfg_discovery c).
Definition on_discovery (h : DiscoveryConfig -> DiscoveryConfig) (c : ProxyRuntimeConfig) : ProxyRuntimeConfig :=
  mkConfig (cfg_admission c) (cfg_tcp c) (cfg_egress c) (cfg_redis c) (cfg_kafka c) (cfg_broadcast c)
    (cfg_kcp c) (h (cfg_discovery c)).

Definition with_config (h : ProxyRuntimeConfig -> ProxyRuntimeConfig) (o : Options) : Options :=
  mkOptions (h (opt_config o)) (opt_help o) (opt_generate_identity o) (opt_identity_file o)
    (opt_private_key_override o) (opt_redis_config_file o).

Definition with_host (h : bytes) (e : Ipv4Endpoint) : Ipv4Endpoint := mkEndpoint h (port e).
Definition with_port (p : Z) (e : Ipv4Endpoint) : Ipv4Endpoint := mkEndpoint (host e) p.

Definition set {A} (f : field A) : A -> Options -> Options :=
  match f with
  | FHelp => fun v o => mkOptions (opt_config o) v (opt_generate_identity o) (opt_identity_file o)
      (opt_private_key_override o) (opt_redis_config_file o)
  | FGenerateIdentity => fun v o => mkOptions (opt_config o) (opt_help o) v (opt_identity_file o)
      (opt_private_key_override o) (opt_redis_config_file o)
  | FPrivateKeyOverride => fun v o => mkOptions (opt_config o) (opt_help o) (opt_generate_identity o)
      (opt_identity_file o) v (opt_redis_config_file o)
  | FIdentityFile => fun v o => mkOptions (opt_config o) (opt_help o) (opt_generate_identity o) v
      (opt_private_key_override o) (opt_redis_config_file o)
  | FRedisConfigFile => fun v o => mkOptions (opt_config o) (opt_help o) (opt_generate_identity o)
      (opt_identity_file o) (opt_private_key_override o) v
  | FTcpEnabled => fun v => with_config (on_tcp (fun t => mkTcp v (tcp_host t) (tcp_port t)
      (tcp_worker_threads t) (tcp_node_id t) (tcp_max_payload t)))
  | FTcpHost => fun v => with_config (on_tcp (fun t => mkTcp (tcp_enabled t) v (tcp_port t)
      (tcp_worker_threads t) (tcp_node_id t) (tcp_max_payload t)))
  | FTcpPort => fun v => with_config (on_tcp (fun t => mkTcp (tcp_enabled t) (tcp_host t) v
      (tcp_worker_threads t) (tcp_node_id t) (tcp_max_payload t)))
  | FTcpWorkers => fun v => with_config (on_tcp (fun t => mkTcp (tcp_enabled t) (tcp_host t) (tcp_port
      t) v (tcp_node_id t) (tcp_max_payload t)))
  | FTcpNodeId => fun v => with_config (on_tcp (fun t => mkTcp (tcp_enabled t) (tcp_host t) (tcp_port
      t) (tcp_worker_threads t) v (tcp_max_payload t)))
  | FTcpMaxPayload => fun v => with_config (on_tcp (fun t => mkTcp (tcp_enabled t) (tcp_host t)
      (tcp_port t) (tcp_worker_threads t) (tcp_node_id t) v))
  | FEgressHost => fun v => with_config (on_egress (fun e => mkEgressSettings (with_host v (eg_target
      e)) (eg_connect_timeout_ms e)))
  | FEgressPort => fun v => with_config (on_egress (fun e => mkEgressSettings (with_port v (eg_target
      e)) (eg_connect_timeout_ms e)))
  | FEgressTimeout => fun v => with_config (on_egress (fun e => mkEgressSettings (eg_target e) v))
  | FRedisHost => fun v => with_config (on_redis (fun r => mkRedisSettings (with_host v (rd_endpoint
      r)) (rd_connect_timeout_ms r) (rd_io_timeout_ms r) (rd_state_ttl r) (rd_latest_ttl r)
      (rd_seen_ttl r)))
  | FRedisPort => fun v => with_config (on_redis (fun r => mkRedisSettings (with_port v (rd_endpoint
      r)) (rd_connect_timeout_ms r) (rd_io_timeout_ms r) (rd_state_ttl r) (rd_latest_ttl r)
      (rd_seen_ttl r)))
  | FRedisConnectTimeout => fun v => with_config (on_redis (fun r => mkRedisSettings (rd_endpoint r) v
      (rd_io_timeout_ms r) (rd_state_ttl r) (rd_latest_ttl r) (rd_seen_ttl r)))
  | FRedisIoTimeout => fun v => with_config (on_redis (fun r => mkRedisSettings (rd_endpoint r)
      (rd_connect_timeout_ms r) v (rd_state_ttl r) (rd_latest_ttl r) (rd_seen_ttl r)))
  | FRedisStateTtl => fun v => with_config (on_redis (fun r => mkRedisSettings (rd_endpoint r)
      (rd_connect_timeout_ms r) (rd_io_timeout_ms r) v (rd_latest_ttl r) (rd_seen_ttl r)))
  | FRedisLatestTtl => fun v => with_config (on_redis (fun r => mkRedisSettings (rd_endpoint r)
      (rd_connect_timeout_ms r) (rd_io_timeout_ms r) (rd_state_ttl r) v (rd_seen_ttl r)))
  | FRedisSeenTtl => fun v => with_config (on_redis (fun r => mkRedisSettings (rd_endpoint r)
      (rd_connect_timeout_ms r) (rd_io_timeout_ms r) (rd_state_ttl r) (rd_latest_ttl r) v))
  | FKafkaBrokers => fun v => with_config (on_kafka (fun k => mkKafka v (kf_topic k) (kf_client_id k)
      (kf_acks k) (kf_message_timeout_ms k) (kf_flush_timeout_ms k)))
  | FKafkaTopic => fun v => with_config (on_kafka (fun k => mkKafka (kf_brokers k) v (kf_client_id k)
      (kf_acks k) (kf_message_timeout_ms k) (kf_flush_timeout_ms k)))
  | FKafkaClientId => fun v => with_config (on_kafka (fun k => mkKafka (kf_brokers k) (kf_topic k) v
      (kf_acks k) (kf_message_timeout_ms k) (kf_flush_timeout_ms k)))
  | FKafkaAcks => fun v => with_config (on_kafka (fun k => mkKafka (kf_brokers k) (kf_topic k)
      (kf_client_id k) v (kf_message_timeout_ms k) (kf_flush_timeout_ms k)))
  | FKafkaMessageTimeout => fun v => with_config (on_kafka (fun k => mkKafka (kf_brokers k) (kf_topic
      k) (kf_client_id k) (kf_acks k) v (kf_flush_timeout_ms k)))
  | FKafkaFlushTimeout => fun v => with_config (on_kafka (fun k => mkKafka (kf_brokers k) (kf_topic k)
      (kf_client_id k) (kf_acks k) (kf_message_timeout_ms k) v))
  | FBroadcastEnabled => fun v => with_config (on_broadcast (fun b => mkBroadcast v (kb_brokers b)
      (kb_topic b) (kb_group_id b) (kb_client_id b) (kb_auto_offset_reset b) (kb_poll_timeout_ms
      b)))
  | FBroadcastGroupId => fun v => with_config (on_broadcast (fun b => mkBroadcast (kb_enabled b)
      (kb_brokers b) (kb_topic b) v (kb_client_id b) (kb_auto_offset_reset b) (kb_poll_timeout_ms
      b)))
  | FBroadcastClientId => fun v => with_config (on_broadcast (fun b => mkBroadcast (kb_enabled b)
      (kb_brokers b) (kb_topic b) (kb_group_id b) v (kb_auto_offset_reset b) (kb_poll_timeout_ms
      b)))
  | FBroadcastOffsetReset => fun v => with_config (on_broadcast (fun b => mkBroadcast (kb_enabled b)
      (kb_brokers b) (kb_topic b) (kb_group_id b) (kb_client_id b) v (kb_poll_timeout_ms b)))
  | FBroadcastPollTimeout => fun v => with_config (on_broadcast (fun b => mkBroadcast (kb_enabled b)
      (kb_brokers b) (kb_topic b) (kb_group_id b) (kb_client_id b) (kb_auto_offset_reset b) v))
  | FKcpHost => fun v => with_config (on_kcp (fun k => mkKcp (with_host v (kcp_local k)) (kcp_identity
      k) (kcp_peer k) (kcp_max_peer_links k) (kcp_broadcast_ttl k) (kcp_max_broadcast_fanout k)
      (kcp_max_seen_broadcasts k) (kcp_seen_broadcast_seconds k)))
  | FKcpPort => fun v => with_config (on_kcp (fun k => mkKcp (with_port v (kcp_local k)) (kcp_identity
      k) (kcp_peer k) (kcp_max_peer_links k) (kcp_broadcast_ttl k) (kcp_max_broadcast_fanout k)
      (kcp_max_seen_broadcasts k) (kcp_seen_broadcast_seconds k)))
  | FKcpPeerHost => fun v => with_config (on_kcp (fun k => mkKcp (kcp_local k) (kcp_identity k)
      (mkNode (with_host v (endpoint (kcp_peer k))) (node_id (kcp_peer k))) (kcp_max_peer_links k)
      (kcp_broadcast_ttl k) (kcp_max_broadcast_fanout k) (kcp_max_seen_broadcasts k)
      (kcp_seen_broadcast_seconds k)))
  | FKcpPeerPort => fun v => with_config (on_kcp (fun k => mkKcp (kcp_local k) (kcp_identity k)
      (mkNode (with_port v (endpoint (kcp_peer k))) (node_id (kcp_peer k))) (kcp_max_peer_links k)
      (kcp_broadcast_ttl k) (kcp_max_broadcast_fanout k) (kcp_max_seen_broadcasts k)
      (kcp_seen_broadcast_seconds k)))
  | FKcpPeerId => fun v => with_config (on_kcp (fun k => mkKcp (kcp_local k) (kcp_identity k) (mkNode
      (endpoint (kcp_peer k)) v) (kcp_max_peer_links k) (kcp_broadcast_ttl k)
      (kcp_max_broadcast_fanout k) (kcp_max_seen_broadcasts k) (kcp_seen_broadcast_seconds k)))
  | FKcpIdentity => fun v => with_config (on_kcp (fun k => mkKcp (kcp_local k) v (kcp_peer k)
      (kcp_max_peer_links k) (kcp_broadcast_ttl k) (kcp_max_broadcast_fanout k)
      (kcp_max_seen_broadcasts k) (kcp_seen_broadcast_seconds k)))
  | FBroadcastTtl => fun v => with_config (on_kcp (fun k => mkKcp (kcp_local k) (kcp_identity k)
      (kcp_peer k) (kcp_max_peer_links k) v (kcp_max_broadcast_fanout k) (kcp_max_seen_broadcasts k)
      (kcp_seen_broadcast_seconds k)))
  | FBroadcastFanout => fun v => with_config (on_kcp (fun k => mkKcp (kcp_local k) (kcp_identity k)
      (kcp_peer k) (kcp_max_peer_links k) (kcp_broadcast_ttl k) v (kcp_max_seen_broadcasts k)
      (kcp_seen_broadcast_seconds k)))
  | FBroadcastSeenCache => fun v => with_config (on_kcp (fun k => mkKcp (kcp_local k) (kcp_identity k)
      (kcp_peer k) (kcp_max_peer_links k) (kcp_broadcast_ttl k) (kcp_max_broadcast_fanout k) v
      (kcp_seen_broadcast_seconds k)))
  | FBroadcastSeenSeconds => fun v => with_config (on_kcp (fun k => mkKcp (kcp_local k) (kcp_identity
      k) (kcp_peer k) (kcp_max_peer_links k) (kcp_broadcast_ttl k) (kcp_max_broadcast_fanout k)
      (kcp_max_seen_broadcasts k) v))
  | FBootstrapNodes => fun v => with_config (on_discovery (fun d => mkDiscoveryConfig (identity d)
      (local_endpoint d) v (discovery_max_kcp_links d) (listen_backlog d)
      (route_feeler_interval_seconds d) (route_table_file d) (route_manager d)))
  | FRouteTableFile => fun v => with_config (on_discovery (fun d => mkDiscoveryConfig (identity d)
      (local_endpoint d) (bootstrap_nodes d) (discovery_max_kcp_links d) (listen_backlog d)
      (route_feeler_interval_seconds d) v (route_manager d)))
  | FMaxKcpLinks => fun v => with_config (on_discovery (fun d => mkDiscoveryConfig (identity d)
      (local_endpoint d) (bootstrap_nodes d) v (listen_backlog d) (route_feeler_interval_seconds d)
      (route_table_file d) (route_manager d)))
  | FMaxIngressStreams => fun v => with_config (on_admission (fun a => mkAdmissionConfig v
      (max_ingress_bytes_per_second a) (admission_max_kcp_links a)))
  | FMaxIngressBytes => fun v => with_config (on_admission (fun a => mkAdmissionConfig
      (max_ingress_streams a) v (admission_max_kcp_links a)))
  end.

(** ** Numbers *)

(** The common part of the parsers: the whole C string is a number for [strtoul]. *)
Definition whole_number (text : bytes) : option Z :=
  if str_empty text then None
  else match strtoul10 (c_str text) with
       | Some (value, []) => Some value
       | _ => None
       end.

Definition parse_u16 (text : bytes) : option Z :=
  value ← whole_number text;
  if (value =? 0) || (65535 <? value) then None else Some (wrap 16 value).

Definition parse_u32 (text : bytes) : option Z :=
  value ← whole_number text;
  if (value =? 0) || (u32_max <? value) then None else Some (wrap 32 value).

Definition parse_u8 (text : bytes) : option Z :=
  value ← parse_u32 text;
  if 255 <? value then None else Some (wrap 8 value).

Definition parse_size (text : bytes) : option Z :=
  value ← whole_number text;
  if value =? 0 then None else Some value.

Definition parse_size_allow_zero (text : bytes) : option Z := whole_number text.
Definition parse_u64_allow_zero (text : bytes) : option Z := whole_number text.

Definition not_empty (text : bytes) : option bytes := if str_empty text then None else Some text.

(** ** Options *)

Section options.
Context `{Ed25519} (evp : EvpEnv).

Definition configure_private_key (value : bytes) : option NodeIdentity :=
  private_key ← parse_hex_256 value;
  match derive_public_key evp private_key with
  | inl _ => None
  | inr public_key =>
      Some (mkIdentity (mkKeyPair private_key public_key) (node_id_from_public_key public_key) true)
  end.

(** What [parse_args] does with an option: [--help] ends the loop; some options set a member, most
    set a member from their value; [--private-key-hex] also notes that it was given, and
    [--bootstrap-node] appends. *)
Inductive Handler :=
  | Help
  | SetTo {A} (f : field A) (v : A)
  | SetFrom {A} (f : field A) (parse : bytes -> option A)
  | PrivateKeyHex
  | BootstrapNode.

(** The options up to those of Kafka, and those of the mesh. *)
Definition pipeline_options : list (bytes * Handler) :=
  [(str "--help", Help); (str "-h", Help);
   (str "--disable-tcp-ingress", SetTo FTcpEnabled false);
   (str "--generate-identity", SetTo FGenerateIdentity true);
   (str "--tcp-host", SetFrom FTcpHost Some);
   (str "--tcp-port", SetFrom FTcpPort parse_u16);
   (str "--edge-frame-max-payload", SetFrom FTcpMaxPayload parse_size);
   (str "--egress-host", SetFrom FEgressHost Some);
   (str "--egress-port", SetFrom FEgressPort parse_u16);
   (str "--egress-connect-timeout-ms", SetFrom FEgressTimeout parse_u32);
   (str "--redis-host", SetFrom FRedisHost Some);
   (str "--redis-port", SetFrom FRedisPort parse_u16);
   (str "--redis-config", SetFrom FRedisConfigFile not_empty);
   (str "--edge-config", SetFrom FRedisConfigFile not_empty);
   (str "--redis-connect-timeout-ms", SetFrom FRedisConnectTimeout parse_u32);
   (str "--redis-io-timeout-ms", SetFrom FRedisIoTimeout parse_u32);
   (str "--redis-state-ttl-seconds", SetFrom FRedisStateTtl parse_u32);
   (str "--redis-latest-ttl-seconds", SetFrom FRedisLatestTtl parse_u32);
   (str "--redis-seen-ttl-seconds", SetFrom FRedisSeenTtl parse_u32);
   (str "--kafka-brokers", SetFrom FKafkaBrokers Some);
   (str "--kafka-topic", SetFrom FKafkaTopic Some);
   (str "--kafka-client-id", SetFrom FKafkaClientId Some);
   (str "--kafka-acks", SetFrom FKafkaAcks Some);
   (str "--enable-kafka-broadcast", SetTo FBroadcastEnabled true);
   (str "--kafka-broadcast-group-id", SetFrom FBroadcastGroupId not_empty);
   (str "--kafka-broadcast-client-id", SetFrom FBroadcastClientId not_empty);
   (str "--kafka-broadcast-auto-offset-reset", SetFrom FBroadcastOffsetReset not_empty);
   (str "--kafka-broadcast-poll-timeout-ms", SetFrom FBroadcastPollTimeout parse_u32)].

Definition mesh_options : list (bytes * Handler) :=
  [(str "--kcp-host", SetFrom FKcpHost Some);
   (str "--kcp-port", SetFrom FKcpPort parse_u16);
   (str "--kcp-peer-host", SetFrom FKcpPeerHost Some);
   (str "--kcp-peer-port", SetFrom FKcpPeerPort parse_u16);
   (str "--peer-id-hex", SetFrom FKcpPeerId parse_convid_hex);
   (str "--conv", SetFrom FKcpPeerId (fun text => conv32 ← parse_u32 text; Some (from_uint32 conv32)));
   (str "--conv-hex", SetFrom FKcpPeerId parse_convid_hex);
   (str "--private-key-hex", PrivateKeyHex);
   (str "--identity-file", SetFrom FIdentityFile not_empty);
   (str "--bootstrap-node", BootstrapNode);
   (str "--route-table-file", SetFrom FRouteTableFile Some);
   (str "--max-kcp-links", SetFrom FMaxKcpLinks parse_size);
   (str "--max-ingress-streams", SetFrom FMaxIngressStreams parse_size_allow_zero);
   (str "--max-ingress-bytes-per-second", SetFrom FMaxIngressBytes parse_u64_allow_zero);
   (str "--broadcast-ttl", SetFrom FBroadcastTtl parse_u8);
   (str "--broadcast-fanout", SetFrom FBroadcastFanout parse_size);
   (str "--broadcast-seen-cache", SetFrom FBroadcastSeenCache parse_size);
   (str "--broadcast-seen-seconds", SetFrom FBroadcastSeenSeconds parse_u32);
   (str "--node-id", SetFrom FTcpNodeId parse_u32);
   (str "--workers", SetFrom FTcpWorkers parse_size)].

Definition options : list (bytes * Handler) := pipeline_options ++ mesh_options.

Fixpoint handler_of (table : list (bytes * Handler)) (arg : bytes) : option Handler :=
  match table with
  | [] => None
  | (name, h) :: table => if bool_decide (arg = name) then Some h else handler_of table arg
  end.

Definition option_handler (arg : bytes) : option Handler := handler_of options arg.

(** An option without a value, and one with its value. *)
Definition takes_value (h : Handler) : bool :=
  match h with Help | SetTo _ _ => false | _ => true end.

Definition apply_handler (h : Handler) (value : bytes) (o : Options) : option Options :=
  match h with
  | Help => Some (set FHelp true o)
  | SetTo f v => Some (set f v o)
  | SetFrom f parse => v ← parse value; Some (set f v o)
  | PrivateKeyHex =>
      ident ← configure_private_key value;
      Some (set FPrivateKeyOverride true (set FKcpIdentity ident o))
  | BootstrapNode =>
      node ← parse_node_address value;
      Some (set FBootstrapNodes (get FBootstrapNodes o ++ [node]) o)
  end.

(** The loop of [parse_args]; [require_value] takes the next argument. *)
Fixpoint parse_loop (args : list bytes) (o : Options) : option Options :=
  match args with
  | [] => Some o
  | arg :: rest =>
      match option_handler arg with
      | None => None
      | Some Help => apply_handler Help [] o
      | Some h =>
          if takes_value h then
            match rest with
            | [] => None
            | value :: rest => match apply_handler h value o with None => None | Some o => parse_loop rest o end
            end
          else match apply_handler h [] o with None => None | Some o => parse_loop rest o end
      end
  end.

Definition parse_args (args : list bytes) (o : Options) : option Options :=
  parse_loop args (set FHelp false (set FGenerateIdentity false (set FPrivateKeyOverride false o))).
End options.

Definition is_help_arg (arg : bytes) : bool := bool_decide (arg = str "--help") || bool_decide (arg = str "-h").
Definition has_help_arg (args : list bytes) : bool := existsb is_help_arg args.

Definition is_config_arg (arg : bytes) : bool :=
  bool_decide (arg = str "--redis-config") || bool_decide (arg = str "--edge-config").

(** [find_redis_config_arg]: the file and whether it was given; [None] is [false]. *)
Fixpoint find_redis_config_arg (args : list bytes) (file : bytes) (explicit : bool) : option (bytes * bool) :=
  match args with
  | [] => Some (file, explicit)
  | arg :: rest =>
      if is_config_arg arg then
        match rest with
        | [] => None
        | value :: rest => find_redis_config_arg rest value true
        end
      else find_redis_config_arg rest file explicit
  end.

(** ** The configuration file *)

(** [redis_config_value] *)
Definition redis_config_value (doc : json) (primary : bytes) (fallback : option bytes) : option json :=
  match jfind primary doc with
  | Some v => Some v
  | None => match fallback with Some key => jfind key doc | None => None end
  end.

(** [json_scalar_to_string] *)
Definition json_scalar_to_string (v : json) : option bytes :=
  match v with
  | JString s => Some s
  | _ => if is_number_integer v then z ← get_ll v; Some (to_string_signed z)
         else if is_number_unsigned v then z ← get_ull v; Some (to_string z)
         else None
  end.

Definition scalar_number (parse : bytes -> option Z) (v : json) : option Z :=
  text ← json_scalar_to_string v; parse text.

(** A member of the file: its names, the field it sets, how it is read, and the error. *)
Record FileField := mkFileField {
  ff_type : Type;
  ff_primary : bytes;
  ff_fallback : option bytes;
  ff_field : field ff_type;
  ff_read : json -> option ff_type;
  ff_error : bytes;
}.

Definition text_field (primary : bytes) (fallback : option bytes) (f : field bytes) : FileField :=
  mkFileField bytes primary fallback f get_string (primary ++ str " must be a string").

Definition u32_field (primary : bytes) (fallback : option bytes) (f : field Z) : FileField :=
  mkFileField Z primary fallback f (scalar_number parse_u32) (primary ++ str " must be a positive uint32").

(** The members for Redis and the producer, and those for the consumer. *)
Definition edge_fields : list FileField :=
  [text_field (str "redis-host") (Some (str "host")) FRedisHost;
   mkFileField Z (str "redis-port") (Some (str "port")) FRedisPort (scalar_number parse_u16)
     (str "redis-port must be 1..65535");
   u32_field (str "redis-connect-timeout-ms") (Some (str "connect_timeout_ms")) FRedisConnectTimeout;
   u32_field (str "redis-io-timeout-ms") (Some (str "io_timeout_ms")) FRedisIoTimeout;
   u32_field (str "redis-state-ttl-seconds") (Some (str "device_state_ttl_seconds")) FRedisStateTtl;
   u32_field (str "redis-latest-ttl-seconds") (Some (str "device_latest_ttl_seconds")) FRedisLatestTtl;
   u32_field (str "redis-seen-ttl-seconds") (Some (str "seen_ttl_seconds")) FRedisSeenTtl;
   u32_field (str "kafka-message-timeout-ms") (Some (str "message_timeout_ms")) FKafkaMessageTimeout;
   u32_field (str "kafka-flush-timeout-ms") (Some (str "flush_timeout_ms")) FKafkaFlushTimeout;
   text_field (str "kafka-brokers") (Some (str "brokers")) FKafkaBrokers;
   text_field (str "kafka-topic") (Some (str "topic")) FKafkaTopic;
   text_field (str "kafka-client-id") (Some (str "client_id")) FKafkaClientId;
   text_field (str "kafka-acks") (Some (str "acks")) FKafkaAcks].

Definition broadcast_fields : list FileField :=
  [mkFileField bool (str "kafka-broadcast-enabled") None FBroadcastEnabled get_bool
     (str "kafka-broadcast-enabled must be a boolean");
   text_field (str "kafka-broadcast-group-id") None FBroadcastGroupId;
   text_field (str "kafka-broadcast-client-id") None FBroadcastClientId;
   text_field (str "kafka-broadcast-auto-offset-reset") None FBroadcastOffsetReset;
   u32_field (str "kafka-broadcast-poll-timeout-ms") None FBroadcastPollTimeout].

Definition file_fields : list FileField := edge_fields ++ broadcast_fields.

Definition read_field (doc : json) (ff : FileField) (o : Options) : result Options :=
  match redis_config_value doc (ff_primary ff) (ff_fallback ff) with
  | None => inr o
  | Some v => match ff_read ff v with
              | None => inl (ff_error ff)
              | Some x => inr (set (ff_field ff) x o)
              end
  end.

Fixpoint read_fields (doc : json) (ffs : list FileField) (o : Options) : result Options :=
  match ffs with
  | [] => inr o
  | ff :: ffs => match read_field doc ff o with inl error => inl error | inr o => read_fields doc ffs o end
  end.

Section main.
Context `{Ed25519} `{JsonFileApi} (evp : EvpEnv).

(** [load_redis_config_json]: [input] is the contents of the file, [None] when it cannot be
    opened.  Members that were read before an error are not used after it. *)
Definition load_redis_config_json (path : bytes) (input : option bytes) (o : Options) : result Options :=
  if str_empty path then inl []
  else
    match input with
    | None => inl (str "failed to open file")
    | Some text =>
        match json_read text with
        | inl what => inl what
        | inr doc =>
            if negb (is_object doc) then inl (str "redis config must be a JSON object")
            else read_fields doc file_fields o
        end
    end.

(** ** main *)

(** [parent / name] *)
Definition path_append (parent name : bytes) : bytes :=
  (if bool_decide (last parent = Some x2f) then parent else parent ++ str "/") ++ name.

Definition default_route_table_file (identity_file : bytes) : bytes :=
  let parent := parent_path identity_file in
  if negb (str_empty parent) then path_append parent (str "routes.json") else str "iota_routes.json".

(** [config_dir] is the macro [IOTA_PROXY_DEFAULT_CONFIG_DIR]. *)
Definition default_redis_config_file (config_dir : option bytes) : bytes :=
  match config_dir with
  | Some dir => path_append dir (str "edge_pipeline.json")
  | None => str "config/edge_pipeline.json"
  end.

(** How [main] ends before the runtime is started: with an exit status, an exception that leaves
    [main], or with the configuration of the runtime. *)
Inductive MainResult :=
  | Exit (status : Z)
  | MainThrew
  | StartRuntime (config : ProxyRuntimeConfig) (identity_created : bool).

(** The members set after the options have been read. *)
Definition complete_config (identity_file : bytes) (ident : NodeIdentity) (file_nodes : list NodeAddress)
    (c : ProxyRuntimeConfig) : ProxyRuntimeConfig :=
  let k := cfg_kcp c in
  let d := cfg_discovery c in
  let links := discovery_max_kcp_links d in
  let b := cfg_broadcast c in
  mkConfig
    (mkAdmissionConfig (max_ingress_streams (cfg_admission c)) (max_ingress_bytes_per_second (cfg_admission c)) links)
    (cfg_tcp c) (cfg_egress c) (cfg_redis c) (cfg_kafka c)
    (mkBroadcast (kb_enabled b)
       (if str_empty (kb_brokers b) then kf_brokers (cfg_kafka c) else kb_brokers b)
       (if str_empty (kb_topic b) then kf_topic (cfg_kafka c) else kb_topic b)
       (kb_group_id b) (kb_client_id b) (kb_auto_offset_reset b) (kb_poll_timeout_ms b))
    (mkKcp (kcp_local k) ident (kcp_peer k) links (kcp_broadcast_ttl k) (kcp_max_broadcast_fanout k)
       (kcp_max_seen_broadcasts k) (kcp_seen_broadcast_seconds k))
    (mkDiscoveryConfig ident (kcp_local k) (file_nodes ++ bootstrap_nodes d) links (listen_backlog d)
       (route_feeler_interval_seconds d)
       (if str_empty (route_table_file d) then default_route_table_file identity_file else route_table_file d)
       (route_manager d)).

(** The identity: given on the command line and saved, or loaded or created.  [None] is an
    exception. *)
Definition main_identity (fs : FsEnv) (readable : bytes -> bool) (o : Options) (files : gmap bytes bytes)
    : option (result (NodeIdentity * bool)) * gmap bytes bytes :=
  let path := opt_identity_file o in
  if opt_private_key_override o then
    let ident := kcp_identity (cfg_kcp (opt_config o)) in
    match save_node_identity_to_json fs (readable path) path ident files with
    | (FileOk, files) => (Some (inr (ident, false)), files)
    | (FileError error, files) => (Some (inl error), files)
    | (FileThrew, files) => (None, files)
    end
  else load_or_create_node_identity evp fs (readable path) path files.

Definition open_input (readable : bytes -> bool) (files : gmap bytes bytes) (path : bytes) : option bytes :=
  if readable path then files !! path else None.

(** [main] after the options have been parsed. *)
Definition main_start (fs : FsEnv) (readable : bytes -> bool) (o : Options) (files : gmap bytes bytes)
    : MainResult * gmap bytes bytes :=
  match main_identity fs readable o files with
  | (None, files) => (MainThrew, files)
  | (Some (inl _), files) => (Exit 1, files)
  | (Some (inr (ident, created)), files) =>
      match load_bootstrap_nodes_from_json (open_input readable files (opt_identity_file o)) with
      | (Some _, _) => (Exit 1, files)
      | (None, nodes) =>
          (StartRuntime (complete_config (opt_identity_file o) ident nodes (opt_config o)) created, files)
      end
  end.

Definition initial_options (home config_dir : option bytes) : Options :=
  mkOptions ProxyRuntimeConfig_default false false (default_identity_file_path home) false
    (default_redis_config_file config_dir).

(** The configuration file is read before the options; [exists] is a file of the map. *)
Definition main_config (readable : bytes -> bool) (args : list bytes) (o : Options) (files : gmap bytes bytes)
    : Z + Options :=
  match find_redis_config_arg args (opt_redis_config_file o) false with
  | None => inl 2
  | Some (file, explicit) =>
      let o := set FRedisConfigFile file o in
      let loaded :=
        if explicit || bool_decide (is_Some (files !! file))
        then load_redis_config_json file (open_input readable files file) o else inr o in
      match loaded with
      | inl _ => inl 1
      | inr o => match parse_args evp args o with None => inl 2 | Some o => inr o end
      end
  end.

Definition main_run (home config_dir : option bytes) (fs : FsEnv) (readable : bytes -> bool)
    (args : list bytes) (files : gmap bytes bytes) : MainResult * gmap bytes bytes :=
  if has_help_arg args then (Exit 0, files)
  else
    match main_config readable args (initial_options home config_dir) files with
    | inl status => (Exit status, files)
    | inr o =>
        if opt_help o then (Exit 0, files)
        else if opt_generate_identity o then
          (match generate_node_key_pair evp with inl _ => Exit 1 | inr _ => Exit 0 end, files)
        else main_start fs readable o files
    end.
End main.
