(* ===== verification/CommandLineProofs.v ===== *)
(** The command line: which setting wins, that every configuration the runtime is started with is
    valid, and that [main] changes no file but the identity, which it never overwrites unasked. *)
From S2P Require Import Prelude KcpConv Frames Identity Double Routes RouteInvariant Json FileStore RouteJson RouteJsonProofs IdentityFile IdentityFileProofs Admission Discovery CommandLine.

(** ** Members *)

(** Members of different types are told apart by a number. *)
Definition field_id {A} (f : field A) : nat :=
  match f with
  | FHelp => 0 | FGenerateIdentity => 1 | FPrivateKeyOverride => 2 | FIdentityFile => 3
  | FRedisConfigFile => 4 | FTcpEnabled => 5 | FTcpHost => 6 | FTcpPort => 7 | FTcpWorkers => 8
  | FTcpNodeId => 9 | FTcpMaxPayload => 10 | FEgressHost => 11 | FEgressPort => 12
  | FEgressTimeout => 13 | FRedisHost => 14 | FRedisPort => 15 | FRedisConnectTimeout => 16
  | FRedisIoTimeout => 17 | FRedisStateTtl => 18 | FRedisLatestTtl => 19 | FRedisSeenTtl => 20
  | FKafkaBrokers => 21 | FKafkaTopic => 22 | FKafkaClientId => 23 | FKafkaAcks => 24
  | FKafkaMessageTimeout => 25 | FKafkaFlushTimeout => 26 | FBroadcastEnabled => 27
  | FBroadcastGroupId => 28 | FBroadcastClientId => 29 | FBroadcastOffsetReset => 30
  | FBroadcastPollTimeout => 31 | FKcpHost => 32 | FKcpPort => 33 | FKcpPeerHost => 34
  | FKcpPeerPort => 35 | FKcpPeerId => 36 | FKcpIdentity => 37 | FBroadcastTtl => 38
  | FBroadcastFanout => 39 | FBroadcastSeenCache => 40 | FBroadcastSeenSeconds => 41
  | FBootstrapNodes => 42 | FRouteTableFile => 43 | FMaxKcpLinks => 44
  | FMaxIngressStreams => 45 | FMaxIngressBytes => 46
  end%nat.

Lemma get_set_eq {A} (f : field A) v o : get f (set f v o) = v.
Proof. destruct f; reflexivity. Qed.

Lemma get_set_ne {A B} (f : field A) (g : field B) v o :
  field_id f <> field_id g -> get g (set f v o) = get g o.
Proof. destruct f, g; first [reflexivity | intros Hne; by destruct Hne]. Qed.

(** ** The loop of the options *)

Section parse.
Context `{Ed25519} (evp : EvpEnv).

Abbreviation parse_loop := (parse_loop evp).
Abbreviation parse_args := (parse_args evp).
Abbreviation apply_handler := (apply_handler evp).

(** The members an option sets. *)
Definition targets (h : Handler) : list nat :=
  match h with
  | Help => [field_id FHelp]
  | SetTo f _ | SetFrom f _ => [field_id f]
  | PrivateKeyHex => [field_id FKcpIdentity; field_id FPrivateKeyOverride]
  | BootstrapNode => [field_id FBootstrapNodes]
  end.

Lemma apply_handler_frame {A} (g : field A) h value o o' :
  apply_handler h value o = Some o' -> field_id g ∉ targets h -> get g o' = get g o.
Proof.
  destruct h as [|B f v|B f parse| |]; unfold CommandLine.apply_handler, targets.
  - intros Heq Hg. apply (inj Some) in Heq as <-. apply get_set_ne. set_solver.
  - intros Heq Hg. apply (inj Some) in Heq as <-. apply get_set_ne. set_solver.
  - intros (v & _ & Heq)%bind_Some Hg. apply (inj Some) in Heq as <-. apply get_set_ne. set_solver.
  - intros (i & _ & Heq)%bind_Some Hg. apply (inj Some) in Heq as <-. rewrite !get_set_ne by set_solver. done.
  - intros (n & _ & Heq)%bind_Some Hg. apply (inj Some) in Heq as <-. apply get_set_ne. set_solver.
Qed.

(** The arguments are complete options, without [--help]. *)
Fixpoint complete (args : list bytes) : bool :=
  match args with
  | [] => true
  | arg :: rest =>
      match option_handler arg with
      | None | Some Help => false
      | Some h => if takes_value h then match rest with [] => false | _ :: rest => complete rest end
                  else complete rest
      end
  end.

(** An option of the arguments sets the member, before [--help]. *)
Fixpoint mentions (id : nat) (args : list bytes) : bool :=
  match args with
  | [] => false
  | arg :: rest =>
      match option_handler arg with
      | None => false
      | Some h =>
          bool_decide (id ∈ targets h) ||
          match h with
          | Help => false
          | _ => if takes_value h then match rest with [] => false | _ :: rest => mentions id rest end
                 else mentions id rest
          end
      end
  end.

(** The loops take one or two arguments at a time. *)
Lemma args_ind (P : list bytes -> Prop) :
  P [] -> (forall arg rest, P rest -> (forall v rest', rest = v :: rest' -> P rest') -> P (arg :: rest)) ->
  forall args, P args.
Proof.
  intros H0 Hs args. enough (P args /\ forall v rest, args = v :: rest -> P rest) by tauto.
  induction args as [|a args [IH1 IH2]]; split; [done|done| |].
  - apply Hs; done.
  - intros v rest [= _ <-]. done.
Qed.

(** One turn of the loop for an option that is not [--help]. *)
Lemma parse_loop_cons arg rest o h :
  option_handler arg = Some h -> h <> Help ->
  parse_loop (arg :: rest) o =
    if takes_value h then match rest with
                          | [] => None
                          | value :: rest => (apply_handler h value o ≫= parse_loop rest)
                          end
    else (apply_handler h [] o ≫= parse_loop rest).
Proof.
  intros Hh Hne. cbn [CommandLine.parse_loop]. rewrite Hh. destruct h; [done|..]; cbn [takes_value].
  - destruct (apply_handler _ _ _); done.
  - destruct rest; [done|]. destruct (apply_handler _ _ _); done.
  - destruct rest; [done|]. destruct (apply_handler _ _ _); done.
  - destruct rest; [done|]. destruct (apply_handler _ _ _); done.
Qed.

Lemma mentions_cons id arg rest h :
  option_handler arg = Some h -> h <> Help -> mentions id (arg :: rest) = false ->
  (id ∉ targets h) /\ mentions id (if takes_value h then tail rest else rest) = false.
Proof.
  intros Hh Hne. cbn [mentions]. rewrite Hh. intros [Hd Hm]%orb_false_iff.
  apply bool_decide_eq_false in Hd. split; [done|].
  destruct h; [done|..]; cbn [takes_value] in *; [done|..]; destruct rest; done.
Qed.

(** A member that no option sets keeps its value. *)
Lemma parse_loop_frame {A} (g : field A) args : forall o o',
  parse_loop args o = Some o' -> mentions (field_id g) args = false -> get g o' = get g o.
Proof.
  induction args as [|arg rest IH1 IH2] using args_ind; intros o o'; [intros [= <-]; done|].
  destruct (option_handler arg) as [h|] eqn:Hh; [|cbn [CommandLine.parse_loop]; by rewrite Hh].
  destruct (decide (takes_value h = false /\ targets h = [field_id FHelp])) as [[Ht Hf]|Hne].
  - intros Hp Hm. cbn [mentions] in Hm. rewrite Hh in Hm. apply orb_false_iff in Hm as [Hd Hm].
    apply bool_decide_eq_false in Hd. cbn [CommandLine.parse_loop] in Hp. rewrite Hh in Hp.
    destruct h; try done; [by eapply apply_handler_frame|].
    cbn [takes_value] in Hp, Hm. destruct (apply_handler _ _ _) as [o1|] eqn:Ha; [|done].
    rewrite (IH1 _ _ Hp Hm). by eapply apply_handler_frame.
  - assert (h <> Help) as Hnh by (intros ->; by apply Hne).
    rewrite (parse_loop_cons _ _ _ _ Hh Hnh). intros Hp Hm.
    destruct (mentions_cons _ _ _ _ Hh Hnh Hm) as [Hd Hm'].
    destruct (takes_value h); [destruct rest as [|v rest]; [done|]|];
      apply bind_Some in Hp as (o1 & Ha & Hp); [rewrite (IH2 _ _ eq_refl _ _ Hp Hm')|rewrite (IH1 _ _ Hp Hm')];
      by eapply apply_handler_frame.
Qed.

Lemma parse_loop_app pre post : forall o,
  complete pre = true -> parse_loop (pre ++ post) o = parse_loop pre o ≫= parse_loop post.
Proof.
  induction pre as [|arg rest IH1 IH2] using args_ind; intros o; [done|].
  intros Hc. pose proof Hc as Hc'. cbn [complete] in Hc.
  destruct (option_handler arg) as [h|] eqn:Hh; [|done].
  assert (h <> Help) as Hnh by (intros ->; done).
  assert ((if takes_value h then match rest with [] => false | _ :: rest => complete rest end
           else complete rest) = true) as Hc1 by (destruct h; done). clear Hc.
  rewrite <- app_comm_cons, !(parse_loop_cons _ _ _ _ Hh Hnh).
  destruct (takes_value h); [destruct rest as [|v rest]; [done|]; cbn [app]|];
    destruct (apply_handler _ _ _) as [o1|]; cbn [mbind option_bind]; [|done| |done].
  - by apply (IH2 v rest).
  - by apply IH1.
Qed.

(** The last option that sets a member decides: its value is the one the text of this option
    stands for, whatever the configuration held before and whatever precedes. *)
Lemma last_option_wins {A} (f : field A) parse name value pre post o o' :
  option_handler name = Some (SetFrom f parse) -> complete pre = true ->
  mentions (field_id f) post = false ->
  parse_args (pre ++ name :: value :: post) o = Some o' -> parse value = Some (get f o').
Proof.
  intros Hn Hpre Hpost. unfold CommandLine.parse_args. rewrite parse_loop_app by done.
  intros (o1 & _ & Hp)%bind_Some. rewrite (parse_loop_cons _ _ _ _ Hn) in Hp by done. cbn [takes_value] in Hp.
  apply bind_Some in Hp as (o2 & Ha & Hp). apply bind_Some in Ha as (v & Hv & Ha).
  apply (inj Some) in Ha as <-. rewrite (parse_loop_frame f _ _ _ Hp Hpost), get_set_eq. done.
Qed.

(** The members that [parse_args] resets. *)
Definition reset_fields : list nat := [field_id FHelp; field_id FGenerateIdentity; field_id FPrivateKeyOverride].

Lemma unmentioned_kept {A} (f : field A) args o o' :
  parse_args args o = Some o' -> mentions (field_id f) args = false -> field_id f ∉ reset_fields ->
  get f o' = get f o.
Proof.
  unfold CommandLine.parse_args, reset_fields. intros Hp Hm Hr. rewrite (parse_loop_frame f _ _ _ Hp Hm).
  rewrite !get_set_ne by set_solver. done.
Qed.
End parse.

(** ** The configuration file *)

Definition ff_id (ff : FileField) : nat := field_id (ff_field ff).

Lemma read_field_frame {A} (g : field A) doc ff o o' :
  read_field doc ff o = inr o' -> field_id g <> ff_id ff -> get g o' = get g o.
Proof.
  unfold read_field. destruct (redis_config_value _ _ _) as [v|]; [|intros [= <-]; done].
  destruct (ff_read ff v) as [x|]; [|done]. intros Heq Hne. apply (inj inr) in Heq as <-.
  apply get_set_ne. unfold ff_id in Hne. congruence.
Qed.

Lemma read_fields_frame {A} (g : field A) doc ffs : forall o o',
  read_fields doc ffs o = inr o' -> field_id g ∉ ff_id <$> ffs -> get g o' = get g o.
Proof.
  induction ffs as [|ff ffs IH]; intros o o'; [intros [= <-]; done|]. cbn [read_fields].
  destruct (read_field doc ff o) as [|o1] eqn:H1; [done|]. intros Hr Hg.
  rewrite fmap_cons, not_elem_of_cons in Hg. destruct Hg as [Hne Hg].
  rewrite (IH _ _ Hr Hg). by eapply read_field_frame.
Qed.

(** What a member of the file says about its field. *)
Definition file_says (doc : json) (ff : FileField) (o o' : Options) : Prop :=
  match redis_config_value doc (ff_primary ff) (ff_fallback ff) with
  | Some j => ff_read ff j = Some (get (ff_field ff) o')
  | None => get (ff_field ff) o' = get (ff_field ff) o
  end.

Lemma read_fields_spec doc ffs ff : forall o o',
  read_fields doc ffs o = inr o' -> NoDup (ff_id <$> ffs) -> ff ∈ ffs -> file_says doc ff o o'.
Proof.
  induction ffs as [|ff1 ffs IH]; intros o o'; [set_solver|]. cbn [read_fields].
  destruct (read_field doc ff1 o) as [|o1] eqn:H1; [done|]. intros Hr.
  rewrite fmap_cons, NoDup_cons. intros [Hn Hnd] [->|Hin]%elem_of_cons; unfold file_says.
  - rewrite (read_fields_frame _ _ _ _ _ Hr) by done. unfold read_field in H1.
    destruct (redis_config_value _ _ _) as [v|]; [|by injection H1 as <-].
    destruct (ff_read ff1 v) as [x|]; [|done]. apply (inj inr) in H1 as <-. by rewrite get_set_eq.
  - pose proof (IH _ _ Hr Hnd Hin) as Hs. unfold file_says in Hs.
    destruct (redis_config_value _ _ _); [done|]. rewrite Hs. eapply read_field_frame; [exact H1|].
    intros Heq. apply Hn. rewrite <- Heq. by apply list_elem_of_fmap_2 with (f := ff_id).
Qed.

Lemma file_fields_distinct : NoDup (ff_id <$> file_fields).
Proof. apply (bool_decide_unpack _). vm_compute. exact I. Qed.

Lemma file_field_plain ff :
  ff ∈ file_fields -> ff_id ff ∉ field_id FRedisConfigFile :: reset_fields.
Proof.
  intros Hin. assert (Forall (fun i => i ∉ field_id FRedisConfigFile :: reset_fields) (ff_id <$> file_fields)) as Hall.
  { apply (bool_decide_unpack _). vm_compute. exact I. }
  rewrite Forall_forall in Hall. apply Hall. by apply list_elem_of_fmap_2.
Qed.

Section config.
Context `{Ed25519} `{JsonFileApi} (evp : EvpEnv).

(** The document [main] reads, if it reads one. *)
Definition config_document (readable : bytes -> bool) (args : list bytes) (o : Options)
    (files : gmap bytes bytes) : option json :=
  match find_redis_config_arg args (opt_redis_config_file o) false with
  | None => None
  | Some (file, explicit) =>
      if explicit || bool_decide (is_Some (files !! file)) then
        text ← open_input readable files file;
        match json_read text with inl _ => None | inr doc => Some doc end
      else None
  end.

(** What [main_config] does when it succeeds: the fields of the document, then the options. *)
Lemma main_config_steps readable args o o' files :
  main_config evp readable args o files = inr o' ->
  exists file o1, parse_args evp args o1 = Some o' /\
    match config_document readable args o files with
    | Some doc => read_fields doc file_fields (set FRedisConfigFile file o) = inr o1
    | None => o1 = set FRedisConfigFile file o
    end.
Proof.
  unfold main_config, config_document. intros Hm.
  destruct (find_redis_config_arg _ _ _) as [[file explicit]|]; [|done].
  exists file. destruct (explicit || _); cycle 1.
  { destruct (parse_args _ _ _) as [o2|] eqn:Hp; [|done]. injection Hm as <-. eauto. }
  unfold load_redis_config_json in Hm. destruct (str_empty file); [done|].
  destruct (open_input readable files file) as [text|]; [|done]. cbn [mbind option_bind].
  destruct (json_read text) as [what|doc]; [done|]. destruct (is_object doc); [|done]. cbn [negb] in Hm.
  destruct (read_fields doc file_fields _) as [|o1] eqn:Hr; [done|].
  destruct (parse_args _ _ _) as [o2|] eqn:Hp; [|done]. injection Hm as <-. eauto.
Qed.

(** Which setting wins: the last option of the command line that sets a member, with its text
    parsed; without such an option the configuration file; and without a member of the file the
    value built in. *)
Theorem settings_precedence readable args o o' files ff :
  ff ∈ file_fields -> main_config evp readable args o files = inr o' ->
  (forall pre name value post parse, args = pre ++ name :: value :: post ->
     option_handler name = Some (SetFrom (ff_field ff) parse) -> complete pre = true ->
     mentions (field_id (ff_field ff)) post = false -> parse value = Some (get (ff_field ff) o')) /\
  (mentions (field_id (ff_field ff)) args = false ->
     match config_document readable args o files with
     | Some doc => file_says doc ff o o'
     | None => get (ff_field ff) o' = get (ff_field ff) o
     end).
Proof.
  intros Hin Hm. destruct (main_config_steps _ _ _ _ _ Hm) as (file & o1 & Hp & Hdoc).
  pose proof (file_field_plain ff Hin) as Hplain. unfold ff_id in Hplain.
  rewrite not_elem_of_cons in Hplain. destruct Hplain as [Hcfg Hreset]. split.
  - intros pre name value post parse -> Hn Hpre Hpost. by eapply last_option_wins.
  - intros Hno. pose proof (unmentioned_kept evp _ _ _ _ Hp Hno Hreset) as Hk.
    destruct (config_document _ _ _ _) as [doc|].
    + pose proof (read_fields_spec _ _ _ _ _ Hdoc file_fields_distinct Hin) as Hs. unfold file_says in *.
      rewrite Hk. destruct (redis_config_value _ _ _); [done|]. rewrite Hs. by apply get_set_ne.
    + rewrite Hk, Hdoc. by apply get_set_ne.
Qed.
End config.

(** ** Valid configurations *)

Section valid.
Context `{Ed25519} `{JsonFileApi} (evp : EvpEnv).

Definition field_ok {A} (f : field A) : A -> Prop :=
  match f with
  | FTcpPort | FKcpPort => fun v => 1 <= v <= 65535
  | FEgressPort | FRedisPort | FKcpPeerPort => fun v => 0 <= v <= 65535
  | FTcpWorkers | FTcpMaxPayload | FMaxKcpLinks | FBroadcastFanout | FBroadcastSeenCache =>
      fun v => 1 <= v <= u64_max
  | FMaxIngressStreams | FMaxIngressBytes => fun v => 0 <= v <= u64_max
  | FTcpNodeId | FEgressTimeout | FRedisConnectTimeout | FRedisIoTimeout | FRedisStateTtl
  | FRedisLatestTtl | FRedisSeenTtl | FKafkaMessageTimeout | FKafkaFlushTimeout
  | FBroadcastPollTimeout | FBroadcastSeenSeconds => fun v => 1 <= v <= u32_max
  | FBroadcastTtl => fun v => 1 <= v <= u8_max
  | FBootstrapNodes => Forall address_ok
  | FKcpPeerId => conv_wf
  | FKcpIdentity => fun v => configured v = true -> exists sk, length sk = 32%nat /\ v = identity_of sk
  | FIdentityFile => fun v => v <> []
  | _ => fun _ => True
  end.

Record options_ok (o : Options) : Prop := {
  oo_fields : forall A (f : field A), field_ok f (get f o);
  oo_routes : config_ok (route_manager (cfg_discovery (opt_config o)));
}.

Lemma options_ok_set {A} (f : field A) v o : options_ok o -> field_ok f v -> options_ok (set f v o).
Proof.
  intros [Ho Hr] Hv. split; [intros B g|destruct f; exact Hr].
  destruct (decide (field_id f = field_id g)) as [Heq|Hne]; cycle 1.
  { rewrite get_set_ne by done. apply Ho. }
  destruct f, g; try discriminate Heq; exact Hv.
Qed.

(** *** The parsers *)

Lemma whole_number_range text v : whole_number text = Some v -> 0 <= v <= u64_max.
Proof.
  unfold whole_number. case_cond; [done|].
  destruct (strtoul10 (c_str text)) as [[w rest]|] eqn:Hs; [|done]. destruct rest; [|done].
  intros [= <-]. split; [by eapply strtoul10_nonneg|]. revert Hs. unfold strtoul10.
  destruct (match skip_space _ with [] => _ | _ => _ end) as [neg r]. destruct r as [|b r]; [done|].
  case_cond; [|done]. destruct (scan_digits 0 (b :: r)) as [x q]. intros [= <- _].
  case_cond; [done|]. bool_norm. case_cond; [|lia].
  pose proof (wrap_fits 64 (- x) ltac:(lia)) as Hw. unfold fits, u64_max in *. lia.
Qed.

Lemma parse_u16_range text v : parse_u16 text = Some v -> 1 <= v <= 65535.
Proof.
  intros (w & Hw%whole_number_range & Hv)%bind_Some. case_cond_in Hv; [done|]. bool_norm.
  injection Hv as <-. rewrite wrap_id by (split; lia). lia.
Qed.

Lemma parse_u32_range text v : parse_u32 text = Some v -> 1 <= v <= u32_max.
Proof.
  intros (w & Hw%whole_number_range & Hv)%bind_Some. case_cond_in Hv; [done|]. bool_norm.
  injection Hv as <-. unfold u32_max in *. rewrite wrap_id by (split; lia). lia.
Qed.

Lemma parse_u8_range text v : parse_u8 text = Some v -> 1 <= v <= u8_max.
Proof.
  intros (w & Hw%parse_u32_range & Hv)%bind_Some. case_cond_in Hv; [done|]. bool_norm.
  injection Hv as <-. unfold u8_max. rewrite wrap_id by (split; lia). lia.
Qed.

Lemma parse_size_range text v : parse_size text = Some v -> 1 <= v <= u64_max.
Proof.
  intros (w & Hw%whole_number_range & Hv)%bind_Some. case_cond_in Hv; [done|]. bool_norm.
  injection Hv as <-. lia.
Qed.

(** Every number in range can be given. *)
Lemma whole_number_print z : fits 64 z -> whole_number (to_string z) = Some z.
Proof.
  intros Hz. destruct (to_string_clean z Hz) as (Hne & _ & Hnul). unfold whole_number.
  rewrite str_empty_false, c_str_clean, strtoul10_to_string by done. done.
Qed.

(** *** The options *)

Definition handler_ok (h : Handler) : Prop :=
  match h with
  | SetTo f v => field_ok f v
  | SetFrom f parse => forall text v, parse text = Some v -> field_ok f v
  | _ => True
  end.

Lemma from_uint32_wf v : conv_wf (from_uint32 v).
Proof. reflexivity. Qed.

Lemma not_empty_ok text v : not_empty text = Some v -> v <> [].
Proof. unfold not_empty. destruct text; [done|]. intros [= <-]. done. Qed.

Lemma options_handlers_ok : Forall (fun p => handler_ok p.2) options.
Proof.
  unfold options, pipeline_options, mesh_options. cbn [app].
  repeat apply List.Forall_cons; try exact (Forall_nil_2 _); unfold handler_ok, field_ok, snd;
    try exact I; intros text v Hp; try exact I;
    first [by eapply parse_u16_range | by eapply parse_u32_range | by eapply parse_u8_range
          | by eapply parse_size_range | by eapply whole_number_range | by eapply not_empty_ok
          | by apply parse_convid_valid in Hp as [? ?]
          | apply parse_u16_range in Hp; lia
          | apply bind_Some in Hp as (? & _ & [= <-]); apply from_uint32_wf].
Qed.

Lemma option_handler_ok arg h : option_handler arg = Some h -> handler_ok h.
Proof.
  unfold option_handler. pose proof options_handlers_ok as Hall. revert Hall.
  induction options as [|[name h'] table IH]; [done|]. intros [Hh Hall]%Forall_cons.
  cbn [handler_of]. case_bool_decide; [intros [= <-]; done|by apply IH].
Qed.

Lemma configure_private_key_ok text ident :
  configure_private_key evp text = Some ident -> exists sk, length sk = 32%nat /\ ident = identity_of sk.
Proof.
  intros (sk & Hsk & Hi)%bind_Some. pose proof (length_parse_hex_n _ _ _ Hsk) as Hl. exists sk. split; [done|].
  revert Hi. unfold derive_public_key, read_raw_public_key. do 2 (case_cond; [done|]). by intros [= <-].
Qed.

Lemma apply_handler_ok h value o o' :
  handler_ok h -> apply_handler evp h value o = Some o' -> options_ok o -> options_ok o'.
Proof.
  destruct h as [|B f v|B f parse| |]; unfold CommandLine.apply_handler; intros Hh.
  - intros Heq Ho. apply (inj Some) in Heq as <-. by apply options_ok_set.
  - intros Heq Ho. apply (inj Some) in Heq as <-. by apply options_ok_set.
  - intros (v & Hv & Heq)%bind_Some Ho. apply (inj Some) in Heq as <-. apply options_ok_set; [done|]. by eapply Hh.
  - intros (i & Hi%configure_private_key_ok & Heq)%bind_Some Ho. apply (inj Some) in Heq as <-.
    apply options_ok_set; [|done]. apply options_ok_set; [done|]. by intros _.
  - intros (n & [Hn _]%parse_node_address_ok & Heq)%bind_Some Ho. apply (inj Some) in Heq as <-.
    apply options_ok_set; [done|]. apply Forall_app. split; [apply (oo_fields _ Ho _ FBootstrapNodes)|by constructor].
Qed.

Lemma parse_loop_ok args : forall o o',
  parse_loop evp args o = Some o' -> options_ok o -> options_ok o'.
Proof.
  induction args as [|arg rest IH1 IH2] using args_ind; intros o o'; [intros [= <-]; done|].
  destruct (option_handler arg) as [h|] eqn:Hh; [|cbn [CommandLine.parse_loop]; by rewrite Hh].
  pose proof (option_handler_ok _ _ Hh) as Hok. intros Hp Ho.
  assert (h = Help \/ h <> Help) as [->|Hne] by (destruct h; auto).
  - cbn [CommandLine.parse_loop] in Hp. rewrite Hh in Hp. by eapply apply_handler_ok.
  - rewrite (parse_loop_cons _ _ _ _ _ Hh Hne) in Hp.
    destruct (takes_value h); [destruct rest as [|v rest]; [done|]|]; apply bind_Some in Hp as (o1 & Ha & Hp);
      pose proof (apply_handler_ok _ _ _ _ Hok Ha Ho); eauto.
Qed.

(** *** The file *)

Lemma file_fields_ok : Forall (fun ff => forall v x, ff_read ff v = Some x -> field_ok (ff_field ff) x) file_fields.
Proof.
  unfold file_fields, edge_fields, broadcast_fields. cbn [app].
  repeat apply List.Forall_cons; try exact (Forall_nil_2 _);
    cbn [ff_read ff_field text_field u32_field field_ok]; intros v x Hx; try exact I;
    apply bind_Some in Hx as (text & _ & Hz);
    first [by eapply parse_u32_range | apply parse_u16_range in Hz; lia].
Qed.

Lemma read_fields_ok doc ffs : forall o o',
  Forall (fun ff => forall v x, ff_read ff v = Some x -> field_ok (ff_field ff) x) ffs ->
  read_fields doc ffs o = inr o' -> options_ok o -> options_ok o'.
Proof.
  induction ffs as [|ff ffs IH]; intros o o'; [intros _ [= <-]; done|]. intros [Hff Hffs]%Forall_cons.
  cbn [read_fields]. unfold read_field. destruct (redis_config_value _ _ _) as [v|]; [|by apply IH].
  destruct (ff_read ff v) as [x|] eqn:Hx; [|done]. intros Hr Ho. eapply IH; [done..|].
  apply options_ok_set; [done|]. by eapply Hff.
Qed.

Lemma initial_options_ok home config_dir : options_ok (initial_options home config_dir).
Proof.
  split; [intros A f|split; cbn; unfold u8_max; lia].
  destruct f; cbn -[Z.le]; try done; unfold u32_max, u64_max, u8_max; try lia.
  unfold default_identity_file_path. destruct home as [[|b h]|]; [done| |done].
  case_bool_decide; intros Heq; apply (f_equal length) in Heq; rewrite !length_app in Heq; done.
Qed.

Lemma main_config_ok readable args home config_dir files o :
  main_config evp readable args (initial_options home config_dir) files = inr o -> options_ok o.
Proof.
  intros (file & o1 & Hp & Hdoc)%main_config_steps. unfold CommandLine.parse_args in Hp.
  apply (parse_loop_ok _ _ _ Hp). repeat (apply options_ok_set; [|done]).
  assert (options_ok (set FRedisConfigFile file (initial_options home config_dir))) as Hinit
    by (apply options_ok_set; [apply initial_options_ok|done]).
  destruct (config_document _ _ _ _) as [doc|]; [|by subst o1].
  by eapply read_fields_ok; [apply file_fields_ok|exact Hdoc|].
Qed.

(** *** The configuration of the runtime *)

(** A bootstrap node of the identity file; its host is not checked. *)
Definition file_node_ok (n : NodeAddress) : Prop :=
  1 <= port (endpoint n) <= 65535 /\ conv_wf (node_id n) /\ conv_empty (node_id n) = false.

Lemma bootstrap_node_ok item n : bootstrap_node item = inr n -> file_node_ok n.
Proof.
  rewrite bootstrap_node_strings. destruct (find_string (str "host") item); [|done].
  destruct (jfind (str "port") item) as [[| | |z| | | |]|]; try done. cbv zeta. case_cond; [done|]. bool_norm.
  destruct (match find_string (str "id") item with Some s => _ | None => _ end) as [text|]; [|done].
  destruct (parse_convid_hex text) as [id|] eqn:Hid; [|done]. intros [= <-].
  pose proof (wrap_fits 32 z ltac:(lia)) as Hw. unfold fits in Hw. apply parse_convid_valid in Hid as [? ?].
  unfold file_node_ok. cbn [endpoint port node_id]. rewrite wrap_id by (split; lia). split_and!; (done || lia).
Qed.

Lemma bootstrap_items_ok items : forall acc error nodes,
  bootstrap_items items acc = (error, nodes) -> Forall file_node_ok acc -> Forall file_node_ok nodes.
Proof.
  induction items as [|item items IH]; intros acc error nodes; [by intros [= _ <-]|]. cbn [bootstrap_items].
  destruct (bootstrap_node item) as [e|n] eqn:Hn; [by intros [= _ <-]|]. intros Hb Hacc. eapply IH; [exact Hb|].
  apply Forall_app. split; [done|]. constructor; [|done]. by eapply bootstrap_node_ok.
Qed.

Lemma load_bootstrap_ok input error nodes :
  load_bootstrap_nodes_from_json input = (error, nodes) -> Forall file_node_ok nodes.
Proof.
  unfold load_bootstrap_nodes_from_json. destruct input as [text|]; [|by intros [= _ <-]].
  destruct (json_read text) as [what|doc]; [by intros [= _ <-]|].
  destruct (jfind (str "bootstrap_nodes") doc) as [[]|]; try (by intros [= _ <-]).
  intros Hb. by eapply bootstrap_items_ok.
Qed.

Lemma generate_ok keys :
  generate_node_key_pair evp = inr keys ->
  exists sk, length sk = 32%nat /\ mkIdentity keys (node_id_from_public_key (public_key keys)) true = identity_of sk.
Proof.
  unfold generate_node_key_pair, read_raw_private_key, read_raw_public_key.
  destruct (evp_ok evp EVP_PKEY_CTX_new_id), (evp_ok evp EVP_PKEY_keygen_init), (evp_ok evp EVP_PKEY_keygen);
    cbn [negb]; try done. case_cond; [done|]. case_cond; [done|]. intros [= <-]. exists (evp_fresh evp).
  bool_norm. unfold zlen in *. split; [lia|done].
Qed.

Lemma main_identity_ok fs readable o files ident created files' :
  options_ok o -> main_identity evp fs readable o files = (Some (inr (ident, created)), files') ->
  exists sk, length sk = 32%nat /\ ident = identity_of sk.
Proof.
  intros Ho. unfold main_identity. destruct (opt_private_key_override o).
  - destruct (save_node_identity_to_json _ _ _ _ _) as [[| |] f] eqn:Hs; try done. intros [= <- _ _].
    apply (oo_fields _ Ho _ FKcpIdentity). unfold save_node_identity_to_json in Hs.
    destruct (configured (kcp_identity _)) eqn:Hc; [done|]. rewrite orb_true_r in Hs. done.
  - unfold load_or_create_node_identity. case_cond; [done|]. destruct (files !! _) as [text|].
    + intros [= Hl _]. apply bind_Some in Hl as ([|loaded] & Hl & Heq); [done|]. injection Heq as <- _.
      by eapply load_node_identity_derived.
    + destruct (generate_node_key_pair evp) as [|keys] eqn:Hg; [done|].
      destruct (save_node_identity_to_json _ _ _ _ _) as [[| |] f]; try done. intros [= <- _ _].
      by apply generate_ok.
Qed.

Record config_valid (c : ProxyRuntimeConfig) : Prop := {
  cv_tcp_port : 1 <= tcp_port (cfg_tcp c) <= 65535;
  cv_kcp_port : 1 <= port (kcp_local (cfg_kcp c)) <= 65535;
  cv_other_ports : Forall (fun e => 0 <= port e <= 65535)
    [eg_target (cfg_egress c); rd_endpoint (cfg_redis c); endpoint (kcp_peer (cfg_kcp c))];
  cv_workers : 1 <= tcp_worker_threads (cfg_tcp c) <= u64_max;
  cv_payload : 1 <= tcp_max_payload (cfg_tcp c) <= u64_max;
  cv_node : 1 <= tcp_node_id (cfg_tcp c) <= u32_max;
  cv_ttl : 1 <= kcp_broadcast_ttl (cfg_kcp c) <= u8_max;
  cv_fanout : 1 <= kcp_max_broadcast_fanout (cfg_kcp c) <= u64_max;
  cv_seen : 1 <= kcp_max_seen_broadcasts (cfg_kcp c) <= u64_max;
  cv_seen_seconds : 1 <= kcp_seen_broadcast_seconds (cfg_kcp c) <= u32_max;
  cv_redis_times : Forall (fun t => 1 <= t <= u32_max)
    [rd_connect_timeout_ms (cfg_redis c); rd_io_timeout_ms (cfg_redis c); rd_state_ttl (cfg_redis c);
     rd_latest_ttl (cfg_redis c); rd_seen_ttl (cfg_redis c)];
  cv_links : 1 <= discovery_max_kcp_links (cfg_discovery c) <= u64_max /\
    kcp_max_peer_links (cfg_kcp c) = discovery_max_kcp_links (cfg_discovery c) /\
    admission_max_kcp_links (cfg_admission c) = discovery_max_kcp_links (cfg_discovery c);
  cv_identity : (exists sk, length sk = 32%nat /\ kcp_identity (cfg_kcp c) = identity_of sk) /\
    identity (cfg_discovery c) = kcp_identity (cfg_kcp c);
  cv_endpoint : local_endpoint (cfg_discovery c) = kcp_local (cfg_kcp c);
  cv_bootstrap : Forall file_node_ok (bootstrap_nodes (cfg_discovery c));
  cv_routes : config_ok (route_manager_config (cfg_discovery c));
  cv_route_file : route_table_file (cfg_discovery c) <> [];
}.

Lemma default_route_table_file_nonempty path : default_route_table_file path <> [].
Proof.
  unfold default_route_table_file, path_append. case_cond; [|done].
  intros Heq%(f_equal length). rewrite length_app in Heq. cbn in Heq. lia.
Qed.

Lemma main_start_inv home config_dir fs readable args files c created files' :
  main_run evp home config_dir fs readable args files = (StartRuntime c created, files') ->
  exists o ident nodes,
    main_config evp readable args (initial_options home config_dir) files = inr o /\
    main_identity evp fs readable o files = (Some (inr (ident, created)), files') /\
    load_bootstrap_nodes_from_json (open_input readable files' (opt_identity_file o)) = (None, nodes) /\
    c = complete_config (opt_identity_file o) ident nodes (opt_config o).
Proof.
  unfold main_run. case_cond; [done|].
  destruct (main_config _ _ _ _ _) as [status|o]; [done|]. case_cond; [done|]. case_cond.
  { destruct (generate_node_key_pair evp); done. }
  unfold main_start. destruct (main_identity _ _ _ _ _) as [[[e|[ident cr]]|] f] eqn:Hi; [done| |done].
  destruct (load_bootstrap_nodes_from_json _) as [[e|] nodes] eqn:Hb; [done|]. intros [= <- <- <-].
  exists o, ident, nodes. done.
Qed.

(** [C26] Whatever the command line and the configuration file say, the runtime is only started with a
    valid configuration: ports, counts and times are in their ranges, the limits of links agree in
    all parts, the identity is the one of its private key and the same in all parts, and the
    preconditions of the route table hold. *)
Theorem started_config_valid home config_dir fs readable args files c created files' :
  main_run evp home config_dir fs readable args files = (StartRuntime c created, files') -> config_valid c.
Proof.
  intros (o & ident & nodes & Hm & Hi & Hb & ->)%main_start_inv. pose proof (main_config_ok _ _ _ _ _ _ Hm) as Ho.
  destruct (main_identity_ok _ _ _ _ _ _ _ Ho Hi) as (sk & Hl & ->).
  split; cbn [complete_config cfg_tcp cfg_egress cfg_redis cfg_kcp cfg_discovery cfg_admission kcp_local kcp_peer
    kcp_broadcast_ttl kcp_max_broadcast_fanout kcp_max_seen_broadcasts kcp_seen_broadcast_seconds kcp_max_peer_links
    kcp_identity discovery_max_kcp_links admission_max_kcp_links identity local_endpoint bootstrap_nodes
    route_table_file].
  - apply (oo_fields _ Ho _ FTcpPort).
  - apply (oo_fields _ Ho _ FKcpPort).
  - repeat constructor; [apply (oo_fields _ Ho _ FEgressPort)..|apply (oo_fields _ Ho _ FRedisPort)|apply (oo_fields _ Ho _ FRedisPort)
      |apply (oo_fields _ Ho _ FKcpPeerPort)|apply (oo_fields _ Ho _ FKcpPeerPort)].
  - apply (oo_fields _ Ho _ FTcpWorkers).
  - apply (oo_fields _ Ho _ FTcpMaxPayload).
  - apply (oo_fields _ Ho _ FTcpNodeId).
  - apply (oo_fields _ Ho _ FBroadcastTtl).
  - apply (oo_fields _ Ho _ FBroadcastFanout).
  - apply (oo_fields _ Ho _ FBroadcastSeenCache).
  - apply (oo_fields _ Ho _ FBroadcastSeenSeconds).
  - repeat (apply List.Forall_cons); [apply (oo_fields _ Ho _ FRedisConnectTimeout)|apply (oo_fields _ Ho _ FRedisIoTimeout)
      |apply (oo_fields _ Ho _ FRedisStateTtl)|apply (oo_fields _ Ho _ FRedisLatestTtl)|apply (oo_fields _ Ho _ FRedisSeenTtl)|constructor].
  - split; [apply (oo_fields _ Ho _ FMaxKcpLinks)|done].
  - eauto.
  - done.
  - apply Forall_app. split; [by eapply load_bootstrap_ok|].
    eapply Forall_impl; [apply (oo_fields _ Ho _ FBootstrapNodes)|]. unfold file_node_ok.
    intros n (_ & ? & ? & ?). split_and!; (done || lia).
  - apply (oo_routes _ Ho).
  - case_cond; [apply default_route_table_file_nonempty|]. bool_norm. intros Heq. rewrite Heq in *. done.
Qed.

(** ** Files *)

Lemma save_identity_others fs readable path ident files res files' :
  save_node_identity_to_json fs readable path ident files = (res, files') ->
  forall other, other <> path -> other <> temp_path fs path -> files' !! other = files !! other.
Proof.
  unfold save_node_identity_to_json. case_cond; [by intros [= _ <-]|]. intros Hi.
  by destruct (install_file_atomic _ _ _ _ _ _ _ Hi) as (_ & _ & Ho).
Qed.

Lemma main_identity_files fs readable o files res files' :
  main_identity evp fs readable o files = (res, files') ->
  (forall other, other <> opt_identity_file o -> other <> temp_path fs (opt_identity_file o) ->
     files' !! other = files !! other) /\
  (opt_private_key_override o = false -> is_Some (files !! opt_identity_file o) -> files' = files).
Proof.
  unfold main_identity. destruct (opt_private_key_override o).
  - destruct (save_node_identity_to_json _ _ _ _ _) as [r f] eqn:Hs. intros Hr. split; [|done].
    assert (f = files') as -> by (destruct r; congruence). by eapply save_identity_others.
  - unfold load_or_create_node_identity. case_cond; [by intros [= _ <-]|].
    destruct (files !! opt_identity_file o) as [text|] eqn:Hf; [by intros [= _ <-]|].
    destruct (generate_node_key_pair evp); [by intros [= _ <-]|].
    destruct (save_node_identity_to_json _ _ _ _ _) as [r f] eqn:Hs. intros Hr.
    split; [|intros _ [? ?]; done].
    assert (f = files') as -> by (destruct r; congruence). by eapply save_identity_others.
Qed.

(** What [main] does to the files before the runtime starts: nothing when the options or the
    configuration file are refused, when help or a new key is printed, or when the identity file
    exists and no private key is given; and in no case does it touch a file other than the
    identity file and its temporary file. *)
Theorem main_keeps_files home config_dir fs readable args files res files' :
  main_run evp home config_dir fs readable args files = (res, files') ->
  match main_config evp readable args (initial_options home config_dir) files with
  | inl _ => files' = files
  | inr o =>
      (forall other, other <> opt_identity_file o -> other <> temp_path fs (opt_identity_file o) ->
         files' !! other = files !! other) /\
      (has_help_arg args = true \/ opt_generate_identity o = true \/
         (opt_private_key_override o = false /\ is_Some (files !! opt_identity_file o)) -> files' = files)
  end.
Proof.
  unfold main_run. destruct (has_help_arg args); [intros [= _ <-]; by destruct (main_config _ _ _ _ _)|].
  destruct (main_config _ _ _ _ _) as [status|o]; [by intros [= _ <-]|].
  destruct (opt_help o); [by intros [= _ <-]|]. destruct (opt_generate_identity o); [by intros [= _ <-]|].
  unfold main_start. destruct (main_identity evp fs readable o files) as [r f] eqn:Hi. intros Hr.
  assert (f = files') as ->.
  { destruct r as [[e|[ident created]]|]; [congruence| |congruence].
    destruct (load_bootstrap_nodes_from_json _) as [[]]; congruence. }
  destruct (main_identity_files _ _ _ _ _ _ Hi) as [Ho Hk]. split; [done|].
  intros [?|[?|[? ?]]]; [done..|]. by apply Hk.
Qed.

(** The configuration depends on one file only. *)
Lemma main_config_files readable args o files files' :
  (forall file explicit, find_redis_config_arg args (opt_redis_config_file o) false = Some (file, explicit) ->
     files' !! file = files !! file) ->
  main_config evp readable args o files' = main_config evp readable args o files.
Proof.
  intros Hsame. unfold main_config. destruct (find_redis_config_arg _ _ _) as [[file explicit]|]; [|done].
  unfold open_input. by rewrite (Hsame _ _ eq_refl).
Qed.

(** [C27] A node that creates its identity keeps it: when the identity file can be read, the file
    system writes all of it ([fs_works]), OpenSSL works ([evp_works]) and the configuration file is
    neither the identity file nor its temporary file, the node runs with the same configuration and
    identity when it is started again with the same arguments, and leaves the files as they are. *)
Theorem restart_same_identity home config_dir fs readable args files o c files' :
  evp_works evp -> length (evp_fresh evp) = 32%nat ->
  main_config evp readable args (initial_options home config_dir) files = inr o ->
  (forall file explicit,
     find_redis_config_arg args (opt_redis_config_file (initial_options home config_dir)) false = Some (file, explicit) ->
     file <> opt_identity_file o /\ file <> temp_path fs (opt_identity_file o)) ->
  readable (opt_identity_file o) = true ->
  fs_works fs (opt_identity_file o) (identity_document (identity_of (evp_fresh evp)) JNull) ->
  main_run evp home config_dir fs readable args files = (StartRuntime c true, files') ->
  main_run evp home config_dir fs readable args files' = (StartRuntime c false, files').
Proof.
  intros He Hl Hm Hdiff Hr Hfs Hrun.
  assert (Hm' : main_config evp readable args (initial_options home config_dir) files' = inr o).
  { rewrite <- Hm. apply main_config_files. intros file explicit Hf. destruct (Hdiff _ _ Hf) as [Hi Ht].
    pose proof Hrun as (o' & ident & nodes & Hm2 & Hid & _)%main_start_inv. assert (o' = o) as -> by congruence.
    destruct (main_identity_files _ _ _ _ _ _ Hid) as [Hother _]. by apply Hother. }
  pose proof Hrun as Hinv.
  apply main_start_inv in Hinv as (o' & ident & nodes & Hm2 & Hi & Hb & Hc).
  assert (o' = o) as -> by congruence. clear Hm2.
  assert (opt_private_key_override o = false /\ files !! opt_identity_file o = None) as [Hov Hnone].
  { unfold main_identity, load_or_create_node_identity in Hi. destruct (opt_private_key_override o).
    - destruct (save_node_identity_to_json _ _ _ _ _) as [[]]; congruence.
    - split; [done|]. case_cond_in Hi; [done|]. destruct (files !! _) as [text|]; [|done].
      injection Hi as Hi _. apply bind_Some in Hi as ([] & _ & [=]). }
  pose proof (oo_fields _ (main_config_ok _ _ _ _ _ _ Hm) _ FIdentityFile) as Hpath. cbn in Hpath.
  destruct (load_or_create_stable evp fs _ _ He Hl Hpath Hnone Hfs) as (files2 & H1 & H2).
  unfold main_identity in Hi. rewrite Hov, Hr, H1 in Hi. injection Hi as <- ->.
  unfold main_run in Hrun |- *. case_cond_in Hrun; [done|]. rewrite Hm in Hrun. rewrite Hm'.
  destruct (opt_help o); [done|]. destruct (opt_generate_identity o); [destruct (generate_node_key_pair evp); done|].
  unfold main_start, main_identity. rewrite Hov, Hr, H2, Hb. congruence.
Qed.
End valid.
