(* ===== verification/CommandLineDemo.v ===== *)
(** Runs of [main]: witnesses of the theorems about the command line, and command lines that do
    not do what the usage text says. *)
From S2P Require Import Prelude KcpConv Frames Identity Json EdgeMessage FileStore IdentityFile IdentityFileProofs Admission Discovery Ingress CommandLine CommandLineProofs.

#[local] Existing Instance ToyEd25519.toy_ed25519.
#[local] Existing Instance JsonToy.json_file_toy.

Definition cli_evp : EvpEnv := IdentityDemo.demo_evp.
Definition cli_home : option bytes := Some (str "/h").
Definition cli_dir : option bytes := Some (str "/etc").
Definition cli_fs : FsEnv := IdentityDemo.demo_fs_for (identity_document (identity_of IdentityDemo.demo_sk) JNull).
Definition all_readable : bytes -> bool := fun _ => true.
Definition run_main (args : list bytes) (files : gmap bytes bytes) : MainResult * gmap bytes bytes :=
  main_run cli_evp cli_home cli_dir cli_fs all_readable args files.
Definition cli_config (args : list bytes) (files : gmap bytes bytes) : Z + Options :=
  main_config cli_evp all_readable args (initial_options cli_home cli_dir) files.

(** A configuration file with the port of Redis. *)
Definition pipeline_file : gmap bytes bytes :=
  {[str "/etc/edge_pipeline.json" := JsonToy.toy_dump (JObject
    [(str "redis-port", JUnsigned 6379); (str "host", JString (str "cache"))])]}.

Definition cli_args : list bytes := [str "--tcp-port"; str "7001"; str "--redis-port"; str "6380"; str "--enable-kafka-broadcast"].

(** The port given on the command line, the host of the file, the time built in. *)
Example precedence :
  match cli_config cli_args pipeline_file with
  | inl _ => False
  | inr o => get FTcpPort o = 7001 /\ get FRedisPort o = 6380 /\ get FRedisHost o = str "cache" /\
             get FRedisSeenTtl o = 600 /\ get FBroadcastEnabled o = true
  end.
Proof. vm_compute. done. Qed.

Definition redis_port_field : FileField :=
  mkFileField Z (str "redis-port") (Some (str "port")) FRedisPort (scalar_number parse_u16)
    (str "redis-port must be 1..65535").

Lemma settings_precedence_witness :
  exists o, cli_config cli_args pipeline_file = inr o /\ parse_u16 (str "6380") = Some (get FRedisPort o).
Proof.
  destruct (cli_config cli_args pipeline_file) as [z|o] eqn:Hm; [vm_compute in Hm; discriminate Hm|].
  exists o. split; [reflexivity|].
  assert (redis_port_field ∈ file_fields) as Hin by (unfold file_fields; right; left).
  destruct (settings_precedence cli_evp all_readable cli_args (initial_options cli_home cli_dir) o pipeline_file
    redis_port_field Hin Hm) as [Hcli _].
  refine (Hcli [str "--tcp-port"; str "7001"] (str "--redis-port") (str "6380") [str "--enable-kafka-broadcast"]
    parse_u16 _ _ _ _).
  - reflexivity.
  - reflexivity.
  - vm_compute. reflexivity.
  - vm_compute. reflexivity.
Defined.

Definition started_files : gmap bytes bytes := (run_main cli_args pipeline_file).2.

(** The first start creates the identity. *)
Lemma cli_started :
  match (run_main cli_args pipeline_file).1 with
  | StartRuntime c created => tcp_port (cfg_tcp c) = 7001 /\ created = true
  | _ => False
  end.
Proof. vm_compute. split; reflexivity. Qed.

Lemma started_config_valid_witness :
  exists c, run_main cli_args pipeline_file = (StartRuntime c true, started_files) /\ config_valid c /\
    tcp_port (cfg_tcp c) = 7001.
Proof.
  pose proof cli_started as Hs. unfold started_files.
  destruct (run_main cli_args pipeline_file) as [[z| |c created] files] eqn:Hr; [destruct Hs..|].
  destruct Hs as [Hport ->]. exists c. split; [reflexivity|]. split; [|exact Hport].
  exact (started_config_valid cli_evp cli_home cli_dir cli_fs all_readable cli_args pipeline_file c true files Hr).
Defined.

Definition next_args : list bytes := [str "--tcp-port"; str "7002"].

Lemma next_config :
  match cli_config next_args started_files with
  | inl _ => False
  | inr o => opt_private_key_override o = false /\ is_Some (started_files !! opt_identity_file o)
  end.
Proof. vm_compute. split; [reflexivity|]. eexists. reflexivity. Qed.

Lemma main_keeps_files_witness : (run_main next_args started_files).2 = started_files.
Proof.
  destruct (run_main next_args started_files) as [res files'] eqn:Hr.
  pose proof (main_keeps_files cli_evp cli_home cli_dir cli_fs all_readable next_args started_files res files' Hr) as Hk.
  pose proof next_config as Ho. unfold cli_config in Ho. cbn [snd].
  destruct (main_config cli_evp all_readable next_args (initial_options cli_home cli_dir) started_files) as [z|o].
  - exact Hk.
  - destruct Hk as [_ Hk]. apply Hk. right. right. exact Ho.
Defined.

(** The configuration file is another file than the identity file. *)
Lemma cli_config_identity :
  match cli_config cli_args pipeline_file with
  | inl _ => False
  | inr o => forall file explicit,
      find_redis_config_arg cli_args (opt_redis_config_file (initial_options cli_home cli_dir)) false = Some (file, explicit) ->
      file <> opt_identity_file o /\ file <> temp_path cli_fs (opt_identity_file o)
  end.
Proof. vm_compute. intros file explicit [= <- <-]. split; congruence. Qed.

Lemma restart_same_identity_witness :
  exists c, run_main cli_args started_files = (StartRuntime c false, started_files).
Proof.
  pose proof cli_started as Hs. pose proof cli_config_identity as Hc.
  destruct (cli_config cli_args pipeline_file) as [z|o] eqn:Hm; [destruct Hc|].
  destruct (run_main cli_args pipeline_file) as [[z| |c created] files] eqn:Hr; [destruct Hs..|].
  destruct Hs as [_ ->]. assert (files = started_files) as -> by (unfold started_files; rewrite Hr; reflexivity).
  exists c. refine (restart_same_identity cli_evp cli_home cli_dir cli_fs all_readable cli_args pipeline_file o c
    started_files IdentityDemo.demo_evp_works _ Hm Hc _ _ Hr).
  - reflexivity.
  - reflexivity.
  - apply IdentityDemo.demo_fs_for_works.
Defined.

(** ** Findings *)

Definition hex_id : bytes := convid_to_hex (from_uint32 7).

(** The usage says that [--conv-hex] overrides [--conv]; the later of the two wins. *)
Example conv_hex_overridden :
  match cli_config [str "--conv-hex"; hex_id; str "--conv"; str "5"] ∅ with
  | inl _ => False
  | inr o => get FKcpPeerId o = from_uint32 5
  end.
Proof. vm_compute. done. Qed.

(** The usage says that the default of [--conv] is 1; it is the empty identifier. *)
Example conv_default_is_zero :
  match cli_config [] ∅ with inl _ => False | inr o => conv_empty (get FKcpPeerId o) = true end.
Proof. vm_compute. done. Qed.

(** A limit of the payload too large for 64 bits is read as 2^64-1; with the header added it
    wraps around, and the ingress closes every connection that sends more than 17 bytes. *)
Example payload_limit_wraps :
  parse_size (str "99999999999999999999") = Some u64_max /\
  max_buffer_size (mkIngressConfig true 1 u64_max) = 17.
Proof. split; vm_compute; reflexivity. Qed.

(** Numbers are read with [strtoul]: blanks, signs and negative numbers that wrap are accepted. *)
Example negative_numbers_accepted :
  parse_u16 (str "-18446744073709551615") = Some 1 /\ parse_u16 (str " +80") = Some 80 /\
  parse_size (str "-1") = Some u64_max.
Proof. repeat split; vm_compute; reflexivity. Qed.

(** [-h] as the value of an option prints the usage, and [--redis-config] as the value of an
    option is taken for the option. *)
Example option_names_as_values :
  (parse_args cli_evp [str "--kafka-client-id"; str "-h"] (initial_options None None) <> None /\
   run_main [str "--kafka-client-id"; str "-h"] ∅ = (Exit 0, ∅)) /\
  (parse_args cli_evp [str "--tcp-host"; str "--edge-config"; str "--tcp-port"; str "9"] (initial_options None None) <> None /\
   run_main [str "--tcp-host"; str "--edge-config"; str "--tcp-port"; str "9"] ∅ = (Exit 1, ∅)).
Proof. vm_compute. done. Qed.

(** An identity file whose version is not a number ends [main] with an exception. *)
Example identity_version_throws :
  (run_main [str "--identity-file"; str "id"]
    {[str "id" := JsonToy.toy_dump (JObject [(str "version", JString (str "1"))])]}).1 = MainThrew.
Proof. vm_compute. done. Qed.

(** An empty group is refused on the command line but accepted from the file. *)
Example empty_group_from_file :
  cli_config [str "--kafka-broadcast-group-id"; []] ∅ = inl 2 /\
  match cli_config [] {[str "/etc/edge_pipeline.json" := JsonToy.toy_dump (JObject
          [(str "kafka-broadcast-group-id", JString [])])]} with
  | inl _ => False
  | inr o => get FBroadcastGroupId o = []
  end.
Proof. vm_compute. done. Qed.
