(* ===== verification/Kafka.v ===== *)
(** The Kafka clients: business/KafkaSink.cpp and business/KafkaBroadcastSource.cpp.

    The objects of librdkafka (configurations, clients, lists of topics, messages) are numbers in
    sets of live objects: a call with an object that is gone is a fault ([None]).  The topic the
    source reads is a log with a position and a committed offset; committing a message commits the
    offset behind it, and a new consumer starts at the committed offset.  Messages the source has
    dealt with are noted with the result.  The class [RdKafka] says which calls succeed. *)
From S2P Require Import Prelude KcpConv Frames Identity Json FileStore IdentityFile Routes Admission Discovery CommandLine.

(** ** librdkafka *)

Inductive KafkaErr := NoError | QueueFull | OtherError.

#[global] Instance KafkaErr_eq_dec : EqDecision KafkaErr.
Proof. solve_decision. Defined.

(** What a poll finds: nothing, an error event, or the next message if there is one. *)
Inductive PollResult := PollNothing | PollError | PollNext.

Class RdKafka := {
  conf_valid : bytes -> bytes -> bool;
  new_ok : nat -> bool;
  producev_result : nat -> KafkaErr;
  subscribe_ok : nat -> bool;
  poll_result : nat -> PollResult;
  commit_ok : nat -> bool;
}.

Section kafka.
Context `{RdKafka}.
(** The state of the callback that gets the messages. *)
Context {App : Type}.

Record KafkaWorld := mkKafkaWorld {
  kw_confs : gset Z;
  kw_clients : gset Z;
  kw_lists : gset Z;
  kw_messages : gset Z;
  kw_next : Z;
  kw_time : nat;
  kw_produced : list (bytes * bytes * bytes);
  kw_log : list bytes;
  kw_position : nat;
  kw_committed : nat;
  kw_handled : list (nat * bool);
  kw_app : App;
}.

Definition Rd (A : Type) : Type := KafkaWorld -> option (A * KafkaWorld).

#[global] Instance Rd_ret : MRet Rd := fun A a w => Some (a, w).
#[global] Instance Rd_bind : MBind Rd := fun A B k m w => match m w with Some (a, w) => k a w | None => None end.

Definition rd_fault {A} : Rd A := fun _ => None.

(** A call of the library. *)
Definition call {A} (f : KafkaWorld -> option (A * KafkaWorld)) : Rd A := f.

Definition set_objects (c l o m : gset Z) (n : Z) (w : KafkaWorld) : KafkaWorld :=
  mkKafkaWorld c l o m n (kw_time w) (kw_produced w) (kw_log w) (kw_position w) (kw_committed w) (kw_handled w) (kw_app w).

Definition set_topic (log : list bytes) (pos com : nat) (h : list (nat * bool)) (w : KafkaWorld) : KafkaWorld :=
  mkKafkaWorld (kw_confs w) (kw_clients w) (kw_lists w) (kw_messages w) (kw_next w) (kw_time w) (kw_produced w)
    log pos com h (kw_app w).

(** The time of a call. *)
Definition now : Rd nat := fun w =>
  Some (kw_time w, mkKafkaWorld (kw_confs w) (kw_clients w) (kw_lists w) (kw_messages w) (kw_next w) (S (kw_time w))
    (kw_produced w) (kw_log w) (kw_position w) (kw_committed w) (kw_handled w) (kw_app w)).

Definition rd_kafka_conf_new : Rd Z := fun w =>
  Some (kw_next w, set_objects ({[kw_next w]} ∪ kw_confs w) (kw_clients w) (kw_lists w) (kw_messages w) (kw_next w + 1) w).

Definition rd_kafka_conf_destroy (c : Z) : Rd unit := fun w =>
  if decide (c ∈ kw_confs w)
  then Some (tt, set_objects (kw_confs w ∖ {[c]}) (kw_clients w) (kw_lists w) (kw_messages w) (kw_next w) w) else None.

Definition rd_kafka_conf_set (c : Z) (name value : bytes) : Rd bool := fun w =>
  if decide (c ∈ kw_confs w) then Some (conf_valid name value, w) else None.

Definition rd_kafka_conf_set_dr_msg_cb (c : Z) : Rd unit := fun w =>
  if decide (c ∈ kw_confs w) then Some (tt, w) else None.

(** The client owns the configuration if it is created. *)
Definition rd_kafka_new (c : Z) : Rd (option Z) :=
  t ← now;
  call (fun w =>
    if decide (c ∈ kw_confs w) then
      if new_ok t then
        Some (Some (kw_next w),
          set_objects (kw_confs w ∖ {[c]}) ({[kw_next w]} ∪ kw_clients w) (kw_lists w) (kw_messages w) (kw_next w + 1) w)
      else Some (None, w)
    else None).

(** A call that needs a live client. *)
Definition with_client {A} (k : Z) (m : Rd A) : Rd A := fun w => if decide (k ∈ kw_clients w) then m w else None.

Definition rd_kafka_poll (k : Z) : Rd unit := with_client k (mret tt).
Definition rd_kafka_poll_set_consumer (k : Z) : Rd unit := with_client k (mret tt).
Definition rd_kafka_flush (k : Z) : Rd unit := with_client k (mret tt).
Definition rd_kafka_consumer_close (k : Z) : Rd unit := with_client k (mret tt).

Definition rd_kafka_destroy (k : Z) : Rd unit := with_client k (fun w =>
  Some (tt, set_objects (kw_confs w) (kw_clients w ∖ {[k]}) (kw_lists w) (kw_messages w) (kw_next w) w)).

Definition rd_kafka_producev (k : Z) (topic key value : bytes) : Rd KafkaErr := with_client k (
  t ← now;
  match producev_result t with
  | NoError => call (fun w =>
      Some (NoError, mkKafkaWorld (kw_confs w) (kw_clients w) (kw_lists w) (kw_messages w) (kw_next w) (kw_time w)
        (kw_produced w ++ [(topic, key, value)]) (kw_log w) (kw_position w) (kw_committed w) (kw_handled w) (kw_app w)))
  | err => mret err
  end).

Definition rd_kafka_topic_partition_list_new : Rd Z := fun w =>
  Some (kw_next w, set_objects (kw_confs w) (kw_clients w) ({[kw_next w]} ∪ kw_lists w) (kw_messages w) (kw_next w + 1) w).

Definition rd_kafka_topic_partition_list_add (l : Z) : Rd unit := fun w =>
  if decide (l ∈ kw_lists w) then Some (tt, w) else None.

Definition rd_kafka_topic_partition_list_destroy (l : Z) : Rd unit := fun w =>
  if decide (l ∈ kw_lists w)
  then Some (tt, set_objects (kw_confs w) (kw_clients w) (kw_lists w ∖ {[l]}) (kw_messages w) (kw_next w) w) else None.

(** A consumer that subscribes continues at the committed offset. *)
Definition rd_kafka_subscribe (k l : Z) : Rd bool := with_client k (
  t ← now;
  call (fun w =>
    if decide (l ∈ kw_lists w) then
      if subscribe_ok t then Some (true, set_topic (kw_log w) (kw_committed w) (kw_committed w) (kw_handled w) w)
      else Some (false, w)
    else None)).

(** A message: its object, and its offset and payload unless it is an error event. *)
Definition new_message (body : option (nat * bytes)) : Rd (option (Z * option (nat * bytes))) := fun w =>
  Some (Some (kw_next w, body),
    set_objects (kw_confs w) (kw_clients w) (kw_lists w) ({[kw_next w]} ∪ kw_messages w) (kw_next w + 1) w).

Definition rd_kafka_consumer_poll (k : Z) : Rd (option (Z * option (nat * bytes))) := with_client k (
  t ← now;
  match poll_result t with
  | PollNothing => mret None
  | PollError => new_message None
  | PollNext => call (fun w =>
      match kw_log w !! kw_position w with
      | Some payload =>
          new_message (Some (kw_position w, payload))
            (set_topic (kw_log w) (S (kw_position w)) (kw_committed w) (kw_handled w) w)
      | None => Some (None, w)
      end)
  end).

Definition rd_kafka_message_destroy (m : Z) : Rd unit := fun w =>
  if decide (m ∈ kw_messages w)
  then Some (tt, set_objects (kw_confs w) (kw_clients w) (kw_lists w) (kw_messages w ∖ {[m]}) (kw_next w) w) else None.

Definition rd_kafka_commit_message (k m : Z) (offset : nat) : Rd bool := with_client k (
  t ← now;
  call (fun w =>
    if decide (m ∈ kw_messages w) then
      if commit_ok t then Some (true, set_topic (kw_log w) (kw_position w) (S offset) (kw_handled w) w)
      else Some (false, w)
    else None)).

(** Set the members of a configuration until one is refused. *)
Fixpoint set_confs (c : Z) (members : list (bytes * bytes)) : Rd bool :=
  match members with
  | [] => mret true
  | (name, value) :: members =>
      ok ← rd_kafka_conf_set c name value;
      if (ok : bool) then set_confs c members else mret false
  end.

(** ** KafkaSink *)

Record KafkaSink := mkSink { sink_config : KafkaSettings; sink_producer : option Z }.

Definition sink_init (c : KafkaSettings) : KafkaSink := mkSink c None.

(** [KafkaSinkConfig::enabled] *)
Definition sink_enabled (c : KafkaSettings) : bool :=
  negb (bool_decide (kf_brokers c = [])) && negb (bool_decide (kf_topic c = [])).

(** The members that are set; empty ones are skipped. *)
Definition sink_members (c : KafkaSettings) : list (bytes * bytes) :=
  filter (fun '(_, value) => value <> [])
    [(str "bootstrap.servers", kf_brokers c); (str "client.id", kf_client_id c);
     (str "request.required.acks", kf_acks c); (str "message.timeout.ms", to_string (kf_message_timeout_ms c))].

Definition ensure_started_locked (s : KafkaSink) : Rd (bool * KafkaSink) :=
  match sink_producer s with
  | Some _ => mret (true, s)
  | None =>
      conf ← rd_kafka_conf_new;
      rd_kafka_conf_set_dr_msg_cb conf;;
      ok ← set_confs conf (sink_members (sink_config s));
      if negb ok then rd_kafka_conf_destroy conf;; mret (false, s) else
      producer ← rd_kafka_new conf;
      match producer with
      | None => rd_kafka_conf_destroy conf;; mret (false, s)
      | Some k => mret (true, mkSink (sink_config s) (Some k))
      end
  end.

Definition sink_produce (key value : bytes) (s : KafkaSink) : Rd (bool * KafkaSink) :=
  if negb (sink_enabled (sink_config s)) then mret (true, s) else
  '(started, s) ← ensure_started_locked s;
  match started, sink_producer s with
  | false, _ => mret (false, s)
  | true, None => rd_fault
  | true, Some k =>
      let send := rd_kafka_producev k (kf_topic (sink_config s)) key value in
      err ← send;
      err ← (if decide (err = QueueFull) then rd_kafka_poll k;; send else mret err);
      rd_kafka_poll k;;
      mret (bool_decide (err = NoError), s)
  end.

Definition sink_close_locked (s : KafkaSink) : Rd KafkaSink :=
  match sink_producer s with
  | None => mret s
  | Some k => rd_kafka_flush k;; rd_kafka_destroy k;; mret (mkSink (sink_config s) None)
  end.

Definition sink_stop (s : KafkaSink) : Rd KafkaSink := sink_close_locked s.

(** ** KafkaBroadcastSource *)

(** [sender_]: the number of messages it sent. *)
Context (sender : bytes -> App -> Z * App).

Record KafkaBroadcastSource := mkSource {
  src_config : BroadcastSettings;
  src_has_sender : bool;
  src_consumer : option Z;
  src_subscription : option Z;
}.

Definition source_members (c : BroadcastSettings) : list (bytes * bytes) :=
  [(str "bootstrap.servers", kb_brokers c); (str "group.id", kb_group_id c); (str "client.id", kb_client_id c);
   (str "enable.auto.commit", str "false"); (str "auto.offset.reset", kb_auto_offset_reset c)].

Definition close_consumer (s : KafkaBroadcastSource) : Rd KafkaBroadcastSource :=
  match src_consumer s with Some k => rd_kafka_consumer_close k | None => mret tt end;;
  match src_subscription s with Some l => rd_kafka_topic_partition_list_destroy l | None => mret tt end;;
  match src_consumer s with Some k => rd_kafka_destroy k | None => mret tt end;;
  mret (mkSource (src_config s) (src_has_sender s) None None).

Definition create_consumer (s : KafkaBroadcastSource) : Rd (bool * KafkaBroadcastSource) :=
  conf ← rd_kafka_conf_new;
  ok ← set_confs conf (source_members (src_config s));
  if negb ok then rd_kafka_conf_destroy conf;; mret (false, s) else
  consumer ← rd_kafka_new conf;
  match consumer with
  | None => rd_kafka_conf_destroy conf;; mret (false, mkSource (src_config s) (src_has_sender s) None (src_subscription s))
  | Some k =>
      rd_kafka_poll_set_consumer k;;
      l ← rd_kafka_topic_partition_list_new;
      rd_kafka_topic_partition_list_add l;;
      let s := mkSource (src_config s) (src_has_sender s) (Some k) (Some l) in
      ok ← rd_kafka_subscribe k l;
      if negb ok then s ← close_consumer s; mret (false, s) else mret (true, s)
  end.

(** Hand a message to the callback and note the result. *)
Definition handle_payload (offset : nat) (payload : bytes) : Rd bool := fun w =>
  let '(processed, app) :=
    if bool_decide (payload = []) then (true, kw_app w)
    else let '(n, app) := sender payload (kw_app w) in (negb (n =? 0), app) in
  Some (processed, mkKafkaWorld (kw_confs w) (kw_clients w) (kw_lists w) (kw_messages w) (kw_next w) (kw_time w)
    (kw_produced w) (kw_log w) (kw_position w) (kw_committed w) (kw_handled w ++ [(offset, processed)]) app).

(** One turn of the loop of [run]. *)
Definition run_body (s : KafkaBroadcastSource) : Rd unit :=
  match src_consumer s with
  | None => rd_fault
  | Some k =>
      message ← rd_kafka_consumer_poll k;
      match message with
      | None => mret tt
      | Some (m, None) => rd_kafka_message_destroy m
      | Some (m, Some (offset, payload)) =>
          processed ← handle_payload offset payload;
          if negb processed then rd_kafka_message_destroy m else
          rd_kafka_commit_message k m offset;;
          rd_kafka_message_destroy m
      end
  end.

(** The thread of [run], and the thread that calls [start] and [stop]. *)
Inductive Worker := NoWorker | AtTest | InLoop | Ended.
Inductive Caller := Idle | Joining.

Record SourceState := mkSourceState {
  st_source : KafkaBroadcastSource;
  st_running : bool;
  st_worker : Worker;
  st_caller : Caller;
  st_world : KafkaWorld;
}.

(** [start]; assigning to a thread that can be joined ends the program. *)
Definition source_start (st : SourceState) : option (bool * SourceState) :=
  let s := st_source st in
  let c := src_config s in
  if negb (kb_enabled c) then Some (true, st)
  else if st_running st then Some (true, st)
  else if bool_decide (kb_brokers c = []) || bool_decide (kb_topic c = []) || negb (src_has_sender s) then Some (false, st)
  else
    '(ok, s, w) ← create_consumer s (st_world st);
    if negb ok then Some (false, mkSourceState s (st_running st) (st_worker st) (st_caller st) w)
    else match st_worker st with
         | NoWorker => Some (true, mkSourceState s true AtTest (st_caller st) w)
         | _ => None
         end.

(** What can happen; an event that is not possible changes nothing. *)
Inductive SourceEvent :=
| EvStart
| EvStop            (* [stop] clears [running_] and joins the thread *)
| EvJoined          (* the thread has ended, and the consumer is closed *)
| EvTest            (* the thread reads [running_] *)
| EvTurn            (* the thread makes a turn *)
| EvPublish (payload : bytes).

Definition source_event (e : SourceEvent) (st : SourceState) : option SourceState :=
  let s := st_source st in
  match e, st_caller st, st_worker st with
  | EvStart, Idle, _ => snd <$> source_start st
  | EvStop, Idle, k => Some (mkSourceState s false k Joining (st_world st))
  | EvJoined, Joining, (NoWorker | Ended) =>
      '(s, w) ← close_consumer s (st_world st);
      Some (mkSourceState s (st_running st) NoWorker Idle w)
  | EvTest, c, AtTest => Some (mkSourceState s (st_running st) (if st_running st then InLoop else Ended) c (st_world st))
  | EvTurn, c, InLoop => '(_, w) ← run_body s (st_world st); Some (mkSourceState s (st_running st) AtTest c w)
  | EvPublish payload, c, k =>
      let w := st_world st in
      Some (mkSourceState s (st_running st) k c
        (set_topic (kw_log w ++ [payload]) (kw_position w) (kw_committed w) (kw_handled w) w))
  | _, _, _ => Some st
  end.

Fixpoint source_run (es : list SourceEvent) (st : SourceState) : option SourceState :=
  match es with
  | [] => Some st
  | e :: es => st ← source_event e st; source_run es st
  end.

End kafka.
