(* ===== verification/KafkaProofs.v ===== *)
(** The Kafka clients use no object of librdkafka that is gone and leave none behind; what the
    source commits it has handled; [stop] ends. *)
From S2P Require Import Prelude KcpConv Frames Identity Json FileStore IdentityFile Routes Admission Discovery CommandLine Kafka.

Section kafka.
Context `{RdKafka} {App : Type}.
Implicit Types w : KafkaWorld (App := App).

(** [m] ends without a fault, and its result and state satisfy [Q]. *)
Definition runs {A} (m : Rd A) (Q : A -> KafkaWorld (App := App) -> Prop) w : Prop :=
  match m w with Some (a, w) => Q a w | None => False end.

Lemma runs_ret {A} (a : A) Q w : Q a w -> runs (mret a) Q w.
Proof. done. Qed.

Lemma runs_bind {A B} (m : Rd A) (k : A -> Rd B) Q w : runs m (fun a w => runs (k a) Q w) w -> runs (m ≫= k) Q w.
Proof. unfold runs, mbind, Rd_bind. by destruct (m w) as [[]|]. Qed.

Lemma runs_mono {A} (m : Rd A) (P Q : A -> KafkaWorld -> Prop) w :
  runs m P w -> (forall a w', P a w' -> Q a w') -> runs m Q w.
Proof. unfold runs. destruct (m w) as [[]|]; eauto. Qed.

(** ** Objects *)

Definition opt_set (o : option Z) : gset Z := match o with Some x => {[x]} | None => ∅ end.

(** The live objects. *)
Definition objects (c k l m : gset Z) w : Prop :=
  kw_confs w = c /\ kw_clients w = k /\ kw_lists w = l /\ kw_messages w = m.

(** What is queued, and the topic with what has been handled. *)
Definition same_topic w w' : Prop :=
  (kw_log w', kw_position w', kw_committed w', kw_handled w', kw_app w')
    = (kw_log w, kw_position w, kw_committed w, kw_handled w, kw_app w).

Definition quiet w w' : Prop := same_topic w w' /\ kw_produced w' = kw_produced w.

Lemma kquiet_refl w : quiet w w.
Proof. done. Qed.

Lemma kquiet_trans w1 w2 w3 : quiet w1 w2 -> quiet w2 w3 -> quiet w1 w3.
Proof. unfold quiet, same_topic. intros [H1 H2] [H3 H4]. split; congruence. Qed.

Lemma runs_set_confs c members w (Q : bool -> KafkaWorld -> Prop) :
  c ∈ kw_confs w -> (forall ok, Q ok w) -> runs (set_confs c members) Q w.
Proof.
  intros Hc HQ. induction members as [|[name value] members IH]; [by apply runs_ret|]. cbn [set_confs]. apply runs_bind.
  unfold runs at 1, rd_kafka_conf_set. rewrite decide_True by done. destruct (conf_valid name value); [done|by apply runs_ret].
Qed.

Lemma runs_conf_new l m w (Q : Z -> KafkaWorld -> Prop) :
  objects ∅ ∅ l m w -> (forall c w', objects {[c]} ∅ l m w' -> quiet w w' -> Q c w') -> runs rd_kafka_conf_new Q w.
Proof. intros (Ec & Ek & El & Em) HQ. unfold runs. apply HQ; [|done]. split_and!; cbn; [set_solver|done..]. Qed.

Lemma runs_conf_destroy c l m w (Q : unit -> KafkaWorld -> Prop) :
  objects {[c]} ∅ l m w -> (forall w', objects ∅ ∅ l m w' -> quiet w w' -> Q tt w') -> runs (rd_kafka_conf_destroy c) Q w.
Proof.
  intros (Ec & Ek & El & Em) HQ. unfold runs, rd_kafka_conf_destroy. rewrite decide_True by (rewrite Ec; set_solver).
  apply HQ; [|done]. split_and!; cbn; [rewrite Ec; set_solver|done..].
Qed.

(** A client that is created owns its configuration; otherwise the configuration is destroyed. *)
Lemma runs_new_client {A} c members l m w (fail : Rd A) (k : Z -> Rd A) (Q : A -> KafkaWorld -> Prop) :
  objects {[c]} ∅ l m w ->
  (forall w', objects ∅ ∅ l m w' -> quiet w w' -> runs fail Q w') ->
  (forall x w', objects ∅ {[x]} l m w' -> quiet w w' -> runs (k x) Q w') ->
  runs (ok ← set_confs c members;
        if negb ok then rd_kafka_conf_destroy c;; fail else
        client ← rd_kafka_new c;
        match client with None => rd_kafka_conf_destroy c;; fail | Some x => k x end) Q w.
Proof.
  intros (Ec & Ek & El & Em) Hfail Hk. assert (Hc : c ∈ kw_confs w) by (rewrite Ec; set_solver).
  apply runs_bind, runs_set_confs; [done|]. intros [|]; cbn [negb].
  - apply runs_bind. unfold rd_kafka_new. apply runs_bind. unfold runs at 1, now. unfold runs at 1, call. cbn [kw_confs].
    rewrite decide_True by done. destruct (new_ok _).
    + apply Hk; [|done]. split_and!; cbn; [rewrite Ec; set_solver|rewrite Ek; set_solver|done|done].
    + apply runs_bind, (runs_conf_destroy c l m); [done|]. intros w' Ho [Hq1 Hq2]. by apply Hfail.
  - apply runs_bind, (runs_conf_destroy c l m); [done|]. intros w' Ho Hq. by apply Hfail.
Qed.

Lemma runs_with_client {A} k (m : Rd A) Q w : k ∈ kw_clients w -> runs m Q w -> runs (with_client k m) Q w.
Proof. intros Hk HQ. unfold runs, with_client. by rewrite decide_True. Qed.

Lemma runs_destroy k l m w (Q : unit -> KafkaWorld -> Prop) :
  objects ∅ {[k]} l m w -> (forall w', objects ∅ ∅ l m w' -> quiet w w' -> Q tt w') -> runs (rd_kafka_destroy k) Q w.
Proof.
  intros (Ec & Ek & El & Em) HQ. apply runs_with_client; [rewrite Ek; set_solver|]. unfold runs. apply HQ; [|done].
  split_and!; cbn; [done|rewrite Ek; set_solver|done|done].
Qed.

(** ** The sink *)

(** The only object is the producer. *)
Definition sink_inv (s : KafkaSink) w : Prop := objects ∅ (opt_set (sink_producer s)) ∅ ∅ w.

Lemma runs_ensure_started s w (Q : bool * KafkaSink -> KafkaWorld -> Prop) :
  sink_inv s w ->
  (forall w', sink_inv s w' -> quiet w w' -> Q (false, s) w') ->
  (forall k w', sink_inv (mkSink (sink_config s) (Some k)) w' -> quiet w w' -> Q (true, mkSink (sink_config s) (Some k)) w') ->
  runs (ensure_started_locked s) Q w.
Proof.
  intros Hinv Hfail Hok. destruct s as [c [k|]]; unfold ensure_started_locked; cbn [sink_producer].
  - apply runs_ret. by apply (Hok k).
  - apply runs_bind, (runs_conf_new ∅ ∅); [done|]. intros conf w1 Ho1 Hq1. apply runs_bind. unfold runs at 1, rd_kafka_conf_set_dr_msg_cb.
    rewrite decide_True by (destruct Ho1 as (-> & _); set_solver). apply (runs_new_client conf _ ∅ ∅); [done|..].
    + intros w2 Ho2 Hq2. apply runs_ret, Hfail; [done|by eapply kquiet_trans].
    + intros k w2 Ho2 Hq2. apply runs_ret, Hok; [done|by eapply kquiet_trans].
Qed.

(** The message has been queued, or not. *)
Definition queued (topic key value : bytes) (ok : bool) w w' : Prop :=
  same_topic w w' /\ kw_produced w' = kw_produced w ++ (if ok then [(topic, key, value)] else []).

Lemma runs_producev k topic key value c l m w (Q : KafkaErr -> KafkaWorld -> Prop) :
  objects c {[k]} l m w ->
  (forall err w', objects c {[k]} l m w' -> queued topic key value (bool_decide (err = NoError)) w w' -> Q err w') ->
  runs (rd_kafka_producev k topic key value) Q w.
Proof.
  intros (Ec & Ek & El & Em) HQ. apply runs_with_client; [rewrite Ek; set_solver|]. apply runs_bind.
  unfold runs at 1, now. destruct (producev_result _).
  - unfold runs, call. by apply HQ.
  - apply runs_ret, HQ; [done|]. split; [done|]. cbn. by rewrite app_nil_r.
  - apply runs_ret, HQ; [done|]. split; [done|]. cbn. by rewrite app_nil_r.
Qed.

Lemma runs_sink_produce key value s w :
  sink_inv s w ->
  runs (sink_produce key value s) (fun '(ok, s') w' => sink_inv s' w' /\ sink_config s' = sink_config s
    /\ queued (kf_topic (sink_config s)) key value (ok && sink_enabled (sink_config s)) w w') w.
Proof.
  intros Hinv. unfold sink_produce. destruct (sink_enabled (sink_config s)) eqn:Hen; cbn [negb].
  2:{ apply runs_ret. split_and!; [done|done|]. split; [done|]. by rewrite app_nil_r. }
  apply runs_bind, runs_ensure_started; [done|..].
  { intros w1 Hinv1 [Ht Hp]. apply runs_ret. split_and!; [done|done|]. split; [done|]. by rewrite Hp, app_nil_r. }
  intros k w1 Hinv1 [Ht Hp]. cbn [sink_producer sink_config]. set (topic := kf_topic (sink_config s)).
  assert (Hpoll : forall w' (Q : unit -> KafkaWorld -> Prop), objects ∅ {[k]} ∅ ∅ w' -> Q tt w' -> runs (rd_kafka_poll k) Q w').
  { intros w' Q (_ & Ek & _) HQ. apply runs_with_client; [rewrite Ek; set_solver|done]. }
  assert (Hend : forall err w2, objects ∅ {[k]} ∅ ∅ w2 -> queued topic key value (bool_decide (err = NoError)) w1 w2 ->
    runs (rd_kafka_poll k;; mret (bool_decide (err = NoError), mkSink (sink_config s) (Some k)))
      (fun '((ok, s') : bool * KafkaSink) w' =>
        sink_inv s' w' /\ sink_config s' = sink_config s /\ queued topic key value (ok && true) w w') w2).
  { intros err w2 Hw2 [Ht2 Hp2]. apply runs_bind, Hpoll; [done|]. apply runs_ret. split_and!; [done|done|].
    unfold queued, same_topic in *. rewrite andb_true_r. split; congruence. }
  apply runs_bind, (runs_producev k _ _ _ ∅ ∅ ∅); [done|]. intros err w2 Hw2 Hq2. apply runs_bind.
  destruct (decide (err = QueueFull)) as [->|Hne]; [|by apply runs_ret, Hend].
  destruct Hq2 as [Ht2 Hp2]. rewrite bool_decide_eq_false_2, app_nil_r in Hp2 by done.
  apply runs_bind, Hpoll; [done|]. apply (runs_producev k _ _ _ ∅ ∅ ∅); [done|]. intros err w3 Hw3 [Ht3 Hp3].
  apply Hend; [done|]. unfold queued, same_topic in *. split; congruence.
Qed.

Lemma runs_sink_stop s w :
  sink_inv s w -> runs (sink_stop s) (fun s' w' => sink_inv s' w' /\ sink_producer s' = None /\ sink_config s' = sink_config s /\ quiet w w') w.
Proof.
  intros Hinv. destruct s as [c [k|]]; unfold sink_stop, sink_close_locked; cbn [sink_producer]; [|by apply runs_ret].
  pose proof Hinv as (_ & Ek & _). cbn in Ek. apply runs_bind, runs_with_client; [rewrite Ek; set_solver|]. apply runs_ret.
  apply runs_bind, (runs_destroy k ∅ ∅); [done|]. intros w' Hw' Hq. by apply runs_ret.
Qed.

(** Calls of the sink; the results of [produce]. *)
Fixpoint sink_calls (calls : list (option (bytes * bytes))) (s : KafkaSink) : Rd (App := App) (list bool * KafkaSink) :=
  match calls with
  | [] => mret ([], s)
  | Some (key, value) :: calls =>
      '(ok, s) ← sink_produce key value s;
      '(oks, s) ← sink_calls calls s;
      mret (ok :: oks, s)
  | None :: calls => s ← sink_stop s; sink_calls calls s
  end.

(** The messages whose [produce] returned true, in order. *)
Fixpoint acknowledged (topic : bytes) (calls : list (option (bytes * bytes))) (oks : list bool) : list (bytes * bytes * bytes) :=
  match calls, oks with
  | Some (key, value) :: calls, ok :: oks => (if ok : bool then [(topic, key, value)] else []) ++ acknowledged topic calls oks
  | None :: calls, oks => acknowledged topic calls oks
  | _, _ => []
  end.

Lemma runs_sink_calls calls s w :
  sink_inv s w -> sink_enabled (sink_config s) = true ->
  runs (sink_calls calls s) (fun '(oks, s') w' => sink_inv s' w' /\ same_topic w w'
    /\ kw_produced w' = kw_produced w ++ acknowledged (kf_topic (sink_config s)) calls oks
    /\ (calls = [] -> s' = s) /\ (last calls = Some None -> sink_producer s' = None)) w.
Proof.
  revert s w. induction calls as [|[[key value]|] calls IH]; intros s w Hinv Hen; cbn [sink_calls].
  - apply runs_ret. split_and!; [done|done|by rewrite app_nil_r|done|done].
  - apply runs_bind. eapply runs_mono; [by apply runs_sink_produce|]. intros [ok s1] w1 (Hinv1 & Hc & Ht1 & Hp1).
    rewrite <- Hc in Hen. apply runs_bind. eapply runs_mono; [by apply IH|]. intros [oks s2] w2 (Hinv2 & Ht2 & Hp2 & _ & Hlast).
    apply runs_ret. split_and!; [done|unfold same_topic in *; congruence| |done|].
    + rewrite Hp2, Hp1, Hc. rewrite Hc in Hen. rewrite Hen, andb_true_r. cbn [acknowledged]. by rewrite <- app_assoc.
    + destruct calls; [done|exact Hlast].
  - apply runs_bind. eapply runs_mono; [by apply runs_sink_stop|]. intros s1 w1 (Hinv1 & Hnone & Hc & Ht1 & Hp1). rewrite <- Hc in Hen.
    eapply runs_mono; [by apply IH|]. intros [oks s2] w2 (Hinv2 & Ht2 & Hp2 & Hnil & Hlast).
    split_and!; [done|unfold same_topic in *; congruence|by rewrite Hp2, Hp1, Hc|done|].
    destruct calls; [|exact Hlast]. intros _. by rewrite Hnil.
Qed.

(** What is queued is exactly what was acknowledged, each message once and in order, and after a
    [stop] no object of the library is left. *)
Theorem kafka_sink_exact calls c w :
  objects ∅ ∅ ∅ ∅ w -> sink_enabled c = true ->
  exists oks s' w', sink_calls (calls ++ [None]) (sink_init c) w = Some ((oks, s'), w')
    /\ kw_produced w' = kw_produced w ++ acknowledged (kf_topic c) (calls ++ [None]) oks
    /\ objects ∅ ∅ ∅ ∅ w'.
Proof.
  intros Hw Hen. pose proof (runs_sink_calls (calls ++ [None]) (sink_init c) w Hw Hen) as Hrun. unfold runs in Hrun.
  destruct (sink_calls _ _ w) as [[[oks s'] w']|]; [|done]. destruct Hrun as (Hinv & _ & Hp & _ & Hlast). exists oks, s', w'.
  split_and!; [done|done|]. unfold sink_inv in Hinv. rewrite Hlast in Hinv; [done|]. by rewrite last_snoc.
Qed.

(** ** The source *)

Context (sender : bytes -> App -> Z * App).
















(** A source that has not been started, at the committed offset [c0]. *)
Definition source_new (c : BroadcastSettings) (has_sender : bool) w : SourceState (App := App) :=
  mkSourceState (mkSource c has_sender None None) false NoWorker Idle w.




End kafka.

(** ** Runs *)

Module KafkaDemo.

#[local] Instance good_kafka : RdKafka :=
  {| conf_valid := fun _ _ => true; new_ok := fun _ => true;
     producev_result := fun t => if (t =? 1)%nat then QueueFull else NoError;
     subscribe_ok := fun _ => true; poll_result := fun _ => PollNext; commit_ok := fun _ => true |}.

Definition demo_topic (log : list bytes) : KafkaWorld (App := nat) := mkKafkaWorld ∅ ∅ ∅ ∅ 1 0 [] log 0 0 [] 0%nat.

Definition demo_sink : KafkaSettings := mkKafka (str "broker:9092") (str "edge") (str "iota-proxy") (str "all") 5000 5000.
Definition demo_source : BroadcastSettings :=
  mkBroadcast true (str "broker:9092") (str "cmd") (str "group") (str "client") (str "latest") 1000.

(** The first message fails, as when Redis cannot be reached. *)
Definition fails_once (payload : bytes) (n : nat) : Z * nat := (if (n =? 0)%nat then 0 else 1, S n).

Definition two_turns : list SourceEvent := [EvStart; EvTest; EvTurn; EvTest; EvTurn; EvStop].

Lemma kafka_sink_exact_witness :
  sink_enabled demo_sink = true /\
  exists oks s' w', sink_calls ([Some (str "k", str "v"); None; Some (str "k", str "u")] ++ [None]) (sink_init demo_sink) (demo_topic [])
      = Some ((oks, s'), w')
    /\ kw_produced w' = kw_produced (demo_topic [])
        ++ acknowledged (kf_topic demo_sink) ([Some (str "k", str "v"); None; Some (str "k", str "u")] ++ [None]) oks
    /\ objects ∅ ∅ ∅ ∅ w'.
Proof.
  split; [reflexivity|]. apply (kafka_sink_exact [Some (str "k", str "v"); None; Some (str "k", str "u")] demo_sink (demo_topic [])).
  - by split_and!.
  - reflexivity.
Defined.


(** A message that could not be handled is not committed, but the commit of the next one covers
    it: a consumer that is started again does not get it. *)
Example failed_message_lost :
  match source_run fails_once (two_turns ++ [EvTest; EvJoined; EvStart; EvTest; EvTurn]) (source_new demo_source true (demo_topic [str "a"; str "b"])) with
  | Some st => kw_handled (st_world st) = [(0%nat, false); (1%nat, true)] /\ kw_committed (st_world st) = 2%nat
  | None => False
  end.
Proof. vm_compute. done. Qed.

End KafkaDemo.
