(* ===== verification/Redis.v ===== *)
(** The Redis state cache and the edge data pipeline:
    iota_proxy/src/business/RedisStateCache.cpp and EdgeDataPipeline.cpp.

    [RedisStateCache] talks RESP over a socket.  The socket is an environment with a
    state [W] ([NetApi]); the cache itself keeps whether it is connected.  The
    methods are programs of the state monad [Io]. *)
From S2P Require Import Prelude KcpConv Frames Identity Json EdgeMessage.

(** ** RESP commands *)

Definition crlf : bytes := [x0d; x0a].

Definition bulk (value : bytes) : bytes :=
  [x24] ++ to_string (zlen value) ++ crlf ++ value ++ crlf.

Definition command (args : list bytes) : bytes :=
  [x2a] ++ to_string (zlen args) ++ crlf ++ concat (bulk <$> args).

Definition set_command_args (key value : bytes) (ttl_seconds : Z) : list bytes :=
  if ttl_seconds =? 0 then [str "SET"; key; value]
  else [str "SET"; key; value; str "EX"; to_string ttl_seconds].

Definition set_command (key value : bytes) (ttl_seconds : Z) : bytes :=
  command (set_command_args key value ttl_seconds).

Definition set_nx_command_args (key value : bytes) (ttl_seconds : Z) : list bytes :=
  if ttl_seconds =? 0 then [str "SET"; key; value; str "NX"]
  else [str "SET"; key; value; str "EX"; to_string ttl_seconds; str "NX"].

Definition set_nx_command (key value : bytes) (ttl_seconds : Z) : bytes :=
  command (set_nx_command_args key value ttl_seconds).

(** [std::strtol(s, &end, 10)] on 64-bit [long]. *)
Definition strtol10 (s : bytes) : option (Z * bytes) :=
  let r := skip_space s in
  let '(neg, r) :=
    match r with
    | b :: r' =>
        if byte_val b =? 45 then (true, r')
        else if byte_val b =? 43 then (false, r') else (false, r)
    | [] => (false, r)
    end in
  match r with
  | b :: _ =>
      if is_digit b then
        let '(v, rest) := scan_digits 0 r in
        let v := if neg then Z.max (- v) (- 2 ^ 63) else Z.min v i64_max in
        Some (v, rest)
      else None
  | [] => None
  end.

(** ** The cache *)

(** [struct RedisStateCacheConfig], without the timeouts. *)
Record RedisStateCacheConfig := mkRedisConfig {
  redis_endpoint : Ipv4Endpoint;
  device_state_ttl_seconds : Z;
  device_latest_ttl_seconds : Z;
  seen_ttl_seconds : Z;
}.

Definition redis_enabled (c : RedisStateCacheConfig) : bool :=
  negb (str_empty (host (redis_endpoint c))) && negb (port (redis_endpoint c) =? 0).

(** [struct Reply] *)
Record Reply := mkReply { reply_type : byte; reply_nil : bool; reply_text : bytes }.

(** The socket calls the cache makes: [connect_with_timeout], [write_all],
    [read_byte], [discard_bytes] and [close]. *)
Record NetApi (W : Type) := mkNetApi {
  net_connect : W -> bool * W;
  net_write_all : bytes -> W -> bool * W;
  net_read_byte : W -> option byte * W;
  net_discard : Z -> W -> bool * W;
  net_close : W -> W;
}.
Arguments net_connect {W}.
Arguments net_write_all {W}.
Arguments net_read_byte {W}.
Arguments net_discard {W}.
Arguments net_close {W}.

Section cache.
Context {W : Type} (api : NetApi W).

(** Programs over the connection state ([fd_ >= 0]) and the environment. *)
Definition Io (A : Type) : Type := bool * W -> A * (bool * W).
Definition ret {A} (a : A) : Io A := fun s => (a, s).
Definition bind {A B} (m : Io A) (k : A -> Io B) : Io B := fun s => let '(a, s) := m s in k a s.
Definition get_open : Io bool := fun s => (s.1, s).
Definition set_open (b : bool) : Io unit := fun s => (tt, (b, s.2)).
Definition net {A} (f : W -> A * W) : Io A := fun s => let '(a, w) := f s.2 in (a, (s.1, w)).

#[local] Notation "'let*' x := m 'in' k" := (bind m (fun x => k)) (at level 10, x name, k at level 200).

(** The loop of [read_line]; [fuel] is how many bytes it may still take. *)
Fixpoint read_line_loop (fuel : nat) (out : bytes) (previous : byte) : Io (option bytes) :=
  match fuel with
  | O => ret None
  | S fuel =>
      let* c := net (net_read_byte api) in
      match c with
      | None => ret None
      | Some c =>
          let out := out ++ [c] in
          if bool_decide (previous = x0d) && bool_decide (c = x0a)
          then ret (Some (take (length out - 2) out))
          else read_line_loop fuel out c
      end
  end.

Definition kMaxLine : nat := Z.to_nat (1024 * 1024).
Definition read_line : Io (option bytes) := read_line_loop kMaxLine [] x00.

(** [read_reply_locked]; [None] for [false]. *)
Definition read_reply_locked : Io (option Reply) :=
  let* open := get_open in
  if negb open then ret None
  else
    let* t := net (net_read_byte api) in
    match t with
    | None => ret None
    | Some t =>
        if bool_decide (t = x2b) || bool_decide (t = x3a) || bool_decide (t = x2d) then
          let* line := read_line in
          match line with
          | None => ret None
          | Some text => ret (Some {| reply_type := t; reply_nil := false; reply_text := text |})
          end
        else if bool_decide (t = x24) then
          let* line := read_line in
          match line with
          | None => ret None
          | Some line =>
              match strtol10 (c_str line) with
              | None => ret None
              | Some (len, rest) =>
                  if negb (zlen rest =? 0) || (len <? -1) then ret None
                  else if len <? 0 then
                    ret (Some {| reply_type := t; reply_nil := true; reply_text := [] |})
                  else
                    let* ok := net (net_discard api (len + 2)) in
                    if negb ok then ret None
                    else ret (Some {| reply_type := t; reply_nil := false; reply_text := [] |})
              end
          end
        else ret None
    end.

Definition close_locked : Io unit :=
  let* open := get_open in
  if open then
    let* _ := net (fun w => (tt, net_close api w)) in
    set_open false
  else ret tt.

Definition send_command_locked (cmd : bytes) : Io bool :=
  let* open := get_open in
  if open then net (net_write_all api cmd) else ret false.

Context (cfg : RedisStateCacheConfig).

Definition ensure_connected : Io bool :=
  let* open := get_open in
  if open then ret true
  else if negb (redis_enabled cfg) then ret false
  else
    let* ok := net (net_connect api) in
    let* _ := set_open ok in
    ret ok.

(** One turn of the loop of [execute_locked]; [Some r] when it returns. *)
Definition execute_attempt (cmd : bytes) : Io (option (option Reply)) :=
  let* ok := ensure_connected in
  if negb ok then ret (Some None)
  else
    let* sent := send_command_locked cmd in
    let* reply := (if sent then read_reply_locked else ret None) in
    match reply with
    | Some r => ret (Some (if bool_decide (reply_type r = x2d) then None else Some r))
    | None => let* _ := close_locked in ret None
    end.

(** [execute_locked]: at most two attempts. *)
Definition execute_locked (cmd : bytes) : Io (option Reply) :=
  let* first := execute_attempt cmd in
  match first with
  | Some r => ret r
  | None =>
      let* second := execute_attempt cmd in
      match second with
      | Some r => ret r
      | None => ret None
      end
  end.

Definition seen_key (m : EdgeDataMessage) : bytes := str "seen:" ++ msg_message_id m.
Definition state_key (m : EdgeDataMessage) : bytes := str "device:" ++ msg_mac_hex m ++ str ":state".
Definition latest_key (m : EdgeDataMessage) : bytes := str "device:" ++ msg_mac_hex m ++ str ":latest".

(** The two [SET]s at the end of [record_edge_message]. *)
Definition write_device (m : EdgeDataMessage) (serialized : bytes) : Io (bool * bool) :=
  let* r := execute_locked (set_command (state_key m) (str "online") (device_state_ttl_seconds cfg)) in
  match r with
  | None => ret (false, false)
  | Some _ =>
      let* r := execute_locked (set_command (latest_key m) serialized (device_latest_ttl_seconds cfg)) in
      match r with
      | None => ret (false, false)
      | Some _ => ret (true, false)
      end
  end.

(** [record_edge_message]: the result and [*duplicate]. *)
Definition record_edge_message (m : EdgeDataMessage) (serialized : bytes) : Io (bool * bool) :=
  if negb (redis_enabled cfg) then ret (true, false)
  else if negb (zlen (msg_message_id m) =? 0) then
    let* r := execute_locked (set_nx_command (seen_key m) (str "1") (seen_ttl_seconds cfg)) in
    match r with
    | None => ret (false, false)
    | Some r => if reply_nil r then ret (true, true) else write_device m serialized
    end
  else write_device m serialized.

(** ** The pipeline *)
Context `{JsonApi}.
(** [KafkaSink::produce]: whether librdkafka accepts the record. *)
Context (produce : bytes -> bytes -> bool).

(** [write_edge_data]: the result and what was handed to Kafka. *)
Definition write_edge_data (now stream_id : Z) (payload : ByteView) (metadata : BroadcastMetadata)
    : Io (bool * list (bytes * bytes)) :=
  if view_empty payload then ret (true, [])
  else
    match make_edge_data_message now stream_id payload metadata with
    | None => ret (false, [])
    | Some m =>
        let serialized := serialize_edge_data_message_json m in
        let* r := record_edge_message m serialized in
        if r.2 then ret (true, [])
        else ret (produce (msg_mac_hex m) serialized, [(msg_mac_hex m, serialized)])
    end.

(** [record_kafka_message]: the result and [*duplicate]. *)
Definition record_kafka_message (now : Z) (payload : ByteView) (metadata : BroadcastMetadata)
    : Io (bool * bool) :=
  if view_empty payload then ret (true, false)
  else
    match parse_edge_kafka_message_json now payload metadata with
    | None => ret (false, false)
    | Some m => record_edge_message m (view_bytes payload)
    end.
End cache.
