(* ===== verification/RedisProofs.v ===== *)
(** Properties of the Redis state cache and the edge data pipeline (Redis.v):
    unambiguous commands, deduplication against a Redis server, and what a lost
    reply or a failed write does to it. *)
From S2P Require Import Prelude KcpConv Frames Identity Json EdgeMessage Redis.

(** ** RESP *)

(** The reference parser of a server: a number, a line end. *)
Definition resp_number (s : bytes) : option (Z * bytes) :=
  let '(v, rest) := scan_digits 0 s in
  match rest with
  | a :: b :: rest => if bool_decide (a = x0d) && bool_decide (b = x0a) then Some (v, rest) else None
  | _ => None
  end.

Definition resp_bulk (s : bytes) : option (bytes * bytes) :=
  match s with
  | t :: s =>
      if bool_decide (t = x24) then
        match resp_number s with
        | Some (n, rest) =>
            let n := Z.to_nat n in
            if bool_decide (take 2 (drop n rest) = crlf)
            then Some (take n rest, drop (n + 2) rest) else None
        | None => None
        end
      else None
  | [] => None
  end.

Fixpoint resp_bulks (n : nat) (s : bytes) : option (list bytes * bytes) :=
  match n with
  | O => Some ([], s)
  | S n =>
      match resp_bulk s with
      | Some (a, s) =>
          match resp_bulks n s with
          | Some (l, s) => Some (a :: l, s)
          | None => None
          end
      | None => None
      end
  end.

Definition resp_command (s : bytes) : option (list bytes * bytes) :=
  match s with
  | t :: s =>
      if bool_decide (t = x2a) then
        match resp_number s with
        | Some (n, rest) => resp_bulks (Z.to_nat n) rest
        | None => None
        end
      else None
  | [] => None
  end.

Lemma resp_number_print z rest : fits 64 z -> resp_number (to_string z ++ crlf ++ rest) = Some (z, rest).
Proof.
  intros Hz. destruct (to_string_spec z Hz) as (ds & -> & _ & Hds & Hv). unfold resp_number.
  rewrite (scan_digits_value ds (crlf ++ rest) Hds) by done. rewrite Hv. done.
Qed.

Lemma resp_bulk_print v rest : fits 64 (zlen v) -> resp_bulk (bulk v ++ rest) = Some (v, rest).
Proof.
  intros Hv. unfold bulk. rewrite <- !app_assoc. cbn [app resp_bulk].
  rewrite bool_decide_true by done. rewrite resp_number_print by done.
  unfold zlen. rewrite Nat2Z.id, drop_app_length, take_app_length.
  cbn [crlf app]. rewrite bool_decide_true by done. f_equal. f_equal.
  rewrite drop_app_add. done.
Qed.

Lemma resp_bulks_print args rest :
  Forall (fun a => fits 64 (zlen a)) args ->
  resp_bulks (length args) (concat (bulk <$> args) ++ rest) = Some (args, rest).
Proof.
  induction 1 as [|a args Ha _ IH]; [done|].
  rewrite fmap_cons. cbn [concat length resp_bulks]. rewrite <- app_assoc, resp_bulk_print by done.
  rewrite IH. done.
Qed.

Lemma resp_command_print args rest :
  fits 64 (zlen args) -> Forall (fun a => fits 64 (zlen a)) args ->
  resp_command (command args ++ rest) = Some (args, rest).
Proof.
  intros Hn Ha. unfold command. rewrite <- !app_assoc. cbn [app resp_command].
  rewrite bool_decide_true by done. rewrite resp_number_print by done.
  unfold zlen. rewrite Nat2Z.id. apply resp_bulks_print. done.
Qed.

(** Commands are binary safe: a server that reads the bytes of a command gets
    back exactly its arguments, whatever bytes keys and values contain, so data from
    a device cannot smuggle in another command. *)
Theorem resp_command_roundtrip args rest :
  fits 64 (zlen args) -> Forall (fun a => fits 64 (zlen a)) args ->
  resp_command (command args ++ rest) = Some (args, rest).
Proof. apply resp_command_print. Qed.

Lemma resp_command_roundtrip_witness :
  resp_command (command [str "SET"; [x0d; x0a; x2a]; []] ++ str "x")
  = Some ([str "SET"; [x0d; x0a; x2a]; []], str "x").
Proof.
  apply resp_command_roundtrip; [vm_compute; split; [discriminate|reflexivity]|].
  repeat constructor; vm_compute; (discriminate || reflexivity).
Defined.

(** ** A server and a network *)

(** What the cache relies on from Redis: [SET] stores and answers [OK]; with [NX] it
    stores only when the key is absent and answers nil otherwise. *)
Class RedisServer := {
  rdb : Type;
  rget : bytes -> rdb -> option bytes;
  serve : list bytes -> rdb -> bytes * rdb;
  serve_set : forall key value ttl db,
    (serve (set_command_args key value ttl) db).1 = str "+OK" ++ crlf /\
    forall k, rget k (serve (set_command_args key value ttl) db).2 =
      if bool_decide (k = key) then Some value else rget k db;
  serve_set_nx : forall key value ttl db,
    (serve (set_nx_command_args key value ttl) db).1 =
      match rget key db with
      | None => str "+OK" ++ crlf
      | Some _ => str "$-1" ++ crlf
      end /\
    forall k, rget k (serve (set_nx_command_args key value ttl) db).2 =
      match rget key db with
      | None => if bool_decide (k = key) then Some value else rget k db
      | Some _ => rget k db
      end;
}.

(** What can happen to one request: nothing bad, the connection breaks after the
    server executed it, or before. *)
Inductive fault : Set := Fine | LostReply | LostRequest.

#[global] Instance fault_eq_dec : EqDecision fault.
Proof. solve_decision. Defined.

Section world.
Context `{RedisServer}.

Record world := mkWorld {
  w_db : rdb;
  w_input : bytes;
  w_faults : list fault;
}.

Definition world_write (cmd : bytes) (w : world) : bool * world :=
  match resp_command cmd with
  | Some (args, _) =>
      let '(reply, db) := serve args (w_db w) in
      (true, match w_faults w with
             | LostRequest :: fs => mkWorld (w_db w) [] fs
             | LostReply :: fs => mkWorld db [] fs
             | Fine :: fs => mkWorld db reply fs
             | [] => mkWorld db reply []
             end)
  | None => (false, w)
  end.

Definition world_api : NetApi world :=
  {| net_connect := fun w => (true, mkWorld (w_db w) [] (w_faults w));
     net_write_all := world_write;
     net_read_byte := fun w =>
       match w_input w with
       | [] => (None, w)
       | b :: r => (Some b, mkWorld (w_db w) r (w_faults w))
       end;
     net_discard := fun n w =>
       if n <=? zlen (w_input w) then (true, mkWorld (w_db w) (drop (Z.to_nat n) (w_input w)) (w_faults w))
       else (false, mkWorld (w_db w) [] (w_faults w));
     net_close := fun w => mkWorld (w_db w) [] (w_faults w) |}.

(** Reading a line that is there. *)
Lemma read_line_loop_spec line : forall fuel out prev op db rest fs,
  x0a ∉ line -> (length line + 2 <= fuel)%nat ->
  read_line_loop world_api fuel out prev (op, mkWorld db (line ++ crlf ++ rest) fs) =
    (Some (out ++ line), (op, mkWorld db rest fs)).
Proof.
  induction line as [|b line IH]; intros fuel out prev op db rest fs Hnl Hf; cbn [length] in Hf.
  - destruct fuel as [|[|fuel]]; [lia..|]. cbn [read_line_loop app crlf]. unfold bind, net, ret. cbn.
    rewrite (bool_decide_false (x0d = x0a)), andb_false_r by done.
    rewrite (bool_decide_true (x0d = x0d)) by done. cbn -[bool_decide app take].
    rewrite bool_decide_true, <- app_assoc by done. cbn [app].
    rewrite length_app. cbn [length]. rewrite Nat.add_sub, take_app_length, app_nil_r. done.
  - destruct fuel as [|fuel]; [lia|]. cbn [read_line_loop app]. unfold bind at 1, net at 1.
    cbn -[bool_decide app read_line_loop crlf]. apply not_elem_of_cons in Hnl as [Hb Hnl].
    rewrite (bool_decide_false (b = x0a)), andb_false_r by congruence.
    rewrite IH by (done || lia). rewrite <- app_assoc. done.
Qed.

Lemma read_line_spec line op db rest fs :
  x0a ∉ line -> (length line <= 1000)%nat ->
  read_line world_api (op, mkWorld db (line ++ crlf ++ rest) fs) =
    (Some line, (op, mkWorld db rest fs)).
Proof. intros Hnl Hlen. unfold read_line. apply read_line_loop_spec; [done|]. unfold kMaxLine. lia. Qed.

Definition reply_ok : Reply := mkReply x2b false (str "OK").
Definition reply_null : Reply := mkReply x24 true [].

(** Running a sequence one call at a time. *)
Lemma bind_step {A B} (m : Io A) (k : A -> Io B) (s : bool * world) a s' :
  m s = (a, s') -> bind m k s = k a s'.
Proof. intros E. unfold bind. rewrite E. done. Qed.

Lemma open_step {B} (k : bool -> Io B) op (w : world) : bind get_open k (op, w) = k op (op, w).
Proof. done. Qed.

Lemma byte_step {B} (k : option byte -> Io B) op db b r fs :
  bind (net (net_read_byte world_api)) k (op, mkWorld db (b :: r) fs) =
    k (Some b) (op, mkWorld db r fs).
Proof. done. Qed.

Lemma no_newline l : forallb (fun b => negb (bool_decide (b = x0a))) l = true -> x0a ∉ l.
Proof.
  intros Hl Hin%list_elem_of_In. rewrite forallb_forall in Hl. apply Hl in Hin.
  rewrite bool_decide_true in Hin; done.
Qed.

Lemma read_reply_ok db fs :
  read_reply_locked world_api (true, mkWorld db (str "+OK" ++ crlf) fs) =
    (Some reply_ok, (true, mkWorld db [] fs)).
Proof.
  unfold read_reply_locked. rewrite open_step. cbn [negb].
  change (str "+OK" ++ crlf) with (x2b :: str "OK" ++ crlf ++ []). rewrite byte_step.
  rewrite (bool_decide_true (x2b = x2b)) by done. cbn [orb].
  rewrite (bind_step _ _ _ _ _ (read_line_spec (str "OK") true db [] fs
            (no_newline (str "OK") eq_refl) ltac:(cbn; lia))). done.
Qed.

Lemma read_reply_null db fs :
  read_reply_locked world_api (true, mkWorld db (str "$-1" ++ crlf) fs) =
    (Some reply_null, (true, mkWorld db [] fs)).
Proof.
  unfold read_reply_locked. rewrite open_step. cbn [negb].
  change (str "$-1" ++ crlf) with (x24 :: str "-1" ++ crlf ++ []). rewrite byte_step.
  rewrite (bool_decide_true (x24 = x24)) by done.
  rewrite !(bool_decide_false (x24 = _)) by done. cbn [orb].
  rewrite (bind_step _ _ _ _ _ (read_line_spec (str "-1") true db [] fs
            (no_newline (str "-1") eq_refl) ltac:(cbn; lia))).
  replace (strtol10 (c_str (str "-1"))) with (Some (-1, @nil byte)) by (vm_compute; reflexivity).
  done.
Qed.

Lemma read_reply_nothing db fs :
  read_reply_locked world_api (true, mkWorld db [] fs) = (None, (true, mkWorld db [] fs)).
Proof. reflexivity. Qed.

Section exec.
Context (cfg : RedisStateCacheConfig) (Hen : redis_enabled cfg = true).

Lemma ensure_connected_ok op db fs :
  ensure_connected world_api cfg (op, mkWorld db [] fs) = (true, (true, mkWorld db [] fs)).
Proof. unfold ensure_connected, bind, get_open, net, set_open, ret. rewrite Hen. destruct op; done. Qed.

(** The faults left after a request. *)
Definition next_faults (fs : list fault) : list fault := tail fs.

Lemma attempt_fine args reply r op db fs :
  (forall rest, resp_command (command args ++ rest) = Some (args, rest)) ->
  (serve args db).1 = reply -> head fs ≠ Some LostReply -> head fs ≠ Some LostRequest ->
  (forall db fs, read_reply_locked world_api (true, mkWorld db reply fs) =
                 (Some r, (true, mkWorld db [] fs))) ->
  reply_type r <> x2d ->
  execute_attempt world_api cfg (command args) (op, mkWorld db [] fs) =
    (Some (Some r), (true, mkWorld (serve args db).2 [] (next_faults fs))).
Proof.
  intros Hp Hrep Hf1 Hf2 Hread Ht. unfold execute_attempt.
  rewrite (bind_step _ _ _ _ _ (ensure_connected_ok op db fs)). cbn [negb].
  specialize (Hp []). rewrite app_nil_r in Hp.
  assert (send_command_locked world_api (command args) (true, mkWorld db [] fs) =
          (true, (true, mkWorld (serve args db).2 reply (next_faults fs)))) as Hs.
  { unfold send_command_locked. rewrite open_step. unfold net.
    cbn [snd fst net_write_all world_api]. unfold world_write. rewrite Hp. cbn [w_db w_faults].
    destruct (serve args db) as [rep db'] eqn:Es. cbn in Hrep. subst reply.
    destruct fs as [|[]]; done. }
  rewrite (bind_step _ _ _ _ _ Hs), (bind_step _ _ _ _ _ (Hread _ _)).
  rewrite bool_decide_false by done. done.
Qed.

(** A request whose reply is lost is executed, but looks failed. *)
Lemma attempt_lost args op db f fs :
  (forall rest, resp_command (command args ++ rest) = Some (args, rest)) -> f <> Fine ->
  execute_attempt world_api cfg (command args) (op, mkWorld db [] (f :: fs)) =
    (None, (false, mkWorld (if bool_decide (f = LostReply) then (serve args db).2 else db) [] fs)).
Proof.
  intros Hp Hf. unfold execute_attempt.
  rewrite (bind_step _ _ _ _ _ (ensure_connected_ok op db (f :: fs))). cbn [negb].
  specialize (Hp []). rewrite app_nil_r in Hp.
  set (db' := if bool_decide (f = LostReply) then _ else _).
  assert (send_command_locked world_api (command args) (true, mkWorld db [] (f :: fs)) =
          (true, (true, mkWorld db' [] fs))) as Hs.
  { unfold send_command_locked. rewrite open_step. unfold net.
    cbn [snd fst net_write_all world_api]. unfold world_write. rewrite Hp. cbn [w_db w_faults].
    unfold db'. destruct (serve args db) as [rep db1] eqn:Es. destruct f; done. }
  rewrite (bind_step _ _ _ _ _ Hs), (bind_step _ _ _ _ _ (read_reply_nothing _ _)). done.
Qed.

Lemma length_to_string_loop fuel : forall z acc,
  (length (to_string_loop fuel z acc) <= fuel + length acc)%nat.
Proof.
  induction fuel as [|fuel IH]; intros z acc; cbn [to_string_loop]; [lia|].
  case_match; [simpl; lia|]. etrans; [apply IH|]. simpl. lia.
Qed.

Lemma fits_to_string z : fits 64 (zlen (to_string z)).
Proof.
  unfold to_string, zlen. pose proof (length_to_string_loop 20 z []) as Hl. cbn [length] in Hl.
  split; [lia|]. change (2 ^ 64) with 18446744073709551616. lia.
Qed.

(** Sizes far below what a 64-bit machine can hold. *)
Definition message_small (m : EdgeDataMessage) (serialized : bytes) : Prop :=
  zlen (msg_message_id m) < 2 ^ 32 /\ zlen (msg_mac_hex m) < 2 ^ 32 /\ zlen serialized < 2 ^ 63.

Lemma set_args_parse key value ttl rest :
  zlen key < 2 ^ 63 -> zlen value < 2 ^ 63 ->
  resp_command (command (set_command_args key value ttl) ++ rest) =
    Some (set_command_args key value ttl, rest).
Proof.
  intros Hk Hv. pose proof (zlen_nonneg key). pose proof (zlen_nonneg value).
  apply resp_command_print; unfold set_command_args; destruct (ttl =? 0);
    repeat constructor; try done; unfold fits; try lia; apply fits_to_string.
Qed.

Lemma set_nx_args_parse key value ttl rest :
  zlen key < 2 ^ 63 -> zlen value < 2 ^ 63 ->
  resp_command (command (set_nx_command_args key value ttl) ++ rest) =
    Some (set_nx_command_args key value ttl, rest).
Proof.
  intros Hk Hv. pose proof (zlen_nonneg key). pose proof (zlen_nonneg value).
  apply resp_command_print; unfold set_nx_command_args; destruct (ttl =? 0);
    repeat constructor; try done; unfold fits; try lia; apply fits_to_string.
Qed.

(** No fault on the next request. *)
Definition fine (fs : list fault) : Prop := head fs ≠ Some LostReply /\ head fs ≠ Some LostRequest.

Lemma execute_set key value ttl op db fs :
  zlen key < 2 ^ 63 -> zlen value < 2 ^ 63 -> fine fs ->
  execute_locked world_api cfg (set_command key value ttl) (op, mkWorld db [] fs) =
    (Some reply_ok, (true, mkWorld (serve (set_command_args key value ttl) db).2 [] (next_faults fs))).
Proof.
  intros Hk Hv [Hf1 Hf2]. unfold execute_locked, set_command.
  rewrite (bind_step _ _ _ _ _ (attempt_fine (set_command_args key value ttl) (str "+OK" ++ crlf)
    reply_ok op db fs (fun rest => set_args_parse _ _ _ rest Hk Hv)
    (proj1 (serve_set key value ttl db)) Hf1 Hf2 read_reply_ok ltac:(done))).
  done.
Qed.

Lemma execute_set_nx key value ttl op db fs :
  zlen key < 2 ^ 63 -> zlen value < 2 ^ 63 -> fine fs ->
  execute_locked world_api cfg (set_nx_command key value ttl) (op, mkWorld db [] fs) =
    (Some (match rget key db with None => reply_ok | Some _ => reply_null end),
     (true, mkWorld (serve (set_nx_command_args key value ttl) db).2 [] (next_faults fs))).
Proof.
  intros Hk Hv [Hf1 Hf2]. unfold execute_locked, set_nx_command.
  rewrite (bind_step _ _ _ _ _ (attempt_fine (set_nx_command_args key value ttl)
    (match rget key db with None => str "+OK" ++ crlf | Some _ => str "$-1" ++ crlf end)
    (match rget key db with None => reply_ok | Some _ => reply_null end)
    op db fs (fun rest => set_nx_args_parse _ _ _ rest Hk Hv)
    (proj1 (serve_set_nx key value ttl db)) Hf1 Hf2
    ltac:(destruct (rget key db); [apply read_reply_null|apply read_reply_ok])
    ltac:(destruct (rget key db); done))).
  done.
Qed.

(** The second attempt after a first one that was lost. *)
Lemma execute_retry args op db f fs :
  (forall rest, resp_command (command args ++ rest) = Some (args, rest)) -> f <> Fine ->
  execute_locked world_api cfg (command args) (op, mkWorld db [] (f :: fs)) =
    (let '(second, s) := execute_attempt world_api cfg (command args)
        (false, mkWorld (if bool_decide (f = LostReply) then (serve args db).2 else db) [] fs) in
     (match second with Some r => r | None => None end, s)).
Proof.
  intros Hp Hf. unfold execute_locked.
  rewrite (bind_step _ _ _ _ _ (attempt_lost args op db f fs Hp Hf)). unfold bind.
  destruct (execute_attempt _ _ _ _) as [[r|] s]; done.
Qed.

Lemma keys_small m serialized :
  message_small m serialized ->
  zlen (seen_key m) < 2 ^ 63 /\ zlen (state_key m) < 2 ^ 63 /\ zlen (latest_key m) < 2 ^ 63.
Proof.
  intros (Hi & Hm & _). unfold seen_key, state_key, latest_key.
  autorewrite with iota_len.
  change (zlen (str "seen:")) with 5. change (zlen (str "device:")) with 7.
  change (zlen (str ":state")) with 6. change (zlen (str ":latest")) with 7. lia.
Qed.

Lemma keys_distinct m :
  seen_key m <> state_key m /\ seen_key m <> latest_key m /\ state_key m <> latest_key m.
Proof.
  split_and!; try done. unfold state_key, latest_key. intros E.
  apply app_inv_head, app_inv_head in E. done.
Qed.

(** Both device keys are written when nothing goes wrong. *)
Lemma write_device_fine m serialized op db fs :
  message_small m serialized -> fine fs -> fine (next_faults fs) ->
  let db1 := (serve (set_command_args (state_key m) (str "online") (device_state_ttl_seconds cfg)) db).2 in
  let db2 := (serve (set_command_args (latest_key m) serialized (device_latest_ttl_seconds cfg)) db1).2 in
  write_device world_api cfg m serialized (op, mkWorld db [] fs) =
    ((true, false), (true, mkWorld db2 [] (next_faults (next_faults fs)))).
Proof.
  intros Hs Hf1 Hf2 db1 db2. pose proof Hs as (_ & _ & Hser).
  destruct (keys_small m serialized Hs) as (_ & Hk1 & Hk2). unfold write_device.
  rewrite (bind_step _ _ _ _ _ (execute_set (state_key m) (str "online") _ op db fs Hk1 ltac:(done) Hf1)).
  fold db1. rewrite (bind_step _ _ _ _ _ (execute_set (latest_key m) serialized _ true db1 _ Hk2 Hser Hf2)).
  done.
Qed.

Context (m : EdgeDataMessage) (serialized : bytes).
Context (Hsmall : message_small m serialized) (Hid : msg_message_id m <> []).

Abbreviation record := (record_edge_message world_api cfg m serialized).

Lemma record_unfold s :
  record s = bind (execute_locked world_api cfg (set_nx_command (seen_key m) (str "1") (seen_ttl_seconds cfg)))
    (fun r => match r with
              | None => ret (false, false)
              | Some r => if reply_nil r then ret (true, true)
                          else write_device world_api cfg m serialized
              end) s.
Proof.
  unfold record_edge_message. rewrite Hen. cbn [negb].
  destruct (Z.eqb_spec (zlen (msg_message_id m)) 0) as [E|_]; [apply zlen_zero in E; done|]. done.
Qed.

Definition nx_args : list bytes := set_nx_command_args (seen_key m) (str "1") (seen_ttl_seconds cfg).

Lemma nx_parse rest : resp_command (command nx_args ++ rest) = Some (nx_args, rest).
Proof. apply set_nx_args_parse; [apply (keys_small m serialized Hsmall)|done]. Qed.

(** A message that was seen before is a duplicate, without further effect. *)
Lemma record_seen op db fs v :
  rget (seen_key m) db = Some v -> fine fs ->
  exists db', record (op, mkWorld db [] fs) = ((true, true), (true, mkWorld db' [] (next_faults fs))) /\
    forall k, rget k db' = rget k db.
Proof.
  intros Hv Hf. rewrite record_unfold.
  destruct (keys_small m serialized Hsmall) as (Hk & _).
  rewrite (bind_step _ _ _ _ _ (execute_set_nx _ (str "1") _ op db fs Hk ltac:(done) Hf)), Hv.
  eexists. split; [done|]. intros k.
  destruct (serve_set_nx (seen_key m) (str "1") (seen_ttl_seconds cfg) db) as [_ ->].
  rewrite Hv. done.
Qed.
End exec.

(** The cache with a reachable Redis. *)
Lemma record_reliable cfg m serialized op db :
  redis_enabled cfg = true -> message_small m serialized -> msg_message_id m <> [] ->
  exists db', record_edge_message world_api cfg m serialized (op, mkWorld db [] []) =
      ((true, bool_decide (is_Some (rget (seen_key m) db))), (true, mkWorld db' [] [])) /\
    match rget (seen_key m) db with
    | Some _ => forall k, rget k db' = rget k db
    | None => rget (seen_key m) db' = Some (str "1") /\ rget (state_key m) db' = Some (str "online") /\
              rget (latest_key m) db' = Some serialized
    end.
Proof.
  intros Hen Hs Hid. destruct (rget (seen_key m) db) as [v|] eqn:Hv.
  - destruct (record_seen cfg Hen m serialized Hs Hid op db [] v Hv) as (db' & E & Hdb); [done|].
    exists db'. rewrite bool_decide_true by eauto. done.
  - rewrite bool_decide_false by (intros [? ?]; done).
    destruct (keys_small m serialized Hs) as (Hk & _). destruct (keys_distinct m) as (D1 & D2 & D3).
    rewrite (record_unfold cfg Hen m serialized Hid).
    rewrite (bind_step _ _ _ _ _ (execute_set_nx cfg Hen _ (str "1") _ op db [] Hk ltac:(done) ltac:(done))), Hv.
    cbn [reply_nil reply_ok]. set (db0 := (serve _ db).2).
    eexists. split; [apply write_device_fine; done|].
    destruct (serve_set_nx (seen_key m) (str "1") (seen_ttl_seconds cfg) db) as [_ H0].
    fold db0 in H0. rewrite Hv in H0.
    set (db1 := (serve (set_command_args (state_key m) _ _) db0).2).
    destruct (serve_set (state_key m) (str "online") (device_state_ttl_seconds cfg) db0) as [_ H1].
    destruct (serve_set (latest_key m) serialized (device_latest_ttl_seconds cfg) db1) as [_ H2].
    fold db1 in H1. rewrite !H2, !H1, !H0.
    split_and!; repeat case_bool_decide; congruence.
Qed.

(** A lost reply: the retry finds the key its own first attempt created. *)
Lemma record_lost_reply cfg m serialized op db :
  redis_enabled cfg = true -> message_small m serialized -> msg_message_id m <> [] ->
  rget (seen_key m) db = None ->
  exists db', record_edge_message world_api cfg m serialized (op, mkWorld db [] [LostReply]) =
      ((true, true), (true, mkWorld db' [] [])) /\
    forall k, k <> seen_key m -> rget k db' = rget k db.
Proof.
  intros Hen Hs Hid Hv. rewrite (record_unfold cfg Hen m serialized Hid).
  destruct (serve_set_nx (seen_key m) (str "1") (seen_ttl_seconds cfg) db) as [_ H0].
  rewrite Hv in H0. fold (nx_args cfg m) in H0. set (db0 := (serve (nx_args cfg m) db).2) in H0.
  destruct (serve_set_nx (seen_key m) (str "1") (seen_ttl_seconds cfg) db0) as [R1 H1].
  pose proof (H0 (seen_key m)) as Hseen. rewrite bool_decide_true in Hseen by done.
  rewrite Hseen in R1, H1. fold (nx_args cfg m) in R1, H1.
  pose proof (execute_retry cfg Hen (nx_args cfg m) op db LostReply []
                (nx_parse cfg m serialized Hs) ltac:(done)) as Hex.
  rewrite bool_decide_true in Hex by done. fold db0 in Hex.
  rewrite (attempt_fine cfg Hen (nx_args cfg m) (str "$-1" ++ crlf) reply_null false db0 []
             (nx_parse cfg m serialized Hs) R1 ltac:(done) ltac:(done) read_reply_null ltac:(done)) in Hex.
  rewrite (bind_step _ _ _ _ _ Hex). eexists. split; [done|].
  intros k Hk. rewrite H1, H0, bool_decide_false by done. done.
Qed.

(** [C37] Deduplication with an enabled cache over a connection that does not break, for a message
    with an id and of a size below 2^32: [record_edge_message] reports a duplicate exactly when the
    message id was seen before, and then changes nothing; otherwise it marks the id as seen and
    stores the device's state and latest message. Over a connection that breaks a new message can be
    reported as a duplicate ([edge_data_lost_on_broken_reply]). *)
Theorem redis_dedup cfg m serialized op db :
  redis_enabled cfg = true -> message_small m serialized -> msg_message_id m <> [] ->
  exists db', record_edge_message world_api cfg m serialized (op, mkWorld db [] []) =
      ((true, bool_decide (is_Some (rget (seen_key m) db))), (true, mkWorld db' [] [])) /\
    match rget (seen_key m) db with
    | Some _ => forall k, rget k db' = rget k db
    | None => rget (seen_key m) db' = Some (str "1") /\ rget (state_key m) db' = Some (str "online") /\
              rget (latest_key m) db' = Some serialized
    end.
Proof. apply record_reliable. Qed.

(** A lost reply loses the message: a node that receives a new edge frame
    publishes it to Kafka when Redis is reachable, but when the connection breaks
    after Redis executed the first [SET ... NX], the retry of [execute_locked] finds
    the key its own first attempt created, the frame is taken for a duplicate, and
    [write_edge_data] reports success without publishing it or updating the device
    keys. *)
Theorem edge_data_lost_on_broken_reply `{JsonApi} cfg produce now sid payload md m op db :
  redis_enabled cfg = true -> view_empty payload = false ->
  make_edge_data_message now sid payload md = Some m -> msg_message_id m <> [] ->
  message_small m (serialize_edge_data_message_json m) -> rget (seen_key m) db = None ->
  let write := write_edge_data world_api cfg produce now sid payload md in
  let out := serialize_edge_data_message_json m in
  (write (op, mkWorld db [] [])).1 = (produce (msg_mac_hex m) out, [(msg_mac_hex m, out)]) /\
  exists db', write (op, mkWorld db [] [LostReply]) = ((true, []), (true, mkWorld db' [] [])) /\
    forall k, k <> seen_key m -> rget k db' = rget k db.
Proof.
  intros Hen Hp Hmake Hid Hs Hv write out. unfold write, write_edge_data. rewrite Hp, Hmake. split.
  - destruct (record_reliable cfg m out op db Hen Hs Hid) as (db' & E & _). fold out.
    rewrite (bind_step _ _ _ _ _ E), Hv. done.
  - destruct (record_lost_reply cfg m out op db Hen Hs Hid Hv) as (db' & E & Hdb). fold out.
    exists db'. rewrite (bind_step _ _ _ _ _ E). done.
Qed.

(** A failed device update makes the redelivered message a duplicate: when the
    id was marked as seen but the connection is lost for both attempts of the next
    command, [record_edge_message] fails; handling the same message again then
    reports a duplicate, and the device keys are still not written. *)
Theorem redis_failed_update_duplicate cfg m serialized op db :
  redis_enabled cfg = true -> message_small m serialized -> msg_message_id m <> [] ->
  rget (seen_key m) db = None ->
  exists s1 s2,
    record_edge_message world_api cfg m serialized (op, mkWorld db [] [Fine; LostRequest; LostRequest]) =
      ((false, false), s1) /\
    record_edge_message world_api cfg m serialized s1 = ((true, true), s2) /\
    forall k, k <> seen_key m -> rget k (w_db s2.2) = rget k db.
Proof.
  intros Hen Hs Hid Hv. destruct (keys_small m serialized Hs) as (Hk & Hk1 & _).
  set (cmd := set_command_args (state_key m) (str "online") (device_state_ttl_seconds cfg)).
  assert (forall rest, resp_command (command cmd ++ rest) = Some (cmd, rest)) as Hparse
    by (intros; apply set_args_parse; done).
  destruct (serve_set_nx (seen_key m) (str "1") (seen_ttl_seconds cfg) db) as [_ H0].
  rewrite Hv in H0. set (db0 := (serve (set_nx_command_args _ _ _) db).2) in H0.
  pose proof (execute_retry cfg Hen cmd true db0 LostRequest [LostRequest] Hparse ltac:(done)) as Hex.
  rewrite bool_decide_false in Hex by done.
  rewrite (attempt_lost cfg Hen cmd false db0 LostRequest [] Hparse ltac:(done)) in Hex.
  rewrite bool_decide_false in Hex by done.
  assert (rget (seen_key m) db0 = Some (str "1")) as Hseen
    by (rewrite H0, bool_decide_true by done; done).
  destruct (record_seen cfg Hen m serialized Hs Hid false db0 [] _ Hseen) as (db' & E & Hdb); [done|].
  exists (false, mkWorld db0 [] []), (true, mkWorld db' [] []). split_and!.
  - rewrite (record_unfold cfg Hen m serialized Hid).
    rewrite (bind_step _ _ _ _ _ (execute_set_nx cfg Hen _ (str "1") _ op db
      [Fine; LostRequest; LostRequest] Hk ltac:(done) ltac:(done))), Hv. cbn [reply_nil reply_ok].
    fold db0. unfold write_device. rewrite (bind_step _ _ _ _ _ Hex). done.
  - exact E.
  - intros k Hne. cbn. rewrite Hdb, H0, bool_decide_false by done. done.
Qed.
End world.

(** ** Concrete runs *)
Module RedisDemo.

(** A server over a finite map; only the shape of the command matters. *)
Definition toy_set (k v : bytes) (db : gmap bytes bytes) : bytes * gmap bytes bytes :=
  (str "+OK" ++ crlf, <[k := v]> db).
Definition toy_set_nx (k v : bytes) (db : gmap bytes bytes) : bytes * gmap bytes bytes :=
  match db !! k with
  | None => toy_set k v db
  | Some _ => (str "$-1" ++ crlf, db)
  end.
Definition toy_serve (args : list bytes) (db : gmap bytes bytes) : bytes * gmap bytes bytes :=
  match args with
  | [_; k; v] | [_; k; v; _; _] => toy_set k v db
  | [_; k; v; _] | [_; k; v; _; _; _] => toy_set_nx k v db
  | _ => (str "-ERR" ++ crlf, db)
  end.

Lemma toy_set_get k v db k' :
  (toy_set k v db).2 !! k' = if bool_decide (k' = k) then Some v else db !! k'.
Proof.
  cbn. case_bool_decide as E; [subst; apply lookup_insert_eq|]. apply lookup_insert_ne. congruence.
Qed.

#[local] Instance toy_redis : RedisServer.
Proof.
  refine {| rdb := gmap bytes bytes; rget := fun k db => db !! k; serve := toy_serve |}.
  - intros key value ttl db. unfold set_command_args. destruct (ttl =? 0);
      (split; [done|]); intros k; apply toy_set_get.
  - intros key value ttl db. unfold set_nx_command_args.
    destruct (ttl =? 0); cbn [toy_serve]; unfold toy_set_nx; destruct (db !! key);
      (split; [done|]); intros k; [done|apply toy_set_get|done|apply toy_set_get].
Defined.

#[local] Instance demo_json : JsonApi := JsonToy.json_toy.

Definition demo_cfg : RedisStateCacheConfig :=
  {| redis_endpoint := {| host := str "127.0.0.1"; port := 6379 |};
     device_state_ttl_seconds := 60; device_latest_ttl_seconds := 0; seen_ttl_seconds := 600 |}.
Definition demo_payload : ByteView := view_of (edge_wire [x01; x02; x03; x04; x05; x06] 99 (str "hi")).
Definition demo_metadata : BroadcastMetadata :=
  {| valid := true; ttl := 0; origin := from_uint32 1; message_id := from_uint32 2 |}.
Definition demo_message : EdgeDataMessage :=
  match make_edge_data_message 1 7 demo_payload demo_metadata with
  | Some m => m
  | None => mkEdgeMessage [] [] 0 0 [] 0 [] [] 0
  end.

Lemma demo_small : message_small demo_message (serialize_edge_data_message_json demo_message).
Proof. vm_compute. repeat split; reflexivity. Qed.

Lemma redis_dedup_witness : exists db',
  record_edge_message world_api demo_cfg demo_message (str "x") (false, mkWorld ∅ [] []) =
    ((true, false), (true, mkWorld db' [] [])).
Proof.
  destruct (redis_dedup demo_cfg demo_message (str "x") false ∅) as (db' & E & _).
  - reflexivity.
  - vm_compute. repeat split; reflexivity.
  - vm_compute. discriminate.
  - exists db'. exact E.
Defined.

Lemma edge_data_lost_on_broken_reply_witness :
  (write_edge_data world_api demo_cfg (fun _ _ => true) 1 7 demo_payload demo_metadata
     (false, mkWorld ∅ [] [LostReply])).1 = (true, []).
Proof.
  destruct (edge_data_lost_on_broken_reply demo_cfg (fun _ _ => true) 1 7 demo_payload demo_metadata
    demo_message false ∅) as (_ & db' & E & _).
  - reflexivity.
  - reflexivity.
  - vm_compute. reflexivity.
  - vm_compute. discriminate.
  - apply demo_small.
  - reflexivity.
  - rewrite E. reflexivity.
Defined.

Lemma redis_failed_update_duplicate_witness : exists s1 s2,
  record_edge_message world_api demo_cfg demo_message (str "x")
    (false, mkWorld ∅ [] [Fine; LostRequest; LostRequest]) = ((false, false), s1) /\
  record_edge_message world_api demo_cfg demo_message (str "x") s1 = ((true, true), s2).
Proof.
  destruct (redis_failed_update_duplicate demo_cfg demo_message (str "x") false ∅)
    as (s1 & s2 & E1 & E2 & _).
  - reflexivity.
  - vm_compute. repeat split; reflexivity.
  - vm_compute. discriminate.
  - reflexivity.
  - exists s1, s2. split; [exact E1 | exact E2].
Defined.
End RedisDemo.
