(* ===== verification/Egress.v ===== *)
(** The TCP egress: iota_proxy/src/network/TcpEgress.cpp.

    Streams are shared objects: the table maps a stream id to an object, and the
    object ([fd], [open]) is also held by its reader thread and by senders.  The
    methods run on several threads, so each method is cut into the parts that are
    atomic (a locked section, an atomic exchange, a system call); the methods compose
    the parts, and executions of the program interleave parts of different threads. *)
From S2P Require Import Prelude Frames Identity Ingress.

(** ** State *)

Record TcpEgressConfig := mkEgressConfig {
  egress_target : Ipv4Endpoint;
  egress_max_streams : Z;
}.

(** [struct Stream] *)
Record Stream := mkStream { so_id : Z; so_fd : Z; so_open : bool }.

Record TcpEgress := mkEgress {
  egress_config : TcpEgressConfig;
  egress_stopping : bool;
  egress_streams : gmap Z nat;
  egress_objects : gmap nat Stream;
  egress_next : nat;
}.

(** System calls and events, with the object they concern. *)
Inductive EgressAction : Type :=
  | WriteAll (h : nat) (fd : Z) (data : bytes)
  | ShutdownWrite (h : nat) (fd : Z)
  | CloseFd (h : nat) (fd : Z)
  | CloseRefused (fd : Z)
  | EgressEmit (e : TcpEvent).

Definition egress_init (cfg : TcpEgressConfig) : TcpEgress :=
  {| egress_config := cfg; egress_stopping := false; egress_streams := ∅;
     egress_objects := ∅; egress_next := 0 |}.

Definition with_streams (m : gmap Z nat) (e : TcpEgress) : TcpEgress :=
  {| egress_config := egress_config e; egress_stopping := egress_stopping e;
     egress_streams := m; egress_objects := egress_objects e; egress_next := egress_next e |}.
Definition with_objects (m : gmap nat Stream) (e : TcpEgress) : TcpEgress :=
  {| egress_config := egress_config e; egress_stopping := egress_stopping e;
     egress_streams := egress_streams e; egress_objects := m; egress_next := egress_next e |}.

Definition is_open (h : nat) (e : TcpEgress) : bool :=
  match egress_objects e !! h with
  | Some s => so_open s
  | None => false
  end.

(** ** Atomic parts *)

(** [remove_stream]: a locked section. *)
Definition remove_stream (sid : Z) (e : TcpEgress) : option nat * TcpEgress :=
  match egress_streams e !! sid with
  | None => (None, e)
  | Some h => (Some h, with_streams (delete sid (egress_streams e)) e)
  end.

(** [stream->open.exchange(false)]: whether it was open. *)
Definition exchange_open (h : nat) (e : TcpEgress) : bool * TcpEgress :=
  match egress_objects e !! h with
  | None => (false, e)
  | Some s =>
      (so_open s,
       with_objects (<[h := {| so_id := so_id s; so_fd := so_fd s; so_open := false |}]>
                       (egress_objects e)) e)
  end.

Definition object_fd (h : nat) (e : TcpEgress) : Z :=
  match egress_objects e !! h with
  | Some s => so_fd s
  | None => -1
  end.

(** [close_fd]: the thread that wins the exchange shuts the socket down and closes it.  (The exchange and
    the close are two parts when threads interleave.) *)
Definition close_fd (oh : option nat) (e : TcpEgress) : list EgressAction * TcpEgress :=
  match oh with
  | None => ([], e)
  | Some h =>
      let '(was_open, e) := exchange_open h e in
      (if was_open then [CloseFd h (object_fd h e)] else [], e)
  end.

(** The tests at the beginning of [open_stream]. *)
Definition open_check (sid : Z) (e : TcpEgress) : bool :=
  negb ((sid =? 0) || str_empty (host (egress_target (egress_config e))) ||
        (port (egress_target (egress_config e)) =? 0) || egress_stopping e) &&
  negb (bool_decide (is_Some (egress_streams e !! sid)) ||
        (egress_max_streams (egress_config e) <=? Z.of_nat (size (egress_streams e)))).

(** How the locked section at the end of [open_stream] ends: refused, with a reader thread, or with
    the exception of a thread that cannot be created. *)
Inductive CommitResult := Refused | Added | Threw (h : nat).

(** The locked section, with the connected socket; [thread_ok] says whether the reader thread can be
    created. *)
Definition open_commit (thread_ok : bool) (sid fd : Z) (e : TcpEgress) : CommitResult * list EgressAction * TcpEgress :=
  if egress_stopping e || bool_decide (is_Some (egress_streams e !! sid)) ||
     (egress_max_streams (egress_config e) <=? Z.of_nat (size (egress_streams e)))
  then (Refused, [CloseRefused fd], e)
  else
    (if thread_ok then Added else Threw (egress_next e), [],
     {| egress_config := egress_config e; egress_stopping := egress_stopping e;
        egress_streams := <[sid := egress_next e]> (egress_streams e);
        egress_objects := <[egress_next e := {| so_id := sid; so_fd := fd; so_open := true |}]>
                            (egress_objects e);
        egress_next := S (egress_next e) |}).

(** The lookup of [send_to_stream] up to its first test of [open]. *)
Definition send_find (sid : Z) (payload : ByteView) (e : TcpEgress) : option nat :=
  if (sid =? 0) || view_empty payload || egress_stopping e then None
  else
    match egress_streams e !! sid with
    | None => None
    | Some h => if is_open h e then Some h else None
    end.

(** ** Methods *)

(** [open_stream]; [connected] is the result of [connect_tcp].  [None] is the exception, after the
    handler has taken the stream out of the table and closed the socket. *)
Definition open_stream (thread_ok : bool) (connected : option Z) (sid : Z) (e : TcpEgress)
    : option bool * list EgressAction * TcpEgress :=
  if negb (open_check sid e) then (Some false, [], e)
  else
    match connected with
    | None => (Some false, [], e)
    | Some fd =>
        match open_commit thread_ok sid fd e with
        | (Refused, a, e) => (Some false, a, e)
        | (Added, a, e) => (Some true, a, e)
        | (Threw h, a, e) => (None, a ++ [CloseFd h fd], (remove_stream sid e).2)
        end
    end.

Definition close_stream (sid : Z) (e : TcpEgress) : list EgressAction * TcpEgress :=
  let '(h, e) := remove_stream sid e in close_fd h e.

(** [send_to_stream]; [write_ok] is the result of [write_all]. *)
Definition egress_send_to_stream (write_ok : bool) (sid : Z) (payload : ByteView) (e : TcpEgress)
    : bool * list EgressAction * TcpEgress :=
  match send_find sid payload e with
  | None => (false, [], e)
  | Some h =>
      if negb (is_open h e) then (false, [], e)
      else
        let w := WriteAll h (object_fd h e) (view_bytes payload) in
        if negb write_ok then
          let '(a, e) := close_stream sid e in (false, w :: a, e)
        else (true, [w], e)
  end.

Definition egress_shutdown_stream_write (sid : Z) (e : TcpEgress) : list EgressAction :=
  if sid =? 0 then []
  else
    match egress_streams e !! sid with
    | None => []
    | Some h => if is_open h e then [ShutdownWrite h (object_fd h e)] else []
    end.

(** The loop of [stop] over the streams taken out of the table. *)
Fixpoint close_all (hs : list nat) (e : TcpEgress) : list EgressAction * TcpEgress :=
  match hs with
  | [] => ([], e)
  | h :: hs =>
      let '(a, e) := close_fd (Some h) e in
      let '(b, e) := close_all hs e in
      (a ++ b, e)
  end.

Section stop.
Context {stream_order : IterOrder Z nat}.

Definition egress_stop (e : TcpEgress) : list EgressAction * TcpEgress :=
  if egress_stopping e then ([], e)
  else
    let e := {| egress_config := egress_config e; egress_stopping := true;
                egress_streams := egress_streams e; egress_objects := egress_objects e;
                egress_next := egress_next e |} in
    let streams := (iter_map (egress_streams e)).*2 in
    close_all streams (with_streams ∅ e).
End stop.

(** The reader thread of object [h]: one chunk received, ... *)
Definition read_chunk (h : nat) (data : bytes) (e : TcpEgress) : list EgressAction :=
  if negb (egress_stopping e) && is_open h e then
    match egress_objects e !! h with
    | Some s => [EgressEmit {| event_type := TcpEventType.Data; event_source := TcpEventSource.Egress;
                               event_stream_id := so_id s; event_payload := view_of data |}]
    | None => []
    end
  else [].

(** ... and what it does once its loop ends. *)
Definition read_end (h : nat) (e : TcpEgress) : list EgressAction * TcpEgress :=
  let '(was_open, e) := exchange_open h e in
  let should_notify := was_open && negb (egress_stopping e) in
  match egress_objects e !! h with
  | None => ([], e)
  | Some s =>
      let e := (remove_stream (so_id s) e).2 in
      ((if was_open then [CloseFd h (so_fd s)] else []) ++
       (if should_notify
        then [EgressEmit {| event_type := TcpEventType.Closed; event_source := TcpEventSource.Egress;
                            event_stream_id := so_id s; event_payload := ByteView_default |}]
        else []), e)
  end.
