(* ===== verification/EgressProofs.v ===== *)
(** Properties of the TCP egress (Egress.v) under every interleaving of its threads:
    sockets are closed exactly once, the table respects its bound; and two races of
    the code. *)
From S2P Require Import Prelude Frames Identity Ingress Egress.

(** ** Executions *)

(** The egress with what its threads are about to do: those that won the exchange of [open] have to
    close the socket, and those whose reader thread could not be created have to take the stream out
    of the table and then to close the socket. *)
Record Threads := mkThreads {
  th_egress : TcpEgress;
  th_closing : list nat;
  th_threw : list (Z * nat);
  th_caught : list nat;
}.

(** The atomic parts of the methods, as one thread or another executes them. *)
Inductive part : Type :=
  | RemovePart (sid : Z)
  | ExchangePart (h : nat)
  | ClosePart (h : nat)
  | CommitPart (thread_ok : bool) (sid fd : Z)
  | CatchRemovePart (sid : Z) (h : nat)
  | CatchClosePart (h : nat)
  | WritePart (h : nat) (data : bytes)
  | ShutdownPart (sid : Z)
  | StopPart
  | StopTakePart
  | ChunkPart (h : nat) (data : bytes).

Definition stop_flag (e : TcpEgress) : TcpEgress :=
  {| egress_config := egress_config e; egress_stopping := true; egress_streams := egress_streams e;
     egress_objects := egress_objects e; egress_next := egress_next e |}.

Definition on_egress (e : TcpEgress) (r : Threads) : Threads := mkThreads e (th_closing r) (th_threw r) (th_caught r).

(** Take one occurrence out of a list. *)
Fixpoint remove_one {A} `{EqDecision A} (x : A) (l : list A) : list A :=
  match l with
  | [] => []
  | y :: l => if decide (x = y) then l else y :: remove_one x l
  end.

(** A part that no thread is about to do has no effect. *)
Definition part_step (p : part) (r : Threads) : list EgressAction * Threads :=
  let e := th_egress r in
  match p with
  | RemovePart sid => ([], on_egress (remove_stream sid e).2 r)
  | ExchangePart h =>
      let '(was_open, e) := exchange_open h e in
      ([], mkThreads e (if was_open then h :: th_closing r else th_closing r) (th_threw r) (th_caught r))
  | ClosePart h =>
      if decide (h ∈ th_closing r)
      then ([CloseFd h (object_fd h e)], mkThreads e (remove_one h (th_closing r)) (th_threw r) (th_caught r))
      else ([], r)
  | CommitPart thread_ok sid fd =>
      let '(res, a, e) := open_commit thread_ok sid fd e in
      (a, mkThreads e (th_closing r) (match res with Threw h => (sid, h) :: th_threw r | _ => th_threw r end) (th_caught r))
  | CatchRemovePart sid h =>
      if decide ((sid, h) ∈ th_threw r)
      then ([], mkThreads (remove_stream sid e).2 (th_closing r) (remove_one (sid, h) (th_threw r)) (h :: th_caught r))
      else ([], r)
  | CatchClosePart h =>
      if decide (h ∈ th_caught r)
      then ([CloseFd h (object_fd h e)], mkThreads e (th_closing r) (th_threw r) (remove_one h (th_caught r)))
      else ([], r)
  | WritePart h data => ([WriteAll h (object_fd h e) data], r)
  | ShutdownPart sid => (egress_shutdown_stream_write sid e, r)
  | StopPart => ([], on_egress (stop_flag e) r)
  | StopTakePart => ([], on_egress (with_streams ∅ e) r)
  | ChunkPart h data => (read_chunk h data e, r)
  end.

Fixpoint run_parts (ps : list part) (r : Threads) : list EgressAction * Threads :=
  match ps with
  | [] => ([], r)
  | p :: ps =>
      let '(a, r) := part_step p r in
      let '(b, r) := run_parts ps r in
      (a ++ b, r)
  end.

Definition threads_init (cfg : TcpEgressConfig) : Threads := mkThreads (egress_init cfg) [] [] [].

(** How often an object's socket was closed, and how often an object is in a list. *)
Definition is_close (h : nat) (a : EgressAction) : bool :=
  match a with
  | CloseFd h' _ => bool_decide (h' = h)
  | _ => false
  end.

Definition closes (h : nat) (tr : list EgressAction) : nat :=
  length (filter (fun a => is_close h a = true) tr).

Definition times (h : nat) (l : list nat) : nat := length (filter (h =.) l).

(** The streams whose reader thread could not be created in a run. *)
Definition failed (p : part) (r : Threads) : list nat :=
  match p with
  | CommitPart thread_ok sid fd => match (open_commit thread_ok sid fd (th_egress r)).1.1 with Threw h => [h] | _ => [] end
  | _ => []
  end.

Fixpoint all_failed (ps : list part) (r : Threads) : list nat :=
  match ps with
  | [] => []
  | p :: ps => failed p r ++ all_failed ps (part_step p r).2
  end.

Lemma closes_app h a b : closes h (a ++ b) = (closes h a + closes h b)%nat.
Proof. unfold closes. rewrite filter_app, length_app. done. Qed.

Lemma closes_one h h' fd : closes h [CloseFd h' fd] = times h [h'].
Proof.
  unfold closes, times. rewrite !filter_cons. cbn [is_close].
  destruct (decide (h = h')) as [->|Hne]; [rewrite bool_decide_true by done|rewrite bool_decide_false by done]; done.
Qed.

Lemma times_one h x : times h [x] = if decide (h = x) then 1%nat else 0%nat.
Proof. unfold times. rewrite filter_cons. by destruct (decide (h = x)). Qed.

Lemma times_cons h x l : times h (x :: l) = (times h [x] + times h l)%nat.
Proof. unfold times. rewrite !filter_cons. by destruct (decide (h = x)). Qed.

Lemma times_app h a b : times h (a ++ b) = (times h a + times h b)%nat.
Proof. unfold times. by rewrite filter_app, length_app. Qed.

Lemma remove_one_perm {A} `{EqDecision A} (x : A) l : x ∈ l -> l ≡ₚ x :: remove_one x l.
Proof.
  induction l as [|y l IH]; [by intros ?%not_elem_of_nil|]. intros Hx. cbn. destruct (decide (x = y)) as [->|Hne]; [done|].
  apply elem_of_cons in Hx as [?|Hx]; [done|]. rewrite (IH Hx) at 1. apply Permutation_swap.
Qed.

#[local] Instance times_perm h : Proper ((≡ₚ) ==> (=)) (times h).
Proof. intros a b Hab. unfold times. by rewrite Hab. Qed.

Lemma times_remove_one h x l : x ∈ l -> times h l = (times h [x] + times h (remove_one x l))%nat.
Proof. intros Hx. rewrite (remove_one_perm x l Hx) at 1. apply times_cons. Qed.

(** The table and the objects. *)
Record egress_inv (cfg : TcpEgressConfig) (e : TcpEgress) : Prop := {
  ei_cfg : egress_config e = cfg;
  ei_dom : forall h, is_Some (egress_objects e !! h) <-> (h < egress_next e)%nat;
  ei_table : forall sid h, egress_streams e !! sid = Some h ->
    exists s, egress_objects e !! h = Some s /\ so_id s = sid;
  ei_size : Z.of_nat (size (egress_streams e)) <= egress_max_streams cfg;
}.

(** The [open] flag of a stream has been cleared. *)
Definition cleared (h : nat) (e : TcpEgress) : nat := Nat.b2n (bool_decide (h < egress_next e)%nat && negb (is_open h e)).

(** Who has closed or will close the socket of [h], when the threads of [fails] could not be created. *)
Definition close_count (h : nat) (tr : list EgressAction) (fails : list nat) (r : Threads) : Prop :=
  (closes h tr + times h (th_closing r) + times h (th_threw r).*2 + times h (th_caught r) = cleared h (th_egress r) + times h fails)%nat.

Section inv.
Context (cfg : TcpEgressConfig).

Lemma inv_shrink e m : egress_inv cfg e -> m ⊆ egress_streams e -> egress_inv cfg (with_streams m e).
Proof.
  intros [Hc Hd Ht Hs] Hm. split; cbn; try done.
  - intros sid h Hl. apply Ht. eapply lookup_weaken; done.
  - apply map_subseteq_size in Hm. lia.
Qed.

Lemma inv_remove e sid : egress_inv cfg e -> egress_inv cfg (remove_stream sid e).2.
Proof.
  intros Hinv. unfold remove_stream. destruct (egress_streams e !! sid); [|done]. apply inv_shrink; [done|apply delete_subseteq].
Qed.

Lemma cleared_remove e sid h : cleared h (remove_stream sid e).2 = cleared h e.
Proof. unfold remove_stream. by destruct (egress_streams e !! sid). Qed.

(** The exchange: the flag is cleared, by the thread that found it set. *)
Lemma inv_exchange e h :
  egress_inv cfg e ->
  let '(was_open, e') := exchange_open h e in
  egress_inv cfg e' /\ forall h', cleared h' e' = (cleared h' e + if was_open then times h' [h] else 0)%nat.
Proof.
  intros [Hc Hd Ht Hs]. unfold exchange_open. destruct (egress_objects e !! h) as [s|] eqn:Es; [|split; [done|intros; lia]].
  assert (h < egress_next e)%nat as Hlt by (apply Hd; eauto). split; [split; cbn; try done|].
  - intros h'. rewrite <- Hd, lookup_insert_is_Some. destruct (decide (h = h')) as [<-|Hne]; [rewrite Es; split; eauto|].
    split; [intros [?|[_ ?]]; done|auto].
  - intros sid h' Hl. destruct (Ht sid h' Hl) as (s' & Hs' & Hid). destruct (decide (h = h')) as [<-|Hne].
    + rewrite lookup_insert_eq. eexists. split; [done|]. cbn. congruence.
    + rewrite lookup_insert_ne by done. eauto.
  - intros h'. rewrite times_one. unfold cleared, is_open. cbn. destruct (decide (h' = h)) as [->|Hne].
    + rewrite lookup_insert_eq, Es, bool_decide_true by done. by destruct (so_open s).
    + rewrite lookup_insert_ne by done. destruct (so_open s); cbn; lia.
Qed.

Lemma inv_commit e ok sid fd :
  egress_inv cfg e ->
  let '(res, a, e') := open_commit ok sid fd e in
  egress_inv cfg e' /\ (forall h, closes h a = 0%nat) /\ (forall h, cleared h e' = cleared h e).
Proof.
  intros [Hc Hd Ht Hs]. unfold open_commit. destruct (_ || _) eqn:E; [done|]. bool_norm.
  assert (egress_objects e !! egress_next e = None) as Hfresh by (apply eq_None_not_Some; rewrite Hd; lia).
  split; [split; cbn; try done|split; [done|]].
  - intros h. rewrite lookup_insert_is_Some, Hd. lia.
  - intros sid' h. rewrite lookup_insert_Some. intros [[<- <-]|[Hne Hl]].
    + rewrite lookup_insert_eq. eauto.
    + destruct (Ht sid' h Hl) as (s & Hs' & Hid). exists s. rewrite lookup_insert_ne; [done|congruence].
  - assert (egress_streams e !! sid = None) as Hn by (apply eq_None_not_Some; done).
    rewrite map_size_insert_None by done. rewrite Hc in *. lia.
  - intros h. unfold cleared, is_open. cbn. destruct (decide (egress_next e = h)) as [<-|Hne].
    + rewrite lookup_insert_eq, andb_false_r, bool_decide_false by lia. done.
    + rewrite lookup_insert_ne by done. do 2 f_equal. apply bool_decide_ext. lia.
Qed.

Lemma inv_part p r tr fails :
  0 <= egress_max_streams cfg -> egress_inv cfg (th_egress r) -> (forall h, close_count h tr fails r) ->
  let '(a, r') := part_step p r in
  egress_inv cfg (th_egress r') /\ forall h, close_count h (tr ++ a) (fails ++ failed p r) r'.
Proof.
  unfold close_count. intros Hmax Hinv Hcl.
  assert (Hquiet : forall a, (forall h, closes h a = 0%nat) ->
    forall h, (closes h (tr ++ a) = closes h tr)%nat) by (intros a Ha h; rewrite closes_app, Ha; lia).
  destruct p as [sid|h|h|ok sid fd|sid h|h|h data|sid| | |h data]; cbn [part_step failed]; rewrite ?app_nil_r.
  - split; [by apply inv_remove|]. intros h. cbn [th_egress th_closing th_threw th_caught on_egress]. rewrite cleared_remove. apply Hcl.
  - pose proof (inv_exchange (th_egress r) h Hinv) as Hx. destruct (exchange_open h (th_egress r)) as [was_open e'].
    destruct Hx as [Hi Hc']. rewrite app_nil_r. split; [done|]. intros h'. cbn [th_egress th_closing th_threw th_caught]. rewrite Hc'. specialize (Hcl h').
    destruct was_open; [rewrite times_cons|]; lia.
  - case_decide as Hin; [|by rewrite app_nil_r]. split; [done|]. intros h'. cbn [th_egress th_closing th_threw th_caught]. rewrite closes_app, closes_one.
    specialize (Hcl h'). rewrite (times_remove_one h' h) in Hcl by done. lia.
  - pose proof (inv_commit (th_egress r) ok sid fd Hinv) as Hx. destruct (open_commit ok sid fd (th_egress r)) as [[res a] e'].
    destruct Hx as (Hi & Ha & Hc'). split; [done|]. intros h. cbn [th_egress th_closing th_threw th_caught fst].
    rewrite Hquiet, Hc', times_app by done. specialize (Hcl h). destruct res as [| |h']; [cbn; lia..|]. cbn [fmap list_fmap snd].
    rewrite times_cons. lia.
  - case_decide as Hin; [|by rewrite app_nil_r]. rewrite app_nil_r. split; [by apply inv_remove|]. intros h'.
    cbn [th_egress th_closing th_threw th_caught]. rewrite cleared_remove, times_cons. specialize (Hcl h').
    rewrite (remove_one_perm (sid, h) _ Hin) in Hcl. cbn [fmap list_fmap snd] in Hcl. rewrite times_cons in Hcl. lia.
  - case_decide as Hin; [|by rewrite app_nil_r]. split; [done|]. intros h'. cbn [th_egress th_closing th_threw th_caught]. rewrite closes_app, closes_one.
    specialize (Hcl h'). rewrite (times_remove_one h' h (th_caught r)) in Hcl by done. lia.
  - split; [done|]. intros h'. rewrite Hquiet by done. apply Hcl.
  - split; [done|]. intros h'. rewrite Hquiet; [apply Hcl|]. intros h. unfold egress_shutdown_stream_write. repeat case_match; done.
  - destruct Hinv. by split.
  - split; [|done]. apply inv_shrink; [done|apply map_empty_subseteq].
  - split; [done|]. intros h'. rewrite Hquiet; [apply Hcl|]. intros h0. unfold read_chunk. repeat case_match; done.
Qed.

Lemma inv_run ps : forall r tr fails,
  0 <= egress_max_streams cfg -> egress_inv cfg (th_egress r) -> (forall h, close_count h tr fails r) ->
  let '(a, r') := run_parts ps r in
  egress_inv cfg (th_egress r') /\ forall h, close_count h (tr ++ a) (fails ++ all_failed ps r) r'.
Proof.
  induction ps as [|p ps IH]; intros r tr fails Hmax Hinv Hcl; cbn [run_parts all_failed]; [by rewrite !app_nil_r|].
  pose proof (inv_part p r tr fails Hmax Hinv Hcl) as Hp. destruct (part_step p r) as [a r1]. destruct Hp as [Hi Hc]. cbn [snd].
  pose proof (IH r1 _ _ Hmax Hi Hc) as Hr. destruct (run_parts ps r1) as [b r2]. by rewrite <- !app_assoc in Hr.
Qed.
End inv.

(** [C29] Under every interleaving of the threads of the egress, where the exchange of the [open] flag and
    the closing of the socket are separate steps and creating a reader thread can fail: a socket
    has been closed, or is about to be closed, once if its [open] flag has been cleared, and once
    more if its reader thread could not be created, by the handler of that exception; so the
    socket of a stream that has a reader thread is closed exactly once, by the thread that cleared
    the flag, and never before.  The stream table never exceeds [max_streams], and every entry
    refers to an object with the same stream id. *)
Theorem egress_close_once cfg ps :
  0 <= egress_max_streams cfg ->
  let '(tr, r) := run_parts ps (threads_init cfg) in
  let e := th_egress r in
  (forall h, closes h tr + times h (th_closing r) + times h (th_threw r).*2 + times h (th_caught r)
             = cleared h e + times h (all_failed ps (threads_init cfg)))%nat /\
  Z.of_nat (size (egress_streams e)) <= egress_max_streams cfg /\
  (forall sid h, egress_streams e !! sid = Some h ->
     exists s, egress_objects e !! h = Some s /\ so_id s = sid).
Proof.
  intros Hmax. assert (egress_inv cfg (egress_init cfg)) as H0.
  { split; cbn; try done. intros h. split; [intros [? ?]; done|lia]. }
  pose proof (inv_run cfg ps (threads_init cfg) [] [] Hmax H0) as Hrun. destruct (run_parts ps (threads_init cfg)) as [tr r].
  destruct Hrun as [[Hc Hd Ht Hs] Hcl]; [done|]. split_and!; [exact Hcl|done|done].
Qed.

(** ** The methods as sequences of parts *)

Lemma close_stream_parts sid e :
  let '(a, e') := close_stream sid e in
  run_parts (match egress_streams e !! sid with
             | None => []
             | Some h => [RemovePart sid; ExchangePart h; ClosePart h]
             end) (mkThreads e [] [] []) = (a, mkThreads e' [] [] []).
Proof.
  unfold close_stream, remove_stream. destruct (egress_streams e !! sid) as [h|] eqn:E; [|done].
  cbn [run_parts part_step th_egress]. unfold remove_stream. rewrite E. cbn [snd on_egress th_egress th_closing th_threw th_caught close_fd].
  destruct (exchange_open h _) as [was_open e'].
  destruct was_open; cbn [app th_closing]; [rewrite decide_True by set_solver; cbn; by rewrite decide_True|].
  by rewrite decide_False by set_solver.
Qed.

(** [open_stream] with the handler of the exception. *)
Lemma open_stream_parts ok fd sid e :
  open_check sid e = true ->
  let '(res, a, e') := open_stream ok (Some fd) sid e in
  run_parts (CommitPart ok sid fd ::
             match (open_commit ok sid fd e).1.1 with Threw h => [CatchRemovePart sid h; CatchClosePart h] | _ => [] end)
    (mkThreads e [] [] []) = (a, mkThreads e' [] [] []).
Proof.
  intros Hc. unfold open_stream. rewrite Hc. cbn [negb run_parts part_step th_egress th_closing th_threw th_caught].
  unfold open_commit. destruct (_ || _); [done|]. destruct ok; [done|]. cbn [fst run_parts part_step th_threw th_caught th_egress th_closing].
  rewrite decide_True by set_solver. cbn [th_caught]. rewrite decide_True by set_solver.
  unfold remove_stream. cbn [egress_streams]. rewrite lookup_insert_eq. cbn. rewrite !decide_True by done.
  unfold object_fd. cbn. by rewrite lookup_insert_eq.
Qed.

(** The part of a reader's end that is not an event. *)
Definition is_syscall (a : EgressAction) : bool :=
  match a with
  | EgressEmit _ => false
  | _ => true
  end.

Lemma read_end_parts h e s :
  egress_objects e !! h = Some s ->
  run_parts [ExchangePart h; RemovePart (so_id s); ClosePart h] (mkThreads e [] [] []) =
    (filter (fun a => is_syscall a = true) (read_end h e).1, mkThreads (read_end h e).2 [] [] []).
Proof.
  intros Hs. unfold read_end. cbn [run_parts part_step th_egress th_closing th_threw th_caught]. unfold exchange_open. rewrite Hs.
  cbn [egress_objects with_objects]. rewrite lookup_insert_eq. cbn [fst snd so_fd so_id].
  assert (Hob : forall sid e, egress_objects (remove_stream sid e).2 = egress_objects e)
    by (intros sid e0; unfold remove_stream; by destruct (egress_streams e0 !! sid)).
  rewrite filter_app. destruct (so_open s); cbn [andb on_egress th_egress th_closing th_threw th_caught].
  - rewrite decide_True by set_solver. unfold object_fd. rewrite Hob. cbn [egress_objects with_objects]. rewrite lookup_insert_eq.
    cbn. rewrite decide_True by done. by destruct (egress_stopping _).
  - rewrite decide_False by set_solver. done.
Qed.

(** ** Races *)

(** A write can hit a closed descriptor: a sender that has passed both tests of
    [open] in [send_to_stream] is not stopped by a [close_stream] of another thread,
    which does not take the write mutex; it closes the socket, and the sender then
    writes to the closed descriptor. *)
Theorem egress_write_after_close e sid payload h :
  send_find sid payload e = Some h -> is_open h e = true ->
  let '(a, e') := close_stream sid e in
  a = [CloseFd h (object_fd h e)] /\ is_open h e' = false /\
  (part_step (WritePart h (view_bytes payload)) (mkThreads e' [] [] [])).1 =
    [WriteAll h (object_fd h e) (view_bytes payload)].
Proof.
  intros Hf Ho. unfold send_find in Hf. case_match; [done|].
  destruct (egress_streams e !! sid) as [h'|] eqn:Es; [|done].
  destruct (is_open h' e) eqn:Eo; [|done]. injection Hf as ->.
  unfold close_stream, remove_stream. rewrite Es. unfold close_fd, exchange_open.
  cbn [egress_objects with_streams]. unfold is_open, object_fd in *.
  destruct (egress_objects e !! h) as [s|] eqn:Eh; [|done]. rewrite Ho.
  cbn [part_step fst snd th_egress]. unfold object_fd.
  cbn [egress_objects with_objects with_streams]. rewrite !lookup_insert_eq. done.
Qed.

(** A reader that ends late takes a reopened stream out of the table: after
    [close_stream] and a successful [open_stream] with the same id, the end of the
    first stream's reader removes the new stream's entry, so the new, still open,
    socket can no longer be reached: sends fail and [close_stream] closes nothing. *)
Theorem egress_reopen_lost cfg e sid h fd' payload :
  egress_inv cfg e -> egress_streams e !! sid = Some h ->
  open_check sid (close_stream sid e).2 = true ->
  let e1 := (close_stream sid e).2 in
  let '(ok, _, e2) := open_stream true (Some fd') sid e1 in
  let e3 := (read_end h e2).2 in
  ok = Some true /\ egress_streams e2 !! sid = Some (egress_next e) /\
  is_open (egress_next e) e3 = true /\
  egress_send_to_stream true sid payload e3 = (false, [], e3) /\ close_stream sid e3 = ([], e3).
Proof.
  intros Hinv Hs Hchk e1. destruct (ei_table cfg e Hinv sid h Hs) as (s & Hobj & Hid).
  assert (h < egress_next e)%nat as Hlt by (apply (ei_dom cfg e Hinv); eauto).
  assert (e1 = with_objects (<[h := {| so_id := so_id s; so_fd := so_fd s; so_open := false |}]>
                               (egress_objects e))
                 (with_streams (delete sid (egress_streams e)) e)) as He1.
  { unfold e1, close_stream, remove_stream. rewrite Hs. cbn. unfold exchange_open. cbn.
    rewrite Hobj. done. }
  unfold open_stream. fold e1 in Hchk. rewrite Hchk. cbn [negb].
  assert (egress_next e1 = egress_next e) as Hn by (rewrite He1; done).
  unfold open_check in Hchk. apply andb_prop in Hchk as [Hc1 Hc2]. bool_norm.
  assert (egress_stopping e1 = false) as Hns by assumption.
  assert ((egress_max_streams (egress_config e1) <=? Z.of_nat (size (egress_streams e1))) = false) as Hsz
    by (apply Z.leb_gt; assumption).
  unfold open_commit. rewrite Hns, Hsz, bool_decide_false by done.
  cbn [orb]. rewrite Hn. set (e2 := mkEgress _ _ _ _ _). set (e3 := (read_end h e2).2).
  assert (egress_objects e2 !! h = Some {| so_id := so_id s; so_fd := so_fd s; so_open := false |}) as Hh.
  { unfold e2. cbn. rewrite lookup_insert_ne by lia. rewrite He1. cbn. apply lookup_insert_eq. }
  assert (egress_streams e3 = delete sid (egress_streams e2) /\
          egress_objects e3 !! egress_next e = Some {| so_id := sid; so_fd := fd'; so_open := true |})
    as [Hst Hob].
  { unfold e3, read_end, exchange_open. rewrite Hh. cbn [egress_objects with_objects].
    rewrite lookup_insert_eq. cbn [so_id snd]. rewrite Hid. unfold remove_stream.
    cbn [egress_streams with_objects e2]. rewrite lookup_insert_eq. cbn. split; [done|].
    rewrite lookup_insert_ne by lia. apply lookup_insert_eq. }
  assert (egress_streams e3 !! sid = None) as Hnone by (rewrite Hst; apply lookup_delete_eq).
  split_and!; [done| | | |].
  - unfold e2. cbn. apply lookup_insert_eq.
  - unfold is_open. rewrite Hob. done.
  - unfold egress_send_to_stream, send_find. rewrite Hnone. destruct ((sid =? 0) || view_empty payload || egress_stopping e3); done.
  - unfold close_stream, remove_stream. rewrite Hnone. done.
Qed.

(** ** Concrete runs *)
Module EgressDemo.
Definition demo_cfg : TcpEgressConfig :=
  {| egress_target := {| host := str "10.0.0.1"; port := 80 |}; egress_max_streams := 4 |}.
(** One open stream, with id 9, on descriptor 5. *)
Definition demo_egress : TcpEgress := (open_stream true (Some 5) 9 (egress_init demo_cfg)).2.

(** Two threads close the stream; one wins the exchange and closes the socket. *)
Definition demo_parts : list part :=
  [CommitPart true 9 5; RemovePart 9; ExchangePart 0; ExchangePart 0; ClosePart 0; ClosePart 0].

Lemma egress_close_once_witness :
  let '(tr, r) := run_parts demo_parts (threads_init demo_cfg) in
  (closes 0 tr + times 0 (th_closing r) + times 0 (th_threw r).*2 + times 0 (th_caught r)
   = cleared 0 (th_egress r) + times 0 (all_failed demo_parts (threads_init demo_cfg)))%nat.
Proof.
  pose proof (egress_close_once demo_cfg demo_parts ltac:(vm_compute; discriminate)) as H.
  destruct (run_parts _ _) as [tr r]. exact (proj1 H 0%nat).
Defined.

Example demo_closed_once : closes 0 (run_parts demo_parts (threads_init demo_cfg)).1 = 1%nat.
Proof. reflexivity. Qed.

(** When the reader thread cannot be created and another thread closes the stream before the
    handler of the exception has taken it out of the table, the socket is closed twice. *)
Example failed_thread_closes_twice :
  closes 0 (run_parts [CommitPart false 9 5; RemovePart 9; ExchangePart 0; ClosePart 0; CatchRemovePart 9 0; CatchClosePart 0]
    (threads_init demo_cfg)).1 = 2%nat.
Proof. reflexivity. Qed.

Lemma egress_write_after_close_witness :
  (close_stream 9 demo_egress).1 = [CloseFd 0 5].
Proof.
  pose proof (egress_write_after_close demo_egress 9 (view_of (str "x")) 0
    ltac:(vm_compute; reflexivity) ltac:(vm_compute; reflexivity)) as H.
  destruct (close_stream 9 demo_egress) as [a e']. exact (proj1 H).
Defined.

Lemma egress_reopen_lost_witness :
  egress_inv demo_cfg demo_egress /\
  close_stream 9 (read_end 0 (open_stream true (Some 6) 9 (close_stream 9 demo_egress).2).2).2
  = ([], (read_end 0 (open_stream true (Some 6) 9 (close_stream 9 demo_egress).2).2).2).
Proof.
  assert (egress_inv demo_cfg demo_egress) as Hinv.
  { assert (egress_inv demo_cfg (egress_init demo_cfg)) as H0.
    { split; cbn; try done. intros h. split; [intros [? ?]; done|lia]. }
    exact (proj1 (inv_commit demo_cfg (egress_init demo_cfg) true 9 5 H0)). }
  split; [exact Hinv|].
  pose proof (egress_reopen_lost demo_cfg demo_egress 9 0 6 (view_of (str "x")) Hinv
    ltac:(vm_compute; reflexivity) ltac:(vm_compute; reflexivity)) as H.
  exact (proj2 (proj2 (proj2 (proj2 H)))).
Defined.
End EgressDemo.
