(* ===== verification/Business.v ===== *)
(** The pass-through business layer: iota_proxy/src/business/PassThroughBusiness.cpp
    and BusinessLayer.hpp.

    The layer only knows the callbacks installed by its owner.  They are modelled as
    functions over the owner's state [S]; an empty [std::function] is [None]. *)
From S2P Require Import Prelude Frames Ingress.

Section business.
Context {S : Type}.

(** The members of [class PassThroughBusiness]. *)
Record PassThroughBusiness := mkBusiness {
  kcp_sender : option (TunnelFrameType.t -> Z -> ByteView -> S -> bool * S);
  tcp_sender : option (Z -> ByteView -> S -> bool * S);
  tcp_write_shutdown : option (Z -> S -> S);
  tcp_shutdown : option (Z -> S -> S);
  tcp_egress_open : option (Z -> S -> bool * S);
  tcp_egress_sender : option (Z -> ByteView -> S -> bool * S);
  tcp_egress_write_shutdown : option (Z -> S -> S);
  tcp_egress_shutdown : option (Z -> S -> S);
  edge_data_sink : option (Z -> ByteView -> BroadcastMetadata -> S -> bool * S);
  replicate_sender : option (Z -> ByteView -> BroadcastMetadata -> S -> Z * S);
  broadcast_metadata_factory : option (S -> BroadcastMetadata * S);
}.

(** Calling a callback that may be absent. *)
Definition call_if (f : option (Z -> S -> S)) (sid : Z) (s : S) : S :=
  match f with
  | Some f => f sid s
  | None => s
  end.

(** [on_tcp_event] *)
Definition business_on_tcp_event (b : PassThroughBusiness) (event : TcpEvent) (s : S) : S :=
  match kcp_sender b with
  | None => s
  | Some kcp =>
      let sid := event_stream_id event in
      if sid =? 0 then s
      else
        match event_type event with
        | TcpEventType.Connected => (kcp TunnelFrameType.Open sid ByteView_default s).2
        | TcpEventType.Data =>
            let ingress := bool_decide (event_source event = TcpEventSource.Ingress) in
            let '(metadata, s) :=
              match broadcast_metadata_factory b with
              | Some factory => if ingress then factory s else (BroadcastMetadata_default, s)
              | None => (BroadcastMetadata_default, s)
              end in
            let s :=
              match edge_data_sink b with
              | Some sink => if ingress then (sink sid (event_payload event) metadata s).2 else s
              | None => s
              end in
            let s :=
              match replicate_sender b with
              | Some rep => if ingress then (rep sid (event_payload event) metadata s).2 else s
              | None => s
              end in
            (kcp TunnelFrameType.Data sid (event_payload event) s).2
        | TcpEventType.Closed => (kcp TunnelFrameType.Finish sid ByteView_default s).2
        end
  end.

(** [kcp_sender_(Close, id, ByteView())], if there is a sender. *)
Definition send_close (b : PassThroughBusiness) (sid : Z) (s : S) : S :=
  match kcp_sender b with
  | Some kcp => (kcp TunnelFrameType.Close sid ByteView_default s).2
  | None => s
  end.

(** [on_kcp_frame] *)
Definition business_on_kcp_frame (b : PassThroughBusiness) (frame : TunnelFrameView) (s : S) : S :=
  let sid := frame_stream_id frame in
  let payload := frame_payload frame in
  if sid =? 0 then s
  else
    match frame_type frame with
    | TunnelFrameType.Open =>
        let '(opened, s) :=
          match tcp_egress_open b with
          | Some open => open sid s
          | None => (false, s)
          end in
        if negb opened then send_close b sid s else s
    | TunnelFrameType.Data =>
        if view_empty payload then s
        else
          let '(taken, s) :=
            match tcp_egress_sender b with
            | Some send => send sid payload s
            | None => (false, s)
            end in
          if taken then s
          else
            match tcp_sender b with
            | Some send =>
                let '(ok, s) := send sid payload s in
                if negb ok then send_close b sid s else s
            | None => s
            end
    | TunnelFrameType.Close => call_if (tcp_shutdown b) sid (call_if (tcp_egress_shutdown b) sid s)
    | TunnelFrameType.Finish =>
        call_if (tcp_write_shutdown b) sid (call_if (tcp_egress_write_shutdown b) sid s)
    | TunnelFrameType.Control => s
    | TunnelFrameType.Replicate =>
        if negb (view_empty payload) then
          match edge_data_sink b with
          | Some sink => (sink sid payload (frame_broadcast frame) s).2
          | None => s
          end
        else s
    | TunnelFrameType.KafkaBroadcast => s
    end.
End business.
Arguments PassThroughBusiness : clear implicits.
