(* ===== verification/Runtime.v ===== *)
(** The runtime that wires the components together: iota_proxy/src/ProxyRuntime.cpp.

    [Runtime] holds the state of the components; the lambdas of the constructor
    become the callbacks [runtime_callbacks] of the business layer.  Everything the
    node does to the outside is logged in order ([RtAction]).  What the environment
    answers during one call (clocks, random bytes, sockets, Redis, Kafka) is the
    record [Env]. *)
From S2P Require Import Prelude KcpConv Frames Identity Double Routes Admission.
From S2P Require Import Tunnel Ingress Egress Json EdgeMessage Redis Business.

Section runtime.
Context {peer_order : IterOrder KcpConv PeerLink} {seen_order : IterOrder bytes Z}.
Context {route_order : IterOrder KcpConv RouteEntry}.
Context (pow : double -> double -> double).
Context `{JsonApi}.
Context {W : Type} (redis_api : NetApi W).

Record Env := mkEnv {
  env_now : Z;
  env_wall : Z;
  env_rand_metadata : option KcpConv;
  env_rand_broadcast : option KcpConv;
  env_mgr_send : Send -> bool;
  env_connected : TcpConnection -> bool;
  env_conn_send : TcpConnection -> bytes -> bool;
  env_connect : option Z;
  env_write_ok : bool;
  env_produce : bytes -> bytes -> bool;
}.

Inductive RtAction : Type :=
  | RtTcp (a : IngressAction)
  | RtEgress (a : EgressAction)
  | RtKcp (s : Send)
  | RtKafka (key value : bytes).

Record Runtime := mkRuntime {
  rt_admission : AdmissionControl;
  rt_tcp : TcpIngress;
  rt_egress : TcpEgress;
  rt_kcp : KcpTunnel;
  rt_routes : RouteManager;
  rt_redis_config : RedisStateCacheConfig;
  rt_redis : bool * W;
  rt_log : list RtAction;
}.

Definition set_admission (a : AdmissionControl) (r : Runtime) : Runtime :=
  {| rt_admission := a; rt_tcp := rt_tcp r; rt_egress := rt_egress r; rt_kcp := rt_kcp r;
     rt_routes := rt_routes r; rt_redis_config := rt_redis_config r; rt_redis := rt_redis r;
     rt_log := rt_log r |}.
Definition set_egress (e : TcpEgress) (r : Runtime) : Runtime :=
  {| rt_admission := rt_admission r; rt_tcp := rt_tcp r; rt_egress := e; rt_kcp := rt_kcp r;
     rt_routes := rt_routes r; rt_redis_config := rt_redis_config r; rt_redis := rt_redis r;
     rt_log := rt_log r |}.
Definition set_kcp (k : KcpTunnel) (r : Runtime) : Runtime :=
  {| rt_admission := rt_admission r; rt_tcp := rt_tcp r; rt_egress := rt_egress r; rt_kcp := k;
     rt_routes := rt_routes r; rt_redis_config := rt_redis_config r; rt_redis := rt_redis r;
     rt_log := rt_log r |}.
Definition set_redis (s : bool * W) (r : Runtime) : Runtime :=
  {| rt_admission := rt_admission r; rt_tcp := rt_tcp r; rt_egress := rt_egress r; rt_kcp := rt_kcp r;
     rt_routes := rt_routes r; rt_redis_config := rt_redis_config r; rt_redis := s;
     rt_log := rt_log r |}.
Definition log (a : list RtAction) (r : Runtime) : Runtime :=
  {| rt_admission := rt_admission r; rt_tcp := rt_tcp r; rt_egress := rt_egress r; rt_kcp := rt_kcp r;
     rt_routes := rt_routes r; rt_redis_config := rt_redis_config r; rt_redis := rt_redis r;
     rt_log := rt_log r ++ a |}.

Context (env : Env).

(** ** The lambdas of the constructor *)

(** [set_kcp_sender]: the default route, or the configured peer. *)
Definition rt_kcp_sender (type : TunnelFrameType.t) (sid : Z) (payload : ByteView) (r : Runtime)
    : bool * Runtime :=
  let '(ok, sends) :=
    match select_default_next_hop pow (env_now env) (rt_routes r) with
    | Some next => send_frame_to (env_mgr_send env) (node_id (next_hop next)) type sid payload (rt_kcp r)
    | None => send_frame (env_mgr_send env) type sid payload (rt_kcp r)
    end in
  (ok, log (RtKcp <$> sends) r).

Definition rt_tcp_sender (sid : Z) (payload : ByteView) (r : Runtime) : bool * Runtime :=
  let '(ok, a) := ingress_send_to_stream (env_connected env) (env_conn_send env) sid payload (rt_tcp r) in
  (ok, log (RtTcp <$> a) r).

Definition rt_tcp_write_shutdown (sid : Z) (r : Runtime) : Runtime :=
  log (RtTcp <$> ingress_shutdown_stream_write sid (rt_tcp r)) r.

Definition rt_tcp_shutdown (sid : Z) (r : Runtime) : Runtime :=
  log (RtTcp <$> ingress_shutdown_stream sid (rt_tcp r)) r.

(** A reader thread can be created: [open_stream] does not throw. *)
Definition rt_egress_open (sid : Z) (r : Runtime) : bool * Runtime :=
  let '(ok, a, e) := open_stream true (env_connect env) sid (rt_egress r) in
  (default false ok, log (RtEgress <$> a) (set_egress e r)).

Definition rt_egress_sender (sid : Z) (payload : ByteView) (r : Runtime) : bool * Runtime :=
  let '(ok, a, e) := egress_send_to_stream (env_write_ok env) sid payload (rt_egress r) in
  (ok, log (RtEgress <$> a) (set_egress e r)).

Definition rt_egress_write_shutdown (sid : Z) (r : Runtime) : Runtime :=
  log (RtEgress <$> egress_shutdown_stream_write sid (rt_egress r)) r.

Definition rt_egress_shutdown (sid : Z) (r : Runtime) : Runtime :=
  let '(a, e) := close_stream sid (rt_egress r) in log (RtEgress <$> a) (set_egress e r).

Definition rt_edge_sink (sid : Z) (payload : ByteView) (metadata : BroadcastMetadata) (r : Runtime)
    : bool * Runtime :=
  let '((ok, out), s) := write_edge_data redis_api (rt_redis_config r) (env_produce env)
                           (env_wall env) sid payload metadata (rt_redis r) in
  (ok, log ((fun kv => RtKafka kv.1 kv.2) <$> out) (set_redis s r)).

(** [kcp_.broadcast_frame(...)] *)
Definition rt_broadcast (type : TunnelFrameType.t) (sid : Z) (payload : ByteView)
    (metadata : option BroadcastMetadata) (r : Runtime) : Z * Runtime :=
  let '(n, sends, k) := broadcast_frame (env_mgr_send env) (env_rand_broadcast env) (env_now env)
                          type sid payload metadata (rt_kcp r) in
  (n, log (RtKcp <$> sends) (set_kcp k r)).

Definition rt_replicate_sender (sid : Z) (payload : ByteView) (metadata : BroadcastMetadata)
    (r : Runtime) : Z * Runtime :=
  rt_broadcast TunnelFrameType.Replicate sid payload (Some metadata) r.

(** [random_message_id] has the body of [make_random_message_id]. *)
Definition rt_metadata_factory (r : Runtime) : BroadcastMetadata * Runtime :=
  let me := identity_id (tunnel_config (rt_kcp r)) in
  (match make_random_message_id (env_rand_metadata env) with
   | Some id => if negb (conv_empty me)
                then {| valid := true; ttl := 0; origin := me; message_id := id |}
                else {| valid := false; ttl := 0; origin := me; message_id := KcpConv_default |}
   | None => {| valid := false; ttl := 0; origin := me; message_id := KcpConv_default |}
   end, r).

Definition runtime_callbacks : PassThroughBusiness Runtime :=
  {| kcp_sender := Some rt_kcp_sender;
     tcp_sender := Some rt_tcp_sender;
     tcp_write_shutdown := Some rt_tcp_write_shutdown;
     tcp_shutdown := Some rt_tcp_shutdown;
     tcp_egress_open := Some rt_egress_open;
     tcp_egress_sender := Some rt_egress_sender;
     tcp_egress_write_shutdown := Some rt_egress_write_shutdown;
     tcp_egress_shutdown := Some rt_egress_shutdown;
     edge_data_sink := Some rt_edge_sink;
     replicate_sender := Some rt_replicate_sender;
     broadcast_metadata_factory := Some rt_metadata_factory |}.

(** ** Events *)

(** [try_accept_ingress_bytes] on the runtime. *)
Definition rt_accept_bytes (n : Z) (r : Runtime) : bool * Runtime :=
  let '(ok, a) := try_accept_ingress_bytes (env_now env) n (rt_admission r) in
  (ok, set_admission a r).

(** [ProxyRuntime::on_tcp_event] *)
Definition rt_on_tcp_event (event : TcpEvent) (r : Runtime) : Runtime :=
  let sid := event_stream_id event in
  let business := business_on_tcp_event runtime_callbacks event in
  match event_source event with
  | TcpEventSource.Ingress =>
      match event_type event with
      | TcpEventType.Connected =>
          let '(ok, a) := try_accept_ingress_stream sid (rt_admission r) in
          let r := set_admission a r in
          if negb ok then rt_tcp_shutdown sid r else business r
      | TcpEventType.Closed =>
          business (set_admission (release_ingress_stream sid (rt_admission r)) r)
      | TcpEventType.Data =>
          let '(ok, r) := rt_accept_bytes (view_size (event_payload event)) r in
          if negb ok then
            rt_tcp_shutdown sid (set_admission (release_ingress_stream sid (rt_admission r)) r)
          else business r
      end
  | TcpEventSource.Egress => business r
  end.

(** [record_kafka_message] on the runtime. *)
Definition rt_record_kafka (payload : ByteView) (metadata : BroadcastMetadata) (r : Runtime)
    : bool * bool * Runtime :=
  let '(res, s) := record_kafka_message redis_api (rt_redis_config r) (env_wall env) payload metadata
                     (rt_redis r) in
  (res, set_redis s r).

(** The frame callback of the tunnel. *)
Definition rt_on_frame (frame : TunnelFrameView) (r : Runtime) : Runtime :=
  let '(ok, r) := rt_accept_bytes (view_size (frame_payload frame)) r in
  if negb ok then r
  else if bool_decide (frame_type frame = TunnelFrameType.KafkaBroadcast) then
    let '(recorded, duplicate, r) := rt_record_kafka (frame_payload frame) (frame_broadcast frame) r in
    if negb recorded then r
    else if duplicate then r
    else (rt_broadcast TunnelFrameType.KafkaBroadcast (frame_stream_id frame) (frame_payload frame)
            (Some (frame_broadcast frame)) r).2
  else business_on_kcp_frame runtime_callbacks frame r.

(** The sender of the Kafka source: 0 means that the message is not committed. *)
Definition rt_kafka_sender (payload : ByteView) (r : Runtime) : Z * Runtime :=
  let '(recorded, duplicate, r) := rt_record_kafka payload BroadcastMetadata_default r in
  if negb recorded then (0, r)
  else if duplicate then (1, r)
  else rt_broadcast TunnelFrameType.KafkaBroadcast 1 payload None r.

(** A KCP message arrives: the tunnel handles it and calls back; [on_control] is
    [DiscoveryService::on_kcp_control]. *)
Definition rt_on_kcp_message (on_control : ByteView -> Runtime -> Runtime) (data : bytes) (r : Runtime)
    : Runtime :=
  let '(delivery, sends, k) := handle_kcp_message (env_mgr_send env) (env_now env) data (rt_kcp r) in
  let r := log (RtKcp <$> sends) (set_kcp k r) in
  match delivery with
  | None => r
  | Some (DeliverFrame frame) => rt_on_frame frame r
  | Some (DeliverControl payload) =>
      let '(ok, r) := rt_accept_bytes (view_size payload) r in
      if negb ok then r else on_control payload r
  end.

(** [set_kcp_link_callback] *)
Definition rt_add_link (inet_pton : bytes -> option bytes) (peer : NodeAddress) (conv : KcpConv)
    (r : Runtime) : bool * Runtime :=
  if negb (can_accept_kcp_link (peer_link_count (rt_kcp r)) (rt_admission r)) then (false, r)
  else let '(ok, k) := add_peer_link inet_pton peer conv (rt_kcp r) in (ok, set_kcp k r).
End runtime.
