(* ===== verification/RuntimeProofs.v ===== *)
(** Properties of the whole node (Runtime.v): the data path from an edge device
    through two nodes to the target, the admission gate, and the Kafka source. *)
From S2P Require Import Prelude KcpConv Frames Identity Double Routes Admission Tunnel Envelope.
From S2P Require Import TunnelProofs RouteInvariant Ingress Egress Json EdgeMessage Redis RedisProofs Business Runtime.

Section facts.
Context {peer_order : IterOrder KcpConv PeerLink} {seen_order : IterOrder bytes Z}.
Context {route_order : IterOrder KcpConv RouteEntry}.
Context (pow : double -> double -> double).
Context `{JsonApi}.
Context {W : Type} (redis_api : NetApi W).
Implicit Types (r : @Runtime W).

Abbreviation on_event := (rt_on_tcp_event pow redis_api).

(** What the callbacks before the forwarding leave alone. *)
Definition same_links r r' : Prop :=
  peer_links (rt_kcp r') = peer_links (rt_kcp r) /\ running (rt_kcp r') = running (rt_kcp r) /\
  tunnel_config (rt_kcp r') = tunnel_config (rt_kcp r) /\ rt_routes r' = rt_routes r /\
  exists a, rt_log r' = rt_log r ++ a.

#[local] Instance same_links_preorder : PreOrder same_links.
Proof.
  split.
  - intros r. split_and!; try done. exists []. rewrite app_nil_r. done.
  - intros r1 r2 r3 (? & ? & ? & ? & a & Ha) (? & ? & ? & ? & b & Hb). split_and!; try congruence.
    exists (a ++ b). rewrite Hb, Ha, app_assoc. done.
Qed.

Lemma sink_same_links env sid payload md r : same_links r (rt_edge_sink redis_api env sid payload md r).2.
Proof.
  unfold rt_edge_sink. destruct (write_edge_data _ _ _ _ _ _ _ _) as [[ok out] s]. cbn.
  split_and!; try done. eexists. done.
Qed.

Lemma broadcast_same_links env ty sid payload md r :
  same_links r (rt_broadcast env ty sid payload md r).2.
Proof.
  unfold rt_broadcast. pose proof (broadcast_frame_marks (env_mgr_send env) (env_rand_broadcast env)
    (env_now env) ty sid payload md (rt_kcp r)) as Hm.
  destruct (broadcast_frame _ _ _ _ _ _ _ _) as [[n sends] k]. cbn in *.
  destruct Hm as [->|(n' & key & _ & _ & ->)]; [|rewrite mark_broadcast_seen_tunnel];
    (split_and!; try done; eexists; done).
Qed.

(** The frame handed to a connected next hop. *)
Lemma kcp_sender_routed env ty sid payload r next l :
  select_default_next_hop pow (env_now env) (rt_routes r) = Some next ->
  conv_empty (node_id (next_hop next)) = false ->
  peer_links (rt_kcp r) !! node_id (next_hop next) = Some l ->
  running (rt_kcp r) = true -> sid <> 0 -> view_size payload <= u32_max ->
  let s := mkSend (link_addr l) (link_conv l) (encode_tunnel_frame ty sid payload) in
  rt_kcp_sender pow env ty sid payload r = (env_mgr_send env s, log [RtKcp s] r).
Proof.
  intros Hsel Hid Hl Hrun Hsid Hlen s. unfold rt_kcp_sender. rewrite Hsel.
  unfold send_frame_to. rewrite Hrun, Hid, Hl. cbn [negb orb].
  destruct (Z.eqb_spec sid 0) as [|_]; [done|].
  destruct (Z.eqb_spec (zlen (encode_tunnel_frame ty sid payload)) 0) as [E|_]; [|done].
  rewrite encode_tunnel_wire, zlen_app in E by done. unfold zlen at 1 in E.
  rewrite length_tunnel_header in E. pose proof (zlen_nonneg (view_bytes payload)). lia.
Qed.

Definition data_event (sid : Z) (payload : ByteView) : TcpEvent :=
  ingress_event TcpEventType.Data sid payload.

(** Whatever happens to Redis, Kafka and the replicas, accepted data is forwarded. *)
Lemma on_data_forwards env sid payload r r1 next l :
  rt_accept_bytes env (view_size payload) r = (true, r1) ->
  select_default_next_hop pow (env_now env) (rt_routes r) = Some next ->
  conv_empty (node_id (next_hop next)) = false ->
  peer_links (rt_kcp r) !! node_id (next_hop next) = Some l ->
  running (rt_kcp r) = true -> sid <> 0 -> view_size payload <= u32_max ->
  exists pre, rt_log (on_event env (data_event sid payload) r) =
    rt_log r ++ pre ++ [RtKcp (mkSend (link_addr l) (link_conv l)
                                 (encode_tunnel_frame TunnelFrameType.Data sid payload))].
Proof.
  intros Hacc Hsel Hid Hl Hrun Hsid Hlen. unfold rt_on_tcp_event. cbn [data_event ingress_event
    event_source event_type event_payload event_stream_id]. rewrite Hacc. cbn [negb].
  assert (same_links r r1) as H1.
  { unfold rt_accept_bytes in Hacc. destruct (try_accept_ingress_bytes _ _ _) as [ok a].
    injection Hacc as _ <-. split_and!; try done. exists []. cbn. rewrite app_nil_r. done. }
  unfold business_on_tcp_event. cbn [runtime_callbacks kcp_sender event_stream_id event_type
    event_source event_payload data_event ingress_event broadcast_metadata_factory edge_data_sink
    replicate_sender]. destruct (Z.eqb_spec sid 0) as [|_]; [done|].
  rewrite bool_decide_true by done. destruct (rt_metadata_factory env r1) as [md r1'] eqn:Emd.
  assert (r1' = r1) as -> by (unfold rt_metadata_factory in Emd; injection Emd as _ <-; done).
  set (r2 := (rt_edge_sink redis_api env sid payload md r1).2).
  set (r3 := (rt_replicate_sender env sid payload md r2).2).
  assert (same_links r r3) as (Hl3 & Hr3 & _ & Hrt3 & a & Ha).
  { etrans; [exact H1|]. etrans; [apply sink_same_links|]. apply broadcast_same_links. }
  rewrite (kcp_sender_routed env TunnelFrameType.Data sid payload r3 next l)
    by (rewrite ?Hrt3, ?Hl3, ?Hr3; done).
  exists a. cbn. rewrite Ha, <- app_assoc. done.
Qed.

(** A data frame for an open egress stream is written to its socket. *)
Lemma on_data_frame_writes env on_control sid payload r h :
  sid <> 0 -> fits 64 sid -> view_size payload <= u32_max ->
  (rt_accept_bytes env (view_size payload) r).1 = true -> env_write_ok env = true ->
  send_find sid payload (rt_egress r) = Some h ->
  rt_log (rt_on_kcp_message pow redis_api env on_control
            (encode_tunnel_frame TunnelFrameType.Data sid payload) r) =
    rt_log r ++ [RtEgress (WriteAll h (object_fd h (rt_egress r)) (view_bytes payload))].
Proof.
  intros Hsid Hfit Hlen Hacc Hw Hfind. unfold rt_on_kcp_message.
  rewrite receive_unicast by done. cbn [fmap list_fmap].
  unfold rt_on_frame. cbn [frame_payload frame_type frame_broadcast].
  change (view_size (view_of (view_bytes payload))) with (view_size payload).
  assert (log [] (set_kcp (rt_kcp r) r) = r) as -> by (destruct r; unfold log, set_kcp; cbn; rewrite app_nil_r; done).
  unfold rt_accept_bytes in *. destruct (try_accept_ingress_bytes _ _ _) as [ok a]. cbn in Hacc.
  subst ok. cbn [negb]. rewrite bool_decide_false by done.
  unfold business_on_kcp_frame. cbn [frame_stream_id frame_type frame_payload runtime_callbacks tcp_egress_sender].
  destruct (Z.eqb_spec sid 0) as [|_]; [done|].
  unfold send_find in Hfind. case_match eqn:Eg; [done|]. bool_norm.
  destruct (egress_streams (rt_egress r) !! sid) as [h'|] eqn:Es; [|done].
  destruct (is_open h' (rt_egress r)) eqn:Eo; [|done]. injection Hfind as ->.
  assert (view_empty (view_of (view_bytes payload)) = false) as Hve by done. rewrite Hve.
  unfold rt_egress_sender, egress_send_to_stream, send_find. cbn [rt_egress set_admission].
  rewrite Hve. destruct (Z.eqb_spec sid 0) as [|_]; [done|]. cbn [orb].
  replace (egress_stopping (rt_egress r)) with false by done.
  rewrite Es, !Eo, Hw. cbn. done.
Qed.

(** [C1] The data path of the proxy: the bytes of an accepted edge frame arrive at the
    target.  When the node that received the frame has a live default route, whatever
    Redis, Kafka and the replication do, it sends one packet to that next hop last, and
    the node that receives this packet writes exactly the frame's bytes, and does
    nothing else, to the socket it opened for the stream. *)
Theorem data_path_end_to_end enva envb on_control sid payload a a1 b next l h :
  sid <> 0 -> fits 64 sid -> view_size payload <= u32_max ->
  rt_accept_bytes enva (view_size payload) a = (true, a1) ->
  select_default_next_hop pow (env_now enva) (rt_routes a) = Some next ->
  conv_empty (node_id (next_hop next)) = false ->
  peer_links (rt_kcp a) !! node_id (next_hop next) = Some l -> running (rt_kcp a) = true ->
  (rt_accept_bytes envb (view_size payload) b).1 = true -> env_write_ok envb = true ->
  send_find sid payload (rt_egress b) = Some h ->
  exists pre packet,
    rt_log (on_event enva (data_event sid payload) a) =
      rt_log a ++ pre ++ [RtKcp (mkSend (link_addr l) (link_conv l) packet)] /\
    rt_log (rt_on_kcp_message pow redis_api envb on_control packet b) =
      rt_log b ++ [RtEgress (WriteAll h (object_fd h (rt_egress b)) (view_bytes payload))].
Proof.
  intros Hsid Hfit Hlen Hacca Hsel Hid Hl Hrun Haccb Hw Hfind.
  destruct (on_data_forwards enva sid payload a a1 next l) as [pre Hpre]; [done..|].
  exists pre, (encode_tunnel_frame TunnelFrameType.Data sid payload). split; [done|].
  apply on_data_frame_writes; done.
Qed.

(** The admission gate: a connection refused by admission control is shut down
    and nothing else happens, in particular no frame is sent and nothing reaches
    Redis or Kafka; data over the byte limit shuts the connection down, gives its
    stream slot back and is not forwarded either. *)
Theorem admission_gate env sid payload r :
  (forall adm, try_accept_ingress_stream sid (rt_admission r) = (false, adm) ->
     let r' := on_event env (ingress_event TcpEventType.Connected sid ByteView_default) r in
     rt_log r' = rt_log r ++ (RtTcp <$> ingress_shutdown_stream sid (rt_tcp r)) /\
     rt_kcp r' = rt_kcp r /\ rt_redis r' = rt_redis r /\ rt_egress r' = rt_egress r) /\
  (forall r1, rt_accept_bytes env (view_size payload) r = (false, r1) ->
     let r' := on_event env (data_event sid payload) r in
     rt_log r' = rt_log r ++ (RtTcp <$> ingress_shutdown_stream sid (rt_tcp r)) /\
     rt_kcp r' = rt_kcp r /\ rt_redis r' = rt_redis r /\ rt_egress r' = rt_egress r /\
     (sid <> 0 -> sid ∉ ingress_streams (rt_admission r'))).
Proof.
  split.
  - intros adm Ha r'. unfold r', rt_on_tcp_event. cbn [ingress_event event_source event_type event_stream_id].
    rewrite Ha. done.
  - intros r1 Ha r'. unfold r', rt_on_tcp_event. cbn [data_event ingress_event event_source event_type
      event_stream_id event_payload]. rewrite Ha. cbn [negb].
    unfold rt_accept_bytes in Ha. destruct (try_accept_ingress_bytes _ _ _) as [ok adm].
    injection Ha as -> <-. cbn. split_and!; try done. intros Hsid.
    unfold release_ingress_stream. destruct (Z.eqb_spec sid 0) as [|_]; [done|]. cbn.
    rewrite elem_of_difference, elem_of_singleton. tauto.
Qed.
End facts.

(** ** The Kafka source *)
Section kafka.
Context {peer_order : IterOrder KcpConv PeerLink} {seen_order : IterOrder bytes Z}.
Context {route_order : IterOrder KcpConv RouteEntry}.
Context `{JsonApi} `{RedisServer}.

(** Without peers a broadcast reaches nobody. *)
Lemma broadcast_no_peers env ty sid payload md (r : @Runtime world) :
  peer_links (rt_kcp r) = ∅ ->
  exists k, rt_broadcast env ty sid payload md r = (0, set_kcp k r) /\ peer_links k = ∅.
Proof.
  intros Hp. assert (forall p id t, peer_links t = ∅ -> broadcast_packet (env_mgr_send env) p id t = (0, [])) as Hb.
  { intros p id t Ht. unfold broadcast_packet. case_match; [done|].
    pose proof (broadcast_targets_length id t) as Hl. rewrite Ht, map_size_empty in Hl.
    destruct (broadcast_targets id t); [done|cbn in Hl; lia]. }
  assert (forall n key t, peer_links (mark_broadcast_seen n key t).2 = peer_links t) as Hm
    by (intros; rewrite mark_broadcast_seen_tunnel; done).
  assert (exists k, broadcast_frame (env_mgr_send env) (env_rand_broadcast env) (env_now env) ty sid
            payload md (rt_kcp r) = (0, [], k) /\ peer_links k = ∅) as (k & E & Hk).
  { unfold broadcast_frame, broadcast_wire. repeat case_match; rewrite ?Hb by (rewrite ?Hm; done);
      eexists; (split; [done|]); rewrite ?Hm; done. }
  exists k. unfold rt_broadcast. rewrite E. split; [|done].
  unfold log. cbn. rewrite app_nil_r. done.
Qed.

Lemma parse_message_time now now' payload md :
  parse_edge_kafka_message_json now' payload md =
    with_received now' <$> parse_edge_kafka_message_json now payload md.
Proof. unfold parse_edge_kafka_message_json. repeat (case_match; try done). Qed.

(** Recording a Kafka message with a reachable Redis. *)
Lemma record_kafka_reliable env payload (r : @Runtime world) op db m :
  rt_redis r = (op, mkWorld db [] []) -> redis_enabled (rt_redis_config r) = true ->
  view_empty payload = false ->
  parse_edge_kafka_message_json (env_wall env) payload BroadcastMetadata_default = Some m ->
  msg_message_id m <> [] -> message_small m (view_bytes payload) ->
  exists db', rt_record_kafka world_api env payload BroadcastMetadata_default r =
      (true, bool_decide (is_Some (rget (seen_key m) db)), set_redis (true, mkWorld db' [] []) r) /\
    is_Some (rget (seen_key m) db').
Proof.
  intros Hr Hen Hne Hp Hid Hs. unfold rt_record_kafka, record_kafka_message. rewrite Hne, Hp, Hr.
  destruct (record_reliable (rt_redis_config r) m (view_bytes payload) op db Hen Hs Hid) as (db' & -> & Hdb).
  exists db'. split; [done|]. destruct (rget (seen_key m) db) eqn:E.
  - rewrite Hdb, E. eauto.
  - destruct Hdb as [-> _]. eauto.
Qed.

(** A Kafka message consumed while no peer is connected is lost: the first
    delivery marks its id as seen, reaches nobody and is not committed; when the
    message is delivered again, with any peers connected by then, it is taken for a
    duplicate, committed, and still not sent to anyone. *)
Theorem kafka_message_lost_without_peers env env' payload (r : @Runtime world) op db m k' :
  rt_redis r = (op, mkWorld db [] []) -> redis_enabled (rt_redis_config r) = true ->
  view_empty payload = false ->
  parse_edge_kafka_message_json (env_wall env) payload BroadcastMetadata_default = Some m ->
  msg_message_id m <> [] -> message_small m (view_bytes payload) ->
  rget (seen_key m) db = None -> peer_links (rt_kcp r) = ∅ ->
  let '(n1, r1) := rt_kafka_sender world_api env payload r in
  let '(n2, r2) := rt_kafka_sender world_api env' payload (set_kcp k' r1) in
  n1 = 0 /\ n2 = 1 /\ rt_log r2 = rt_log r.
Proof.
  intros Hr Hen Hne Hp Hid Hs Hseen Hpeers. unfold rt_kafka_sender.
  destruct (record_kafka_reliable env payload r op db m) as (db1 & -> & Hdb1); [done..|].
  rewrite Hseen, bool_decide_false by (intros [? ?]; done). cbn [negb].
  destruct (broadcast_no_peers env TunnelFrameType.KafkaBroadcast 1 payload None
              (set_redis (true, mkWorld db1 [] []) r) Hpeers) as (k & -> & _).
  destruct (record_kafka_reliable env' payload (set_kcp k' (set_kcp k (set_redis (true, mkWorld db1 [] []) r)))
              true db1 (with_received (env_wall env') m)) as (db2 & -> & _); try done.
  { rewrite (parse_message_time (env_wall env)), Hp. done. }
  rewrite bool_decide_true by exact Hdb1. done.
Qed.
End kafka.

(** ** Concrete runs *)
Module RuntimeDemo.
#[local] Instance demo_peers : IterOrder KcpConv PeerLink := canonical_order.
#[local] Instance demo_seen : IterOrder bytes Z := canonical_order.
#[local] Instance demo_routes : IterOrder KcpConv RouteEntry := canonical_order.
#[local] Instance demo_json : JsonApi := JsonToy.json_toy.
#[local] Instance demo_redis : RedisServer := RedisDemo.toy_redis.

Definition demo_env : Env :=
  {| env_now := 2000; env_wall := 2000; env_rand_metadata := Some (from_uint32 71);
     env_rand_broadcast := Some (from_uint32 72); env_mgr_send := fun _ => true;
     env_connected := fun _ => true; env_conn_send := fun _ _ => true; env_connect := Some 5;
     env_write_ok := true; env_produce := fun _ _ => true |}.

(** A node with a live route and link to node 1, an open egress stream 9 and an
    empty Redis. *)
Definition demo_kcp : KcpTunnel :=
  tunnel_run TunnelDemo.demo_send TunnelDemo.demo_pton
    [OpStart true; OpAddPeer (RouteDemo.demo_node 1) (from_uint32 1)]
    (tunnel_init (TunnelDemo.demo_config 5)).
Definition demo_runtime (links : bool) (rate : Z) : @Runtime world :=
  {| rt_admission := admission_init (AdmissionDemo.demo_cfg rate) 1000;
     rt_tcp := ingress_init {| ingress_enabled := true; ingress_node_id := 3;
                               max_edge_frame_payload_size := 100 |};
     rt_egress := (open_stream true (Some 5) 9
        (egress_init {| egress_target := {| host := str "10.0.0.1"; port := 80 |};
                        egress_max_streams := 4 |})).2;
     rt_kcp := if links then demo_kcp else tunnel_init (TunnelDemo.demo_config 5);
     rt_routes := RouteDemo.demo_one; rt_redis_config := RedisDemo.demo_cfg;
     rt_redis := (false, mkWorld ∅ [] []); rt_log := [] |}.

Definition demo_link : PeerLink :=
  {| link_peer := RouteDemo.demo_node 1; link_conv := from_uint32 1;
     link_addr := {| sin_port := be_encode 2 9000; sin_addr := [x7f; x00; x00; x01] |} |}.

Lemma pair_first {A} (x : bool * A) b : x.1 = b -> x = (b, x.2).
Proof. destruct x. cbn. intros ->. done. Qed.

Lemma data_path_end_to_end_witness :
  exists packet,
    rt_log (rt_on_kcp_message RouteDemo.demo_pow world_api demo_env (fun _ r => r) packet
              (demo_runtime true 1000)) =
      [RtEgress (WriteAll 0 5 (view_bytes RedisDemo.demo_payload))].
Proof.
  destruct (data_path_end_to_end RouteDemo.demo_pow world_api demo_env demo_env (fun _ r => r) 9
    RedisDemo.demo_payload (demo_runtime true 1000)
    (rt_accept_bytes demo_env (view_size RedisDemo.demo_payload) (demo_runtime true 1000)).2
    (demo_runtime true 1000)
    {| target := RouteDemo.demo_node 1; next_hop := RouteDemo.demo_node 1; direct := true;
       next_hop_count := 1 |} demo_link 0) as (pre & packet & _ & E).
  - lia.
  - split; lia.
  - vm_compute. discriminate.
  - apply pair_first. vm_compute. reflexivity.
  - vm_compute. reflexivity.
  - vm_compute. reflexivity.
  - vm_compute. reflexivity.
  - vm_compute. reflexivity.
  - vm_compute. reflexivity.
  - reflexivity.
  - vm_compute. reflexivity.
  - exists packet. exact E.
Defined.

(** A byte limit of one byte per second refuses the frame. *)
Lemma admission_gate_witness :
  rt_kcp (rt_on_tcp_event RouteDemo.demo_pow world_api demo_env (data_event 9 RedisDemo.demo_payload)
            (demo_runtime true 1)) = rt_kcp (demo_runtime true 1).
Proof.
  destruct (admission_gate RouteDemo.demo_pow world_api demo_env 9 RedisDemo.demo_payload
              (demo_runtime true 1)) as [_ Hdata].
  destruct (Hdata (rt_accept_bytes demo_env (view_size RedisDemo.demo_payload) (demo_runtime true 1)).2)
    as (_ & Hk & _); [apply pair_first; vm_compute; reflexivity|exact Hk].
Defined.

Lemma kafka_message_lost_without_peers_witness :
  let payload := view_of (serialize_edge_data_message_json RedisDemo.demo_message) in
  (rt_kafka_sender world_api demo_env payload (demo_runtime false 1000)).1 = 0.
Proof.
  intros payload.
  pose proof (kafka_message_lost_without_peers demo_env demo_env payload (demo_runtime false 1000)
    false ∅ (with_received 2000 RedisDemo.demo_message) demo_kcp) as Hk.
  destruct (rt_kafka_sender world_api demo_env payload (demo_runtime false 1000)) as [n1 r1].
  destruct (rt_kafka_sender world_api demo_env payload (set_kcp demo_kcp r1)) as [n2 r2].
  apply Hk; clear.
  - reflexivity.
  - reflexivity.
  - vm_compute. reflexivity.
  - vm_compute. reflexivity.
  - vm_compute. discriminate.
  - vm_compute. repeat split; reflexivity.
  - vm_compute. reflexivity.
  - reflexivity.
Defined.
End RuntimeDemo.
