(* ===== verification/Mpmc.v ===== *)
(** The lock-free bounded queue: myring/include/NoMtxQueue/NoMtxQueue.{hpp,tpp}.

    Every atomic access of [try_emplace_impl] and [try_pop] is one step of a thread
    ([thread_step]), so that all interleavings of producers and consumers are
    executions of [queue_step].  Accesses are interleaved; the acquire and release
    orders of the code, which make the cell's data visible with its sequence number,
    are not modelled further.  A weak compare-and-exchange may fail spuriously. *)
From S2P Require Import Prelude.

(** ** The queue *)
Section mpmc.
Context {T : Type}.

(** [struct Cell]: the storage holds an object or nothing. *)
Record Cell := mkCell { sequence : Z; storage : option T }.

Record MpmcBoundedQueue := mkQueue {
  buffer : list Cell;
  dequeue_pos : Z;
  enqueue_pos : Z;
}.

Context (Capacity : Z).

Definition mpmc_init : MpmcBoundedQueue :=
  {| buffer := (fun i => {| sequence := Z.of_nat i; storage := None |}) <$> seq 0 (Z.to_nat Capacity);
     dequeue_pos := 0; enqueue_pos := 0 |}.

Definition index_of (sequence : Z) : nat := Z.to_nat (Z.land sequence (Capacity - 1)).

Definition before (a b : Z) : bool := (u64_max / 2) + 1 <=? wrap 64 (a - b).

Definition mpmc_empty (q : MpmcBoundedQueue) : bool := dequeue_pos q =? enqueue_pos q.

Definition mpmc_full (q : MpmcBoundedQueue) : bool :=
  Capacity <=? wrap 64 (enqueue_pos q - dequeue_pos q).

Definition cell_at (pos : Z) (q : MpmcBoundedQueue) : option Cell := buffer q !! index_of pos.

Definition set_cell (pos : Z) (c : Cell) (q : MpmcBoundedQueue) : MpmcBoundedQueue :=
  {| buffer := <[index_of pos := c]> (buffer q); dequeue_pos := dequeue_pos q;
     enqueue_pos := enqueue_pos q |}.

(** Where a thread is inside [try_emplace_impl] or [try_pop]. *)
Inductive pc : Type :=
  | Idle
  | PushLoad (v : T)
  | PushSeq (v : T) (pos : Z)
  | PushCheck (v : T) (pos seq : Z)
  | PushWrite (v : T) (pos : Z)
  | PushPublish (pos : Z)
  | PushDone (ok : bool)
  | PopLoad
  | PopSeq (pos : Z)
  | PopCheck (pos seq : Z)
  | PopRead (pos : Z)
  | PopRelease (pos : Z) (v : T)
  | PopDone (v : option T).

(** [try_emplace_impl], one access at a time; [weak] is a spurious failure. *)
Definition push_step (weak : bool) (p : pc) (q : MpmcBoundedQueue) : option (pc * MpmcBoundedQueue) :=
  match p with
  | PushLoad v => Some (PushSeq v (enqueue_pos q), q)
  | PushSeq v pos => (fun c => (PushCheck v pos (sequence c), q)) <$> cell_at pos q
  | PushCheck v pos seq =>
      if seq =? pos then
        if weak || negb (enqueue_pos q =? pos) then Some (PushSeq v (enqueue_pos q), q)
        else Some (PushWrite v pos,
                   {| buffer := buffer q; dequeue_pos := dequeue_pos q;
                      enqueue_pos := wrap 64 (pos + 1) |})
      else if before seq pos then Some (PushDone false, q)
      else Some (PushLoad v, q)
  | PushWrite v pos =>
      (fun c => (PushPublish pos, set_cell pos (mkCell (sequence c) (Some v)) q)) <$> cell_at pos q
  | PushPublish pos =>
      (fun c => (PushDone true, set_cell pos (mkCell (wrap 64 (pos + 1)) (storage c)) q))
        <$> cell_at pos q
  | _ => None
  end.

(** [try_pop], one access at a time. *)
Definition pop_step (weak : bool) (p : pc) (q : MpmcBoundedQueue) : option (pc * MpmcBoundedQueue) :=
  match p with
  | PopLoad => Some (PopSeq (dequeue_pos q), q)
  | PopSeq pos => (fun c => (PopCheck pos (sequence c), q)) <$> cell_at pos q
  | PopCheck pos seq =>
      let expected_seq := wrap 64 (pos + 1) in
      if seq =? expected_seq then
        if weak || negb (dequeue_pos q =? pos) then Some (PopSeq (dequeue_pos q), q)
        else Some (PopRead pos,
                   {| buffer := buffer q; dequeue_pos := wrap 64 (pos + 1);
                      enqueue_pos := enqueue_pos q |})
      else if before seq expected_seq then Some (PopDone None, q)
      else Some (PopLoad, q)
  | PopRead pos =>
      match cell_at pos q with
      | Some c =>
          match storage c with
          | Some v => Some (PopRelease pos v, set_cell pos (mkCell (sequence c) None) q)
          | None => None
          end
      | None => None
      end
  | PopRelease pos v =>
      (fun c => (PopDone (Some v), set_cell pos (mkCell (wrap 64 (pos + Capacity)) (storage c)) q))
        <$> cell_at pos q
  | _ => None
  end.

Definition thread_step (weak : bool) (p : pc) (q : MpmcBoundedQueue) : option (pc * MpmcBoundedQueue) :=
  match push_step weak p q with
  | Some r => Some r
  | None => pop_step weak p q
  end.

(** ** Threads

    The ghost list [given] records the pushed values in the order in which their
    positions were claimed, [taken] the value each claimed dequeue position got. *)
Record system := mkSystem {
  queue : MpmcBoundedQueue;
  threads : gmap nat pc;
  given : list T;
  taken : gmap Z T;
}.

(** The ghost updates of a step. *)
Definition give (p p' : pc) (l : list T) : list T :=
  match p, p' with
  | PushCheck v _ _, PushWrite _ _ => l ++ [v]
  | _, _ => l
  end.

Definition take_ghost (p p' : pc) (m : gmap Z T) : gmap Z T :=
  match p, p' with
  | PopRead pos, PopRelease _ v => <[pos := v]> m
  | _, _ => m
  end.

Inductive queue_step : system -> system -> Prop :=
  | step_call s t p :
      threads s !! t = None \/ (exists p', threads s !! t = Some p' /\
        match p' with Idle | PushDone _ | PopDone _ => True | _ => False end) ->
      match p with PushLoad _ | PopLoad => True | _ => False end ->
      queue_step s (mkSystem (queue s) (<[t := p]> (threads s)) (given s) (taken s))
  | step_thread s t weak p p' q' :
      threads s !! t = Some p -> thread_step weak p (queue s) = Some (p', q') ->
      queue_step s (mkSystem q' (<[t := p']> (threads s)) (give p p' (given s))
                      (take_ghost p p' (taken s))).

Definition system_init : system := mkSystem mpmc_init ∅ [] ∅.
End mpmc.
Arguments MpmcBoundedQueue : clear implicits.
Arguments Cell : clear implicits.
Arguments pc : clear implicits.
Arguments system : clear implicits.
