(* ===== verification/MpmcProofs.v ===== *)
(** The lock-free queue (Mpmc.v) is a FIFO queue under every interleaving. *)
From S2P Require Import Prelude Mpmc.

Section proofs.
Context {T : Type} (k : Z) (Hk : 1 <= k <= 61).

(** A power of two above 1, as the static assertions of the class require. *)
Definition cap : Z := 2 ^ k.

Lemma cap_range : 2 <= cap <= 2 ^ 61.
Proof using Hk.
  unfold cap. split.
  - change 2 with (2 ^ 1) at 1. apply Z.pow_le_mono_r; lia.
  - apply Z.pow_le_mono_r; lia.
Qed.

Lemma index_of_mod pos : Z.of_nat (index_of cap pos) = pos mod cap.
Proof using Hk.
  unfold index_of. pose proof cap_range. unfold cap in *.
  replace (2 ^ k - 1) with (Z.ones k) by (rewrite Z.ones_equiv; lia).
  rewrite Z.land_ones by lia.
  rewrite Z2Nat.id; [done|]. apply Z.mod_pos_bound. lia.
Qed.

(** ** The invariant *)

(** Cell [i] is in the round of a position [p]: free for it, or filled with it. *)
Definition cell_inv (D E : Z) (g : list T) (i : nat) (c : Cell T) : Prop :=
  exists p, p mod cap = Z.of_nat i /\ 0 <= p < D + cap /\ E <= p + cap /\
    ((sequence c = p /\ D <= p /\ (E <= p -> storage c = None)) \/
     (sequence c = p + 1 /\ p < E /\ (D <= p -> storage c = g !! Z.to_nat p))).

(** What a thread relies on between two accesses. *)
Definition thread_inv (q : MpmcBoundedQueue T) (g : list T) (tk : gmap Z T) (p : pc T) : Prop :=
  match p with
  | Idle | PushLoad _ | PushDone _ | PopLoad | PopDone _ => True
  | PushSeq _ pos => 0 <= pos <= enqueue_pos q
  | PushCheck _ pos seq =>
      0 <= pos <= enqueue_pos q /\ exists c, cell_at cap pos q = Some c /\ seq <= sequence c
  | PushWrite v pos =>
      0 <= pos < enqueue_pos q /\ cell_at cap pos q = Some (mkCell pos None) /\
      g !! Z.to_nat pos = Some v
  | PushPublish pos =>
      0 <= pos < enqueue_pos q /\ cell_at cap pos q = Some (mkCell pos (g !! Z.to_nat pos))
  | PopSeq pos => 0 <= pos <= dequeue_pos q
  | PopCheck pos seq =>
      0 <= pos <= dequeue_pos q /\ exists c, cell_at cap pos q = Some c /\ seq <= sequence c
  | PopRead pos =>
      0 <= pos < dequeue_pos q /\ cell_at cap pos q = Some (mkCell (pos + 1) (g !! Z.to_nat pos)) /\
      tk !! pos = None
  | PopRelease pos v =>
      0 <= pos < dequeue_pos q /\ cell_at cap pos q = Some (mkCell (pos + 1) None) /\
      g !! Z.to_nat pos = Some v
  end.

(** The position a thread has claimed, with the sequence number its cell shows. *)
Definition claim (p : pc T) : option (Z * Z) :=
  match p with
  | PushWrite _ pos | PushPublish pos => Some (pos, pos)
  | PopRead pos | PopRelease pos _ => Some (pos, pos + 1)
  | _ => None
  end.

(** The cell of a claimed position that is not published, or not released, yet. *)
Definition busy (q : MpmcBoundedQueue T) (pos : Z) (c : Cell T) : Prop :=
  (sequence c = pos /\ 0 <= pos < enqueue_pos q) \/ (sequence c = pos + 1 /\ 0 <= pos < dequeue_pos q).

Record queue_inv (s : system T) : Prop := {
  qi_length : length (buffer (queue s)) = Z.to_nat cap;
  qi_given : enqueue_pos (queue s) = Z.of_nat (length (given s));
  qi_order : 0 <= dequeue_pos (queue s) <= enqueue_pos (queue s);
  qi_cells : forall i c, buffer (queue s) !! i = Some c ->
    cell_inv (dequeue_pos (queue s)) (enqueue_pos (queue s)) (given s) i c;
  qi_threads : forall t p, threads s !! t = Some p -> thread_inv (queue s) (given s) (taken s) p;
  qi_claims : forall t t' p p' x, threads s !! t = Some p -> threads s !! t' = Some p' ->
    claim p = Some x -> claim p' = Some x -> t = t';
  qi_taken : forall pos v, taken s !! pos = Some v ->
    0 <= pos < dequeue_pos (queue s) /\ given s !! Z.to_nat pos = Some v;
  qi_lost : forall pos, 0 <= pos < dequeue_pos (queue s) -> taken s !! pos = None ->
    exists t, threads s !! t = Some (PopRead pos);
  qi_busy : forall pos c, cell_at cap pos (queue s) = Some c -> 
    busy (queue s) pos c -> exists t p, threads s !! t = Some p /\ claim p = Some (pos, sequence c);
}.

(** ** Arithmetic of rounds *)
Lemma mod_close a b : a mod cap = b mod cap -> a - b < cap -> b - a < cap -> a = b.
Proof using Hk.
  pose proof cap_range. intros Hm H1 H2.
  pose proof (Z.div_mod a cap ltac:(lia)). pose proof (Z.div_mod b cap ltac:(lia)).
  rewrite Hm in *. generalize dependent (b mod cap). intros.
  assert (a / cap = b / cap) by (destruct (Z.lt_total (a / cap) (b / cap)) as [?|[?|?]]; [nia|done|nia]).
  congruence.
Qed.

Lemma mod_succ_neq a b : a mod cap = b mod cap -> a <> b + 1.
Proof using Hk.
  pose proof cap_range. intros Hm ->.
  pose proof (mod_close (b + 1) b Hm). lia.
Qed.

Lemma index_of_eq a b : index_of cap a = index_of cap b <-> a mod cap = b mod cap.
Proof using Hk. rewrite <- !index_of_mod. lia. Qed.

(** ** Frames *)
Lemma cell_at_set pos pos' c (q : MpmcBoundedQueue T) c0 :
  cell_at cap pos q = Some c0 ->
  cell_at cap pos' (set_cell cap pos c q) =
    if decide (index_of cap pos = index_of cap pos') then Some c else cell_at cap pos' q.
Proof.
  unfold cell_at, set_cell. simpl. intros Hc. case_decide as Hd.
  - rewrite <- Hd. apply list_lookup_insert_eq. by apply lookup_lt_Some in Hc.
  - by apply list_lookup_insert_ne.
Qed.

Lemma claim_shape p pos seq : claim p = Some (pos, seq) -> seq = pos \/ seq = pos + 1.
Proof. destruct p; simpl; naive_solver. Qed.

Lemma same_cell_same_claim pos seq pos' seq' :
  (seq = pos \/ seq = pos + 1) -> (seq' = pos' \/ seq' = pos' + 1) ->
  index_of cap pos = index_of cap pos' -> seq = seq' -> (pos, seq) = (pos', seq').
Proof using Hk.
  rewrite index_of_eq. intros H1 H2 Hi Hs.
  pose proof (mod_succ_neq _ _ Hi). pose proof (mod_succ_neq _ _ (eq_sym Hi)).
  f_equal; lia.
Qed.

(** Another thread keeps its invariant when the holder of a claim writes its cell. *)
Lemma thread_inv_set q g tk tk' p pos seq c o :
  thread_inv q g tk p ->
  (seq = pos \/ seq = pos + 1) ->
  cell_at cap pos q = Some (mkCell seq o) -> seq <= sequence c ->
  claim p <> Some (pos, seq) ->
  (forall pos', pos' <> pos -> tk' !! pos' = tk !! pos') ->
  thread_inv (set_cell cap pos c q) g tk' p.
Proof using Hk.
  intros Hp Hsh Hc Hle Hn Htk.
  assert (Hcl : forall pos' seq' o', claim p = Some (pos', seq') ->
    cell_at cap pos' q = Some (mkCell seq' o') ->
    cell_at cap pos' (set_cell cap pos c q) = Some (mkCell seq' o')).
  { intros pos' seq' o' Hcl Hc'. erewrite cell_at_set by done. case_decide as Hd; [|done].
    exfalso. apply Hn. rewrite Hcl. f_equal. unfold cell_at in *. rewrite Hd in Hc. simplify_eq.
    symmetry. apply same_cell_same_claim; eauto using claim_shape. }
  assert (Hck : forall pos' seq', (exists c', cell_at cap pos' q = Some c' /\ seq' <= sequence c') ->
    exists c', cell_at cap pos' (set_cell cap pos c q) = Some c' /\ seq' <= sequence c').
  { intros pos' seq' (c' & Hc' & Hs). erewrite cell_at_set by done. case_decide as Hd; [|by eauto].
    unfold cell_at in *. rewrite Hd in Hc. simplify_eq. simpl in *. exists c. split; [done|lia]. }
  destruct p as [| | | | | | | | | |pos0| |]; simpl in *; intuition eauto.
  all: rewrite Htk; [done|]; intros ->; simplify_eq; lia.
Qed.

(** Another thread keeps its invariant when a position is claimed. *)
Lemma thread_inv_advance q q' g g' tk p :
  thread_inv q g tk p -> buffer q' = buffer q ->
  dequeue_pos q <= dequeue_pos q' -> enqueue_pos q <= enqueue_pos q' ->
  dequeue_pos q <= enqueue_pos q -> enqueue_pos q = Z.of_nat (length g) -> g `prefix_of` g' ->
  thread_inv q' g' tk p.
Proof.
  intros Hp Hb HD HE Hde Hg [e ->].
  assert (Hl : forall pos, 0 <= pos < enqueue_pos q ->
            (g ++ e) !! Z.to_nat pos = g !! Z.to_nat pos).
  { intros pos Hpos. apply lookup_app_l. lia. }
  destruct p; simpl in *; unfold cell_at in *; rewrite ?Hb; try lia; try done;
    intuition (try lia); rewrite Hl by lia; done.
Qed.

(** ** The kinds of steps *)

(** A thread moves without touching the queue. *)
Lemma inv_local s t p' :
  queue_inv s -> claim p' = None -> thread_inv (queue s) (given s) (taken s) p' ->
  (forall p, threads s !! t = Some p -> claim p = None) ->
  queue_inv (mkSystem (queue s) (<[t := p']> (threads s)) (given s) (taken s)).
Proof.
  intros [] Hc Hp Hn. split; simpl; try done.
  - intros t0 p0. intros [[<- <-]|[? ?]]%lookup_insert_Some; eauto.
  - intros t1 t2 p1 p2 x. rewrite !lookup_insert_Some.
    intros [[<- <-]|[? Ht1]] [[<- <-]|[? Ht2]] ??; try congruence. by eapply qi_claims0.
  - intros pos Hpos Htk. destruct (qi_lost0 pos Hpos Htk) as [t0 Ht0]. exists t0.
    rewrite lookup_insert_ne; [done|]. intros <-. by apply Hn in Ht0.
  - intros pos c Hci Hb. destruct (qi_busy0 pos c Hci Hb) as (t0 & p0 & Ht0 & Hp0). exists t0, p0.
    rewrite lookup_insert_ne; [done|]. intros <-. apply Hn in Ht0. congruence.
Qed.

(** The holder of a claim writes its cell. *)
Lemma inv_write s t p p' pos seq o c' tk' :
  queue_inv s -> threads s !! t = Some p -> claim p = Some (pos, seq) ->
  cell_at cap pos (queue s) = Some (mkCell seq o) -> seq <= sequence c' ->
  cell_inv (dequeue_pos (queue s)) (enqueue_pos (queue s)) (given s) (index_of cap pos) c' ->
  (claim p' = claim p /\ sequence c' = seq \/
   claim p' = None /\ forall pos', pos' mod cap = pos mod cap -> ~ busy (queue s) pos' c') ->
  thread_inv (set_cell cap pos c' (queue s)) (given s) tk' p' ->
  (forall pos', pos' <> pos -> tk' !! pos' = taken s !! pos') ->
  (forall v, tk' !! pos = Some v ->
    0 <= pos < dequeue_pos (queue s) /\ given s !! Z.to_nat pos = Some v) ->
  (tk' !! pos = None -> taken s !! pos = None /\ p <> PopRead pos) ->
  queue_inv (mkSystem (set_cell cap pos c' (queue s)) (<[t := p']> (threads s)) (given s) tk').
Proof using Hk.
  intros [] Ht Hcl Hc Hle Hci Hcl' Hp' Htk Htk1 Htk2. split; simpl; try done.
  - by rewrite length_insert.
  - intros i c [(<- & <- & _)|[_ Hi]]%list_lookup_insert_Some; by eauto.
  - intros t0 p0 [[<- <-]|[Hne Ht0]]%lookup_insert_Some; [done|].
    assert (claim p0 <> Some (pos, seq)) by (intros Hx; apply Hne; by eapply qi_claims0).
    by eapply (thread_inv_set _ _ (taken s) _ _ _ seq); eauto using claim_shape.
  - intros t1 t2 p1 p2 x. rewrite !lookup_insert_Some. intros [[<- <-]|[? Ht1]] [[<- <-]|[? Ht2]] ??;
      try done; try (destruct Hcl' as [[Hx _]|[Hx _]]; rewrite Hx in *; [|done]); by eapply qi_claims0.
  - intros pos0 v Hv. destruct (decide (pos0 = pos)) as [->|Hn]; [by apply Htk1|].
    apply qi_taken0. by rewrite <- Htk.
  - intros pos0 Hpos Hv.
    assert (taken s !! pos0 = None /\ p <> PopRead pos0) as [Hnone Hp].
    { destruct (decide (pos0 = pos)) as [->|Hn]; [by apply Htk2|].
      rewrite Htk in Hv by done. split; [done|]. intros ->. simpl in Hcl. congruence. }
    destruct (qi_lost0 pos0 Hpos Hnone) as [t0 Ht0]. exists t0.
    rewrite lookup_insert_ne; [done|]. intros <-. by simplify_eq.
  - intros pos0 c Hc0 Hb. erewrite cell_at_set in Hc0 by done. case_decide as Hd.
    + simplify_eq. destruct Hcl' as [[Hx Hs]|[_ Hx]];
        [|exfalso; eapply Hx; [|done]; symmetry; by apply index_of_eq].
      exists t, p'. rewrite lookup_insert_eq, Hx, Hcl. split; [done|]. f_equal.
      apply same_cell_same_claim; eauto using claim_shape. destruct Hb as [[]|[]]; auto.
    + destruct (qi_busy0 pos0 c Hc0 Hb) as (t0 & p0 & Ht0 & Hp0). exists t0, p0.
      rewrite lookup_insert_ne; [done|]. intros <-. by simplify_eq.
Qed.

(** A producer claims the next position. *)
Lemma inv_claim_push s t v seq c :
  queue_inv s -> threads s !! t = Some (PushCheck v (enqueue_pos (queue s)) seq) ->
  cell_at cap (enqueue_pos (queue s)) (queue s) = Some c ->
  enqueue_pos (queue s) <= sequence c ->
  let q' := mkQueue (buffer (queue s)) (dequeue_pos (queue s)) (enqueue_pos (queue s) + 1) in
  queue_inv (mkSystem q' (<[t := PushWrite v (enqueue_pos (queue s))]> (threads s))
               (given s ++ [v]) (taken s)).
Proof using Hk.
  intros [] Ht Hc Hle q'. pose proof cap_range as Hcap.
  set (E := enqueue_pos (queue s)) in *. set (D := dequeue_pos (queue s)) in *.
  destruct (qi_cells0 _ _ Hc) as (p & Hmod & Hp & HE & Hcase).
  rewrite index_of_mod in Hmod.
  assert (p = E /\ c = mkCell E None) as [-> ->].
  { destruct Hcase as [(Hs & Hd & Hst)|(Hs & Hlt & _)].
    - assert (p = E) as -> by (apply mod_close; [done|lia|lia]). split; [done|].
      destruct c; simpl in *. subst. by rewrite Hst by lia.
    - exfalso. apply (mod_succ_neq E p); [done|lia]. }
  split; simpl; try lia; try done.
  - rewrite length_app. simpl. lia.
  - intros i ci Hi. destruct (qi_cells0 _ _ Hi) as (p & Hm & Hp' & HE' & Hc').
    exists p. split_and!; [done|lia|lia| |].
    + assert (E <> p + cap); [|lia]. intros Heq.
      assert (i = index_of cap E) as ->.
      { apply Nat2Z.inj. rewrite <- Hm, index_of_mod, Heq, <- (Z.mod_add p 1 cap) by lia.
        f_equal. lia. }
      unfold cell_at in Hc. rewrite Hc in Hi. simplify_eq. simpl in Hc'. lia.
    + destruct Hc' as [(?&?&Hst)|(?&?&Hst)]; [left|right]; split_and!; try done; try lia.
      * intros ?. apply Hst. lia.
      * intros ?. rewrite Hst by lia. symmetry. apply lookup_app_l. lia.
  - intros t0 p0 [[<- <-]|[Hne Ht0]]%lookup_insert_Some.
    + simpl. split_and!; [lia|lia|done|]. rewrite lookup_app_r by lia.
      replace (Z.to_nat E - length (given s))%nat with 0%nat by lia. done.
    + eapply thread_inv_advance; eauto; simpl; try done; try lia. by eexists.
  - intros t1 t2 p1 p2 x. rewrite !lookup_insert_Some.
    assert (Hfresh : forall t' p', threads s !! t' = Some p' -> claim p' <> Some (E, E)).
    { intros t' p' Ht' Hcl'. apply qi_threads0 in Ht'. destruct p'; simpl in *; simplify_eq; lia. }
    intros [[<- <-]|[? Ht1]] [[<- <-]|[? Ht2]] ??; try done; simplify_eq/=; [| |by eauto];
      exfalso; naive_solver.
  - intros pos w Hw. destruct (qi_taken0 _ _ Hw). split; [done|]. by apply lookup_app_l_Some.
  - intros pos Hpos Hn. destruct (qi_lost0 pos Hpos Hn) as [t0 Ht0]. exists t0.
    rewrite lookup_insert_ne; [done|]. intros <-. by simplify_eq.
  - intros pos ci Hci Hb. destruct (decide (pos = E)) as [->|Hne].
    + exists t. eexists. rewrite lookup_insert_eq. split; [done|]. simpl.
      unfold cell_at, q' in *. simpl in Hci. rewrite Hc in Hci. by simplify_eq.
    + assert (busy (queue s) pos ci) as Hb' by (unfold busy, q' in *; simpl in *; lia).
      destruct (qi_busy0 pos ci Hci Hb') as (t0 & p0 & Ht0 & Hp0). exists t0, p0.
      rewrite lookup_insert_ne; [done|]. intros <-. by simplify_eq.
Qed.

(** A consumer claims the next position. *)
Lemma inv_claim_pop s t seq c :
  queue_inv s -> threads s !! t = Some (PopCheck (dequeue_pos (queue s)) seq) ->
  cell_at cap (dequeue_pos (queue s)) (queue s) = Some c ->
  dequeue_pos (queue s) + 1 <= sequence c ->
  let q' := mkQueue (buffer (queue s)) (dequeue_pos (queue s) + 1) (enqueue_pos (queue s)) in
  queue_inv (mkSystem q' (<[t := PopRead (dequeue_pos (queue s))]> (threads s)) (given s) (taken s)).
Proof using Hk.
  intros [] Ht Hc Hle q'. pose proof cap_range as Hcap.
  set (E := enqueue_pos (queue s)) in *. set (D := dequeue_pos (queue s)) in *.
  destruct (qi_cells0 _ _ Hc) as (p & Hmod & Hp & HE & Hcase).
  rewrite index_of_mod in Hmod.
  assert (p = D /\ c = mkCell (D + 1) (given s !! Z.to_nat D) /\ D < E) as (-> & -> & HDE).
  { destruct Hcase as [(Hs & Hd & Hst)|(Hs & Hlt & Hst)].
    - assert (p = D) as -> by (apply mod_close; [done|lia|lia]). lia.
    - assert (p = D) as -> by (apply mod_close; [done|lia|lia]). split_and!; [done| |done].
      destruct c; simpl in *. subst. by rewrite Hst by lia. }
  split; simpl; try lia; try done.
  - intros i ci Hi. destruct (qi_cells0 _ _ Hi) as (p & Hm & Hp' & HE' & Hc').
    exists p. split_and!; [done|lia|lia|lia|].
    destruct Hc' as [(?&?&Hst)|(?&?&Hst)]; [left|right]; split_and!; try done; try lia.
    + assert (p <> D); [|lia]. intros ->.
      assert (i = index_of cap D) as -> by (apply Nat2Z.inj; by rewrite <- Hm, index_of_mod).
      unfold cell_at in Hc. rewrite Hc in Hi. simplify_eq. simpl in *. lia.
    + intros ?. apply Hst. lia.
  - intros t0 p0 [[<- <-]|[Hne Ht0]]%lookup_insert_Some.
    + simpl. split_and!; [lia|lia|done|]. destruct (taken s !! D) as [w|] eqn:Hw; [|done].
      apply qi_taken0 in Hw. lia.
    + eapply thread_inv_advance; eauto; simpl; try done; lia.
  - intros t1 t2 p1 p2 x. rewrite !lookup_insert_Some.
    assert (Hfresh : forall t' p', threads s !! t' = Some p' -> claim p' <> Some (D, D + 1)).
    { intros t' p' Ht' Hcl'. apply qi_threads0 in Ht'. destruct p'; simpl in *; simplify_eq; lia. }
    intros [[<- <-]|[? Ht1]] [[<- <-]|[? Ht2]] ??; try done; simplify_eq/=; [| |by eauto];
      exfalso; naive_solver.
  - intros pos w Hw. destruct (qi_taken0 _ _ Hw). split; [lia|done].
  - intros pos Hpos Hn. destruct (decide (pos = D)) as [->|].
    + exists t. by rewrite lookup_insert_eq.
    + destruct (qi_lost0 pos ltac:(lia) Hn) as [t0 Ht0]. exists t0.
      rewrite lookup_insert_ne; [done|]. intros <-. by simplify_eq.
  - intros pos ci Hci Hb. destruct (decide (pos = D)) as [->|Hne].
    + exists t. eexists. rewrite lookup_insert_eq. split; [done|]. simpl.
      unfold cell_at, q' in *. simpl in Hci. rewrite Hc in Hci. by simplify_eq.
    + assert (busy (queue s) pos ci) as Hb' by (unfold busy, q' in *; simpl in *; lia).
      destruct (qi_busy0 pos ci Hci Hb') as (t0 & p0 & Ht0 & Hp0). exists t0, p0.
      rewrite lookup_insert_ne; [done|]. intros <-. by simplify_eq.
Qed.

Lemma wrap_small z : 0 <= z <= 2 ^ 62 + 2 ^ 61 -> wrap 64 z = z.
Proof. intros. apply wrap_id. unfold fits. lia. Qed.

Lemma cell_at_is_Some s pos : queue_inv s -> exists c, cell_at cap pos (queue s) = Some c.
Proof using Hk.
  intros []. apply lookup_lt_is_Some. pose proof (index_of_mod pos). pose proof cap_range.
  pose proof (Z.mod_pos_bound pos cap ltac:(lia)). lia.
Qed.

(** Publishing and releasing put the cell in its next phase. *)
Lemma inv_publish s t pos :
  queue_inv s -> Z.of_nat (length (given s)) <= 2 ^ 62 ->
  threads s !! t = Some (PushPublish pos) ->
  let c := mkCell (wrap 64 (pos + 1)) (given s !! Z.to_nat pos) in
  queue_inv (mkSystem (set_cell cap pos c (queue s)) (<[t := PushDone true]> (threads s))
               (given s) (taken s)).
Proof using Hk.
  intros Hinv Hlen Ht c. pose proof cap_range as Hcap.
  pose proof (qi_threads _ Hinv _ _ Ht) as [Hpos Hc]. pose proof Hinv as [].
  destruct (qi_cells0 _ _ Hc) as (p & Hmod & Hp & HE & Hcase). rewrite index_of_mod in Hmod.
  assert (p = pos /\ dequeue_pos (queue s) <= pos) as [-> HD].
  { pose proof (mod_succ_neq pos p). simpl in Hcase. lia. }
  subst c. rewrite wrap_small by lia.
  eapply inv_write; try done; simpl; try lia.
  - exists pos. rewrite index_of_mod. split_and!; try done; try lia. right. simpl. split_and!; [done|lia|done].
  - right. split; [done|]. intros pos' Hm. unfold busy. simpl.
    pose proof (mod_succ_neq pos' pos Hm). lia.
  - intros v Hv. by apply qi_taken0.
Qed.

Lemma inv_release s t pos v :
  queue_inv s -> Z.of_nat (length (given s)) <= 2 ^ 62 ->
  threads s !! t = Some (PopRelease pos v) ->
  queue_inv (mkSystem (set_cell cap pos (mkCell (wrap 64 (pos + cap)) None) (queue s))
               (<[t := PopDone (Some v)]> (threads s)) (given s) (taken s)).
Proof using Hk.
  intros Hinv Hlen Ht. pose proof cap_range as Hcap.
  pose proof (qi_threads _ Hinv _ _ Ht) as (Hpos & Hc & Hg). pose proof Hinv as [].
  destruct (qi_cells0 _ _ Hc) as (p & Hmod & Hp & HE & Hcase). rewrite index_of_mod in Hmod.
  assert (p = pos) as ->.
  { pose proof (mod_succ_neq p pos). simpl in Hcase. lia. }
  assert (Hround : (pos + cap) mod cap = pos mod cap).
  { rewrite <- (Z.mod_add pos 1 cap) by lia. f_equal. lia. }
  rewrite wrap_small by lia.
  eapply inv_write; try done; simpl; try lia.
  - exists (pos + cap). rewrite index_of_mod. split_and!; try done; try lia.
    left. simpl. split_and!; [done|lia|done].
  - right. split; [done|]. intros pos' Hm. unfold busy. simpl.
    pose proof (mod_succ_neq (pos + cap) pos'). rewrite Hround in *. lia.
  - intros w Hw. by apply qi_taken0.
Qed.

(** ** Every step keeps the invariant *)
Lemma push_step_inv s t weak p p' q' :
  queue_inv s -> Z.of_nat (length (give p p' (given s))) <= 2 ^ 62 ->
  threads s !! t = Some p -> push_step cap weak p (queue s) = Some (p', q') ->
  queue_inv (mkSystem q' (<[t := p']> (threads s)) (give p p' (given s)) (take_ghost p p' (taken s))).
Proof using Hk.
  intros Hinv Hlen Ht Hstep. pose proof (qi_threads _ Hinv _ _ Ht) as Hp. pose proof Hinv as [].
  assert (Hl : claim p = None -> forall p0, threads s !! t = Some p0 -> claim p0 = None).
  { intros. by simplify_eq. }
  destruct p as [|v|v pos|v pos seq|v pos|pos| | | | | | |]; simpl in *; simplify_eq.
  - apply inv_local; simpl; auto. lia.
  - destruct (cell_at cap pos (queue s)) as [c|] eqn:Hc; simplify_eq/=.
    apply inv_local; simpl; eauto with lia.
  - destruct Hp as (Hpos & c & Hc & Hle).
    destruct (Z.eqb_spec seq pos) as [->|];
      [|destruct (before seq pos); simplify_eq/=; by apply inv_local; auto].
    destruct (weak || _) eqn:Hcas in Hstep; simplify_eq/=; [apply inv_local; simpl; auto; lia|].
    assert (pos = enqueue_pos (queue s)) as -> by (destruct weak; simpl in *; lia).
    rewrite length_app in Hlen. simpl in Hlen. rewrite wrap_small by lia.
    eapply inv_claim_push; eauto.
  - destruct Hp as (Hpos & Hc & Hg). rewrite Hc in Hstep. simplify_eq/=.
    eapply inv_write; try done; simpl; try lia.
    + destruct (qi_cells0 _ _ Hc) as (p & Hmod & ? & ? & Hcase). exists p. split_and!; try done; try lia.
      rewrite index_of_mod in Hmod. pose proof (mod_succ_neq pos p (eq_sym Hmod)). simpl in *. left. 
      split_and!; lia.
    + by left.
    + split; [lia|]. erewrite cell_at_set by done. rewrite decide_True by done. by rewrite Hg.
    + intros w Hw. by apply qi_taken0.
  - destruct Hp as (Hpos & Hc). rewrite Hc in Hstep. simplify_eq/=. by apply inv_publish.
Qed.

Lemma pop_step_inv s t weak p p' q' :
  queue_inv s -> Z.of_nat (length (give p p' (given s))) <= 2 ^ 62 ->
  threads s !! t = Some p -> pop_step cap weak p (queue s) = Some (p', q') ->
  queue_inv (mkSystem q' (<[t := p']> (threads s)) (give p p' (given s)) (take_ghost p p' (taken s))).
Proof using Hk.
  intros Hinv Hlen Ht Hstep. pose proof (qi_threads _ Hinv _ _ Ht) as Hp. pose proof Hinv as [].
  assert (Hl : claim p = None -> forall p0, threads s !! t = Some p0 -> claim p0 = None).
  { intros. by simplify_eq. }
  destruct p as [| | | | | | | |pos|pos seq|pos|pos v|]; simpl in *; simplify_eq.
  - apply inv_local; simpl; auto. lia.
  - destruct (cell_at cap pos (queue s)) as [c|] eqn:Hc; simplify_eq/=.
    apply inv_local; simpl; eauto with lia.
  - destruct Hp as (Hpos & c & Hc & Hle). rewrite (wrap_small (pos + 1)) in Hstep by lia.
    destruct (Z.eqb_spec seq (pos + 1)) as [->|];
      [|destruct (before seq (pos + 1)); simplify_eq/=; by apply inv_local; auto].
    destruct (weak || _) eqn:Hcas in Hstep; simplify_eq/=; [apply inv_local; simpl; auto; lia|].
    assert (pos = dequeue_pos (queue s)) as -> by (destruct weak; simpl in *; lia).
    eapply inv_claim_pop; eauto.
  - destruct Hp as (Hpos & Hc & Hg). rewrite Hc in Hstep. simpl in Hstep.
    destruct (given s !! Z.to_nat pos) as [v|] eqn:Hv; simplify_eq/=.
    eapply inv_write; try done; simpl; try lia.
    + destruct (qi_cells0 _ _ Hc) as (p & Hmod & ? & ? & Hcase). exists p. split_and!; try done; try lia.
      rewrite index_of_mod in Hmod. pose proof (mod_succ_neq p pos Hmod). simpl in *. right.
      split_and!; lia.
    + by left.
    + split; [lia|]. erewrite cell_at_set by done. by rewrite decide_True.
    + intros pos' Hne. by rewrite lookup_insert_ne.
    + intros w. rewrite lookup_insert_eq. intros ?. by simplify_eq.
    + by rewrite lookup_insert_eq.
  - destruct Hp as (Hpos & Hc & Hg). rewrite Hc in Hstep. simplify_eq/=. by apply inv_release.
Qed.

Lemma step_inv s s' :
  queue_inv s -> queue_step cap s s' -> Z.of_nat (length (given s')) <= 2 ^ 62 -> queue_inv s'.
Proof using Hk.
  intros Hinv Hs. revert Hinv. destruct Hs as [s0 t p Hrest Hcall|s0 t weak p p' q' Ht Hstep];
    intros Hinv Hlen; simpl in *.
  - apply inv_local; [done| | |].
    + by destruct p.
    + by destruct p.
    + intros p0 Hp0. destruct Hrest as [?|(p1 & Hp1 & Hrest)]; [congruence|].
      rewrite Hp1 in Hp0. injection Hp0 as <-. by destruct p1.
  - unfold thread_step in Hstep. destruct (push_step cap weak p (queue s0)) as [[]|] eqn:Hpush;
      simplify_eq; eauto using push_step_inv, pop_step_inv.
Qed.

Lemma mpmc_init_inv : queue_inv (system_init cap).
Proof using Hk.
  pose proof cap_range. split; simpl; try done; try lia.
  - by rewrite length_fmap, length_seq.
  - intros i c. rewrite list_lookup_fmap_Some. intros (n & -> & [-> Hn]%lookup_seq).
    exists (Z.of_nat i). simpl. split_and!; try lia.
    + apply Z.mod_small. lia.
    + left. split_and!; [done|lia|done].
  - intros pos c _ [[]|[]]; simpl in *; lia.
Qed.

Lemma step_given (s s' : system T) : queue_step cap s s' -> given s `prefix_of` given s'.
Proof.
  intros [s0 t p|s0 t weak p p' q']; simpl; [done|]. unfold give.
  repeat case_match; try done; by eexists.
Qed.

Lemma reachable_inv (s : system T) :
  rtc (queue_step cap) (system_init cap) s -> Z.of_nat (length (given s)) <= 2 ^ 62 -> queue_inv s.
Proof using Hk.
  intros Hs. pattern s. revert s Hs. apply rtc_ind_r; [intros _; apply mpmc_init_inv|].
  intros s s' _ Hstep IH Hlen. eapply step_inv; [apply IH|done|done].
  apply step_given, prefix_length in Hstep. lia.
Qed.

(** ** The theorems *)

(** At most [Capacity] positions are claimed and not yet dequeued. *)
Lemma occupancy s : queue_inv s -> enqueue_pos (queue s) - dequeue_pos (queue s) <= cap.
Proof using Hk.
  intros Hinv. pose proof cap_range. pose proof Hinv as [].
  destruct (cell_at_is_Some s (dequeue_pos (queue s)) Hinv) as [c Hc].
  destruct (qi_cells0 _ _ Hc) as (p & Hmod & Hp & HE & Hcase). rewrite index_of_mod in Hmod.
  destruct (decide (p <= dequeue_pos (queue s))); [lia|].
  pose proof (mod_close p (dequeue_pos (queue s)) Hmod). lia.
Qed.

(** [C11] Under every interleaving of any number of producers and consumers (fewer than 2^62
    pushes): the value taken at the n-th dequeue position is the n-th value pushed, a
    dequeue position that has been claimed either has its value or is being read, no
    more than [Capacity] values are in flight, a producer constructs its object in a cell
    that holds none, and a consumer always finds the object of its position. *)
Theorem mpmc_fifo (s : system T) :
  rtc (queue_step cap) (system_init cap) s -> Z.of_nat (length (given s)) <= 2 ^ 62 ->
  (forall pos v, taken s !! pos = Some v ->
     0 <= pos < dequeue_pos (queue s) /\ given s !! Z.to_nat pos = Some v) /\
  (forall pos, 0 <= pos < dequeue_pos (queue s) -> taken s !! pos = None ->
     exists t, threads s !! t = Some (PopRead pos)) /\
  0 <= dequeue_pos (queue s) <= enqueue_pos (queue s) /\
  enqueue_pos (queue s) = Z.of_nat (length (given s)) /\
  enqueue_pos (queue s) - dequeue_pos (queue s) <= cap /\
  (forall t v pos, threads s !! t = Some (PushWrite v pos) ->
     storage <$> cell_at cap pos (queue s) = Some None) /\
  (forall t pos weak, threads s !! t = Some (PopRead pos) ->
     exists v q', given s !! Z.to_nat pos = Some v /\
       thread_step cap weak (PopRead pos) (queue s) = Some (PopRelease pos v, q')).
Proof using Hk.
  intros Hs Hlen. pose proof (reachable_inv s Hs Hlen) as Hinv. pose proof (occupancy s Hinv).
  pose proof Hinv as []. split_and!; try done; try lia.
  - intros t v pos Ht. apply qi_threads0 in Ht as (_ & Hc & _). by rewrite Hc.
  - intros t pos weak Ht. apply qi_threads0 in Ht as (Hpos & Hc & _).
    assert (exists v, given s !! Z.to_nat pos = Some v) as [v Hv] by (apply lookup_lt_is_Some; lia).
    exists v. eexists. split; [done|]. unfold thread_step. simpl. by rewrite Hc, Hv.
Qed.

(** [n] accesses of one thread while the others rest, without spurious failures. *)
Fixpoint run_alone (n : nat) (p : pc T) (q : MpmcBoundedQueue T) : option (pc T * MpmcBoundedQueue T) :=
  match n with
  | O => Some (p, q)
  | S n => match thread_step cap false p q with
           | Some (p', q') => run_alone n p' q'
           | None => None
           end
  end.

Definition quiescent (s : system T) : Prop := forall t p, threads s !! t = Some p -> claim p = None.

Lemma quiescent_not_busy s pos c :
  queue_inv s -> quiescent s -> cell_at cap pos (queue s) = Some c -> ~ busy (queue s) pos c.
Proof.
  intros [] Hq Hc Hb. destruct (qi_busy0 _ _ Hc Hb) as (t & p & Ht & Hp). apply Hq in Ht. congruence.
Qed.

Lemma busy_index (q : MpmcBoundedQueue T) pos pos' c :
  index_of cap pos = index_of cap pos' -> cell_at cap pos q = Some c -> cell_at cap pos' q = Some c.
Proof. unfold cell_at. by intros ->. Qed.

(** The cell of the next enqueue and of the next dequeue position, at rest. *)
Lemma quiescent_enqueue_cell s c :
  queue_inv s -> quiescent s -> cell_at cap (enqueue_pos (queue s)) (queue s) = Some c ->
  sequence c = if enqueue_pos (queue s) - dequeue_pos (queue s) <? cap
               then enqueue_pos (queue s) else enqueue_pos (queue s) - cap + 1.
Proof using Hk.
  intros Hinv Hq Hc. pose proof cap_range. pose proof Hinv as []. pose proof (occupancy s Hinv).
  destruct (qi_cells0 _ _ Hc) as (p & Hmod & Hp & HE & Hcase). rewrite index_of_mod in Hmod.
  assert (Hnb : ~ busy (queue s) p c).
  { apply quiescent_not_busy; [done..|]. eapply busy_index; [|done]. by apply index_of_eq. }
  unfold busy in Hnb. set (E := enqueue_pos (queue s)) in *. set (D := dequeue_pos (queue s)) in *.
  assert (Hround : p mod cap = (E - cap) mod cap).
  { rewrite <- (Z.mod_add (E - cap) 1 cap) by lia. rewrite Hmod. f_equal. lia. }
  pose proof (mod_close p E Hmod). pose proof (mod_close p (E - cap) Hround).
  destruct (Z.ltb_spec (E - D) cap); destruct Hcase as [(?&?&_)|(?&?&_)]; lia.
Qed.

Lemma quiescent_dequeue_cell s c :
  queue_inv s -> quiescent s -> cell_at cap (dequeue_pos (queue s)) (queue s) = Some c ->
  if dequeue_pos (queue s) <? enqueue_pos (queue s)
  then sequence c = dequeue_pos (queue s) + 1 /\ storage c = given s !! Z.to_nat (dequeue_pos (queue s))
  else sequence c = dequeue_pos (queue s).
Proof using Hk.
  intros Hinv Hq Hc. pose proof cap_range. pose proof Hinv as [].
  destruct (qi_cells0 _ _ Hc) as (p & Hmod & Hp & HE & Hcase). rewrite index_of_mod in Hmod.
  assert (Hnb : ~ busy (queue s) p c).
  { apply quiescent_not_busy; [done..|]. eapply busy_index; [|done]. by apply index_of_eq. }
  unfold busy in Hnb. set (E := enqueue_pos (queue s)) in *. set (D := dequeue_pos (queue s)) in *.
  assert (p = D) as ->.
  { pose proof (mod_close p D Hmod). lia. }
  destruct (Z.ltb_spec D E); destruct Hcase as [(?&?&_)|(?&?&Hst)]; try lia.
  split; [done|]. apply Hst. lia.
Qed.

Lemma before_small a b : 0 <= a < 2 ^ 63 -> 0 <= b < 2 ^ 63 -> before a b = (a <? b).
Proof.
  intros Ha Hb. unfold before. change (u64_max / 2 + 1) with (2 ^ 63).
  destruct (Z.ltb_spec a b).
  - assert (wrap 64 (a - b) = a - b + 2 ^ 64) as ->.
    { unfold wrap. rewrite <- (Z.mod_add _ 1) by lia. rewrite Z.mod_small; lia. }
    lia.
  - rewrite wrap_id by (unfold fits; lia). lia.
Qed.

Lemma sequential_push s v :
  queue_inv s -> Z.of_nat (length (given s)) <= 2 ^ 62 -> quiescent s ->
  if mpmc_full cap (queue s)
  then run_alone 3 (PushLoad v) (queue s) = Some (PushDone false, queue s)
  else exists q', run_alone 5 (PushLoad v) (queue s) = Some (PushDone true, q') /\
         enqueue_pos q' = enqueue_pos (queue s) + 1 /\
         cell_at cap (enqueue_pos (queue s)) q' =
           Some (mkCell (enqueue_pos (queue s) + 1) (Some v)).
Proof using Hk.
  intros Hinv Hlen Hq. pose proof cap_range. pose proof (occupancy s Hinv). pose proof Hinv as [].
  destruct (cell_at_is_Some s (enqueue_pos (queue s)) Hinv) as [c Hc].
  pose proof (quiescent_enqueue_cell s c Hinv Hq Hc) as Hs.
  destruct s as [[b D E] th g tk]. unfold mpmc_full. simpl in *. rewrite wrap_small by lia.
  destruct (Z.leb_spec cap (E - D)); destruct (Z.ltb_spec (E - D) cap); try lia.
  - unfold thread_step. simpl. rewrite Hc. simpl. rewrite Hs.
    rewrite before_small by lia. destruct (Z.eqb_spec (E - cap + 1) E); [lia|].
    by destruct (Z.ltb_spec (E - cap + 1) E); [|lia].
  - unfold thread_step. simpl. rewrite Hc. simpl. rewrite Hs, Z.eqb_refl. simpl.
    change (cell_at cap E (mkQueue b D (wrap 64 (E + 1)))) with (cell_at cap E (mkQueue b D E)).
    rewrite Hc. simpl. erewrite cell_at_set by (exact Hc).
    rewrite decide_True by done. simpl. rewrite !wrap_small by lia.
    eexists. split_and!; [done|done|]. erewrite cell_at_set; [by rewrite decide_True|].
    erewrite cell_at_set by (exact Hc). by rewrite decide_True.
Qed.

Lemma sequential_pop s :
  queue_inv s -> Z.of_nat (length (given s)) <= 2 ^ 62 -> quiescent s ->
  if mpmc_empty (queue s)
  then run_alone 3 PopLoad (queue s) = Some (PopDone None, queue s)
  else exists w q', given s !! Z.to_nat (dequeue_pos (queue s)) = Some w /\
         run_alone 5 PopLoad (queue s) = Some (PopDone (Some w), q') /\
         dequeue_pos q' = dequeue_pos (queue s) + 1 /\
         cell_at cap (dequeue_pos (queue s)) q' = Some (mkCell (dequeue_pos (queue s) + cap) None).
Proof using Hk.
  intros Hinv Hlen Hq. pose proof cap_range. pose proof Hinv as [].
  destruct (cell_at_is_Some s (dequeue_pos (queue s)) Hinv) as [c Hc].
  pose proof (quiescent_dequeue_cell s c Hinv Hq Hc) as Hs.
  destruct s as [[b D E] th g tk]. unfold mpmc_empty. simpl in *.
  destruct (Z.eqb_spec D E); destruct (Z.ltb_spec D E); try lia.
  - unfold thread_step. simpl. rewrite Hc. simpl. rewrite Hs, wrap_small by lia.
    rewrite before_small by lia. destruct (Z.eqb_spec D (D + 1)); [lia|].
    by destruct (Z.ltb_spec D (D + 1)); [|lia].
  - destruct Hs as [Hs Hst].
    assert (exists w, g !! Z.to_nat D = Some w) as [w Hw] by (apply lookup_lt_is_Some; lia).
    unfold thread_step. simpl. rewrite Hc. simpl. rewrite Hs, wrap_small, Z.eqb_refl by lia. simpl.
    rewrite Z.eqb_refl. simpl.
    change (cell_at cap D (mkQueue b (D + 1) E)) with (cell_at cap D (mkQueue b D E)).
    rewrite Hc. simpl. rewrite Hst, Hw. simpl. erewrite cell_at_set by (exact Hc).
    rewrite decide_True by done. simpl. rewrite !wrap_small by lia.
    eexists _, _. split_and!; [done|done|done|]. erewrite cell_at_set; [by rewrite decide_True|].
    erewrite cell_at_set by (exact Hc). by rewrite decide_True.
Qed.

(** At rest [try_push] fails exactly when [full()] and [try_pop] exactly when [empty()];
    otherwise they succeed, in five accesses, and [try_pop] returns the oldest value. *)
Theorem mpmc_sequential (s : system T) (v : T) :
  rtc (queue_step cap) (system_init cap) s -> Z.of_nat (length (given s)) <= 2 ^ 62 -> quiescent s ->
  (if mpmc_full cap (queue s)
   then run_alone 3 (PushLoad v) (queue s) = Some (PushDone false, queue s)
   else exists q', run_alone 5 (PushLoad v) (queue s) = Some (PushDone true, q') /\
          enqueue_pos q' = enqueue_pos (queue s) + 1 /\
          cell_at cap (enqueue_pos (queue s)) q' =
            Some (mkCell (enqueue_pos (queue s) + 1) (Some v))) /\
  (if mpmc_empty (queue s)
   then run_alone 3 PopLoad (queue s) = Some (PopDone None, queue s)
   else exists w q', given s !! Z.to_nat (dequeue_pos (queue s)) = Some w /\
          run_alone 5 PopLoad (queue s) = Some (PopDone (Some w), q') /\
          dequeue_pos q' = dequeue_pos (queue s) + 1 /\
          cell_at cap (dequeue_pos (queue s)) q' = Some (mkCell (dequeue_pos (queue s) + cap) None)).
Proof using Hk.
  intros Hs Hlen Hq. pose proof (reachable_inv s Hs Hlen) as Hinv.
  split; [by apply sequential_push|by apply sequential_pop].
Qed.

(** ** Schedules *)
Inductive action : Type :=
  | Call (t : nat) (p : pc T)
  | Run (t : nat) (weak : bool).

Definition do_action (s : system T) (a : action) : option (system T) :=
  match a with
  | Call t p =>
      match threads s !! t with
      | None | Some Idle | Some (PushDone _) | Some (PopDone _) =>
          match p with
          | PushLoad _ | PopLoad =>
              Some (mkSystem (queue s) (<[t := p]> (threads s)) (given s) (taken s))
          | _ => None
          end
      | _ => None
      end
  | Run t weak =>
      match threads s !! t with
      | Some p =>
          match thread_step cap weak p (queue s) with
          | Some (p', q') =>
              Some (mkSystem q' (<[t := p']> (threads s)) (give p p' (given s))
                      (take_ghost p p' (taken s)))
          | None => None
          end
      | None => None
      end
  end.

Fixpoint schedule (l : list action) (s : system T) : option (system T) :=
  match l with
  | [] => Some s
  | a :: l => match do_action s a with Some s' => schedule l s' | None => None end
  end.

Lemma do_action_step s a s' : do_action s a = Some s' -> queue_step cap s s'.
Proof.
  destruct a as [t p|t weak]; simpl.
  - destruct (threads s !! t) as [p0|] eqn:Ht.
    + intros H. assert (Hp : match p with PushLoad _ | PopLoad => True | _ => False end)
        by (destruct p0, p; done).
      assert (Some s' = Some (mkSystem (queue s) (<[t := p]> (threads s)) (given s) (taken s)))
        by (destruct p0, p; done). simplify_eq. apply step_call; [|done].
      right. exists p0. split; [done|]. by destruct p0.
    + destruct p; intros; simplify_eq; (apply step_call; [by left|done]).
  - destruct (threads s !! t) as [p|] eqn:Ht; [|done].
    destruct (thread_step cap weak p (queue s)) as [[p' q']|] eqn:Hs; [|done].
    intros; simplify_eq. by eapply step_thread.
Qed.

Lemma schedule_rtc l s s' : schedule l s = Some s' -> rtc (queue_step cap) s s'.
Proof.
  revert s. induction l as [|a l IH]; simpl; intros s H; [by simplify_eq|].
  destruct (do_action s a) as [s1|] eqn:Ha; [|done]. eapply rtc_l; eauto using do_action_step.
Qed.
End proofs.

(** ** Witnesses: two producers and a consumer on a queue of two cells *)
Module MpmcDemo.
Definition runs (t n : nat) : list (action (T := Z)) := replicate n (Run t false).

(** Thread 1 claims position 0, thread 2 pushes 20 at position 1 before thread 1
    publishes 10; thread 3 then claims position 0. *)
Definition demo : list (action (T := Z)) :=
  Call 1 (PushLoad 10) :: runs 1 3 ++ Call 2 (PushLoad 20) :: runs 2 5 ++ runs 1 2
  ++ Call 3 PopLoad :: runs 3 3.

Definition reach (l : list action) : system Z :=
  match schedule 1 l (system_init (cap 1)) with Some s => s | None => system_init (cap 1) end.

Lemma reach_rtc l :
  schedule 1 l (system_init (cap 1)) <> None ->
  rtc (queue_step (cap 1)) (system_init (cap 1)) (reach l).
Proof.
  intros H. apply (schedule_rtc 1 l). unfold reach.
  by destruct (schedule 1 l (system_init (cap 1))).
Qed.

Lemma mpmc_fifo_witness :
  threads (reach demo) !! 3%nat = Some (PopRead 0) /\ given (reach demo) = [10; 20] /\
  (exists v q', given (reach demo) !! 0%nat = Some v /\
     thread_step (cap 1) false (PopRead 0) (queue (reach demo)) = Some (PopRelease 0 v, q')).
Proof.
  split; [reflexivity|]. split; [reflexivity|].
  destruct (mpmc_fifo 1 ltac:(lia) (reach demo)) as (_ & _ & _ & _ & _ & _ & H).
  - apply reach_rtc. by vm_compute.
  - vm_compute. discriminate.
  - apply (H 3%nat 0 false). reflexivity.
Defined.

Lemma mpmc_sequential_witness :
  let s := reach (demo ++ runs 3 2) in
  exists w q', given s !! 1%nat = Some w /\
    run_alone 1 5 PopLoad (queue s) = Some (PopDone (Some w), q').
Proof.
  destruct (mpmc_sequential 1 ltac:(lia) (reach (demo ++ runs 3 2)) 30) as [_ H].
  - apply reach_rtc. by vm_compute.
  - vm_compute. discriminate.
  - assert (threads (reach (demo ++ runs 3 2)) =
      <[3%nat := PopDone (Some 10)]> (<[2%nat := PushDone true]> {[1%nat := PushDone true]})) as Ht
      by reflexivity.
    intros t p. rewrite Ht, !lookup_insert_Some, lookup_singleton_Some.
    intros [[_ <-]|[_ [[_ <-]|[_ [_ <-]]]]]; done.
  - change (mpmc_empty (queue (reach (demo ++ runs 3 2)))) with false in H.
    destruct H as (w & q' & Hw & Hr & _). exists w, q'. split; [exact Hw|exact Hr].
Defined.
End MpmcDemo.
