(* ===== verification/SizeClass.v ===== *)
(** The size classes of the allocator: myring/include/tcmalloc/SizeClass.hpp.

    The table is the source's own; a class index is a [nat], and an index past the table
    (the source's assertion) is [None]. *)
From Stdlib Require Import Sorted.
From S2P Require Import Prelude.

Module SizeClass.
Definition kPageSize : Z := 8 * 1024.
Definition kMaxSmallSize : Z := 8 * 1024.
Definition kAlignment : Z := 8.

Definition kClassSizes : list Z :=
  [8; 16; 24; 32; 40; 48; 56; 64;
   80; 96; 112; 128;
   160; 192; 224; 256;
   320; 384; 448; 512;
   640; 768; 896; 1024;
   1280; 1536; 1792; 2048;
   2560; 3072; 3584; 4096;
   5120; 6144; 7168; 8192].

Definition kNumClasses : nat := length kClassSizes.
Definition kLookupCount : nat := Z.to_nat (kMaxSmallSize / kAlignment).

(** Additions on [size_t] wrap around. *)
Definition round_up_to_alignment (size : Z) : Z :=
  wrap 64 (wrap 64 (size + kAlignment - 1) / kAlignment * kAlignment).

Fixpoint find_class_from (i : nat) (sizes : list Z) (rounded_size : Z) : nat :=
  match sizes with
  | [] => kNumClasses
  | c :: sizes => if rounded_size <=? c then i else find_class_from (S i) sizes rounded_size
  end.

Definition find_class_index_slow (rounded_size : Z) : nat := find_class_from 0 kClassSizes rounded_size.

Definition build_class_index_by_size : list nat :=
  (fun slot => find_class_index_slow ((Z.of_nat slot + 1) * kAlignment)) <$> seq 0 kLookupCount.

Definition is_small (size : Z) : bool := (0 <? size) && (size <=? kMaxSmallSize).

Definition index (size : Z) : option nat :=
  if negb (is_small size) then Some kNumClasses
  else
    let rounded := round_up_to_alignment size in
    build_class_index_by_size !! Z.to_nat (rounded / kAlignment - 1).

Definition class_size (class_index : nat) : option Z := kClassSizes !! class_index.

Definition round_up (size : Z) : option Z :=
  match index size with
  | Some idx => if Nat.eqb idx kNumClasses then Some size else class_size idx
  | None => None
  end.

Definition batch_count (class_index : nat) : option Z :=
  match class_size class_index with
  | Some size =>
      let count := 64 * 1024 / size in
      let count := if count <? 2 then 2 else count in
      Some (if 64 <? count then 64 else count)
  | None => None
  end.

Definition pages_for_class (class_index : nat) : option Z :=
  match class_size class_index, batch_count class_index with
  | Some size, Some batch =>
      let need_bytes := wrap 64 (size * batch) in
      let need_bytes := if need_bytes <? 64 * 1024 then 64 * 1024 else need_bytes in
      let pages := wrap 64 (need_bytes + kPageSize - 1) / kPageSize in
      Some (if pages =? 0 then 1 else pages)
  | _, _ => None
  end.

(** ** The lookup table against its specification *)

(** What [index] promises for a small size: the first class that holds it, with a
    fifth of the block, or seven bytes, wasted at most. *)
Definition fits_class (size : Z) (idx : nat) : bool :=
  match class_size idx with
  | Some c =>
      (size <=? c) && (c mod kAlignment =? 0) &&
      (((c - size) * 5 <? c) || (c - size <? kAlignment)) &&
      match idx with
      | O => true
      | S j => match class_size j with Some c' => c' <? size | None => false end
      end
  | None => false
  end.

Definition check_slot (table : list nat) (size : Z) : bool :=
  match table !! Z.to_nat (round_up_to_alignment size / kAlignment - 1) with
  | Some idx => fits_class size idx
  | None => false
  end.

Definition check_sizes (table : list nat) : bool :=
  forallb (fun n => check_slot table (Z.of_nat n)) (seq 1 (Z.to_nat kMaxSmallSize)).

Lemma check_sizes_ok : check_sizes build_class_index_by_size = true.
Proof. vm_compute. reflexivity. Qed.

Lemma check_sizes_slot table size :
  check_sizes table = true -> 1 <= size <= kMaxSmallSize -> check_slot table size = true.
Proof.
  unfold check_sizes. rewrite forallb_forall. intros Hall Hs.
  specialize (Hall (Z.to_nat size)). rewrite Z2Nat.id in Hall by lia. apply Hall.
  rewrite in_seq. lia.
Qed.

Lemma index_small size :
  is_small size = true -> exists idx, index size = Some idx /\ fits_class size idx = true.
Proof.
  intros Hs. assert (1 <= size <= kMaxSmallSize) as Hr by (unfold is_small in Hs; lia).
  pose proof (check_sizes_slot _ size check_sizes_ok Hr) as Hc. unfold check_slot in Hc.
  unfold index. rewrite Hs. unfold negb. cbv zeta.
  generalize dependent build_class_index_by_size. intros table Hc.
  destruct (table !! Z.to_nat (round_up_to_alignment size / kAlignment - 1)) as [idx|]; [|done].
  by exists idx.
Qed.

Lemma class_sizes_sorted i j a b :
  (i < j)%nat -> class_size i = Some a -> class_size j = Some b -> a < b.
Proof.
  intros Hij Ha Hb.
  assert (Hs : StronglySorted Z.lt kClassSizes).
  { unfold kClassSizes. repeat (constructor; [|repeat (constructor; [lia|]); constructor]). constructor. }
  unfold class_size in *. clear -Hij Ha Hb Hs. revert i j Hij Ha Hb.
  induction Hs as [|x l Hs IH Hx]; intros [|i] [|j] Hij Ha Hb; simplify_eq/=; try lia.
  - rewrite Forall_lookup in Hx. eauto.
  - eapply (IH i j); [lia|done|done].
Qed.

Lemma fits_class_spec size idx :
  fits_class size idx = true ->
  exists c, class_size idx = Some c /\ size <= c /\ c mod kAlignment = 0 /\
    ((c - size) * 5 < c \/ c - size < kAlignment) /\
    (forall j c', (j < idx)%nat -> class_size j = Some c' -> c' < size).
Proof.
  unfold fits_class. destruct (class_size idx) as [c|] eqn:Hc; [|done].
  rewrite !andb_true_iff, orb_true_iff. intros [[[H1 H2] H3] H4]. exists c.
  split_and!; [done|lia|lia|lia|]. intros j c' Hj Hc'. destruct idx as [|i]; [lia|].
  destruct (class_size i) as [ci|] eqn:Hci; [|done].
  destruct (decide (j = i)) as [->|]; [simplify_eq; lia|].
  pose proof (class_sizes_sorted j i c' ci ltac:(lia) Hc' Hci). lia.
Qed.

(** Every request of 1 to 8192 bytes is served from a class of the table: its block is at
    least as large as the request and 8-byte aligned, the class below is too small, and
    less than a fifth of the block (or less than 8 bytes) is wasted. *)
Theorem size_class_index size :
  is_small size = true ->
  exists idx c, index size = Some idx /\ (idx < kNumClasses)%nat /\ class_size idx = Some c /\
    round_up size = Some c /\ size <= c /\ c mod kAlignment = 0 /\
    ((c - size) * 5 < c \/ c - size < kAlignment) /\
    (forall j c', (j < idx)%nat -> class_size j = Some c' -> c' < size).
Proof.
  intros Hs. destruct (index_small size Hs) as (idx & Hi & Hc).
  pose proof (fits_class_spec size idx Hc) as (c & Hcl & Hrest).
  assert (idx < kNumClasses)%nat by (by apply lookup_lt_Some in Hcl).
  exists idx, c. split_and!; try done; try apply Hrest.
  unfold round_up. rewrite Hi. destruct (Nat.eqb_spec idx kNumClasses); [lia|done].
Qed.

Lemma size_class_index_witness :
  is_small 129 = true /\ exists idx c, index 129 = Some idx /\ class_size idx = Some c /\ 129 <= c.
Proof.
  split; [reflexivity|].
  destruct (size_class_index 129 eq_refl) as (idx & c & H1 & _ & H2 & _ & H3 & _).
  exists idx, c. split; [exact H1|]. split; [exact H2|exact H3].
Defined.

(** Every class moves between 2 and 64 objects at a time, at most 64 KiB of them, and the
    span the central cache asks for is whole pages that hold at least one batch. *)
Theorem size_class_span idx size :
  class_size idx = Some size ->
  exists batch pages, batch_count idx = Some batch /\ pages_for_class idx = Some pages /\
    2 <= batch <= 64 /\ batch * size <= 64 * 1024 /\ 1 <= pages /\
    batch * size <= pages * kPageSize /\ pages * kPageSize = 64 * 1024.
Proof.
  intros Hc.
  assert (Hall : forallb (fun size =>
    match (let count := 64 * 1024 / size in
           let count := if count <? 2 then 2 else count in
           if 64 <? count then 64 else count) with
    | batch => (2 <=? batch) && (batch <=? 64) && (batch * size <=? 64 * 1024) && (0 <=? batch * size)
    end) kClassSizes = true) by (vm_compute; reflexivity).
  rewrite forallb_forall in Hall.
  specialize (Hall size (proj1 (list_elem_of_In _ _) (list_elem_of_lookup_2 _ _ _ Hc))).
  unfold pages_for_class, batch_count. rewrite Hc. cbv zeta in *.
  set (batch := if 64 <? _ then 64 else _) in *. clearbody batch.
  rewrite !andb_true_iff in Hall. destruct Hall as [[[H1 H2] H3] H4].
  eexists _, _. split; [done|]. split; [done|].
  rewrite (wrap_id 64 (size * batch)) by (unfold fits; lia).
  assert ((if size * batch <? 64 * 1024 then 64 * 1024 else size * batch) = 64 * 1024) as ->.
  { destruct (Z.ltb_spec (size * batch) (64 * 1024)); lia. }
  change (wrap 64 (64 * 1024 + kPageSize - 1) / kPageSize) with 8. simpl (8 =? 0). cbv iota.
  unfold kPageSize. lia.
Qed.

Lemma size_class_span_witness :
  class_size 35 = Some 8192 /\ exists batch pages, batch_count 35 = Some batch /\
    pages_for_class 35 = Some pages /\ batch * 8192 <= pages * kPageSize.
Proof.
  split; [reflexivity|].
  destruct (size_class_span 35 8192 eq_refl) as (batch & pages & H1 & H2 & _ & _ & _ & H3 & _).
  exists batch, pages. split; [exact H1|]. split; [exact H2|exact H3].
Defined.
End SizeClass.
