(* ===== verification/PageHeap.v ===== *)
(** The page heap of the allocator: myring/src/tcmalloc/PageHeap.cpp and
    myring/include/tcmalloc/{PageHeap,Span}.hpp.

    A [Span*] is a handle into the store [objects] of live span objects; following a handle
    of a deleted object is [None], and so is every operation that does it.  Memory from the
    system is an argument, and calls of [operator new] and [operator delete] are recorded.
    The bookkeeping containers are assumed not to run out of memory, so that the
    [catch] branches for them are not taken.  Page numbers are addresses divided by the
    page size; they and their sums stay far below 2^64. *)
From S2P Require Import Prelude SizeClass.

Import SizeClass(kPageSize).

(** ** Spans *)

(** [struct Span]; its [next] and [prev] pointers are never used. *)
Record Span := mkSpan {
  sp_start : Z;
  sp_page_count : Z;
  sp_bytes : Z;
  sp_allocation_base : Z;
  sp_allocation_bytes : Z;
  sp_class_index : Z;
  sp_object_size : Z;
  sp_object_count : Z;
  sp_central_free_count : Z;
}.

Definition kInvalidSizeClass : Z := u64_max.

Definition span_end (s : Span) : Z := sp_start s + sp_bytes s.

Definition contains (ptr : Z) (s : Span) : bool := (sp_start s <=? ptr) && (ptr <? span_end s).

Definition is_whole_allocation (s : Span) : bool :=
  (sp_start s =? sp_allocation_base s) && (sp_bytes s =? sp_allocation_bytes s).

Definition with_object_info (idx size count free : Z) (s : Span) : Span :=
  {| sp_start := sp_start s; sp_page_count := sp_page_count s; sp_bytes := sp_bytes s;
     sp_allocation_base := sp_allocation_base s; sp_allocation_bytes := sp_allocation_bytes s;
     sp_class_index := idx; sp_object_size := size; sp_object_count := count;
     sp_central_free_count := free |}.

Definition bind_size_class (idx obj_size : Z) (s : Span) : Span :=
  if obj_size =? 0 then with_object_info idx obj_size 0 0 s
  else with_object_info idx obj_size (sp_bytes s / obj_size) (sp_bytes s / obj_size) s.

Definition reset_object_info (s : Span) : Span := with_object_info kInvalidSizeClass 0 0 0 s.

(** The same span with another extent. *)
Definition resize (pages bytes : Z) (s : Span) : Span :=
  {| sp_start := sp_start s; sp_page_count := pages; sp_bytes := bytes;
     sp_allocation_base := sp_allocation_base s; sp_allocation_bytes := sp_allocation_bytes s;
     sp_class_index := sp_class_index s; sp_object_size := sp_object_size s;
     sp_object_count := sp_object_count s; sp_central_free_count := sp_central_free_count s |}.

Definition fresh_span (start pages bytes base abytes : Z) : Span :=
  {| sp_start := start; sp_page_count := pages; sp_bytes := bytes;
     sp_allocation_base := base; sp_allocation_bytes := abytes;
     sp_class_index := kInvalidSizeClass; sp_object_size := 0; sp_object_count := 0;
     sp_central_free_count := 0 |}.

(** ** The heap *)

Record PageHeap := mkHeap {
  objects : gmap nat Span;
  next_object : nat;
  spans : list nat;
  page_to_span : gmap Z nat;
  free_spans_by_pages : gmap Z (list nat);
  cached_start_page_to_span : gmap Z nat;
  cached_end_page_to_span : gmap Z nat;
  active_bytes : Z;
  cached_bytes : Z;
  system_bytes : Z;
}.

(** [operator new] and [operator delete] of a block. *)
Inductive SysAction : Type :=
  | SysAlloc (base size : Z)
  | SysFree (base : Z).

Definition heap_init : PageHeap :=
  {| objects := ∅; next_object := 0; spans := []; page_to_span := ∅; free_spans_by_pages := ∅;
     cached_start_page_to_span := ∅; cached_end_page_to_span := ∅;
     active_bytes := 0; cached_bytes := 0; system_bytes := 0 |}.

Definition with_objects (o : gmap nat Span) (H : PageHeap) : PageHeap :=
  {| objects := o; next_object := next_object H; spans := spans H; page_to_span := page_to_span H;
     free_spans_by_pages := free_spans_by_pages H;
     cached_start_page_to_span := cached_start_page_to_span H;
     cached_end_page_to_span := cached_end_page_to_span H;
     active_bytes := active_bytes H; cached_bytes := cached_bytes H; system_bytes := system_bytes H |}.

Definition with_active (l : list nat) (m : gmap Z nat) (n : Z) (H : PageHeap) : PageHeap :=
  {| objects := objects H; next_object := next_object H; spans := l; page_to_span := m;
     free_spans_by_pages := free_spans_by_pages H;
     cached_start_page_to_span := cached_start_page_to_span H;
     cached_end_page_to_span := cached_end_page_to_span H;
     active_bytes := n; cached_bytes := cached_bytes H; system_bytes := system_bytes H |}.

Definition with_cached (f : gmap Z (list nat)) (cs ce : gmap Z nat) (n : Z) (H : PageHeap) : PageHeap :=
  {| objects := objects H; next_object := next_object H; spans := spans H;
     page_to_span := page_to_span H; free_spans_by_pages := f;
     cached_start_page_to_span := cs; cached_end_page_to_span := ce;
     active_bytes := active_bytes H; cached_bytes := n; system_bytes := system_bytes H |}.

Definition with_system (n : Z) (H : PageHeap) : PageHeap :=
  {| objects := objects H; next_object := next_object H; spans := spans H;
     page_to_span := page_to_span H; free_spans_by_pages := free_spans_by_pages H;
     cached_start_page_to_span := cached_start_page_to_span H;
     cached_end_page_to_span := cached_end_page_to_span H;
     active_bytes := active_bytes H; cached_bytes := cached_bytes H; system_bytes := n |}.

(** [span = new Span()], already filled in. *)
Definition new_object (s : Span) (H : PageHeap) : nat * PageHeap :=
  (next_object H,
   {| objects := <[next_object H := s]> (objects H); next_object := S (next_object H);
      spans := spans H; page_to_span := page_to_span H;
      free_spans_by_pages := free_spans_by_pages H;
      cached_start_page_to_span := cached_start_page_to_span H;
      cached_end_page_to_span := cached_end_page_to_span H;
      active_bytes := active_bytes H; cached_bytes := cached_bytes H;
      system_bytes := system_bytes H |}).

Definition update_object (h : nat) (s : Span) (H : PageHeap) : PageHeap :=
  with_objects (<[h := s]> (objects H)) H.

Definition delete_object (h : nat) (H : PageHeap) : PageHeap := with_objects (delete h (objects H)) H.

Definition page_id_of (ptr : Z) : Z := ptr / kPageSize.

Definition span_start_page (s : Span) : Z := page_id_of (sp_start s).

Definition span_end_page (s : Span) : Z := span_start_page s + sp_page_count s.

(** [counter >= bytes ? counter - bytes : 0] *)
Definition sub_sat (counter n : Z) : Z := if n <=? counter then counter - n else 0.

(** [std::find] and [erase]. *)
Fixpoint erase_first (h : nat) (l : list nat) : list nat :=
  match l with
  | [] => []
  | x :: l => if Nat.eqb x h then l else x :: erase_first h l
  end.

Fixpoint register_pages (n : nat) (page : Z) (h : nat) (m : gmap Z nat) : gmap Z nat :=
  match n with
  | O => m
  | S n => register_pages n (page + 1) h (<[page := h]> m)
  end.

Fixpoint unregister_pages (n : nat) (page : Z) (m : gmap Z nat) : gmap Z nat :=
  match n with
  | O => m
  | S n => unregister_pages n (page + 1) (delete page m)
  end.

(** [register_span_unlocked] and [unregister_span_unlocked], on the page map. *)
Definition register_span (h : nat) (s : Span) (m : gmap Z nat) : gmap Z nat :=
  if (sp_start s =? 0) || (sp_page_count s =? 0) then m
  else register_pages (Z.to_nat (sp_page_count s)) (page_id_of (sp_start s)) h m.

Definition unregister_span (s : Span) (m : gmap Z nat) : gmap Z nat :=
  if (sp_start s =? 0) || (sp_page_count s =? 0) then m
  else unregister_pages (Z.to_nat (sp_page_count s)) (page_id_of (sp_start s)) m.

Definition insert_cached_span (h : nat) (H : PageHeap) : option PageHeap :=
  s ← objects H !! h;
  let s := reset_object_info s in
  let H := update_object h s H in
  let list := default [] (free_spans_by_pages H !! sp_page_count s) in
  Some (with_cached (<[sp_page_count s := list ++ [h]]> (free_spans_by_pages H))
          (<[span_start_page s := h]> (cached_start_page_to_span H))
          (<[span_end_page s := h]> (cached_end_page_to_span H))
          (wrap 64 (cached_bytes H + sp_bytes s)) H).

Definition erase_from_list (h : nat) (n : Z) (f : gmap Z (list nat)) : gmap Z (list nat) :=
  match f !! n with
  | None => f
  | Some l => match erase_first h l with [] => delete n f | l' => <[n := l']> f end
  end.

Definition erase_cached_span (h : nat) (H : PageHeap) : option PageHeap :=
  s ← objects H !! h;
  Some (with_cached (erase_from_list h (sp_page_count s) (free_spans_by_pages H))
          (delete (span_start_page s) (cached_start_page_to_span H))
          (delete (span_end_page s) (cached_end_page_to_span H))
          (sub_sat (cached_bytes H) (sp_bytes s)) H).

Definition take_cached_span (page_count : Z) (H : PageHeap) : option (option nat * PageHeap) :=
  match free_spans_by_pages H !! page_count with
  | None => Some (None, H)
  | Some l =>
      match last l with
      | None => Some (None, with_cached (delete page_count (free_spans_by_pages H))
                  (cached_start_page_to_span H) (cached_end_page_to_span H) (cached_bytes H) H)
      | Some span => H ← erase_cached_span span H; Some (Some span, H)
      end
  end.

(** The loop of [take_larger_cached_span_unlocked]: the smallest page count above
    [page_count] with a non-empty list. *)
Fixpoint best_larger (page_count : Z) (items : list (Z * list nat)) (best_pages : Z)
    (best : option (list nat)) : option (list nat) :=
  match items with
  | [] => best
  | (pages, l) :: items =>
      match l with
      | [] => best_larger page_count items best_pages best
      | _ => if (page_count <? pages) && (pages <? best_pages)
             then best_larger page_count items pages (Some l)
             else best_larger page_count items best_pages best
      end
  end.

Definition split_span (h : nat) (needed_pages : Z) (H : PageHeap) : option (option nat * PageHeap) :=
  s ← objects H !! h;
  if (needed_pages =? 0) || (sp_page_count s <=? needed_pages) then Some (None, H)
  else
    let remain_pages := sp_page_count s - needed_pages in
    let remain_start := sp_start s + needed_pages * kPageSize in
    let '(remain, H) :=
      new_object (fresh_span remain_start remain_pages (wrap 64 (remain_pages * kPageSize))
                    (sp_allocation_base s) (sp_allocation_bytes s)) H in
    Some (Some remain,
          update_object h (reset_object_info
                             (resize needed_pages (wrap 64 (needed_pages * kPageSize)) s)) H).

Definition can_merge (left right : Span) : bool :=
  if negb (sp_allocation_base left =? sp_allocation_base right) ||
     negb (sp_allocation_bytes left =? sp_allocation_bytes right) then false
  else span_end left =? sp_start right.

(** [left] absorbs [right]. *)
Definition absorb (left right : Span) : Span :=
  reset_object_info (resize (wrap 64 (sp_page_count left + sp_page_count right))
                       (wrap 64 (sp_bytes left + sp_bytes right)) left).

(** The mergeable left, or else right, neighbour of a span among the cached ones. *)
Definition left_neighbour (s : Span) (H : PageHeap) : option (option (nat * Span)) :=
  match cached_end_page_to_span H !! span_start_page s with
  | None => Some None
  | Some l => sl ← objects H !! l; Some (if can_merge sl s then Some (l, sl) else None)
  end.

Definition right_neighbour (s : Span) (H : PageHeap) : option (option (nat * Span)) :=
  match cached_start_page_to_span H !! span_end_page s with
  | None => Some None
  | Some r => sr ← objects H !! r; Some (if can_merge s sr then Some (r, sr) else None)
  end.

(** [coalesce_span_unlocked]; every turn deletes a span object. *)
Fixpoint coalesce_span (fuel : nat) (h : nat) (H : PageHeap) : option (nat * PageHeap) :=
  match fuel with
  | O => None
  | S fuel =>
      s ← objects H !! h;
      l ← left_neighbour s H;
      match l with
      | Some (l, sl) =>
          H ← erase_cached_span l H;
          coalesce_span fuel l (delete_object h (update_object l (absorb sl s) H))
      | None =>
          r ← right_neighbour s H;
          match r with
          | Some (r, sr) =>
              H ← erase_cached_span r H;
              coalesce_span fuel h (delete_object r (update_object h (absorb s sr) H))
          | None => Some (h, H)
          end
      end
  end.

Definition cache_span (h : nat) (H : PageHeap) : option PageHeap :=
  s ← objects H !! h;
  let H := update_object h (reset_object_info s) H in
  r ← coalesce_span (S (size (objects H))) h H;
  let '(merged, H) := r in
  insert_cached_span merged H.

Definition free_whole_span_to_system (h : nat) (H : PageHeap) : option (list SysAction * PageHeap) :=
  s ← objects H !! h;
  Some (if is_whole_allocation s && negb (sp_allocation_base s =? 0)
        then [SysFree (sp_allocation_base s)] else [],
        delete_object h H).

(** [spans_.push_back(span); register_span_unlocked(span); active_bytes_ += span->bytes] *)
Definition activate (h : nat) (H : PageHeap) : option PageHeap :=
  s ← objects H !! h;
  Some (with_active (spans H ++ [h]) (register_span h s (page_to_span H))
          (wrap 64 (active_bytes H + sp_bytes s)) H).

Section heap.
Context `{!IterOrder Z (list nat)}.

Definition take_larger_cached_span (page_count : Z) (H : PageHeap) : option (option nat * PageHeap) :=
  match best_larger page_count (iter_map (free_spans_by_pages H)) u64_max None with
  | None => Some (None, H)
  | Some l =>
      span ← last l;
      H ← erase_cached_span span H;
      Some (Some span, H)
  end.

(** The first critical section of [new_span]. *)
Definition new_span_cached (page_count : Z) (H : PageHeap) : option (option nat * PageHeap) :=
  r ← take_cached_span page_count H;
  match r with
  | (Some cached, H) =>
      s ← objects H !! cached;
      H ← activate cached (update_object cached (reset_object_info s) H);
      Some (Some cached, H)
  | (None, H) =>
      r ← take_larger_cached_span page_count H;
      match r with
      | (Some larger, H) =>
          r ← split_span larger page_count H;
          let '(remain, H) := r in
          H ← match remain with Some remain => cache_span remain H | None => Some H end;
          H ← activate larger H;
          Some (Some larger, H)
      | (None, H) => Some (None, H)
      end
  end.

(** The second critical section, with the block [operator new] returned. *)
Definition new_span_system (page_count memory : Z) (H : PageHeap) : option (nat * PageHeap) :=
  let bytes := wrap 64 (page_count * kPageSize) in
  let '(span, H) := new_object (fresh_span memory page_count bytes memory bytes) H in
  H ← activate span H;
  Some (span, with_system (wrap 64 (system_bytes H + bytes)) H).

Definition page_count_ok (page_count : Z) : bool :=
  negb ((page_count =? 0) || (u64_max / kPageSize <? page_count)).

(** [new_span]; [memory] is what [operator new] returns if it is called. *)
Definition new_span (page_count : Z) (memory : option Z) (H : PageHeap)
    : option (option nat * list SysAction * PageHeap) :=
  if negb (page_count_ok page_count) then Some (None, [], H)
  else
    r ← new_span_cached page_count H;
    match r with
    | (Some span, H) => Some (Some span, [], H)
    | (None, H) =>
        match memory with
        | None => Some (None, [], H)
        | Some m =>
            r ← new_span_system page_count m H;
            let '(span, H) := r in
            Some (Some span, [SysAlloc m (wrap 64 (page_count * kPageSize))], H)
        end
    end.

Definition release_span (span : option nat) (H : PageHeap) : option (bool * PageHeap) :=
  match span with
  | None => Some (false, H)
  | Some h =>
      if negb (bool_decide (h ∈ spans H)) then Some (false, H)
      else
        s ← objects H !! h;
        let H := with_active (erase_first h (spans H)) (unregister_span s (page_to_span H))
                   (sub_sat (active_bytes H) (sp_bytes s)) H in
        H ← cache_span h H;
        Some (true, H)
  end.

Definition map_object_to_span (ptr : Z) (H : PageHeap) : option (option nat) :=
  if ptr =? 0 then Some None
  else
    match page_to_span H !! page_id_of ptr with
    | None => Some None
    | Some h => s ← objects H !! h; Some (if contains ptr s then Some h else None)
    end.

(** [purge_cached_spans], one list: the spans that stay, the number released, and the
    blocks given back. *)
Fixpoint purge_list (l : list nat) (H : PageHeap)
    : option (list nat * Z * list SysAction * PageHeap) :=
  match l with
  | [] => Some ([], 0, [], H)
  | h :: l =>
      s ← objects H !! h;
      if is_whole_allocation s then
        let H := with_system (sub_sat (system_bytes H) (sp_bytes s))
                   (with_cached (free_spans_by_pages H)
                      (delete (span_start_page s) (cached_start_page_to_span H))
                      (delete (span_end_page s) (cached_end_page_to_span H))
                      (sub_sat (cached_bytes H) (sp_bytes s)) H) in
        r ← free_whole_span_to_system h H;
        let '(a, H) := r in
        r ← purge_list l H;
        let '(remain, released, a', H) := r in
        Some (remain, released + 1, a ++ a', H)
      else
        r ← purge_list l H;
        let '(remain, released, a, H) := r in
        Some (h :: remain, released, a, H)
  end.

Fixpoint purge_loop (items : list (Z * list nat)) (H : PageHeap)
    : option (Z * list SysAction * PageHeap) :=
  match items with
  | [] => Some (0, [], H)
  | (pages, l) :: items =>
      r ← purge_list l H;
      let '(remain, released, a, H) := r in
      let f := match remain with
               | [] => delete pages (free_spans_by_pages H)
               | _ => <[pages := remain]> (free_spans_by_pages H)
               end in
      r ← purge_loop items (with_cached f (cached_start_page_to_span H)
                              (cached_end_page_to_span H) (cached_bytes H) H);
      let '(released', a', H) := r in
      Some (released + released', a ++ a', H)
  end.

Definition purge_cached_spans (H : PageHeap) : option (Z * list SysAction * PageHeap) :=
  purge_loop (iter_map (free_spans_by_pages H)) H.

(** [~PageHeap]: every block is given back once. *)
Fixpoint release_once (l : list nat) (o : gmap nat Span) (freed : gset Z)
    : option (list SysAction * gset Z) :=
  match l with
  | [] => Some ([], freed)
  | h :: l =>
      s ← o !! h;
      let base := sp_allocation_base s in
      let first := negb (base =? 0) && negb (bool_decide (base ∈ freed)) in
      r ← release_once l o (if first then {[base]} ∪ freed else freed);
      let '(a, freed) := r in
      Some ((if first then [SysFree base] else []) ++ a, freed)
  end.

Definition heap_destroy (H : PageHeap) : option (list SysAction) :=
  r ← release_once (spans H ++ concat (iter_map (free_spans_by_pages H)).*2) (objects H) ∅;
  Some r.1.

Definition span_count (H : PageHeap) : Z := Z.of_nat (length (spans H)).

Definition cached_span_count (H : PageHeap) : Z :=
  foldr (fun kv n => Z.of_nat (length kv.2) + n) 0 (iter_map (free_spans_by_pages H)).
End heap.
