(* ===== verification/PageHeapInv.v ===== *)
(** The invariant of the page heap (PageHeap.v) and its elementary operations: every
    span object is active, cached or held by the running operation, spans are
    pairwise disjoint parts of live blocks, and all tables and counters describe the same
    spans. *)
From S2P Require Import Prelude SizeClass PageHeap.
Import SizeClass(kPageSize).

(** ** Spans *)

Record span_ok (s : Span) : Prop := {
  so_page : sp_start s = kPageSize * span_start_page s;
  so_first : 1 <= span_start_page s;
  so_pages : 1 <= sp_page_count s;
  so_bytes : sp_bytes s = kPageSize * sp_page_count s;
  so_base : 1 <= sp_allocation_base s;
  so_low : sp_allocation_base s <= sp_start s;
  so_high : span_end s <= sp_allocation_base s + sp_allocation_bytes s;
  so_top : sp_allocation_base s + sp_allocation_bytes s <= 2 ^ 64;
}.

Definition apart (s s' : Span) : Prop :=
  span_end_page s <= span_start_page s' \/ span_end_page s' <= span_start_page s.

Definition covers (s : Span) (p : Z) : Prop := span_start_page s <= p < span_end_page s.

(** Two spans that differ in their object information at most. *)
Record same_extent (s s' : Span) : Prop := {
  se_start : sp_start s = sp_start s';
  se_pages : sp_page_count s = sp_page_count s';
  se_bytes : sp_bytes s = sp_bytes s';
  se_base : sp_allocation_base s = sp_allocation_base s';
  se_abytes : sp_allocation_bytes s = sp_allocation_bytes s';
}.

Lemma same_extent_reset s : same_extent (reset_object_info s) s.
Proof. by destruct s. Qed.

Lemma span_ok_same s s' : same_extent s s' -> span_ok s' -> span_ok s.
Proof.
  destruct s, s'. intros [] []. unfold span_start_page, span_end_page, span_end in *. simpl in *.
  subst. by constructor.
Qed.

Lemma span_ok_end s : span_ok s -> span_end_page s <= 2 ^ 51.
Proof. intros []. unfold span_end_page, span_end in *. unfold kPageSize in *. lia. Qed.

Lemma apart_sym s s' : apart s s' -> apart s' s.
Proof. unfold apart. lia. Qed.

(** ** Sums over the spans *)
Definition bsum (m : gmap nat Span) : Z := map_fold (fun _ s a => sp_bytes s + a) 0 m.

Lemma bsum_insert_new m h s : m !! h = None -> bsum (<[h := s]> m) = sp_bytes s + bsum m.
Proof. intros Hn. unfold bsum. rewrite map_fold_insert_L; [done| |done]. intros. lia. Qed.

Lemma bsum_delete m h s : m !! h = Some s -> bsum (delete h m) = bsum m - sp_bytes s.
Proof.
  intros Hx. rewrite <- (insert_delete_id m h s Hx) at 2.
  rewrite bsum_insert_new by apply lookup_delete_eq. lia.
Qed.

Lemma bsum_insert m h s s' : m !! h = Some s' -> bsum (<[h := s]> m) = bsum m - sp_bytes s' + sp_bytes s.
Proof.
  intros Hy. rewrite <- insert_delete_eq, bsum_insert_new by apply lookup_delete_eq.
  rewrite (bsum_delete _ _ _ Hy). lia.
Qed.

Definition all_ok (m : gmap nat Span) : Prop := forall h s, m !! h = Some s -> span_ok s.

Lemma bsum_subseteq m m' : all_ok m' -> m ⊆ m' -> 0 <= bsum m <= bsum m'.
Proof.
  revert m'. induction m as [|h s m Hn IH] using map_ind; intros m' Hok Hsub.
  - split; [done|]. clear Hsub. induction m' as [|h s m Hn IH] using map_ind; [done|].
    rewrite bsum_insert_new by done. pose proof (Hok h s (lookup_insert_eq _ _ _)) as [].
    assert (bsum ∅ <= bsum m) by (apply IH; intros h' s' Hs'; apply (Hok h'); rewrite lookup_insert_ne; [done|congruence]).
    unfold kPageSize in *. lia.
  - assert (Hs : m' !! h = Some s) by (eapply lookup_weaken; [apply lookup_insert_eq|done]).
    assert (m ⊆ delete h m') as Hsub'.
    { apply map_subseteq_spec. intros h' s' Hs'. assert (h <> h') by congruence.
      rewrite lookup_delete_ne by done. eapply lookup_weaken; [|exact Hsub].
      by rewrite lookup_insert_ne. }
    specialize (IH (delete h m')). rewrite bsum_delete with (s := s) in IH by done.
    rewrite bsum_insert_new by done. pose proof (Hok h s Hs) as []. unfold kPageSize in *.
    assert (all_ok (delete h m')) by (intros ?? []%lookup_delete_Some; eauto).
    specialize (IH ltac:(done) ltac:(done)). lia.
Qed.

(** ** Disjoint spans fit into the address space *)
Definition pages (s : Span) : gset Z := list_to_set (seqZ (span_start_page s) (sp_page_count s)).

Lemma elem_of_pages s p : p ∈ pages s <-> covers s p.
Proof. unfold pages, covers, span_end_page. rewrite elem_of_list_to_set, elem_of_seqZ. done. Qed.

Lemma size_pages s : 0 <= sp_page_count s -> Z.of_nat (size (pages s)) = sp_page_count s.
Proof. intros ?. unfold pages. rewrite size_list_to_set by apply NoDup_seqZ. rewrite length_seqZ. lia. Qed.

Definition disjoint_spans (m : gmap nat Span) : Prop :=
  forall h h' s s', m !! h = Some s -> m !! h' = Some s' -> h <> h' -> apart s s'.

Lemma disjoint_spans_pages m :
  disjoint_spans m -> all_ok m ->
  exists X : gset Z, Z.of_nat (size X) * kPageSize = bsum m /\
    forall p, p ∈ X <-> exists h s, m !! h = Some s /\ covers s p.
Proof.
  induction m as [|h s m Hn IH] using map_ind; intros Hd Hok.
  - exists ∅. split; [done|]. intros p. split; [set_solver|]. intros (h & s & Hs & _). done.
  - destruct IH as (X & HX & HXp).
    { intros h1 h2 s1 s2 H1 H2. apply (Hd h1 h2); rewrite lookup_insert_ne; congruence. }
    { intros h1 s1 H1. apply (Hok h1). rewrite lookup_insert_ne; congruence. }
    pose proof (Hok h s (lookup_insert_eq _ _ _)) as [].
    assert (Hdisj : pages s ## X).
    { intros p Hp Hp'. apply elem_of_pages in Hp. apply HXp in Hp' as (h' & s' & Hs' & Hp').
      assert (h <> h') by congruence.
      pose proof (Hd h h' s s' (lookup_insert_eq _ _ _)) as Ha.
      rewrite lookup_insert_ne in Ha by done. specialize (Ha Hs' ltac:(done)).
      unfold apart, covers in *. lia. }
    exists (pages s ∪ X). split.
    + rewrite size_union by done. rewrite bsum_insert_new by done.
      pose proof (size_pages s ltac:(lia)) as Hsz.
      rewrite Nat2Z.inj_add, Hsz, Z.mul_add_distr_r, HX. lia.
    + intros p. rewrite elem_of_union, elem_of_pages, HXp. split.
      * intros [Hp|(h' & s' & Hs' & Hp)]; [by exists h, s; rewrite lookup_insert_eq|].
        exists h', s'. rewrite lookup_insert_ne by congruence. done.
      * intros (h' & s' & [[<- <-]|[? Hs']]%lookup_insert_Some & Hp); [by left|right; eauto].
Qed.

(** The sum of all spans is less than 2^64, so that no counter wraps around. *)
Lemma total_bytes m : disjoint_spans m -> all_ok m -> 0 <= bsum m < 2 ^ 64.
Proof.
  intros Hd Hok. destruct (disjoint_spans_pages m Hd Hok) as (X & HX & HXp).
  assert (X ⊆ list_to_set (seqZ 1 (2 ^ 51 - 1))) as Hsub.
  { intros p Hp. apply HXp in Hp as (h & s & Hs & Hp). apply elem_of_list_to_set, elem_of_seqZ.
    apply Hok in Hs. pose proof (span_ok_end _ Hs). destruct Hs. unfold covers in Hp. lia. }
  apply subseteq_size in Hsub. rewrite size_list_to_set in Hsub by apply NoDup_seqZ.
  rewrite length_seqZ in Hsub. apply inj_le in Hsub. rewrite Z2Nat.id in Hsub by lia.
  rewrite <- HX. unfold kPageSize. lia.
Qed.

(** ** The tables of active spans *)
Record active_tables (l : list nat) (pm : gmap Z nat) (n : Z) (A : gmap nat Span) : Prop := {
  at_nodup : NoDup l;
  at_spans : forall h, h ∈ l <-> is_Some (A !! h);
  at_pages : forall p h, pm !! p = Some h <-> exists s, A !! h = Some s /\ covers s p;
  at_bytes : n = bsum A;
}.

Lemma lookup_register_pages n page h m p :
  register_pages n page h m !! p =
    if decide (page <= p < page + Z.of_nat n) then Some h else m !! p.
Proof.
  revert page m. induction n as [|n IH]; intros page m; simpl.
  - rewrite decide_False by lia. done.
  - rewrite IH. repeat case_decide; try lia; try done.
    + assert (p = page) as -> by lia. by rewrite lookup_insert_eq.
    + rewrite lookup_insert_ne; [done|lia].
Qed.

Lemma lookup_unregister_pages n page m p :
  unregister_pages n page m !! p =
    if decide (page <= p < page + Z.of_nat n) then None else m !! p.
Proof.
  revert page m. induction n as [|n IH]; intros page m; simpl.
  - rewrite decide_False by lia. done.
  - rewrite IH. repeat case_decide; try lia; try done.
    + assert (p = page) as -> by lia. by rewrite lookup_delete_eq.
    + rewrite lookup_delete_ne; [done|lia].
Qed.

#[export] Instance covers_dec s p : Decision (covers s p).
Proof. unfold covers. apply _. Defined.

Lemma lookup_register_span h s m p :
  span_ok s -> register_span h s m !! p = if decide (covers s p) then Some h else m !! p.
Proof.
  intros []. unfold register_span. rewrite (proj2 (orb_false_iff _ _)).
  - rewrite lookup_register_pages. unfold covers, span_end_page.
    change (page_id_of (sp_start s)) with (span_start_page s).
    rewrite Z2Nat.id by lia. repeat case_decide; try done; lia.
  - unfold kPageSize in *. split; lia.
Qed.

Lemma lookup_unregister_span s m p :
  span_ok s -> unregister_span s m !! p = if decide (covers s p) then None else m !! p.
Proof.
  intros []. unfold unregister_span. rewrite (proj2 (orb_false_iff _ _)).
  - rewrite lookup_unregister_pages. unfold covers, span_end_page.
    change (page_id_of (sp_start s)) with (span_start_page s).
    rewrite Z2Nat.id by lia. repeat case_decide; try done; lia.
  - unfold kPageSize in *. split; lia.
Qed.

Lemma elem_of_erase_first h h' l : NoDup l -> h' ∈ erase_first h l <-> h' ∈ l /\ h' <> h.
Proof.
  induction 1 as [|x l Hx Hl IH]; simpl; [set_solver|].
  destruct (Nat.eqb_spec x h) as [->|]; rewrite ?elem_of_cons; [|rewrite IH]; naive_solver.
Qed.

Lemma NoDup_erase_first h l : NoDup l -> NoDup (erase_first h l).
Proof.
  induction 1 as [|x l Hx Hl IH]; simpl; [constructor|].
  destruct (Nat.eqb_spec x h) as [->|]; [done|]. constructor; [|done].
  rewrite elem_of_erase_first by done. tauto.
Qed.

Lemma active_insert l pm n A h s :
  active_tables l pm n A -> A !! h = None -> span_ok s ->
  (forall h' s', A !! h' = Some s' -> apart s s') -> n + sp_bytes s < 2 ^ 64 -> 0 <= n ->
  active_tables (l ++ [h]) (register_span h s pm) (wrap 64 (n + sp_bytes s)) (<[h := s]> A).
Proof.
  intros [] Hn Hok Hap Hb Hn0. pose proof Hok as []. split.
  - apply NoDup_app. split_and!; [done| |apply NoDup_singleton].
    intros x Hx ->%list_elem_of_singleton. apply at_spans0 in Hx as [? ?]. congruence.
  - intros h'. rewrite elem_of_app, list_elem_of_singleton, at_spans0.
    destruct (decide (h' = h)) as [->|]; [rewrite lookup_insert_eq|rewrite lookup_insert_ne by done]; naive_solver.
  - intros p h'. rewrite lookup_register_span by done. case_decide as Hc.
    + split; [intros [= <-]; exists s; by rewrite lookup_insert_eq|].
      intros (s' & [[<- <-]|[? Hs']]%lookup_insert_Some & Hc'); [done|].
      apply Hap in Hs'. unfold apart, covers in *. lia.
    + rewrite at_pages0. split.
      * intros (s' & Hs' & Hc'). exists s'. rewrite lookup_insert_ne by congruence. done.
      * intros (s' & [[<- <-]|[? Hs']]%lookup_insert_Some & Hc'); naive_solver.
  - subst. rewrite bsum_insert_new, wrap_id by (done || (unfold fits, kPageSize in *; lia)). lia.
Qed.

Lemma active_delete l pm n A h s :
  active_tables l pm n A -> all_ok A -> A !! h = Some s ->
  active_tables (erase_first h l) (unregister_span s pm) (sub_sat n (sp_bytes s)) (delete h A).
Proof.
  intros [] Hok Hs. pose proof (Hok _ _ Hs) as Hsok. split.
  - by apply NoDup_erase_first.
  - intros h'. rewrite elem_of_erase_first, at_spans0 by done.
    destruct (decide (h' = h)) as [->|]; [rewrite lookup_delete_eq|rewrite lookup_delete_ne by done].
    + split; [tauto|by intros []].
    + tauto.
  - intros p h'. rewrite lookup_unregister_span by done. case_decide as Hc.
    + split; [done|]. intros (s' & [? Hs']%lookup_delete_Some & Hc').
      assert (pm !! p = Some h) by (apply at_pages0; eauto).
      assert (pm !! p = Some h') by (apply at_pages0; eauto). congruence.
    + rewrite at_pages0. split.
      * intros (s' & Hs' & Hc'). exists s'. rewrite lookup_delete_Some. naive_solver.
      * intros (s' & [? Hs']%lookup_delete_Some & Hc'). eauto.
  - subst. rewrite (bsum_delete _ _ _ Hs). unfold sub_sat.
    assert (0 <= bsum (delete h A)) by (eapply bsum_subseteq; [exact Hok|apply delete_subseteq]).
    rewrite (bsum_delete _ _ _ Hs) in *. destruct (Z.leb_spec (sp_bytes s) (bsum A)); lia.
Qed.

(** ** The tables of cached spans *)
Record cached_tables (f : gmap Z (list nat)) (cs ce : gmap Z nat) (n : Z) (C : gmap nat Span) : Prop := {
  ct_lists : forall k l, f !! k = Some l -> l <> [] /\ NoDup l /\
    forall h, h ∈ l <-> exists s, C !! h = Some s /\ sp_page_count s = k;
  ct_listed : forall h s, C !! h = Some s -> is_Some (f !! sp_page_count s);
  ct_start : forall p h, cs !! p = Some h <-> exists s, C !! h = Some s /\ span_start_page s = p;
  ct_end : forall p h, ce !! p = Some h <-> exists s, C !! h = Some s /\ span_end_page s = p;
  ct_bytes : n = bsum C;
}.

(** An index of the cached spans by a key that no two of them share. *)
Lemma index_insert (m : gmap Z nat) (C : gmap nat Span) (key : Span -> Z) h s :
  (forall p h, m !! p = Some h <-> exists s, C !! h = Some s /\ key s = p) ->
  C !! h = None -> (forall h' s', C !! h' = Some s' -> key s' <> key s) ->
  forall p h', <[key s := h]> m !! p = Some h' <-> exists s', <[h := s]> C !! h' = Some s' /\ key s' = p.
Proof.
  intros Hm Hn Hk p h'. rewrite lookup_insert_Some, Hm. split.
  - intros [[<- <-]|[? (s' & Hs' & <-)]]; [exists s; by rewrite lookup_insert_eq|].
    exists s'. rewrite lookup_insert_ne by congruence. done.
  - intros (s' & [[<- <-]|[? Hs']]%lookup_insert_Some & <-); [by left|]. right.
    split; [|by eauto]. intros Heq. by eapply Hk.
Qed.

Lemma index_delete (m : gmap Z nat) (C : gmap nat Span) (key : Span -> Z) h s :
  (forall p h, m !! p = Some h <-> exists s, C !! h = Some s /\ key s = p) ->
  C !! h = Some s ->
  forall p h', delete (key s) m !! p = Some h' <-> exists s', delete h C !! h' = Some s' /\ key s' = p.
Proof.
  intros Hm Hs p h'. rewrite lookup_delete_Some, Hm. split.
  - intros [? (s' & Hs' & <-)]. exists s'. rewrite lookup_delete_Some. naive_solver.
  - intros (s' & [? Hs']%lookup_delete_Some & <-). split; [|by eauto]. intros Heq.
    assert (m !! key s' = Some h') by (apply Hm; eauto).
    assert (m !! key s' = Some h) by (apply Hm; eauto). congruence.
Qed.

Lemma apart_keys s s' :
  span_ok s -> span_ok s' -> apart s s' ->
  span_start_page s' <> span_start_page s /\ span_end_page s' <> span_end_page s.
Proof. intros [] [] Ha. unfold apart, span_end_page in *. lia. Qed.

Lemma cached_insert f cs ce n C h s :
  cached_tables f cs ce n C -> C !! h = None -> span_ok s -> all_ok C ->
  (forall h' s', C !! h' = Some s' -> apart s s') -> n + sp_bytes s < 2 ^ 64 -> 0 <= n ->
  cached_tables (<[sp_page_count s := default [] (f !! sp_page_count s) ++ [h]]> f)
    (<[span_start_page s := h]> cs) (<[span_end_page s := h]> ce)
    (wrap 64 (n + sp_bytes s)) (<[h := s]> C).
Proof.
  intros [] Hn Hok HokC Hap Hb Hn0.
  assert (Hkeys : forall h' s', C !! h' = Some s' ->
            span_start_page s' <> span_start_page s /\ span_end_page s' <> span_end_page s).
  { intros h' s' Hs'. eapply apart_keys; eauto. }
  assert (Hin : NoDup (default [] (f !! sp_page_count s)) /\ forall h',
            h' ∈ default [] (f !! sp_page_count s) <->
            exists s', C !! h' = Some s' /\ sp_page_count s' = sp_page_count s).
  { destruct (f !! sp_page_count s) as [l|] eqn:Hl; simpl.
    - apply ct_lists0 in Hl as (_ & Hnd & Hl). done.
    - split; [constructor|]. intros h'. split; [by intros ?%not_elem_of_nil|].
      intros (s' & Hs' & Hp). apply ct_listed0 in Hs' as [l Hl']. congruence. }
  destruct Hin as [Hnd Hin]. split.
  - intros k l [[<- <-]|[Hne Hl]]%lookup_insert_Some.
    + split; [by destruct (default [] _)|]. split.
      * apply NoDup_app. split_and!; [done| |apply NoDup_singleton].
        intros x Hx ->%list_elem_of_singleton. apply Hin in Hx as (? & ? & _). congruence.
      * intros h'. rewrite elem_of_app, list_elem_of_singleton, Hin. split.
        -- intros [(s' & Hs' & Hp)| ->]; [|exists s; by rewrite lookup_insert_eq].
           exists s'. rewrite lookup_insert_ne by congruence. done.
        -- intros (s' & [[<- <-]|[? Hs']]%lookup_insert_Some & Hp); [by right|left; eauto].
    + apply ct_lists0 in Hl as (? & ? & Hl). split_and!; [done|done|]. intros h'. rewrite Hl. split.
      * intros (s' & Hs' & Hp). exists s'. rewrite lookup_insert_ne by congruence. done.
      * intros (s' & [[<- <-]|[? Hs']]%lookup_insert_Some & Hp); [done|eauto].
  - intros h' s' [[<- <-]|[? Hs']]%lookup_insert_Some.
    + rewrite lookup_insert_eq. by eexists.
    + destruct (decide (sp_page_count s = sp_page_count s')) as [->|].
      * rewrite lookup_insert_eq. by eexists.
      * rewrite lookup_insert_ne by done. eauto.
  - apply (index_insert cs C span_start_page); [done..|]. intros h' s' Hs'. by eapply Hkeys.
  - apply (index_insert ce C span_end_page); [done..|]. intros h' s' Hs'. by eapply Hkeys.
  - destruct Hok. subst.
    rewrite bsum_insert_new, wrap_id by (done || (unfold fits, kPageSize in *; lia)). lia.
Qed.

Lemma lookup_erase_from_list h n f k :
  erase_from_list h n f !! k =
    if decide (k = n) then
      match f !! n with
      | Some l => match erase_first h l with [] => None | l' => Some l' end
      | None => None
      end
    else f !! k.
Proof.
  unfold erase_from_list. destruct (f !! n) as [l|] eqn:Hl.
  - destruct (erase_first h l); case_decide; subst; by simplify_map_eq.
  - case_decide; by subst.
Qed.

Lemma cached_delete f cs ce n C h s :
  cached_tables f cs ce n C -> all_ok C -> C !! h = Some s ->
  cached_tables (erase_from_list h (sp_page_count s) f) (delete (span_start_page s) cs)
    (delete (span_end_page s) ce) (sub_sat n (sp_bytes s)) (delete h C).
Proof.
  intros [] HokC Hs. split.
  - intros k l. rewrite lookup_erase_from_list. case_decide as Hk.
    + subst k. destruct (f !! sp_page_count s) as [l0|] eqn:Hl0; [|done].
      apply ct_lists0 in Hl0 as (_ & Hnd & Hl0).
      assert (Hin : forall h', h' ∈ erase_first h l0 <->
                exists s', delete h C !! h' = Some s' /\ sp_page_count s' = sp_page_count s).
      { intros h'. rewrite elem_of_erase_first, Hl0 by done. split.
        - intros [(s' & ? & ?) ?]. exists s'. rewrite lookup_delete_Some. done.
        - intros (s' & []%lookup_delete_Some & ?). split; [eauto|done]. }
      destruct (erase_first h l0) as [|x l1] eqn:He; [done|]. intros [= <-].
      split_and!; [done|rewrite <- He; by apply NoDup_erase_first|done].
    + intros Hl. apply ct_lists0 in Hl as (? & ? & Hl). split_and!; [done|done|].
      intros h'. rewrite Hl. split.
      * intros (s' & ? & ?). exists s'. rewrite lookup_delete_Some. split; [|done].
        split; [congruence|done].
      * intros (s' & []%lookup_delete_Some & ?). eauto.
  - intros h' s' [Hne Hs']%lookup_delete_Some. rewrite lookup_erase_from_list.
    case_decide as Hk; [|eauto]. destruct (ct_listed0 _ _ Hs) as [l Hl]. rewrite Hl.
    apply ct_lists0 in Hl as (_ & Hnd & Hl).
    assert (h' ∈ erase_first h l) by (apply elem_of_erase_first; [done|split; [apply Hl; eauto|done]]).
    destruct (erase_first h l); [by apply not_elem_of_nil in H|by eexists].
  - by apply (index_delete cs C span_start_page).
  - by apply (index_delete ce C span_end_page).
  - subst. rewrite (bsum_delete _ _ _ Hs). unfold sub_sat.
    assert (0 <= bsum (delete h C)) by (eapply bsum_subseteq; [exact HokC|apply delete_subseteq]).
    rewrite (bsum_delete _ _ _ Hs) in *. destruct (Z.leb_spec (sp_bytes s) (bsum C)); lia.
Qed.

(** ** The span objects and the blocks of the system *)
Definition lsum (live : gmap Z Z) : Z := map_fold (fun _ n a => n + a) 0 live.

Lemma lsum_insert_new live b n : live !! b = None -> lsum (<[b := n]> live) = n + lsum live.
Proof. intros Hn. unfold lsum. rewrite map_fold_insert_L; [done| |done]. intros. lia. Qed.

Lemma lsum_delete live b n : live !! b = Some n -> lsum (delete b live) = lsum live - n.
Proof.
  intros Hx. rewrite <- (insert_delete_id live b n Hx) at 2.
  rewrite lsum_insert_new by apply lookup_delete_eq. lia.
Qed.

Record core (o : gmap nat Span) (next : nat) (sys : Z) (live : gmap Z Z) : Prop := {
  co_fresh : forall h, is_Some (o !! h) -> (h < next)%nat;
  co_ok : all_ok o;
  co_disjoint : disjoint_spans o;
  co_system : sys = bsum o;
  co_live : forall b n, live !! b = Some n <->
    exists h s, o !! h = Some s /\ sp_allocation_base s = b /\ sp_allocation_bytes s = n;
  co_total : sys = lsum live;
}.

(** The state of the heap: active spans [A], cached spans [C], and the handles [held] by
    the running operation. *)
Record rep (H : PageHeap) (A C : gmap nat Span) (held : gset nat) (live : gmap Z Z) : Prop := {
  rp_core : core (objects H) (next_object H) (system_bytes H) live;
  rp_active : active_tables (spans H) (page_to_span H) (active_bytes H) A;
  rp_cached : cached_tables (free_spans_by_pages H) (cached_start_page_to_span H)
    (cached_end_page_to_span H) (cached_bytes H) C;
  rp_A : forall h s, A !! h = Some s -> objects H !! h = Some s /\ (h ∉ held) /\ C !! h = None;
  rp_C : forall h s, C !! h = Some s -> objects H !! h = Some s /\ (h ∉ held) /\ A !! h = None;
  rp_cover : forall h s, objects H !! h = Some s -> A !! h = Some s \/ C !! h = Some s \/ h ∈ held;
  rp_held : forall h, h ∈ held -> is_Some (objects H !! h);
}.
Arguments rp_core {H A C held live}.
Arguments rp_active {H A C held live}.
Arguments rp_cached {H A C held live}.
Arguments rp_A {H A C held live}.
Arguments rp_C {H A C held live}.
Arguments rp_cover {H A C held live}.
Arguments rp_held {H A C held live}.
Arguments co_fresh {o next sys live}.
Arguments co_ok {o next sys live}.
Arguments co_disjoint {o next sys live}.
Arguments co_system {o next sys live}.
Arguments co_live {o next sys live}.
Arguments co_total {o next sys live}.
