(* ===== verification/PageHeapProofs.v ===== *)
(** The operations of the page heap (PageHeap.v) keep its invariant (PageHeapInv.v), never
    follow a stale handle, and do what their callers rely on. *)
From S2P Require Import Prelude SizeClass PageHeap PageHeapInv.
Import SizeClass(kPageSize).

(** ** Consequences of the invariant *)
Section consequences.
Context {H : PageHeap} {A C : gmap nat Span} {held : gset nat} {live : gmap Z Z}.
Hypothesis Hrep : rep H A C held live.

Lemma rep_ok h s : objects H !! h = Some s -> span_ok s.
Proof using Hrep. eapply co_ok, rp_core, Hrep. Qed.

Lemma rep_apart h h' s s' :
  objects H !! h = Some s -> objects H !! h' = Some s' -> h <> h' -> apart s s'.
Proof using Hrep. eapply co_disjoint, rp_core, Hrep. Qed.

Lemma rep_A_sub : A ⊆ objects H.
Proof using Hrep. apply map_subseteq_spec. intros h s Hs. by apply (rp_A Hrep) in Hs as []. Qed.

Lemma rep_C_sub : C ⊆ objects H.
Proof using Hrep. apply map_subseteq_spec. intros h s Hs. by apply (rp_C Hrep) in Hs as []. Qed.

Lemma rep_A_ok : all_ok A.
Proof using Hrep. intros h s Hs. apply (rp_A Hrep) in Hs as [Hs _]. by eapply rep_ok. Qed.

Lemma rep_C_ok : all_ok C.
Proof using Hrep. intros h s Hs. apply (rp_C Hrep) in Hs as [Hs _]. by eapply rep_ok. Qed.

(** Together with a span outside of them, active or cached spans stay below 2^64 bytes. *)
Lemma rep_room (m : gmap nat Span) h s :
  m ⊆ objects H -> objects H !! h = Some s -> m !! h = None -> 0 <= bsum m /\ bsum m + sp_bytes s < 2 ^ 64.
Proof using Hrep.
  intros Hm Hs Hn. destruct (rp_core Hrep) as [_ co_ok co_disjoint _ _ _].
  pose proof (total_bytes _ co_disjoint co_ok). pose proof (bsum_subseteq _ _ co_ok Hm).
  assert (<[h := s]> m ⊆ objects H) as Hsub by (by apply insert_subseteq_l).
  pose proof (bsum_subseteq _ _ co_ok Hsub) as Hle. rewrite bsum_insert_new in Hle by done. lia.
Qed.
End consequences.

Lemma removed_elem (x y : nat) (X : gset nat) : x ∈ X -> x ∉ X ∖ {[y]} -> x = y.
Proof. intros Hx Hn. destruct (decide (x = y)); [done|]. exfalso. apply Hn. set_solver. Qed.

Lemma kept_elem (x y : nat) (X : gset nat) : x ∈ X ∖ {[y]} -> x ∈ X /\ x <> y.
Proof. set_solver. Qed.

Lemma held_restore (h : nat) (X : gset nat) : h ∈ X -> {[h]} ∪ X ∖ {[h]} = X.
Proof. intros. apply set_eq. intros x. destruct (decide (x = h)); set_solver. Qed.

Lemma objects_update h s H : objects (update_object h s H) = <[h := s]> (objects H).
Proof. done. Qed.

(** ** Elementary operations *)
Lemma op_erase H A C held live h s :
  rep H A C held live -> C !! h = Some s ->
  exists H', erase_cached_span h H = Some H' /\ rep H' A (delete h C) ({[h]} ∪ held) live /\
    objects H' = objects H.
Proof.
  intros Hrep Hs. pose proof (rep_C_ok Hrep) as HokC. pose proof Hrep as [rp_core rp_active rp_cached rp_A rp_C rp_cover rp_held].
  destruct (rp_C _ _ Hs) as (Ho & Hh & HA). unfold erase_cached_span. rewrite Ho. simpl.
  eexists. split; [done|]. split; [|done]. split; simpl; try done.
  - by apply cached_delete.
  - intros h' s' Hs'. destruct (rp_A _ _ Hs') as (? & ? & ?). split_and!; [done| |].
    + intros [->%elem_of_singleton|]%elem_of_union; [congruence|done].
    + rewrite lookup_delete_None. by right.
  - intros h' s' [? Hs']%lookup_delete_Some. destruct (rp_C _ _ Hs') as (? & ? & ?).
    split_and!; [done| |done]. set_solver.
  - intros h' s' Hs'. destruct (decide (h' = h)) as [->|]; [set_solver|].
    destruct (rp_cover _ _ Hs') as [?|[?|?]]; [by left| |set_solver].
    right; left. by rewrite lookup_delete_ne.
  - intros h' [->%elem_of_singleton|]%elem_of_union; eauto.
Qed.

(** A held span may change its object information. *)
Lemma op_update H A C held live h s s' :
  rep H A C held live -> h ∈ held -> objects H !! h = Some s -> same_extent s' s ->
  rep (update_object h s' H) A C held live.
Proof.
  intros Hrep Hh Hs Hse. pose proof (rp_core Hrep) as [co_fresh co_ok co_disjoint co_system co_live co_total].
  pose proof Hrep as [_ rp_active rp_cached rp_A rp_C rp_cover rp_held]. split; simpl; try done.
  - split.
    + intros h' [s0 [[<- _]|[_ Hs0]]%lookup_insert_Some]; eauto.
    + intros h' s0 [[<- <-]|[_ Hs0]]%lookup_insert_Some; [|eauto].
      eapply span_ok_same; [done|]. eauto.
    + intros h1 h2 s1 s2 H1 H2 Hne. unfold apart, span_end_page, span_start_page.
      destruct Hse. apply lookup_insert_Some in H1 as [[<- <-]|[_ H1]];
        apply lookup_insert_Some in H2 as [[<- <-]|[_ H2]]; rewrite ?se_start, ?se_pages; try done;
        by eapply (co_disjoint h1 h2) || by eapply (co_disjoint h1 _) || by eapply (co_disjoint _ h2).
    + rewrite (bsum_insert _ _ _ _ Hs). destruct Hse. lia.
    + intros b n. rewrite co_live. split.
      * intros (h0 & s0 & H0 & Hb). destruct (decide (h0 = h)) as [->|].
        -- exists h, s'. rewrite lookup_insert_eq. simplify_eq. destruct Hse. split; [done|].
           rewrite se_base, se_abytes. done.
        -- exists h0, s0. by rewrite lookup_insert_ne.
      * intros (h0 & s0 & [[<- <-]|[? H0]]%lookup_insert_Some & Hb); [|eauto].
        exists h, s. destruct Hse. rewrite <- se_base, <- se_abytes. done.
    + done.
  - intros h' s0 Hs0. destruct (rp_A _ _ Hs0) as (? & ? & ?). rewrite lookup_insert_ne by congruence. done.
  - intros h' s0 Hs0. destruct (rp_C _ _ Hs0) as (? & ? & ?). rewrite lookup_insert_ne by congruence. done.
  - intros h' s0 [[<- _]|[_ Hs0]]%lookup_insert_Some; auto.
  - intros h' Hh'. destruct (decide (h = h')) as [->|]; [rewrite lookup_insert_eq; by eexists|].
    rewrite lookup_insert_ne; auto.
Qed.

Lemma op_insert H A C held live h s :
  rep H A C held live -> h ∈ held -> objects H !! h = Some s ->
  exists H', insert_cached_span h H = Some H' /\
    rep H' A (<[h := reset_object_info s]> C) (held ∖ {[h]}) live /\
    (forall h', h' <> h -> objects H' !! h' = objects H !! h').
Proof.
  intros Hrep Hh Hs. pose proof (op_update _ _ _ _ _ _ _ _ Hrep Hh Hs (same_extent_reset s)) as Hrep'.
  set (s' := reset_object_info s) in *. set (H1 := update_object h s' H) in *.
  assert (Hs1 : objects H1 !! h = Some s') by apply lookup_insert_eq.
  assert (HC : C !! h = None).
  { destruct (C !! h) eqn:E; [|done]. by apply (rp_C Hrep) in E as (_ & ? & _). }
  assert (HA : A !! h = None).
  { destruct (A !! h) eqn:E; [|done]. by apply (rp_A Hrep) in E as (_ & ? & _). }
  destruct (rep_room Hrep' C h s' (rep_C_sub Hrep') Hs1 HC) as [Hr0 Hr].
  pose proof (rep_C_ok Hrep') as HokC. pose proof (rep_ok Hrep' _ _ Hs1) as Hok.
  assert (Hap : forall h' s0, C !! h' = Some s0 -> apart s' s0).
  { intros h' s0 H0. apply (rep_apart Hrep' h h'); [done|by apply (rp_C Hrep') in H0 as []|congruence]. }
  unfold insert_cached_span. rewrite Hs. simpl. eexists. split; [done|].
  fold s' H1. pose proof Hrep' as [rp_core rp_active rp_cached rp_A rp_C rp_cover rp_held]. split; [|intros; by apply lookup_insert_ne]. split; simpl; try done.
  - apply (cached_insert _ _ _ _ _ h s'); try done; rewrite (ct_bytes _ _ _ _ _ rp_cached : cached_bytes H = _); done.
  - intros h' s0 Hs0. destruct (rp_A _ _ Hs0) as (? & ? & ?). split_and!; [done|set_solver|].
    rewrite lookup_insert_ne; [done|]. congruence.
  - intros h' s0 [[<- <-]|[? Hs0]]%lookup_insert_Some; [split_and!; [done|set_solver|done]|].
    destruct (rp_C _ _ Hs0) as (? & ? & ?). split_and!; [done|set_solver|done].
  - intros h' s0 Hs0. change (objects H1 !! h' = Some s0) in Hs0.
    destruct (decide (h' = h)) as [->|Hne].
    + right; left. rewrite lookup_insert_eq. congruence.
    + rewrite lookup_insert_ne by done. destruct (rp_cover _ _ Hs0) as [?|[?|?]]; set_solver.
  - intros h' Hh'. apply rp_held. set_solver.
Qed.

Lemma op_activate H A C held live h s :
  rep H A C held live -> h ∈ held -> objects H !! h = Some s ->
  exists H', activate h H = Some H' /\ rep H' (<[h := s]> A) C (held ∖ {[h]}) live /\
    objects H' = objects H.
Proof.
  intros Hrep Hh Hs.
  assert (HC : C !! h = None).
  { destruct (C !! h) eqn:E; [|done]. by apply (rp_C Hrep) in E as (_ & ? & _). }
  assert (HA : A !! h = None).
  { destruct (A !! h) eqn:E; [|done]. by apply (rp_A Hrep) in E as (_ & ? & _). }
  destruct (rep_room Hrep A h s (rep_A_sub Hrep) Hs HA) as [Hr0 Hr].
  assert (Hap : forall h' s0, A !! h' = Some s0 -> apart s s0).
  { intros h' s0 H0. apply (rep_apart Hrep h h'); [done|by apply (rp_A Hrep) in H0 as []|congruence]. }
  unfold activate. rewrite Hs. simpl. eexists. split; [done|]. split; [|done].
  pose proof (rep_ok Hrep _ _ Hs). pose proof Hrep as [rp_core rp_active rp_cached rp_A rp_C rp_cover rp_held]. split; simpl; try done.
  - apply active_insert; try done; rewrite (at_bytes _ _ _ _ rp_active); done.
  - intros h' s0 [[<- <-]|[? Hs0]]%lookup_insert_Some; [split_and!; [done|set_solver|done]|].
    destruct (rp_A _ _ Hs0) as (? & ? & ?). split_and!; [done|set_solver|done].
  - intros h' s0 Hs0. destruct (rp_C _ _ Hs0) as (? & ? & ?). split_and!; [done|set_solver|].
    rewrite lookup_insert_ne; [done|]. congruence.
  - intros h' s0 Hs0. destruct (decide (h' = h)) as [->|Hne].
    + left. rewrite lookup_insert_eq. congruence.
    + rewrite lookup_insert_ne by done. destruct (rp_cover _ _ Hs0) as [?|[?|?]]; set_solver.
  - intros h' Hh'. apply rp_held. set_solver.
Qed.

(** An operation that only changes the spans it holds. *)
Lemma rep_change H H' A C held held' live live' :
  rep H A C held live -> core (objects H') (next_object H') (system_bytes H') live' ->
  spans H' = spans H -> page_to_span H' = page_to_span H -> active_bytes H' = active_bytes H ->
  free_spans_by_pages H' = free_spans_by_pages H ->
  cached_start_page_to_span H' = cached_start_page_to_span H ->
  cached_end_page_to_span H' = cached_end_page_to_span H -> cached_bytes H' = cached_bytes H ->
  (forall h, h ∉ held -> h ∉ held' -> objects H' !! h = objects H !! h) ->
  (forall h, h ∈ held' -> is_Some (objects H' !! h)) ->
  (forall h, h ∈ held -> h ∉ held' -> objects H' !! h = None) ->
  (forall h, h ∈ held' -> h ∉ held -> objects H !! h = None) ->
  rep H' A C held' live'.
Proof.
  intros Hrep Hcore E1 E2 E3 E4 E5 E6 E7 Hsame Hheld Hgone Hnew.
  pose proof Hrep as [_ Hact Hcach HA HC Hcov Hh].
  assert (Hout : forall h s, objects H !! h = Some s -> h ∉ held ->
            objects H' !! h = Some s /\ (h ∉ held')).
  { intros h s Hs Hn. assert (h ∉ held') by (intros Hh'; rewrite Hnew in Hs; done).
    by rewrite Hsame. }
  split; [done|by rewrite E1, E2, E3|by rewrite E4, E5, E6, E7| | | |done].
  - intros h s Hs. destruct (HA h s Hs) as (? & ? & ?). destruct (Hout h s); done.
  - intros h s Hs. destruct (HC h s Hs) as (? & ? & ?). destruct (Hout h s); done.
  - intros h s Hs. destruct (decide (h ∈ held')); [by auto|].
    destruct (decide (h ∈ held)); [rewrite Hgone in Hs; done|].
    rewrite Hsame in Hs by done. destruct (Hcov h s Hs) as [?|[?|?]]; tauto.
Qed.

(** ** Splitting and merging *)
Lemma start_page_add s n :
  span_ok s -> page_id_of (sp_start s + n * kPageSize) = span_start_page s + n.
Proof.
  intros []. unfold page_id_of. rewrite so_page at 1. unfold kPageSize.
  rewrite Z.mul_comm, <- Z.mul_add_distr_r, Z.div_mul; lia.
Qed.

Lemma pages_small s : span_ok s -> 0 <= sp_page_count s * kPageSize < 2 ^ 64.
Proof. intros []. unfold span_end in *. unfold kPageSize in *. lia. Qed.

Definition split_left (n : Z) (s : Span) : Span :=
  reset_object_info (resize n (wrap 64 (n * kPageSize)) s).

Definition split_right (n : Z) (s : Span) : Span :=
  fresh_span (sp_start s + n * kPageSize) (sp_page_count s - n)
    (wrap 64 ((sp_page_count s - n) * kPageSize)) (sp_allocation_base s) (sp_allocation_bytes s).

Lemma split_ok n s :
  span_ok s -> 0 < n < sp_page_count s ->
  span_ok (split_left n s) /\ span_ok (split_right n s) /\
  span_start_page (split_left n s) = span_start_page s /\
  span_start_page (split_right n s) = span_start_page s + n /\
  sp_bytes (split_left n s) + sp_bytes (split_right n s) = sp_bytes s.
Proof.
  intros Hok Hn. pose proof (pages_small s Hok). pose proof (start_page_add s n Hok) as Hsp.
  pose proof Hok as [].
  assert (W1 : wrap 64 (n * kPageSize) = n * kPageSize) by (apply wrap_id; unfold fits, kPageSize in *; lia).
  assert (W2 : wrap 64 ((sp_page_count s - n) * kPageSize) = (sp_page_count s - n) * kPageSize)
    by (apply wrap_id; unfold fits, kPageSize in *; lia).
  assert (Hr : span_start_page (split_right n s) = span_start_page s + n) by done.
  assert (Hl : span_start_page (split_left n s) = span_start_page s) by done.
  unfold span_end in *. split_and!; try done.
  - split; rewrite ?Hl; unfold span_end; simpl; rewrite ?W1; unfold kPageSize in *; lia.
  - split; rewrite ?Hr; unfold span_end; simpl; rewrite ?W2; unfold kPageSize in *; lia.
  - simpl. rewrite W1, W2. unfold kPageSize in *. lia.
Qed.

Lemma op_split H A C held live h s n :
  rep H A C held live -> h ∈ held -> objects H !! h = Some s -> 0 < n < sp_page_count s ->
  exists H', split_span h n H = Some (Some (next_object H), H') /\
    rep H' A C ({[next_object H]} ∪ held) live /\
    objects H' = <[h := split_left n s]> (<[next_object H := split_right n s]> (objects H)) /\
    (next_object H ∉ held).
Proof.
  intros Hrep Hh Hs Hn. set (r := next_object H).
  pose proof (rp_core Hrep) as [Hfr Hok Hdis Hsys Hlive Htot].
  assert (Hr : objects H !! r = None).
  { destruct (objects H !! r) eqn:E; [|done]. assert (r < r)%nat; [|lia]. apply Hfr. by eexists. }
  assert (h <> r) by congruence.
  assert (r ∉ held) by (intros Hx; apply (rp_held Hrep) in Hx as [? ?]; congruence).
  destruct (split_ok n s (Hok _ _ Hs) Hn) as (Hl & Hr' & Hpl & Hpr & Hsum).
  unfold split_span. rewrite Hs. simpl.
  destruct (Z.eqb_spec n 0); [lia|]. destruct (Z.leb_spec (sp_page_count s) n); [lia|]. simpl.
  eexists. split; [done|]. split_and!; [|done|done].
  set (o := <[h := split_left n s]> (<[r := split_right n s]> (objects H))).
  assert (Ho : forall h0 s0, o !! h0 = Some s0 ->
    h0 = h /\ s0 = split_left n s \/ h0 = r /\ s0 = split_right n s \/
    h0 <> h /\ h0 <> r /\ objects H !! h0 = Some s0).
  { intros h0 s0 [[<- <-]|[? [[<- <-]|[? ?]]%lookup_insert_Some]]%lookup_insert_Some; auto 6. }
  eapply rep_change; try done; simpl.
  - fold r. fold (split_left n s). fold (split_right n s). fold o. split.
    + intros h0 [s0 Hs0]. destruct (Ho _ _ Hs0) as [[-> _]|[[-> _]|(_ & _ & ?)]];
        [pose proof (Hfr h ltac:(by eexists))| |pose proof (Hfr h0 ltac:(by eexists))]; unfold r; lia.
    + intros h0 s0 Hs0. destruct (Ho _ _ Hs0) as [[_ ->]|[[_ ->]|(_ & _ & ?)]]; eauto.
    + assert (Hlr : apart (split_left n s) (split_right n s)).
      { unfold apart, span_end_page. rewrite Hpl, Hpr. simpl. lia. }
      assert (Hx : forall h0 s0, h0 <> h -> objects H !! h0 = Some s0 ->
                apart (split_left n s) s0 /\ apart (split_right n s) s0).
      { intros h0 s0 Hne Hs0. pose proof (Hdis _ _ _ _ Hs0 Hs Hne) as Ha. pose proof (Hok _ _ Hs0) as [].
        unfold apart, span_end_page in *. rewrite Hpl, Hpr. simpl. lia. }
      intros h1 h2 s1 s2 Hs1 Hs2 Hne.
      destruct (Ho _ _ Hs1) as [[-> ->]|[[-> ->]|(? & ? & H1')]];
        destruct (Ho _ _ Hs2) as [[-> ->]|[[-> ->]|(? & ? & H2')]]; try done; try by apply apart_sym.
      * by apply (Hx h2).
      * by apply (Hx h2).
      * by apply apart_sym, (Hx h1).
      * by apply apart_sym, (Hx h1).
      * by eapply (Hdis h1 h2).
    + unfold o. rewrite (bsum_insert _ _ _ s) by (by rewrite lookup_insert_ne).
      rewrite bsum_insert_new by done. rewrite Hsys. lia.
    + intros b m. rewrite Hlive. split.
      * intros (h0 & s0 & Hs0 & Hb). destruct (decide (h0 = h)) as [->|].
        -- exists h, (split_left n s). unfold o. rewrite lookup_insert_eq. by simplify_eq.
        -- exists h0, s0. unfold o. rewrite lookup_insert_ne, lookup_insert_ne by congruence. done.
      * intros (h0 & s0 & Hs0 & Hb). destruct (Ho _ _ Hs0) as [[-> ->]|[[-> ->]|(? & ? & ?)]]; eauto.
    + done.
  - intros h0 Hn0 Hn1. fold r. rewrite lookup_insert_ne, lookup_insert_ne by set_solver. done.
  - intros h0 Hh0. fold r. destruct (decide (h0 = h)) as [->|]; [rewrite lookup_insert_eq; by eexists|].
    rewrite lookup_insert_ne by done. destruct (decide (h0 = r)) as [->|]; [rewrite lookup_insert_eq; by eexists|].
    rewrite lookup_insert_ne by done. apply (rp_held Hrep). set_solver.
  - intros h0 ? ?. set_solver.
  - intros h0 Hh0 Hn0. assert (h0 = r) as -> by set_solver. done.
Qed.

Lemma can_merge_true sl sr :
  can_merge sl sr = true <->
  sp_allocation_base sl = sp_allocation_base sr /\ sp_allocation_bytes sl = sp_allocation_bytes sr /\
  span_end sl = sp_start sr.
Proof.
  unfold can_merge. destruct (Z.eqb_spec (sp_allocation_base sl) (sp_allocation_base sr));
    destruct (Z.eqb_spec (sp_allocation_bytes sl) (sp_allocation_bytes sr)); simpl;
    rewrite ?Z.eqb_eq; intuition congruence.
Qed.

Lemma span_end_pages s : span_ok s -> span_end s = kPageSize * span_end_page s.
Proof. intros []. unfold span_end, span_end_page. lia. Qed.

(** Two mergeable spans touch. *)
Lemma merge_touch sl sr :
  span_ok sl -> span_ok sr -> can_merge sl sr = true -> span_end_page sl = span_start_page sr.
Proof.
  intros Hl Hr (_ & _ & He)%can_merge_true. rewrite (span_end_pages sl Hl) in He.
  destruct Hr. unfold kPageSize in *. lia.
Qed.

Lemma absorb_ok sl sr :
  span_ok sl -> span_ok sr -> can_merge sl sr = true ->
  span_ok (absorb sl sr) /\ span_start_page (absorb sl sr) = span_start_page sl /\
  span_end_page (absorb sl sr) = span_end_page sr /\
  sp_bytes (absorb sl sr) = sp_bytes sl + sp_bytes sr.
Proof.
  intros Hl Hr Hm. pose proof (merge_touch _ _ Hl Hr Hm) as Ht.
  pose proof (span_ok_end _ Hr) as Hend. pose proof (span_end_pages _ Hr) as Her.
  apply can_merge_true in Hm as (Hb & Hab & He). pose proof Hl as []. pose proof Hr as [].
  assert (Hst : span_start_page (absorb sl sr) = span_start_page sl) by done.
  unfold span_end_page, span_end in *.
  assert (W1 : wrap 64 (sp_page_count sl + sp_page_count sr) = sp_page_count sl + sp_page_count sr)
    by (apply wrap_id; unfold fits, kPageSize in *; lia).
  assert (W2 : wrap 64 (sp_bytes sl + sp_bytes sr) = sp_bytes sl + sp_bytes sr)
    by (apply wrap_id; unfold fits, kPageSize in *; lia).
  split_and!; [|done| |done].
  - split; rewrite ?Hst; unfold span_end; simpl; rewrite ?W1, ?W2; unfold kPageSize in *; lia.
  - rewrite Hst. simpl. rewrite W1. lia.
Qed.

Lemma op_absorb H A C held live l r sl sr :
  rep H A C held live -> l ∈ held -> r ∈ held -> l <> r ->
  objects H !! l = Some sl -> objects H !! r = Some sr -> can_merge sl sr = true ->
  rep (delete_object r (update_object l (absorb sl sr) H)) A C (held ∖ {[r]}) live.
Proof.
  intros Hrep Hl Hr Hlr Hsl Hsr Hm.
  pose proof (rp_core Hrep) as [Hfr Hok Hdis Hsys Hlive Htot].
  destruct (absorb_ok sl sr) as (Hmok & Hst & Hen & Hby); eauto.
  pose proof (merge_touch sl sr ltac:(eauto) ltac:(eauto) Hm) as Ht.
  set (o := delete r (<[l := absorb sl sr]> (objects H))).
  assert (Ho : forall h0 s0, o !! h0 = Some s0 ->
    h0 = l /\ s0 = absorb sl sr \/ h0 <> l /\ h0 <> r /\ objects H !! h0 = Some s0).
  { intros h0 s0 [? [[<- <-]|[? ?]]%lookup_insert_Some]%lookup_delete_Some; auto 6. }
  assert (Hol : o !! l = Some (absorb sl sr)).
  { unfold o. rewrite lookup_delete_ne by done. apply lookup_insert_eq. }
  assert (Hon : forall h0, h0 <> l -> h0 <> r -> o !! h0 = objects H !! h0).
  { intros h0 ??. unfold o. by rewrite lookup_delete_ne, lookup_insert_ne. }
  eapply rep_change; try done; simpl.
  - fold o. split.
    + intros h0 [s0 Hs0]. destruct (Ho _ _ Hs0) as [[-> _]|(_ & _ & ?)]; apply Hfr; by eexists.
    + intros h0 s0 Hs0. destruct (Ho _ _ Hs0) as [[_ ->]|(_ & _ & ?)]; eauto.
    + assert (Hx : forall h0 s0, h0 <> l -> h0 <> r -> objects H !! h0 = Some s0 ->
                apart (absorb sl sr) s0).
      { intros h0 s0 Hnl Hnr Hs0. pose proof (Hdis _ _ _ _ Hs0 Hsl Hnl). pose proof (Hdis _ _ _ _ Hs0 Hsr Hnr).
        pose proof (Hok _ _ Hs0) as []. unfold apart in *. rewrite Hst, Hen.
        unfold span_end_page in *. lia. }
      intros h1 h2 s1 s2 Hs1 Hs2 Hne.
      destruct (Ho _ _ Hs1) as [[-> ->]|(? & ? & ?)]; destruct (Ho _ _ Hs2) as [[-> ->]|(? & ? & ?)];
        try done; [by apply (Hx h2)|by apply apart_sym, (Hx h1)|by eapply (Hdis h1 h2)].
    + unfold o. rewrite (bsum_delete _ _ sr) by (by rewrite lookup_insert_ne).
      rewrite (bsum_insert _ _ _ sl) by done. rewrite Hsys. lia.
    + apply can_merge_true in Hm as (Hb & Hab & _). intros b m. rewrite Hlive. split.
      * intros (h0 & s0 & Hs0 & Hbm). destruct (decide (h0 = l \/ h0 = r)) as [Hlr'|Hn].
        -- exists l, (absorb sl sr). split; [done|]. simpl.
           destruct Hbm as [<- <-], Hlr' as [-> | ->].
           ++ rewrite Hsl in Hs0. by injection Hs0 as <-.
           ++ rewrite Hsr in Hs0. by injection Hs0 as <-.
        -- exists h0, s0. rewrite Hon by tauto. done.
      * intros (h0 & s0 & Hs0 & Hbm). destruct (Ho _ _ Hs0) as [[-> ->]|(? & ? & ?)]; [|eauto].
        exists l, sl. done.
    + done.
  - fold o. intros h0 Hn0 _. apply Hon; congruence.
  - fold o. intros h0 Hh0. destruct (decide (h0 = l)) as [->|]; [by eexists|].
    apply kept_elem in Hh0 as [Hh0 ?]. rewrite Hon by done. by apply (rp_held Hrep).
  - fold o. intros h0 Hh0 Hn0. rewrite (removed_elem _ _ _ Hh0 Hn0). apply lookup_delete_eq.
  - intros h0 [Hh0 _]%kept_elem. done.
Qed.

(** ** Coalescing *)

(** No two cached spans can be merged. *)
Definition coalesced (C : gmap nat Span) : Prop :=
  forall h h' s s', C !! h = Some s -> C !! h' = Some s' -> can_merge s s' = false.

Lemma coalesced_delete C h : coalesced C -> coalesced (delete h C).
Proof. intros HC h1 h2 s1 s2 [_ H1]%lookup_delete_Some [_ H2]%lookup_delete_Some. eauto. Qed.

Section neighbours.
Context {H : PageHeap} {A C : gmap nat Span} {held : gset nat} {live : gmap Z Z}.
Hypothesis Hrep : rep H A C held live.

Lemma left_neighbour_spec s :
  span_ok s ->
  (exists l sl, left_neighbour s H = Some (Some (l, sl)) /\ C !! l = Some sl /\
     objects H !! l = Some sl /\ can_merge sl s = true) \/
  (left_neighbour s H = Some None /\ forall l sl, C !! l = Some sl -> can_merge sl s = false).
Proof using Hrep.
  intros Hs. pose proof (rp_cached Hrep) as [_ _ _ Hend _]. unfold left_neighbour.
  assert (Hno : (forall l, cached_end_page_to_span H !! span_start_page s = Some l ->
      forall sl, C !! l = Some sl -> can_merge sl s = false) ->
    forall l sl, C !! l = Some sl -> can_merge sl s = false).
  { intros Hl l sl Hsl. destruct (can_merge sl s) eqn:Hm; [|done]. rewrite <- Hm. eapply (Hl l); [|done].
    apply Hend. exists sl. split; [done|]. apply merge_touch; [by eapply rep_C_ok|done|done]. }
  destruct (cached_end_page_to_span H !! span_start_page s) as [l|] eqn:Hl; [|right; split; [done|]].
  - pose proof (proj1 (Hend _ _) Hl) as (sl & Hsl & _). destruct (rp_C Hrep _ _ Hsl) as (Ho & _).
    rewrite Ho. simpl. destruct (can_merge sl s) eqn:Hm; [left; eauto 7|].
    right. split; [done|]. apply Hno. intros l' [= <-] sl' Hsl'. congruence.
  - apply Hno. done.
Qed.

Lemma right_neighbour_spec s :
  span_ok s ->
  (exists r sr, right_neighbour s H = Some (Some (r, sr)) /\ C !! r = Some sr /\
     objects H !! r = Some sr /\ can_merge s sr = true) \/
  (right_neighbour s H = Some None /\ forall r sr, C !! r = Some sr -> can_merge s sr = false).
Proof using Hrep.
  intros Hs. pose proof (rp_cached Hrep) as [_ _ Hstart _ _]. unfold right_neighbour.
  assert (Hno : (forall r, cached_start_page_to_span H !! span_end_page s = Some r ->
      forall sr, C !! r = Some sr -> can_merge s sr = false) ->
    forall r sr, C !! r = Some sr -> can_merge s sr = false).
  { intros Hr r sr Hsr. destruct (can_merge s sr) eqn:Hm; [|done]. rewrite <- Hm. eapply (Hr r); [|done].
    apply Hstart. exists sr. split; [done|]. symmetry. apply merge_touch; [done|by eapply rep_C_ok|done]. }
  destruct (cached_start_page_to_span H !! span_end_page s) as [r|] eqn:Hr; [|right; split; [done|]].
  - pose proof (proj1 (Hstart _ _) Hr) as (sr & Hsr & _). destruct (rp_C Hrep _ _ Hsr) as (Ho & _).
    rewrite Ho. simpl. destruct (can_merge s sr) eqn:Hm; [left; eauto 7|].
    right. split; [done|]. apply Hno. intros r' [= <-] sr' Hsr'. congruence.
  - apply Hno. done.
Qed.
End neighbours.

(** What coalescing the held span [h] does: it ends, with a held span that cannot be merged
    any further; the other held spans are untouched. *)
Record coalesce_post (H : PageHeap) (A C : gmap nat Span) (held : gset nat) (live : gmap Z Z) (h : nat)
    (h' : nat) (H' : PageHeap) (C' : gmap nat Span) (s' : Span) : Prop := {
  cp_rep : rep H' A C' ({[h']} ∪ held ∖ {[h]}) live;
  cp_sub : C' ⊆ C;
  cp_obj : objects H' !! h' = Some s';
  cp_max : forall h0 s0, C' !! h0 = Some s0 -> can_merge s0 s' = false /\ can_merge s' s0 = false;
  cp_new : h' ∉ held ∖ {[h]};
  cp_same : forall h0, h0 ∈ held ∖ {[h]} -> objects H' !! h0 = objects H !! h0;
}.

Lemma coalesce_spec fuel H A C held live h s :
  rep H A C held live -> h ∈ held -> objects H !! h = Some s -> (size C < fuel)%nat ->
  exists h' H' C' s', coalesce_span fuel h H = Some (h', H') /\
    coalesce_post H A C held live h h' H' C' s'.
Proof.
  revert H C held h s. induction fuel as [|fuel IH]; intros H C held h s Hrep Hh Hs Hf; [lia|].
  pose proof (rep_ok Hrep _ _ Hs) as Hok. simpl. rewrite Hs. simpl.
  assert (Hstep : forall l sl H1 a b, C !! l = Some sl -> erase_cached_span l H = Some H1 ->
    (a = l /\ b = h \/ a = h /\ b = l) -> forall sa sb, objects H !! a = Some sa -> objects H !! b = Some sb ->
    can_merge sa sb = true ->
    exists h' H' C' s',
      coalesce_span fuel a (delete_object b (update_object a (absorb sa sb) H1)) = Some (h', H') /\
      coalesce_post H A C held live h h' H' C' s').
  { intros l sl H1 a b HCl He Hab sa sb Hsa Hsb Hm.
    destruct (op_erase _ _ _ _ _ _ _ Hrep HCl) as (H1' & He' & Hrep1 & Hobj).
    rewrite He in He'. injection He' as <-.
    destruct (rp_C Hrep _ _ HCl) as (Hol & Hlh & _). assert (l <> h) by congruence.
    assert (Hne : a <> b) by (destruct Hab as [[-> ->]|[-> ->]]; congruence).
    assert (Ha : a ∈ {[l]} ∪ held) by (destruct Hab as [[-> ->]|[-> ->]]; set_solver).
    assert (Hb : b ∈ {[l]} ∪ held) by (destruct Hab as [[-> ->]|[-> ->]]; set_solver).
    rewrite <- Hobj in Hsa, Hsb.
    pose proof (op_absorb _ _ _ _ _ _ _ _ _ Hrep1 Ha Hb Hne Hsa Hsb Hm) as Hrep2.
    edestruct (IH _ _ _ a (absorb sa sb) Hrep2) as (h' & H' & C' & s' & Hco & [P1 P2 P3 P4 P5 P6]).
    - set_solver.
    - simpl. rewrite lookup_delete_ne by done. apply lookup_insert_eq.
    - rewrite map_size_delete_Some by eauto. pose proof (map_size_ne_0_lookup C). 
      assert (size C <> 0%nat) by (apply map_size_ne_0_lookup; eauto). lia.
    - exists h', H', C', s'. split; [done|].
      assert (Heq : (({[l]} ∪ held) ∖ {[b]}) ∖ {[a]} = held ∖ {[h]})
        by (apply set_eq; intros x; destruct Hab as [[-> ->]|[-> ->]]; set_solver).
      rewrite Heq in *. split; try done.
      + etrans; [exact P2|apply delete_subseteq].
      + intros h0 Hh0. rewrite P6 by done. simpl.
        assert (h0 <> a /\ h0 <> b) as [? ?] by (destruct Hab as [[-> ->]|[-> ->]]; set_solver).
        by rewrite lookup_delete_ne, lookup_insert_ne, Hobj. }
  destruct (left_neighbour_spec Hrep s Hok) as [(l & sl & -> & HCl & Hol & Hm)|[-> Hleft]]; simpl.
  { destruct (op_erase _ _ _ _ _ _ _ Hrep HCl) as (H1 & He & _ & _). rewrite He. simpl.
    by eapply (Hstep l sl H1 l h); eauto. }
  destruct (right_neighbour_spec Hrep s Hok) as [(r & sr & -> & HCr & Hor & Hm)|[-> Hright]]; simpl.
  { destruct (op_erase _ _ _ _ _ _ _ Hrep HCr) as (H1 & He & _ & _). rewrite He. simpl.
    by eapply (Hstep r sr H1 h r); eauto. }
  exists h, H, C, s. split; [done|]. split; [|done|done|by eauto|set_solver|done].
  by rewrite held_restore.
Qed.

#[local] Arguments coalesce_span : simpl never.

(** ** Caching a span *)
Lemma op_cache H A C held live h s :
  rep H A C held live -> coalesced C -> h ∈ held -> objects H !! h = Some s ->
  exists H' C', cache_span h H = Some H' /\ rep H' A C' (held ∖ {[h]}) live /\ coalesced C' /\
    (forall h0, h0 ∈ held ∖ {[h]} -> objects H' !! h0 = objects H !! h0).
Proof.
  intros Hrep HC Hh Hs. unfold cache_span. rewrite Hs. simpl.
  pose proof (op_update _ _ _ _ _ _ _ _ Hrep Hh Hs (same_extent_reset s)) as Hrep1.
  set (H1 := update_object h (reset_object_info s) H) in *.
  assert (Hs1 : objects H1 !! h = Some (reset_object_info s)) by apply lookup_insert_eq.
  assert (Hfuel : (size C < S (size (objects H1)))%nat).
  { pose proof (map_subseteq_size _ _ (rep_C_sub Hrep1)). lia. }
  destruct (coalesce_spec _ _ _ _ _ _ _ _ Hrep1 Hh Hs1 Hfuel) as (h' & H2 & C2 & s2 & Hco & []).
  change (<[h := reset_object_info s]> (objects H)) with (objects H1). rewrite Hco. simpl.
  destruct (op_insert _ _ _ _ _ h' s2 cp_rep0) as (H3 & Hi & Hrep3 & Hobj); [set_solver|done|].
  rewrite Hi. exists H3, (<[h' := reset_object_info s2]> C2). split; [done|].
  replace (({[h']} ∪ held ∖ {[h]}) ∖ {[h']}) with (held ∖ {[h]}) in Hrep3
    by (apply set_eq; intros x; set_solver). split_and!; [done| |].
  - intros h1 h2 s1 s2' [[<- <-]|[? H1']]%lookup_insert_Some [[<- <-]|[? H2']]%lookup_insert_Some.
    + apply not_true_is_false. intros (_ & _ & He)%can_merge_true. simpl in He.
      pose proof (rep_ok cp_rep0 _ _ cp_obj0) as []. unfold span_end, kPageSize in *. simpl in *. lia.
    + by apply cp_max0 in H2' as [_ ?].
    + by apply cp_max0 in H1' as [? _].
    + eapply HC; eapply lookup_weaken; eauto.
  - intros h0 Hh0. rewrite Hobj by congruence. rewrite cp_same0 by done.
    apply kept_elem in Hh0 as [_ ?]. unfold H1. simpl. by rewrite lookup_insert_ne.
Qed.
