(* ===== verification/PageHeapOps.v ===== *)
(** The public operations of the page heap: what [new_span], [release_span],
    [map_object_to_span], [purge_cached_spans] and the destructor do to the active and
    cached spans and to the blocks of the system. *)
From S2P Require Import Prelude SizeClass PageHeap PageHeapInv PageHeapProofs.
Import SizeClass(kPageSize).

#[local] Arguments coalesce_span : simpl never.

Section ops.
Context `{!IterOrder Z (list nat)}.

(** The heap between two operations. *)
Record heap_inv (H : PageHeap) (A C : gmap nat Span) (live : gmap Z Z) : Prop := {
  hi_rep : rep H A C ∅ live;
  hi_coalesced : coalesced C;
}.

Lemma heap_inv_init : heap_inv heap_init ∅ ∅ ∅.
Proof.
  assert (Hno : forall (P : nat -> Span -> Prop), ~ exists h s, (∅ : gmap nat Span) !! h = Some s /\ P h s).
  { intros P (h & s & Hs & _). done. }
  split; [|done]. split; simpl.
  - split; try done.
    + by intros h [s Hs].
    + intros b n. split; [done|]. intros Hx. by apply Hno in Hx.
  - split; try done.
    + constructor.
    + intros h. split; [by intros ?%not_elem_of_nil|by intros [s ?]].
    + intros p h. split; [done|]. by intros (s & ? & _).
  - split; try done; intros p h; (split; [done|]); by intros (s & ? & _).
  - done.
  - done.
  - done.
  - intros h Hh. set_solver.
Qed.

(** ** Taking a cached span *)
Lemma take_list H A C held live k l :
  rep H A C held live -> free_spans_by_pages H !! k = Some l ->
  exists h s, last l = Some h /\ C !! h = Some s /\ sp_page_count s = k.
Proof.
  intros Hrep Hl. pose proof (rp_cached Hrep) as [Hlists _ _ _ _].
  destruct (Hlists _ _ Hl) as (Hne & _ & Hin).
  destruct (last l) as [h|] eqn:Hlast; [|by apply last_None in Hlast].
  apply last_Some_elem_of, Hin in Hlast as (s & ? & ?). eauto.
Qed.

Lemma best_larger_spec n items bp best :
  (forall k l, (k, l) ∈ items -> k < u64_max) ->
  match best_larger n items bp best with
  | None => best = None /\ forall k l, (k, l) ∈ items -> l <> [] -> n < k -> bp <= k
  | Some l =>
      (best = Some l /\ (forall k l', (k, l') ∈ items -> l' <> [] -> n < k -> bp <= k)) \/
      exists k, (k, l) ∈ items /\ n < k < bp /\ l <> [] /\
        forall k' l', (k', l') ∈ items -> l' <> [] -> n < k' -> k <= k'
  end.
Proof.
  revert bp best. induction items as [|[k l] items IH]; intros bp best Hk; simpl.
  { destruct best; [left|]; split; try done; by intros ?? ?%not_elem_of_nil. }
  assert (Hk' : forall k l, (k, l) ∈ items -> k < u64_max) by (intros; eapply Hk; by right).
  assert (Hskip : l = [] \/ ~ (n < k < bp) ->
    match best_larger n items bp best with
    | None => best = None /\ forall k' l', (k', l') ∈ (k, l) :: items -> l' <> [] -> n < k' -> bp <= k'
    | Some l0 =>
        (best = Some l0 /\ (forall k' l', (k', l') ∈ (k, l) :: items -> l' <> [] -> n < k' -> bp <= k')) \/
        exists k0, (k0, l0) ∈ (k, l) :: items /\ n < k0 < bp /\ l0 <> [] /\
          forall k' l', (k', l') ∈ (k, l) :: items -> l' <> [] -> n < k' -> k0 <= k'
    end).
  { intros Hs. specialize (IH bp best Hk'). destruct (best_larger n items bp best) as [l0|].
    - destruct IH as [[-> IH]|(k0 & Hin & Hr & Hl0 & IH)]; [left|right].
      + split; [done|]. intros k' l' [[= -> ->]|?]%elem_of_cons; [destruct Hs; [done|lia]|eauto].
      + exists k0. split_and!; [by right|lia|lia|done|].
        intros k' l' [[= -> ->]|?]%elem_of_cons; [destruct Hs; [done|lia]|eauto].
    - destruct IH as [-> IH]. split; [done|].
      intros k' l' [[= -> ->]|?]%elem_of_cons; [destruct Hs; [done|lia]|eauto]. }
  destruct l as [|x l]; [by apply Hskip; left|].
  destruct ((n <? k) && (k <? bp)) eqn:Hc; [|apply Hskip; right; lia].
  specialize (IH k (Some (x :: l)) Hk'). destruct (best_larger n items k (Some (x :: l))) as [l0|]; [|by destruct IH].
  right. destruct IH as [[[= <-] IH]|(k0 & Hin & Hr & Hl0 & IH)].
  - exists k. split_and!; [by left|lia|lia|done|].
    intros k' l' [[= -> ->]|?]%elem_of_cons; [lia|eauto].
  - exists k0. split_and!; [by right|lia|lia|done|].
    intros k' l' [[= -> ->]|?]%elem_of_cons; [lia|eauto].
Qed.

Lemma page_count_bound H A C held live h s :
  rep H A C held live -> C !! h = Some s -> sp_page_count s < u64_max.
Proof.
  intros Hrep Hs. apply (rep_C_ok Hrep) in Hs. pose proof (span_ok_end _ Hs). destruct Hs.
  unfold span_end_page, u64_max in *. lia.
Qed.

(** The spans [take_larger_cached_span] may return. *)
Definition best_fit (n : Z) (C : gmap nat Span) (s : Span) : Prop :=
  n < sp_page_count s /\
  forall h' s', C !! h' = Some s' -> n < sp_page_count s' -> sp_page_count s <= sp_page_count s'.

Lemma take_larger_spec H A C held live n :
  rep H A C held live ->
  (exists h s H', take_larger_cached_span n H = Some (Some h, H') /\ C !! h = Some s /\
     best_fit n C s /\ rep H' A (delete h C) ({[h]} ∪ held) live /\ objects H' = objects H) \/
  (take_larger_cached_span n H = Some (None, H) /\
   forall h s, C !! h = Some s -> sp_page_count s <= n).
Proof.
  intros Hrep. pose proof (rp_cached Hrep) as [Hlists Hlisted _ _ _].
  assert (Hitems : forall k l, (k, l) ∈ iter_map (free_spans_by_pages H) <->
            free_spans_by_pages H !! k = Some l) by (intros; apply elem_of_iter_map).
  unfold take_larger_cached_span.
  pose proof (best_larger_spec n (iter_map (free_spans_by_pages H)) u64_max None) as Hb.
  assert (Hin : forall h s, C !! h = Some s -> n < sp_page_count s ->
    exists l, (sp_page_count s, l) ∈ iter_map (free_spans_by_pages H) /\ l <> []).
  { intros h s Hs Hn. destruct (Hlisted _ _ Hs) as [l Hl]. exists l. rewrite Hitems.
    split; [done|]. by destruct (Hlists _ _ Hl). }
  assert (Hpre : forall k l, (k, l) ∈ iter_map (free_spans_by_pages H) -> k < u64_max).
  { intros k l0 Hk%Hitems. destruct (take_list _ _ _ _ _ _ _ Hrep Hk) as (h & s & _ & Hs & <-).
    by eapply page_count_bound. }
  specialize (Hb Hpre). destruct (best_larger n (iter_map (free_spans_by_pages H)) u64_max None) as [l|].
  - left. destruct Hb as [[Hb _]|(k & Hk & Hr & Hl & Hmin)]; [done|].
    apply Hitems in Hk. destruct (take_list _ _ _ _ _ _ _ Hrep Hk) as (h & s & -> & Hs & Hpc). simpl.
    destruct (op_erase _ _ _ _ _ _ _ Hrep Hs) as (H' & -> & Hrep' & Hobj). simpl.
    exists h, s, H'. do 2 (split; [done|]). split; [|done]. split; [lia|]. intros h' s' Hs' Hn.
    destruct (Hin _ _ Hs' Hn) as (l' & Hl' & Hne). rewrite Hpc. eauto.
  - right. split; [done|]. destruct Hb as [_ Hb].
    intros h s Hs. destruct (Z.le_gt_cases (sp_page_count s) n); [done|].
    destruct (Hin _ _ Hs ltac:(lia)) as (l & Hl & Hne). pose proof (page_count_bound _ _ _ _ _ _ _ Hrep Hs).
    specialize (Hb _ _ Hl Hne ltac:(lia)). lia.
Qed.

Lemma take_cached_spec H A C held live n :
  rep H A C held live ->
  (exists h s H', take_cached_span n H = Some (Some h, H') /\ C !! h = Some s /\
     sp_page_count s = n /\ rep H' A (delete h C) ({[h]} ∪ held) live /\ objects H' = objects H) \/
  (take_cached_span n H = Some (None, H) /\ forall h s, C !! h = Some s -> sp_page_count s <> n).
Proof.
  intros Hrep. pose proof (rp_cached Hrep) as [_ Hlisted _ _ _]. unfold take_cached_span.
  destruct (free_spans_by_pages H !! n) as [l|] eqn:Hl.
  - left. destruct (take_list _ _ _ _ _ _ _ Hrep Hl) as (h & s & -> & Hs & Hpc). simpl.
    destruct (op_erase _ _ _ _ _ _ _ Hrep Hs) as (H' & -> & Hrep' & Hobj). simpl. eauto 9.
  - right. split; [done|]. intros h s Hs <-. destruct (Hlisted _ _ Hs) as [l ?]. congruence.
Qed.

(** ** [new_span] *)

(** A block [operator new] may return: page aligned, in the address space and disjoint
    from the live blocks. *)
Definition block_fresh (m bytes : Z) (live : gmap Z Z) : Prop :=
  0 < m /\ m mod kPageSize = 0 /\ m + bytes <= 2 ^ 64 /\
  forall b k, live !! b = Some k -> b + k <= m \/ m + bytes <= b.

Lemma union_empty_held (h : nat) : {[h]} ∪ (∅ : gset nat) = {[h]}.
Proof. set_solver. Qed.

Lemma new_span_cached_spec H A C live n :
  heap_inv H A C live -> 1 <= n ->
  (exists h s H' C', new_span_cached n H = Some (Some h, H') /\ A !! h = None /\
     sp_page_count s = n /\ s = reset_object_info s /\ heap_inv H' (<[h := s]> A) C' live) \/
  (new_span_cached n H = Some (None, H) /\ forall h s, C !! h = Some s -> sp_page_count s < n).
Proof.
  intros [Hrep HC] Hn. unfold new_span_cached.
  destruct (take_cached_spec H A C ∅ live n Hrep) as [(h & s & H1 & -> & Hs & Hpc & Hrep1 & Hobj)|[-> Hnone]]; simpl.
  - left. destruct (rp_C Hrep _ _ Hs) as (Ho & _ & HA). rewrite Hobj, Ho. simpl.
    rewrite union_empty_held in Hrep1. rewrite <- Hobj in Ho.
    pose proof (op_update _ _ _ _ _ h _ _ Hrep1 ltac:(set_solver) Ho (same_extent_reset s)) as Hrep2.
    destruct (op_activate _ _ _ _ _ h (reset_object_info s) Hrep2) as (H2 & -> & Hrep3 & _);
      [set_solver|apply lookup_insert_eq|].
    simpl. exists h, (reset_object_info s), H2, (delete h C). split_and!; try done.
    rewrite difference_diag_L in Hrep3. split; [done|]. by apply coalesced_delete.
  - destruct (take_larger_spec H A C ∅ live n Hrep) as [(h & s & H1 & -> & Hs & [Hfit _] & Hrep1 & Hobj)|[-> Hsmall]]; simpl.
    + left. destruct (rp_C Hrep _ _ Hs) as (Ho & _ & HA). rewrite <- Hobj in Ho.
      rewrite union_empty_held in Hrep1.
      destruct (op_split _ _ _ _ _ h s n Hrep1) as (H2 & -> & Hrep2 & Hobj2 & Hnew); [set_solver|done|lia|].
      simpl. set (r := next_object H1) in *. assert (r <> h) by set_solver.
      destruct (op_cache _ _ _ _ _ r (split_right n s) Hrep2) as (H3 & C3 & -> & Hrep3 & HC3 & Hsame);
        [by apply coalesced_delete|set_solver| |].
      { rewrite Hobj2, lookup_insert_ne by done. apply lookup_insert_eq. }
      simpl. assert (Heq : ({[r]} ∪ {[h]}) ∖ {[r]} = ({[h]} : gset nat)) by (apply set_eq; set_solver).
      rewrite Heq in *.
      destruct (op_activate _ _ _ _ _ h (split_left n s) Hrep3) as (H4 & -> & Hrep4 & _); [set_solver| |].
      { rewrite Hsame, Hobj2 by set_solver. apply lookup_insert_eq. }
      simpl. exists h, (split_left n s), H4, C3. split_and!; try done.
      rewrite difference_diag_L in Hrep4. by split.
    + right. split; [done|]. intros h s Hs. specialize (Hnone h s Hs). specialize (Hsmall h s Hs). lia.
Qed.

Lemma fresh_block_span m n live :
  1 <= n <= u64_max / kPageSize -> block_fresh m (n * kPageSize) live ->
  span_ok (fresh_span m n (n * kPageSize) m (n * kPageSize)) /\ wrap 64 (n * kPageSize) = n * kPageSize.
Proof.
  intros Hn (Hm & Hal & Htop & _). set (s := fresh_span m n (n * kPageSize) m (n * kPageSize)).
  assert (Hst : m = kPageSize * span_start_page s).
  { unfold span_start_page, page_id_of. simpl. apply Z.div_exact; [done|]. done. }
  split; [split; unfold span_end; simpl; unfold kPageSize in *; lia|].
  apply wrap_id. unfold fits, kPageSize in *. lia.
Qed.

Lemma fresh_block_apart m n s live :
  1 <= n <= u64_max / kPageSize -> block_fresh m (n * kPageSize) live -> span_ok s ->
  live !! sp_allocation_base s = Some (sp_allocation_bytes s) ->
  apart (fresh_span m n (n * kPageSize) m (n * kPageSize)) s.
Proof.
  intros Hn Hf Hs Hl. destruct (fresh_block_span m n live Hn Hf) as [Hok _].
  pose proof (span_end_pages _ Hok) as He. pose proof (span_end_pages _ Hs) as Hes.
  destruct Hf as (_ & _ & _ & Hf). specialize (Hf _ _ Hl). destruct Hok, Hs.
  unfold apart. unfold span_end in *. simpl in *. unfold kPageSize in *. lia.
Qed.

Lemma new_span_system_spec H A C live n m :
  heap_inv H A C live -> 1 <= n <= u64_max / kPageSize -> block_fresh m (n * kPageSize) live ->
  exists h H', new_span_system n m H = Some (h, H') /\ A !! h = None /\ live !! m = None /\
    heap_inv H' (<[h := fresh_span m n (n * kPageSize) m (n * kPageSize)]> A) C
      (<[m := n * kPageSize]> live).
Proof.
  intros [Hrep HC] Hn Hf. destruct (fresh_block_span m n live Hn Hf) as [Hok HW].
  pose proof (rp_core Hrep) as [Hfr Hoks Hdis Hsys Hlive Htot].
  set (s := fresh_span m n (n * kPageSize) m (n * kPageSize)) in *. set (h := next_object H).
  assert (Hh : objects H !! h = None).
  { destruct (objects H !! h) eqn:E; [|done]. assert (h < h)%nat; [|lia]. apply Hfr. by eexists. }
  assert (Hblock : forall h' s', objects H !! h' = Some s' ->
            live !! sp_allocation_base s' = Some (sp_allocation_bytes s')) by (intros; apply Hlive; eauto).
  assert (Hap : forall h' s', objects H !! h' = Some s' -> apart s s')
    by (intros; eapply fresh_block_apart; eauto).
  assert (Hm : live !! m = None).
  { destruct (live !! m) as [k|] eqn:E; [|done]. apply Hlive in E as (h' & s' & Hs' & Hb & Hk).
    pose proof (Hap _ _ Hs') as Ha. pose proof (Hoks _ _ Hs') as []. pose proof Hok as [].
    pose proof (proj2 (proj2 (proj2 Hf)) _ _ (Hblock _ _ Hs')) as Hd.
    unfold span_end, kPageSize in *. simpl in *. lia. }
  set (o := <[h := s]> (objects H)).
  assert (Hdo : disjoint_spans o).
  { intros h1 h2 s1 s2 [[<- <-]|[? H1]]%lookup_insert_Some [[<- <-]|[? H2]]%lookup_insert_Some Hne;
      [done|eauto|apply apart_sym; eauto|by eapply (Hdis h1 h2)]. }
  assert (Hoo : all_ok o).
  { intros h1 s1 [[<- <-]|[? H1]]%lookup_insert_Some; eauto. }
  set (H1 := with_system (system_bytes H + n * kPageSize) (new_object s H).2).
  assert (Hrep1 : rep H1 A C {[h]} (<[m := n * kPageSize]> live)).
  { eapply rep_change; try done; simpl.
    - fold h. fold o. split; try done.
      + intros h' [s' [[<- _]|[? Hs']]%lookup_insert_Some]; [lia|].
        pose proof (Hfr h' ltac:(by eexists)). unfold h. lia.
      + unfold o. rewrite bsum_insert_new by done. simpl. lia.
      + intros b k. rewrite lookup_insert_Some. split.
        * intros [[<- <-]|[? (h' & s' & Hs' & Hb)%Hlive]]; [exists h, s; unfold o; by rewrite lookup_insert_eq|].
          exists h', s'. unfold o. rewrite lookup_insert_ne by congruence. done.
        * intros (h' & s' & [[<- <-]|[? Hs']]%lookup_insert_Some & <- & <-); [by left|]. right.
          pose proof (Hblock _ _ Hs'). split; [congruence|done].
      + rewrite lsum_insert_new by done. lia.
    - intros h' _ Hne. rewrite lookup_insert_ne by set_solver. done.
    - intros h' ->%elem_of_singleton. rewrite lookup_insert_eq. by eexists.
    - intros h' ->%elem_of_singleton _. done. }
  assert (HA : A !! h = None) by (destruct (A !! h) eqn:E; [apply (rp_A Hrep) in E as [E _]; congruence|done]).
  destruct (op_activate _ _ _ _ _ h s Hrep1) as (H2 & Hact & Hrep2 & _); [set_solver|apply lookup_insert_eq|].
  unfold new_span_system. rewrite HW. fold s.
  pose proof (total_bytes o Hdo Hoo) as Hto. unfold o in Hto. rewrite bsum_insert_new in Hto by done.
  unfold activate in *. simpl in *. rewrite lookup_insert_eq in *. simpl in *.
  exists h. eexists. split; [done|]. split_and!; [done|done|].
  rewrite wrap_id with (z := system_bytes H + n * kPageSize) by (unfold fits, s, kPageSize in *; simpl in *; lia).
  injection Hact as <-. rewrite difference_diag_L in Hrep2. split; [exact Hrep2|done].
Qed.

(** ** [release_span] *)
Lemma release_span_spec H A C live h s :
  heap_inv H A C live -> A !! h = Some s ->
  exists H' C', release_span (Some h) H = Some (true, H') /\ heap_inv H' (delete h A) C' live.
Proof.
  intros [Hrep HC] Hs. destruct (rp_A Hrep _ _ Hs) as (Ho & _ & HCh). unfold release_span.
  rewrite bool_decide_eq_true_2 by (apply (at_spans _ _ _ _ (rp_active Hrep)); by eexists).
  simpl. rewrite Ho. simpl.
  set (H1 := with_active _ _ _ H).
  assert (Hrep1 : rep H1 (delete h A) C {[h]} live).
  { pose proof (rep_A_ok Hrep) as HokA. pose proof Hrep as [Hco Hact Hca HA HCC Hcov _].
    split; simpl; try done.
    - by apply active_delete.
    - intros h' s' [? Hs']%lookup_delete_Some. destruct (HA _ _ Hs') as (? & _ & ?).
      split_and!; [done|set_solver|done].
    - intros h' s' Hs'. destruct (HCC _ _ Hs') as (? & _ & ?). split_and!; [done| |].
      + intros ->%elem_of_singleton. congruence.
      + rewrite lookup_delete_None. by right.
    - intros h' s' Hs'. destruct (decide (h' = h)) as [->|]; [set_solver|].
      destruct (Hcov _ _ Hs') as [?|[?|?]]; [left; by rewrite lookup_delete_ne|by auto|set_solver].
    - intros h' ->%elem_of_singleton. by eexists. }
  destruct (op_cache _ _ _ _ _ h s Hrep1 HC) as (H2 & C2 & -> & Hrep2 & HC2 & _); [set_solver|done|].
  simpl. rewrite difference_diag_L in Hrep2. exists H2, C2. by split.
Qed.

Lemma release_span_unknown H A C live h :
  heap_inv H A C live -> A !! h = None -> release_span (Some h) H = Some (false, H).
Proof.
  intros [Hrep _] Hn. unfold release_span. rewrite bool_decide_eq_false_2; [done|].
  intros Hin%(at_spans _ _ _ _ (rp_active Hrep)). destruct Hin. congruence.
Qed.

(** ** [map_object_to_span] *)
Lemma contains_covers s ptr : span_ok s -> contains ptr s = true -> covers s (page_id_of ptr).
Proof.
  intros Hok Hc. pose proof (span_end_pages s Hok) as He. destruct Hok. unfold contains in Hc.
  unfold covers, page_id_of. rewrite He, so_page in Hc.
  assert (0 < kPageSize) by (unfold kPageSize; lia). split.
  - apply Z.div_le_lower_bound; lia.
  - apply Z.div_lt_upper_bound; lia.
Qed.

Lemma map_object_spec H A C live ptr :
  heap_inv H A C live ->
  exists r, map_object_to_span ptr H = Some r /\
    forall h, r = Some h <-> exists s, A !! h = Some s /\ contains ptr s = true.
Proof.
  intros [Hrep _]. pose proof (rp_active Hrep) as [_ _ Hpages _]. unfold map_object_to_span.
  assert (Hcov : forall h s, A !! h = Some s -> contains ptr s = true ->
    ptr <> 0 /\ page_to_span H !! page_id_of ptr = Some h).
  { intros h s Hs Hc. pose proof (rep_A_ok Hrep _ _ Hs) as Hok. split.
    - destruct Hok. unfold contains, kPageSize in *. lia.
    - apply Hpages. exists s. split; [done|]. by apply contains_covers. }
  destruct (Z.eqb_spec ptr 0) as [->|Hp].
  { eexists. split; [done|]. intros h. split; [done|]. intros (s & Hs & Hc). by apply (Hcov h s) in Hc as []. }
  destruct (page_to_span H !! page_id_of ptr) as [h|] eqn:Hl.
  - pose proof (proj1 (Hpages _ _) Hl) as (s & Hs & _). destruct (rp_A Hrep _ _ Hs) as (Ho & _). rewrite Ho. simpl.
    eexists. split; [done|]. intros h'. split.
    + destruct (contains ptr s) eqn:Hc; intros [= <-]. eauto.
    + intros (s' & Hs' & Hc'). destruct (Hcov _ _ Hs' Hc') as [_ Heq]. simplify_eq. by rewrite Hc'.
  - eexists. split; [done|]. intros h. split; [done|]. intros (s & Hs & Hc).
    destruct (Hcov _ _ Hs Hc). congruence.
Qed.
End ops.
