(* ===== verification/PageHeapPurge.v ===== *)
(** Giving memory back: [purge_cached_spans] and the destructor of the page heap free only
    blocks that are live and no longer used, each of them once; and the theorems about
    whole executions of the page heap. *)
From S2P Require Import Prelude SizeClass PageHeap PageHeapInv PageHeapProofs PageHeapOps.
Import SizeClass(kPageSize).

(** The blocks of the system allocator; freeing a block that is not live is an error. *)
Fixpoint sys_run (acts : list SysAction) (live : gmap Z Z) : option (gmap Z Z) :=
  match acts with
  | [] => Some live
  | SysAlloc b n :: acts =>
      match live !! b with None => sys_run acts (<[b := n]> live) | Some _ => None end
  | SysFree b :: acts =>
      match live !! b with Some _ => sys_run acts (delete b live) | None => None end
  end.

Lemma sys_run_app a1 a2 live live' :
  sys_run a1 live = Some live' -> sys_run (a1 ++ a2) live = sys_run a2 live'.
Proof.
  revert live. induction a1 as [|[b n|b] a1 IH]; simpl; intros live Hr; [by simplify_eq| |];
    destruct (live !! b); try done; eauto.
Qed.

Section purge.
Context `{!IterOrder Z (list nat)}.

(** The heap while a list is purged: all tables but the lists are up to date. *)
Record purge_state (H : PageHeap) (A C : gmap nat Span) (live : gmap Z Z) : Prop := {
  ps_core : core (objects H) (next_object H) (system_bytes H) live;
  ps_active : active_tables (spans H) (page_to_span H) (active_bytes H) A;
  ps_start : forall p h, cached_start_page_to_span H !! p = Some h <->
    exists s, C !! h = Some s /\ span_start_page s = p;
  ps_end : forall p h, cached_end_page_to_span H !! p = Some h <->
    exists s, C !! h = Some s /\ span_end_page s = p;
  ps_bytes : cached_bytes H = bsum C;
  ps_A : forall h s, A !! h = Some s -> objects H !! h = Some s /\ C !! h = None;
  ps_C : forall h s, C !! h = Some s -> objects H !! h = Some s /\ A !! h = None;
  ps_cover : forall h s, objects H !! h = Some s -> A !! h = Some s \/ C !! h = Some s;
}.

Lemma rep_purge H A C live : rep H A C ∅ live -> purge_state H A C live.
Proof.
  intros [Hco Hac [? ? ? ? ?] HA HC Hcov _]. split; try done.
  - intros h s Hs. by destruct (HA _ _ Hs) as (? & _ & ?).
  - intros h s Hs. by destruct (HC _ _ Hs) as (? & _ & ?).
  - intros h s Hs. destruct (Hcov _ _ Hs) as [?|[?|?]]; [by left|by right|set_solver].
Qed.

Lemma purge_rep H A C live :
  purge_state H A C live ->
  (forall k l, free_spans_by_pages H !! k = Some l -> l <> [] /\ NoDup l /\
     forall h, h ∈ l <-> exists s, C !! h = Some s /\ sp_page_count s = k) ->
  (forall h s, C !! h = Some s -> is_Some (free_spans_by_pages H !! sp_page_count s)) ->
  rep H A C ∅ live.
Proof.
  intros [] Hl Hin. split; try done.
  - intros h s Hs. destruct (ps_A0 _ _ Hs). split_and!; [done|set_solver|done].
  - intros h s Hs. destruct (ps_C0 _ _ Hs). split_and!; [done|set_solver|done].
  - intros h s Hs. destruct (ps_cover0 _ _ Hs); auto.
Qed.

(** A span that covers its block is the only span of the block. *)
Lemma whole_unique o next sys live h h' s s' :
  core o next sys live -> o !! h = Some s -> is_whole_allocation s = true ->
  o !! h' = Some s' -> sp_allocation_base s' = sp_allocation_base s -> h' = h.
Proof.
  intros [_ Hok Hdis _ Hlive _] Hs Hw Hs' Hb. destruct (decide (h' = h)) as [|Hne]; [done|].
  assert (live !! sp_allocation_base s = Some (sp_allocation_bytes s)) by (apply Hlive; eauto).
  assert (live !! sp_allocation_base s = Some (sp_allocation_bytes s')) by (apply Hlive; eauto).
  assert (sp_allocation_bytes s' = sp_allocation_bytes s) by congruence.
  pose proof (Hdis _ _ _ _ Hs' Hs Hne) as Ha. unfold is_whole_allocation in Hw.
  pose proof (span_end_pages _ (Hok _ _ Hs)). pose proof (span_end_pages _ (Hok _ _ Hs')).
  pose proof (Hok _ _ Hs) as []. pose proof (Hok _ _ Hs') as [].
  unfold apart, span_end, span_end_page in *. unfold kPageSize in *. lia.
Qed.

(** One whole cached span is given back. *)
Lemma purge_one H A C live h s :
  purge_state H A C live -> C !! h = Some s -> is_whole_allocation s = true ->
  let H1 := with_system (sub_sat (system_bytes H) (sp_bytes s))
              (with_cached (free_spans_by_pages H)
                 (delete (span_start_page s) (cached_start_page_to_span H))
                 (delete (span_end_page s) (cached_end_page_to_span H))
                 (sub_sat (cached_bytes H) (sp_bytes s)) H) in
  free_whole_span_to_system h H1 = Some ([SysFree (sp_allocation_base s)], delete_object h H1) /\
  purge_state (delete_object h H1) A (delete h C) (delete (sp_allocation_base s) live) /\
  live !! sp_allocation_base s = Some (sp_allocation_bytes s).
Proof.
  intros [Hcore Hact Hst Hen Hby HA HC Hcov] Hs Hw H1. destruct (HC _ _ Hs) as [Ho HAh].
  pose proof Hcore as [Hfr Hok Hdis Hsys Hlive Htot].
  assert (HokC : all_ok C) by (intros h' s' Hs'; eapply Hok, HC, Hs').
  pose proof (bsum_delete _ _ _ Hs) as Hd. pose proof (bsum_delete _ _ _ Ho) as Hdo.
  assert (0 <= bsum (delete h C)) by (eapply bsum_subseteq; [exact HokC|apply delete_subseteq]).
  assert (0 <= bsum (delete h (objects H))) by (eapply bsum_subseteq; [exact Hok|apply delete_subseteq]).
  split_and!.
  - unfold free_whole_span_to_system. simpl. rewrite Ho. simpl. rewrite Hw. simpl.
    pose proof (Hok _ _ Ho) as []. unfold is_whole_allocation, kPageSize in *.
    by destruct (Z.eqb_spec (sp_allocation_base s) 0); [lia|].
  - split; simpl; try done.
    + split.
      * intros h' Hh'. apply Hfr. destruct Hh' as [s' []%lookup_delete_Some]. by eexists.
      * intros h' s' [_ Hs']%lookup_delete_Some. eauto.
      * intros h1 h2 s1 s2 [_ H1']%lookup_delete_Some [_ H2']%lookup_delete_Some. eauto.
      * rewrite Hsys. unfold sub_sat. destruct (Z.leb_spec (sp_bytes s) (bsum (objects H))); lia.
      * intros b n. rewrite lookup_delete_Some, Hlive. split.
        -- intros [Hb (h' & s' & Hs' & <- & <-)]. exists h', s'. rewrite lookup_delete_Some.
           split; [|done]. split; [|done]. intros <-. congruence.
        -- intros (h' & s' & [Hne Hs']%lookup_delete_Some & <- & <-). split; [|by eauto].
           intros Hb. apply Hne. symmetry. by eapply (whole_unique _ _ _ _ h h').
      * rewrite (lsum_delete _ _ (sp_allocation_bytes s)) by (apply Hlive; eauto).
        unfold is_whole_allocation in Hw. unfold sub_sat.
        destruct (Z.leb_spec (sp_bytes s) (system_bytes H)); lia.
    + by apply (index_delete _ C span_start_page).
    + by apply (index_delete _ C span_end_page).
    + rewrite Hby. unfold sub_sat. destruct (Z.leb_spec (sp_bytes s) (bsum C)); lia.
    + intros h' s' Hs'. destruct (HA _ _ Hs') as [? ?]. split.
      * rewrite lookup_delete_ne; [done|]. congruence.
      * apply lookup_delete_None. by right.
    + intros h' s' [? Hs']%lookup_delete_Some. destruct (HC _ _ Hs') as [? ?].
      by rewrite lookup_delete_ne.
    + intros h' s' [? Hs']%lookup_delete_Some. destruct (Hcov _ _ Hs'); [by left|].
      right. by rewrite lookup_delete_ne.
  - apply Hlive. eauto.
Qed.

(** What purging the spans [l] of [C] leaves. *)
Definition purged (l : list nat) (C C' : gmap nat Span) : Prop :=
  forall h s, C' !! h = Some s <-> C !! h = Some s /\ ~ (h ∈ l /\ is_whole_allocation s = true).

Lemma purge_list_spec l H A C live :
  purge_state H A C live -> NoDup l -> (forall h, h ∈ l -> is_Some (C !! h)) ->
  exists remain acts H' C' live',
    purge_list l H = Some (remain, Z.of_nat (length acts), acts, H') /\
    purge_state H' A C' live' /\ free_spans_by_pages H' = free_spans_by_pages H /\
    sys_run acts live = Some live' /\ purged l C C' /\ NoDup remain /\
    forall h, h ∈ remain <-> h ∈ l /\ is_Some (C' !! h).
Proof.
  intros Hst Hnd. revert H C live Hst.
  induction Hnd as [|h l Hh Hnd IH]; intros H C live Hst Hin; simpl.
  { exists [], [], H, C, live. split_and!; try done; [|constructor|]; unfold purged; set_solver. }
  destruct (Hin h ltac:(set_solver)) as [s Hs]. destruct (ps_C _ _ _ _ Hst _ _ Hs) as [Ho _].
  rewrite Ho. simpl. destruct (is_whole_allocation s) eqn:Hw.
  - destruct (purge_one _ _ _ _ _ _ Hst Hs Hw) as (Hf & Hst1 & Hl1). rewrite Hf. simpl.
    edestruct IH as (remain & acts & H' & C' & live' & -> & Hst' & Hfree & Hrun & Hp & Hnr & Hr); [exact Hst1| |].
    { intros h' Hh'. rewrite lookup_delete_ne by set_solver. apply Hin. set_solver. }
    simpl. exists remain, (SysFree (sp_allocation_base s) :: acts), H', C', live'.
    split; [do 4 f_equal; simpl; lia|].
    split_and!; [done|by rewrite Hfree|by simpl; rewrite Hl1| |done|].
    + intros h' s'. rewrite (Hp h' s'), lookup_delete_Some. rewrite elem_of_cons. split.
      * intros [[? ?] ?]. split; [done|]. intros [[->|?] ?]; tauto.
      * intros [Hs' Hn]. split; [split; [|done]|tauto]. intros <-. apply Hn.
        rewrite Hs in Hs'. injection Hs' as <-. auto.
    + intros h'. rewrite Hr, elem_of_cons. split; [tauto|]. intros [[->|?] Hs']; [|done].
      destruct Hs' as [s' Hs'%Hp]. rewrite lookup_delete_eq in Hs'. by destruct Hs'.
  - edestruct IH as (remain & acts & H' & C' & live' & -> & Hst' & Hfree & Hrun & Hp & Hnr & Hr); [exact Hst| |].
    { intros h' Hh'. apply Hin. set_solver. }
    simpl. exists (h :: remain), acts, H', C', live'. split; [done|].
    assert (HC' : C' !! h = Some s) by (apply Hp; split; [done|]; rewrite Hw; naive_solver).
    split_and!; try done.
    + intros h' s'. rewrite (Hp h' s'), elem_of_cons. split; intros [Hs' Hn]; (split; [done|]); [|tauto].
      intros [[->|?] ?]; [|tauto]. rewrite Hs in Hs'. congruence.
    + constructor; [|done]. rewrite Hr. tauto.
    + intros h'. rewrite !elem_of_cons, Hr. split; [|tauto]. intros [->|?]; [|tauto]. split; [by left|by eexists].
Qed.

Lemma purge_loop_spec items H A C live :
  rep H A C ∅ live -> NoDup items.*1 ->
  (forall k l, (k, l) ∈ items -> free_spans_by_pages H !! k = Some l) ->
  exists acts H' C' live', purge_loop items H = Some (Z.of_nat (length acts), acts, H') /\
    rep H' A C' ∅ live' /\ C' ⊆ C /\ sys_run acts live = Some live' /\
    (forall h s, C !! h = Some s -> is_whole_allocation s = false -> C' !! h = Some s) /\
    (forall h s, C' !! h = Some s -> sp_page_count s ∈ items.*1 -> is_whole_allocation s = false).
Proof.
  revert H C live. induction items as [|[k l] items IH]; intros H C live Hrep Hnd Hf; simpl.
  { exists [], H, C, live. split_and!; try done. intros h s _ ?%not_elem_of_nil. done. }
  apply NoDup_cons in Hnd as [Hk Hnd].
  pose proof (Hf k l ltac:(set_solver)) as Hl. pose proof (rp_cached Hrep) as [Hlists Hlisted _ _ _].
  destruct (Hlists _ _ Hl) as (_ & Hndl & Hinl).
  destruct (purge_list_spec l H A C live (rep_purge _ _ _ _ Hrep) Hndl)
    as (remain & acts & H1 & C1 & live1 & -> & Hst1 & Hfree & Hrun & Hp & Hnr & Hr).
  { intros h (s & ? & _)%Hinl. by eexists. }
  simpl. set (f := match remain with [] => _ | _ => _ end).
  assert (Hf1 : forall k', f !! k' = if decide (k' = k) then (match remain with [] => None | _ => Some remain end)
                                     else free_spans_by_pages H !! k').
  { intros k'. unfold f. rewrite Hfree. destruct remain; case_decide; subst; by simplify_map_eq. }
  assert (Hsame : forall h s, sp_page_count s <> k -> C1 !! h = Some s <-> C !! h = Some s).
  { intros h s Hne. rewrite (Hp h s). split; [tauto|]. intros Hs. split; [done|].
    intros [(s' & Hs' & <-)%Hinl _]. congruence. }
  assert (Hsub1 : C1 ⊆ C) by (apply map_subseteq_spec; intros h s Hs; apply Hp in Hs; tauto).
  assert (Hin1 : forall h, h ∈ remain <-> exists s, C1 !! h = Some s /\ sp_page_count s = k).
  { intros h. rewrite Hr, Hinl. split.
    - intros [(s & Hs & Hk') [s1 Hs1]]. exists s1. split; [done|]. apply Hp in Hs1 as [? _]. congruence.
    - intros (s & Hs & Hk'). split; [|by eexists]. exists s. split; [|done]. by apply Hp in Hs as [? _]. }
  assert (Hrep1 : rep (with_cached f (cached_start_page_to_span H1) (cached_end_page_to_span H1)
                         (cached_bytes H1) H1) A C1 ∅ live1).
  { apply purge_rep; [by destruct Hst1| |]; simpl.
    - intros k' l'. rewrite Hf1. case_decide as Hd.
      + subst k'. destruct remain as [|x r] eqn:Er; [done|]. intros [= <-]. done.
      + intros Hl'. destruct (Hlists _ _ Hl') as (? & ? & Hin'). split_and!; [done|done|].
        intros h. rewrite Hin'. split; intros (s & Hs & <-); exists s; (split; [|done]); by apply Hsame.
    - intros h s Hs. rewrite Hf1. case_decide as Hd.
      + assert (h ∈ remain) by (apply Hin1; eauto). destruct remain; [by apply not_elem_of_nil in H0|by eexists].
      + eapply Hlisted. by apply Hp in Hs as [Hs _]. }
  destruct (IH _ _ _ Hrep1 Hnd) as (acts' & H' & C' & live' & Hloop & Hrep' & Hsub' & Hrun' & Hkeep' & Hdone').
  { intros k' l' Hin. simpl. rewrite Hf1. rewrite decide_False; [apply Hf; set_solver|].
    intros ->. apply Hk. change (k ∈ fst <$> items). apply list_elem_of_fmap. by exists (k, l'). }
  rewrite Hloop. simpl. exists (acts ++ acts'), H', C', live'.
  split; [rewrite length_app; do 4 f_equal; lia|]. split_and!; [done|by etrans| | |].
  - by rewrite (sys_run_app _ _ _ _ Hrun).
  - intros h s Hs Hw. apply Hkeep'; [|done]. apply Hp. rewrite Hw. naive_solver.
  - intros h s Hs [Heq|Hin]%elem_of_cons; [|by eapply Hdone'].
    assert (Hs1 : C1 !! h = Some s) by (by eapply lookup_weaken).
    apply Hp in Hs1 as [Hs1 Hn]. apply not_true_is_false. intros Hw. apply Hn.
    split; [|done]. apply Hinl. eauto.
Qed.

Lemma purge_spec H A C live :
  heap_inv H A C live ->
  exists acts H' C' live', purge_cached_spans H = Some (Z.of_nat (length acts), acts, H') /\
    heap_inv H' A C' live' /\ sys_run acts live = Some live' /\
    forall h s, C' !! h = Some s <-> C !! h = Some s /\ is_whole_allocation s = false.
Proof.
  intros [Hrep HC]. unfold purge_cached_spans.
  destruct (purge_loop_spec (iter_map (free_spans_by_pages H)) H A C live Hrep)
    as (acts & H' & C' & live' & Hl & Hrep' & Hsub & Hrun & Hkeep & Hdone).
  - apply NoDup_iter_keys.
  - intros k l. apply elem_of_iter_map.
  - exists acts, H', C', live'. split; [done|]. split_and!; [|done|].
    + split; [done|]. intros h h' s s' Hs Hs'. eapply HC; eapply lookup_weaken; eauto.
    + intros h s. split; [|naive_solver]. intros Hs.
      assert (HCs : C !! h = Some s) by (by eapply lookup_weaken). split; [done|].
      eapply Hdone; [done|]. pose proof (rp_cached Hrep) as [_ Hlisted _ _ _].
      destruct (Hlisted _ _ HCs) as [l Hl']. apply list_elem_of_fmap.
      exists (sp_page_count s, l). split; [done|]. by apply elem_of_iter_map.
Qed.

(** ** The destructor *)
Lemma release_once_spec l o freed live :
  (forall h, h ∈ l -> exists s, o !! h = Some s /\ sp_allocation_base s <> 0 /\
     (sp_allocation_base s ∈ freed \/ is_Some (live !! sp_allocation_base s))) ->
  (forall b, b ∈ freed -> live !! b = None) ->
  exists acts freed' live', release_once l o freed = Some (acts, freed') /\
    sys_run acts live = Some live' /\
    forall b n, live' !! b = Some n <->
      live !! b = Some n /\ ~ exists h s, h ∈ l /\ o !! h = Some s /\ sp_allocation_base s = b.
Proof.
  revert freed live. induction l as [|h l IH]; intros freed live Hin Hfr; simpl.
  { exists [], freed, live. split_and!; try done. intros b n. split; [|tauto]. intros Hb. split; [done|].
    by intros (h & s & ?%not_elem_of_nil & _). }
  destruct (Hin h ltac:(set_solver)) as (s & Hs & Hnz & Hb). rewrite Hs. simpl.
  destruct (Z.eqb_spec (sp_allocation_base s) 0) as [|_]; [done|]. simpl.
  destruct (decide (sp_allocation_base s ∈ freed)) as [Hf|Hf].
  - rewrite bool_decide_eq_true_2 by done. simpl.
    destruct (IH freed live) as (acts & freed' & live' & -> & Hrun & Hl); [|done|].
    { intros h' Hh'. apply Hin. set_solver. }
    simpl. exists acts, freed', live'. split_and!; try done. intros b n. rewrite Hl. split; intros [Hbn Hn].
    + split; [done|]. intros (h' & s' & [->|?]%elem_of_cons & Hs' & Hb'); [|by apply Hn; eauto].
      rewrite Hs in Hs'. injection Hs' as <-. subst b. rewrite Hfr in Hbn; done.
    + split; [done|]. intros (h' & s' & ? & ?). apply Hn. exists h', s'. split; [by right|done].
  - rewrite bool_decide_eq_false_2 by done. simpl. destruct Hb as [?|[n0 Hn0]]; [done|].
    destruct (IH ({[sp_allocation_base s]} ∪ freed) (delete (sp_allocation_base s) live))
      as (acts & freed' & live' & -> & Hrun & Hl).
    { intros h' Hh'. destruct (Hin h' ltac:(set_solver)) as (s' & Hs' & Hnz' & Hb'). exists s'.
      split_and!; [done|done|]. destruct (decide (sp_allocation_base s' = sp_allocation_base s)) as [->|Hne].
      - left. set_solver.
      - rewrite lookup_delete_ne by done. destruct Hb'; [left; set_solver|by right]. }
    { intros b [->%elem_of_singleton|Hb]%elem_of_union; [apply lookup_delete_eq|].
      apply lookup_delete_None. right. eauto. }
    simpl. eexists _, freed', live'. split; [done|]. simpl. rewrite Hn0. split; [done|].
    intros b n. rewrite Hl, lookup_delete_Some. split.
    + intros [[Hne Hbn] Hn]. split; [done|]. intros (h' & s' & [->|?]%elem_of_cons & Hs' & Hb'); [congruence|].
      apply Hn. eauto.
    + intros [Hbn Hn]. split; [split; [|done]|].
      * intros <-. apply Hn. exists h, s. split; [by left|done].
      * intros (h' & s' & ? & ?). apply Hn. exists h', s'. split; [by right|done].
Qed.

Lemma elem_of_concat (h : nat) ls : h ∈ concat ls <-> exists l, l ∈ ls /\ h ∈ l.
Proof.
  induction ls as [|l ls IH]; simpl; [set_solver|]. rewrite elem_of_app, IH. set_solver.
Qed.

Lemma destroy_spec H A C live :
  heap_inv H A C live -> exists acts, heap_destroy H = Some acts /\ sys_run acts live = Some ∅.
Proof.
  intros [Hrep _]. unfold heap_destroy.
  pose proof (rp_core Hrep) as [_ Hok _ _ Hlive _]. pose proof (rp_cached Hrep) as [Hlists Hlisted _ _ _].
  set (l := spans H ++ concat (iter_map (free_spans_by_pages H)).*2).
  assert (Hin : forall h, h ∈ l <-> is_Some (objects H !! h)).
  { intros h. unfold l. rewrite elem_of_app, elem_of_concat, (at_spans _ _ _ _ (rp_active Hrep)). split.
    - intros [[s Hs]|(l0 & Hl0 & Hh)]; [apply (rp_A Hrep) in Hs as [? _]; by eexists|].
      apply list_elem_of_fmap in Hl0 as ([k l'] & -> & Hk%elem_of_iter_map).
      apply (Hlists _ _ Hk) in Hh as (s & Hs & _). apply (rp_C Hrep) in Hs as [? _]. by eexists.
    - intros [s Hs]. destruct (rp_cover Hrep _ _ Hs) as [?|[HC|?]]; [left; by eexists|right|set_solver].
      destruct (Hlisted _ _ HC) as [l0 Hl0]. exists l0. split.
      + apply list_elem_of_fmap. exists (sp_page_count s, l0). split; [done|]. by apply elem_of_iter_map.
      + apply (Hlists _ _ Hl0). eauto. }
  destruct (release_once_spec l (objects H) ∅ live) as (acts & freed & live' & -> & Hrun & Hl).
  - intros h [s Hs]%Hin. exists s. split; [done|]. split.
    + pose proof (Hok _ _ Hs) as []. lia.
    + right. exists (sp_allocation_bytes s). apply Hlive. eauto.
  - set_solver.
  - exists acts. split; [done|]. rewrite Hrun. f_equal. apply map_empty. intros b.
    destruct (live' !! b) as [n|] eqn:E; [|done]. apply Hl in E as [Hb Hn]. exfalso. apply Hn.
    apply Hlive in Hb as (h & s & Hs & Hb & _). exists h, s. split_and!; [|done|done]. apply Hin. by eexists.
Qed.

(** ** Executions

    The two critical sections of [new_span] are separate operations, so that other threads
    may run between them. *)
Inductive heap_op : Type :=
  | NewCached (n : Z)
  | NewSystem (n m : Z)
  | Release (span : option nat)
  | Purge.

Definition heap_exec (op : heap_op) (H : PageHeap) : option (list SysAction * PageHeap) :=
  match op with
  | NewCached n =>
      if page_count_ok n then r ← new_span_cached n H; Some ([], r.2) else Some ([], H)
  | NewSystem n m =>
      if page_count_ok n then r ← new_span_system n m H; Some ([SysAlloc m (wrap 64 (n * kPageSize))], r.2)
      else Some ([], H)
  | Release span => r ← release_span span H; Some ([], r.2)
  | Purge => r ← purge_cached_spans H; Some (r.1.2, r.2)
  end.

Fixpoint heap_run (ops : list heap_op) (H : PageHeap) (live : gmap Z Z)
    : option (PageHeap * gmap Z Z) :=
  match ops with
  | [] => Some (H, live)
  | op :: ops =>
      r ← heap_exec op H;
      live ← sys_run r.1 live;
      heap_run ops r.2 live
  end.

(** Every block [operator new] returned was fresh. *)
Fixpoint blocks_fresh (ops : list heap_op) (H : PageHeap) (live : gmap Z Z) : Prop :=
  match ops with
  | [] => True
  | op :: ops =>
      match op with
      | NewSystem n m => page_count_ok n = true -> block_fresh m (n * kPageSize) live
      | _ => True
      end /\
      forall a H' live', heap_exec op H = Some (a, H') -> sys_run a live = Some live' ->
        blocks_fresh ops H' live'
  end.

Lemma page_count_ok_spec n : 0 <= n -> page_count_ok n = true <-> 1 <= n <= u64_max / kPageSize.
Proof. intros. unfold page_count_ok. rewrite negb_true_iff, orb_false_iff. lia. Qed.

Lemma heap_exec_inv op H A C live :
  heap_inv H A C live ->
  match op with
  | NewCached n => 0 <= n
  | NewSystem n m => 0 <= n /\ (page_count_ok n = true -> block_fresh m (n * kPageSize) live)
  | _ => True
  end ->
  exists a H' A' C' live', heap_exec op H = Some (a, H') /\ sys_run a live = Some live' /\
    heap_inv H' A' C' live'.
Proof.
  intros Hinv Hop. destruct op as [n|n m|[h|]|]; simpl.
  - destruct (page_count_ok n) eqn:Hn; [|eauto 10]. apply page_count_ok_spec in Hn; [|done].
    destruct (new_span_cached_spec _ _ _ _ n Hinv ltac:(lia)) as [(h & s & H' & C' & -> & _ & _ & _ & ?)|[-> _]];
      simpl; eauto 10.
  - destruct Hop as [Hn0 Hf]. destruct (page_count_ok n) eqn:Hn; [|eauto 10].
    apply page_count_ok_spec in Hn; [|done]. specialize (Hf eq_refl).
    destruct (new_span_system_spec _ _ _ _ n m Hinv Hn Hf) as (h & H' & -> & _ & Hm & Hinv').
    destruct (fresh_block_span m n live Hn Hf) as [_ ->].
    eexists _, _, _, _, _. split; [done|]. simpl. rewrite Hm. done.
  - destruct (A !! h) as [s|] eqn:Hs.
    + destruct (release_span_spec _ _ _ _ _ _ Hinv Hs) as (H' & C' & Hr & ?). simpl in Hr. rewrite Hr. simpl. eauto 10.
    + pose proof (release_span_unknown _ _ _ _ _ Hinv Hs) as Hr. simpl in Hr. rewrite Hr. simpl. eauto 10.
  - eauto 10.
  - destruct (purge_spec _ _ _ _ Hinv) as (acts & H' & C' & live' & -> & ? & ? & _). simpl. eauto 10.
Qed.

(** The requests of an execution are unsigned. *)
Definition op_unsigned (op : heap_op) : Prop :=
  match op with NewCached n | NewSystem n _ => 0 <= n | _ => True end.

Lemma heap_run_inv ops H A C live :
  heap_inv H A C live -> Forall op_unsigned ops -> blocks_fresh ops H live ->
  exists H' A' C' live', heap_run ops H live = Some (H', live') /\ heap_inv H' A' C' live'.
Proof.
  intros Hinv Hops. revert H A C live Hinv.
  induction Hops as [|op ops Hop _ IH]; intros H A C live Hinv Hf; [simpl; eauto 7|].
  destruct Hf as [Hf1 Hf2].
  destruct (heap_exec_inv op H A C live Hinv) as (a & H' & A' & C' & live' & He & Hr & Hinv').
  { destruct op; simpl in *; auto. }
  cbn [heap_run]. rewrite He. simpl. rewrite Hr. simpl. eapply IH; [exact Hinv'|]. eauto.
Qed.

Lemma inv_counters H A C live :
  heap_inv H A C live -> system_bytes H = active_bytes H + cached_bytes H.
Proof.
  intros [Hrep _]. rewrite (co_system (rp_core Hrep)), (at_bytes _ _ _ _ (rp_active Hrep)),
    (ct_bytes _ _ _ _ _ (rp_cached Hrep)).
  assert (Hu : objects H = A ∪ C).
  { apply map_eq. intros h. rewrite lookup_union. destruct (objects H !! h) as [s|] eqn:Ho.
    - destruct (rp_cover Hrep _ _ Ho) as [Ha|[Hc|?]]; [| |set_solver].
      + rewrite Ha. by destruct (C !! h).
      + rewrite Hc. by destruct (rp_C Hrep _ _ Hc) as (_ & _ & ->).
    - destruct (A !! h) eqn:Ha; [apply (rp_A Hrep) in Ha as [? _]; congruence|].
      destruct (C !! h) eqn:Hc; [apply (rp_C Hrep) in Hc as [? _]; congruence|done]. }
  assert (Hd : A ##ₘ C).
  { apply map_disjoint_spec. intros h s s' Ha Hc. apply (rp_A Hrep) in Ha as (_ & _ & ?). congruence. }
  rewrite Hu. clear -Hd. induction A as [|h s A Hn IH] using map_ind.
  - rewrite map_empty_union. done.
  - apply map_disjoint_insert_l in Hd as [HCn Hd]. rewrite <- insert_union_l.
    rewrite !bsum_insert_new; [|done|by apply lookup_union_None].
    rewrite IH by done. lia.
Qed.

(** [C39] The page heap is safe in every execution: no operation follows a stale span pointer or
    frees a block that is not live, however the critical sections of several threads
    interleave, provided [operator new] returns fresh blocks.  At any time the spans are
    pairwise disjoint parts of live blocks, the page map finds exactly the active span
    that contains an address, the counters are exact and no two cached spans could be
    merged; and the destructor gives every block back exactly once. *)
Theorem page_heap_safe ops :
  Forall op_unsigned ops -> blocks_fresh ops heap_init ∅ ->
  exists H live, heap_run ops heap_init ∅ = Some (H, live) /\
    (forall h h' s s', objects H !! h = Some s -> objects H !! h' = Some s' -> h <> h' ->
       span_end s <= sp_start s' \/ span_end s' <= sp_start s) /\
    (forall h s, objects H !! h = Some s ->
       live !! sp_allocation_base s = Some (sp_allocation_bytes s) /\
       sp_allocation_base s <= sp_start s /\
       span_end s <= sp_allocation_base s + sp_allocation_bytes s) /\
    (forall ptr h, map_object_to_span ptr H = Some (Some h) <->
       h ∈ spans H /\ exists s, objects H !! h = Some s /\ contains ptr s = true) /\
    system_bytes H = active_bytes H + cached_bytes H /\ system_bytes H = lsum live /\
    system_bytes H < 2 ^ 64 /\
    (forall h h' s s', objects H !! h = Some s -> objects H !! h' = Some s' ->
       h ∉ spans H -> h' ∉ spans H -> can_merge s s' = false) /\
    exists acts, heap_destroy H = Some acts /\ sys_run acts live = Some ∅.
Proof.
  intros Hops Hf. destruct (heap_run_inv ops _ _ _ _ heap_inv_init Hops Hf) as (H & A & C & live & Hrun & Hinv).
  exists H, live. split; [done|]. pose proof (inv_counters _ _ _ _ Hinv) as Hcnt.
  pose proof (destroy_spec _ _ _ _ Hinv) as Hd. pose proof Hinv as [Hrep HC].
  pose proof (rp_core Hrep) as [_ Hok Hdis Hsys Hlive Htot].
  pose proof (at_spans _ _ _ _ (rp_active Hrep)) as Hsp.
  split_and!; try done.
  - intros h h' s s' Hs Hs' Hne. pose proof (Hdis _ _ _ _ Hs Hs' Hne) as Ha.
    rewrite (span_end_pages s), (span_end_pages s') by eauto.
    destruct (Hok _ _ Hs), (Hok _ _ Hs'). unfold apart, kPageSize in *. lia.
  - intros h s Hs. destruct (Hok _ _ Hs). split_and!; [apply Hlive; eauto|done|done].
  - intros ptr h. destruct (map_object_spec _ _ _ _ ptr Hinv) as (r & -> & Hr).
    rewrite Hsp. split.
    + intros [= ->]. destruct (proj1 (Hr h) eq_refl) as (s & Hs & Hc). split; [by eexists|].
      exists s. split; [by apply (rp_A Hrep) in Hs as [? _]|done].
    + intros [[s Hs] (s' & Hs' & Hc)]. f_equal. apply Hr. exists s. split; [done|].
      apply (rp_A Hrep) in Hs as [? _]. congruence.
  - rewrite Hsys. by apply total_bytes.
  - intros h h' s s' Hs Hs' Hn Hn'. rewrite Hsp in Hn, Hn'.
    destruct (rp_cover Hrep _ _ Hs) as [?|[?|?]]; [exfalso; apply Hn; by eexists| |set_solver].
    destruct (rp_cover Hrep _ _ Hs') as [?|[?|?]]; [exfalso; apply Hn'; by eexists|eauto|set_solver].
Qed.

(** Active spans share no address. *)
Lemma active_disjoint H A C live h h' s s' :
  heap_inv H A C live -> A !! h = Some s -> A !! h' = Some s' -> h <> h' ->
  span_end s <= sp_start s' \/ span_end s' <= sp_start s.
Proof.
  intros [Hrep _] Hs Hs' Hne. apply (rp_A Hrep) in Hs as [Hs _], Hs' as [Hs' _].
  pose proof (rep_apart Hrep _ _ _ _ Hs Hs' Hne) as Ha. apply (rep_ok Hrep) in Hs, Hs'.
  rewrite (span_end_pages s), (span_end_pages s') by done. destruct Hs, Hs'. unfold apart, kPageSize in *. lia.
Qed.

(** [new_span] on every branch. *)
Lemma new_span_spec H A C live n memory :
  heap_inv H A C live -> 0 <= n ->
  (forall m, memory = Some m -> page_count_ok n = true -> block_fresh m (n * kPageSize) live) ->
  exists r a H', new_span n memory H = Some (r, a, H') /\
    match r with
    | None => a = [] /\ H' = H /\
        (page_count_ok n = true -> memory = None /\ forall h s, C !! h = Some s -> sp_page_count s < n)
    | Some h =>
        exists s C' live', heap_inv H' (<[h := s]> A) C' live' /\ A !! h = None /\
          sp_page_count s = n /\ sp_bytes s = n * kPageSize /\ sys_run a live = Some live' /\
          (a = [] \/ (forall h s, C !! h = Some s -> sp_page_count s < n) /\ C' = C /\
           exists m, memory = Some m /\ a = [SysAlloc m (n * kPageSize)] /\ sp_start s = m)
    end.
Proof.
  intros Hinv Hn0 Hf. unfold new_span. destruct (page_count_ok n) eqn:Hn; simpl.
  2:{ eexists _, _, _. split; [done|]. done. }
  pose proof Hn as Hn'. apply page_count_ok_spec in Hn'; [|done].
  destruct (new_span_cached_spec _ _ _ _ n Hinv ltac:(lia)) as [(h & s & H' & C' & -> & HA & Hpc & _ & Hinv')|[-> Hsmall]];
    simpl.
  - eexists _, _, _. split; [done|]. exists s, C', live. split_and!; try done; [|by left].
    assert (span_ok s) as []; [|lia]. eapply (rep_A_ok (hi_rep _ _ _ _ Hinv')). apply lookup_insert_eq.
  - destruct memory as [m|]; simpl; [|eexists _, _, _; done].
    specialize (Hf m eq_refl eq_refl).
    destruct (new_span_system_spec _ _ _ _ n m Hinv Hn' Hf) as (h & H' & -> & HA & Hm & Hinv').
    destruct (fresh_block_span m n live Hn' Hf) as [_ ->]. simpl.
    eexists _, _, _. split; [done|]. eexists _, C, _. split; [exact Hinv'|]. simpl. rewrite Hm.
    split_and!; try done. right. split_and!; [done|done|]. eauto.
Qed.

(** What [new_span] does on every branch: an impossible page count gives the null pointer;
    otherwise a cached span of the size or the left part of a larger one is reused, without
    a call of the system, and the span is not active before and shares no address with an
    active span; only when no cached span is
    large enough is a block of exactly the size requested; null is returned only when the
    system has no memory, and then nothing changed. *)
Theorem page_heap_new_span H A C live n memory :
  heap_inv H A C live -> 0 <= n ->
  (forall m, memory = Some m -> page_count_ok n = true -> block_fresh m (n * kPageSize) live) ->
  exists r a H', new_span n memory H = Some (r, a, H') /\
    match r with
    | None => a = [] /\ H' = H /\
        (page_count_ok n = true -> memory = None /\ forall h s, C !! h = Some s -> sp_page_count s < n)
    | Some h =>
        exists s C' live', heap_inv H' (<[h := s]> A) C' live' /\ A !! h = None /\
          sp_page_count s = n /\ sp_bytes s = n * kPageSize /\ sys_run a live = Some live' /\
          (forall h' s', A !! h' = Some s' -> span_end s <= sp_start s' \/ span_end s' <= sp_start s) /\
          (a = [] \/ (forall h s, C !! h = Some s -> sp_page_count s < n) /\ C' = C /\
           exists m, memory = Some m /\ a = [SysAlloc m (n * kPageSize)] /\ sp_start s = m)
    end.
Proof.
  intros Hinv Hn Hf. destruct (new_span_spec _ _ _ _ n memory Hinv Hn Hf) as (r & a & H' & He & Hr).
  exists r, a, H'. split; [done|]. destruct r as [h|]; [|done].
  destruct Hr as (s & C' & live' & Hinv' & HA & Hpc & Hb & Hrun & Hor).
  exists s, C', live'. split_and!; try done. intros h' s' Hs'.
  eapply (active_disjoint _ _ _ _ h h' _ _ Hinv'); [apply lookup_insert_eq|by rewrite lookup_insert_ne by congruence|congruence].
Qed.

(** [release_span] accepts exactly the active spans, and takes them out of the active set
    without a system call; [purge_cached_spans] gives back exactly the cached spans that
    are whole blocks, and reports their number. *)
Theorem page_heap_release_purge H A C live span :
  heap_inv H A C live ->
  (exists ok H' A' C', release_span span H = Some (ok, H') /\ heap_inv H' A' C' live /\
     match span with
     | Some h => if decide (is_Some (A !! h)) then ok = true /\ A' = delete h A
                 else ok = false /\ H' = H
     | None => ok = false /\ H' = H
     end) /\
  (exists acts H' C' live', purge_cached_spans H = Some (Z.of_nat (length acts), acts, H') /\
     heap_inv H' A C' live' /\ sys_run acts live = Some live' /\
     forall h s, C' !! h = Some s <-> C !! h = Some s /\ is_whole_allocation s = false).
Proof.
  intros Hinv. split; [|by apply purge_spec]. destruct span as [h|].
  - case_decide as Hd.
    + destruct Hd as [s Hs]. destruct (release_span_spec _ _ _ _ _ _ Hinv Hs) as (H' & C' & Hr & Hinv').
      exists true, H', (delete h A), C'. done.
    + exists false, H, A, C. split_and!; [|done|done|done]. eapply release_span_unknown; [done|].
      by apply eq_None_not_Some.
  - exists false, H, A, C. done.
Qed.
End purge.

(** ** Witnesses *)
Module PageHeapDemo.
#[local] Instance demo_order : IterOrder Z (list nat) := canonical_order.

(** Two blocks are mapped; the first is released, split for three pages, and merged again. *)
Definition demo : list heap_op :=
  [NewSystem 8 65536; NewSystem 2 131072; Release (Some 0%nat); NewCached 3; Release (Some 0%nat); Purge].

Lemma demo_fresh : blocks_fresh demo heap_init ∅.
Proof.
  assert (Hd : forall m n live, 0 < m -> m mod kPageSize = 0 -> m + n <= 2 ^ 64 ->
    Forall (fun bk => bk.1 + bk.2 <= m \/ m + n <= bk.1) (map_to_list live) -> block_fresh m n live).
  { intros m n live H1 H2 H3 H4. split_and!; try done. intros b k Hbk.
    rewrite Forall_forall in H4. apply (H4 (b, k)). by apply elem_of_map_to_list. }
  simpl. split.
  { intros _. apply Hd; [done|done|done|constructor]. }
  intros a H live [= <- <-] [= <-]. split.
  { intros _. apply Hd; [done|done|done|]. vm_compute map_to_list. repeat constructor; simpl; lia. }
  intros a' H' live' Ha Hl. simpl in Ha, Hl. repeat (split; [done|]; intros). done.
Qed.

Lemma page_heap_safe_witness :
  exists H live, heap_run demo heap_init ∅ = Some (H, live) /\ system_bytes H = lsum live.
Proof.
  destruct (page_heap_safe demo) as (H & live & Hr & _ & _ & _ & _ & Ht & _).
  - repeat constructor; simpl; lia.
  - apply demo_fresh.
  - exists H, live. split; [exact Hr|exact Ht].
Defined.

Lemma page_heap_new_span_witness :
  exists r a H', new_span 8 (Some 65536) heap_init = Some (r, a, H') /\ a = [SysAlloc 65536 65536].
Proof.
  destruct (page_heap_new_span heap_init ∅ ∅ ∅ 8 (Some 65536)) as (r & a & H' & Hr & _).
  - apply heap_inv_init.
  - lia.
  - intros m [= <-] _. split_and!; done.
  - exists r, a, H'. split; [exact Hr|]. vm_compute in Hr. injection Hr as <- <- <-. reflexivity.
Defined.

Lemma page_heap_release_purge_witness :
  exists ok H', release_span (Some 7%nat) heap_init = Some (ok, H') /\ ok = false.
Proof.
  destruct (page_heap_release_purge heap_init ∅ ∅ ∅ (Some 7%nat)) as [(ok & H' & A' & C' & Hr & _ & Hok) _].
  - apply heap_inv_init.
  - exists ok, H'. split; [exact Hr|]. vm_compute in Hr. injection Hr as <- <-. reflexivity.
Defined.
End PageHeapDemo.
