(* ===== verification/FreeList.v ===== *)
(** The intrusive free list of the allocator: myring/include/tcmalloc/FreeList.hpp.

    The list is threaded through the first word of the free objects.  [mem] holds that word
    for every address that has been written; reading an address that has not is [None].
    The theorem [free_list_refines] shows that each operation implements the corresponding
    operation on the list of free objects. *)
From S2P Require Import Prelude.

(** The words at the beginning of the objects: [next(obj)]. *)
Abbreviation memory := (gmap Z Z).

Record FreeList := mkFreeList { fl_head : Z; fl_size : Z }.

(** [FreeList::Range] *)
Record Range := mkRange { range_first : Z; range_last : Z; range_count : Z }.

Definition Range_default : Range := {| range_first := 0; range_last := 0; range_count := 0 |}.

Definition range_empty (r : Range) : bool := range_first r =? 0.

Definition fl_init : FreeList := {| fl_head := 0; fl_size := 0 |}.

Definition fl_empty (fl : FreeList) : bool := fl_head fl =? 0.

Definition fl_push (obj : Z) (mem : memory) (fl : FreeList) : memory * FreeList :=
  (<[obj := fl_head fl]> mem, {| fl_head := obj; fl_size := wrap 64 (fl_size fl + 1) |}).

(** [pop]: the object, or the null pointer. *)
Definition fl_pop (mem : memory) (fl : FreeList) : option (Z * memory * FreeList) :=
  if fl_empty fl then Some (0, mem, fl)
  else
    let obj := fl_head fl in
    next ← mem !! obj;
    Some (obj, <[obj := 0]> mem, {| fl_head := next; fl_size := wrap 64 (fl_size fl - 1) |}).

Definition fl_push_range (first last count : Z) (mem : memory) (fl : FreeList) : memory * FreeList :=
  (<[last := fl_head fl]> mem, {| fl_head := first; fl_size := wrap 64 (fl_size fl + count) |}).

(** The loop of [pop_range]; every turn counts one object more, up to [n]. *)
Fixpoint pop_range_loop (fuel : nat) (n : Z) (mem : memory) (last count : Z) : option (Z * Z) :=
  match fuel with
  | O => None
  | S fuel =>
      if count <? n then
        next ← mem !! last;
        if next =? 0 then Some (last, count) else pop_range_loop fuel n mem next (count + 1)
      else Some (last, count)
  end.

Definition fl_pop_range (n : Z) (mem : memory) (fl : FreeList) : option (Range * memory * FreeList) :=
  if fl_empty fl then Some (Range_default, mem, fl)
  else
    r ← pop_range_loop (S (Z.to_nat n)) n mem (fl_head fl) 1;
    let '(last, count) := r in
    next ← mem !! last;
    Some ({| range_first := fl_head fl; range_last := last; range_count := count |},
          <[last := 0]> mem, {| fl_head := next; fl_size := wrap 64 (fl_size fl - count) |}).

Section predicates.
Context (pred : Z -> bool).

(** The loop of [count_if], with the size of the list as fuel. *)
Fixpoint count_if_loop (fuel : nat) (mem : memory) (cur count : Z) : option Z :=
  if cur =? 0 then Some count
  else
    match fuel with
    | O => None
    | S fuel =>
        next ← mem !! cur;
        count_if_loop fuel mem next (if pred cur then count + 1 else count)
    end.

Definition fl_count_if (mem : memory) (fl : FreeList) : option Z :=
  count_if_loop (Z.to_nat (fl_size fl)) mem (fl_head fl) 0.

(** The loop of [remove_if]; [prev] is null until an object has been kept. *)
Fixpoint remove_if_loop (fuel : nat) (mem : memory) (fl : FreeList) (cur prev removed : Z)
    : option (Z * memory * FreeList) :=
  if cur =? 0 then Some (removed, mem, fl)
  else
    match fuel with
    | O => None
    | S fuel =>
        nxt ← mem !! cur;
        if pred cur then
          let '(mem, head) :=
            if prev =? 0 then (mem, nxt) else (<[prev := nxt]> mem, fl_head fl) in
          remove_if_loop fuel (<[cur := 0]> mem)
            {| fl_head := head; fl_size := wrap 64 (fl_size fl - 1) |} nxt prev (removed + 1)
        else remove_if_loop fuel mem fl nxt cur removed
    end.

Definition fl_remove_if (mem : memory) (fl : FreeList) : option (Z * memory * FreeList) :=
  remove_if_loop (Z.to_nat (fl_size fl)) mem fl (fl_head fl) 0 0.
End predicates.

(** ** The list a pointer stands for *)
Fixpoint chain (mem : memory) (p : Z) (l : list Z) : Prop :=
  match l with
  | [] => p = 0
  | x :: l => p = x /\ x <> 0 /\ exists next, mem !! x = Some next /\ chain mem next l
  end.

Record represents (mem : memory) (fl : FreeList) (l : list Z) : Prop := {
  re_chain : chain mem (fl_head fl) l;
  re_nodup : NoDup l;
  re_size : fl_size fl = zlen l;
  re_fits : zlen l < 2 ^ 64;
}.

Record range_represents (mem : memory) (r : Range) (l : list Z) : Prop := {
  rr_chain : chain mem (range_first r) l;
  rr_nodup : NoDup l;
  rr_last : last l = Some (range_last r);
  rr_count : range_count r = zlen l;
}.

(** Memory that differs only outside of the list. *)
Definition same_on (l : list Z) (mem mem' : memory) : Prop := forall x, x ∈ l -> mem' !! x = mem !! x.

Lemma chain_same mem mem' p l : same_on l mem mem' -> chain mem p l -> chain mem' p l.
Proof.
  revert p. induction l as [|x l IH]; intros p Hs; simpl; [done|].
  intros (-> & Hx & next & Hn & Hc). split_and!; [done|done|]. exists next.
  rewrite Hs by set_solver. split; [done|]. apply IH; [|done]. intros y Hy. apply Hs. set_solver.
Qed.

Lemma represents_same mem mem' fl l : same_on l mem mem' -> represents mem fl l -> represents mem' fl l.
Proof. intros Hs []. split; try done. by eapply chain_same. Qed.

Lemma range_same mem mem' r l :
  same_on l mem mem' -> range_represents mem r l -> range_represents mem' r l.
Proof. intros Hs []. split; try done. by eapply chain_same. Qed.

Lemma same_on_insert l mem x v : x ∉ l -> same_on l mem (<[x := v]> mem).
Proof. intros Hx y Hy. apply lookup_insert_ne. set_solver. Qed.

Lemma chain_nil mem p l : chain mem p l -> p = 0 <-> l = [].
Proof. destruct l; simpl; [done|]. intros (-> & ? & _). split; done. Qed.

Lemma chain_nonzero mem p l x : chain mem p l -> x ∈ l -> x <> 0.
Proof.
  revert p. induction l as [|y l IH]; intros p; simpl; [by intros _ ?%not_elem_of_nil|].
  intros (_ & Hy & next & _ & Hc) [->|?]%elem_of_cons; eauto.
Qed.

(** A chain is cut after any object by a null pointer. *)
Lemma chain_app mem p l1 x l2 :
  NoDup (l1 ++ x :: l2) ->
  chain mem p (l1 ++ x :: l2) ->
  exists next, mem !! x = Some next /\ chain mem next l2 /\ chain (<[x := 0]> mem) p (l1 ++ [x]).
Proof.
  revert p. induction l1 as [|y l1 IH]; intros p Hnd; simpl in *.
  - intros (-> & Hx & next & Hn & Hc). exists next. split_and!; try done.
    exists 0. by rewrite lookup_insert_eq.
  - intros (-> & Hy & next & Hn & Hc). apply NoDup_cons in Hnd as [Hy' Hnd].
    destruct (IH next Hnd Hc) as (next' & ? & ? & ?). exists next'. split_and!; try done.
    exists next. rewrite lookup_insert_ne by set_solver. done.
Qed.

(** Two chains are joined at the last object of the first. *)
Lemma chain_join mem p q l1 x l2 :
  NoDup (l1 ++ x :: l2) -> chain mem p (l1 ++ [x]) -> chain mem q l2 ->
  chain (<[x := q]> mem) p (l1 ++ x :: l2).
Proof.
  revert p. induction l1 as [|y l1 IH]; intros p Hnd; simpl in *.
  - intros (-> & Hx & _) Hc. split_and!; try done. exists q. rewrite lookup_insert_eq. split; [done|].
    eapply chain_same; [|done]. apply same_on_insert. by apply NoDup_cons in Hnd as [? _].
  - intros (-> & Hy & next & Hn & Hc) Hq. apply NoDup_cons in Hnd as [Hy' Hnd].
    split_and!; try done. exists next. rewrite lookup_insert_ne by set_solver. split; [done|]. by apply IH.
Qed.

(** An object is unlinked from behind its predecessor. *)
Lemma chain_skip mem p l1 y x l2 next :
  NoDup (l1 ++ y :: x :: l2) -> chain mem p (l1 ++ y :: x :: l2) -> mem !! x = Some next ->
  chain (<[y := next]> mem) p (l1 ++ y :: l2).
Proof.
  revert p. induction l1 as [|z l1 IH]; intros p Hnd; simpl in *.
  - intros (-> & Hy & nx & Hn & -> & Hx & nx' & Hn' & Hc) Hnext. rewrite Hn' in Hnext.
    injection Hnext as <-. split_and!; try done. exists nx'. rewrite lookup_insert_eq. split; [done|].
    eapply chain_same; [|done]. apply same_on_insert. rewrite !NoDup_cons in Hnd. set_solver.
  - intros (-> & Hz & nx & Hn & Hc) Hnext. apply NoDup_cons in Hnd as [Hz' Hnd].
    split_and!; try done. exists nx. rewrite lookup_insert_ne by set_solver. split; [done|]. by apply IH.
Qed.

(** ** The operations on the list *)
Lemma fl_push_spec obj mem fl l :
  represents mem fl l -> obj <> 0 -> obj ∉ l -> zlen l + 1 < 2 ^ 64 ->
  let '(mem', fl') := fl_push obj mem fl in
  represents mem' fl' (obj :: l) /\ forall y, y <> obj -> mem' !! y = mem !! y.
Proof.
  intros [] Hz Hn Hf. unfold fl_push. split; [|intros; by apply lookup_insert_ne]. split; simpl.
  - split_and!; try done. exists (fl_head fl). rewrite lookup_insert_eq. split; [done|].
    eapply chain_same; [|done]. by apply same_on_insert.
  - by constructor.
  - rewrite re_size0, zlen_cons. pose proof (zlen_nonneg l). rewrite wrap_id by (unfold fits; lia). lia.
  - rewrite zlen_cons. lia.
Qed.

Lemma fl_pop_spec mem fl l :
  represents mem fl l ->
  match l with
  | [] => fl_pop mem fl = Some (0, mem, fl)
  | x :: l' => exists mem' fl', fl_pop mem fl = Some (x, mem', fl') /\ represents mem' fl' l' /\
      x <> 0 /\ is_Some (mem' !! x) /\ forall y, y <> x -> mem' !! y = mem !! y
  end.
Proof.
  intros []. unfold fl_pop, fl_empty. destruct l as [|x l']; simpl in *.
  - by rewrite re_chain0.
  - destruct re_chain0 as (-> & Hx & next & Hn & Hc). apply NoDup_cons in re_nodup0 as [Hx' Hnd].
    destruct (Z.eqb_spec x 0) as [|_]; [done|]. rewrite Hn. simpl. eexists _, _. split; [done|].
    rewrite zlen_cons in *. pose proof (zlen_nonneg l'). split_and!; [|done|by rewrite lookup_insert_eq; eexists|].
    + split; simpl; try done; [|rewrite re_size0, wrap_id by (unfold fits; lia); lia|lia].
      eapply chain_same; [|done]. by apply same_on_insert.
    + intros y Hy. by apply lookup_insert_ne.
Qed.

Lemma range_split l (y : Z) : last l = Some y -> exists l1, l = l1 ++ [y].
Proof. intros Hl. apply last_Some in Hl. done. Qed.

Lemma fl_push_range_spec r mem fl l lr :
  represents mem fl l -> range_represents mem r lr -> (forall x, x ∈ lr -> x ∉ l) ->
  zlen l + zlen lr < 2 ^ 64 ->
  let '(mem', fl') := fl_push_range (range_first r) (range_last r) (range_count r) mem fl in
  represents mem' fl' (lr ++ l) /\ forall y, y ∉ lr -> mem' !! y = mem !! y.
Proof.
  intros [] [] Hd Hf. unfold fl_push_range. destruct (range_split _ _ rr_last0) as [l1 ->].
  assert (Hnd : NoDup ((l1 ++ [range_last r]) ++ l)) by (apply NoDup_app; set_solver).
  split; [|intros y Hy; apply lookup_insert_ne; set_solver]. split; simpl.
  - rewrite <- app_assoc in *. simpl in *. by apply chain_join.
  - done.
  - rewrite re_size0, rr_count0, (zlen_app (l1 ++ [range_last r])). pose proof (zlen_nonneg l).
    pose proof (zlen_nonneg (l1 ++ [range_last r])). rewrite wrap_id by (unfold fits; lia). lia.
  - rewrite (zlen_app (l1 ++ [range_last r])). lia.
Qed.

Lemma pop_range_loop_spec fuel n mem x rest count :
  chain mem x (x :: rest) -> 1 <= count <= n -> (Z.to_nat (n - count) < fuel)%nat ->
  exists l1 y l2, pop_range_loop fuel n mem x count = Some (y, count + zlen l1) /\
    x :: rest = l1 ++ y :: l2 /\ count + zlen l1 <= n /\ (l2 = [] \/ count + zlen l1 = n).
Proof.
  revert x rest count. induction fuel as [|fuel IH]; intros x rest count Hc Hr Hf; [lia|].
  simpl. destruct (Z.ltb_spec count n).
  - destruct Hc as (_ & Hx & next & Hn & Hc). rewrite Hn. simpl. destruct rest as [|x' rest].
    + simpl in Hc. subst next. exists [], x, []. replace (count + zlen []) with count by (rewrite (@zlen_nil Z); lia).
      split_and!; [done|done|lia|by left].
    + pose proof Hc as (-> & Hx' & _). destruct (Z.eqb_spec x' 0) as [|_]; [done|].
      destruct (IH x' rest (count + 1) Hc) as (l1 & y & l2 & -> & -> & Hle & Hend); [lia|lia|].
      exists (x :: l1), y, l2. rewrite zlen_cons. split; [f_equal; f_equal; lia|]. split_and!; [done|lia|].
      destruct Hend; [by left|right; lia].
  - exists [], x, rest. replace (count + zlen []) with count by (rewrite (@zlen_nil Z); lia).
    split_and!; [done|done|lia|right; lia].
Qed.

Lemma fl_pop_range_spec n mem fl l :
  represents mem fl l -> 1 <= n ->
  exists r mem' fl', fl_pop_range n mem fl = Some (r, mem', fl') /\
    represents mem' fl' (drop (Z.to_nat n) l) /\
    (l = [] -> r = Range_default) /\
    (l <> [] -> range_represents mem' r (take (Z.to_nat n) l)) /\
    range_empty r = bool_decide (l = []) /\
    (forall y, y ∉ l -> mem' !! y = mem !! y) /\
    (forall y, is_Some (mem !! y) -> is_Some (mem' !! y)).
Proof.
  intros Hrep Hn. pose proof Hrep as []. unfold fl_pop_range, fl_empty.
  destruct l as [|x rest]; simpl in re_chain0.
  - rewrite re_chain0. simpl. eexists _, _, _. split; [done|]. rewrite drop_nil. split_and!; done.
  - destruct (Z.eqb_spec (fl_head fl) 0) as [|_]; [destruct re_chain0 as (? & ? & _); congruence|].
    assert (fl_head fl = x) as Hh by (by destruct re_chain0). rewrite Hh in *.
    destruct (pop_range_loop_spec (S (Z.to_nat n)) n mem x rest 1) as (l1 & y & l2 & -> & Hl & Hle & Hend); [done|lia|lia|].
    simpl. change (chain mem x (x :: rest)) in re_chain0. rewrite Hl in re_chain0, re_nodup0.
    destruct (chain_app mem x l1 y l2 re_nodup0 re_chain0) as (next & Hnext & Hc2 & Hc1).
    rewrite Hnext. simpl. eexists _, _, _. split; [done|].
    assert (Htake : take (Z.to_nat n) (x :: rest) = l1 ++ [y] /\ drop (Z.to_nat n) (x :: rest) = l2).
    { rewrite Hl. replace (l1 ++ y :: l2) with ((l1 ++ [y]) ++ l2) by (by rewrite <- app_assoc).
      destruct Hend as [->|Hend].
      - rewrite app_nil_r. split; [apply take_ge|apply drop_ge]; rewrite length_app; unfold zlen in Hle; simpl; lia.
      - assert (Hlen : Z.to_nat n = length (l1 ++ [y])) by (rewrite length_app; unfold zlen in Hend; simpl; lia).
        rewrite Hlen. split; [apply take_app_length|apply drop_app_length]. }
    destruct Htake as [Htake Hdrop]. rewrite Htake, Hdrop.
    assert (Hy1 : (y ∉ l2) /\ (y ∉ l1)).
    { apply NoDup_app in re_nodup0 as (_ & Hd & [Hy _]%NoDup_cons). split; [done|].
      intros Hy1. apply (Hd _ Hy1). set_solver. }
    rewrite Hl in *. rewrite zlen_app, zlen_cons in *. pose proof (zlen_nonneg l1). pose proof (zlen_nonneg l2).
    split_and!; try done.
    + split; simpl.
      * eapply chain_same; [|done]. apply same_on_insert. tauto.
      * by apply NoDup_app in re_nodup0 as (_ & _ & [_ ?]%NoDup_cons).
      * rewrite re_size0, wrap_id by (unfold fits; lia). lia.
      * lia.
    + by destruct l1.
    + intros _. split; simpl; [done| |apply last_snoc|rewrite zlen_app, zlen_cons, zlen_nil; lia].
      apply NoDup_app in re_nodup0 as (? & Hd & _). apply NoDup_app. split_and!; [done| |apply NoDup_singleton].
      intros z Hz ->%list_elem_of_singleton. tauto.
    + apply Z.eqb_neq. simpl. destruct l1 as [|z l1]; simpl in re_chain0; destruct re_chain0 as (? & ? & _); congruence.
    + intros z Hz. apply lookup_insert_ne. set_solver.
    + intros z Hz. destruct (decide (z = y)) as [->|]; [rewrite lookup_insert_eq; by eexists|].
      by rewrite lookup_insert_ne.
Qed.

(** ** [count_if] and [remove_if] *)
Section predicates_spec.
Context (pred : Z -> bool).

Definition matching (l : list Z) : list Z := filter (fun x => pred x = true) l.
Definition kept (l : list Z) : list Z := filter (fun x => pred x = false) l.

Lemma matching_cons x l : matching (x :: l) = if pred x then x :: matching l else matching l.
Proof. unfold matching. rewrite filter_cons. by destruct (pred x). Qed.

Lemma kept_cons x l : kept (x :: l) = if pred x then kept l else x :: kept l.
Proof. unfold kept. rewrite filter_cons. by destruct (pred x). Qed.

Lemma count_if_loop_spec fuel mem cur l count :
  chain mem cur l -> (length l <= fuel)%nat ->
  count_if_loop pred fuel mem cur count = Some (count + zlen (matching l)).
Proof.
  revert cur l count. induction fuel as [|fuel IH]; intros cur l count Hc Hf.
  - destruct l; [|simpl in Hf; lia]. simpl in *. subst. simpl. f_equal.
    change (zlen (matching [])) with 0. lia.
  - destruct l as [|x l]; simpl in *.
    + subst. simpl. f_equal. change (zlen (matching [])) with 0. lia.
    + destruct Hc as (-> & Hx & next & Hn & Hc). destruct (Z.eqb_spec x 0) as [|_]; [done|].
      rewrite Hn. simpl. rewrite (IH next l) by (done || lia). rewrite matching_cons.
      destruct (pred x); rewrite ?zlen_cons; f_equal; lia.
Qed.

Lemma fl_count_if_spec mem fl l :
  represents mem fl l -> fl_count_if pred mem fl = Some (zlen (matching l)).
Proof.
  intros []. unfold fl_count_if. rewrite (count_if_loop_spec _ _ _ l); [done|done|].
  rewrite re_size0. unfold zlen. lia.
Qed.

Lemma remove_if_loop_spec fuel mem fl cur l1 l2 removed :
  represents mem fl (l1 ++ l2) -> chain mem cur l2 -> (length l2 <= fuel)%nat ->
  exists mem' fl', remove_if_loop pred fuel mem fl cur (default 0 (last l1)) removed =
      Some (removed + zlen (matching l2), mem', fl') /\
    represents mem' fl' (l1 ++ kept l2) /\ (forall y, y ∉ l1 ++ l2 -> mem' !! y = mem !! y) /\
    (forall y, is_Some (mem !! y) -> is_Some (mem' !! y)).
Proof.
  revert mem fl cur l1 l2 removed.
  assert (Hnil : forall mem fl l1 removed, represents mem fl (l1 ++ []) ->
    exists mem' fl', Some (removed, mem, fl) = Some (removed + zlen (matching []), mem', fl') /\
      represents mem' fl' (l1 ++ kept []) /\ (forall y, y ∉ l1 ++ [] -> mem' !! y = mem !! y) /\
      (forall y, is_Some (mem !! y) -> is_Some (mem' !! y))).
  { intros mem fl l1 removed Hrep. exists mem, fl. change (zlen (matching [])) with 0.
    rewrite Z.add_0_r. auto. }
  induction fuel as [|fuel IH]; intros mem fl cur l1 l2 removed Hrep Hc Hf.
  - destruct l2; [|simpl in Hf; lia]. simpl in Hc. subst. simpl. by apply Hnil.
  - destruct l2 as [|x l2]; simpl in Hc; [subst; simpl; by apply Hnil|].
    destruct Hc as (-> & Hx & nxt & Hn & Hc). simpl.
    destruct (Z.eqb_spec x 0) as [|_]; [done|]. rewrite Hn. simpl.
    pose proof Hrep as []. rewrite matching_cons, kept_cons. simpl in Hf. destruct (pred x).
    + assert (Hnd : NoDup (l1 ++ l2) /\ (x ∉ l1 ++ l2)).
      { rewrite <- Permutation_middle in re_nodup0. by apply NoDup_cons in re_nodup0 as [? ?]. }
      destruct Hnd as [Hnd Hxn].
      assert (Hun : exists mem1 head1, (if default 0 (last l1) =? 0 then (mem, nxt)
                 else (<[default 0 (last l1) := nxt]> mem, fl_head fl)) = (mem1, head1) /\
               chain mem1 head1 (l1 ++ l2) /\ (forall y, y ∉ l1 ++ l2 -> mem1 !! y = mem !! y) /\
               same_on l2 mem mem1 /\ (forall y, is_Some (mem !! y) -> is_Some (mem1 !! y))).
      { destruct (last l1) as [z|] eqn:Hz; simpl.
        - destruct (range_split _ _ Hz) as [l0 ->]. rewrite <- app_assoc in *. simpl in *.
          assert (z <> 0) by (eapply chain_nonzero; [exact re_chain0|set_solver]).
          destruct (Z.eqb_spec z 0) as [|_]; [done|]. eexists _, _. split; [done|]. split_and!.
          + by eapply chain_skip.
          + intros y Hy. apply lookup_insert_ne. set_solver.
          + apply same_on_insert. apply NoDup_app in Hnd as (_ & _ & [? _]%NoDup_cons). done.
          + intros y Hy. destruct (decide (y = z)) as [->|]; [rewrite lookup_insert_eq; by eexists|].
            by rewrite lookup_insert_ne.
        - apply last_None in Hz as ->. simpl in *. eexists _, _. split; [done|].
          destruct re_chain0 as (_ & _ & nx & Hnx & Hc'). by simplify_eq. }
      destruct Hun as (mem1 & head1 & -> & Hc1 & Hsame1 & Hs2 & Hdef1).
      destruct (IH (<[x := 0]> mem1) {| fl_head := head1; fl_size := wrap 64 (fl_size fl - 1) |}
                  nxt l1 l2 (removed + 1)) as (mem' & fl' & -> & Hrep' & Hsame' & Hdef').
      * split; simpl.
        -- eapply chain_same; [|done]. by apply same_on_insert.
        -- done.
        -- rewrite re_size0. rewrite !zlen_app, zlen_cons in *.
           pose proof (zlen_nonneg l1). pose proof (zlen_nonneg l2). rewrite wrap_id by (unfold fits; lia). lia.
        -- rewrite !zlen_app, zlen_cons in *. lia.
      * eapply chain_same; [|done]. intros y Hy. rewrite lookup_insert_ne by set_solver. by apply Hs2.
      * lia.
      * exists mem', fl'. rewrite zlen_cons. split; [do 3 f_equal; lia|]. split_and!; [done| |].
        -- intros y Hy. rewrite Hsame' by set_solver. rewrite lookup_insert_ne by set_solver.
           apply Hsame1. set_solver.
        -- intros y Hy. apply Hdef'. destruct (decide (y = x)) as [->|]; [rewrite lookup_insert_eq; by eexists|].
           rewrite lookup_insert_ne by done. by apply Hdef1.
    + destruct (IH mem fl nxt (l1 ++ [x]) l2 removed) as (mem' & fl' & He & Hrep' & Hsame' & Hdef').
      * by rewrite <- app_assoc.
      * done.
      * lia.
      * rewrite last_snoc in He. simpl in He. rewrite He. exists mem', fl'.
        rewrite <- app_assoc in *. done.
Qed.

Lemma fl_remove_if_spec mem fl l :
  represents mem fl l ->
  exists mem' fl', fl_remove_if pred mem fl = Some (zlen (matching l), mem', fl') /\
    represents mem' fl' (kept l) /\ (forall y, y ∉ l -> mem' !! y = mem !! y) /\
    (forall y, is_Some (mem !! y) -> is_Some (mem' !! y)).
Proof.
  intros Hrep. pose proof Hrep as []. unfold fl_remove_if.
  destruct (remove_if_loop_spec (Z.to_nat (fl_size fl)) mem fl (fl_head fl) [] l 0) as (mem' & fl' & Hr); [done|done| |].
  - rewrite re_size0. unfold zlen. lia.
  - exists mem', fl'. exact Hr.
Qed.
End predicates_spec.

(** [C40] The free list is a stack of objects: on a memory that represents the list [l], [push]
    and [pop] work on its head, [push_range] prepends a range, [pop_range] takes the first
    [n] objects as a range, [count_if] counts and [remove_if] removes the matching objects;
    no word outside the list, the pushed object and the pushed range is written, and no
    operation reads a word that was never written. *)
Theorem free_list_refines mem fl l obj r lr n pred :
  represents mem fl l -> obj <> 0 -> obj ∉ l -> range_represents mem r lr ->
  (forall x, x ∈ lr -> x ∉ l) -> zlen l + 1 < 2 ^ 64 -> zlen l + zlen lr < 2 ^ 64 -> 1 <= n ->
  (let '(mem', fl') := fl_push obj mem fl in
   represents mem' fl' (obj :: l) /\ forall y, y <> obj -> mem' !! y = mem !! y) /\
  (exists mem' fl', fl_pop mem fl = Some (default 0 (head l), mem', fl') /\
     represents mem' fl' (tail l) /\ forall y, y ∉ l -> mem' !! y = mem !! y) /\
  (let '(mem', fl') := fl_push_range (range_first r) (range_last r) (range_count r) mem fl in
   represents mem' fl' (lr ++ l) /\ forall y, y ∉ lr -> mem' !! y = mem !! y) /\
  (exists r' mem' fl', fl_pop_range n mem fl = Some (r', mem', fl') /\
     represents mem' fl' (drop (Z.to_nat n) l) /\
     (if decide (l = []) then r' = Range_default
      else range_represents mem' r' (take (Z.to_nat n) l)) /\
     forall y, y ∉ l -> mem' !! y = mem !! y) /\
  fl_count_if pred mem fl = Some (zlen (matching pred l)) /\
  (exists mem' fl', fl_remove_if pred mem fl = Some (zlen (matching pred l), mem', fl') /\
     represents mem' fl' (kept pred l) /\ forall y, y ∉ l -> mem' !! y = mem !! y).
Proof.
  intros Hrep Hz Hn Hr Hd H1 H2 Hn1. split_and!.
  - by apply fl_push_spec.
  - pose proof (fl_pop_spec _ _ _ Hrep) as Hp. destruct l as [|x l]; simpl in *.
    + exists mem, fl. done.
    + destruct Hp as (mem' & fl' & ? & ? & _ & _ & Hs). exists mem', fl'. split_and!; [done|done|].
      intros y Hy. apply Hs. set_solver.
  - by eapply fl_push_range_spec.
  - destruct (fl_pop_range_spec _ _ _ _ Hrep Hn1) as (r' & mem' & fl' & ? & ? & ? & ? & _ & ? & _).
    exists r', mem', fl'. split_and!; [done|done| |done]. case_decide; auto.
  - by apply fl_count_if_spec.
  - destruct (fl_remove_if_spec pred _ _ _ Hrep) as (mem' & fl' & ? & ? & ? & _). eauto.
Qed.

Lemma free_list_refines_witness :
  let mem : memory := <[16 := 32]> (<[32 := 0]> (<[64 := 0]> ∅)) in
  exists mem' fl', fl_pop mem (mkFreeList 16 2) = Some (16, mem', fl') /\ represents mem' fl' [32].
Proof.
  intros mem.
  assert (Hc : chain mem 16 [16; 32]).
  { simpl. split_and!; try done. exists 32. split; [done|]. split_and!; try done. exists 0. done. }
  assert (Hr : represents mem (mkFreeList 16 2) [16; 32]).
  { split; [exact Hc| |reflexivity|done]. by apply (bool_decide_unpack _). }
  assert (Hlr : range_represents mem (mkRange 64 64 1) [64]).
  { split; [|apply NoDup_singleton|reflexivity|reflexivity]. simpl. split_and!; try done. exists 0. done. }
  destruct (free_list_refines mem (mkFreeList 16 2) [16; 32] 48 (mkRange 64 64 1) [64] 1 (fun _ => false))
    as (_ & (mem' & fl' & H1 & H2 & _) & _).
  - exact Hr.
  - done.
  - by apply (bool_decide_unpack _).
  - exact Hlr.
  - intros x ->%list_elem_of_singleton. by apply (bool_decide_unpack _).
  - done.
  - done.
  - lia.
  - exists mem', fl'. split; [exact H1|exact H2].
Defined.
