(* ===== verification/Allocator.v ===== *)
(** The object allocator on top of the page heap: myring/src/tcmalloc/CentralCache.cpp,
    TransferCache.cpp, ThreadCache.cpp and MiniMalloc.cpp.

    The state is the memory words that link free objects ([memory] of FreeList.v), the page
    heap, the central and transfer caches, and the caches of the threads.  Every call is
    one step; the mutexes of the code make its parts atomic.  A failed assertion and a read of
    a word or span that does not exist are [None].  Calls of [operator new] take their
    result from [answer] and are recorded.  The vectors are assumed not to run out of
    memory. *)
From S2P Require Import Prelude SizeClass PageHeap FreeList.
Import SizeClass.

Record CentralClass := mkCentral { cc_free : FreeList; cc_spans : list nat; cc_total : Z }.

Record TransferClass := mkTransfer { tc_ranges : list Range; tc_count : Z }.

Record ThreadCache := mkThread {
  th_lists : list FreeList;
  th_cached_bytes : Z;
  th_limit : Z;
}.

Record Allocator := mkAlloc {
  a_mem : memory;
  a_heap : PageHeap;
  a_central : list CentralClass;
  a_transfer : list TransferClass;
  a_threads : gmap nat ThreadCache;
}.

Definition kDefaultThreadCacheLimit : Z := 512 * 1024.

Definition thread_init : ThreadCache :=
  {| th_lists := replicate kNumClasses fl_init; th_cached_bytes := 0; th_limit := kDefaultThreadCacheLimit |}.

Definition alloc_init : Allocator :=
  {| a_mem := ∅; a_heap := heap_init;
     a_central := replicate kNumClasses (mkCentral fl_init [] 0);
     a_transfer := replicate kNumClasses (mkTransfer [] 0); a_threads := ∅ |}.

Definition set_mem (m : memory) (a : Allocator) : Allocator :=
  mkAlloc m (a_heap a) (a_central a) (a_transfer a) (a_threads a).

Definition set_heap (h : PageHeap) (a : Allocator) : Allocator :=
  mkAlloc (a_mem a) h (a_central a) (a_transfer a) (a_threads a).

Definition set_central (ci : nat) (c : CentralClass) (a : Allocator) : Allocator :=
  mkAlloc (a_mem a) (a_heap a) (<[ci := c]> (a_central a)) (a_transfer a) (a_threads a).

Definition set_transfer (ci : nat) (c : TransferClass) (a : Allocator) : Allocator :=
  mkAlloc (a_mem a) (a_heap a) (a_central a) (<[ci := c]> (a_transfer a)) (a_threads a).

Definition set_thread (t : nat) (c : ThreadCache) (a : Allocator) : Allocator :=
  mkAlloc (a_mem a) (a_heap a) (a_central a) (a_transfer a) (<[t := c]> (a_threads a)).

(** [assert] *)
Definition assert (b : bool) : option unit := if b then Some tt else None.

(** ** CentralCache *)
Module CentralCache.
(** [central_free_count] of a span changes by [d]. *)
Definition add_free (h : nat) (s : Span) (d : Z) (a : Allocator) : Allocator :=
  set_heap (update_object h
    (with_object_info (sp_class_index s) (sp_object_size s) (sp_object_count s)
       (wrap 64 (sp_central_free_count s + d)) s) (a_heap a)) a.

(** [on_fetch_range_unlocked], over the objects left *)
Fixpoint on_fetch_range (count : nat) (cur : Z) (a : Allocator) : option Allocator :=
  match count with
  | O => Some a
  | S count =>
      _ ← assert (negb (cur =? 0));
      span ← map_object_to_span cur (a_heap a);
      a ← match span with
          | None => Some a
          | Some h =>
              s ← objects (a_heap a) !! h;
              _ ← assert (0 <? sp_central_free_count s);
              Some (add_free h s (-1) a)
          end;
      next ← a_mem a !! cur;
      on_fetch_range count next a
  end.

(** [on_release_range_unlocked] *)
Fixpoint on_release_range (count : nat) (cur : Z) (a : Allocator) : option Allocator :=
  match count with
  | O => Some a
  | S count =>
      _ ← assert (negb (cur =? 0));
      span ← map_object_to_span cur (a_heap a);
      a ← match span with
          | None => Some a
          | Some h =>
              s ← objects (a_heap a) !! h;
              _ ← assert (sp_central_free_count s <? sp_object_count s);
              Some (add_free h s 1 a)
          end;
      next ← a_mem a !! cur;
      on_release_range count next a
  end.

(** The loop of [populate_unlocked] from object [i] on: the links, and the last object. *)
Fixpoint link_objects (todo : nat) (begin size count i last : Z) (mem : memory) : Z * memory :=
  match todo with
  | O => (last, mem)
  | S todo =>
      let current := begin + i * size in
      if i + 1 <? count
      then link_objects todo begin size count (i + 1) last (<[current := begin + (i + 1) * size]> mem)
      else link_objects todo begin size count (i + 1) current (<[current := 0]> mem)
  end.

Section ops.
Context `{!IterOrder Z (list nat)}.
Context (answer : option Z).

Definition populate (ci : nat) (cls : CentralClass) (a : Allocator)
    : option (bool * CentralClass * list SysAction * Allocator) :=
  size ← class_size ci;
  pages ← pages_for_class ci;
  r ← new_span pages answer (a_heap a);
  let '(span, acts, heap) := r in
  let a := set_heap heap a in
  match span with
  | None => Some (false, cls, acts, a)
  | Some h =>
      s ← objects heap !! h;
      let s := bind_size_class (Z.of_nat ci) size s in
      let a := set_heap (update_object h s heap) a in
      let count := sp_object_count s in
      if count =? 0 then
        r ← release_span (Some h) (a_heap a);
        Some (false, cls, acts, set_heap r.2 a)
      else
        let '(last, mem) :=
          link_objects (Z.to_nat count) (sp_start s) size count 0 0 (a_mem a) in
        let '(mem, fl) := fl_push_range (sp_start s) last count mem (cc_free cls) in
        Some (true, mkCentral fl (cc_spans cls ++ [h]) (wrap 64 (cc_total cls + count)), acts,
              set_mem mem a)
  end.

Definition fetch_range (ci : nat) (n : Z) (a : Allocator) : option (Range * list SysAction * Allocator) :=
  _ ← assert (ci <? kNumClasses)%nat;
  _ ← assert (0 <? n);
  cls ← a_central a !! ci;
  r ← (if fl_empty (cc_free cls) then populate ci cls a else Some (true, cls, [], a));
  let '(ok, cls, acts, a) := r in
  if negb ok then Some (Range_default, acts, set_central ci cls a)
  else
    r ← fl_pop_range n (a_mem a) (cc_free cls);
    let '(range, mem, fl) := r in
    let a := set_central ci (mkCentral fl (cc_spans cls) (cc_total cls)) (set_mem mem a) in
    a ← (if negb (range_empty range)
         then on_fetch_range (Z.to_nat (range_count range)) (range_first range) a else Some a);
    Some (range, acts, a).
End ops.

(** [release_empty_spans_unlocked]; [done] are the spans that stay. *)
Fixpoint release_empty_spans (todo done : list nat) (cls : CentralClass) (a : Allocator)
    : option (CentralClass * Allocator) :=
  match todo with
  | [] => Some (mkCentral (cc_free cls) done (cc_total cls), a)
  | h :: todo =>
      s ← objects (a_heap a) !! h;
      if (sp_object_count s =? 0) || negb (sp_central_free_count s =? sp_object_count s)
      then release_empty_spans todo (done ++ [h]) cls a
      else
        count_in_list ← fl_count_if (fun obj => contains obj s) (a_mem a) (cc_free cls);
        _ ← assert (count_in_list =? sp_object_count s);
        r ← fl_remove_if (fun obj => contains obj s) (a_mem a) (cc_free cls);
        let '(removed, mem, fl) := r in
        _ ← assert (removed =? sp_object_count s);
        let cls := mkCentral fl (cc_spans cls) (sub_sat (cc_total cls) removed) in
        r ← release_span (Some h) (a_heap a);
        release_empty_spans todo done cls (set_heap r.2 (set_mem mem a))
  end.

Definition release_range (ci : nat) (r : Range) (a : Allocator) : option Allocator :=
  _ ← assert ((ci <? kNumClasses)%nat && negb (range_first r =? 0) && negb (range_last r =? 0) &&
              (0 <? range_count r));
  a ← on_release_range (Z.to_nat (range_count r)) (range_first r) a;
  cls ← a_central a !! ci;
  let '(mem, fl) := fl_push_range (range_first r) (range_last r) (range_count r) (a_mem a) (cc_free cls) in
  r ← release_empty_spans (cc_spans cls) [] (mkCentral fl (cc_spans cls) (cc_total cls)) (set_mem mem a);
  let '(cls, a) := r in
  Some (set_central ci cls a).
End CentralCache.

(** ** TransferCache *)
Module TransferCache.
Definition max_ranges_for_class (ci : nat) : option Z :=
  size ← class_size ci;
  Some (if size <=? 64 then 64 else if size <=? 256 then 32 else if size <=? 1024 then 16 else 8).

Section ops.
Context `{!IterOrder Z (list nat)}.
Context (answer : option Z).

Definition fetch_range (ci : nat) (n : Z) (a : Allocator) : option (Range * list SysAction * Allocator) :=
  _ ← assert ((ci <? kNumClasses)%nat && (0 <? n));
  cls ← a_transfer a !! ci;
  match last (tc_ranges cls) with
  | Some range =>
      Some (range, [],
            set_transfer ci (mkTransfer (removelast (tc_ranges cls))
                               (sub_sat (tc_count cls) (range_count range))) a)
  | None => CentralCache.fetch_range answer ci n a
  end.
End ops.

Definition release_range (ci : nat) (r : Range) (a : Allocator) : option Allocator :=
  _ ← assert ((ci <? kNumClasses)%nat && negb (range_first r =? 0) && negb (range_last r =? 0) &&
              (0 <? range_count r));
  cls ← a_transfer a !! ci;
  max_ranges ← max_ranges_for_class ci;
  if zlen (tc_ranges cls) <? max_ranges
  then Some (set_transfer ci (mkTransfer (tc_ranges cls ++ [r])
                                (wrap 64 (tc_count cls + range_count r))) a)
  else CentralCache.release_range ci r a.

Fixpoint drain_ranges (ci : nat) (l : list Range) (a : Allocator) : option Allocator :=
  match l with
  | [] => Some a
  | r :: l =>
      a ← (if negb (range_empty r) then CentralCache.release_range ci r a else Some a);
      drain_ranges ci l a
  end.

Definition drain_class (ci : nat) (a : Allocator) : option Allocator :=
  _ ← assert (ci <? kNumClasses)%nat;
  cls ← a_transfer a !! ci;
  drain_ranges ci (tc_ranges cls) (set_transfer ci (mkTransfer [] 0) a).

Fixpoint drain_all (cis : list nat) (a : Allocator) : option Allocator :=
  match cis with
  | [] => Some a
  | ci :: cis => a ← drain_class ci a; drain_all cis a
  end.
End TransferCache.

(** ** ThreadCache, of thread [t] *)
Module Thread.
Definition with_list (ci : nat) (fl : FreeList) (bytes : Z) (c : ThreadCache) : ThreadCache :=
  {| th_lists := <[ci := fl]> (th_lists c); th_cached_bytes := bytes; th_limit := th_limit c |}.

(** [ThreadCache::current()] creates the cache on the first use. *)
Definition current (t : nat) (a : Allocator) : ThreadCache := default thread_init (a_threads a !! t).

Definition max_local_count (ci : nat) : option Z := b ← batch_count ci; Some (wrap 64 (b * 2)).

(** [list.pop()] and the accounting that follows it. *)
Definition pop_local (t ci : nat) (size : Z) (a : Allocator) : option (Z * Allocator) :=
  let c := current t a in
  fl ← th_lists c !! ci;
  r ← fl_pop (a_mem a) fl;
  let '(obj, mem, fl) := r in
  if obj =? 0 then Some (0, set_thread t c a)
  else
    _ ← assert (size <=? th_cached_bytes c);
    Some (obj, set_thread t (with_list ci fl (wrap 64 (th_cached_bytes c - size)) c) (set_mem mem a)).

(** [release_to_central] with the batch as [n]; [release_all] passes the whole list. *)
Definition release_batch (t ci : nat) (n : Z) (a : Allocator) : option Allocator :=
  let c := current t a in
  fl ← th_lists c !! ci;
  if fl_empty fl then Some a
  else
    size ← class_size ci;
    r ← fl_pop_range n (a_mem a) fl;
    let '(range, mem, fl) := r in
    if range_empty range then Some a
    else
      let bytes := wrap 64 (range_count range * size) in
      _ ← assert (bytes <=? th_cached_bytes c);
      TransferCache.release_range ci range
        (set_thread t (with_list ci fl (wrap 64 (th_cached_bytes c - bytes)) c) (set_mem mem a)).

Definition release_to_central (t ci : nat) (a : Allocator) : option Allocator :=
  batch ← batch_count ci;
  release_batch t ci batch a.

(** One round of [scavenge], from class [i - 1] down; the flag is [released_any]. *)
Fixpoint scavenge_round (i : nat) (t : nat) (target : Z) (released_any : bool) (a : Allocator)
    : option (bool * Allocator) :=
  match i with
  | O => Some (released_any, a)
  | S ci =>
      fl ← th_lists (current t a) !! ci;
      if fl_empty fl then scavenge_round ci t target released_any a
      else
        let before := th_cached_bytes (current t a) in
        a ← release_to_central t ci a;
        let released_any := released_any || (th_cached_bytes (current t a) <? before) in
        if th_cached_bytes (current t a) <=? target then Some (released_any, a)
        else scavenge_round ci t target released_any a
  end.

Fixpoint scavenge_loop (rounds : nat) (t : nat) (target : Z) (a : Allocator) : option Allocator :=
  match rounds with
  | O => Some a
  | S rounds =>
      if target <? th_cached_bytes (current t a) then
        r ← scavenge_round kNumClasses t target false a;
        let '(released_any, a) := r in
        if negb released_any then Some a else scavenge_loop rounds t target a
      else Some a
  end.

Definition scavenge (t : nat) (a : Allocator) : option Allocator :=
  let target := wrap 64 (th_limit (current t a) * 3) / 4 in
  scavenge_loop kNumClasses t (if target =? 0 then 1 else target) a.

Section ops.
Context `{!IterOrder Z (list nat)}.
Context (answer : option Z).

Definition fetch_from_central (t ci : nat) (a : Allocator) : option (Z * list SysAction * Allocator) :=
  batch ← batch_count ci;
  size ← class_size ci;
  r ← TransferCache.fetch_range answer ci batch a;
  let '(range, acts, a) := r in
  if range_empty range then Some (0, acts, a)
  else
    let c := current t a in
    fl ← th_lists c !! ci;
    let '(mem, fl) := fl_push_range (range_first range) (range_last range) (range_count range) (a_mem a) fl in
    let bytes := wrap 64 (th_cached_bytes c + wrap 64 (range_count range * size)) in
    r ← pop_local t ci size (set_thread t (with_list ci fl bytes c) (set_mem mem a));
    Some (r.1, acts, r.2).

Definition allocate (t : nat) (size : Z) (a : Allocator) : option (Z * list SysAction * Allocator) :=
  if negb (is_small size) then Some (0, [], a)
  else
    ci ← SizeClass.index size;
    _ ← assert (ci <? kNumClasses)%nat;
    csize ← class_size ci;
    r ← pop_local t ci csize a;
    let '(obj, a) := r in
    if negb (obj =? 0) then Some (obj, [], a) else fetch_from_central t ci a.
End ops.

Definition deallocate (t : nat) (ptr size : Z) (a : Allocator) : option Allocator :=
  if ptr =? 0 then Some a
  else if negb (is_small size) then Some a
  else
    ci ← SizeClass.index size;
    _ ← assert (ci <? kNumClasses)%nat;
    csize ← class_size ci;
    let c := current t a in
    fl ← th_lists c !! ci;
    let '(mem, fl) := fl_push ptr (a_mem a) fl in
    let a := set_thread t (with_list ci fl (wrap 64 (th_cached_bytes c + csize)) c) (set_mem mem a) in
    max_count ← max_local_count ci;
    a ← (if max_count <=? fl_size fl then release_to_central t ci a else Some a);
    let c := current t a in
    if th_limit c <? th_cached_bytes c then scavenge t a else Some a.

(** The [while] loop of [release_all] for one class. *)
Fixpoint release_list (fuel : nat) (t ci : nat) (a : Allocator) : option Allocator :=
  fl ← th_lists (current t a) !! ci;
  if fl_empty fl then Some a
  else
    match fuel with
    | O => None
    | S fuel => a ← release_batch t ci (fl_size fl) a; release_list fuel t ci a
    end.

Fixpoint release_classes (cis : list nat) (t : nat) (a : Allocator) : option Allocator :=
  match cis with
  | [] => Some a
  | ci :: cis =>
      fl ← th_lists (current t a) !! ci;
      a ← release_list (Z.to_nat (fl_size fl)) t ci a;
      release_classes cis t a
  end.

Definition release_all (t : nat) (a : Allocator) : option Allocator :=
  a ← release_classes (seq 0 kNumClasses) t a;
  let c := current t a in
  _ ← assert (th_cached_bytes c =? 0);
  Some (set_thread t {| th_lists := th_lists c; th_cached_bytes := 0; th_limit := th_limit c |} a).

Definition set_cache_limit_bytes (t : nat) (bytes : Z) (a : Allocator) : option Allocator :=
  let bytes := if bytes <? 8 * 1024 then 8 * 1024 else bytes in
  let c := current t a in
  let a := set_thread t {| th_lists := th_lists c; th_cached_bytes := th_cached_bytes c; th_limit := bytes |} a in
  if bytes <? th_cached_bytes c then scavenge t a else Some a.
End Thread.

(** ** MiniMalloc *)
Definition ceil_div (x y : Z) : Z := wrap 64 (wrap 64 (x + y) - 1) / y.

Definition is_valid_small_object_pointer (s : Span) (ptr : Z) : bool :=
  if (ptr =? 0) || (sp_object_size s =? 0) then false
  else if (ptr <? sp_start s) || (span_end s <=? ptr) then false
  else (ptr - sp_start s) mod sp_object_size s =? 0.

Section malloc.
Context `{!IterOrder Z (list nat)}.

Definition mini_malloc (answer : option Z) (t : nat) (size : Z) (a : Allocator)
    : option (Z * list SysAction * Allocator) :=
  let size := if size =? 0 then 1 else size in
  if is_small size then Thread.allocate answer t size a
  else
    r ← new_span (ceil_div size kPageSize) answer (a_heap a);
    let '(span, acts, heap) := r in
    match span with
    | None => Some (0, acts, set_heap heap a)
    | Some h =>
        s ← objects heap !! h;
        let s := with_object_info kInvalidSizeClass size 1 0 s in
        Some (sp_start s, acts, set_heap (update_object h s heap) a)
    end.

(** [mini_free]; its assertions are only compiled into debug builds. *)
Definition mini_free (t : nat) (ptr : Z) (a : Allocator) : option Allocator :=
  if ptr =? 0 then Some a
  else
    span ← map_object_to_span ptr (a_heap a);
    match span with
    | None => Some a
    | Some h =>
        s ← objects (a_heap a) !! h;
        if negb (sp_class_index s =? kInvalidSizeClass) then
          if negb (is_valid_small_object_pointer s ptr) then Some a
          else Thread.deallocate t ptr (sp_object_size s) a
        else if negb (ptr =? sp_start s) then Some a
        else
          r ← release_span (Some h) (a_heap a);
          Some (set_heap r.2 a)
    end.
End malloc.
