(* ===== verification/AllocParts.v ===== *)
(** The places an object can be in and the invariant of the whole allocator (Allocator.v): every
    object of a span that is bound to a size class is in exactly one place - the central list of
    the class, a range of the transfer cache, the list of a thread, the hands of the running
    operation (a range that is being handed over, or ranges that are being drained) or of the
    user - and the links, counts and tables agree with it.

    A part is a class with a place; [part_ok] relates the lists of the code to the objects
    that are there.  An operation touches one or two parts; [keeps] says that it leaves a
    part alone, and [user_frame] that it leaves everything the user holds alone. *)
From S2P Require Import Prelude SizeClass PageHeap PageHeapInv PageHeapProofs PageHeapOps PageHeapPurge.
From S2P Require Import FreeList Allocator.
Import SizeClass.

(** ** Objects *)
Inductive owner : Type :=
  | OCentral | OTransfer | OThread (t : nat) | OHeld | ODrain | OUser.

#[export] Instance owner_eq_dec : EqDecision owner.
Proof. solve_decision. Defined.

(** The class and the place of every object. *)
Abbreviation ownership := (gmap Z (nat * owner)).

Definition is_object (s : Span) (x : Z) : Prop :=
  exists k, 0 <= k < sp_object_count s /\ x = sp_start s + k * sp_object_size s.

(** A span cut into objects of class [i]. *)
Record bound (s : Span) (i : nat) : Prop := {
  bo_class : sp_class_index s = Z.of_nat i;
  bo_size : class_size i = Some (sp_object_size s);
  bo_count : sp_object_count s = sp_bytes s / sp_object_size s;
  bo_some : 1 <= sp_object_count s;
}.

Lemma class_size_range i size : class_size i = Some size -> 8 <= size <= 8192 /\ (i < kNumClasses)%nat.
Proof.
  intros Hc. split; [|by apply lookup_lt_Some in Hc].
  assert (Hall : Forall (fun c => 8 <= c <= 8192) kClassSizes) by (repeat constructor; lia).
  rewrite Forall_lookup in Hall. eauto.
Qed.

Lemma class_size_total i : (i < kNumClasses)%nat -> exists size, class_size i = Some size.
Proof. apply lookup_lt_is_Some. Qed.

Lemma bound_extent s i x :
  bound s i -> is_object s x -> sp_start s <= x /\ x + sp_object_size s <= span_end s.
Proof.
  intros [Hc Hs Hn _] (k & Hk & ->). apply class_size_range in Hs as [Hr _].
  pose proof (Z.mul_div_le (sp_bytes s) (sp_object_size s) ltac:(lia)).
  rewrite <- Hn in *. unfold span_end. nia.
Qed.

Lemma bound_contains s i x : bound s i -> is_object s x -> contains x s = true.
Proof.
  intros Hb Ho. pose proof (bound_extent _ _ _ Hb Ho). destruct Hb as [_ Hs _ _].
  apply class_size_range in Hs. unfold contains. lia.
Qed.

(** Distinct objects of a span do not overlap. *)
Lemma objects_disjoint s i x y :
  bound s i -> is_object s x -> is_object s y -> x <> y ->
  x + sp_object_size s <= y \/ y + sp_object_size s <= x.
Proof.
  intros [_ Hs _ _] (k & Hk & ->) (j & Hj & ->) Hne. apply class_size_range in Hs as [Hs _].
  destruct (Z.lt_total k j) as [|[->|]]; [left; nia|done|right; nia].
Qed.

Definition objs (s : Span) : list Z :=
  (fun k => sp_start s + k * sp_object_size s) <$> seqZ 0 (sp_object_count s).

Lemma elem_of_objs s x : x ∈ objs s <-> is_object s x.
Proof.
  unfold objs, is_object. rewrite list_elem_of_fmap. split.
  - intros (k & -> & Hk%elem_of_seqZ). exists k. split; [lia|done].
  - intros (k & Hk & ->). exists k. split; [done|]. apply elem_of_seqZ. lia.
Qed.

Lemma NoDup_objs s i : bound s i -> NoDup (objs s).
Proof.
  intros [_ Hs _ _]. apply class_size_range in Hs as [Hs _]. apply NoDup_fmap_2; [|apply NoDup_seqZ].
  intros k j Hkj. nia.
Qed.

Lemma length_objs s : 0 <= sp_object_count s -> zlen (objs s) = sp_object_count s.
Proof. intros. unfold objs, zlen. rewrite length_fmap, length_seqZ. lia. Qed.

(** Same span up to the count of its objects in the central list. *)
Record same_shape (s s' : Span) : Prop := {
  sh_extent : same_extent s s';
  sh_class : sp_class_index s = sp_class_index s';
  sh_size : sp_object_size s = sp_object_size s';
  sh_count : sp_object_count s = sp_object_count s';
}.

Lemma same_shape_refl s : same_shape s s.
Proof. by destruct s. Qed.

Lemma same_shape_sym s s' : same_shape s s' -> same_shape s' s.
Proof. intros [[] ? ? ?]. by repeat split. Qed.

Lemma same_shape_trans s s' s'' : same_shape s s' -> same_shape s' s'' -> same_shape s s''.
Proof. intros [[] ? ? ?] [[] ? ? ?]. repeat split; congruence. Qed.

Lemma is_object_shape s s' x : same_shape s s' -> is_object s x <-> is_object s' x.
Proof. intros [[Hst _ _ _ _] _ Hsz Hc]. unfold is_object. by rewrite Hst, Hsz, Hc. Qed.

Lemma bound_shape s s' i : same_shape s s' -> bound s i -> bound s' i.
Proof.
  intros [[_ _ Hb _ _] Hc Hsz Hn] []. split; congruence.
Qed.

Lemma contains_shape s s' x : same_shape s s' -> contains x s = contains x s'.
Proof. intros [[Hst _ Hb _ _] _ _ _]. unfold contains, span_end. by rewrite Hst, Hb. Qed.

(** ** Active spans *)
Definition shape_inv (A : gmap nat Span) : Prop :=
  forall h s, A !! h = Some s -> sp_class_index s = kInvalidSizeClass \/ exists i, bound s i.

Definition own_inv (own : ownership) (A : gmap nat Span) : Prop :=
  forall x i, (exists o, own !! x = Some (i, o)) <->
    exists h s, A !! h = Some s /\ bound s i /\ is_object s x.

(** The objects of class [i] in the central list are counted in their spans. *)
Definition counts (A : gmap nat Span) (i : nat) (l : list Z) : Prop :=
  forall h s, A !! h = Some s -> bound s i ->
    sp_central_free_count s = zlen (matching (fun x => contains x s) l).

(** The active spans change in their counts of class [i] at most. *)
Record shape_sim (i : nat) (A A' : gmap nat Span) : Prop := {
  ss_fwd : forall h s, A !! h = Some s -> exists s', A' !! h = Some s' /\ same_shape s s';
  ss_bwd : forall h s', A' !! h = Some s' -> exists s, A !! h = Some s /\ same_shape s s';
  ss_other : forall h s, A !! h = Some s -> ~ bound s i -> A' !! h = Some s;
}.

Lemma shape_sim_refl i A : shape_sim i A A.
Proof. split; eauto using same_shape_refl. Qed.

Lemma shape_sim_trans i A A' A'' : shape_sim i A A' -> shape_sim i A' A'' -> shape_sim i A A''.
Proof.
  intros [F1 B1 O1] [F2 B2 O2]. split.
  - intros h s Hs. destruct (F1 _ _ Hs) as (s1 & Hs1 & Hsh1). destruct (F2 _ _ Hs1) as (s2 & ? & ?).
    eauto using same_shape_trans.
  - intros h s Hs. destruct (B2 _ _ Hs) as (s1 & Hs1 & Hsh1). destruct (B1 _ _ Hs1) as (s2 & ? & ?).
    eauto using same_shape_trans.
  - intros h s Hs Hn. apply O2; [by apply O1|done].
Qed.

Lemma shape_inv_sim i A A' : shape_sim i A A' -> shape_inv A -> shape_inv A'.
Proof.
  intros [_ B _] HA h s' Hs'. destruct (B _ _ Hs') as (s & Hs & Hsh).
  destruct (HA _ _ Hs) as [Hc|[j Hb]]; [left|right; exists j; by eapply bound_shape].
  by rewrite <- (sh_class _ _ Hsh).
Qed.

Lemma own_inv_sim i own A A' : shape_sim i A A' -> own_inv own A -> own_inv own A'.
Proof.
  intros [F B _] HA x j. rewrite (HA x j). split; intros (h & s & Hs & Hb & Ho).
  - destruct (F _ _ Hs) as (s' & ? & Hsh). exists h, s'. split_and!; [done|by eapply bound_shape|].
    by apply (is_object_shape _ _ _ Hsh).
  - destruct (B _ _ Hs) as (s' & ? & Hsh). exists h, s'.
    split_and!; [done|by eapply bound_shape, Hb; apply same_shape_sym|]. by apply (is_object_shape _ _ _ Hsh).
Qed.

Lemma bound_class_unique s i j : bound s i -> bound s j -> i = j.
Proof. intros [Hi _ _ _] [Hj _ _ _]. rewrite Hi in Hj. by apply Nat2Z.inj. Qed.

Lemma counts_sim_other i j A A' l : shape_sim i A A' -> i <> j -> counts A j l -> counts A' j l.
Proof.
  intros [_ B O] Hne Hc h s' Hs' Hb. destruct (B _ _ Hs') as (s & Hs & Hsh).
  assert (Hbs : bound s j) by (eapply bound_shape, Hb; by apply same_shape_sym).
  assert (~ bound s i) by (intros Hi; apply Hne; by eapply bound_class_unique).
  pose proof (O _ _ Hs ltac:(done)). simplify_eq. eauto.
Qed.

Lemma matching_shape s s' l :
  same_shape s s' -> matching (fun x => contains x s) l = matching (fun x => contains x s') l.
Proof.
  intros Hsh. unfold matching. apply list_filter_iff. intros x. by rewrite (contains_shape _ _ _ Hsh).
Qed.

(** An address lies in one active span. *)
Lemma span_unique H A C live h h' s s' x :
  heap_inv H A C live -> A !! h = Some s -> A !! h' = Some s' ->
  contains x s = true -> contains x s' = true -> h = h'.
Proof.
  intros Hinv Hs Hs' Hx Hx'. destruct (decide (h = h')) as [|Hne]; [done|].
  pose proof (active_disjoint _ _ _ _ h h' s s' Hinv Hs Hs' Hne). unfold contains in *. lia.
Qed.

(** The allocator changes the object information of an active span. *)
Lemma heap_update_active H A C live h s s' :
  heap_inv H A C live -> A !! h = Some s -> same_extent s' s ->
  heap_inv (update_object h s' H) (<[h := s']> A) C live.
Proof.
  intros [Hrep HC] Hs Hse. split; [|done]. destruct (rp_A Hrep _ _ Hs) as (Ho & _ & HCh).
  pose proof (rep_A_ok Hrep) as HokA. pose proof Hrep as [Hcore Hact Hcach HA HCC Hcov Hheld].
  assert (Hcov' : forall p, covers s' p <-> covers s p).
  { intros p. destruct Hse as [E1 E2 _ _ _]. unfold covers, span_end_page, span_start_page. by rewrite E1, E2. }
  split; simpl.
  - destruct Hcore as [Hfr Hok Hdis Hsys Hlive Htot]. split.
    + intros h' [s0 [[<- _]|[_ Hs0]]%lookup_insert_Some]; eauto.
    + intros h' s0 [[<- <-]|[_ Hs0]]%lookup_insert_Some; [|eauto]. eapply span_ok_same; eauto.
    + intros h1 h2 s1 s2 H1 H2 Hne. unfold apart, span_end_page, span_start_page. destruct Hse as [E1 E2 _ _ _].
      apply lookup_insert_Some in H1 as [[<- <-]|[_ H1]]; apply lookup_insert_Some in H2 as [[<- <-]|[_ H2]];
        rewrite ?E1, ?E2; try done; by eapply (Hdis h1 h2) || by eapply (Hdis h1 _) || by eapply (Hdis _ h2).
    + rewrite (bsum_insert _ _ _ _ Ho). destruct Hse. lia.
    + intros b n. rewrite Hlive. destruct Hse as [_ _ _ E4 E5]. split.
      * intros (h0 & s0 & H0 & Hb). destruct (decide (h0 = h)) as [->|].
        -- exists h, s'. rewrite lookup_insert_eq, E4, E5. rewrite Ho in H0. injection H0 as <-. done.
        -- exists h0, s0. by rewrite lookup_insert_ne.
      * intros (h0 & s0 & [[<- <-]|[? H0]]%lookup_insert_Some & Hb); [|eauto].
        exists h, s. by rewrite <- E4, <- E5.
    + done.
  - destruct Hact as [Hnd Hsp Hpg Hby]. split.
    + done.
    + intros h'. rewrite Hsp. destruct (decide (h' = h)) as [->|]; [rewrite lookup_insert_eq|by rewrite lookup_insert_ne].
      split; intros _; by eexists.
    + intros p h'. rewrite Hpg. split.
      * intros (s0 & Hs0 & Hc). destruct (decide (h' = h)) as [->|].
        -- exists s'. rewrite lookup_insert_eq. simplify_eq. split; [done|]. by apply Hcov'.
        -- exists s0. by rewrite lookup_insert_ne.
      * intros (s0 & [[<- <-]|[? Hs0]]%lookup_insert_Some & Hc); [|eauto]. exists s. split; [done|]. by apply Hcov'.
    + rewrite Hby, (bsum_insert _ _ _ _ Hs). destruct Hse. lia.
  - done.
  - intros h' s0 [[<- <-]|[? Hs0]]%lookup_insert_Some; [rewrite lookup_insert_eq; split_and!; [done|set_solver|done]|].
    rewrite lookup_insert_ne by done. eauto.
  - intros h' s0 Hs0. destruct (HCC _ _ Hs0) as (? & ? & ?).
    rewrite !lookup_insert_ne by congruence. done.
  - intros h' s0 [[<- <-]|[? Hs0]]%lookup_insert_Some; [rewrite lookup_insert_eq; by left|].
    rewrite lookup_insert_ne by done. eauto.
  - intros h' Hh'. set_solver.
Qed.

(** ** Moving objects between places *)
Definition move (l : list Z) (i : nat) (o : owner) (own : ownership) : ownership :=
  foldr (fun x m => <[x := (i, o)]> m) own l.

Lemma lookup_move l i o own x :
  move l i o own !! x = if decide (x ∈ l) then Some (i, o) else own !! x.
Proof.
  induction l as [|y l IH]; [done|].
  change (move (y :: l) i o own) with (<[y := (i, o)]> (move l i o own)).
  destruct (decide (x = y)) as [->|Hne].
  - rewrite lookup_insert_eq, decide_True; [done|left].
  - rewrite lookup_insert_ne, IH by done.
    destruct (decide (x ∈ l)); [rewrite decide_True|rewrite decide_False]; set_solver.
Qed.

Definition place (own : ownership) (i : nat) (o : owner) (l : list Z) : Prop :=
  forall x, x ∈ l <-> own !! x = Some (i, o).

Definition held (own : ownership) (i : nat) (l : list Z) : Prop :=
  forall x j, own !! x = Some (j, OHeld) <-> j = i /\ x ∈ l.

Lemma own_inv_move l i o o' own A :
  own_inv own A -> (forall x, x ∈ l -> own !! x = Some (i, o)) -> own_inv (move l i o' own) A.
Proof.
  intros Ho Hl x j. rewrite lookup_move. case_decide as Hx; [|apply Ho].
  rewrite <- (Ho x j), (Hl x Hx). naive_solver.
Qed.

(** ** The objects of a list *)
Definition class_objects (A : gmap nat Span) (i : nat) (l : list Z) : Prop :=
  forall x, x ∈ l -> exists h s, A !! h = Some s /\ bound s i /\ is_object s x.

Lemma place_objects own A i o l : own_inv own A -> place own i o l -> class_objects A i l.
Proof. intros Ho Hp x Hx. apply Ho. exists o. by apply Hp. Qed.

Lemma owned_objects own A i o l :
  own_inv own A -> (forall x, x ∈ l -> own !! x = Some (i, o)) -> class_objects A i l.
Proof. intros Ho Hp x Hx. apply Ho. exists o. by apply Hp. Qed.

Lemma class_objects_app A i l k :
  class_objects A i l -> class_objects A i k -> class_objects A i (l ++ k).
Proof. intros Hl Hk x [?|?]%elem_of_app; eauto. Qed.

Section spans.
Context {H : PageHeap} {A C : gmap nat Span} {live : gmap Z Z} (Hinv : heap_inv H A C live).

Lemma owned_span s h i x y :
  A !! h = Some s -> bound s i -> contains x s = true ->
  (exists h' s', A !! h' = Some s' /\ bound s' y /\ is_object s' x) -> is_object s x.
Proof.
  intros Hs Hb Hc (h' & s' & Hs' & Hb' & Ho).
  assert (h = h') as <- by (eapply (span_unique _ _ _ _ h h' s s' x Hinv);
                            eauto using bound_contains).
  by simplify_eq.
Qed.

Lemma class_objects_pos i l x : class_objects A i l -> x ∈ l -> 0 < x < 2 ^ 64.
Proof.
  intros Hl Hx. destruct (Hl x Hx) as (h & s & Hs & Hb & Ho).
  pose proof (bound_extent _ _ _ Hb Ho). destruct Hb as [_ Hsz _ _]. apply class_size_range in Hsz.
  apply (rp_A (hi_rep _ _ _ _ Hinv)) in Hs as [Hs _]. apply (rep_ok (hi_rep _ _ _ _ Hinv)) in Hs as [].
  unfold kPageSize in *. lia.
Qed.

(** Distinct addresses: fewer than 2^64 of them. *)
Lemma class_objects_length i l : class_objects A i l -> NoDup l -> zlen l < 2 ^ 64.
Proof.
  intros Hl Hnd.
  assert (l ⊆+ seqZ 1 (2 ^ 64 - 1)) as Hsub.
  { apply NoDup_submseteq; [done|]. intros x Hx. apply elem_of_seqZ.
    pose proof (class_objects_pos i l x Hl Hx). lia. }
  apply submseteq_length in Hsub. rewrite length_seqZ in Hsub. apply inj_le in Hsub.
  rewrite Z2Nat.id in Hsub by lia. unfold zlen. lia.
Qed.

(** The objects of a span in a list are some of its objects. *)
Lemma matching_objs i l h s :
  class_objects A i l -> NoDup l -> A !! h = Some s -> bound s i ->
  matching (fun x => contains x s) l ⊆+ objs s.
Proof.
  intros Hl Hnd Hs Hb. apply NoDup_submseteq; [by apply NoDup_filter|].
  intros x [Hc Hx]%list_elem_of_filter. apply elem_of_objs. eapply owned_span; eauto.
Qed.

Lemma matching_bound i l h s :
  class_objects A i l -> NoDup l -> A !! h = Some s -> bound s i ->
  zlen (matching (fun x => contains x s) l) <= sp_object_count s.
Proof.
  intros Hl Hnd Hs Hb. rewrite <- (length_objs s) by (destruct Hb; lia).
  pose proof (submseteq_length _ _ (matching_objs i l h s Hl Hnd Hs Hb)). unfold zlen. lia.
Qed.

(** When all objects of a span are counted, they are all in the list. *)
Lemma matching_full i l h s x :
  class_objects A i l -> NoDup l -> A !! h = Some s -> bound s i ->
  zlen (matching (fun x => contains x s) l) = sp_object_count s -> is_object s x -> x ∈ l.
Proof.
  intros Hl Hnd Hs Hb Hn Ho%elem_of_objs.
  pose proof (matching_objs i l h s Hl Hnd Hs Hb) as Hsub.
  assert (Hp : matching (fun x => contains x s) l ≡ₚ objs s).
  { apply submseteq_length_Permutation; [done|].
    pose proof (length_objs s ltac:(destruct Hb; lia)). unfold zlen in *. lia. }
  rewrite <- Hp in Ho. by apply list_elem_of_filter in Ho as [_ ?].
Qed.

Lemma object_count_fits h s i : A !! h = Some s -> bound s i -> 0 <= sp_object_count s < 2 ^ 64.
Proof.
  intros Hs [_ Hsz Hn Hs1]. apply class_size_range in Hsz as [Hsz _].
  apply (rp_A (hi_rep _ _ _ _ Hinv)) in Hs as [Hs _]. apply (rep_ok (hi_rep _ _ _ _ Hinv)) in Hs.
  pose proof (Z.mul_div_le (sp_bytes s) (sp_object_size s) ltac:(lia)). rewrite <- Hn in *.
  destruct Hs. unfold span_end, kPageSize in *. nia.
Qed.
End spans.

(** ** Parts *)
Record central_list (mem : memory) (A : gmap nat Span) (own : ownership) (i : nat) (cls : CentralClass)
    (l : list Z) : Prop := {
  cl_rep : represents mem (cc_free cls) l;
  cl_place : place own i OCentral l;
  cl_counts : counts A i l;
  cl_nodup : NoDup (cc_spans cls);
  cl_spans : forall h, h ∈ cc_spans cls <-> exists s, A !! h = Some s /\ bound s i;
}.

(** No span of the class has all its objects in the central list. *)
Definition not_full (A : gmap nat Span) (i : nat) : Prop :=
  forall h s, A !! h = Some s -> bound s i -> sp_central_free_count s < sp_object_count s.

(** [FreeList]s and ranges hold at most two batches outside the central cache. *)
Definition two_batches (i : nat) (n : Z) : Prop := exists b, batch_count i = Some b /\ n <= 2 * b.

Record transfer_list (mem : memory) (own : ownership) (i : nat) (cls : TransferClass)
    (ls : list (list Z)) : Prop := {
  tl_ranges : Forall2 (range_represents mem) (tc_ranges cls) ls;
  tl_nodup : NoDup (concat ls);
  tl_place : place own i OTransfer (concat ls);
  tl_batches : Forall (fun l => two_batches i (zlen l)) ls;
}.

Record thread_list (mem : memory) (own : ownership) (t i : nat) (fl : FreeList) (l : list Z) : Prop := {
  th_rep : represents mem fl l;
  th_place : place own i (OThread t) l;
  th_short : zlen l <= 256;
}.

Definition part_ok (a : Allocator) (A : gmap nat Span) (own : ownership) (i : nat) (o : owner) : Prop :=
  match o with
  | OCentral => exists cls l, a_central a !! i = Some cls /\ central_list (a_mem a) A own i cls l /\ not_full A i
  | OTransfer => exists cls ls, a_transfer a !! i = Some cls /\ transfer_list (a_mem a) own i cls ls
  | OThread t => exists fl l, th_lists (Thread.current t a) !! i = Some fl /\ thread_list (a_mem a) own t i fl l
  | OHeld | ODrain | OUser => True
  end.

(** An operation leaves a part alone. *)
Definition same_part (a a' : Allocator) (i : nat) (o : owner) : Prop :=
  match o with
  | OCentral => a_central a' !! i = a_central a !! i
  | OTransfer => a_transfer a' !! i = a_transfer a !! i
  | OThread t => th_lists (Thread.current t a') !! i = th_lists (Thread.current t a) !! i
  | OHeld | ODrain | OUser => True
  end.

Definition same_spans (i : nat) (A A' : gmap nat Span) : Prop :=
  forall h s, bound s i -> (A' !! h = Some s <-> A !! h = Some s).

Record keeps (a : Allocator) (A : gmap nat Span) (own : ownership) (a' : Allocator) (A' : gmap nat Span)
    (own' : ownership) (i : nat) (o : owner) : Prop := {
  kp_part : same_part a a' i o;
  kp_own : forall x, own' !! x = Some (i, o) <-> own !! x = Some (i, o);
  kp_mem : forall x, own !! x = Some (i, o) -> a_mem a' !! x = a_mem a !! x;
  kp_spans : o = OCentral -> same_spans i A A';
}.

Lemma place_frame own own' i o l :
  (forall x, own' !! x = Some (i, o) <-> own !! x = Some (i, o)) -> place own i o l -> place own' i o l.
Proof. intros He Hp x. rewrite He. apply Hp. Qed.

Lemma place_same_on own i o l (mem mem' : memory) k :
  (forall x, own !! x = Some (i, o) -> mem' !! x = mem !! x) -> place own i o l -> k ⊆ l ->
  same_on k mem mem'.
Proof. intros Hm Hp Hk x Hx. apply Hm, Hp. set_solver. Qed.

Lemma ranges_same mem mem' rs ls :
  same_on (concat ls) mem mem' -> Forall2 (range_represents mem) rs ls -> Forall2 (range_represents mem') rs ls.
Proof.
  intros Hm Hr. induction Hr as [|r l rs ls Hrl _ IH]; constructor.
  - eapply range_same; [|done]. intros x Hx. apply Hm. apply elem_of_app. by left.
  - apply IH. intros x Hx. apply Hm. apply elem_of_app. by right.
Qed.

Lemma part_ok_keeps a A own a' A' own' i o :
  keeps a A own a' A' own' i o -> part_ok a A own i o -> part_ok a' A' own' i o.
Proof.
  intros [Hs Ho Hm Hsp]. destruct o as [| |t| | |]; simpl in *; try done.
  - rewrite Hs. intros (cls & l & Hc & [Hr Hp Hn Hnd Hh] & Hf). specialize (Hsp eq_refl).
    exists cls, l. split; [done|]. split; [split|].
    + eapply represents_same; [|done]. by eapply place_same_on.
    + by eapply place_frame.
    + intros h s Hs' Hb. eapply Hn; [|done]. by apply Hsp.
    + done.
    + intros h. rewrite Hh. split; intros (s & ? & ?); exists s; (split; [by apply Hsp|done]).
    + intros h s Hs' Hb. eapply Hf; [|done]. by apply Hsp.
  - rewrite Hs. intros (cls & ls & Hc & [Hr Hnd Hp Hb]). exists cls, ls. split; [done|]. split; try done.
    + eapply ranges_same; [|done]. by eapply place_same_on.
    + by eapply place_frame.
  - rewrite Hs. intros (fl & l & Hc & [Hr Hp Hb]). exists fl, l. split; [done|]. split; try done.
    + eapply represents_same; [|done]. by eapply place_same_on.
    + by eapply place_frame.
Qed.

(** ** The bytes of a thread cache *)
Definition bytes_of (sizes : list Z) (fls : list FreeList) : Z :=
  foldr Z.add 0 (zip_with (fun size fl => size * fl_size fl) sizes fls).

Lemma bytes_of_insert sizes fls i size fl fl' :
  sizes !! i = Some size -> fls !! i = Some fl ->
  bytes_of sizes (<[i := fl']> fls) = bytes_of sizes fls - size * fl_size fl + size * fl_size fl'.
Proof.
  unfold bytes_of. revert sizes i. induction fls as [|x fls IH]; intros [|y sizes] [|i] Hs Hf; simplify_eq/=; [lia|].
  rewrite (IH sizes i) by done. lia.
Qed.

Lemma bytes_of_bound sizes fls :
  Forall (fun size => 0 <= size <= 8192) sizes -> Forall (fun fl => 0 <= fl_size fl <= 256) fls ->
  0 <= bytes_of sizes fls <= 8192 * 256 * zlen sizes.
Proof.
  unfold bytes_of. intros Hs. revert fls. induction Hs as [|size sizes Hsz _ IH]; intros fls Hf; [done|].
  rewrite zlen_cons. destruct Hf as [|fl fls Hfl Hf]; simpl; [pose proof (zlen_nonneg sizes); lia|].
  specialize (IH fls Hf). nia.
Qed.

Lemma bytes_of_ge sizes fls i size fl :
  Forall (fun size => 0 <= size <= 8192) sizes -> Forall (fun fl => 0 <= fl_size fl <= 256) fls ->
  sizes !! i = Some size -> fls !! i = Some fl -> size * fl_size fl <= bytes_of sizes fls.
Proof.
  unfold bytes_of. intros Hs. revert fls i. induction Hs as [|x sizes Hsz Hs IH]; intros fls i Hf; [done|].
  destruct Hf as [|fl' fls Hfl Hf]; [done|]. pose proof (bytes_of_bound sizes fls Hs Hf) as Hb. unfold bytes_of in Hb.
  destruct i as [|i]; simpl; intros; simplify_eq; [lia|]. specialize (IH fls i Hf ltac:(done) ltac:(done)). nia.
Qed.

Lemma class_sizes_bound : Forall (fun size => 0 <= size <= 8192) kClassSizes.
Proof. repeat constructor; lia. Qed.

Record bytes_ok (c : ThreadCache) : Prop := {
  bk_length : length (th_lists c) = kNumClasses;
  bk_bytes : th_cached_bytes c = bytes_of kClassSizes (th_lists c);
}.

(** ** The invariant *)
Record alloc_inv (a : Allocator) (A C : gmap nat Span) (live : gmap Z Z) (own : ownership) : Prop := {
  ai_heap : heap_inv (a_heap a) A C live;
  ai_shape : shape_inv A;
  ai_own : own_inv own A;
  ai_parts : forall i o, (i < kNumClasses)%nat -> part_ok a A own i o;
  ai_bytes : forall t, bytes_ok (Thread.current t a);
}.
Arguments ai_heap {a A C live own}.
Arguments ai_shape {a A C live own}.
Arguments ai_own {a A C live own}.
Arguments ai_parts {a A C live own}.
Arguments ai_bytes {a A C live own}.

Lemma invalid_not_bound s i : sp_class_index s = kInvalidSizeClass -> ~ bound s i.
Proof.
  intros Hc [Hi Hsz _ _]. apply class_size_range in Hsz as [_ Hsz].
  assert (kNumClasses = 36%nat) by done. rewrite Hi in Hc. unfold kInvalidSizeClass, u64_max in Hc. lia.
Qed.

(** ** What the user holds *)
Definition in_use (own : ownership) (A : gmap nat Span) (y : Z) : Prop :=
  (exists x i size, own !! x = Some (i, OUser) /\ class_size i = Some size /\ x <= y < x + size) \/
  (exists h s, A !! h = Some s /\ sp_class_index s = kInvalidSizeClass /\ contains y s = true).

(** An operation leaves alone what the user holds. *)
Record block_frame (mem : memory) (A : gmap nat Span) (own : ownership) (mem' : memory)
    (A' : gmap nat Span) (own' : ownership) : Prop := {
  bf_own : forall x i, own' !! x = Some (i, OUser) <-> own !! x = Some (i, OUser);
  bf_large : forall h s, sp_class_index s = kInvalidSizeClass -> (A' !! h = Some s <-> A !! h = Some s);
  bf_mem : forall y, in_use own A y -> mem' !! y = mem !! y;
}.

(** It also leaves alone what is being drained. *)
Record user_frame (mem : memory) (A : gmap nat Span) (own : ownership) (mem' : memory)
    (A' : gmap nat Span) (own' : ownership) : Prop := {
  uf_blocks : block_frame mem A own mem' A' own';
  uf_drain : forall x i, own' !! x = Some (i, ODrain) <-> own !! x = Some (i, ODrain);
  uf_drain_mem : forall x i, own !! x = Some (i, ODrain) -> mem' !! x = mem !! x;
}.

Lemma in_use_frame mem A own mem' A' own' y :
  block_frame mem A own mem' A' own' -> in_use own A y <-> in_use own' A' y.
Proof.
  intros [Ho Hl _]. unfold in_use. split.
  - intros [(x & i & size & Hx & ?)|(h & s & Hs & ? & ?)].
    + left. exists x, i, size. by rewrite Ho.
    + right. exists h, s. by rewrite Hl.
  - intros [(x & i & size & Hx & ?)|(h & s & Hs & ? & ?)].
    + left. exists x, i, size. by rewrite <- Ho.
    + right. exists h, s. by rewrite <- Hl.
Qed.

Lemma block_frame_refl mem A own : block_frame mem A own mem A own.
Proof. by split. Qed.

Lemma block_frame_trans mem A own mem1 A1 own1 mem2 A2 own2 :
  block_frame mem A own mem1 A1 own1 -> block_frame mem1 A1 own1 mem2 A2 own2 ->
  block_frame mem A own mem2 A2 own2.
Proof.
  intros F1 F2. split.
  - intros x i. rewrite (bf_own _ _ _ _ _ _ F2). apply F1.
  - intros h s Hs. rewrite (bf_large _ _ _ _ _ _ F2) by done. by apply F1.
  - intros y Hy. rewrite (bf_mem _ _ _ _ _ _ F2), (bf_mem _ _ _ _ _ _ F1); [done|done|].
    by apply (in_use_frame _ _ _ _ _ _ _ F1).
Qed.

Lemma user_frame_refl mem A own : user_frame mem A own mem A own.
Proof. by split. Qed.

Lemma user_frame_trans mem A own mem1 A1 own1 mem2 A2 own2 :
  user_frame mem A own mem1 A1 own1 -> user_frame mem1 A1 own1 mem2 A2 own2 ->
  user_frame mem A own mem2 A2 own2.
Proof.
  intros F1 F2. split; [eapply block_frame_trans; [apply F1|apply F2]| |].
  - intros x i. rewrite (uf_drain _ _ _ _ _ _ F2). apply F1.
  - intros x i Hx. rewrite (uf_drain_mem _ _ _ _ _ _ F2 x i), (uf_drain_mem _ _ _ _ _ _ F1 x i); [done|done|].
    by apply F1.
Qed.

Section objects.
Context {H : PageHeap} {A C : gmap nat Span} {live : gmap Z Z} (Hinv : heap_inv H A C live).
Context {own : ownership} (Hown : own_inv own A).

(** Two objects do not overlap. *)
Lemma owned_disjoint x y i j o o' c c' :
  own !! x = Some (i, o) -> own !! y = Some (j, o') -> class_size i = Some c -> class_size j = Some c' ->
  x <> y -> x + c <= y \/ y + c' <= x.
Proof.
  intros Hx Hy Hc Hc' Hne.
  destruct (proj1 (Hown x i) ltac:(eauto)) as (h & s & Hs & Hb & Ho).
  destruct (proj1 (Hown y j) ltac:(eauto)) as (h' & s' & Hs' & Hb' & Ho').
  assert (c = sp_object_size s) as -> by (destruct Hb; congruence).
  assert (c' = sp_object_size s') as -> by (destruct Hb'; congruence).
  destruct (decide (h = h')) as [<-|Hh].
  - rewrite Hs in Hs'. injection Hs' as <-. by eapply objects_disjoint.
  - pose proof (bound_extent _ _ _ Hb Ho). pose proof (bound_extent _ _ _ Hb' Ho').
    pose proof (active_disjoint _ _ _ _ h h' s s' Hinv Hs Hs' Hh). lia.
Qed.

(** The word of an object the user does not hold is not in use. *)
Lemma owned_not_in_use x i o : own !! x = Some (i, o) -> o <> OUser -> ~ in_use own A x.
Proof.
  intros Hx Ho [(y & j & c & Hy & Hc & Hr)|(h & s & Hs & Hcl & Hc)].
  - destruct (proj1 (Hown x i) ltac:(eauto)) as (h & s & Hs & Hb & _).
    pose proof (bo_size _ _ Hb) as Hsz. pose proof (class_size_range _ _ Hsz).
    destruct (decide (x = y)) as [->|Hne]; [congruence|].
    pose proof (owned_disjoint x y i j _ _ _ _ Hx Hy Hsz Hc Hne). lia.
  - destruct (proj1 (Hown x i) ltac:(eauto)) as (h' & s' & Hs' & Hb & Hob).
    assert (h = h') as <- by (eapply (span_unique _ _ _ _ h h' s s' x Hinv);
                              eauto using bound_contains).
    rewrite Hs in Hs'. injection Hs' as <-. by eapply invalid_not_bound.
Qed.

End objects.

(** ** Steps of the allocator

    A step works on the places [T] of class [i]: nothing else moves, and the words it
    writes belong to objects there, or to memory nobody uses. *)
Record moved (i : nat) (T : list owner) (mem : memory) (A : gmap nat Span) (own : ownership)
    (mem' : memory) (A' : gmap nat Span) (own' : ownership) : Prop := {
  mv_own : forall x j o, (j = i -> o ∉ T) -> (own' !! x = Some (j, o) <-> own !! x = Some (j, o));
  mv_mem : forall y, mem' !! y = mem !! y \/ (exists o, o ∈ T /\ own !! y = Some (i, o)) \/
    (own !! y = None /\ ~ in_use own A y);
  mv_spans : forall j, (j = i -> OCentral ∉ T) -> same_spans j A A';
  mv_large : forall h s, sp_class_index s = kInvalidSizeClass -> (A' !! h = Some s <-> A !! h = Some s);
}.

Definition internal (T : list owner) : Prop := (OUser ∉ T) /\ (ODrain ∉ T).

Lemma moved_refl i T mem A own : moved i T mem A own mem A own.
Proof. split; try done; auto. Qed.

Lemma moved_blocks H C live i T mem A own mem' A' own' :
  heap_inv H A C live -> own_inv own A -> OUser ∉ T -> moved i T mem A own mem' A' own' ->
  block_frame mem A own mem' A' own'.
Proof.
  intros Hinv Hown HT [Ho Hm _ Hl]. split; [by intros x j; apply Ho|done|].
  intros y Hy. destruct (Hm y) as [|[(o & HoT & Hoy)|[_ ?]]]; [done| |done].
  exfalso. eapply (owned_not_in_use Hinv Hown y i o); [done| |done]. by intros ->.
Qed.

Lemma moved_frame H C live i T mem A own mem' A' own' :
  heap_inv H A C live -> own_inv own A -> internal T -> moved i T mem A own mem' A' own' ->
  user_frame mem A own mem' A' own'.
Proof.
  intros Hinv Hown [HT HT'] Hmv. split; [by eapply moved_blocks|by intros x j; apply Hmv|].
  intros x j Hx. destruct (mv_mem _ _ _ _ _ _ _ _ Hmv x) as [|[(o & HoT & Hoy)|[? _]]]; [done|congruence|congruence].
Qed.

Lemma in_use_moved i T mem A own mem' A' own' y :
  OUser ∉ T -> moved i T mem A own mem' A' own' -> in_use own A y -> in_use own' A' y.
Proof.
  intros HT [Ho _ _ Hl] [(x & j & size & Hx & ?)|(h & s & Hs & ? & ?)].
  - left. exists x, j, size. split; [|done]. by apply Ho.
  - right. exists h, s. split; [|done]. by apply Hl.
Qed.

Lemma moved_trans H1 C1 live1 i T mem A own mem1 A1 own1 mem2 A2 own2 :
  heap_inv H1 A1 C1 live1 -> own_inv own1 A1 -> OUser ∉ T -> moved i T mem A own mem1 A1 own1 -> moved i T mem1 A1 own1 mem2 A2 own2 ->
  moved i T mem A own mem2 A2 own2.
Proof.
  intros Hinv Hown HT M1 M2. split.
  - intros x j o Hj. rewrite (mv_own _ _ _ _ _ _ _ _ M2) by done. by apply M1.
  - intros y. destruct (mv_mem _ _ _ _ _ _ _ _ M2 y) as [->|Hy]; [apply (mv_mem _ _ _ _ _ _ _ _ M1)|]. right.
    destruct (own !! y) as [[j o]|] eqn:Hyo.
    + left. destruct (decide (j = i /\ o ∈ T)) as [[-> ?]|Hn]; [eauto|].
      apply (mv_own _ _ _ _ _ _ _ _ M1) in Hyo; [|intros -> ?; by apply Hn].
      destruct Hy as [(o' & ? & ?)|[? _]]; [|congruence]. exists o'. split; [done|]. congruence.
    + right. split; [done|]. intros Hu. apply (in_use_moved _ _ _ _ _ _ _ _ _ HT M1) in Hu as Hu1.
      destruct Hy as [(o' & Ho' & Hy1)|[_ ?]]; [|done].
      eapply (owned_not_in_use Hinv Hown y i o'); [done| |done]. by intros ->.
  - intros j Hj h s Hb. rewrite (mv_spans _ _ _ _ _ _ _ _ M2 j Hj h s Hb). by apply (mv_spans _ _ _ _ _ _ _ _ M1 j Hj h s Hb).
  - intros h s Hs. rewrite (mv_large _ _ _ _ _ _ _ _ M2 h s Hs). by apply (mv_large _ _ _ _ _ _ _ _ M1).
Qed.

Section step.
Context {i : nat} {T : list owner} {a : Allocator} {A C : gmap nat Span} {live : gmap Z Z} {own : ownership}.
Context {a' : Allocator} {A' C' : gmap nat Span} {live' : gmap Z Z} {own' : ownership}.
Context (Hai : alloc_inv a A C live own) (Hmv : moved i T (a_mem a) A own (a_mem a') A' own').

Lemma alloc_step_inv :
  heap_inv (a_heap a') A' C' live' -> shape_inv A' -> own_inv own' A' ->
  (forall j o, (j < kNumClasses)%nat -> (j = i -> o ∉ T) -> same_part a a' j o) ->
  (forall o, o ∈ T -> part_ok a' A' own' i o) -> (forall t, bytes_ok (Thread.current t a')) ->
  alloc_inv a' A' C' live' own'.
Proof.
  intros Hheap Hshape Hown Hsame Hparts Hbytes. split; try done.
  intros j o Hj. destruct (decide (j = i /\ o ∈ T)) as [[-> Ho]|Hn]; [by apply Hparts|].
  assert (Hjo : j = i -> o ∉ T) by (intros -> ?; by apply Hn).
  eapply part_ok_keeps; [|by apply Hai]. split.
  - by apply Hsame.
  - intros x. by apply Hmv.
  - intros x Hx. destruct (mv_mem _ _ _ _ _ _ _ _ Hmv x) as [|[(o' & Ho' & Hx')|[Hx' _]]]; [done| |congruence].
    rewrite Hx in Hx'. injection Hx' as -> ->. by apply Hjo in Ho'.
  - intros ->. by apply (mv_spans _ _ _ _ _ _ _ _ Hmv).
Qed.

Lemma alloc_step_frame : internal T -> user_frame (a_mem a) A own (a_mem a') A' own'.
Proof. intros HT. eapply moved_frame; [apply Hai|apply Hai|done|done]. Qed.
End step.

Lemma alloc_step i T a A C live own a' A' C' live' own' :
  alloc_inv a A C live own -> internal T -> moved i T (a_mem a) A own (a_mem a') A' own' ->
  heap_inv (a_heap a') A' C' live' -> shape_inv A' -> own_inv own' A' ->
  (forall j o, (j < kNumClasses)%nat -> (j = i -> o ∉ T) -> same_part a a' j o) ->
  (forall o, o ∈ T -> part_ok a' A' own' i o) -> (forall t, bytes_ok (Thread.current t a')) ->
  alloc_inv a' A' C' live' own' /\ user_frame (a_mem a) A own (a_mem a') A' own'.
Proof. intros. split; [by eapply alloc_step_inv|by eapply alloc_step_frame]. Qed.

(** The objects of a list change place. *)
Lemma moved_move i T o o' l mem mem' A own :
  (forall x, x ∈ l -> own !! x = Some (i, o)) -> o ∈ T -> o' ∈ T ->
  (forall y, mem' !! y = mem !! y \/ exists p, p ∈ T /\ own !! y = Some (i, p)) ->
  moved i T mem A own mem' A (move l i o' own).
Proof.
  intros Hl Ho Ho' Hm. split; try done.
  - intros x j p Hj. rewrite lookup_move. case_decide as Hx; [|done]. rewrite (Hl x Hx).
    split; intros [= -> ->]; by apply Hj in Ho || by apply Hj in Ho'.
  - intros y. destruct (Hm y) as [|]; auto.
Qed.
