(* ===== verification/AllocCentral.v ===== *)
(** The central cache (module [CentralCache] of Allocator.v) keeps the invariant of
    AllocParts.v: the counts of the spans follow the objects that are fetched and released,
    a span whose objects are all back is given to the page heap, and a new span is
    cut into objects that were nobody's. *)
From S2P Require Import Prelude SizeClass PageHeap PageHeapInv PageHeapProofs PageHeapOps PageHeapPurge.
From S2P Require Import FreeList Allocator AllocParts.
Import SizeClass.

#[local] Arguments release_span : simpl never.
#[local] Arguments new_span : simpl never.
#[local] Arguments fl_push_range : simpl never.

Lemma set_heap_twice H H' a : set_heap H' (set_heap H a) = set_heap H' a.
Proof. done. Qed.

Lemma counts_perm A i l l' : l ≡ₚ l' -> counts A i l -> counts A i l'.
Proof.
  intros Hp Hc h s Hs Hb. rewrite (Hc _ _ Hs Hb). unfold zlen, matching. by rewrite Hp.
Qed.

(** The span of an object, as [map_object_to_span] finds it. *)
Lemma object_span H A C live x h s i :
  heap_inv H A C live -> A !! h = Some s -> bound s i -> is_object s x ->
  map_object_to_span x H = Some (Some h) /\ objects H !! h = Some s.
Proof.
  intros Hinv Hs Hb Ho. destruct (map_object_spec _ _ _ _ x Hinv) as (r & -> & Hr). split.
  - f_equal. apply Hr. exists s. split; [done|]. by eapply bound_contains.
  - by apply (rp_A (hi_rep _ _ _ _ Hinv)) in Hs as [? _].
Qed.

(** One object enters or leaves the central list of its span. *)
Lemma add_free_step a A C live i x l l' h s d :
  heap_inv (a_heap a) A C live -> A !! h = Some s -> bound s i -> is_object s x ->
  counts A i l -> (forall p, zlen (matching p l') = zlen (matching p l) + if p x then d else 0) ->
  0 <= sp_central_free_count s + d < 2 ^ 64 ->
  exists H' A', CentralCache.add_free h s d a = set_heap H' a /\ heap_inv H' A' C live /\
    shape_sim i A A' /\ counts A' i l'.
Proof.
  intros Hinv Hs Hb Ho Hc Hl Hd. unfold CentralCache.add_free. rewrite wrap_id by done.
  set (s' := with_object_info _ _ _ _ s). eexists _, (<[h := s']> A). split; [done|].
  assert (Hsh : same_shape s s') by (by destruct s).
  split; [by eapply heap_update_active; [done|done|destruct s]|]. split; [split|].
  - intros h0 s0 Hs0. destruct (decide (h0 = h)) as [->|].
    + exists s'. rewrite lookup_insert_eq. simplify_eq. done.
    + exists s0. rewrite lookup_insert_ne by done. split; [done|]. apply same_shape_refl.
  - intros h0 s0 [[<- <-]|[? Hs0]]%lookup_insert_Some; eauto using same_shape_refl.
  - intros h0 s0 Hs0 Hn. rewrite lookup_insert_ne; [done|]. intros <-. by simplify_eq.
  - intros h0 s0 Hs0 Hb0. rewrite Hl. apply lookup_insert_Some in Hs0 as [[<- <-]|[Hne Hs0]].
    + rewrite <- (contains_shape _ _ x Hsh), (bound_contains _ _ _ Hb Ho).
      rewrite <- (matching_shape _ _ l Hsh), <- (Hc _ _ Hs Hb). done.
    + rewrite (Hc _ _ Hs0 Hb0). destruct (contains x s0) eqn:Hx; [|lia]. exfalso. apply Hne.
      eapply (span_unique _ _ _ _ h h0 s s0 x Hinv); eauto using bound_contains.
Qed.

Lemma class_objects_sim i A A' l : shape_sim i A A' -> class_objects A i l -> class_objects A' i l.
Proof.
  intros [F _ _] Hl x Hx. destruct (Hl x Hx) as (h & s & Hs & Hb & Ho).
  destruct (F _ _ Hs) as (s' & ? & Hsh). exists h, s'.
  split_and!; [done|by eapply bound_shape|by apply (is_object_shape _ _ _ Hsh)].
Qed.

Lemma on_fetch_spec l l0 cur i a A C live :
  heap_inv (a_heap a) A C live -> chain (a_mem a) cur l -> class_objects A i (l ++ l0) ->
  NoDup (l ++ l0) -> counts A i (l ++ l0) ->
  exists H' A', CentralCache.on_fetch_range (length l) cur a = Some (set_heap H' a) /\
    heap_inv H' A' C live /\ shape_sim i A A' /\ counts A' i l0.
Proof.
  revert cur a A. induction l as [|x l IH]; intros cur a A Hinv Hch Hob Hnd Hc; simpl.
  - exists (a_heap a), A. destruct a. eauto using shape_sim_refl.
  - destruct Hch as (-> & Hx & next & Hn & Hch). destruct (Z.eqb_spec x 0) as [|_]; [done|]. simpl.
    destruct (Hob x ltac:(left)) as (h & s & Hs & Hb & Ho).
    destruct (object_span _ _ _ _ x h s i Hinv Hs Hb Ho) as [-> Hobj]. simpl. rewrite Hobj. simpl.
    assert (Hcnt : sp_central_free_count s = 1 + zlen (matching (fun x => contains x s) (l ++ l0))).
    { rewrite (Hc _ _ Hs Hb). simpl. rewrite matching_cons, (bound_contains _ _ _ Hb Ho), zlen_cons. done. }
    pose proof (matching_bound Hinv i _ h s Hob Hnd Hs Hb) as Hle. rewrite <- (Hc _ _ Hs Hb) in Hle.
    pose proof (object_count_fits Hinv h s i Hs Hb). pose proof (zlen_nonneg (matching (fun x => contains x s) (l ++ l0))).
    destruct (Z.ltb_spec 0 (sp_central_free_count s)) as [_|]; [|lia]. simpl.
    destruct (add_free_step a A C live i x _ (l ++ l0) h s (-1) Hinv Hs Hb Ho Hc) as (H1 & A1 & -> & Hinv1 & Hsim & Hc1).
    { intros p. simpl. rewrite matching_cons. destruct (p x); rewrite ?zlen_cons; lia. }
    { lia. }
    simpl. rewrite Hn. simpl.
    destruct (IH next (set_heap H1 a) A1) as (H2 & A2 & -> & Hinv2 & Hsim2 & Hc2); try done.
    { apply (class_objects_sim _ _ _ _ Hsim). intros y Hy. apply Hob. simpl. set_solver. }
    { by apply NoDup_cons in Hnd as [_ ?]. }
    exists H2, A2. split_and!; try done. by eapply shape_sim_trans.
Qed.

Lemma on_release_spec l l0 cur i a A C live :
  heap_inv (a_heap a) A C live -> chain (a_mem a) cur l -> class_objects A i (l ++ l0) ->
  NoDup (l ++ l0) -> counts A i l0 ->
  exists H' A', CentralCache.on_release_range (length l) cur a = Some (set_heap H' a) /\
    heap_inv H' A' C live /\ shape_sim i A A' /\ counts A' i (l ++ l0).
Proof.
  revert cur a A l0. induction l as [|x l IH]; intros cur a A l0 Hinv Hch Hob Hnd Hc; simpl.
  - exists (a_heap a), A. destruct a. eauto using shape_sim_refl.
  - destruct Hch as (-> & Hx & next & Hn & Hch). destruct (Z.eqb_spec x 0) as [|_]; [done|]. simpl.
    destruct (Hob x ltac:(left)) as (h & s & Hs & Hb & Ho).
    destruct (object_span _ _ _ _ x h s i Hinv Hs Hb Ho) as [-> Hobj]. simpl. rewrite Hobj. simpl.
    assert (Hperm : l ++ x :: l0 ≡ₚ (x :: l) ++ l0) by (simpl; by rewrite Permutation_middle).
    assert (Hnd' : NoDup (l ++ x :: l0)) by (by rewrite Hperm).
    assert (Hob' : class_objects A i (l ++ x :: l0)).
    { intros y Hy. apply Hob. by rewrite <- Hperm. }
    pose proof (matching_bound Hinv i (x :: l0) h s) as Hle.
    rewrite matching_cons, (bound_contains _ _ _ Hb Ho), zlen_cons, <- (Hc _ _ Hs Hb) in Hle.
    specialize (Hle ltac:(intros y Hy; apply Hob'; set_solver)
                    ltac:(by apply NoDup_app in Hnd' as (_ & _ & ?)) Hs Hb).
    pose proof (object_count_fits Hinv h s i Hs Hb).
    pose proof (zlen_nonneg (matching (fun x => contains x s) l0)) as Hpos. rewrite <- (Hc _ _ Hs Hb) in Hpos.
    destruct (Z.ltb_spec (sp_central_free_count s) (sp_object_count s)) as [_|]; [|lia]. simpl.
    destruct (add_free_step a A C live i x _ (x :: l0) h s 1 Hinv Hs Hb Ho Hc) as (H1 & A1 & -> & Hinv1 & Hsim & Hc1).
    { intros p. rewrite matching_cons. destruct (p x); rewrite ?zlen_cons; lia. }
    { lia. }
    simpl. rewrite Hn. simpl.
    destruct (IH next (set_heap H1 a) A1 (x :: l0)) as (H2 & A2 & -> & Hinv2 & Hsim2 & Hc2); try done.
    { by apply (class_objects_sim _ _ _ _ Hsim). }
    exists H2, A2. split_and!; try done; [by eapply shape_sim_trans|]. by eapply counts_perm.
Qed.

(** ** Empty spans go back to the page heap *)

(** Spans of class [i] disappear, with objects of the central list only. *)
Record shrunk (i : nat) (mem : memory) (A : gmap nat Span) (own : ownership) (mem' : memory)
    (A' : gmap nat Span) (own' : ownership) : Prop := {
  sk_A : A' ⊆ A;
  sk_other : forall h s, A !! h = Some s -> ~ bound s i -> A' !! h = Some s;
  sk_own : own' ⊆ own;
  sk_kept : forall x p, own !! x = Some p -> p <> (i, OCentral) -> own' !! x = Some p;
  sk_mem : forall y, mem' !! y = mem !! y \/ own !! y = Some (i, OCentral);
}.

Lemma shrunk_refl i mem A own : shrunk i mem A own mem A own.
Proof. split; auto. Qed.

Lemma shrunk_trans i mem A own mem1 A1 own1 mem2 A2 own2 :
  shrunk i mem A own mem1 A1 own1 -> shrunk i mem1 A1 own1 mem2 A2 own2 ->
  shrunk i mem A own mem2 A2 own2.
Proof.
  intros [SA1 SO1 SW1 SK1 SM1] [SA2 SO2 SW2 SK2 SM2]. split.
  - by etrans.
  - intros h s Hs Hn. apply SO2; [by apply SO1|done].
  - by etrans.
  - intros x p Hx Hp. apply SK2; [by apply SK1|done].
  - intros y. destruct (SM2 y) as [->|Hy]; [apply SM1|]. right. by eapply lookup_weaken.
Qed.

Definition forget (s : Span) (own : ownership) : ownership := filter (fun kv => kv.1 ∉ objs s) own.

Lemma lookup_forget s own x p : forget s own !! x = Some p <-> own !! x = Some p /\ ~ is_object s x.
Proof. unfold forget. rewrite map_lookup_filter_Some, elem_of_objs. done. Qed.

Lemma elem_of_kept p x l : x ∈ kept p l <-> x ∈ l /\ p x = false.
Proof. unfold kept. rewrite list_elem_of_filter. tauto. Qed.

Lemma matching_app p l k : matching p (l ++ k) = matching p l ++ matching p k.
Proof. apply filter_app. Qed.

Lemma matching_all p l : (forall x, x ∈ l -> p x = true) -> matching p l = l.
Proof.
  induction l as [|x l IH]; intros Hp; [done|]. rewrite matching_cons, Hp by left. f_equal.
  apply IH. intros y Hy. apply Hp. by right.
Qed.

Lemma matching_none p l : (forall x, x ∈ l -> p x = false) -> matching p l = [].
Proof.
  induction l as [|x l IH]; intros Hp; [done|]. rewrite matching_cons, Hp by left.
  apply IH. intros y Hy. apply Hp. by right.
Qed.

(** The objects of other spans stay counted. *)
Lemma matching_kept (p q : Z -> bool) l :
  (forall x, x ∈ l -> q x = true -> p x = false) -> matching q (kept p l) = matching q l.
Proof.
  induction l as [|x l IH]; intros Hd; [done|]. rewrite kept_cons, matching_cons.
  rewrite <- IH by (intros; apply Hd; [by right|done]).
  destruct (p x) eqn:Hp; [|by rewrite matching_cons].
  destruct (q x) eqn:Hq; [|done]. rewrite Hd in Hp; [done|left|done].
Qed.

Section drop.
Context `{!IterOrder Z (list nat)}.
Context {H : PageHeap} {A C : gmap nat Span} {live : gmap Z Z} (Hinv : heap_inv H A C live).
Context {own : ownership} (Hown : own_inv own A).
Context {i : nat} {l : list Z} (Hplace : place own i OCentral l) (Hcounts : counts A i l) (Hnd : NoDup l).
Context {h : nat} {s : Span} (Hs : A !! h = Some s) (Hb : bound s i).
Context (Hfull : sp_central_free_count s = sp_object_count s).

Lemma dropped_objects x : is_object s x -> x ∈ l.
Proof.
  apply (matching_full Hinv i l h s x (place_objects _ _ _ _ _ Hown Hplace) Hnd Hs Hb).
  by rewrite <- (Hcounts _ _ Hs Hb).
Qed.

Lemma list_contains x : x ∈ l -> contains x s = true <-> is_object s x.
Proof.
  intros Hx. split; [|by apply (bound_contains s i)]. intros Hc.
  eapply (owned_span Hinv s h i x i Hs Hb Hc). by apply (place_objects _ _ _ _ _ Hown Hplace).
Qed.

Lemma other_span h' s' x : h' <> h -> A !! h' = Some s' -> contains x s' = true -> contains x s = false.
Proof.
  intros Hne Hs' Hc. apply not_true_iff_false. intros Hc'. apply Hne.
  eapply (span_unique _ _ _ _ h' h s' s x Hinv); eauto.
Qed.

Lemma drop_own : own_inv (forget s own) (delete h A).
Proof.
  intros x j. split.
  - intros (o & [Hx Hn]%lookup_forget). destruct (proj1 (Hown x j) ltac:(eauto)) as (h' & s' & Hs' & Hb' & Ho).
    exists h', s'. rewrite lookup_delete_Some. split_and!; [|done|done|done]. intros <-. by simplify_eq.
  - intros (h' & s' & [Hne Hs']%lookup_delete_Some & Hb' & Ho).
    destruct (proj2 (Hown x j) ltac:(eauto)) as [o Hx]. exists o. apply lookup_forget. split; [done|].
    intros Ho'. pose proof (other_span h' s' x ltac:(done) Hs' (bound_contains _ _ _ Hb' Ho)) as Hc.
    by rewrite (bound_contains _ _ _ Hb Ho') in Hc.
Qed.

Lemma drop_place : place (forget s own) i OCentral (kept (fun x => contains x s) l).
Proof.
  intros x. rewrite elem_of_kept, lookup_forget, <- (Hplace x). split; intros [Hx Hn]; (split; [done|]).
  - rewrite <- (list_contains x Hx). by rewrite Hn.
  - rewrite <- (list_contains x Hx) in Hn. by apply not_true_iff_false.
Qed.

Lemma drop_counts : counts (delete h A) i (kept (fun x => contains x s) l).
Proof.
  intros h' s' [Hne Hs']%lookup_delete_Some Hb'. rewrite (Hcounts _ _ Hs' Hb'). f_equal. symmetry.
  apply matching_kept. intros x _ Hc. by eapply (other_span h' s').
Qed.

Lemma drop_shrunk (mem mem' : memory) :
  (forall y, y ∉ l -> mem' !! y = mem !! y) ->
  shrunk i mem A own mem' (delete h A) (forget s own).
Proof.
  intros Hm. split.
  - apply delete_subseteq.
  - intros h' s' Hs' Hn. rewrite lookup_delete_Some. split; [|done]. intros <-. by simplify_eq.
  - apply map_filter_subseteq.
  - intros x p Hx Hp. apply lookup_forget. split; [done|]. intros Ho%dropped_objects%Hplace. congruence.
  - intros y. destruct (decide (y ∈ l)) as [Hy|]; [right; by apply Hplace|left; by apply Hm].
Qed.
End drop.

Lemma release_empty_spec todo done cls a A C live own i l :
  heap_inv (a_heap a) A C live -> own_inv own A ->
  represents (a_mem a) (cc_free cls) l -> place own i OCentral l -> counts A i l ->
  NoDup (done ++ todo) -> (forall h, h ∈ done ++ todo <-> exists s, A !! h = Some s /\ bound s i) ->
  (forall h s, h ∈ done -> A !! h = Some s -> sp_central_free_count s < sp_object_count s) ->
  exists cls' m' H' A' C' own' l',
    CentralCache.release_empty_spans todo done cls a = Some (cls', set_heap H' (set_mem m' a)) /\
    heap_inv H' A' C' live /\ own_inv own' A' /\ central_list m' A' own' i cls' l' /\ not_full A' i /\
    shrunk i (a_mem a) A own m' A' own'.
Proof.
  revert done cls a A C own l. induction todo as [|h todo IH];
    intros done cls a A C own l Hinv Hown Hrep Hplace Hcnt Hnd Hsp Hdone; simpl.
  - exists (mkCentral (cc_free cls) done (cc_total cls)), (a_mem a), (a_heap a), A, C, own, l.
    rewrite app_nil_r in *. split_and!; [by destruct a|done|done|by split| |].
    + intros h s Hs Hb. apply (Hdone h); [|done]. apply Hsp. eauto.
    + apply shrunk_refl.
  - destruct (proj1 (Hsp h) ltac:(set_solver)) as (s & Hs & Hb).
    destruct (rp_A (hi_rep _ _ _ _ Hinv) _ _ Hs) as [Hobj _]. rewrite Hobj. simpl.
    pose proof (place_objects _ _ _ _ _ Hown Hplace) as Hlo. pose proof (re_nodup _ _ _ Hrep) as Hndl.
    pose proof (matching_bound Hinv i l h s Hlo Hndl Hs Hb) as Hle. rewrite <- (Hcnt _ _ Hs Hb) in Hle.
    destruct (Z.eqb_spec (sp_object_count s) 0) as [Hz|_]; [destruct Hb; lia|].
    destruct (Z.eqb_spec (sp_central_free_count s) (sp_object_count s)) as [Hfull|Hnf]; simpl.
    + rewrite (fl_count_if_spec _ _ _ _ Hrep). simpl. rewrite <- (Hcnt _ _ Hs Hb), Hfull, Z.eqb_refl. simpl.
      destruct (fl_remove_if_spec (fun x => contains x s) _ _ _ Hrep) as (m1 & fl1 & -> & Hrep1 & Hm1 & _). simpl.
      rewrite <- (Hcnt _ _ Hs Hb), Hfull, Z.eqb_refl. simpl.
      destruct (release_span_spec _ _ _ _ h s Hinv Hs) as (H1 & C1 & -> & Hinv1). simpl.
      destruct (IH done (mkCentral fl1 (cc_spans cls) (sub_sat (cc_total cls) (sp_object_count s)))
                  (set_heap H1 (set_mem m1 a)) (delete h A) C1 (forget s own) (kept (fun x => contains x s) l))
        as (cls' & m' & H' & A' & C' & own' & l' & -> & Hinv' & Hown' & Hcl & Hnf & Hsk); try done.
      * by apply (drop_own Hinv Hown Hs Hb).
      * by apply (drop_place Hinv Hown Hplace Hs Hb).
      * by apply (drop_counts Hinv Hcnt Hs).
      * by rewrite <- Permutation_middle, NoDup_cons in Hnd; destruct Hnd.
      * intros h'. rewrite <- Permutation_middle, NoDup_cons in Hnd. destruct Hnd as [Hh Hnd']. split.
        -- intros Hh'. destruct (proj1 (Hsp h') ltac:(set_solver)) as (s' & ? & ?). exists s'.
           rewrite lookup_delete_Some. split; [|done]. split; [|done]. intros <-. done.
        -- intros (s' & [Hne Hs']%lookup_delete_Some & Hb'). assert (h' ∈ done ++ h :: todo) by (apply Hsp; eauto). set_solver.
      * intros h' s' Hh' [_ Hs']%lookup_delete_Some. eauto.
      * exists cls', m', H', A', C', own', l'. split_and!; try done.
        eapply shrunk_trans; [by apply (drop_shrunk Hinv Hown Hplace Hcnt Hndl Hs Hb Hfull)|exact Hsk].
    + destruct (IH (done ++ [h]) cls a A C own l) as (cls' & m' & H' & A' & C' & own' & l' & -> & Hr); try done.
      * by rewrite <- app_assoc.
      * intros h'. rewrite <- app_assoc. apply Hsp.
      * intros h' s' [?| ->%list_elem_of_singleton]%elem_of_app Hs'; [eauto|]. simplify_eq. lia.
      * eauto 10.
Qed.

(** ** A new span is cut into objects *)
Lemma link_objects_spec todo begin size count i last mem :
  (1 <= todo)%nat -> 0 <= i -> i + Z.of_nat todo = count -> 1 <= size -> 1 <= begin ->
  let l := (fun k => begin + k * size) <$> seqZ i (Z.of_nat todo) in
  exists mem', CentralCache.link_objects todo begin size count i last mem = (begin + (count - 1) * size, mem') /\
    chain mem' (begin + i * size) l /\ forall y, y ∉ l -> mem' !! y = mem !! y.
Proof.
  revert i last mem. induction todo as [|todo IH]; intros i last mem Htodo Hi Hn Hsz Hbeg; [lia|].
  cbn [CentralCache.link_objects]. rewrite seqZ_cons by lia.
  replace (Z.pred (Z.of_nat (S todo))) with (Z.of_nat todo) by lia. cbn zeta.
  assert (Hpos : begin + i * size <> 0) by nia.
  destruct (Z.ltb_spec (i + 1) count) as [Hlt|Hge].
  - destruct (IH (i + 1) last (<[begin + i * size := begin + (i + 1) * size]> mem)) as (mem' & He & Hch & Hm); [lia..|].
    rewrite He. exists mem'. split; [done|]. cbn [fmap list_fmap]. replace (Z.succ i) with (i + 1) by lia.
    assert (Hcur : begin + i * size ∉ (fun k => begin + k * size) <$> seqZ (i + 1) (Z.of_nat todo)).
    { intros (k & Hk & Hin%elem_of_seqZ)%list_elem_of_fmap. nia. }
    split.
    + split_and!; [done|done|]. exists (begin + (i + 1) * size). rewrite Hm, lookup_insert_eq by done. done.
    + intros y [Hy1 Hy2]%not_elem_of_cons. rewrite Hm by done. by rewrite lookup_insert_ne.
  - assert (todo = 0%nat) as -> by lia. cbn [CentralCache.link_objects]. eexists. split; [do 2 f_equal; lia|].
    cbn [fmap list_fmap seqZ]. split.
    + split_and!; [done|done|]. exists 0. rewrite lookup_insert_eq. done.
    + intros y [Hy1 Hy2]%not_elem_of_cons. by rewrite lookup_insert_ne.
Qed.

(** Linking the objects of a span gives a range of them. *)
Lemma link_span s i mem :
  bound s i -> 1 <= sp_start s ->
  exists last mem', CentralCache.link_objects (Z.to_nat (sp_object_count s)) (sp_start s) (sp_object_size s)
      (sp_object_count s) 0 0 mem = (last, mem') /\
    range_represents mem' (mkRange (sp_start s) last (sp_object_count s)) (objs s) /\
    forall y, y ∉ objs s -> mem' !! y = mem !! y.
Proof.
  intros Hb Hst. pose proof (bo_some _ _ Hb) as Hn. pose proof (class_size_range _ _ (bo_size _ _ Hb)) as [Hsz _].
  destruct (link_objects_spec (Z.to_nat (sp_object_count s)) (sp_start s) (sp_object_size s) (sp_object_count s) 0 0 mem)
    as (mem' & He & Hch & Hm); [lia..|]. rewrite Z2Nat.id in Hch, Hm by lia. fold (objs s) in Hch, Hm.
  eexists _, mem'. split; [exact He|]. split; [|done]. split; simpl.
  - replace (sp_start s) with (sp_start s + 0 * sp_object_size s) at 1 by lia. done.
  - by eapply NoDup_objs.
  - unfold objs. replace (sp_object_count s) with (sp_object_count s - 1 + 1) at 1 by lia.
    rewrite seqZ_app by lia. rewrite fmap_app, last_app. done.
  - by rewrite length_objs by lia.
Qed.

Lemma bind_bound i size pages s :
  class_size i = Some size -> pages_for_class i = Some pages -> sp_page_count s = pages ->
  span_ok s -> bound (bind_size_class (Z.of_nat i) size s) i /\
    sp_central_free_count (bind_size_class (Z.of_nat i) size s) =
      sp_object_count (bind_size_class (Z.of_nat i) size s).
Proof.
  intros Hc Hp Hs Hok. pose proof (class_size_range _ _ Hc) as [Hr _]. unfold bind_size_class.
  destruct (Z.eqb_spec size 0); [lia|]. split; [|done]. split; simpl; try done.
  apply Z.div_le_lower_bound; [lia|]. destruct Hok.
  assert (1 <= pages) by (rewrite <- Hs; done). unfold kPageSize in *. lia.
Qed.

Lemma pages_for_class_8 i : (i < kNumClasses)%nat -> exists size, class_size i = Some size /\ pages_for_class i = Some 8.
Proof.
  intros Hi. assert (Hall : forallb (fun j => bool_decide (pages_for_class j = Some 8)) (seq 0 kNumClasses) = true)
    by (vm_compute; reflexivity).
  rewrite forallb_forall in Hall. specialize (Hall i). rewrite in_seq, bool_decide_eq_true in Hall.
  destruct (class_size_total i Hi) as [size Hs]. exists size. split; [done|]. apply Hall. lia.
Qed.

(** What [operator new] promises to the central cache. *)
Definition fresh_answer (answer : option Z) (bytes : Z) (live : gmap Z Z) : Prop :=
  forall m, answer = Some m -> block_fresh m bytes live.

Section populate.
Context `{!IterOrder Z (list nat)}.
Context {a : Allocator} {A C : gmap nat Span} {live : gmap Z Z} {own : ownership} {i : nat}.
Context (Hinv : heap_inv (a_heap a) A C live) (Hown : own_inv own A) (Hi : (i < kNumClasses)%nat).

(** The objects of a new span. *)
Section new_objects.
Context {H' : PageHeap} {C' : gmap nat Span} {live' : gmap Z Z} {h : nat} {s : Span}.
Context (Hinv' : heap_inv H' (<[h := s]> A) C' live') (Hnew : A !! h = None) (Hb : bound s i).

Lemma new_span_unique h' s' x :
  A !! h' = Some s' -> contains x s' = true -> is_object s x -> False.
Proof.
  intros Hs' Hc Ho. assert (h' = h) as ->; [|congruence].
  eapply (span_unique _ _ _ _ h' h s' s x Hinv');
    [rewrite lookup_insert_ne by congruence; done|apply lookup_insert_eq|done|by eapply bound_contains].
Qed.

Lemma new_object_free x : is_object s x -> own !! x = None.
Proof.
  intros Ho. destruct (own !! x) as [[j o]|] eqn:Hx; [|done].
  destruct (proj1 (Hown x j) ltac:(eauto)) as (h' & s' & Hs' & Hb' & Ho').
  exfalso. by eapply (new_span_unique h' s'); eauto using bound_contains.
Qed.

Lemma new_own : own_inv (move (objs s) i OCentral own) (<[h := s]> A).
Proof.
  intros x j. rewrite lookup_move. case_decide as Hx.
  - apply elem_of_objs in Hx. split.
    + intros [o [= <- <-]]. exists h, s. by rewrite lookup_insert_eq.
    + intros (h' & s' & [[<- <-]|[_ Hs']]%lookup_insert_Some & Hb' & Ho').
      * exists OCentral. do 2 f_equal. by eapply bound_class_unique.
      * exfalso. by eapply (new_span_unique h' s'); eauto using bound_contains.
  - rewrite elem_of_objs in Hx. rewrite (Hown x j). split; intros (h' & s' & Hs' & Hb' & Ho').
    + exists h', s'. rewrite lookup_insert_ne by congruence. done.
    + apply lookup_insert_Some in Hs' as [[<- <-]|[_ Hs']]; [done|eauto].
Qed.

Lemma new_counts l :
  counts A i l -> class_objects A i l -> sp_central_free_count s = sp_object_count s ->
  counts (<[h := s]> A) i (objs s ++ l).
Proof.
  intros Hc Hl Hfull h' s' Hs' Hb'. rewrite matching_app, zlen_app.
  apply lookup_insert_Some in Hs' as [[<- <-]|[Hne Hs']].
  - rewrite (matching_all _ (objs s)), (matching_none _ l), length_objs, zlen_nil; [lia|destruct Hb; lia| |].
    + intros x Hx. destruct (Hl x Hx) as (h' & s' & Hs' & Hb1 & Ho). apply not_true_iff_false. intros Hcx.
      assert (h' = h) as ->; [|congruence].
      eapply (span_unique _ _ _ _ h' h s' s x Hinv');
        [rewrite lookup_insert_ne by congruence; done|apply lookup_insert_eq|by eapply bound_contains|done].
    + intros x Hx%elem_of_objs. by eapply bound_contains.
  - rewrite (matching_none _ (objs s)), zlen_nil; [by rewrite (Hc h' s' Hs' Hb')|].
    intros x Hx%elem_of_objs. apply not_true_iff_false. intros Hcx. by eapply (new_span_unique h' s').
Qed.
End new_objects.

Lemma populate_spec answer cls :
  fresh_answer answer (64 * 1024) live -> central_list (a_mem a) A own i cls [] ->
  (CentralCache.populate answer i cls a = Some (false, cls, [], a) /\ answer = None) \/
  exists cls' acts h s H' C' live' mem',
    CentralCache.populate answer i cls a = Some (true, cls', acts, set_mem mem' (set_heap H' a)) /\
    sys_run acts live = Some live' /\ heap_inv H' (<[h := s]> A) C' live' /\ A !! h = None /\ bound s i /\
    central_list mem' (<[h := s]> A) (move (objs s) i OCentral own) i cls' (objs s) /\
    forall y, y ∉ objs s -> mem' !! y = a_mem a !! y.
Proof.
  intros Hf [Hr Hp Hc Hnd Hsp]. unfold CentralCache.populate.
  destruct (pages_for_class_8 i Hi) as (size & Hsz & Hpg). rewrite Hsz, Hpg. simpl.
  destruct (new_span_spec _ _ _ _ 8 answer Hinv ltac:(lia) ltac:(intros m Hm _; by apply Hf)) as (r & acts & H1 & -> & Hres).
  simpl. destruct r as [h|].
  2:{ left. destruct Hres as (-> & -> & Hnone). split; [by destruct a|]. by apply Hnone. }
  right. destruct Hres as (s & C' & live' & Hinv1 & HA & Hpc & _ & Hrun & _).
  assert (Hs1 : <[h := s]> A !! h = Some s) by apply lookup_insert_eq.
  destruct (rp_A (hi_rep _ _ _ _ Hinv1) _ _ Hs1) as [Hobj _]. pose proof (rep_ok (hi_rep _ _ _ _ Hinv1) _ _ Hobj) as Hok.
  rewrite Hobj. simpl. destruct (bind_bound i size 8 s Hsz Hpg Hpc Hok) as [Hb Hfull].
  assert (Hse : same_extent (bind_size_class (Z.of_nat i) size s) s)
    by (unfold bind_size_class; by destruct (size =? 0), s).
  assert (Hstart : sp_start (bind_size_class (Z.of_nat i) size s) = sp_start s) by apply Hse.
  assert (Hsize : sp_object_size (bind_size_class (Z.of_nat i) size s) = size) by (destruct Hb; congruence).
  set (s' := bind_size_class (Z.of_nat i) size s) in *.
  pose proof (heap_update_active _ _ _ _ h s s' Hinv1 Hs1 Hse) as Hinv2. rewrite insert_insert_eq in Hinv2.
  destruct (Z.eqb_spec (sp_object_count s') 0) as [Hz|_]; [destruct Hb; lia|].
  destruct (link_span s' i (a_mem a) Hb) as (last & mem1 & Hlink & Hrr & Hm1).
  { destruct Hok. unfold kPageSize in *. lia. }
  rewrite Hsize in Hlink. rewrite Hlink. clearbody s'.
  pose proof (fl_push_range_spec (mkRange (sp_start s') last (sp_object_count s')) mem1 (cc_free cls) [] (objs s')) as Hpush.
  simpl in Hpush.
  destruct Hpush as [Hr2 Hm2]; [eapply represents_same; [|exact Hr]; by intros x Hx%not_elem_of_nil|done|set_solver| |].
  { rewrite length_objs by (destruct Hb; lia). rewrite zlen_nil.
    pose proof (object_count_fits Hinv2 h s' i (lookup_insert_eq _ _ _) Hb). lia. }
  rewrite app_nil_r in Hr2.
  eexists _, acts, h, s', _, C', live', _. split; [done|]. split_and!; try done; [|intros y Hy; by rewrite Hm2, Hm1].
  split; simpl.
  - done.
  - intros x. rewrite lookup_move. case_decide; [done|]. rewrite <- (Hp x). set_solver.
  - rewrite <- (app_nil_r (objs s')). apply (new_counts Hinv2 HA Hb); [done|by intros ? ?%not_elem_of_nil|done].
  - apply NoDup_app. split_and!; [done| |apply NoDup_singleton].
    intros h' (s0 & Hs0 & _)%Hsp ->%list_elem_of_singleton. congruence.
  - intros h'. rewrite elem_of_app, list_elem_of_singleton, Hsp. split.
    + intros [(s0 & Hs0 & Hb0)| ->]; [|exists s'; by rewrite lookup_insert_eq].
      exists s0. rewrite lookup_insert_ne by congruence. done.
    + intros (s0 & [[<- <-]|[? Hs0]]%lookup_insert_Some & Hb0); [by right|left; eauto].
Qed.
End populate.

(** ** [fetch_range] *)
Lemma spans_sim i A A' (P : list nat) :
  shape_sim i A A' -> (forall h, h ∈ P <-> exists s, A !! h = Some s /\ bound s i) ->
  forall h, h ∈ P <-> exists s, A' !! h = Some s /\ bound s i.
Proof.
  intros [F B _] HP h. rewrite HP. split; intros (s & Hs & Hb).
  - destruct (F _ _ Hs) as (s' & ? & Hsh). eauto using bound_shape.
  - destruct (B _ _ Hs) as (s' & ? & Hsh). exists s'. split; [done|].
    eapply bound_shape, Hb. by apply same_shape_sym.
Qed.

(** Taking objects from the list leaves no span of the class full. *)
Definition never_full (A : gmap nat Span) (i : nat) (l : list Z) : Prop :=
  forall h s k l', A !! h = Some s -> bound s i -> l = k ++ l' -> k <> [] ->
    zlen (matching (fun x => contains x s) l') < sp_object_count s.

Lemma not_full_never A i l : not_full A i -> counts A i l -> never_full A i l.
Proof.
  intros Hnf Hc h s k l' Hs Hb -> _. pose proof (Hnf _ _ Hs Hb) as Hlt. rewrite (Hc _ _ Hs Hb) in Hlt.
  rewrite matching_app, zlen_app in Hlt. pose proof (zlen_nonneg (matching (fun x => contains x s) k)). lia.
Qed.

Lemma length_matching p l : zlen (matching p l) <= zlen l.
Proof. unfold matching, zlen. pose proof (length_filter (fun x => p x = true) l). lia. Qed.

Lemma new_span_never H A C live h s i :
  heap_inv H (<[h := s]> A) C live -> A !! h = None -> bound s i -> never_full (<[h := s]> A) i (objs s).
Proof.
  intros Hinv HA Hb h' s' k l' [[<- <-]|[Hne Hs']]%lookup_insert_Some Hb' Hl Hk.
  - pose proof (length_matching (fun x => contains x s) l').
    pose proof (length_objs s ltac:(destruct Hb; lia)) as Hn. rewrite Hl, zlen_app in Hn.
    assert (zlen k <> 0) by (intros ?%zlen_zero; done). pose proof (zlen_nonneg k). lia.
  - rewrite matching_none, zlen_nil; [destruct Hb'; lia|]. intros x Hx. apply not_true_iff_false. intros Hc.
    eapply (new_span_unique Hinv HA Hb h' s'); [done|done|]. apply elem_of_objs. rewrite Hl. set_solver.
Qed.

Section fetch.
Context {a : Allocator} {A C : gmap nat Span} {live : gmap Z Z} {own : ownership} {i : nat}.
Context (Hinv : heap_inv (a_heap a) A C live) (Hown : own_inv own A).
Context {cls : CentralClass} {l : list Z} (Hcl : central_list (a_mem a) A own i cls l).
Context (Hne : l <> []) (Hnf : never_full A i l).

Lemma fetch_pop n :
  1 <= n ->
  let k := take (Z.to_nat n) l in
  exists r mem' fl' H' A', fl_pop_range n (a_mem a) (cc_free cls) = Some (r, mem', fl') /\
    range_empty r = false /\
    (let cls' := mkCentral fl' (cc_spans cls) (cc_total cls) in
     let a' := set_central i cls' (set_mem mem' a) in
     CentralCache.on_fetch_range (Z.to_nat (range_count r)) (range_first r) a' = Some (set_heap H' a') /\
     central_list mem' A' (move k i OHeld own) i cls' (drop (Z.to_nat n) l)) /\
    heap_inv H' A' C live /\ shape_sim i A A' /\ range_represents mem' r k /\ not_full A' i /\
    (forall y, y ∉ l -> mem' !! y = a_mem a !! y).
Proof.
  intros Hn k. pose proof Hcl as [Hr Hp Hc Hnds Hsp].
  destruct (fl_pop_range_spec n _ _ _ Hr Hn) as (r & mem' & fl' & -> & Hr' & _ & Hrr & Hemp & Hm & _).
  specialize (Hrr Hne). fold k in Hrr.
  rewrite bool_decide_eq_false_2 in Hemp by done.
  set (cls' := mkCentral fl' (cc_spans cls) (cc_total cls)). set (a' := set_central i cls' (set_mem mem' a)).
  assert (Hsplit : k ++ drop (Z.to_nat n) l = l) by apply take_drop.
  pose proof (re_nodup _ _ _ Hr) as Hnd.
  destruct (on_fetch_spec k (drop (Z.to_nat n) l) (range_first r) i a' A C live) as (H' & A' & Hof & Hinv' & Hsim & Hc');
    [done|apply Hrr| | | |].
  { rewrite Hsplit. by eapply place_objects. }
  { by rewrite Hsplit. }
  { by rewrite Hsplit. }
  exists r, mem', fl', H', A'. split; [done|]. split; [done|]. split.
  - split.
    + rewrite (rr_count _ _ _ Hrr). unfold zlen. rewrite Nat2Z.id. exact Hof.
    + split; simpl; [done| |done|done|by eapply spans_sim].
      intros x. rewrite lookup_move. rewrite <- Hsplit, NoDup_app in Hnd. destruct Hnd as (_ & Hd & _).
      case_decide as Hx; [split; [intros Hx'; by apply Hd in Hx|done]|].
      pose proof (elem_of_app k (drop (Z.to_nat n) l) x) as He. rewrite Hsplit in He.
      rewrite <- (Hp x), He. tauto.
  - split_and!; try done. intros h s' Hs' Hb'. rewrite (Hc' _ _ Hs' Hb').
    destruct (ss_bwd _ _ _ Hsim _ _ Hs') as (s & Hs & Hsh).
    rewrite <- (matching_shape _ _ _ Hsh), <- (sh_count _ _ Hsh). eapply (Hnf h s k); [done| |done|].
    + eapply bound_shape, Hb'. by apply same_shape_sym.
    + unfold k. destruct l; [done|]. destruct (Z.to_nat n) eqn:E; [lia|]. done.
Qed.
End fetch.

(** ** The steps of the central cache as moves *)
Lemma sim_other i A A' h s :
  shape_sim i A A' -> (forall s', same_shape s s' -> ~ bound s' i) -> A' !! h = Some s <-> A !! h = Some s.
Proof.
  intros [F B O] Hn. split; intros Hs.
  - destruct (B _ _ Hs) as (s0 & Hs0 & Hsh). assert (~ bound s0 i) by (apply Hn; by apply same_shape_sym).
    pose proof (O _ _ Hs0 ltac:(done)). congruence.
  - apply O; [done|]. apply Hn, same_shape_refl.
Qed.

Lemma moved_sim i T mem A A' own : OCentral ∈ T -> shape_sim i A A' -> moved i T mem A own mem A' own.
Proof.
  intros HT Hsim. split; [done|by left| |].
  - intros j Hj h s Hb. eapply sim_other; [done|]. intros s' Hsh Hi. apply Hj in HT; [done|].
    eapply bound_class_unique; [|done]. by eapply bound_shape.
  - intros h s Hc. eapply sim_other; [done|]. intros s' Hsh. apply invalid_not_bound.
    by rewrite <- (sh_class _ _ Hsh).
Qed.

Lemma moved_shrunk i T mem A own mem' A' own' :
  OCentral ∈ T -> shrunk i mem A own mem' A' own' -> moved i T mem A own mem' A' own'.
Proof.
  intros HT [SA SO SW SK SM].
  assert (Hiff : forall h s, ~ bound s i -> A' !! h = Some s <-> A !! h = Some s).
  { intros h s Hn. split; intros Hs; [by eapply lookup_weaken|by apply SO]. }
  split.
  - intros x j o Hj. split; intros Hx; [by eapply lookup_weaken|]. apply SK; [done|].
    intros [= -> ->]. by apply Hj in HT.
  - intros y. destruct (SM y) as [?|?]; [by left|right; left; eauto].
  - intros j Hj h s Hb. apply Hiff. intros Hi. apply Hj in HT; [done|]. by eapply bound_class_unique.
  - intros h s Hc. apply Hiff. by apply invalid_not_bound.
Qed.

Lemma in_use_span own A y :
  own_inv own A -> in_use own A y -> exists h s, A !! h = Some s /\ contains y s = true.
Proof.
  intros Hown [(x & i & size & Hx & Hsz & Hr)|(h & s & Hs & _ & Hc)]; [|eauto].
  destruct (proj1 (Hown x i) ltac:(eauto)) as (h & s & Hs & Hb & Ho). exists h, s. split; [done|].
  pose proof (bound_extent _ _ _ Hb Ho). destruct Hb as [_ Hsz' _ _]. unfold contains. simplify_eq. lia.
Qed.

Lemma moved_populate H C live i T mem mem' A own h s :
  heap_inv H (<[h := s]> A) C live -> own_inv own A -> A !! h = None -> bound s i -> OCentral ∈ T ->
  (forall y, y ∉ objs s -> mem' !! y = mem !! y) ->
  moved i T mem A own mem' (<[h := s]> A) (move (objs s) i OCentral own).
Proof.
  intros Hinv Hown HA Hb HT Hm.
  assert (Hiff : forall h' s', s' <> s -> <[h := s]> A !! h' = Some s' <-> A !! h' = Some s').
  { intros h' s' Hne. rewrite lookup_insert_Some. split; [naive_solver|]. intros Hs'.
    right. split; [congruence|done]. }
  split.
  - intros x j o Hj. rewrite lookup_move. case_decide as Hx; [|done]. apply elem_of_objs in Hx.
    rewrite (new_object_free Hown Hinv HA Hb x Hx). split; [|done]. intros [= <- <-]. by apply Hj in HT.
  - intros y. destruct (decide (y ∈ objs s)) as [Hy|]; [|left; by apply Hm]. apply elem_of_objs in Hy.
    right. right. split; [by apply (new_object_free Hown Hinv HA Hb)|].
    intros (h' & s' & Hs' & Hc)%(in_use_span _ _ _ Hown). by eapply (new_span_unique Hinv HA Hb h' s').
  - intros j Hj h' s' Hb'. apply Hiff. intros ->. apply Hj in HT; [done|]. by eapply bound_class_unique.
  - intros h' s' Hc. apply Hiff. intros ->. by eapply invalid_not_bound.
Qed.

Lemma shape_inv_insert A h s i : shape_inv A -> bound s i -> shape_inv (<[h := s]> A).
Proof. intros HA Hb h' s' [[<- <-]|[_ ?]]%lookup_insert_Some; eauto. Qed.

Lemma shape_inv_sub A A' : A' ⊆ A -> shape_inv A -> shape_inv A'.
Proof. intros Hsub HA h s Hs. apply (HA h). by eapply lookup_weaken. Qed.

Abbreviation central_places := [OCentral; OHeld].

Lemma central_internal : internal central_places.
Proof. split; set_solver. Qed.

Lemma fl_empty_iff mem fl l : represents mem fl l -> fl_empty fl = bool_decide (l = []).
Proof.
  intros [Hc _ _ _]. unfold fl_empty. pose proof (chain_nil _ _ _ Hc) as Hn.
  destruct (Z.eqb_spec (fl_head fl) 0); symmetry; [apply bool_decide_eq_true_2|apply bool_decide_eq_false_2]; tauto.
Qed.

Lemma range_ok mem r k :
  range_represents mem r k -> k <> [] -> range_first r <> 0 /\ range_last r <> 0 /\ 0 < range_count r.
Proof.
  intros [Hc _ Hl Hn] Hk. split_and!.
  - intros E. by apply (chain_nil _ _ _ Hc) in E.
  - eapply chain_nonzero; [done|]. by eapply last_Some_elem_of.
  - rewrite Hn. assert (zlen k <> 0) by (intros ?%zlen_zero; done). pose proof (zlen_nonneg k). lia.
Qed.

Section central.
Context `{!IterOrder Z (list nat)}.
Context {a : Allocator} {A C : gmap nat Span} {live : gmap Z Z} {own : ownership} {i : nat}.
Context (Hai : alloc_inv a A C live own) (Hi : (i < kNumClasses)%nat).

(** The central list of the class has objects, or the system has no memory. *)
Lemma fetch_ready answer :
  fresh_answer answer (64 * 1024) live ->
  exists cls, a_central a !! i = Some cls /\
  let r := if fl_empty (cc_free cls) then CentralCache.populate answer i cls a else Some (true, cls, [], a) in
  (r = Some (false, cls, [], a) /\ answer = None) \/
  exists cls1 acts m1 H1 A1 C1 live1 own1 l1, r = Some (true, cls1, acts, set_mem m1 (set_heap H1 a)) /\
    sys_run acts live = Some live1 /\ heap_inv H1 A1 C1 live1 /\ own_inv own1 A1 /\ shape_inv A1 /\
    moved i central_places (a_mem a) A own m1 A1 own1 /\ central_list m1 A1 own1 i cls1 l1 /\ l1 <> [] /\
    never_full A1 i l1 /\ (forall x j, own1 !! x = Some (j, OHeld) <-> own !! x = Some (j, OHeld)).
Proof.
  intros Hf. destruct (ai_parts Hai i OCentral Hi) as (cls & l & Hcls & Hcl & Hnf). exists cls. split; [done|].
  cbn zeta. rewrite (fl_empty_iff _ _ _ (cl_rep _ _ _ _ _ _ Hcl)). case_bool_decide as Hl.
  - subst l. destruct (populate_spec (ai_heap Hai) (ai_own Hai) Hi answer cls Hf Hcl)
      as [?|(cls1 & acts & h & s & H1 & C1 & live1 & m1 & -> & Hrun & Hinv1 & HA & Hb & Hcl1 & Hm1)]; [by left|right].
    exists cls1, acts, m1, H1, (<[h := s]> A), C1, live1, (move (objs s) i OCentral own), (objs s).
    split_and!; try done.
    + by apply (new_own (ai_own Hai) Hinv1 HA Hb).
    + eapply shape_inv_insert; [apply Hai|done].
    + eapply moved_populate; try done; [apply Hai|left].
    + intros Hnil. pose proof (length_objs s ltac:(destruct Hb; lia)) as Hlen. rewrite Hnil, zlen_nil in Hlen.
      destruct Hb; lia.
    + by eapply new_span_never.
    + intros x j. rewrite lookup_move. case_decide as Hx; [|done].
      rewrite (new_object_free (ai_own Hai) Hinv1 HA Hb) by (by apply elem_of_objs). done.
  - right. exists cls, [], (a_mem a), (a_heap a), A, C, live, own, l. split_and!; try done; try apply Hai.
    + by destruct a.
    + apply moved_refl.
    + apply not_full_never; [done|apply Hcl].
Qed.

Lemma central_fetch_spec answer n :
  1 <= n -> fresh_answer answer (64 * 1024) live -> held own i [] ->
  (CentralCache.fetch_range answer i n a = Some (Range_default, [], a) /\ answer = None) \/
  exists r acts a' A' C' live' own' k,
    CentralCache.fetch_range answer i n a = Some (r, acts, a') /\ sys_run acts live = Some live' /\
    alloc_inv a' A' C' live' own' /\ user_frame (a_mem a) A own (a_mem a') A' own' /\
    held own' i k /\ range_represents (a_mem a') r k /\ k <> [] /\ zlen k <= n /\ a_threads a' = a_threads a.
Proof.
  intros Hn Hf Hheld. unfold CentralCache.fetch_range.
  rewrite (proj2 (Nat.ltb_lt _ _) Hi), (proj2 (Z.ltb_lt _ _)) by lia. simpl.
  destruct (fetch_ready answer Hf) as (cls & Hcls & Hr). rewrite Hcls. simpl. cbn zeta in Hr.
  destruct Hr as [[-> ->]|(cls1 & acts & m1 & H1 & A1 & C1 & live1 & own1 & l1 & -> & Hrun & Hinv1 & Hown1 & Hsh1
    & M1 & Hcl1 & Hne & Hnf & Hh1)].
  { left. split; [|done]. simpl. do 2 f_equal. destruct a. unfold set_central. simpl in *.
    by rewrite list_insert_id. }
  right. simpl. destruct (fetch_pop (a := set_mem m1 (set_heap H1 a)) Hinv1 Hown1 Hcl1 Hne Hnf n Hn)
    as (r & m2 & fl2 & H2 & A2 & Hpop & Hemp & [Hof Hcl2] & Hinv2 & Hsim & Hrr & Hnf2 & Hm2).
  simpl in Hpop, Hm2. rewrite Hpop. simpl. rewrite Hemp. simpl in *. rewrite Hof. simpl.
  set (k := take (Z.to_nat n) l1) in *.
  assert (Hk : forall x, x ∈ k -> own1 !! x = Some (i, OCentral)).
  { intros x Hx. apply (cl_place _ _ _ _ _ _ Hcl1).
    rewrite <- (take_drop (Z.to_nat n) l1). apply elem_of_app. by left. }
  pose proof (own_inv_move k i OCentral OHeld own1 A1 Hown1 Hk) as Hown2.
  assert (M2 : moved i central_places m1 A1 own1 m2 A1 (move k i OHeld own1)).
  { eapply moved_move; [done|left|right; left|]. intros y.
    destruct (decide (y ∈ l1)) as [Hy|]; [right; exists OCentral|left; by apply Hm2].
    split; [left|by apply (cl_place _ _ _ _ _ _ Hcl1)]. }
  assert (M3 : moved i central_places (a_mem a) A own m2 A2 (move k i OHeld own1)).
  { eapply moved_trans; [exact Hinv1|exact Hown1|apply central_internal|exact M1|].
    eapply moved_trans; [exact Hinv1|exact Hown2|apply central_internal|exact M2|].
    apply moved_sim; [left|done]. }
  eexists r, acts, _, A2, C1, live1, (move k i OHeld own1), k. split; [done|]. split; [done|].
  match goal with |- alloc_inv ?a' _ _ _ _ /\ _ => set (a2 := a') end.
  destruct (alloc_step i central_places a A C live own a2 A2 C1 live1 (move k i OHeld own1)) as [Hai2 Huf]; try done.
  - apply central_internal.
  - by eapply shape_inv_sim.
  - by eapply own_inv_sim.
  - intros j o Hj Ho. destruct o; try done. simpl. apply list_lookup_insert_ne. intros ->. by apply Ho; [|left].
  - intros o [->| ->%list_elem_of_singleton]%elem_of_cons; [|done]. simpl. eexists _, _.
    rewrite list_lookup_insert_eq by (by apply lookup_lt_Some in Hcls). done.
  - apply Hai.
  - split_and!; try done.
    + intros x j. rewrite lookup_move. case_decide as Hx; [naive_solver|]. rewrite Hh1, (Hheld x j).
      split; [by intros [_ ?%not_elem_of_nil]|by intros []].
    + intros Hk0. unfold k in Hk0. destruct l1; [done|]. destruct (Z.to_nat n) eqn:E; [lia|done].
    + unfold k, zlen. rewrite length_take. lia.
Qed.
Lemma range_asserts mem r k :
  range_represents mem r k -> k <> [] ->
  (i <? kNumClasses)%nat && negb (range_first r =? 0) && negb (range_last r =? 0) && (0 <? range_count r) = true.
Proof.
  intros Hr Hk. destruct (range_ok mem r k Hr Hk) as (? & ? & ?).
  rewrite (proj2 (Nat.ltb_lt _ _) Hi). lia.
Qed.

Lemma central_release_spec r k :
  held own i k -> range_represents (a_mem a) r k -> k <> [] ->
  exists a' A' C' own', CentralCache.release_range i r a = Some a' /\ alloc_inv a' A' C' live own' /\
    user_frame (a_mem a) A own (a_mem a') A' own' /\ held own' i [] /\ a_threads a' = a_threads a /\
    a_transfer a' = a_transfer a.
Proof.
  intros Hheld Hr Hk. unfold CentralCache.release_range. rewrite (range_asserts _ _ _ Hr Hk). simpl.
  destruct (ai_parts Hai i OCentral Hi) as (cls & l & Hcls & Hcl & Hnf). pose proof Hcl as [Hrep Hp Hc Hnds Hsp].
  assert (Hko : forall x, x ∈ k -> own !! x = Some (i, OHeld)) by (intros; by apply Hheld).
  assert (Hkl : forall x, x ∈ k -> x ∉ l) by (intros x Hx Hl%Hp; apply Hko in Hx; congruence).
  assert (Hnd : NoDup (k ++ l)) by (apply NoDup_app; split_and!; [apply Hr|done|apply Hrep]).
  assert (Hobj : class_objects A i (k ++ l)).
  { apply class_objects_app; [eapply owned_objects, Hko; apply Hai|eapply place_objects, Hp; apply Hai]. }
  destruct (on_release_spec k l (range_first r) i a A C live (ai_heap Hai) (rr_chain _ _ _ Hr) Hobj Hnd Hc)
    as (H1 & A1 & Hon & Hinv1 & Hsim & Hc1).
  assert (Hn : Z.to_nat (range_count r) = length k) by (rewrite (rr_count _ _ _ Hr); apply Nat2Z.id).
  rewrite Hn, Hon. simpl. rewrite Hcls. simpl.
  pose proof (fl_push_range_spec r _ _ _ _ Hrep Hr Hkl) as Hpush. cbn beta iota zeta delta [fl_push_range] in *.
  destruct Hpush as [Hrep1 Hm1].
  { pose proof (class_objects_length (ai_heap Hai) i _ Hobj Hnd) as Hlen.
    rewrite zlen_app in Hlen. lia. }
  set (mem1 := <[range_last r := _]> _) in *. set (fl1 := mkFreeList _ _) in *.
  pose proof (own_inv_move k i OHeld OCentral own A (ai_own Hai) Hko) as Hown1.
  set (own1 := move k i OCentral own) in *.
  assert (Hp1 : place own1 i OCentral (k ++ l)).
  { intros x. unfold own1. rewrite lookup_move, elem_of_app. case_decide; [naive_solver|].
    rewrite <- (Hp x). naive_solver. }
  destruct (release_empty_spec (cc_spans cls) [] (mkCentral fl1 (cc_spans cls) (cc_total cls)) (set_mem mem1 (set_heap H1 a))
              A1 C live own1 i (k ++ l)) as (cls2 & m2 & H2 & A2 & C2 & own2 & l2 & Hre & Hinv2 & Hown2 & Hcl2 & Hnf2 & Hsk);
    try done; [by eapply own_inv_sim|by eapply spans_sim|by intros ? ? ?%not_elem_of_nil|].
  simpl in Hre. rewrite Hre. simpl.
  assert (M : moved i central_places (a_mem a) A own m2 A2 own2).
  { eapply moved_trans; [exact Hinv1|by eapply own_inv_sim, (ai_own Hai)|apply central_internal|apply moved_sim; [left|exact Hsim]|].
    eapply moved_trans; [exact Hinv1|by eapply own_inv_sim, Hown1|apply central_internal| |by apply moved_shrunk, Hsk; left].
    simpl. eapply moved_move; [exact Hko|right; left|left|]. intros y.
    destruct (decide (y ∈ k)) as [Hy|]; [right; exists OHeld; split; [right; left|by apply Hko]|left; by apply Hm1]. }
  eexists _, A2, C2, own2. split; [done|].
  match goal with |- alloc_inv ?a' _ _ _ _ /\ _ => set (a2 := a') end.
  destruct (alloc_step i central_places a A C live own a2 A2 C2 live own2) as [Hai2 Huf]; try done.
  - apply central_internal.
  - eapply shape_inv_sub; [apply Hsk|]. eapply shape_inv_sim; [done|apply Hai].
  - intros j o Hj Ho. destruct o; try done. simpl. apply list_lookup_insert_ne. intros ->. by apply Ho; [|left].
  - intros o [->| ->%list_elem_of_singleton]%elem_of_cons; [|done]. simpl. eexists _, _.
    rewrite list_lookup_insert_eq by (by apply lookup_lt_Some in Hcls). done.
  - apply Hai.
  - split_and!; try done. intros x j. split; [|by intros [_ ?%not_elem_of_nil]].
    intros Hx%(fun e => lookup_weaken _ _ _ _ e (sk_own _ _ _ _ _ _ _ Hsk)). unfold own1 in Hx. rewrite lookup_move in Hx.
    case_decide as Hxk; [done|]. by apply Hheld in Hx as [_ ?].
Qed.
End central.
