(* ===== verification/AllocTransfer.v ===== *)
(** The transfer cache (module [TransferCache] of Allocator.v) keeps the invariant of
    AllocParts.v: ranges are passed on as they are, and the central cache serves what the
    transfer cache does not hold. *)
From S2P Require Import Prelude SizeClass PageHeap PageHeapInv PageHeapProofs PageHeapOps PageHeapPurge.
From S2P Require Import FreeList Allocator AllocParts AllocCentral.
Import SizeClass.

#[local] Arguments CentralCache.fetch_range : simpl never.
#[local] Arguments CentralCache.release_range : simpl never.

Abbreviation transfer_places := [OTransfer; OHeld].

Lemma transfer_internal : internal transfer_places.
Proof. split; set_solver. Qed.

Lemma batch_count_range i : (i < kNumClasses)%nat -> exists b, batch_count i = Some b /\ 2 <= b <= 64.
Proof.
  intros Hi. assert (Hall : forallb (fun j => match batch_count j with
    | Some b => (2 <=? b) && (b <=? 64) | None => false end) (seq 0 kNumClasses) = true)
    by (vm_compute; reflexivity).
  rewrite forallb_forall in Hall. specialize (Hall i ltac:(rewrite in_seq; lia)).
  destruct (batch_count i) as [b|]; [|done]. exists b. split; [done|lia].
Qed.

Lemma held_nil own i j : held own i [] -> held own j [].
Proof.
  intros Hh x k. rewrite (Hh x k). split; by intros [_ ?%not_elem_of_nil].
Qed.

Lemma held_move own i k o l :
  held own i k -> (forall x, x ∈ l -> x ∈ k) -> (forall x, x ∈ k -> x ∈ l) -> o <> OHeld -> held (move l i o own) i [].
Proof.
  intros Hh Hl Hk Ho x j. rewrite lookup_move. split; [|by intros [_ ?%not_elem_of_nil]].
  case_decide as Hx; [congruence|]. intros [_ Hxk]%Hh. by apply Hk in Hxk.
Qed.

Lemma held_from own i o l :
  held own i [] -> (forall x, x ∈ l -> own !! x = Some (i, o)) -> held (move l i OHeld own) i l.
Proof.
  intros Hh Hl x j. rewrite lookup_move. case_decide as Hx; [naive_solver|].
  rewrite (Hh x j). split; [by intros [_ ?%not_elem_of_nil]|by intros [_ ?]].
Qed.

Lemma range_nonempty mem r k : range_represents mem r k -> k <> [].
Proof. intros [_ _ Hl _] ->. done. Qed.

(** The outcome of asking for a range. *)
Definition fetched (a : Allocator) (A : gmap nat Span) (live : gmap Z Z) (own : ownership) (i : nat) (n : Z)
    (r : Range) (acts : list SysAction) (a' : Allocator) : Prop :=
  exists A' C' live' own' k, sys_run acts live = Some live' /\
    alloc_inv a' A' C' live' own' /\ user_frame (a_mem a) A own (a_mem a') A' own' /\
    held own' i k /\ range_represents (a_mem a') r k /\ k <> [] /\ zlen k <= n /\ a_threads a' = a_threads a.

Section transfer.
Context `{!IterOrder Z (list nat)}.
Context {a : Allocator} {A C : gmap nat Span} {live : gmap Z Z} {own : ownership} {i : nat}.
Context (Hai : alloc_inv a A C live own) (Hi : (i < kNumClasses)%nat).

Lemma transfer_fetch_spec answer n :
  batch_count i = Some n -> fresh_answer answer (64 * 1024) live -> held own i [] ->
  (TransferCache.fetch_range answer i n a = Some (Range_default, [], a) /\ answer = None) \/
  exists r acts a', TransferCache.fetch_range answer i n a = Some (r, acts, a') /\
    fetched a A live own i (2 * n) r acts a'.
Proof.
  intros Hb Hf Hh. destruct (batch_count_range i Hi) as (n' & Hb' & Hn). rewrite Hb in Hb'. injection Hb' as <-.
  unfold TransferCache.fetch_range. rewrite (proj2 (Nat.ltb_lt _ _) Hi), (proj2 (Z.ltb_lt _ _)) by lia. simpl.
  destruct (ai_parts Hai i OTransfer Hi) as (cls & ls & Hcls & [Hrs Hnd Hp Hbs]). rewrite Hcls. simpl.
  destruct (last (tc_ranges cls)) as [r|] eqn:Hlast.
  - right. apply last_Some in Hlast as [rs Hrs']. rewrite Hrs' in Hrs.
    apply Forall2_app_inv_l in Hrs as (ls0 & ls1 & Hrs0 & Hr & ->).
    apply Forall2_cons_inv_l in Hr as (k & ls2 & Hr & Hnil & ->). apply Forall2_nil_inv_l in Hnil as ->.
    rewrite concat_app in *. simpl in Hnd, Hp. rewrite app_nil_r in Hnd, Hp.
    assert (Hk : forall x, x ∈ k -> own !! x = Some (i, OTransfer)) by (intros x Hx; apply Hp, elem_of_app; by right).
    eexists r, [], _. split; [done|]. exists A, C, live, (move k i OHeld own), k. split; [done|].
    match goal with |- alloc_inv ?a' _ _ _ _ /\ _ => set (a2 := a') end.
    destruct (alloc_step i transfer_places a A C live own a2 A C live (move k i OHeld own)) as [Hai2 Huf]; try done;
      try apply Hai.
    + apply transfer_internal.
    + eapply moved_move; [done|left|right; left|by left].
    + eapply own_inv_move; [apply Hai|done].
    + intros j o Hj Ho. destruct o; try done. simpl. apply list_lookup_insert_ne. intros ->. by apply Ho; [|left].
    + intros o [->| ->%list_elem_of_singleton]%elem_of_cons; [|done]. simpl. eexists _, ls0.
      rewrite list_lookup_insert_eq by (by apply lookup_lt_Some in Hcls). split; [done|].
      apply NoDup_app in Hnd as (Hnd0 & Hd & _). split; simpl.
      * rewrite Hrs', removelast_last. done.
      * done.
      * intros x. rewrite lookup_move. case_decide as Hx; [split; [intros Hx0; by apply Hd in Hx0|done]|].
        rewrite <- (Hp x), elem_of_app. tauto.
      * by apply Forall_app in Hbs as [? _].
    + split_and!; try done.
      * by apply (held_from _ _ OTransfer).
      * by eapply range_nonempty.
      * apply Forall_app in Hbs as [_ Hbs]. apply Forall_cons in Hbs as [(b & Hb' & ?) _]. simplify_eq. lia.
  - destruct (central_fetch_spec Hai Hi answer n ltac:(lia) Hf Hh)
      as [[-> ->]|(r & acts & a' & A' & C' & live' & own' & k & -> & ? & ? & ? & ? & ? & ? & ? & ?)]; [by left|right].
    eexists _, _, _. split; [done|]. exists A', C', live', own', k. split_and!; try done. lia.
Qed.

(** The outcome of giving objects back. *)
Definition returned (a : Allocator) (A : gmap nat Span) (live : gmap Z Z) (own : ownership)
    (a' : Allocator) : Prop :=
  exists A' C' own', alloc_inv a' A' C' live own' /\ user_frame (a_mem a) A own (a_mem a') A' own' /\
    held own' 0 [] /\ a_threads a' = a_threads a.

Lemma max_ranges_total : exists n, TransferCache.max_ranges_for_class i = Some n.
Proof.
  unfold TransferCache.max_ranges_for_class. destruct (class_size_total i Hi) as [size ->]. simpl. eauto.
Qed.

Lemma transfer_release_spec r k :
  held own i k -> range_represents (a_mem a) r k -> two_batches i (zlen k) ->
  exists a', TransferCache.release_range i r a = Some a' /\ returned a A live own a'.
Proof.
  intros Hh Hr Hb. pose proof (range_nonempty _ _ _ Hr) as Hk. unfold TransferCache.release_range.
  rewrite (range_asserts Hi _ _ _ Hr Hk). simpl.
  destruct (ai_parts Hai i OTransfer Hi) as (cls & ls & Hcls & [Hrs Hnd Hp Hbs]). rewrite Hcls. simpl.
  destruct max_ranges_total as [n ->]. simpl. destruct (zlen (tc_ranges cls) <? n).
  - assert (Hko : forall x, x ∈ k -> own !! x = Some (i, OHeld)) by (intros; by apply Hh).
    eexists. split; [done|]. exists A, C, (move k i OTransfer own).
    match goal with |- alloc_inv ?a' _ _ _ _ /\ _ => set (a2 := a') end.
    destruct (alloc_step i transfer_places a A C live own a2 A C live (move k i OTransfer own)) as [Hai2 Huf]; try done;
      try apply Hai.
    + apply transfer_internal.
    + eapply moved_move; [done|right; left|left|by left].
    + eapply own_inv_move; [apply Hai|done].
    + intros j o Hj Ho. destruct o; try done. simpl. apply list_lookup_insert_ne. intros ->. by apply Ho; [|left].
    + intros o [->| ->%list_elem_of_singleton]%elem_of_cons; [|done]. simpl. eexists _, (ls ++ [k]).
      rewrite list_lookup_insert_eq by (by apply lookup_lt_Some in Hcls). split; [done|].
      assert (Hc : concat (ls ++ [k]) = concat ls ++ k) by (rewrite concat_app; simpl; by rewrite app_nil_r).
      split; simpl.
      * apply Forall2_app; [done|by constructor].
      * rewrite Hc. apply NoDup_app. split_and!; [done| |apply Hr].
        intros x Hx%Hp Hxk%Hko. congruence.
      * rewrite Hc. intros x. rewrite lookup_move, elem_of_app, (Hp x). case_decide; naive_solver.
      * apply Forall_app. split; [done|by constructor].
    + split_and!; try done. apply (held_nil _ i). by apply (held_move _ _ k).
  - destruct (central_release_spec Hai Hi r k Hh Hr Hk) as (a' & A' & C' & own' & -> & ? & ? & ? & ? & _).
    exists a'. split; [done|]. exists A', C', own'. split_and!; try done. by apply (held_nil _ i).
Qed.
End transfer.

(** ** Draining *)
Definition draining (own : ownership) (i : nat) (l : list Z) : Prop :=
  forall x j, own !! x = Some (j, ODrain) <-> j = i /\ x ∈ l.

Definition settled (own : ownership) : Prop := held own 0 [] /\ draining own 0 [].

Lemma draining_nil own i j : draining own i [] -> draining own j [].
Proof. intros Hh x k. rewrite (Hh x k). split; by intros [_ ?%not_elem_of_nil]. Qed.

(** Objects are relabelled; the state of the program does not change. *)
Lemma relabel i o o' l a A C live own :
  alloc_inv a A C live own -> (forall x, x ∈ l -> own !! x = Some (i, o)) ->
  (forall o'', o'' ∈ [o; o'] -> part_ok a A (move l i o' own) i o'') ->
  alloc_inv a A C live (move l i o' own).
Proof.
  intros Hai Hl Hp. eapply (alloc_step_inv (i := i) (T := [o; o']) Hai); try done; try apply Hai.
  - eapply moved_move; [done|left|right; left|by left].
  - eapply own_inv_move; [apply Hai|done].
  - intros j p _ _. by destruct p.
Qed.

Lemma relabel_blocks H C live i o o' l mem A own :
  heap_inv H A C live -> own_inv own A -> (forall x, x ∈ l -> own !! x = Some (i, o)) ->
  o <> OUser -> o' <> OUser -> block_frame mem A own mem A (move l i o' own).
Proof.
  intros Hinv Hown Hl Ho Ho'. eapply (moved_blocks H C live i [o; o']); try done; [set_solver|].
  eapply moved_move; [done|left|right; left|by left].
Qed.

Section drain.
Context `{!IterOrder Z (list nat)}.

Lemma drain_ranges_spec i rs ls a A C live own :
  (i < kNumClasses)%nat -> alloc_inv a A C live own -> held own i [] ->
  Forall2 (range_represents (a_mem a)) rs ls -> NoDup (concat ls) -> draining own i (concat ls) ->
  exists a' A' C' own', TransferCache.drain_ranges i rs a = Some a' /\ alloc_inv a' A' C' live own' /\
    block_frame (a_mem a) A own (a_mem a') A' own' /\ settled own' /\
    a_threads a' = a_threads a /\ a_transfer a' = a_transfer a.
Proof.
  intros Hi. revert a A C own ls. induction rs as [|r rs IH]; intros a A C own ls Hai Hh Hrs Hnd Hd; simpl.
  - apply Forall2_nil_inv_l in Hrs as ->. exists a, A, C, own.
    split_and!; [done|done|apply block_frame_refl| |done|done].
    split; [by apply (held_nil _ i)|by apply (draining_nil _ i)].
  - apply Forall2_cons_inv_l in Hrs as (l & ls' & Hr & Hrs & ->). simpl in Hnd, Hd.
    apply NoDup_app in Hnd as (Hndl & Hdis & Hnd).
    assert (Hl : forall x, x ∈ l -> own !! x = Some (i, ODrain)) by (intros x Hx; apply Hd; split; [done|apply elem_of_app; by left]).
    assert (Hh1 : held (move l i OHeld own) i l) by (by apply (held_from _ _ ODrain)).
    pose proof (range_nonempty _ _ _ Hr) as Hne. destruct (range_ok _ _ _ Hr Hne) as [Hf _].
    unfold range_empty. destruct (Z.eqb_spec (range_first r) 0) as [|_]; [done|]. simpl.
    assert (Hai1 : alloc_inv a A C live (move l i OHeld own)).
    { eapply relabel; [done|exact Hl|]. by intros o [->| ->%list_elem_of_singleton]%elem_of_cons. }
    destruct (central_release_spec Hai1 Hi r l Hh1 Hr Hne) as (a2 & A2 & C2 & own2 & -> & Hai2 & Huf & Hh2 & Ht2 & Htr2). simpl.
    assert (Hd2 : draining own2 i (concat ls')).
    { intros x j. rewrite (uf_drain _ _ _ _ _ _ Huf), lookup_move. case_decide as Hx.
      - split; [done|]. intros [_ Hx']. by apply Hdis in Hx.
      - rewrite (Hd x j), elem_of_app. tauto. }
    destruct (IH a2 A2 C2 own2 ls') as (a3 & A3 & C3 & own3 & -> & Hai3 & Hbf & Hset & Ht3 & Htr3); try done.
    { eapply ranges_same; [|exact Hrs]. intros x Hx. eapply (uf_drain_mem _ _ _ _ _ _ Huf x i).
      rewrite lookup_move. case_decide as Hxl; [by apply Hdis in Hxl|]. apply Hd. split; [done|].
      apply elem_of_app. by right. }
    exists a3, A3, C3, own3. split_and!; try done; [|congruence|congruence].
    eapply block_frame_trans; [|exact Hbf]. eapply block_frame_trans; [|apply Huf].
    eapply relabel_blocks; [apply Hai|apply Hai|exact Hl|done|done].
Qed.
Lemma drain_class_spec i a A C live own :
  (i < kNumClasses)%nat -> alloc_inv a A C live own -> settled own ->
  exists a' A' C' own', TransferCache.drain_class i a = Some a' /\ alloc_inv a' A' C' live own' /\
    block_frame (a_mem a) A own (a_mem a') A' own' /\ settled own' /\ a_threads a' = a_threads a /\
    a_transfer a' = <[i := mkTransfer [] 0]> (a_transfer a).
Proof.
  intros Hi Hai [Hh Hd]. unfold TransferCache.drain_class. rewrite (proj2 (Nat.ltb_lt _ _) Hi). simpl.
  destruct (ai_parts Hai i OTransfer Hi) as (cls & ls & Hcls & [Hrs Hnd Hp Hbs]). rewrite Hcls. simpl.
  assert (Hl : forall x, x ∈ concat ls -> own !! x = Some (i, OTransfer)) by (intros; by apply Hp).
  set (own1 := move (concat ls) i ODrain own). set (a1 := set_transfer i (mkTransfer [] 0) a).
  assert (Hmv : moved i [OTransfer; ODrain] (a_mem a) A own (a_mem a1) A own1)
    by (eapply moved_move; [exact Hl|left|right; left|by left]).
  assert (Hai1 : alloc_inv a1 A C live own1).
  { eapply (alloc_step_inv Hai Hmv); try apply Hai.
    - eapply own_inv_move; [apply Hai|exact Hl].
    - intros j o Hj Ho. destruct o; try done. simpl. apply list_lookup_insert_ne. intros ->. by apply Ho; [|left].
    - intros o [->| ->%list_elem_of_singleton]%elem_of_cons; [|done]. simpl. eexists _, [].
      rewrite list_lookup_insert_eq by (by apply lookup_lt_Some in Hcls). split; [done|].
      split; simpl; try constructor.
      + by intros ?%not_elem_of_nil.
      + unfold own1. rewrite lookup_move. case_decide as Hx; [done|]. rewrite <- (Hp x). done. }
  destruct (drain_ranges_spec i (tc_ranges cls) ls a1 A C live own1) as (a2 & A2 & C2 & own2 & -> & Hai2 & Hbf & Hset & Ht & Htr);
    try done.
  - intros x j. unfold own1. rewrite lookup_move. split; [|by intros [_ ?%not_elem_of_nil]].
    case_decide as Hx; [done|]. intros [_ ?%not_elem_of_nil]%Hh. done.
  - intros x j. unfold own1. rewrite lookup_move. case_decide as Hx; [naive_solver|].
    rewrite (Hd x j). split; [by intros [_ ?%not_elem_of_nil]|by intros []].
  - exists a2, A2, C2, own2. split_and!; try done. eapply block_frame_trans; [|exact Hbf].
    eapply moved_blocks; [apply Hai|apply Hai| |exact Hmv]. set_solver.
Qed.

Lemma drain_all_spec cis a A C live own :
  Forall (fun i => (i < kNumClasses)%nat) cis -> alloc_inv a A C live own -> settled own ->
  exists a' A' C' own', TransferCache.drain_all cis a = Some a' /\ alloc_inv a' A' C' live own' /\
    block_frame (a_mem a) A own (a_mem a') A' own' /\ settled own' /\ a_threads a' = a_threads a /\
    forall i cls, a_transfer a' !! i = Some cls -> i ∈ cis \/ a_transfer a !! i = Some (mkTransfer [] 0) ->
      cls = mkTransfer [] 0.
Proof.
  intros Hcis. revert a A C own. induction Hcis as [|i cis Hi _ IH]; intros a A C own Hai Hset; simpl.
  - exists a, A, C, own. split_and!; [done|done|apply block_frame_refl|done|done|].
    intros i cls Hc [?%not_elem_of_nil|]; [done|congruence].
  - destruct (drain_class_spec i a A C live own Hi Hai Hset) as (a1 & A1 & C1 & own1 & -> & Hai1 & Hbf & Hset1 & Ht & Htr). simpl.
    destruct (IH a1 A1 C1 own1 Hai1 Hset1) as (a2 & A2 & C2 & own2 & -> & Hai2 & Hbf2 & Hset2 & Ht2 & Htr2).
    exists a2, A2, C2, own2. split_and!; try done; [by eapply block_frame_trans|congruence|].
    intros j cls Hc Hj. apply (Htr2 j cls Hc). rewrite Htr. destruct (decide (j = i)) as [->|Hne].
    + right. apply list_lookup_insert_eq. destruct (ai_parts Hai i OTransfer Hi) as (cls0 & _ & Hl & _).
      by apply lookup_lt_Some in Hl.
    + rewrite list_lookup_insert_ne by done. destruct Hj as [[->|?]%elem_of_cons|?]; auto. done.
Qed.
End drain.
