(* ===== verification/AllocThread.v ===== *)
(** The thread caches (module [Thread] of Allocator.v) keep the invariant of AllocParts.v;
    no counter wraps around, and a cache never holds more than its limit after a
    deallocation. *)
From S2P Require Import Prelude SizeClass PageHeap PageHeapInv PageHeapProofs PageHeapOps PageHeapPurge.
From S2P Require Import FreeList Allocator AllocParts AllocCentral AllocTransfer.
Import SizeClass.

#[local] Arguments TransferCache.fetch_range : simpl never.
#[local] Arguments TransferCache.release_range : simpl never.
#[local] Arguments fl_push_range : simpl never.
#[local] Arguments fl_push : simpl never.

Lemma current_set t c a t' :
  Thread.current t' (set_thread t c a) = if decide (t' = t) then c else Thread.current t' a.
Proof.
  unfold Thread.current. simpl. case_decide as Ht; [subst; by rewrite lookup_insert_eq|].
  by rewrite lookup_insert_ne.
Qed.

Lemma current_threads t a a' : a_threads a' = a_threads a -> Thread.current t a' = Thread.current t a.
Proof. unfold Thread.current. by intros ->. Qed.

(** What an operation on the list of class [i] of thread [t] changes among the threads. *)
Record list_set (t i : nat) (fl : FreeList) (a a' : Allocator) : Prop := {
  ls_lists : th_lists (Thread.current t a') = <[i := fl]> (th_lists (Thread.current t a));
  ls_limit : th_limit (Thread.current t a') = th_limit (Thread.current t a);
  ls_other : forall t', t' <> t -> Thread.current t' a' = Thread.current t' a;
}.

Lemma list_set_threads t i fl a a' a'' : list_set t i fl a a' -> a_threads a'' = a_threads a' -> list_set t i fl a a''.
Proof.
  intros [Hl Hm Ho] Ht. split; [| |intros t' Hne]; rewrite (current_threads _ _ _ Ht); auto.
Qed.

Section thread.
Context `{!IterOrder Z (list nat)}.
Context {a : Allocator} {A C : gmap nat Span} {live : gmap Z Z} {own : ownership} {t i : nat}.
Context (Hai : alloc_inv a A C live own).
Abbreviation c := (Thread.current t a).

Lemma thread_sizes : Forall (fun fl => 0 <= fl_size fl <= 256) (th_lists c).
Proof.
  apply Forall_lookup. intros j fl Hj.
  assert (Hjn : (j < kNumClasses)%nat).
  { rewrite <- (bk_length _ (ai_bytes Hai t)). by apply lookup_lt_Some in Hj. }
  destruct (ai_parts Hai j (OThread t) Hjn) as (fl' & l & Hfl & [Hr _ Hs]). simplify_eq.
  rewrite (re_size _ _ _ Hr). pose proof (zlen_nonneg l). lia.
Qed.

Lemma cached_range : 0 <= th_cached_bytes c <= 2 ^ 27.
Proof.
  rewrite (bk_bytes _ (ai_bytes Hai t)).
  pose proof (bytes_of_bound _ _ class_sizes_bound thread_sizes) as Hb. change (zlen kClassSizes) with 36 in Hb. lia.
Qed.

Lemma cached_ge fl size :
  class_size i = Some size -> th_lists c !! i = Some fl -> size * fl_size fl <= th_cached_bytes c.
Proof.
  intros Hs Hf. rewrite (bk_bytes _ (ai_bytes Hai t)).
  exact (bytes_of_ge _ _ _ _ _ class_sizes_bound thread_sizes Hs Hf).
Qed.

(** The list of class [i] of thread [t] is replaced. *)
Lemma thread_step fl l size mem' own' fl' l' bytes' :
  th_lists c !! i = Some fl -> thread_list (a_mem a) own t i fl l -> class_size i = Some size ->
  moved i [OThread t; OHeld] (a_mem a) A own mem' A own' -> own_inv own' A ->
  thread_list mem' own' t i fl' l' -> bytes' = th_cached_bytes c - size * fl_size fl + size * fl_size fl' ->
  let a' := set_thread t (Thread.with_list i fl' bytes' c) (set_mem mem' a) in
  alloc_inv a' A C live own' /\ user_frame (a_mem a) A own (a_mem a') A own' /\ list_set t i fl' a a'.
Proof.
  intros Hfl Htl Hsz Hmv Hown Htl' -> a'.
  assert (Hcur : Thread.current t a' = Thread.with_list i fl' (th_cached_bytes c - size * fl_size fl + size * fl_size fl') c).
  { unfold a'. rewrite current_set, decide_True by done. done. }
  assert (Hoth : forall t', t' <> t -> Thread.current t' a' = Thread.current t' a).
  { intros t' Ht'. unfold a'. rewrite current_set, decide_False by done. done. }
  assert (Hlen : (i < length (th_lists c))%nat) by (by apply lookup_lt_Some in Hfl).
  cut (alloc_inv a' A C live own' /\ user_frame (a_mem a) A own (a_mem a') A own').
  { intros []. split_and!; [done|done|]. split; [by rewrite Hcur|by rewrite Hcur|done]. }
  eapply (alloc_step i [OThread t; OHeld]); try done; try apply Hai.
  - split; set_solver.
  - intros j o Hj Ho. destruct o as [| |t'| | |]; try done. simpl. destruct (decide (t' = t)) as [->|]; [|by rewrite Hoth].
    rewrite Hcur. simpl. apply list_lookup_insert_ne. intros ->. apply Ho; [done|left].
  - intros o [->| ->%list_elem_of_singleton]%elem_of_cons; [|done]. simpl. exists fl', l'. rewrite Hcur. simpl.
    by rewrite list_lookup_insert_eq.
  - intros t'. destruct (decide (t' = t)) as [->|]; [|rewrite Hoth by done; apply Hai]. rewrite Hcur.
    destruct (ai_bytes Hai t) as [Hl Hb]. split; simpl; [by rewrite length_insert|].
    rewrite (bytes_of_insert _ _ _ _ _ _ Hsz Hfl), Hb. done.
Qed.

Lemma pop_local_spec fl l size :
  th_lists c !! i = Some fl -> thread_list (a_mem a) own t i fl l -> class_size i = Some size -> held own i [] ->
  match l with
  | [] => Thread.pop_local t i size a = Some (0, set_thread t c a)
  | x :: l' => exists fl' a', Thread.pop_local t i size a = Some (x, a') /\ fl_size fl' = fl_size fl - 1 /\
      alloc_inv a' A C live (move [x] i OHeld own) /\ user_frame (a_mem a) A own (a_mem a') A (move [x] i OHeld own) /\
      list_set t i fl' a a' /\ held (move [x] i OHeld own) i [x] /\ x <> 0
  end.
Proof.
  intros Hfl Htl Hsz Hh. unfold Thread.pop_local. rewrite Hfl. simpl.
  pose proof Htl as [Hr Hp Hshort]. pose proof (fl_pop_spec _ _ _ Hr) as Hpop. destruct l as [|x l'].
  - rewrite Hpop. done.
  - destruct Hpop as (mem' & fl' & -> & Hr' & Hx & _ & Hm). simpl. destruct (Z.eqb_spec x 0) as [|_]; [done|].
    pose proof (re_size _ _ _ Hr) as Hs. pose proof (re_size _ _ _ Hr') as Hs'. rewrite zlen_cons in Hs, Hshort.
    pose proof (cached_ge fl size Hsz Hfl) as Hge. pose proof cached_range as Hcr.
    pose proof (class_size_range _ _ Hsz) as [Hszr _]. pose proof (zlen_nonneg l').
    assert (size <= th_cached_bytes c) by nia.
    destruct (Z.leb_spec size (th_cached_bytes c)); [|lia]. simpl.
    assert (Hxo : forall y, y ∈ [x] -> own !! y = Some (i, OThread t)).
    { intros y ->%list_elem_of_singleton. apply Hp. left. }
    destruct (thread_step fl (x :: l') size mem' (move [x] i OHeld own) fl' l' (wrap 64 (th_cached_bytes c - size)))
      as (? & ? & ?); try done.
    + eapply moved_move; [exact Hxo|left|right; left|]. intros y. destruct (decide (y = x)) as [->|]; [right|left; by apply Hm].
      exists (OThread t). split; [left|]. apply Hp. left.
    + eapply own_inv_move; [apply Hai|exact Hxo].
    + split; [done| |lia]. intros y. rewrite lookup_move. pose proof (re_nodup _ _ _ Hr) as [Hxl _]%NoDup_cons.
      case_decide as Hy; [apply list_elem_of_singleton in Hy as ->; by split|].
      rewrite <- (Hp y), elem_of_cons. rewrite list_elem_of_singleton in Hy. tauto.
    + rewrite wrap_id by (unfold fits; lia). rewrite Hs, Hs'. lia.
    + exists fl'. eexists. split; [done|].
      split; [lia|]. do 3 (split; [done|]). split; [|done].
      exact (held_from own i (OThread t) [x] Hh Hxo).
Qed.

(** A range is prepended to the list. *)
Lemma push_range_spec fl l size r k :
  th_lists c !! i = Some fl -> thread_list (a_mem a) own t i fl l -> class_size i = Some size ->
  held own i k -> range_represents (a_mem a) r k -> zlen l + zlen k <= 256 ->
  let '(mem', fl') := fl_push_range (range_first r) (range_last r) (range_count r) (a_mem a) fl in
  let own' := move k i (OThread t) own in
  let a' := set_thread t (Thread.with_list i fl' (wrap 64 (th_cached_bytes c + wrap 64 (range_count r * size))) c)
              (set_mem mem' a) in
  alloc_inv a' A C live own' /\ user_frame (a_mem a) A own (a_mem a') A own' /\ list_set t i fl' a a' /\
  fl_size fl' = fl_size fl + zlen k /\ held own' i [] /\ thread_list mem' own' t i fl' (k ++ l).
Proof.
  intros Hfl Htl Hsz Hh Hr Hlen. pose proof Htl as [Hrep Hp Hshort].
  assert (Hko : forall x, x ∈ k -> own !! x = Some (i, OHeld)) by (intros; by apply Hh).
  assert (Hkl : forall x, x ∈ k -> x ∉ l) by (intros x Hx Hl%Hp; apply Hko in Hx; congruence).
  pose proof (fl_push_range_spec r _ _ _ _ Hrep Hr Hkl ltac:(lia)) as Hpush.
  destruct (fl_push_range _ _ _ _ _) as [mem' fl']. destruct Hpush as [Hrep' Hm]. cbn zeta.
  pose proof (re_size _ _ _ Hrep) as Hs. pose proof (re_size _ _ _ Hrep') as Hs'. rewrite zlen_app in Hs'.
  pose proof cached_range as Hcr. pose proof (class_size_range _ _ Hsz) as [Hszr _].
  pose proof (zlen_nonneg k). pose proof (zlen_nonneg l). rewrite (rr_count _ _ _ Hr).
  assert (Htl' : thread_list mem' (move k i (OThread t) own) t i fl' (k ++ l)).
  { split; [done| |rewrite zlen_app; lia]. intros x. rewrite lookup_move, elem_of_app, (Hp x). case_decide; naive_solver. }
  rewrite (wrap_id 64 (zlen k * size)) by (unfold fits; nia). rewrite wrap_id by (unfold fits; nia).
  destruct (thread_step fl l size mem' (move k i (OThread t) own) fl' (k ++ l) (th_cached_bytes c + zlen k * size))
    as (? & ? & ?); try done.
  - eapply moved_move; [exact Hko|right; left|left|]. intros y.
    destruct (decide (y ∈ k)) as [Hy|]; [right; exists OHeld; split; [right; left|by apply Hko]|left; by apply Hm].
  - eapply own_inv_move; [apply Hai|exact Hko].
  - rewrite Hs, Hs'. lia.
  - do 3 (split; [done|]). split; [lia|]. split; [|done]. by apply (held_move _ _ k).
Qed.
(** An object is pushed. *)
Lemma push_spec fl l size x :
  th_lists c !! i = Some fl -> thread_list (a_mem a) own t i fl l -> class_size i = Some size ->
  held own i [x] -> zlen l + 1 <= 256 ->
  let '(mem', fl') := fl_push x (a_mem a) fl in
  let own' := move [x] i (OThread t) own in
  let a' := set_thread t (Thread.with_list i fl' (wrap 64 (th_cached_bytes c + size)) c) (set_mem mem' a) in
  alloc_inv a' A C live own' /\ user_frame (a_mem a) A own (a_mem a') A own' /\ list_set t i fl' a a' /\
  fl_size fl' = fl_size fl + 1 /\ held own' i [].
Proof.
  intros Hfl Htl Hsz Hh Hlen. pose proof Htl as [Hrep Hp Hshort].
  assert (Hxo : forall y, y ∈ [x] -> own !! y = Some (i, OHeld)) by (intros; by apply Hh).
  assert (Hxl : x ∉ l) by (intros Hl%Hp; rewrite (Hxo x) in Hl by left; done).
  assert (Hx0 : x <> 0).
  { pose proof (class_objects_pos (ai_heap Hai) i [x] x (owned_objects _ _ _ _ _ (ai_own Hai) Hxo) ltac:(left)). lia. }
  pose proof (fl_push_spec x _ _ _ Hrep Hx0 Hxl ltac:(lia)) as Hpush.
  destruct (fl_push _ _ _) as [mem' fl']. destruct Hpush as [Hrep' Hm]. cbn zeta.
  pose proof (re_size _ _ _ Hrep) as Hs. pose proof (re_size _ _ _ Hrep') as Hs'. rewrite zlen_cons in Hs'.
  pose proof cached_range as Hcr. pose proof (class_size_range _ _ Hsz) as [Hszr _].
  rewrite wrap_id by (unfold fits; lia).
  destruct (thread_step fl l size mem' (move [x] i (OThread t) own) fl' (x :: l) (th_cached_bytes c + size))
    as (? & ? & ?); try done.
  - eapply moved_move; [exact Hxo|right; left|left|]. intros y.
    destruct (decide (y = x)) as [->|]; [right; exists OHeld; split; [right; left|by apply Hxo; left]|left; by apply Hm].
  - eapply own_inv_move; [apply Hai|exact Hxo].
  - split; [done| |rewrite zlen_cons; lia]. intros y. rewrite lookup_move, elem_of_cons, (Hp y).
    case_decide as Hy; [apply list_elem_of_singleton in Hy as ->; tauto|]. rewrite list_elem_of_singleton in Hy. tauto.
  - rewrite Hs, Hs'. lia.
  - do 3 (split; [done|]). split; [lia|]. by apply (held_move _ _ [x]).
Qed.
End thread.

(** The outcome of giving objects of the list of class [i] of thread [t] back. *)
Definition released (a : Allocator) (A : gmap nat Span) (live : gmap Z Z) (own : ownership) (t i : nat)
    (fl : FreeList) (a' : Allocator) : Prop :=
  exists A' C' own', alloc_inv a' A' C' live own' /\ user_frame (a_mem a) A own (a_mem a') A' own' /\
    held own' 0 [] /\ list_set t i fl a a'.

Section release.
Context `{!IterOrder Z (list nat)}.
Context {a : Allocator} {A C : gmap nat Span} {live : gmap Z Z} {own : ownership} {t i : nat}.
Context (Hai : alloc_inv a A C live own) (Hheld : held own 0 []).
Abbreviation c := (Thread.current t a).

Lemma release_batch_spec fl n :
  (i < kNumClasses)%nat -> th_lists c !! i = Some fl -> 1 <= n -> two_batches i (Z.min n (fl_size fl)) ->
  exists a' fl', Thread.release_batch t i n a = Some a' /\ fl_size fl' = Z.max 0 (fl_size fl - n) /\
    released a A live own t i fl' a'.
Proof.
  intros Hi Hfl Hn Hb. destruct (ai_parts Hai i (OThread t) Hi) as (fl0 & l & Hfl0 & Htl).
  rewrite Hfl in Hfl0. injection Hfl0 as <-. pose proof Htl as [Hrep Hp Hshort].
  pose proof (re_size _ _ _ Hrep) as Hs. unfold Thread.release_batch. rewrite Hfl. simpl.
  rewrite (fl_empty_iff _ _ _ Hrep). case_bool_decide as Hl.
  { exists a, fl. split; [done|]. split; [subst; rewrite Hs, zlen_nil; lia|]. exists A, C, own.
    split; [done|]. split; [apply user_frame_refl|]. split; [done|]. split; [|done|done]. by rewrite list_insert_id. }
  destruct (class_size_total i Hi) as [size Hsz]. rewrite Hsz. simpl.
  destruct (fl_pop_range_spec n _ _ _ Hrep Hn) as (r & mem' & fl' & -> & Hrep' & _ & Hrr & Hemp & Hm & _).
  specialize (Hrr Hl). simpl. rewrite Hemp, bool_decide_eq_false_2 by done.
  set (k := take (Z.to_nat n) l) in *.
  pose proof (re_size _ _ _ Hrep') as Hs'. rewrite (rr_count _ _ _ Hrr).
  assert (Hlk : zlen k = Z.min n (zlen l)) by (unfold k, zlen; rewrite length_take; lia).
  assert (Hld : zlen (drop (Z.to_nat n) l) = zlen l - zlen k) by (rewrite Hlk; unfold zlen; rewrite length_drop; lia).
  pose proof (zlen_nonneg l). pose proof (class_size_range _ _ Hsz) as [Hszr _].
  pose proof (cached_ge Hai fl size Hsz Hfl) as Hge. pose proof (cached_range Hai (t := t)) as Hcr.
  rewrite (wrap_id 64 (zlen k * size)) by (unfold fits; nia).
  assert (zlen k * size <= th_cached_bytes c) by nia.
  destruct (Z.leb_spec (zlen k * size) (th_cached_bytes c)); [|lia]. simpl.
  assert (Hsplit : l = k ++ drop (Z.to_nat n) l) by (symmetry; apply take_drop).
  assert (Hko : forall x, x ∈ k -> own !! x = Some (i, OThread t)).
  { intros x Hx. apply Hp. rewrite Hsplit. apply elem_of_app. by left. }
  destruct (thread_step (t := t) (i := i) Hai fl l size mem' (move k i OHeld own) fl' (drop (Z.to_nat n) l)
              (wrap 64 (th_cached_bytes c - zlen k * size))) as (Hai1 & Huf1 & Hls1); try done.
  { eapply moved_move; [exact Hko|left|right; left|]. intros y.
    destruct (decide (y ∈ l)) as [Hy|]; [right; exists (OThread t); split; [left|by apply Hp]|left; by apply Hm]. }
  { eapply own_inv_move; [apply Hai|exact Hko]. }
  { split; [done| |lia]. intros x. rewrite lookup_move. pose proof (re_nodup _ _ _ Hrep) as Hnd.
    rewrite Hsplit in Hnd. apply NoDup_app in Hnd as (_ & Hd & _).
    case_decide as Hx; [split; [intros Hx'; by apply Hd in Hx|done]|].
    pose proof (elem_of_app k (drop (Z.to_nat n) l) x) as He. rewrite <- Hsplit in He. rewrite <- (Hp x), He. tauto. }
  { rewrite wrap_id by (unfold fits; lia). rewrite Hs, Hs', Hld. lia. }
  destruct (transfer_release_spec Hai1 Hi r k) as (a2 & -> & A2 & C2 & own2 & Hai2 & Huf2 & Hh2 & Ht2).
  - apply (held_from _ _ (OThread t)); [by apply (held_nil _ 0)|done].
  - exact Hrr.
  - destruct Hb as (b & ? & ?). exists b. split; [done|]. rewrite Hlk. lia.
  - exists a2, fl'. split; [done|]. split; [rewrite Hs', Hld, Hlk, Hs; lia|]. exists A2, C2, own2.
    split; [done|]. split; [by eapply user_frame_trans|]. split; [done|]. by eapply list_set_threads.
Qed.

Lemma release_to_central_spec fl b :
  batch_count i = Some b -> th_lists c !! i = Some fl ->
  exists a' fl', Thread.release_to_central t i a = Some a' /\ fl_size fl' = Z.max 0 (fl_size fl - b) /\
    released a A live own t i fl' a'.
Proof.
  intros Hb Hfl. assert (Hi : (i < kNumClasses)%nat).
  { rewrite <- (bk_length _ (ai_bytes Hai t)). by apply lookup_lt_Some in Hfl. }
  destruct (batch_count_range i Hi) as (b' & Hb' & Hr). rewrite Hb in Hb'. injection Hb' as <-.
  unfold Thread.release_to_central. rewrite Hb. simpl.
  apply release_batch_spec; [done|done|lia|]. exists b. split; [done|lia].
Qed.
End release.

(** ** Sequences of releases *)
Definition list_size (t : nat) (a : Allocator) (j : nat) : Z :=
  match th_lists (Thread.current t a) !! j with Some fl => fl_size fl | None => 0 end.

(** A thread gives some of its objects back. *)
Record run (live : gmap Z Z) (t : nat) (a : Allocator) (A : gmap nat Span) (own : ownership)
    (a' : Allocator) (A' C' : gmap nat Span) (own' : ownership) : Prop := {
  ru_inv : alloc_inv a' A' C' live own';
  ru_frame : user_frame (a_mem a) A own (a_mem a') A' own';
  ru_held : held own' 0 [];
  ru_limit : th_limit (Thread.current t a') = th_limit (Thread.current t a);
  ru_other : forall t', t' <> t -> Thread.current t' a' = Thread.current t' a;
  ru_sizes : forall j, list_size t a' j <= list_size t a j;
}.

Lemma run_refl live t a A C own : alloc_inv a A C live own -> held own 0 [] -> run live t a A own a A C own.
Proof. intros. by split. Qed.

Lemma run_trans live t a A own a1 A1 C1 own1 a2 A2 C2 own2 :
  run live t a A own a1 A1 C1 own1 -> run live t a1 A1 own1 a2 A2 C2 own2 -> run live t a A own a2 A2 C2 own2.
Proof.
  intros [I1 F1 H1 L1 O1 S1] [I2 F2 H2 L2 O2 S2]. split; try done.
  - by eapply user_frame_trans.
  - congruence.
  - intros t' Ht. by rewrite O2, O1.
  - intros j. specialize (S1 j). specialize (S2 j). lia.
Qed.

Lemma list_size_set t i fl a a' j :
  list_set t i fl a a' -> (i < length (th_lists (Thread.current t a)))%nat ->
  list_size t a' j = if decide (j = i) then fl_size fl else list_size t a j.
Proof.
  intros [Hl _ _] Hi. unfold list_size. rewrite Hl. case_decide as Hj.
  - subst. by rewrite list_lookup_insert_eq.
  - by rewrite list_lookup_insert_ne.
Qed.

Lemma bytes_of_zero sizes fls : Forall (fun fl => fl_size fl = 0) fls -> bytes_of sizes fls = 0.
Proof.
  unfold bytes_of. intros Hf. revert sizes. induction Hf as [|fl fls Hfl _ IH]; intros [|size sizes]; try done.
  simpl. rewrite Hfl, IH. lia.
Qed.

Lemma thread_list_lookup a A C live own t i :
  alloc_inv a A C live own -> (i < kNumClasses)%nat -> exists fl, th_lists (Thread.current t a) !! i = Some fl.
Proof. intros Hai Hi. apply lookup_lt_is_Some. by rewrite (bk_length _ (ai_bytes Hai t)). Qed.

Lemma cached_zero a A C live own t :
  alloc_inv a A C live own -> (forall j, (j < kNumClasses)%nat -> list_size t a j = 0) ->
  th_cached_bytes (Thread.current t a) = 0.
Proof.
  intros Hai Hz. rewrite (bk_bytes _ (ai_bytes Hai t)). apply bytes_of_zero, Forall_lookup. intros j fl Hj.
  specialize (Hz j). unfold list_size in Hz. rewrite Hj in Hz. apply Hz.
  rewrite <- (bk_length _ (ai_bytes Hai t)). by apply lookup_lt_Some in Hj.
Qed.

Section runs.
Context `{!IterOrder Z (list nat)}.
Context {live : gmap Z Z} {t : nat}.

Lemma released_run a A C own i fl fl' a' :
  alloc_inv a A C live own -> th_lists (Thread.current t a) !! i = Some fl -> fl_size fl' <= fl_size fl ->
  released a A live own t i fl' a' ->
  exists A' C' own', run live t a A own a' A' C' own' /\
    (forall j, list_size t a' j = if decide (j = i) then fl_size fl' else list_size t a j) /\
    forall size, class_size i = Some size ->
      th_cached_bytes (Thread.current t a') =
      th_cached_bytes (Thread.current t a) - size * (fl_size fl - fl_size fl').
Proof.
  intros Hai Hfl Hle (A' & C' & own' & Hai' & Huf & Hh & Hls). exists A', C', own'.
  assert (Hsz : forall j, list_size t a' j = if decide (j = i) then fl_size fl' else list_size t a j).
  { intros j. apply list_size_set; [done|]. by apply lookup_lt_Some in Hfl. }
  split; [|split; [done|]].
  - split; try done; try apply Hls. intros j. rewrite Hsz. case_decide as Hj; [|done]. subst.
    unfold list_size. by rewrite Hfl.
  - intros size Hs. rewrite (bk_bytes _ (ai_bytes Hai' t)), (bk_bytes _ (ai_bytes Hai t)), (ls_lists _ _ _ _ _ Hls).
    rewrite (bytes_of_insert _ _ _ _ _ _ Hs Hfl). lia.
Qed.

Lemma list_size_nonneg a A C own j : alloc_inv a A C live own -> 0 <= list_size t a j.
Proof.
  intros Hai. unfold list_size. destruct (th_lists (Thread.current t a) !! j) as [fl|] eqn:Hj; [|done].
  pose proof (thread_sizes Hai (t := t)) as Hf. rewrite Forall_lookup in Hf. by apply Hf in Hj as [? _].
Qed.

Lemma fl_empty_size a A C own i fl :
  alloc_inv a A C live own -> (i < kNumClasses)%nat -> th_lists (Thread.current t a) !! i = Some fl ->
  fl_empty fl = true <-> fl_size fl = 0.
Proof.
  intros Hai Hi Hfl. destruct (ai_parts Hai i (OThread t) Hi) as (fl' & l & Hfl' & [Hr _ _]). simplify_eq.
  rewrite (fl_empty_iff _ _ _ Hr), (re_size _ _ _ Hr), bool_decide_eq_true. split; [by intros ->|by intros ?%zlen_zero].
Qed.

Lemma scavenge_round_spec i target any0 a A C own :
  (i <= kNumClasses)%nat -> alloc_inv a A C live own -> held own 0 [] ->
  exists any a' A' C' own', Thread.scavenge_round i t target any0 a = Some (any, a') /\
    run live t a A own a' A' C' own' /\
    (th_cached_bytes (Thread.current t a') <= target \/
     (forall j b, (j < i)%nat -> batch_count j = Some b -> list_size t a' j <= Z.max 0 (list_size t a j - b)) /\
     (any = false -> any0 = false /\ forall j, (j < i)%nat -> list_size t a j = 0)).
Proof.
  revert any0 a A C own. induction i as [|i IH]; intros any0 a A C own Hle Hai Hh; simpl.
  { exists any0, a, A, C, own. split; [done|]. split; [by apply run_refl|]. right. split; [lia|]. intros ->. split; [done|lia]. }
  assert (Hi : (i < kNumClasses)%nat) by lia.
  destruct (thread_list_lookup a A C live own t i Hai Hi) as [fl Hfl]. rewrite Hfl. simpl.
  pose proof (fl_empty_size a A C own i fl Hai Hi Hfl) as Hemp.
  assert (Hsi : list_size t a i = fl_size fl) by (unfold list_size; by rewrite Hfl).
  destruct (fl_empty fl) eqn:He.
  - assert (Hz : fl_size fl = 0) by (by apply Hemp).
    destruct (IH any0 a A C own ltac:(lia) Hai Hh) as (any & a' & A' & C' & own' & -> & Hrun & Hor).
    exists any, a', A', C', own'. split; [done|]. split; [done|]. destruct Hor as [?|[Hsz Hany]]; [by left|right]. split.
    + intros j b Hj Hb. destruct (decide (j = i)) as [->|]; [|apply Hsz; [lia|done]].
      pose proof (ru_sizes _ _ _ _ _ _ _ _ _ Hrun i). pose proof (list_size_nonneg a' A' C' own' i (ru_inv _ _ _ _ _ _ _ _ _ Hrun)).
      destruct (batch_count_range i Hi) as (b' & ? & ?). simplify_eq. lia.
    + intros Hf. destruct (Hany Hf) as [? Hz']. split; [done|]. intros j Hj.
      destruct (decide (j = i)) as [->|]; [lia|apply Hz'; lia].
  - destruct (batch_count_range i Hi) as (b & Hb & Hbr). destruct (class_size_total i Hi) as [size Hsz].
    destruct (release_to_central_spec Hai Hh fl b Hb Hfl) as (a1 & fl1 & -> & Hs1 & Hrel). simpl.
    pose proof (list_size_nonneg a A C own i Hai) as Hpos. pose proof (class_size_range _ _ Hsz) as [Hszr _].
    assert (fl_size fl <> 0) by (intros Hz%Hemp; done).
    destruct (released_run a A C own i fl fl1 a1 Hai Hfl ltac:(lia) Hrel) as (A1 & C1 & own1 & Hrun1 & Hsizes1 & Hbytes).
    specialize (Hbytes size Hsz).
    assert (Hlt : (th_cached_bytes (Thread.current t a1) <? th_cached_bytes (Thread.current t a)) = true) by nia.
    rewrite Hlt, orb_true_r. destruct (Z.leb_spec (th_cached_bytes (Thread.current t a1)) target).
    { exists true, a1, A1, C1, own1. split; [done|]. split; [done|]. by left. }
    destruct (IH true a1 A1 C1 own1 ltac:(lia)) as (any & a' & A' & C' & own' & -> & Hrun & Hor); [apply Hrun1..|].
    exists any, a', A', C', own'. split; [done|]. split; [by eapply run_trans|]. destruct Hor as [?|[Hsz' Hany]]; [by left|right].
    assert (Hkeep : list_size t a' i <= list_size t a1 i) by apply Hrun.
    split; [|intros Hf; by destruct (Hany Hf)]. intros j b' Hj Hb'. destruct (decide (j = i)) as [->|Hne].
    + rewrite Hsizes1, decide_True in Hkeep by done. simplify_eq. lia.
    + specialize (Hsz' j b' ltac:(lia) Hb'). rewrite Hsizes1, decide_False in Hsz' by done. done.
Qed.
Lemma scavenge_loop_done rounds target a :
  th_cached_bytes (Thread.current t a) <= target -> Thread.scavenge_loop rounds t target a = Some a.
Proof.
  intros Hle. destruct rounds; [done|]. cbn [Thread.scavenge_loop].
  destruct (Z.ltb_spec target (th_cached_bytes (Thread.current t a))); [lia|done].
Qed.

(** Every round takes a batch from each list, so that the target is reached. *)
Lemma scavenge_loop_spec rounds m target a A C own :
  alloc_inv a A C live own -> held own 0 [] -> 0 <= target -> 0 <= m <= Z.of_nat rounds ->
  (forall j b, (j < kNumClasses)%nat -> batch_count j = Some b -> list_size t a j <= m * b) ->
  exists a' A' C' own', Thread.scavenge_loop rounds t target a = Some a' /\ run live t a A own a' A' C' own' /\
    th_cached_bytes (Thread.current t a') <= target.
Proof.
  revert m a A C own. induction rounds as [|rounds IH]; intros m a A C own Hai Hh Ht Hm Hsz.
  - assert (m = 0) as -> by lia. exists a, A, C, own. split; [done|]. split; [by apply run_refl|].
    rewrite (cached_zero a A C live own t Hai); [done|]. intros j Hj.
    destruct (batch_count_range j Hj) as (b & Hb & _). specialize (Hsz j b Hj Hb).
    pose proof (list_size_nonneg a A C own j Hai). lia.
  - cbn [Thread.scavenge_loop]. destruct (Z.ltb_spec target (th_cached_bytes (Thread.current t a))) as [Hlt|Hge].
    2:{ exists a, A, C, own. split; [done|]. split; [by apply run_refl|done]. }
    destruct (scavenge_round_spec kNumClasses target false a A C own ltac:(lia) Hai Hh)
      as (any & a1 & A1 & C1 & own1 & -> & Hrun & Hor). simpl.
    destruct Hor as [Hle|[Hs Hany]].
    { exists a1, A1, C1, own1. split; [|done]. destruct any; simpl; [|done]. by apply scavenge_loop_done. }
    destruct any; simpl.
    2:{ exfalso. rewrite (cached_zero a A C live own t Hai) in Hlt; [lia|]. by apply Hany. }
    destruct (IH (Z.max 0 (m - 1)) a1 A1 C1 own1 (ru_inv _ _ _ _ _ _ _ _ _ Hrun) (ru_held _ _ _ _ _ _ _ _ _ Hrun) Ht)
      as (a2 & A2 & C2 & own2 & -> & Hrun2 & Hle).
    + assert (m <> 0); [|lia]. intros ->. rewrite (cached_zero a A C live own t Hai) in Hlt; [lia|]. intros j Hj.
      destruct (batch_count_range j Hj) as (b & Hb & _). specialize (Hsz j b Hj Hb).
      pose proof (list_size_nonneg a A C own j Hai). lia.
    + intros j b Hj Hb. specialize (Hs j b Hj Hb). specialize (Hsz j b Hj Hb).
      destruct (batch_count_range j Hj) as (b' & ? & ?). simplify_eq. nia.
    + exists a2, A2, C2, own2. split; [done|]. split; [by eapply run_trans|done].
Qed.

(** The lists of a thread between two calls. *)
Definition short (t : nat) (a : Allocator) : Prop :=
  forall j, (j < kNumClasses)%nat -> two_batches j (list_size t a j + 1).

Lemma scavenge_spec a A C own :
  alloc_inv a A C live own -> held own 0 [] -> short t a -> 8 * 1024 <= th_limit (Thread.current t a) ->
  exists a' A' C' own', Thread.scavenge t a = Some a' /\ run live t a A own a' A' C' own' /\
    th_cached_bytes (Thread.current t a') <= th_limit (Thread.current t a').
Proof.
  intros Hai Hh Hs Hlim. unfold Thread.scavenge.
  set (target := wrap 64 (th_limit (Thread.current t a) * 3) / 4).
  assert (Hle : 0 <= target <= th_limit (Thread.current t a)).
  { pose proof (wrap_fits 64 (th_limit (Thread.current t a) * 3) ltac:(lia)) as [Hw0 _].
    assert (wrap 64 (th_limit (Thread.current t a) * 3) <= th_limit (Thread.current t a) * 3)
      by (apply Z.mod_le; lia).
    unfold target. split; [by apply Z.div_pos|]. apply Z.div_le_upper_bound; lia. }
  set (tg := if target =? 0 then 1 else target).
  assert (Htg : 0 <= tg <= th_limit (Thread.current t a)) by (unfold tg; destruct (Z.eqb_spec target 0); lia).
  destruct (scavenge_loop_spec kNumClasses 2 tg a A C own Hai Hh ltac:(lia)) as (a' & A' & C' & own' & He & Hrun & Hc).
  - change (Z.of_nat kNumClasses) with 36. lia.
  - intros j b Hj Hb. destruct (Hs j Hj) as (b' & ? & ?). simplify_eq. lia.
  - exists a', A', C', own'. split; [exact He|]. split; [done|]. rewrite (ru_limit _ _ _ _ _ _ _ _ _ Hrun). lia.
Qed.

Lemma run_short a A own a' A' C' own' : run live t a A own a' A' C' own' -> short t a -> short t a'.
Proof.
  intros Hrun Hs j Hj. destruct (Hs j Hj) as (b & Hb & Hle). exists b. split; [done|].
  pose proof (ru_sizes _ _ _ _ _ _ _ _ _ Hrun j). lia.
Qed.

(** ** [release_all] *)
Lemma release_list_spec i fl a A C own :
  (i < kNumClasses)%nat -> alloc_inv a A C live own -> held own 0 [] -> short t a ->
  th_lists (Thread.current t a) !! i = Some fl ->
  exists a' A' C' own', Thread.release_list (Z.to_nat (fl_size fl)) t i a = Some a' /\
    run live t a A own a' A' C' own' /\ list_size t a' i = 0.
Proof.
  intros Hi Hai Hh Hs Hfl. assert (Hsi : list_size t a i = fl_size fl) by (unfold list_size; by rewrite Hfl).
  pose proof (list_size_nonneg a A C own i Hai) as Hpos.
  pose proof (fl_empty_size a A C own i fl Hai Hi Hfl) as Hemp.
  destruct (Z.to_nat (fl_size fl)) as [|n] eqn:Hn; cbn [Thread.release_list]; rewrite Hfl; simpl.
  - rewrite (proj2 Hemp) by lia. exists a, A, C, own. split; [done|]. split; [by apply run_refl|]. lia.
  - destruct (fl_empty fl); [exfalso; assert (fl_size fl = 0) by tauto; lia|].
    destruct (Hs i Hi) as (b & Hb & Hle).
    destruct (release_batch_spec Hai Hh fl (fl_size fl) Hi Hfl) as (a1 & fl1 & -> & Hs1 & Hrel); [lia|exists b; split; [done|lia]|].
    destruct (released_run a A C own i fl fl1 a1 Hai Hfl ltac:(lia) Hrel) as (A1 & C1 & own1 & Hrun & Hsizes & _). simpl.
    assert (Hz : list_size t a1 i = 0) by (rewrite Hsizes, decide_True by done; lia).
    destruct (thread_list_lookup a1 A1 C1 live own1 t i (ru_inv _ _ _ _ _ _ _ _ _ Hrun) Hi) as [fl2 Hfl2].
    assert (He2 : fl_empty fl2 = true).
    { apply (fl_empty_size a1 A1 C1 own1 i fl2 (ru_inv _ _ _ _ _ _ _ _ _ Hrun) Hi Hfl2).
      unfold list_size in Hz. by rewrite Hfl2 in Hz. }
    exists a1, A1, C1, own1. split; [|done]. destruct n; cbn [Thread.release_list]; rewrite Hfl2; simpl; by rewrite He2.
Qed.

Lemma release_classes_spec cis a A C own :
  Forall (fun i => (i < kNumClasses)%nat) cis -> alloc_inv a A C live own -> held own 0 [] -> short t a ->
  exists a' A' C' own', Thread.release_classes cis t a = Some a' /\ run live t a A own a' A' C' own' /\
    forall j, j ∈ cis -> list_size t a' j = 0.
Proof.
  intros Hcis. revert a A C own. induction Hcis as [|i cis Hi _ IH]; intros a A C own Hai Hh Hs; simpl.
  - exists a, A, C, own. split; [done|]. split; [by apply run_refl|]. by intros j ?%not_elem_of_nil.
  - destruct (thread_list_lookup a A C live own t i Hai Hi) as [fl Hfl]. rewrite Hfl. simpl.
    destruct (release_list_spec i fl a A C own Hi Hai Hh Hs Hfl) as (a1 & A1 & C1 & own1 & -> & Hrun & Hz). simpl.
    destruct (IH a1 A1 C1 own1) as (a2 & A2 & C2 & own2 & -> & Hrun2 & Hz2); [apply Hrun..|by eapply run_short|].
    exists a2, A2, C2, own2. split; [done|]. split; [by eapply run_trans|]. intros j [->|?]%elem_of_cons; [|auto].
    pose proof (ru_sizes _ _ _ _ _ _ _ _ _ Hrun2 i). pose proof (list_size_nonneg a2 A2 C2 own2 i (ru_inv _ _ _ _ _ _ _ _ _ Hrun2)). lia.
Qed.
End runs.
