(* ===== verification/AllocProofs.v ===== *)
(** The calls of the thread caches between which the allocator is idle: [allocate],
    [deallocate], [release_all] and [set_cache_limit_bytes] of Allocator.v. *)
From S2P Require Import Prelude SizeClass PageHeap PageHeapInv PageHeapProofs PageHeapOps PageHeapPurge.
From S2P Require Import FreeList Allocator AllocParts AllocCentral AllocTransfer AllocThread.
Import SizeClass.

#[local] Arguments TransferCache.fetch_range : simpl never.
#[local] Arguments TransferCache.release_range : simpl never.
#[local] Arguments fl_push_range : simpl never.
#[local] Arguments fl_push : simpl never.
#[local] Arguments Thread.scavenge : simpl never.
#[local] Arguments Thread.release_to_central : simpl never.
#[local] Arguments Thread.pop_local : simpl never.

(** The allocator between two calls. *)
Record idle (a : Allocator) (A C : gmap nat Span) (live : gmap Z Z) (own : ownership) : Prop := {
  id_inv : alloc_inv a A C live own;
  id_settled : settled own;
  id_short : forall t, short t a;
  id_limit : forall t, 8 * 1024 <= th_limit (Thread.current t a);
}.
Arguments id_inv {a A C live own}.
Arguments id_settled {a A C live own}.
Arguments id_short {a A C live own}.
Arguments id_limit {a A C live own}.

Lemma short_current t a a' : Thread.current t a' = Thread.current t a -> short t a -> short t a'.
Proof. unfold short, list_size. by intros ->. Qed.

(** The states of the caches decide the invariant. *)
Lemma alloc_inv_current a a' A C live own :
  alloc_inv a A C live own -> a_mem a' = a_mem a -> a_heap a' = a_heap a -> a_central a' = a_central a ->
  a_transfer a' = a_transfer a -> (forall t, th_lists (Thread.current t a') = th_lists (Thread.current t a)) ->
  (forall t, th_cached_bytes (Thread.current t a') = th_cached_bytes (Thread.current t a)) ->
  alloc_inv a' A C live own.
Proof.
  intros [Hh Hsh Ho Hp Hb] Em Eh Ec Et El Eb. split; [by rewrite Eh|done|done| |].
  - intros i o Hi. specialize (Hp i o Hi). destruct o; simpl in *; rewrite ?Em, ?Ec, ?Et, ?El; done.
  - intros t. destruct (Hb t). split; by rewrite ?Eb, El.
Qed.

Section calls.
Context `{!IterOrder Z (list nat)}.
Context {live : gmap Z Z} {t : nat}.

Lemma settled_frame mem A own mem' A' own' :
  draining own 0 [] -> user_frame mem A own mem' A' own' -> held own' 0 [] -> settled own'.
Proof. intros Hs Huf Hh. split; [done|]. intros x j. by rewrite (uf_drain _ _ _ _ _ _ Huf). Qed.

Lemma run_idle a A own a' A' C' own' :
  draining own 0 [] -> (forall t', short t' a) -> (forall t', 8 * 1024 <= th_limit (Thread.current t' a)) ->
  run live t a A own a' A' C' own' -> idle a' A' C' live own'.
Proof.
  intros Hset Hs Hl Hrun. pose proof Hrun as [Hai Huf Hh Hlim Ho _].
  split; [done|by eapply settled_frame| |].
  - intros t'. destruct (decide (t' = t)) as [->|Hne]; [by eapply run_short|].
    eapply short_current; [by apply Ho|done].
  - intros t'. destruct (decide (t' = t)) as [->|Hne]; [by rewrite Hlim|by rewrite Ho].
Qed.

Lemma seq_classes : Forall (fun i => (i < kNumClasses)%nat) (seq 0 kNumClasses).
Proof. apply Forall_forall. intros i [_ Hi]%elem_of_seq. lia. Qed.

Lemma release_all_spec a A C own :
  idle a A C live own ->
  exists a' A' C' own', Thread.release_all t a = Some a' /\ idle a' A' C' live own' /\
    block_frame (a_mem a) A own (a_mem a') A' own' /\ (forall j, (j < kNumClasses)%nat -> list_size t a' j = 0) /\
    forall t', t' <> t -> Thread.current t' a' = Thread.current t' a.
Proof.
  intros [Hai [Hh Hd] Hs Hl]. unfold Thread.release_all.
  destruct (release_classes_spec (seq 0 kNumClasses) a A C own seq_classes Hai Hh (Hs t))
    as (a1 & A1 & C1 & own1 & -> & Hrun & Hz). cbn [mbind option_bind].
  assert (Hz' : forall j, (j < kNumClasses)%nat -> list_size t a1 j = 0) by (intros j Hj; apply Hz, elem_of_seq; lia).
  pose proof (cached_zero a1 A1 C1 live own1 t (ru_inv _ _ _ _ _ _ _ _ _ Hrun) Hz') as Hc.
  rewrite Hc. cbn [Z.eqb assert mbind option_bind].
  pose proof (run_idle a A own a1 A1 C1 own1 Hd Hs Hl Hrun) as Hid.
  set (a2 := set_thread _ _ a1).
  assert (Hcur : forall t', Thread.current t' a2 = Thread.current t' a1).
  { intros t'. unfold a2. rewrite current_set. case_decide as Ht; [|done]. subst.
    revert Hc. destruct (Thread.current t a1); simpl. by intros ->. }
  exists a2, A1, C1, own1. split; [done|]. split.
  { destruct Hid. split; [|done| |].
    - eapply alloc_inv_current; try done; intros; by rewrite Hcur.
    - intros t'. eapply short_current; [apply Hcur|done].
    - intros t'. by rewrite Hcur. }
  split; [apply Hrun|]. split.
  - intros j Hj. unfold list_size. rewrite Hcur. by apply Hz'.
  - intros t' Ht. rewrite Hcur. by apply Hrun.
Qed.

Lemma set_cache_limit_spec bytes a A C own :
  idle a A C live own ->
  exists a' A' C' own', Thread.set_cache_limit_bytes t bytes a = Some a' /\ idle a' A' C' live own' /\
    block_frame (a_mem a) A own (a_mem a') A' own' /\
    th_limit (Thread.current t a') = Z.max (8 * 1024) bytes /\
    th_cached_bytes (Thread.current t a') <= th_limit (Thread.current t a').
Proof.
  intros [Hai [Hh Hd] Hs Hl]. unfold Thread.set_cache_limit_bytes.
  set (n := if bytes <? 8 * 1024 then 8 * 1024 else bytes).
  assert (Hn : n = Z.max (8 * 1024) bytes) by (unfold n; destruct (Z.ltb_spec bytes (8 * 1024)); lia).
  set (a1 := set_thread _ _ a).
  assert (Hcur : Thread.current t a1 = {| th_lists := th_lists (Thread.current t a);
            th_cached_bytes := th_cached_bytes (Thread.current t a); th_limit := n |}).
  { unfold a1. by rewrite current_set, decide_True. }
  assert (Hoth : forall t', t' <> t -> Thread.current t' a1 = Thread.current t' a).
  { intros t' Ht. unfold a1. by rewrite current_set, decide_False. }
  assert (Hlists : forall t', th_lists (Thread.current t' a1) = th_lists (Thread.current t' a)).
  { intros t'. destruct (decide (t' = t)) as [->|]; [by rewrite Hcur|by rewrite Hoth]. }
  assert (Hai1 : alloc_inv a1 A C live own).
  { eapply alloc_inv_current; try done. intros t'.
    destruct (decide (t' = t)) as [->|]; [by rewrite Hcur|by rewrite Hoth]. }
  assert (Hs1 : forall t', short t' a1).
  { intros t' j Hj. unfold list_size. rewrite Hlists. by apply Hs. }
  assert (Hl1 : forall t', 8 * 1024 <= th_limit (Thread.current t' a1)).
  { intros t'. destruct (decide (t' = t)) as [->|]; [rewrite Hcur; simpl; lia|by rewrite Hoth]. }
  destruct (Z.ltb_spec n (th_cached_bytes (Thread.current t a))) as [Hlt|Hge].
  - destruct (scavenge_spec a1 A C own Hai1 Hh (Hs1 t) (Hl1 t)) as (a2 & A2 & C2 & own2 & -> & Hrun & Hle).
    exists a2, A2, C2, own2. split; [done|]. split; [by eapply run_idle|]. split; [apply Hrun|]. split; [|done].
    rewrite (ru_limit _ _ _ _ _ _ _ _ _ Hrun), Hcur. done.
  - exists a1, A, C, own. split; [done|]. split; [by split|]. split; [apply block_frame_refl|]. rewrite Hcur. simpl. lia.
Qed.
(** The class of an object is found again from its size. *)
Lemma index_class i size : class_size i = Some size -> is_small size = true /\ SizeClass.index size = Some i.
Proof.
  intros Hc. pose proof (class_size_range _ _ Hc) as [Hr _].
  assert (Hs : is_small size = true) by (unfold is_small, kMaxSmallSize; lia). split; [done|].
  destruct (index_small size Hs) as (idx & -> & Hf). f_equal.
  destruct (fits_class_spec size idx Hf) as (c & Hci & Hle & _ & _ & Hbelow).
  destruct (Nat.lt_total idx i) as [Hlt|[->|Hlt]]; [|done|].
  - pose proof (class_sizes_sorted idx i c size Hlt Hci Hc). lia.
  - specialize (Hbelow i size Hlt Hc). lia.
Qed.

Lemma max_local_count_spec i b : (i < kNumClasses)%nat -> batch_count i = Some b -> Thread.max_local_count i = Some (2 * b).
Proof.
  intros Hi Hb. destruct (batch_count_range i Hi) as (b' & ? & ?). simplify_eq. unfold Thread.max_local_count.
  rewrite Hb. simpl. f_equal. rewrite wrap_id by (unfold fits; lia). lia.
Qed.

(** A list that has reached two batches gives one back. *)
Lemma trim_list_spec i b fl a A C own :
  alloc_inv a A C live own -> held own 0 [] -> batch_count i = Some b ->
  th_lists (Thread.current t a) !! i = Some fl -> fl_size fl <= 2 * b ->
  (forall j, (j < kNumClasses)%nat -> j <> i -> two_batches j (list_size t a j + 1)) ->
  exists a' A' C' own',
    (if 2 * b <=? fl_size fl then Thread.release_to_central t i a else Some a) = Some a' /\
    run live t a A own a' A' C' own' /\ short t a'.
Proof.
  intros Hai Hh Hb Hfl Hle Hs.
  assert (Hi : (i < kNumClasses)%nat) by (rewrite <- (bk_length _ (ai_bytes Hai t)); by apply lookup_lt_Some in Hfl).
  destruct (batch_count_range i Hi) as (b' & Hb' & Hbr). rewrite Hb in Hb'. injection Hb' as <-.
  destruct (Z.leb_spec (2 * b) (fl_size fl)) as [Hge|Hlt].
  - destruct (release_to_central_spec Hai Hh fl b Hb Hfl) as (a3 & fl3 & -> & Hs3 & Hrel).
    destruct (released_run a A C own i fl fl3 a3 Hai Hfl ltac:(lia) Hrel) as (A3 & C3 & own3 & Hrun & Hsizes & _).
    exists a3, A3, C3, own3. split; [done|]. split; [done|]. intros j Hj. rewrite Hsizes.
    case_decide as Hji; [subst; exists b; split; [done|lia]|by apply Hs].
  - exists a, A, C, own. split; [done|]. split; [by apply run_refl|]. intros j Hj.
    destruct (decide (j = i)) as [->|]; [|by apply Hs]. exists b. split; [done|].
    unfold list_size. rewrite Hfl. lia.
Qed.

(** A cache above its limit is scavenged. *)
Lemma limit_spec a A C own :
  idle a A C live own ->
  exists a' A' C' own',
    (if th_limit (Thread.current t a) <? th_cached_bytes (Thread.current t a) then Thread.scavenge t a else Some a) = Some a' /\
    idle a' A' C' live own' /\ block_frame (a_mem a) A own (a_mem a') A' own' /\
    th_cached_bytes (Thread.current t a') <= th_limit (Thread.current t a').
Proof.
  intros Hid. pose proof Hid as [Hai [Hh Hd] Hs Hl].
  destruct (Z.ltb_spec (th_limit (Thread.current t a)) (th_cached_bytes (Thread.current t a))) as [Hlt|Hge].
  - destruct (scavenge_spec a A C own Hai Hh (Hs t) (Hl t)) as (a4 & A4 & C4 & own4 & -> & Hrun4 & Hle).
    exists a4, A4, C4, own4. split; [done|]. split; [by eapply run_idle|]. split; [apply Hrun4|done].
  - exists a, A, C, own. split; [done|]. split; [done|]. split; [apply block_frame_refl|done].
Qed.

(** The user gives an object up. *)
Lemma hand_back x i a A C own :
  idle a A C live own -> own !! x = Some (i, OUser) ->
  let own1 := move [x] i OHeld own in
  alloc_inv a A C live own1 /\ held own1 i [x] /\ draining own1 0 [] /\ x <> 0.
Proof.
  intros [Hai [Hh Hd] _ _] Hx own1.
  assert (Hxo : forall y, y ∈ [x] -> own !! y = Some (i, OUser)) by (by intros y ->%list_elem_of_singleton).
  split; [|split; [|split]].
  - eapply relabel; [done|exact Hxo|]. by intros o [->| ->%list_elem_of_singleton]%elem_of_cons.
  - apply (held_from _ _ OUser); [by apply (held_nil _ 0)|done].
  - intros y j. unfold own1. rewrite lookup_move. case_decide as Hy; [|apply Hd].
    split; [done|by intros [_ ?%not_elem_of_nil]].
  - pose proof (class_objects_pos (ai_heap Hai) i [x] x (owned_objects _ _ _ _ _ (ai_own Hai) Hxo) ltac:(left)). lia.
Qed.

(** [deallocate] of an object that the user has given up. *)
Lemma deallocate_spec x i size a A C own :
  idle a A C live own -> own !! x = Some (i, OUser) -> class_size i = Some size ->
  exists a' A' C' own', Thread.deallocate t x size a = Some a' /\ idle a' A' C' live own' /\
    block_frame (a_mem a) A (move [x] i OHeld own) (a_mem a') A' own' /\
    th_cached_bytes (Thread.current t a') <= th_limit (Thread.current t a').
Proof.
  intros Hid Hx Hsz. pose proof (class_size_range _ _ Hsz) as [_ Hi].
  destruct (hand_back x i a A C own Hid Hx) as (Hai1 & Hh1 & Hd1 & Hx0). pose proof Hid as [_ _ Hs Hl].
  set (own1 := move [x] i OHeld own) in *.
  unfold Thread.deallocate. destruct (Z.eqb_spec x 0) as [|_]; [done|].
  destruct (index_class i size Hsz) as [Hsm Hix]. rewrite Hsm, Hix. simpl.
  rewrite (proj2 (Nat.ltb_lt _ _) Hi). simpl. rewrite Hsz. simpl.
  destruct (ai_parts Hai1 i (OThread t) Hi) as (fl & l & Hfl & Htl). rewrite Hfl. simpl.
  pose proof (re_size _ _ _ (th_rep _ _ _ _ _ _ Htl)) as Hfs0.
  destruct (Hs t i Hi) as (b & Hb & Hshort). unfold list_size in Hshort. rewrite Hfl in Hshort.
  destruct (batch_count_range i Hi) as (b' & Hb' & Hbr). rewrite Hb in Hb'. injection Hb' as <-.
  pose proof (push_spec Hai1 fl l size x Hfl Htl Hsz Hh1 ltac:(lia)) as Hpush.
  cbn beta iota zeta delta [fl_push] in *. set (fl' := mkFreeList x _) in *.
  destruct Hpush as (Hai2 & Huf2 & Hls2 & Hfs & Hh2).
  set (a2 := set_thread _ _ _) in *. set (own2 := move [x] i (OThread t) own1) in *.
  rewrite (max_local_count_spec i b) by done. cbn [mbind option_bind].
  assert (Hlen : (i < length (th_lists (Thread.current t a)))%nat) by (by apply lookup_lt_Some in Hfl).
  change (wrap 64 (fl_size fl + 1)) with (fl_size fl').
  destruct (trim_list_spec i b fl' a2 A C own2 Hai2 (held_nil _ _ 0 Hh2) Hb) as (a3 & A3 & C3 & own3 & -> & Hrun3 & Hs3).
  { rewrite (ls_lists _ _ _ _ _ Hls2). by apply list_lookup_insert_eq. }
  { simpl in Hfs. simpl. lia. }
  { intros j Hj Hne. rewrite (list_size_set _ _ _ _ _ _ Hls2 Hlen), decide_False by done. by apply Hs. }
  cbn [mbind option_bind].
  assert (Hid3 : idle a3 A3 C3 live own3).
  { assert (Hoth : forall t', t' <> t -> Thread.current t' a3 = Thread.current t' a).
    { intros t' Ht. rewrite (ru_other _ _ _ _ _ _ _ _ _ Hrun3), (ls_other _ _ _ _ _ Hls2) by done. done. }
    split; [apply Hrun3| | |].
    - eapply settled_frame; [|by eapply user_frame_trans, (ru_frame _ _ _ _ _ _ _ _ _ Hrun3)|apply Hrun3]. done.
    - intros t'. destruct (decide (t' = t)) as [->|]; [done|]. eapply short_current; [by apply Hoth|done].
    - intros t'. destruct (decide (t' = t)) as [->|]; [|by rewrite Hoth].
      rewrite (ru_limit _ _ _ _ _ _ _ _ _ Hrun3), (ls_limit _ _ _ _ _ Hls2). done. }
  destruct (limit_spec a3 A3 C3 own3 Hid3) as (a4 & A4 & C4 & own4 & -> & Hid4 & Hbf & Hle).
  exists a4, A4, C4, own4. split; [done|]. split; [done|]. split; [|done].
  eapply block_frame_trans; [apply Huf2|]. eapply block_frame_trans; [apply Hrun3|exact Hbf].
Qed.
(** ** [allocate] *)

(** The outcome of a request for a small block [p]. *)
Definition allocated (a : Allocator) (A : gmap nat Span) (own : ownership) (p : Z) (i : nat)
    (acts : list SysAction) (a' : Allocator) : Prop :=
  exists A' C' live' own1, sys_run acts live = Some live' /\ idle a' A' C' live' (move [p] i OUser own1) /\
    own1 !! p = Some (i, OHeld) /\ block_frame (a_mem a) A own (a_mem a') A' own1 /\ p <> 0.

(** The user takes an object. *)
Lemma take_up p i a A C live' own :
  alloc_inv a A C live' own -> held own i [p] -> draining own 0 [] -> (forall t', short t' a) ->
  (forall t', 8 * 1024 <= th_limit (Thread.current t' a)) -> idle a A C live' (move [p] i OUser own).
Proof.
  intros Hai Hh Hd Hs Hl.
  assert (Hpo : forall y, y ∈ [p] -> own !! y = Some (i, OHeld)) by (intros; by apply Hh).
  split; [|split| |]; try done.
  - eapply relabel; [done|exact Hpo|]. by intros o [->| ->%list_elem_of_singleton]%elem_of_cons.
  - apply (held_nil _ i). by apply (held_move _ _ [p]).
  - intros y j. rewrite lookup_move. case_decide as Hy; [|apply Hd]. split; [done|by intros [_ ?%not_elem_of_nil]].
Qed.

(** Popping an object of a list that stays short. *)
Lemma pop_local_idle i size fl x l a A C live' own :
  alloc_inv a A C live' own -> settled own -> class_size i = Some size ->
  th_lists (Thread.current t a) !! i = Some fl -> thread_list (a_mem a) own t i fl (x :: l) ->
  two_batches i (fl_size fl) -> (forall t' j, (j < kNumClasses)%nat -> t' <> t \/ j <> i -> two_batches j (list_size t' a j + 1)) ->
  (forall t', 8 * 1024 <= th_limit (Thread.current t' a)) ->
  exists a', Thread.pop_local t i size a = Some (x, a') /\ idle a' A C live' (move [x] i OUser (move [x] i OHeld own)) /\
    move [x] i OHeld own !! x = Some (i, OHeld) /\ user_frame (a_mem a) A own (a_mem a') A (move [x] i OHeld own) /\ x <> 0.
Proof.
  intros Hai [Hh Hd] Hsz Hfl Htl Hb Hs Hl.
  destruct (pop_local_spec Hai fl (x :: l) size Hfl Htl Hsz (held_nil _ _ i Hh))
    as (fl' & a' & -> & Hfs & Hai' & Huf & Hls & Hh' & Hx0).
  exists a'. split; [done|]. split; [|split; [|done]].
  - apply take_up; [done|done|intros y j; by rewrite (uf_drain _ _ _ _ _ _ Huf)| |].
    + intros t' j Hj. assert (Hlen : (i < length (th_lists (Thread.current t a)))%nat) by (by apply lookup_lt_Some in Hfl).
      destruct (decide (t' = t)) as [->|Ht].
      * rewrite (list_size_set _ _ _ _ _ _ Hls Hlen). case_decide as Hji; [subst|apply Hs; [done|by right]].
        destruct Hb as (b & ? & ?). exists b. split; [done|lia].
      * unfold list_size. rewrite (ls_other _ _ _ _ _ Hls) by done. apply (Hs t' j); [done|by left].
    + intros t'. destruct (decide (t' = t)) as [->|]; [by rewrite (ls_limit _ _ _ _ _ Hls)|by rewrite (ls_other _ _ _ _ _ Hls)].
  - rewrite lookup_move, decide_True; [done|left].
Qed.

Lemma fetch_from_central_spec answer i size fl a A C own :
  idle a A C live own -> class_size i = Some size -> th_lists (Thread.current t a) !! i = Some fl -> fl_size fl = 0 ->
  fresh_answer answer (64 * 1024) live ->
  (Thread.fetch_from_central answer t i a = Some (0, [], a) /\ answer = None) \/
  exists p acts a', Thread.fetch_from_central answer t i a = Some (p, acts, a') /\ allocated a A own p i acts a'.
Proof.
  intros [Hai [Hh Hd] Hs Hl] Hsz Hfl Hz Hf. pose proof (class_size_range _ _ Hsz) as [_ Hi].
  destruct (batch_count_range i Hi) as (b & Hb & Hbr). unfold Thread.fetch_from_central. rewrite Hb, Hsz. simpl.
  destruct (transfer_fetch_spec Hai Hi answer b Hb Hf (held_nil _ _ i Hh)) as [[-> ->]|(r & acts & a1 & -> & Hfe)];
    [by left|right]. simpl.
  destruct Hfe as (A1 & C1 & live1 & own1 & k & Hrun & Hai1 & Huf1 & Hh1 & Hr & Hk & Hlk & Ht1).
  assert (Hcur : forall t', Thread.current t' a1 = Thread.current t' a) by (intros; by apply current_threads).
  unfold range_empty. destruct (range_ok _ _ _ Hr Hk) as [Hfirst _].
  destruct (Z.eqb_spec (range_first r) 0) as [|_]; [done|]. rewrite Hcur, Hfl. simpl.
  destruct (ai_parts Hai1 i (OThread t) Hi) as (fl1 & l & Hfl1 & Htl). rewrite Hcur, Hfl in Hfl1. injection Hfl1 as <-.
  assert (l = []) as -> by (apply zlen_zero; by rewrite <- (re_size _ _ _ (th_rep _ _ _ _ _ _ Htl))).
  pose proof (push_range_spec (t := t) (i := i) Hai1 fl [] size r k) as Hpush. rewrite Hcur in Hpush.
  specialize (Hpush Hfl Htl Hsz Hh1 Hr ltac:(rewrite zlen_nil; lia)).
  cbn beta iota zeta delta [fl_push_range] in *. set (fl2 := mkFreeList (range_first r) _) in *.
  destruct Hpush as (Hai2 & Huf2 & Hls2 & Hfs & Hh2 & Htl2). set (a2 := set_thread _ _ _) in *.
  set (own2 := move k i (OThread t) own1) in *. rewrite app_nil_r in Htl2.
  destruct k as [|x k]; [done|].
  assert (Hlen : (i < length (th_lists (Thread.current t a1)))%nat) by (rewrite Hcur; by apply lookup_lt_Some in Hfl).
  assert (Hd2 : draining own2 0 []).
  { intros y j. by rewrite (uf_drain _ _ _ _ _ _ Huf2), (uf_drain _ _ _ _ _ _ Huf1). }
  destruct (pop_local_idle i size fl2 x k a2 A1 C1 live1 own2) as (a3 & -> & Hid3 & Hp & Huf3 & Hx0); try done.
  { split; [by apply (held_nil _ i)|done]. }
  { rewrite (ls_lists _ _ _ _ _ Hls2). by apply list_lookup_insert_eq. }
  { exists b. split; [done|]. simpl in *. lia. }
  { intros t' j Hj Hne. destruct (decide (t' = t)) as [->|Ht].
    - rewrite (list_size_set _ _ _ _ _ _ Hls2 Hlen), decide_False by naive_solver.
      unfold list_size. rewrite Hcur. by apply (Hs t j).
    - unfold list_size. rewrite (ls_other _ _ _ _ _ Hls2), Hcur by done. by apply (Hs t' j). }
  { intros t'. destruct (decide (t' = t)) as [->|]; [rewrite (ls_limit _ _ _ _ _ Hls2)|rewrite (ls_other _ _ _ _ _ Hls2) by done];
      by rewrite Hcur. }
  exists x, acts, a3. split; [done|]. exists A1, C1, live1, (move [x] i OHeld own2).
  split; [done|]. split; [done|]. split; [done|]. split; [|done].
  eapply block_frame_trans; [apply Huf1|]. eapply block_frame_trans; [apply Huf2|apply Huf3].
Qed.
Lemma set_current_idle a A C own : idle a A C live own -> idle (set_thread t (Thread.current t a) a) A C live own.
Proof.
  intros [Hai Hset Hs Hl].
  assert (Hcur : forall t', Thread.current t' (set_thread t (Thread.current t a) a) = Thread.current t' a).
  { intros t'. rewrite current_set. case_decide; by subst. }
  split; [|done| |].
  - eapply alloc_inv_current; try done; intros; by rewrite Hcur.
  - intros t'. eapply short_current; [apply Hcur|done].
  - intros t'. by rewrite Hcur.
Qed.

(** A small request: the null pointer when the system has no memory, or an object of the
    smallest class that holds it. *)
Lemma allocate_spec answer size a A C own :
  idle a A C live own -> is_small size = true -> fresh_answer answer (64 * 1024) live ->
  (exists a', Thread.allocate answer t size a = Some (0, [], a') /\ answer = None /\ idle a' A C live own /\
     a_mem a' = a_mem a) \/
  exists p i c acts a', Thread.allocate answer t size a = Some (p, acts, a') /\ class_size i = Some c /\ size <= c /\
    allocated a A own p i acts a'.
Proof.
  intros Hid Hsm Hf. unfold Thread.allocate. rewrite Hsm. simpl.
  destruct (index_small size Hsm) as (i & -> & Hfit). simpl.
  destruct (fits_class_spec size i Hfit) as (csize & Hsz & Hle & _).
  pose proof (class_size_range _ _ Hsz) as [_ Hi]. rewrite (proj2 (Nat.ltb_lt _ _) Hi). simpl. rewrite Hsz. simpl.
  pose proof Hid as [Hai [Hh Hd] Hs Hl].
  destruct (ai_parts Hai i (OThread t) Hi) as (fl & l & Hfl & Htl). destruct l as [|x l].
  - rewrite (pop_local_spec Hai fl [] csize Hfl Htl Hsz (held_nil _ _ i Hh)). simpl.
    pose proof (set_current_idle a A C own Hid) as Hid1. set (a1 := set_thread t (Thread.current t a) a) in *.
    destruct (fetch_from_central_spec answer i csize fl a1 A C own Hid1 Hsz) as [[-> ->]|(p & acts & a' & -> & Hal)]; try done.
    + unfold a1. by rewrite current_set, decide_True.
    + by rewrite (re_size _ _ _ (th_rep _ _ _ _ _ _ Htl)).
    + left. exists a1. done.
    + right. exists p, i, csize, acts, a'. done.
  - destruct (Hs t i Hi) as (b & Hb & Hshort). unfold list_size in Hshort. rewrite Hfl in Hshort.
    destruct (pop_local_idle i csize fl x l a A C live own) as (a' & -> & Hid' & Hp & Huf & Hx0); try done.
    + exists b. split; [done|lia].
    + intros t' j Hj _. by apply (Hs t' j).
    + right. simpl. destruct (Z.eqb_spec x 0) as [|_]; [done|]. simpl. exists x, i, csize, [], a'.
      split; [done|]. split; [done|]. split; [done|]. exists A, C, live, (move [x] i OHeld own).
      split; [done|]. split; [done|]. split; [done|]. split; [apply Huf|done].
Qed.
End calls.
