(* ===== verification/MiniMalloc.v ===== *)
(** The allocator as its users see it (MiniMalloc.cpp, modelled in Allocator.v).

    The user's view is the map [U] from the pointers that were returned and not freed to the
    sizes that were asked for.  The theorems show that the blocks of [U] never overlap, that
    no call writes into one of them, that calls on live pointers never fail an assertion,
    and that nothing is lost: when everything is freed and the caches are emptied, no page
    is in use. *)
From S2P Require Import Prelude SizeClass PageHeap PageHeapInv PageHeapProofs PageHeapOps PageHeapPurge.
From S2P Require Import FreeList Allocator AllocParts AllocCentral AllocTransfer AllocThread AllocProofs.
Import SizeClass.

#[local] Arguments new_span : simpl never.
#[local] Arguments release_span : simpl never.
#[local] Arguments map_object_to_span : simpl never.
#[local] Arguments Thread.allocate : simpl never.
#[local] Arguments Thread.deallocate : simpl never.

(** ** The user's view *)

(** The blocks [U] the user holds, against the objects and spans of the allocator. *)
Record user_ok (U : gmap Z Z) (own : ownership) (A : gmap nat Span) : Prop := {
  uo_block : forall x n, U !! x = Some n ->
    (exists i c, own !! x = Some (i, OUser) /\ class_size i = Some c /\ n <= c) \/
    (exists h s, A !! h = Some s /\ sp_class_index s = kInvalidSizeClass /\ sp_start s = x /\ n <= sp_bytes s /\
       is_small n = false);
  uo_small : forall x i, own !! x = Some (i, OUser) -> is_Some (U !! x);
  uo_large : forall h s, A !! h = Some s -> sp_class_index s = kInvalidSizeClass -> is_Some (U !! sp_start s);
}.

(** The address is in a block of the user. *)
Definition in_block (U : gmap Z Z) (y : Z) : Prop := exists x n, U !! x = Some n /\ x <= y < x + n.

Definition alloc_ok (a : Allocator) (live : gmap Z Z) (U : gmap Z Z) : Prop :=
  exists A C own, idle a A C live own /\ user_ok U own A.

Lemma user_ok_frame U mem A own mem' A' own' :
  block_frame mem A own mem' A' own' -> user_ok U own A -> user_ok U own' A'.
Proof.
  intros [Ho Hl _] [Hb Hs Hlg]. split.
  - intros x n Hx. destruct (Hb x n Hx) as [(i & c & ? & ?)|(h & s & ? & ? & ?)].
    + left. exists i, c. by rewrite Ho.
    + right. exists h, s. by rewrite Hl.
  - intros x i Hx%Ho. eauto.
  - intros h s Hs' Hc. eapply Hlg; [|done]. by apply Hl.
Qed.

Lemma in_block_use U own A y : user_ok U own A -> in_block U y -> in_use own A y.
Proof.
  intros Hu (x & n & Hx & Hr). destruct (uo_block _ _ _ Hu x n Hx) as [(i & c & ? & ? & ?)|(h & s & Hs & ? & <- & ? & _)].
  - left. exists x, i, c. split_and!; [done|done|lia|lia].
  - right. exists h, s. split_and!; [done|done|]. unfold contains, span_end. lia.
Qed.

Section user.
Context {a : Allocator} {A C : gmap nat Span} {live : gmap Z Z} {own : ownership} {U : gmap Z Z}.
Context (Hid : idle a A C live own) (Hu : user_ok U own A).

Lemma span_in_block h s :
  A !! h = Some s -> live !! sp_allocation_base s = Some (sp_allocation_bytes s) /\
    sp_allocation_base s <= sp_start s /\ span_end s <= sp_allocation_base s + sp_allocation_bytes s /\
    0 < sp_start s /\ sp_start s mod kAlignment = 0.
Proof.
  intros Hs. destruct (ai_heap (id_inv Hid)) as [Hrep _]. apply (rp_A Hrep) in Hs as [Hs _].
  pose proof (rep_ok Hrep _ _ Hs) as []. split_and!; try done.
  - apply (co_live (rp_core Hrep)). eauto.
  - unfold kPageSize in *. lia.
  - rewrite so_page. unfold kPageSize, kAlignment. rewrite <- Z.mul_assoc. rewrite Z.mul_comm. apply Z.mod_mul. lia.
Qed.

(** The span a block lies in. *)
Lemma user_block_span x n :
  U !! x = Some n -> exists h s, A !! h = Some s /\ sp_start s <= x /\ x + n <= span_end s /\ x mod kAlignment = 0.
Proof.
  intros Hx. destruct (uo_block _ _ _ Hu x n Hx) as [(i & c & Ho & Hc & Hn)|(h & s & Hs & Hcl & <- & Hn & _)].
  - destruct (proj1 (ai_own (id_inv Hid) x i) ltac:(eauto)) as (h & s & Hs & Hb & Hob). exists h, s. split; [done|].
    pose proof (bound_extent _ _ _ Hb Hob). assert (c = sp_object_size s) as -> by (destruct Hb; congruence).
    split_and!; [lia|lia|]. destruct Hob as (k & _ & ->). destruct (span_in_block h s Hs) as (_ & _ & _ & _ & Hal).
    assert (Hm : sp_object_size s mod kAlignment = 0).
    { assert (Hall : Forall (fun c => c mod kAlignment = 0) kClassSizes) by (repeat constructor).
      rewrite Forall_lookup in Hall. eauto. }
    rewrite Z.add_mod, Z.mul_mod, Hal, Hm, Z.mul_0_r by done. done.
  - exists h, s. destruct (span_in_block h s Hs) as (_ & _ & _ & _ & Hal). unfold span_end. split_and!; [done|lia|lia|done].
Qed.

(** Blocks of the user do not overlap. *)
Lemma user_disjoint x y n m : U !! x = Some n -> U !! y = Some m -> x <> y -> x + n <= y \/ y + m <= x.
Proof.
  intros Hx Hy Hne. pose proof (ai_heap (id_inv Hid)) as Hinv.
  assert (Hsl : forall x n i c y m h s, own !! x = Some (i, OUser) -> class_size i = Some c -> n <= c ->
            A !! h = Some s -> sp_class_index s = kInvalidSizeClass -> sp_start s = y -> m <= sp_bytes s ->
            x + n <= y \/ y + m <= x).
  { clear x y n m Hx Hy Hne. intros x n i c y m h s Ho Hc Hn Hs Hcl <- Hm.
    destruct (proj1 (ai_own (id_inv Hid) x i) ltac:(eauto)) as (h' & s' & Hs' & Hb & Hob).
    assert (h <> h') by (intros <-; simplify_eq; by eapply invalid_not_bound).
    pose proof (active_disjoint _ _ _ _ h h' s s' Hinv Hs Hs' ltac:(done)) as Hd.
    pose proof (bound_extent _ _ _ Hb Hob). assert (c = sp_object_size s') as -> by (destruct Hb; congruence).
    unfold span_end in *. lia. }
  destruct (uo_block _ _ _ Hu x n Hx) as [(i & c & Ho & Hc & Hn)|(h & s & Hs & Hcl & Hst & Hn & _)];
    destruct (uo_block _ _ _ Hu y m Hy) as [(j & d & Ho' & Hd & Hm)|(h' & s' & Hs' & Hcl' & Hst' & Hm & _)].
  - destruct (owned_disjoint Hinv (ai_own (id_inv Hid)) x y i j _ _ c d Ho Ho' Hc Hd Hne); lia.
  - by eapply Hsl.
  - destruct (Hsl y m j d x n h s); auto.
  - assert (h <> h') by (intros <-; simplify_eq).
    pose proof (active_disjoint _ _ _ _ h h' s s' Hinv Hs Hs' ltac:(done)) as Hd. unfold span_end in *. lia.
Qed.

Lemma user_nonzero : U !! 0 = None.
Proof.
  destruct (U !! 0) as [n|] eqn:Hx; [|done]. destruct (user_block_span 0 n Hx) as (h & s & Hs & Hle & _).
  destruct (span_in_block h s Hs) as (_ & _ & _ & Hpos & _). lia.
Qed.
End user.

(** ** Large blocks *)
Lemma idle_large a A C live own H' A' C' live' :
  idle a A C live own -> heap_inv H' A' C' live' -> shape_inv A' -> (forall j, same_spans j A A') ->
  idle (set_heap H' a) A' C' live' own.
Proof.
  intros [Hai Hset Hs Hl] Hinv Hsh Hsp. split; try done. split; try done; [| |apply Hai].
  - intros x j. rewrite (ai_own Hai x j). split; intros (h & s & Hs' & Hb & Ho); exists h, s; (split; [by apply (Hsp j)|done]).
  - intros i o Hi. eapply part_ok_keeps; [|by apply (ai_parts Hai i o Hi)]. split; try done. by destruct o.
Qed.

Lemma same_spans_insert A h s j :
  A !! h = None -> sp_class_index s = kInvalidSizeClass -> same_spans j A (<[h := s]> A).
Proof.
  intros HA Hc h' s' Hb. rewrite lookup_insert_Some. split.
  - intros [[_ <-]|[_ ?]]; [by apply (invalid_not_bound s j) in Hb|done].
  - intros Hs'. right. split; [congruence|done].
Qed.

Lemma same_spans_delete A h s j :
  A !! h = Some s -> sp_class_index s = kInvalidSizeClass -> same_spans j A (delete h A).
Proof.
  intros HA Hc h' s' Hb. rewrite lookup_delete_Some. split; [by intros []|].
  intros Hs'. split; [|done]. intros <-. simplify_eq. by apply (invalid_not_bound s j) in Hb.
Qed.

(** The pages of a large request hold it, or the request is too large for the system. *)
Lemma large_pages size :
  8192 < size < 2 ^ 64 ->
  let n := ceil_div size kPageSize in
  0 <= n /\ (n = 0 <-> 2 ^ 64 - kPageSize < size) /\ (n <> 0 -> size <= n * kPageSize /\ page_count_ok n = true).
Proof.
  intros Hs n.
  assert (Hn : n = if 2 ^ 64 - kPageSize <? size then 0 else (size + 8191) / 8192).
  { unfold n, ceil_div, kPageSize. change (8 * 1024) with 8192.
    destruct (Z.ltb_spec (2 ^ 64 - 8192) size) as [Hb|Hb].
    - assert (Hw : wrap 64 (size + 8192) = size + 8192 - 2 ^ 64).
      { unfold wrap. symmetry. apply (Z.mod_unique_pos _ _ 1); lia. }
      rewrite Hw, wrap_id by (unfold fits; lia). apply Z.div_small. lia.
    - destruct (decide (size = 2 ^ 64 - 8192)) as [->|]; [vm_compute; done|].
      rewrite (wrap_id 64 (size + 8192)) by (unfold fits; lia). rewrite wrap_id by (unfold fits; lia). f_equal. lia. }
  unfold kPageSize in *. change (8 * 1024) with 8192 in *. rewrite Hn.
  destruct (Z.ltb_spec (2 ^ 64 - 8192) size); [split_and!; lia|].
  pose proof (Z.div_mod (size + 8191) 8192 ltac:(lia)) as Hd. pose proof (Z.mod_pos_bound (size + 8191) 8192 ltac:(lia)).
  set (q := (size + 8191) / 8192) in *. split_and!; [lia|lia|]. intros _. split; [lia|].
  apply page_count_ok_spec; [lia|]. unfold kPageSize, u64_max. change (8 * 1024) with 8192.
  assert ((2 ^ 64 - 1) / 8192 = 2 ^ 51 - 1) as -> by reflexivity. lia.
Qed.

Definition request_bytes (size : Z) : Z :=
  if is_small size then 64 * 1024 else ceil_div size kPageSize * kPageSize.

(** [size == 0 ? 1 : size] *)
Definition request (size : Z) : Z := if size =? 0 then 1 else size.

(** A large block does not begin with an object. *)
Lemma object_not_large a A C live own p i o h s :
  idle a A C live own -> own !! p = Some (i, o) -> A !! h = Some s -> sp_class_index s = kInvalidSizeClass ->
  sp_start s <> p.
Proof.
  intros Hid Hp Hs Hcl <-. pose proof (ai_heap (id_inv Hid)) as Hinv.
  destruct (proj1 (ai_own (id_inv Hid) _ i) ltac:(eauto)) as (h' & s' & Hs' & Hb & Hob).
  assert (contains (sp_start s) s = true).
  { destruct (rp_A (hi_rep _ _ _ _ Hinv) _ _ Hs) as [Ho _]. pose proof (rep_ok (hi_rep _ _ _ _ Hinv) _ _ Ho) as [].
    unfold contains, span_end, kPageSize in *. lia. }
  assert (h = h') as <- by (eapply (span_unique _ _ _ _ h h' s s' _ Hinv); eauto using bound_contains).
  simplify_eq. by eapply invalid_not_bound.
Qed.

Section malloc_spec.
Context `{!IterOrder Z (list nat)}.
Context {a : Allocator} {A C : gmap nat Span} {live : gmap Z Z} {own : ownership} {U : gmap Z Z} {t : nat}.
Context (Hid : idle a A C live own) (Hu : user_ok U own A).

(** The user takes a small object. *)
Lemma user_ok_small p i c n mem' A' own1 :
  block_frame (a_mem a) A own mem' A' own1 -> own1 !! p = Some (i, OHeld) -> class_size i = Some c -> n <= c ->
  user_ok (<[p := n]> U) (move [p] i OUser own1) A'.
Proof.
  intros Hbf Hp Hc Hn. pose proof (user_ok_frame _ _ _ _ _ _ _ Hbf Hu) as [Hb Hs Hl]. split.
  - intros x m [[<- <-]|[Hne Hx]]%lookup_insert_Some.
    + left. exists i, c. rewrite lookup_move, decide_True by left. done.
    + destruct (Hb x m Hx) as [(j & d & Ho & ?)|?]; [left|by right]. exists j, d. split; [|done].
      rewrite lookup_move, decide_False; [done|]. by intros ->%list_elem_of_singleton.
  - intros x j. rewrite lookup_move. case_decide as Hx.
    + apply list_elem_of_singleton in Hx as ->. rewrite lookup_insert_eq. done.
    + intros [m Hm]%Hs. rewrite lookup_insert_ne; [by eexists|]. intros ->. apply Hx. left.
  - intros h s Hs' Hcl. destruct (Hl h s Hs' Hcl) as [m Hm].
    destruct (decide (p = sp_start s)) as [->|]; [rewrite lookup_insert_eq|rewrite lookup_insert_ne by done]; by eexists.
Qed.

(** The user takes a large span. *)
Lemma user_ok_large h s a' C' live' n :
  idle a' (<[h := s]> A) C' live' own -> A !! h = None -> sp_class_index s = kInvalidSizeClass -> n <= sp_bytes s ->
  is_small n = false -> U !! sp_start s = None /\ user_ok (<[sp_start s := n]> U) own (<[h := s]> A).
Proof.
  intros Hid' HA Hcl Hn Hsn.
  assert (Hs : <[h := s]> A !! h = Some s) by apply lookup_insert_eq.
  assert (Hnew : U !! sp_start s = None).
  { destruct (U !! sp_start s) as [m|] eqn:Hm; [|done]. exfalso.
    destruct (uo_block _ _ _ Hu _ m Hm) as [(i & c & Ho & _)|(h' & s' & Hs' & _ & Hst & _)].
    - by eapply (object_not_large _ _ _ _ _ (sp_start s) i OUser h s Hid').
    - assert (Hs1 : <[h := s]> A !! h' = Some s') by (rewrite lookup_insert_ne; [done|congruence]).
      pose proof (active_disjoint _ _ _ _ h h' s s' (ai_heap (id_inv Hid')) Hs Hs1 ltac:(congruence)) as Hd.
      pose proof (rep_A_ok (hi_rep _ _ _ _ (ai_heap (id_inv Hid')))) as Hok.
      pose proof (Hok _ _ Hs) as []. pose proof (Hok _ _ Hs1) as []. unfold span_end, kPageSize in *. lia. }
  split; [done|]. destruct Hu as [Hb Hsm Hl]. split.
  - intros x m [[<- <-]|[Hne Hx]]%lookup_insert_Some; [right; exists h, s; done|].
    destruct (Hb x m Hx) as [?|(h' & s' & Hs' & ?)]; [by left|right]. exists h', s'.
    rewrite lookup_insert_ne by congruence. done.
  - intros x i [m Hx]%Hsm. rewrite lookup_insert_ne by congruence. by eexists.
  - intros h' s' [[<- <-]|[_ Hs']]%lookup_insert_Some Hc'; [rewrite lookup_insert_eq; by eexists|].
    destruct (Hl h' s' Hs' Hc') as [m Hm]. rewrite lookup_insert_ne by congruence. by eexists.
Qed.

(** The outcome of [mini_malloc]. *)
Definition malloc_post (size : Z) (answer : option Z) (p : Z) (acts : list SysAction) (a' : Allocator) : Prop :=
  exists live', sys_run acts live = Some live' /\ (forall y, in_block U y -> a_mem a' !! y = a_mem a !! y) /\
  if p =? 0 then (answer = None \/ 2 ^ 64 - kPageSize < size) /\ acts = [] /\ alloc_ok a' live' U
  else U !! p = None /\ alloc_ok a' live' (<[p := request size]> U).

Lemma malloc_small answer size :
  is_small size = true -> fresh_answer answer (64 * 1024) live ->
  exists p acts a', Thread.allocate answer t size a = Some (p, acts, a') /\ malloc_post size answer p acts a'.
Proof.
  intros Hsm Hf. assert (Hrq : request size = size).
  { unfold request. destruct (Z.eqb_spec size 0) as [->|]; [done|done]. }
  destruct (allocate_spec (t := t) answer size a A C own Hid Hsm Hf)
    as [(a' & -> & -> & Hid' & Hm)|(p & i & c & acts & a' & -> & Hc & Hle & Hal)].
  - exists 0, [], a'. split; [done|]. exists live. split; [done|]. split; [by rewrite Hm|]. simpl. split; [by left|].
    split; [done|]. by exists A, C, own.
  - destruct Hal as (A' & C' & live' & own1 & Hrun & Hid' & Hp & Hbf & Hp0). exists p, acts, a'. split; [done|].
    exists live'. split; [done|]. split; [intros y Hy; eapply bf_mem, in_block_use; done|].
    destruct (Z.eqb_spec p 0) as [|_]; [done|].
    pose proof (user_ok_frame _ _ _ _ _ _ _ Hbf Hu) as Hu1.
    rewrite Hrq. split; [|exists A', C', (move [p] i OUser own1); split; [done|by eapply user_ok_small]].
    destruct (U !! p) as [n|] eqn:Hn; [|done]. exfalso.
    destruct (uo_block _ _ _ Hu1 p n Hn) as [(j & d & Ho & _)|(h & s & Hs & Hcl & Hst & _)]; [congruence|].
    eapply (object_not_large _ _ _ _ _ p i OUser h s Hid'); [|done|done|done].
    rewrite lookup_move, decide_True by left. done.
Qed.

Lemma malloc_large answer size :
  8192 < size < 2 ^ 64 -> fresh_answer answer (ceil_div size kPageSize * kPageSize) live ->
  exists p acts a', mini_malloc answer t size a = Some (p, acts, a') /\ malloc_post size answer p acts a'.
Proof.
  intros Hs Hf. unfold mini_malloc. destruct (Z.eqb_spec size 0) as [|_]; [lia|].
  assert (Hrq : request size = size) by (unfold request; destruct (Z.eqb_spec size 0); lia).
  assert (Hsm : is_small size = false) by (unfold is_small, kMaxSmallSize; lia). rewrite Hsm. simpl.
  destruct (large_pages size Hs) as (Hn0 & Hnz & Hn). set (n := ceil_div size kPageSize) in *.
  destruct (new_span_spec _ _ _ _ n answer (ai_heap (id_inv Hid)) Hn0 ltac:(intros m Hm _; by apply Hf))
    as (r & acts & H1 & -> & Hr). simpl. destruct r as [h|].
  2:{ destruct Hr as (-> & -> & Hnone). exists 0, [], a. assert (set_heap (a_heap a) a = a) as -> by (by destruct a).
      split; [done|]. exists live. split; [done|]. split; [done|]. simpl. split; [|split; [done|by exists A, C, own]].
      destruct (decide (n = 0)) as [Hz|Hz]; [right; by apply Hnz|left]. by apply Hnone, Hn. }
  destruct Hr as (s & C' & live' & Hinv1 & HA & Hpc & Hb & Hrun & _).
  assert (Hs1 : <[h := s]> A !! h = Some s) by apply lookup_insert_eq.
  destruct (rp_A (hi_rep _ _ _ _ Hinv1) _ _ Hs1) as [Hobj _]. pose proof (rep_ok (hi_rep _ _ _ _ Hinv1) _ _ Hobj) as Hok.
  rewrite Hobj. simpl. set (s' := with_object_info _ _ _ _ s).
  pose proof (heap_update_active _ _ _ _ h s s' Hinv1 Hs1 ltac:(by destruct s)) as Hinv2. rewrite insert_insert_eq in Hinv2.
  assert (Hid2 : idle (set_heap (update_object h s' H1) a) (<[h := s']> A) C' live' own).
  { eapply idle_large; [exact Hid|done| |intros j; by apply same_spans_insert].
    intros h' s0 [[<- <-]|[_ ?]]%lookup_insert_Some; [by left|]. by eapply (ai_shape (id_inv Hid)). }
  eexists _, acts, _. split; [done|]. exists live'. split; [done|]. split; [done|].
  destruct (Z.eqb_spec (sp_start s) 0) as [Hz|_]; [destruct Hok; unfold kPageSize in *; lia|]. rewrite Hrq.
  destruct (user_ok_large h s' _ _ _ size Hid2 HA) as [? ?]; [done| |done|].
  { change (sp_bytes s') with (sp_bytes s). rewrite Hb. apply Hn. intros Hz. destruct Hok. lia. }
  split; [done|]. by exists (<[h := s']> A), C', own.
Qed.
Lemma malloc_spec answer size :
  0 <= size < 2 ^ 64 -> fresh_answer answer (request_bytes (request size)) live ->
  exists p acts a', mini_malloc answer t size a = Some (p, acts, a') /\ malloc_post size answer p acts a'.
Proof.
  intros Hs Hf. destruct (is_small (request size)) eqn:Hsm.
  - unfold request_bytes in Hf. rewrite Hsm in Hf.
    destruct (malloc_small answer (request size) Hsm Hf) as (p & acts & a' & He & Hp).
    exists p, acts, a'. unfold mini_malloc. fold (request size). rewrite Hsm. split; [done|].
    unfold malloc_post in *. assert (request (request size) = request size) as Hrr.
    { unfold request. destruct (Z.eqb_spec size 0) as [->|Hz]; [done|]. by destruct (Z.eqb_spec size 0). }
    rewrite Hrr in Hp. destruct Hp as (live' & ? & ? & Hp). exists live'. split_and!; [done|done|].
    destruct (Z.eqb_spec p 0); [|done]. destruct Hp as ([?|Hlt] & ? & ?); [by auto|].
    unfold is_small, kMaxSmallSize, kPageSize in *. lia.
  - assert (8192 < size).
    { unfold request, is_small, kMaxSmallSize in Hsm. destruct (Z.eqb_spec size 0); lia. }
    unfold request_bytes in Hf. rewrite Hsm in Hf.
    assert (Hrq : request size = size) by (unfold request; destruct (Z.eqb_spec size 0); lia). rewrite Hrq in Hf.
    apply malloc_large; [lia|done].
Qed.

(** ** [mini_free] *)
Lemma user_ok_free_small p i :
  own !! p = Some (i, OUser) -> user_ok (delete p U) (move [p] i OHeld own) A.
Proof.
  intros Hp. destruct Hu as [Hb Hs Hl]. split.
  - intros x n [Hne Hx]%lookup_delete_Some. destruct (Hb x n Hx) as [(j & c & Ho & ?)|?]; [left|by right].
    exists j, c. split; [|done]. rewrite lookup_move, decide_False; [done|]. by intros ->%list_elem_of_singleton.
  - intros x j. rewrite lookup_move. case_decide as Hx; [done|]. intros Ho%Hs. rewrite lookup_delete_ne; [done|].
    intros ->. apply Hx. left.
  - intros h s Hs' Hc. rewrite lookup_delete_ne; [by eapply Hl|].
    intros Heq. by apply (object_not_large _ _ _ _ _ p i OUser h s Hid).
Qed.

Lemma user_ok_free_large h s :
  A !! h = Some s -> sp_class_index s = kInvalidSizeClass -> user_ok (delete (sp_start s) U) own (delete h A).
Proof.
  intros Hs Hc. destruct Hu as [Hb Hsm Hl]. split.
  - intros x n [Hne Hx]%lookup_delete_Some. destruct (Hb x n Hx) as [?|(h' & s' & Hs' & ? & ? & ? & ?)]; [by left|right].
    exists h', s'. rewrite lookup_delete_ne; [done|]. intros <-. simplify_eq.
  - intros x i Hx. rewrite lookup_delete_ne; [by eapply Hsm|].
    by apply (object_not_large _ _ _ _ _ x i OUser h s Hid).
  - intros h' s' [Hne Hs']%lookup_delete_Some Hc'. rewrite lookup_delete_ne; [by eapply Hl|].
    intros Heq. pose proof (active_disjoint _ _ _ _ h h' s s' (ai_heap (id_inv Hid)) Hs Hs' ltac:(done)) as Hd.
    pose proof (rep_A_ok (hi_rep _ _ _ _ (ai_heap (id_inv Hid)))) as Hok.
    pose proof (Hok _ _ Hs) as []. pose proof (Hok _ _ Hs') as []. unfold span_end, kPageSize in *. lia.
Qed.

(** The span [mini_free] works on. *)
Lemma free_span p h s :
  A !! h = Some s -> contains p s = true ->
  p <> 0 /\ map_object_to_span p (a_heap a) = Some (Some h) /\ objects (a_heap a) !! h = Some s.
Proof.
  intros Hs Hc. pose proof (ai_heap (id_inv Hid)) as Hinv. split_and!.
  - intros ->. pose proof (rep_A_ok (hi_rep _ _ _ _ Hinv) _ _ Hs) as []. unfold contains, kPageSize in *. lia.
  - destruct (map_object_spec _ _ _ _ p Hinv) as (r & -> & Hr). f_equal. apply Hr. eauto.
  - by apply (rp_A (hi_rep _ _ _ _ Hinv)) in Hs as [? _].
Qed.

Lemma valid_object s i p :
  bound s i -> 1 <= sp_start s -> contains p s = true ->
  is_valid_small_object_pointer s p = true <-> (p - sp_start s) mod sp_object_size s = 0.
Proof.
  intros Hb Hst Hc. pose proof (class_size_range _ _ (bo_size _ _ Hb)) as [Hr _].
  unfold is_valid_small_object_pointer, contains in *.
  destruct (Z.eqb_spec p 0); [lia|]. destruct (Z.eqb_spec (sp_object_size s) 0); [lia|]. simpl.
  destruct (Z.ltb_spec p (sp_start s)); [lia|]. destruct (Z.leb_spec (span_end s) p); [lia|]. simpl.
  apply Z.eqb_eq.
Qed.

Definition free_post (p n : Z) (a' : Allocator) : Prop :=
  alloc_ok a' live (delete p U) /\ (forall y, in_block (delete p U) y -> a_mem a' !! y = a_mem a !! y) /\
  (is_small n = true -> th_cached_bytes (Thread.current t a') <= th_limit (Thread.current t a')).

Lemma free_spec p n :
  U !! p = Some n -> exists a', mini_free t p a = Some a' /\ free_post p n a'.
Proof.
  intros Hp. unfold mini_free.
  destruct (uo_block _ _ _ Hu p n Hp) as [(i & c & Ho & Hc & Hn)|(h & s & Hs & Hcl & Hst & Hn & Hsmall)].
  - destruct (proj1 (ai_own (id_inv Hid) p i) ltac:(eauto)) as (h & s & Hs & Hb & Hob).
    pose proof (bound_contains _ _ _ Hb Hob) as Hcon. destruct (free_span p h s Hs Hcon) as (Hp0 & Hmap & Hobj).
    destruct (Z.eqb_spec p 0) as [|_]; [done|]. rewrite Hmap. simpl. rewrite Hobj. simpl.
    destruct (Z.eqb_spec (sp_class_index s) kInvalidSizeClass) as [Hcl|_]; [by eapply invalid_not_bound in Hb|]. simpl.
    destruct (span_in_block Hid h s Hs) as (_ & _ & _ & Hpos & _).
    rewrite (proj2 (valid_object s i p Hb ltac:(lia) Hcon)).
    2:{ destruct Hob as (k & _ & ->). replace (sp_start s + k * sp_object_size s - sp_start s) with (k * sp_object_size s) by lia.
        apply Z.mod_mul. pose proof (class_size_range _ _ (bo_size _ _ Hb)). lia. }
    simpl. destruct (deallocate_spec (t := t) p i (sp_object_size s) a A C own Hid Ho (bo_size _ _ Hb))
      as (a' & A' & C' & own' & -> & Hid' & Hbf & Hlim).
    exists a'. split; [done|]. pose proof (user_ok_free_small p i Ho) as Hu1. split; [|split; [|done]].
    + exists A', C', own'. split; [done|]. by eapply user_ok_frame.
    + intros y Hy. eapply bf_mem; [done|]. by eapply in_block_use.
  - subst p. assert (Hcon : contains (sp_start s) s = true).
    { pose proof (rep_A_ok (hi_rep _ _ _ _ (ai_heap (id_inv Hid))) _ _ Hs) as []. unfold contains, span_end, kPageSize in *. lia. }
    destruct (free_span _ h s Hs Hcon) as (Hp0 & Hmap & Hobj).
    destruct (Z.eqb_spec (sp_start s) 0) as [|_]; [done|]. rewrite Hmap. simpl. rewrite Hobj. simpl.
    rewrite Hcl, Z.eqb_refl. simpl. rewrite Z.eqb_refl. simpl.
    destruct (release_span_spec _ _ _ _ h s (ai_heap (id_inv Hid)) Hs) as (H1 & C1 & -> & Hinv1). simpl.
    eexists. split; [done|]. split; [|split; [done|congruence]]. exists (delete h A), C1, own. split; [|by apply user_ok_free_large].
    eapply idle_large; [exact Hid|done| |intros j; by eapply same_spans_delete].
    eapply shape_inv_sub; [apply delete_subseteq|apply (ai_shape (id_inv Hid))].
Qed.

(** Pointers that are not blocks are ignored: the null pointer, an address no block of the
    system contains, and an address inside a block of the user. *)
Lemma free_ignored p :
  p = 0 \/ (forall b n, live !! b = Some n -> ~ b <= p < b + n) \/ (in_block U p /\ U !! p = None) ->
  mini_free t p a = Some a.
Proof.
  intros Hp. unfold mini_free. destruct (Z.eqb_spec p 0) as [|Hp0]; [done|].
  pose proof (ai_heap (id_inv Hid)) as Hinv.
  destruct Hp as [|[Hout|[(x & n & Hx & Hr) Hn]]]; [done| |].
  - destruct (map_object_spec _ _ _ _ p Hinv) as (r & -> & Hm). simpl. destruct r as [h|]; [|done].
    destruct (proj1 (Hm h) eq_refl) as (s & Hs & Hc). destruct (span_in_block Hid h s Hs) as (Hl & ? & ? & _).
    exfalso. eapply Hout; [exact Hl|]. unfold contains in Hc. lia.
  - destruct (uo_block _ _ _ Hu x n Hx) as [(i & c & Ho & Hc & Hle)|(h & s & Hs & Hcl & Hst & Hle & _)].
    + destruct (proj1 (ai_own (id_inv Hid) x i) ltac:(eauto)) as (h & s & Hs & Hb & Hob).
      pose proof (bound_extent _ _ _ Hb Hob). assert (c = sp_object_size s) as -> by (destruct Hb; congruence).
      assert (Hcon : contains p s = true) by (unfold contains; lia).
      destruct (free_span p h s Hs Hcon) as (_ & -> & Hobj). simpl. rewrite Hobj. simpl.
      destruct (Z.eqb_spec (sp_class_index s) kInvalidSizeClass) as [Hcl|_]; [by eapply invalid_not_bound in Hb|]. simpl.
      destruct (span_in_block Hid h s Hs) as (_ & _ & _ & Hpos & _).
      destruct (is_valid_small_object_pointer s p) eqn:Hv; [|done]. exfalso.
      apply (valid_object s i p Hb ltac:(lia) Hcon) in Hv. destruct Hob as (k & Hk & Hxk).
      rewrite <- (Z.mod_unique_pos (p - sp_start s) (sp_object_size s) k (p - x)) in Hv by lia.
      assert (p = x) as -> by lia. congruence.
    + assert (Hcon : contains p s = true) by (unfold contains, span_end; lia).
      destruct (free_span p h s Hs Hcon) as (_ & -> & Hobj). simpl. rewrite Hobj. simpl.
      rewrite Hcl, Z.eqb_refl. simpl. destruct (Z.eqb_spec p (sp_start s)) as [->|]; [|done]. congruence.
Qed.
End malloc_spec.

(** ** Executions *)

(** The calls of the threads of a program; [Store] is a write of the user into a block. *)
Inductive call : Type :=
  | Malloc (t : nat) (size : Z) (answer : option Z)
  | Free (t : nat) (ptr : Z)
  | ReleaseAll (t : nat)
  | SetLimit (t : nat) (bytes : Z)
  | DrainAll
  | PurgeCached
  | Store (y v : Z).

Section exec.
Context `{!IterOrder Z (list nat)}.

Definition exec (c : call) (a : Allocator) : option (Z * list SysAction * Allocator) :=
  match c with
  | Malloc t size answer => mini_malloc answer t size a
  | Free t p => a ← mini_free t p a; Some (0, [], a)
  | ReleaseAll t => a ← Thread.release_all t a; Some (0, [], a)
  | SetLimit t n => a ← Thread.set_cache_limit_bytes t n a; Some (0, [], a)
  | DrainAll => a ← TransferCache.drain_all (seq 0 kNumClasses) a; Some (0, [], a)
  | PurgeCached => r ← purge_cached_spans (a_heap a); Some (r.1.1, r.1.2, set_heap r.2 a)
  | Store y v => Some (0, [], set_mem (<[y := v]> (a_mem a)) a)
  end.

(** What the user holds after a call with result [p]. *)
Definition user_after (c : call) (p : Z) (U : gmap Z Z) : gmap Z Z :=
  match c with
  | Malloc _ size _ => if p =? 0 then U else <[p := request size]> U
  | Free _ q => delete q U
  | _ => U
  end.

(** The contract of the callers and of [operator new]: only blocks of the user are freed and
    written, and memory from the system is fresh. *)
Definition legal (c : call) (live U : gmap Z Z) : Prop :=
  match c with
  | Malloc _ size answer => 0 <= size < 2 ^ 64 /\ fresh_answer answer (request_bytes (request size)) live
  | Free _ p => p = 0 \/ is_Some (U !! p)
  | Store y _ => in_block U y
  | _ => True
  end.

Definition is_store (c : call) : bool := match c with Store _ _ => true | _ => false end.

Lemma idle_store y v a A C live own :
  idle a A C live own -> in_use own A y -> idle (set_mem (<[y := v]> (a_mem a)) a) A C live own.
Proof.
  intros [Hai Hset Hs Hl] Hy. split; try done. split; try apply Hai. intros i o Hi.
  destruct (decide (o = OUser)) as [->|Ho]; [done|].
  eapply part_ok_keeps; [|by apply (ai_parts Hai i o Hi)]. split; try done; [by destruct o|].
  intros x Hx. simpl. apply lookup_insert_ne. intros ->.
  by eapply (owned_not_in_use (ai_heap Hai) (ai_own Hai) x i o).
Qed.

(** Calls that neither give nor take blocks. *)
Lemma internal_call U a a' live live' A C own A' C' own' :
  idle a A C live own -> user_ok U own A ->
  idle a' A' C' live' own' -> block_frame (a_mem a) A own (a_mem a') A' own' ->
  alloc_ok a' live' U /\ forall y, in_block U y -> a_mem a' !! y = a_mem a !! y.
Proof.
  intros Hid Hu Hid' Hbf. split; [exists A', C', own'; split; [done|by eapply user_ok_frame]|].
  intros y Hy. eapply bf_mem; [done|]. by eapply in_block_use.
Qed.

Lemma drain_idle a A C live own :
  idle a A C live own ->
  exists a' A' C' own', TransferCache.drain_all (seq 0 kNumClasses) a = Some a' /\ idle a' A' C' live own' /\
    block_frame (a_mem a) A own (a_mem a') A' own' /\ a_threads a' = a_threads a /\
    forall i cls, a_transfer a' !! i = Some cls -> (i < kNumClasses)%nat -> cls = mkTransfer [] 0.
Proof.
  intros [Hai Hset Hs Hl].
  destruct (drain_all_spec (seq 0 kNumClasses) a A C live own seq_classes Hai Hset)
    as (a' & A' & C' & own' & He & Hai' & Hbf & Hset' & Ht & Htr).
  assert (Hcur : forall t, Thread.current t a' = Thread.current t a) by (intros; by apply current_threads).
  exists a', A', C', own'. split; [done|]. split.
  { split; [done|done| |].
    - intros t. eapply short_current; [apply Hcur|done].
    - intros t. by rewrite Hcur. }
  split; [done|]. split; [done|]. intros i cls Hc Hi. eapply Htr; [done|]. left. apply elem_of_seq. lia.
Qed.

Lemma exec_spec c a live U :
  alloc_ok a live U -> legal c live U ->
  exists p acts a' live', exec c a = Some (p, acts, a') /\ sys_run acts live = Some live' /\
    alloc_ok a' live' (user_after c p U) /\
    (is_store c = false -> forall y, in_block U y -> in_block (user_after c p U) y -> a_mem a' !! y = a_mem a !! y).
Proof.
  intros (A & C & own & Hid & Hu) Hleg. destruct c as [t size answer|t p|t|t n| | |y v].
  - destruct Hleg as [Hs Hf]. destruct (malloc_spec (t := t) Hid Hu answer size Hs Hf)
      as (p & acts & a' & He & live' & Hrun & Hm & Hp).
    exists p, acts, a', live'. split; [done|]. split; [done|]. split; [|intros _ y Hy _; by apply Hm]. simpl.
    destruct (p =? 0); apply Hp.
  - assert (Hex : exists a', mini_free t p a = Some a' /\ alloc_ok a' live (delete p U) /\
              forall y, in_block (delete p U) y -> a_mem a' !! y = a_mem a !! y).
    { destruct Hleg as [->|[n Hn]].
      - exists a. rewrite (free_ignored Hid Hu 0) by (by left). split; [done|].
        rewrite delete_id by (by eapply user_nonzero). split; [by exists A, C, own|done].
      - destruct (free_spec (t := t) Hid Hu p n Hn) as (a' & He & Hok & Hm & _). eauto. }
    destruct Hex as (a' & He & Hok & Hm). exists 0, [], a', live. cbn [exec]. rewrite He. simpl. split_and!; auto.
  - destruct (release_all_spec (t := t) a A C own Hid) as (a' & A' & C' & own' & He & Hid' & Hbf & _).
    exists 0, [], a', live. cbn [exec]. rewrite He. simpl.
    destruct (internal_call U a a' live live A C own A' C' own' Hid Hu Hid' Hbf). split_and!; auto.
  - destruct (set_cache_limit_spec (t := t) n a A C own Hid) as (a' & A' & C' & own' & He & Hid' & Hbf & _).
    exists 0, [], a', live. cbn [exec]. rewrite He. simpl.
    destruct (internal_call U a a' live live A C own A' C' own' Hid Hu Hid' Hbf). split_and!; auto.
  - destruct (drain_idle a A C live own Hid) as (a' & A' & C' & own' & He & Hid' & Hbf & _).
    exists 0, [], a', live. cbn [exec]. rewrite He. simpl.
    destruct (internal_call U a a' live live A C own A' C' own' Hid Hu Hid' Hbf). split_and!; auto.
  - destruct (purge_spec _ _ _ _ (ai_heap (id_inv Hid))) as (acts & H' & C' & live' & He & Hinv' & Hrun & _).
    exists (Z.of_nat (length acts)), acts, (set_heap H' a), live'. cbn [exec]. rewrite He. split; [done|]. split; [done|].
    destruct (internal_call U a (set_heap H' a) live live' A C own A C' own Hid Hu); [|apply block_frame_refl|split_and!; auto].
    eapply idle_large; [exact Hid|done|apply (ai_shape (id_inv Hid))|done].
  - exists 0, [], (set_mem (<[y := v]> (a_mem a)) a), live. split_and!; try done.
    exists A, C, own. split; [|done]. apply idle_store; [done|]. by eapply in_block_use.
Qed.
Lemma alloc_ok_init : alloc_ok alloc_init ∅ ∅.
Proof.
  assert (Hcur : forall t, Thread.current t alloc_init = thread_init) by done.
  assert (Hrep : represents ∅ fl_init []) by (split; try done; constructor).
  assert (Hpl : forall i o, place ∅ i o []) by (intros i o x; split; [by intros ?%not_elem_of_nil|done]).
  exists ∅, ∅, ∅. split; [|by split]. split; [split| | |].
  - apply heap_inv_init.
  - done.
  - intros x i. split; [by intros [o ?]|by intros (h & s & ? & _)].
  - intros i o Hi. destruct o as [| |t| | |]; try done.
    + exists (mkCentral fl_init [] 0), []. split; [by apply lookup_replicate_2|]. split; [|done]. split; try done; [constructor|].
      intros h. split; [by intros ?%not_elem_of_nil|by intros (s & ? & _)].
    + exists (mkTransfer [] 0), []. split; [by apply lookup_replicate_2|]. split; try done; constructor.
    + exists fl_init, []. rewrite Hcur. split; [by apply lookup_replicate_2|]. by split.
  - intros t. rewrite Hcur. by split.
  - split; intros x j; (split; [done|by intros [_ ?%not_elem_of_nil]]).
  - intros t j Hj. unfold list_size. rewrite Hcur. rewrite (lookup_replicate_2 kNumClasses fl_init) by done. simpl.
    destruct (batch_count_range j Hj) as (b & Hb & Hr). exists b. split; [done|lia].
  - intros t. rewrite Hcur. simpl. unfold kDefaultThreadCacheLimit. lia.
Qed.

Fixpoint alloc_run (cs : list call) (a : Allocator) (live U : gmap Z Z) : option (Allocator * gmap Z Z * gmap Z Z) :=
  match cs with
  | [] => Some (a, live, U)
  | c :: cs =>
      r ← exec c a;
      let '(p, acts, a) := r in
      live ← sys_run acts live;
      alloc_run cs a live (user_after c p U)
  end.

(** Every call of the execution is legal where it is made. *)
Fixpoint legal_run (cs : list call) (a : Allocator) (live U : gmap Z Z) : Prop :=
  match cs with
  | [] => True
  | c :: cs => legal c live U /\
      forall p acts a' live', exec c a = Some (p, acts, a') -> sys_run acts live = Some live' ->
        legal_run cs a' live' (user_after c p U)
  end.

Lemma alloc_run_ok cs a live U :
  alloc_ok a live U -> legal_run cs a live U ->
  exists a' live' U', alloc_run cs a live U = Some (a', live', U') /\ alloc_ok a' live' U'.
Proof.
  revert a live U. induction cs as [|c cs IH]; intros a live U Hok Hleg; [simpl; eauto|].
  destruct Hleg as [Hc Hleg]. destruct (exec_spec c a live U Hok Hc) as (p & acts & a1 & live1 & He & Hrun & Hok1 & _).
  cbn [alloc_run]. rewrite He. simpl. rewrite Hrun. simpl. eauto.
Qed.

(** The blocks of the user in a state the allocator can be in. *)
Definition blocks_ok (live U : gmap Z Z) : Prop :=
  (forall x y n m, U !! x = Some n -> U !! y = Some m -> x <> y -> x + n <= y \/ y + m <= x) /\
  (forall x n, U !! x = Some n -> 0 < x /\ x mod kAlignment = 0 /\
     exists b k, live !! b = Some k /\ b <= x /\ x + n <= b + k).

Lemma alloc_ok_blocks a live U : alloc_ok a live U -> blocks_ok live U.
Proof.
  intros (A & C & own & Hid & Hu). split; [by eapply user_disjoint|]. intros x n Hx.
  destruct (user_block_span Hid Hu x n Hx) as (h & s & Hs & Hle & Hend & Hal).
  destruct (span_in_block Hid h s Hs) as (Hl & Hb & He & Hpos & _). split; [lia|]. split; [done|].
  eexists _, _. split; [exact Hl|]. lia.
Qed.

(** [C3] The allocator is safe: from the empty state, every sequence of calls of any number of
    threads that frees and writes only blocks it holds runs to the end - no assertion fails,
    no stale span or list pointer is followed, no block is returned to the system that is not
    live - and at the end the blocks the user holds are pairwise disjoint, 8-byte aligned and
    inside blocks of the system. *)
Theorem allocator_safe cs :
  legal_run cs alloc_init ∅ ∅ ->
  exists a live U, alloc_run cs alloc_init ∅ ∅ = Some (a, live, U) /\ blocks_ok live U /\ alloc_ok a live U.
Proof.
  intros Hleg. destruct (alloc_run_ok cs _ _ _ alloc_ok_init Hleg) as (a & live & U & Hrun & Hok).
  exists a, live, U. split; [done|]. split; [by eapply alloc_ok_blocks|done].
Qed.

(** [C38] [mini_malloc] on every branch: it returns the null pointer only when the system has no
    memory or the size is within a page of 2^64, and then asks the system for nothing and
    changes no block; otherwise the block of the requested size is new, disjoint from every
    block the user holds, and no word of those blocks is written. *)
Theorem mini_malloc_block a live U t size answer :
  alloc_ok a live U -> 0 <= size < 2 ^ 64 -> fresh_answer answer (request_bytes (request size)) live ->
  exists p acts a' live', mini_malloc answer t size a = Some (p, acts, a') /\ sys_run acts live = Some live' /\
    (forall y, in_block U y -> a_mem a' !! y = a_mem a !! y) /\
    if p =? 0 then (answer = None \/ 2 ^ 64 - kPageSize < size) /\ acts = [] /\ alloc_ok a' live U
    else alloc_ok a' live' (<[p := request size]> U) /\ p mod kAlignment = 0 /\
      forall x n, U !! x = Some n -> x + n <= p \/ p + request size <= x.
Proof.
  intros (A & C & own & Hid & Hu) Hs Hf.
  destruct (malloc_spec (t := t) Hid Hu answer size Hs Hf) as (p & acts & a' & He & live' & Hrun & Hm & Hp).
  exists p, acts, a', live'. split_and!; [done|done|done|]. destruct (p =? 0).
  - destruct Hp as (? & -> & ?). simpl in Hrun. injection Hrun as <-. done.
  - destruct Hp as [Hn Hok]. split; [done|]. destruct (alloc_ok_blocks _ _ _ Hok) as [Hd Hb].
    destruct (Hb p (request size) (lookup_insert_eq _ _ _)) as (_ & Hal & _). split; [done|].
    intros x n Hx. apply (Hd x p); [rewrite lookup_insert_ne by congruence; done|apply lookup_insert_eq|congruence].
Qed.

(** [mini_free] of a block of the user succeeds, gives the block up, writes no word of
    another block, and leaves the thread's cache within its limit when the block was small;
    the null pointer, an address outside the blocks of the system and an address inside a
    block are ignored. *)
Theorem mini_free_block a live U t p :
  alloc_ok a live U ->
  match U !! p with
  | Some n => exists a', mini_free t p a = Some a' /\ alloc_ok a' live (delete p U) /\
      (forall y, in_block (delete p U) y -> a_mem a' !! y = a_mem a !! y) /\
      (is_small n = true -> th_cached_bytes (Thread.current t a') <= th_limit (Thread.current t a'))
  | None => p = 0 \/ (forall b k, live !! b = Some k -> ~ b <= p < b + k) \/ in_block U p ->
      mini_free t p a = Some a
  end.
Proof.
  intros (A & C & own & Hid & Hu). destruct (U !! p) as [n|] eqn:Hp.
  - destruct (free_spec (t := t) Hid Hu p n Hp) as (a' & He & Hok & Hm & Hl). eauto 10.
  - intros Hcase. apply (free_ignored Hid Hu). tauto.
Qed.

(** ** Nothing is lost *)
Fixpoint release_threads (ts : list nat) (a : Allocator) : option Allocator :=
  match ts with
  | [] => Some a
  | t :: ts => a ← Thread.release_all t a; release_threads ts a
  end.

Definition emptied (t : nat) (a : Allocator) : Prop := forall j, (j < kNumClasses)%nat -> list_size t a j = 0.

Lemma release_threads_spec ts a A C live own U :
  idle a A C live own -> user_ok U own A ->
  exists a' A' C' own', release_threads ts a = Some a' /\ idle a' A' C' live own' /\ user_ok U own' A' /\
    forall t, t ∈ ts \/ emptied t a -> emptied t a'.
Proof.
  revert a A C own. induction ts as [|t ts IH]; intros a A C own Hid Hu; simpl.
  - exists a, A, C, own. split_and!; try done. by intros t [?%not_elem_of_nil|?].
  - destruct (release_all_spec (t := t) a A C own Hid) as (a1 & A1 & C1 & own1 & -> & Hid1 & Hbf & Hz & Hoth). simpl.
    destruct (IH a1 A1 C1 own1 Hid1 (user_ok_frame _ _ _ _ _ _ _ Hbf Hu)) as (a2 & A2 & C2 & own2 & -> & Hid2 & Hu2 & Hem).
    exists a2, A2, C2, own2. split_and!; try done. intros t' Ht'. apply Hem.
    destruct (decide (t' = t)) as [->|Hne]; [by right|]. destruct Ht' as [[->|?]%elem_of_cons|Ht']; [done|by left|right].
    intros j Hj. unfold list_size. rewrite Hoth by done. by apply Ht'.
Qed.

(** With nothing outside the central lists, no span is active. *)
Lemma nothing_active a A C live own :
  idle a A C live own -> user_ok ∅ own A -> (forall t, emptied t a) ->
  (forall i cls, a_transfer a !! i = Some cls -> (i < kNumClasses)%nat -> cls = mkTransfer [] 0) -> A = ∅.
Proof.
  intros [Hai [Hh Hd] _ _] Hu Ht Htr. apply map_empty. intros h. destruct (A !! h) as [s|] eqn:Hs; [|done]. exfalso.
  destruct (ai_shape Hai _ _ Hs) as [Hcl|[i Hb]]; [destruct (uo_large _ _ _ Hu h s Hs Hcl) as [? ?]; done|].
  pose proof (class_size_range _ _ (bo_size _ _ Hb)) as [_ Hi].
  destruct (ai_parts Hai i OCentral Hi) as (cls & l & _ & [Hr Hp Hc _ _] & Hnf). specialize (Hnf h s Hs Hb).
  assert (Hall : objs s ⊆+ matching (fun x => contains x s) l).
  { apply NoDup_submseteq; [by eapply NoDup_objs|]. intros x Hx. apply elem_of_objs in Hx.
    apply list_elem_of_filter. split; [by eapply bound_contains|]. apply Hp.
    destruct (proj2 (ai_own Hai x i) ltac:(eauto)) as [o Ho]. destruct o as [| |t| | |].
    - done.
    - destruct (ai_parts Hai i OTransfer Hi) as (c & ls & Hcls & [Hrs _ Hp' _]).
      rewrite (Htr i c Hcls Hi) in Hrs. apply Forall2_nil_inv_l in Hrs as ->. apply Hp' in Ho. by apply not_elem_of_nil in Ho.
    - destruct (ai_parts Hai i (OThread t) Hi) as (fl & lt & Hfl & [Hr' Hp' _]). apply Hp' in Ho.
      specialize (Ht t i Hi). unfold list_size in Ht. rewrite Hfl, (re_size _ _ _ Hr') in Ht.
      apply zlen_zero in Ht as ->. by apply not_elem_of_nil in Ho.
    - by apply Hh in Ho as [_ ?%not_elem_of_nil].
    - by apply Hd in Ho as [_ ?%not_elem_of_nil].
    - destruct (uo_small _ _ _ Hu x i Ho) as [? ?]. done. }
  apply submseteq_length in Hall. pose proof (length_objs s ltac:(destruct Hb; lia)) as Hlen.
  rewrite (Hc _ _ Hs Hb) in Hnf. unfold zlen in *. lia.
Qed.

(** [C4] Nothing is lost: when the user holds no block, the threads that used the allocator have
    released their caches and the transfer cache is drained, no page is in use any more: all
    the memory taken from the system is cached in the page heap. *)
Theorem allocator_no_leak a live ts :
  alloc_ok a live ∅ -> (forall t, is_Some (a_threads a !! t) -> t ∈ ts) ->
  exists a1 a2, release_threads ts a = Some a1 /\ TransferCache.drain_all (seq 0 kNumClasses) a1 = Some a2 /\
    active_bytes (a_heap a2) = 0 /\ spans (a_heap a2) = [] /\ system_bytes (a_heap a2) = cached_bytes (a_heap a2).
Proof.
  intros (A & C & own & Hid & Hu) Hts.
  destruct (release_threads_spec ts a A C live own ∅ Hid Hu) as (a1 & A1 & C1 & own1 & He1 & Hid1 & Hu1 & Hem).
  destruct (drain_idle a1 A1 C1 live own1 Hid1) as (a2 & A2 & C2 & own2 & He2 & Hid2 & Hbf & Ht & Htr).
  exists a1, a2. split; [done|]. split; [done|].
  assert (Hem2 : forall t, emptied t a2).
  { intros t j Hj. unfold list_size. rewrite (current_threads t _ _ Ht). apply Hem; [|done].
    destruct (a_threads a !! t) as [c|] eqn:Hc; [left; apply Hts; by eexists|right].
    intros k Hk. unfold list_size, Thread.current. rewrite Hc. simpl.
    by rewrite (lookup_replicate_2 kNumClasses fl_init). }
  pose proof (nothing_active a2 A2 C2 live own2 Hid2 (user_ok_frame _ _ _ _ _ _ _ Hbf Hu1) Hem2 Htr) as ->.
  pose proof (ai_heap (id_inv Hid2)) as Hinv. destruct (rp_active (hi_rep _ _ _ _ Hinv)) as [_ Hsp _ Hb].
  assert (Hz : active_bytes (a_heap a2) = 0) by (by rewrite Hb). split; [done|]. split.
  - destruct (spans (a_heap a2)) as [|h l]; [done|]. destruct (proj1 (Hsp h) ltac:(left)) as [? ?]. done.
  - rewrite (inv_counters _ _ _ _ Hinv), Hz. lia.
Qed.
End exec.

(** ** Witnesses *)
Module MallocDemo.
#[local] Instance demo_order : IterOrder Z (list nat) := canonical_order.

(** Two threads: a block of a size class and a large one, a write, and both freed by the
    thread that did not allocate them. *)
Definition demo : list call :=
  [Malloc 0 8000 (Some 65536); Malloc 1 20000 (Some 131072); Store 65544 7; Free 1 65536; Free 0 131072].

(** A check of [legal_run] that can be evaluated. *)
Definition freshb (m n : Z) (live : gmap Z Z) : bool :=
  (0 <? m) && (m mod kPageSize =? 0) && (m + n <=? 2 ^ 64) &&
  forallb (fun bk => (bk.1 + bk.2 <=? m) || (m + n <=? bk.1)) (map_to_list live).

Definition legalb (c : call) (live U : gmap Z Z) : bool :=
  match c with
  | Malloc _ size answer => (0 <=? size) && (size <? 2 ^ 64) &&
      match answer with Some m => freshb m (request_bytes (request size)) live | None => true end
  | Free _ p => (p =? 0) || bool_decide (is_Some (U !! p))
  | Store y _ => existsb (fun xn => (xn.1 <=? y) && (y <? xn.1 + xn.2)) (map_to_list U)
  | _ => true
  end.

Fixpoint legal_runb (cs : list call) (a : Allocator) (live U : gmap Z Z) : bool :=
  match cs with
  | [] => true
  | c :: cs => legalb c live U &&
      match exec c a with
      | Some (p, acts, a') =>
          match sys_run acts live with
          | Some live' => legal_runb cs a' live' (user_after c p U)
          | None => true
          end
      | None => true
      end
  end.

Lemma freshb_sound m n live : freshb m n live = true -> fresh_answer (Some m) n live.
Proof.
  unfold freshb. rewrite !andb_true_iff, forallb_forall. intros [[[H1 H2] H3] H4] m' [= <-].
  split_and!; [lia|lia|lia|]. intros b k Hbk.
  specialize (H4 (b, k) (proj1 (list_elem_of_In _ _) (proj2 (elem_of_map_to_list _ _ _) Hbk))). simpl in H4. lia.
Qed.

Lemma legalb_sound c live U : legalb c live U = true -> legal c live U.
Proof.
  destruct c as [t size answer|t p|t|t n| | |y v]; simpl; try done.
  - rewrite !andb_true_iff. intros [[H1 H2] H3]. split; [lia|]. destruct answer; [by apply freshb_sound|done].
  - rewrite orb_true_iff, bool_decide_eq_true. intros [?|?]; [left; lia|by right].
  - rewrite existsb_exists. intros ([x n] & Hin & Hr). exists x, n. simpl in Hr. split; [|lia].
    by apply elem_of_map_to_list, list_elem_of_In.
Qed.

Lemma legal_runb_sound cs a live U : legal_runb cs a live U = true -> legal_run cs a live U.
Proof.
  revert a live U. induction cs as [|c cs IH]; intros a live U; simpl; [done|].
  rewrite andb_true_iff. intros [H1 H2]. split; [by apply legalb_sound|].
  intros p acts a' live' He Hr. rewrite He, Hr in H2. by apply IH.
Qed.

Lemma demo_legal : legal_run demo alloc_init ∅ ∅.
Proof. apply legal_runb_sound. vm_compute. reflexivity. Qed.

Lemma allocator_safe_witness :
  exists a live U, alloc_run demo alloc_init ∅ ∅ = Some (a, live, U) /\ blocks_ok live U.
Proof.
  destruct (allocator_safe demo demo_legal) as (a & live & U & Hr & Hb & _).
  exists a, live, U. split; [exact Hr|exact Hb].
Defined.

Lemma mini_malloc_block_witness :
  exists p acts a', mini_malloc (Some 65536) 0 100 alloc_init = Some (p, acts, a').
Proof.
  destruct (mini_malloc_block alloc_init ∅ ∅ 0 100 (Some 65536)) as (p & acts & a' & live' & He & _).
  - apply alloc_ok_init.
  - lia.
  - apply freshb_sound. vm_compute. reflexivity.
  - exists p, acts, a'. exact He.
Defined.

(** The state in which both blocks are held. *)
Lemma held_ok : exists a live U, alloc_ok a live U /\ U !! 65536 = Some 8000.
Proof.
  destruct (alloc_run_ok (take 3 demo) alloc_init ∅ ∅ alloc_ok_init) as (a & live & U & Hr & Hok).
  - apply legal_runb_sound. vm_compute. reflexivity.
  - exists a, live, U. split; [exact Hok|].
    assert (Hc : match alloc_run (take 3 demo) alloc_init ∅ ∅ with Some (_, _, U) => U !! 65536 | None => None end = Some 8000)
      by (vm_compute; reflexivity).
    by rewrite Hr in Hc.
Qed.

Lemma mini_free_block_witness :
  exists a live U a', alloc_ok a live U /\ U !! 65536 = Some 8000 /\ mini_free 1 65536 a = Some a' /\
    alloc_ok a' live (delete 65536 U).
Proof.
  destruct held_ok as (a & live & U & Hok & HU).
  pose proof (mini_free_block a live U 1 65536 Hok) as Hf. rewrite HU in Hf.
  destruct Hf as (a' & He & Hok' & _). exists a, live, U, a'.
  split; [exact Hok|]. split; [exact HU|]. split; [exact He|exact Hok'].
Defined.

Lemma demo_end : exists a live, alloc_run demo alloc_init ∅ ∅ = Some (a, live, ∅) /\ alloc_ok a live ∅ /\
  forall t, is_Some (a_threads a !! t) -> t ∈ [0; 1]%nat.
Proof.
  destruct (alloc_run_ok demo alloc_init ∅ ∅ alloc_ok_init demo_legal) as (a & live & U & Hr & Hok).
  assert (Hc : match alloc_run demo alloc_init ∅ ∅ with
               | Some (a, _, U) => bool_decide (U = ∅) && forallb (fun tc => bool_decide (tc.1 ∈ [0; 1]%nat)) (map_to_list (a_threads a))
               | None => false end = true) by (vm_compute; reflexivity).
  rewrite Hr, andb_true_iff, bool_decide_eq_true, forallb_forall in Hc. destruct Hc as [-> Ht].
  exists a, live. split; [done|]. split; [done|]. intros t [c Hc].
  specialize (Ht (t, c) (proj1 (list_elem_of_In _ _) (proj2 (elem_of_map_to_list _ _ _) Hc))). by apply bool_decide_eq_true in Ht.
Qed.

Lemma allocator_no_leak_witness :
  exists a live a1 a2, alloc_run demo alloc_init ∅ ∅ = Some (a, live, ∅) /\ release_threads [0; 1]%nat a = Some a1 /\
    TransferCache.drain_all (seq 0 kNumClasses) a1 = Some a2 /\ active_bytes (a_heap a2) = 0.
Proof.
  destruct demo_end as (a & live & Hr & Hok & Ht).
  destruct (allocator_no_leak a live [0; 1]%nat Hok Ht) as (a1 & a2 & H1 & H2 & H3 & _).
  exists a, live, a1, a2. split; [exact Hr|]. split; [exact H1|]. split; [exact H2|exact H3].
Defined.
End MallocDemo.
