(* ===== verification/ObjectPool.v ===== *)
(** The object pool: myring/include/objectpool/ObjectPool.hpp.

    Threads run [try_make], [destroy] and [prewarm] access by access: every atomic access of a
    counter, and every call of the allocator, is a step.  Blocks of memory are numbers; freeing one
    that is not allocated, and an assertion that fails, is [None].  The class [PoolEnv] is the
    allocator and says which constructors throw. *)
From S2P Require Import Prelude.

Class PoolEnv := {
  pool_malloc : gset Z -> nat -> option Z;
  pool_malloc_fresh : forall used t p, pool_malloc used t = Some p -> p ∉ used;
  ctor_ok : nat -> bool;
  reserve_ok : nat -> bool;
}.

(** Where a thread is; the block or object it holds. *)
Inductive PoolPC :=
| PIdle
| PMakeLoad                       (* [cur = alive_count_.load()] *)
| PMakeCas (cur : Z)              (* [compare_exchange_weak(cur, cur + 1)] *)
| PRejected                       (* [limit_rejected_.fetch_add(1)] *)
| PMalloc                         (* [mini_malloc(sizeof(T))] *)
| PConstruct (mem : Z)            (* [new (mem) T(...)] *)
| PUndo (mem : Z)                 (* [mini_free(mem)] after an exception *)
| PGiveUp                         (* [release_alive_slot()] after a failure *)
| PFailed                         (* [allocation_failed_.fetch_add(1)] *)
| PCount (obj : Z)                (* [created_count_.fetch_add(1)] *)
| PPeakAlive (obj : Z)            (* [alive = alive_count_.load()] *)
| PPeakLoad (obj alive : Z)       (* [peak = peak_alive_count_.load()] *)
| PPeakCas (obj alive peak : Z)   (* [compare_exchange_weak(peak, alive)] *)
| PFree (obj : Z)                 (* the object is destroyed, [mini_free(obj)] *)
| PUncount                        (* [destroyed_count_.fetch_add(1)] *)
| PRelease                        (* [release_alive_slot()] *)
| PReserve (n : nat)              (* [blocks.reserve(count)] *)
| PWarm (n : nat) (blocks : list Z)
| PCool (ok : bool) (blocks : list Z)
| PWarmFailed.                    (* [prewarm_failed_.fetch_add(1)] *)

#[global] Instance PoolPC_eq_dec : EqDecision PoolPC.
Proof. solve_decision. Defined.

Record ObjectPool := mkPool {
  po_max_alive : Z;
  po_created : Z;
  po_destroyed : Z;
  po_alive : Z;
  po_peak_alive : Z;
  po_allocation_failed : Z;
  po_limit_rejected : Z;
  po_prewarm_failed : Z;
  po_blocks : gset Z;
  po_objects : gset Z;     (* the objects the callers have *)
  po_threads : list PoolPC;
  po_time : nat;
}.

Definition new_pool (max_alive : Z) (threads : nat) : ObjectPool :=
  mkPool max_alive 0 0 0 0 0 0 0 ∅ ∅ (replicate threads PIdle) 0.

Section pool.
Context `{PoolEnv}.

Definition inc (z : Z) : Z := wrap 64 (z + 1).

Definition set_counts (created destroyed alive peak failed rejected warm : Z) (p : ObjectPool) : ObjectPool :=
  mkPool (po_max_alive p) created destroyed alive peak failed rejected warm (po_blocks p) (po_objects p) (po_threads p) (po_time p).

Definition set_blocks (b o : gset Z) (p : ObjectPool) : ObjectPool :=
  mkPool (po_max_alive p) (po_created p) (po_destroyed p) (po_alive p) (po_peak_alive p) (po_allocation_failed p)
    (po_limit_rejected p) (po_prewarm_failed p) b o (po_threads p) (po_time p).

Definition add_created p := set_counts (inc (po_created p)) (po_destroyed p) (po_alive p) (po_peak_alive p)
  (po_allocation_failed p) (po_limit_rejected p) (po_prewarm_failed p) p.
Definition add_destroyed p := set_counts (po_created p) (inc (po_destroyed p)) (po_alive p) (po_peak_alive p)
  (po_allocation_failed p) (po_limit_rejected p) (po_prewarm_failed p) p.
Definition set_alive a p := set_counts (po_created p) (po_destroyed p) a (po_peak_alive p)
  (po_allocation_failed p) (po_limit_rejected p) (po_prewarm_failed p) p.
Definition set_peak k p := set_counts (po_created p) (po_destroyed p) (po_alive p) k
  (po_allocation_failed p) (po_limit_rejected p) (po_prewarm_failed p) p.
Definition add_failed p := set_counts (po_created p) (po_destroyed p) (po_alive p) (po_peak_alive p)
  (inc (po_allocation_failed p)) (po_limit_rejected p) (po_prewarm_failed p) p.
Definition add_rejected p := set_counts (po_created p) (po_destroyed p) (po_alive p) (po_peak_alive p)
  (po_allocation_failed p) (inc (po_limit_rejected p)) (po_prewarm_failed p) p.
Definition add_warm_failed p := set_counts (po_created p) (po_destroyed p) (po_alive p) (po_peak_alive p)
  (po_allocation_failed p) (po_limit_rejected p) (inc (po_prewarm_failed p)) p.

(** [mini_free] *)
Definition pool_free (b : Z) (p : ObjectPool) : option ObjectPool :=
  if decide (b ∈ po_blocks p) then Some (set_blocks (po_blocks p ∖ {[b]}) (po_objects p) p) else None.

(** [release_alive_slot], with its assertion. *)
Definition release_alive_slot (p : ObjectPool) : option ObjectPool :=
  if 0 <? po_alive p then Some (set_alive (wrap 64 (po_alive p - 1)) p) else None.

(** The end of [update_peak_alive] and of [try_make]: the caller has the object. *)
Definition made (obj : Z) (p : ObjectPool) : PoolPC * ObjectPool :=
  (PIdle, set_blocks (po_blocks p) ({[obj]} ∪ po_objects p) p).

(** One access of a thread. *)
Definition pool_access (pc : PoolPC) (p : ObjectPool) : option (PoolPC * ObjectPool) :=
  match pc with
  | PIdle => Some (PIdle, p)
  | PMakeLoad =>
      if po_max_alive p =? 0 then Some (PMalloc, set_alive (inc (po_alive p)) p)
      else if po_max_alive p <=? po_alive p then Some (PRejected, p) else Some (PMakeCas (po_alive p), p)
  | PMakeCas cur =>
      if po_alive p =? cur then Some (PMalloc, set_alive (wrap 64 (cur + 1)) p)
      else if po_max_alive p <=? po_alive p then Some (PRejected, p) else Some (PMakeCas (po_alive p), p)
  | PRejected => Some (PIdle, add_rejected p)
  | PMalloc =>
      match pool_malloc (po_blocks p) (po_time p) with
      | Some mem => Some (PConstruct mem, set_blocks ({[mem]} ∪ po_blocks p) (po_objects p) p)
      | None => Some (PGiveUp, p)
      end
  | PConstruct mem => Some (if ctor_ok (po_time p) then PCount mem else PUndo mem, p)
  | PUndo mem => p ← pool_free mem p; Some (PGiveUp, p)
  | PGiveUp => p ← release_alive_slot p; Some (PFailed, p)
  | PFailed => Some (PIdle, add_failed p)
  | PCount obj => Some (PPeakAlive obj, add_created p)
  | PPeakAlive obj => Some (PPeakLoad obj (po_alive p), p)
  | PPeakLoad obj alive =>
      Some (if po_peak_alive p <? alive then (PPeakCas obj alive (po_peak_alive p), p) else made obj p)
  | PPeakCas obj alive peak =>
      Some (if po_peak_alive p =? peak then made obj (set_peak alive p)
            else if po_peak_alive p <? alive then (PPeakCas obj alive (po_peak_alive p), p) else made obj p)
  | PFree obj => p ← pool_free obj p; Some (PUncount, p)
  | PUncount => Some (PRelease, add_destroyed p)
  | PRelease => p ← release_alive_slot p; Some (PIdle, p)
  | PReserve n => Some (if reserve_ok (po_time p) then PWarm n [] else PWarmFailed, p)
  | PWarm 0 blocks => Some (PCool true blocks, p)
  | PWarm (S n) blocks =>
      match pool_malloc (po_blocks p) (po_time p) with
      | Some b => Some (PWarm n (blocks ++ [b]), set_blocks ({[b]} ∪ po_blocks p) (po_objects p) p)
      | None => Some (PCool false blocks, p)
      end
  | PCool ok (b :: blocks) => p ← pool_free b p; Some (PCool ok blocks, p)
  | PCool ok [] => Some (if ok then PIdle else PWarmFailed, p)
  | PWarmFailed => Some (PIdle, add_warm_failed p)
  end.

Definition set_thread (t : nat) (pc : PoolPC) (p : ObjectPool) : ObjectPool :=
  mkPool (po_max_alive p) (po_created p) (po_destroyed p) (po_alive p) (po_peak_alive p) (po_allocation_failed p)
    (po_limit_rejected p) (po_prewarm_failed p) (po_blocks p) (po_objects p) (<[t := pc]> (po_threads p)) (S (po_time p)).

(** A thread makes its next access or calls an operation.  Only an object that the callers have
    can be destroyed. *)
Inductive PoolEvent := EvAccess (t : nat) | EvTryMake (t : nat) | EvDestroy (t : nat) (obj : Z) | EvPrewarm (t n : nat).

Definition pool_event (e : PoolEvent) (p : ObjectPool) : option ObjectPool :=
  match e with
  | EvAccess t =>
      match po_threads p !! t with
      | Some pc => '(pc, p) ← pool_access pc p; Some (set_thread t pc p)
      | None => Some p
      end
  | EvTryMake t => Some (if decide (po_threads p !! t = Some PIdle) then set_thread t PMakeLoad p else p)
  | EvDestroy t obj =>
      Some (if decide (po_threads p !! t = Some PIdle /\ obj ∈ po_objects p)
            then set_thread t (PFree obj) (set_blocks (po_blocks p) (po_objects p ∖ {[obj]}) p) else p)
  | EvPrewarm t n => Some (if decide (po_threads p !! t = Some PIdle) then set_thread t (PReserve n) p else p)
  end.

Fixpoint pool_run (es : list PoolEvent) (p : ObjectPool) : option ObjectPool :=
  match es with
  | [] => Some p
  | e :: es => p ← pool_event e p; pool_run es p
  end.

(** The accesses [prewarm] makes at most from a point of it on. *)
Definition warm_steps (pc : PoolPC) : option nat :=
  match pc with
  | PReserve n => Some (2 * n + 4)%nat
  | PWarm n blocks => Some (2 * n + length blocks + 3)%nat
  | PCool _ blocks => Some (length blocks + 2)%nat
  | PWarmFailed => Some 1%nat
  | PIdle => Some 0%nat
  | _ => None
  end.

(** The constructor: before other threads have the pool, [prewarm] is called, and a failure counts
    once more. *)
Definition pool_construct (max_alive : Z) (prewarm_on_construct : bool) (prewarm_count threads : nat) : option ObjectPool :=
  let p := new_pool max_alive (S threads) in
  if prewarm_on_construct && (0 <? prewarm_count)%nat then
    p ← pool_run (EvPrewarm 0 prewarm_count :: replicate (2 * prewarm_count + 4) (EvAccess 0)) p;
    Some (if po_prewarm_failed p =? 0 then p else add_warm_failed p)
  else Some p.

(** ** Who has what *)

(** The thread has reserved a place for an object. *)
Definition slots (pc : PoolPC) : nat :=
  match pc with
  | PMalloc | PConstruct _ | PUndo _ | PGiveUp | PCount _ | PPeakAlive _ | PPeakLoad _ _ | PPeakCas _ _ _
  | PFree _ | PUncount | PRelease => 1
  | _ => 0
  end.

(** The object of the thread is in [created_count_] and not yet in [destroyed_count_]. *)
Definition counted (pc : PoolPC) : nat :=
  match pc with PPeakAlive _ | PPeakLoad _ _ | PPeakCas _ _ _ | PFree _ | PUncount => 1 | _ => 0 end.

(** The blocks of the thread. *)
Definition held (pc : PoolPC) : list Z :=
  match pc with
  | PConstruct b | PUndo b | PCount b | PPeakAlive b | PPeakLoad b _ | PPeakCas b _ _ | PFree b => [b]
  | PWarm _ bs | PCool _ bs => bs
  | _ => []
  end.

(** The values the thread has loaded. *)
Definition pc_ok (max : Z) (pc : PoolPC) : Prop :=
  match pc with
  | PMakeCas cur => cur < max
  | PPeakLoad _ alive | PPeakCas _ alive _ => max <> 0 -> alive <= max
  | _ => True
  end.

Definition own_ok (blocks : gset Z) (l : list Z) : Prop := NoDup l /\ blocks = list_to_set l.

Lemma own_ok_perm blocks l l' : own_ok blocks l -> l ≡ₚ l' -> own_ok blocks l'.
Proof. intros [Hnd ->] Hp. split; [by rewrite <- Hp|by apply list_to_set_perm_L]. Qed.

Lemma own_ok_malloc blocks b l : own_ok blocks l -> b ∉ blocks -> own_ok ({[b]} ∪ blocks) (b :: l).
Proof. intros [Hnd ->] Hb. split; [|done]. apply NoDup_cons. split; [set_solver|done]. Qed.

Lemma own_ok_free blocks b l : own_ok blocks (b :: l) -> b ∈ blocks /\ own_ok (blocks ∖ {[b]}) l.
Proof. intros [Hnd ->]. apply NoDup_cons in Hnd as [Hb Hnd]. split; [set_solver|]. split; [done|set_solver]. Qed.

(** The pool as one thread sees it: the others have [S] slots, [C] counted objects and the blocks
    [L]; [n] bounds the number of slots. *)
Record pool_ok (n S C : nat) (L : list Z) (pc : PoolPC) (p : ObjectPool) : Prop := mkPoolOk {
  pk_max : fits 64 (po_max_alive p);
  pk_alive : po_alive p = Z.of_nat (size (po_objects p) + slots pc + S);
  pk_limit : po_max_alive p <> 0 -> po_alive p <= po_max_alive p;
  pk_bound : po_alive p <= Z.of_nat n < 2 ^ 64;
  pk_count : wrap 64 (po_created p - po_destroyed p) = wrap 64 (Z.of_nat (size (po_objects p) + counted pc + C));
  pk_own : own_ok (po_blocks p) (elements (po_objects p) ++ held pc ++ L);
  pk_pc : pc_ok (po_max_alive p) pc;
  pk_peak : po_max_alive p <> 0 -> po_peak_alive p <= po_max_alive p;
}.

(** What the other threads do not see. *)
Definition same_frame (p p' : ObjectPool) : Prop :=
  po_max_alive p' = po_max_alive p /\ po_threads p' = po_threads p /\ po_time p' = po_time p.

Lemma wrap_count a b : wrap 64 (inc a - b) = wrap 64 (a - b + 1) /\ wrap 64 (a - inc b) = wrap 64 (a - b - 1).
Proof.
  unfold inc, wrap. rewrite Zminus_mod_idemp_l, Zminus_mod_idemp_r. split; f_equal; lia.
Qed.

Lemma made_ok n S C L obj p :
  pool_ok n S C L (PPeakAlive obj) p -> pool_ok n S C L (made obj p).1 (made obj p).2.
Proof.
  intros [H1 H2 H3 H4 H5 H6 H7 H8]. cbn in *. assert (Hnew : obj ∉ po_objects p).
  { destruct H6 as [Hnd _]. apply NoDup_app in Hnd as (_ & Hdis & _). intros Hin. apply (Hdis obj); set_solver. }
  assert (Hsize : size ({[obj]} ∪ po_objects p) = Datatypes.S (size (po_objects p))).
  { rewrite size_union by set_solver. by rewrite size_singleton. }
  split; cbn; rewrite ?Hsize; try done.
  - rewrite H2. lia.
  - rewrite H5. f_equal. lia.
  - eapply own_ok_perm; [exact H6|]. rewrite elements_union_singleton by done. cbn. by rewrite <- Permutation_middle.
Qed.

Lemma pool_ok_more n n' S C L pc p : pool_ok n S C L pc p -> (n <= n')%nat -> Z.of_nat n' < 2 ^ 64 -> pool_ok n' S C L pc p.
Proof. intros [] Hn Hn'. split; try done. lia. Qed.

(** The thread goes on without a change of what it has. *)
Lemma pool_ok_pc n S C L pc pc' p :
  pool_ok n S C L pc p -> slots pc' = slots pc -> counted pc' = counted pc -> held pc' = held pc ->
  pc_ok (po_max_alive p) pc' -> pool_ok n S C L pc' p.
Proof. intros [] Hs Hc Hh Hok. split; try done; by rewrite ?Hs, ?Hc, ?Hh. Qed.

(** A counter that is only a statistic. *)
Lemma pool_ok_stats n S C L pc p failed rejected warm :
  pool_ok n S C L pc p ->
  pool_ok n S C L pc (set_counts (po_created p) (po_destroyed p) (po_alive p) (po_peak_alive p) failed rejected warm p).
Proof. intros []. by split. Qed.

(** A slot is taken. *)
Lemma pool_ok_acquire n S C L pc a p :
  pool_ok n S C L pc p -> slots pc = 0%nat -> counted pc = 0%nat -> held pc = [] ->
  (po_max_alive p <> 0 -> po_alive p < po_max_alive p) -> Z.of_nat (n + 1) < 2 ^ 64 -> a = po_alive p + 1 ->
  pool_ok (n + 1) S C L PMalloc (set_alive (wrap 64 a) p).
Proof.
  intros [H1 H2 H3 H4 H5 H6 H7 H8] Hs Hc Hh Hlt Hn ->. rewrite Hs in H2. rewrite Hc in H5. rewrite Hh in H6.
  assert (Hw : wrap 64 (po_alive p + 1) = po_alive p + 1) by (apply wrap_id; unfold fits; lia).
  split; cbn; rewrite ?Hw; try done; lia.
Qed.

(** A slot is given back. *)
Lemma pool_ok_release n S C L pc pc' p :
  pool_ok n S C L pc p -> slots pc = 1%nat -> slots pc' = 0%nat -> counted pc = 0%nat -> counted pc' = 0%nat ->
  held pc = [] -> held pc' = [] -> pc_ok (po_max_alive p) pc' ->
  exists p', release_alive_slot p = Some p' /\ pool_ok n S C L pc' p' /\ same_frame p p'.
Proof.
  intros [H1 H2 H3 H4 H5 H6 H7 H8] Hs Hs' Hc Hc' Hh Hh' Hok. rewrite Hs in H2. rewrite Hc in H5. rewrite Hh in H6.
  unfold release_alive_slot. rewrite (proj2 (Z.ltb_lt _ _)) by lia. eexists. split; [done|]. split; [|done].
  assert (Hw : wrap 64 (po_alive p - 1) = po_alive p - 1) by (apply wrap_id; unfold fits; lia).
  split; cbn; rewrite ?Hw, ?Hs', ?Hc', ?Hh'; try done; try lia.
Qed.

Lemma pool_ok_malloc n S C L pc pc' b p :
  pool_ok n S C L pc p -> b ∉ po_blocks p -> slots pc' = slots pc -> counted pc' = counted pc ->
  held pc' ≡ₚ b :: held pc -> pc_ok (po_max_alive p) pc' ->
  pool_ok n S C L pc' (set_blocks ({[b]} ∪ po_blocks p) (po_objects p) p).
Proof.
  intros [H1 H2 H3 H4 H5 H6 H7 H8] Hb Hs Hc Hh Hok. split; cbn; rewrite ?Hs, ?Hc; try done.
  eapply own_ok_perm; [by apply own_ok_malloc|]. rewrite Hh. cbn. by rewrite Permutation_middle.
Qed.

Lemma pool_ok_free n S C L pc pc' b p :
  pool_ok n S C L pc p -> slots pc' = slots pc -> counted pc' = counted pc -> held pc = b :: held pc' ->
  pc_ok (po_max_alive p) pc' ->
  exists p', pool_free b p = Some p' /\ pool_ok n S C L pc' p' /\ same_frame p p'.
Proof.
  intros [H1 H2 H3 H4 H5 H6 H7 H8] Hs Hc Hh Hok. rewrite Hh in H6. cbn in H6.
  apply (own_ok_perm _ _ (b :: elements (po_objects p) ++ held pc' ++ L)) in H6; [|by rewrite <- Permutation_middle].
  apply own_ok_free in H6 as [Hb H6]. unfold pool_free. rewrite decide_True by done. eexists. split; [done|]. split; [|done].
  split; cbn; rewrite ?Hs, ?Hc; done.
Qed.

(** An access ends well. *)
Definition leads (n S C : nat) (L : list Z) (p : ObjectPool) (r : option (PoolPC * ObjectPool)) : Prop :=
  exists pc' p', r = Some (pc', p') /\ pool_ok n S C L pc' p' /\ same_frame p p'.

Lemma leads_to n S C L p pc' p' : pool_ok n S C L pc' p' -> same_frame p p' -> leads n S C L p (Some (pc', p')).
Proof. intros. by exists pc', p'. Qed.

Lemma leads_made n S C L p obj p' :
  pool_ok n S C L (PPeakAlive obj) p' -> same_frame p p' -> leads n S C L p (Some (made obj p')).
Proof. intros Hp Hf. eapply (leads_to _ _ _ _ _ (made obj p').1); [by apply made_ok|done]. Qed.

Lemma leads_free n S C L pc pc' b p :
  pool_ok n S C L pc p -> slots pc' = slots pc -> counted pc' = counted pc -> held pc = b :: held pc' ->
  pc_ok (po_max_alive p) pc' -> leads n S C L p (p ← pool_free b p; Some (pc', p)).
Proof. intros Hp Hs Hc Hh Hok. destruct (pool_ok_free _ _ _ _ _ _ _ _ Hp Hs Hc Hh Hok) as (p' & -> & ? & ?). by apply leads_to. Qed.

Lemma leads_release n S C L pc pc' p :
  pool_ok n S C L pc p -> slots pc = 1%nat -> counted pc = 0%nat -> held pc = [] ->
  slots pc' = 0%nat -> counted pc' = 0%nat -> held pc' = [] -> pc_ok (po_max_alive p) pc' ->
  leads n S C L p (p ← release_alive_slot p; Some (pc', p)).
Proof.
  intros Hp Hs Hc Hh Hs' Hc' Hh' Hok.
  destruct (pool_ok_release _ _ _ _ _ _ _ Hp Hs Hs' Hc Hc' Hh Hh' Hok) as (p' & -> & ? & ?). by apply leads_to.
Qed.

(** An object is counted when it is made, and when it is destroyed. *)
Lemma pool_ok_created n S C L obj p : pool_ok n S C L (PCount obj) p -> pool_ok n S C L (PPeakAlive obj) (add_created p).
Proof.
  intros [H1 H2 H3 H4 H5 H6 H7 H8]. split; cbn; try done. destruct (wrap_count (po_created p) (po_destroyed p)) as [-> _]. cbn in H5.
  unfold wrap in *. rewrite <- Zplus_mod_idemp_l, H5, Zplus_mod_idemp_l. f_equal. lia.
Qed.

Lemma pool_ok_destroyed n S C L p : pool_ok n S C L PUncount p -> pool_ok n S C L PRelease (add_destroyed p).
Proof.
  intros [H1 H2 H3 H4 H5 H6 H7 H8]. split; cbn; try done. destruct (wrap_count (po_created p) (po_destroyed p)) as [_ ->]. cbn in H5.
  unfold wrap in *. rewrite <- Zminus_mod_idemp_l, H5, Zminus_mod_idemp_l. f_equal. lia.
Qed.

Lemma pool_ok_peak n S C L pc a p :
  pool_ok n S C L pc p -> (po_max_alive p <> 0 -> a <= po_max_alive p) -> pool_ok n S C L pc (set_peak a p).
Proof. intros [] Ha. by split. Qed.

(** A call of the allocator. *)
Lemma leads_malloc n S C L pc (got : Z -> PoolPC) none p :
  pool_ok n S C L pc p ->
  (forall b, slots (got b) = slots pc /\ counted (got b) = counted pc /\ held (got b) ≡ₚ b :: held pc /\ pc_ok (po_max_alive p) (got b)) ->
  pool_ok n S C L none p ->
  leads n S C L p match pool_malloc (po_blocks p) (po_time p) with
                  | Some b => Some (got b, set_blocks ({[b]} ∪ po_blocks p) (po_objects p) p)
                  | None => Some (none, p)
                  end.
Proof.
  intros Hp Hgot Hnone. destruct (pool_malloc _ _) as [b|] eqn:E; [|by apply leads_to].
  apply pool_malloc_fresh in E. destruct (Hgot b) as (? & ? & ? & ?). apply leads_to; [by apply (pool_ok_malloc _ _ _ _ pc)|done].
Qed.

Lemma access_ok n S C L pc p :
  pool_ok n S C L pc p -> Z.of_nat (n + 1) < 2 ^ 64 -> leads (n + 1) S C L p (pool_access pc p).
Proof.
  intros Hp0 Hn. pose proof (pool_ok_more _ (n + 1) _ _ _ _ _ Hp0 ltac:(lia) Hn) as Hp.
  assert (Hpc : forall pc', slots pc' = slots pc -> counted pc' = counted pc -> held pc' = held pc ->
    pc_ok (po_max_alive p) pc' -> pool_ok (n + 1) S C L pc' p) by (intros; by eapply pool_ok_pc).
  pose proof (pk_pc _ _ _ _ _ _ Hp) as Hok. pose proof (pk_limit _ _ _ _ _ _ Hp) as Hlim.
  destruct pc as [| |cur| | |b|b| | |b|b|b a|b a k|b| | |m|m bs|ok bs|]; cbn [pool_access]; cbn [pc_ok] in Hok.
  - by apply leads_to.
  - case_cond; bool_norm; [|case_cond; bool_norm; (apply leads_to; [by apply Hpc|done])].
    apply leads_to; [|done]. eapply pool_ok_acquire; [done..| |done|done]. lia.
  - case_cond; bool_norm; [|case_cond; bool_norm; (apply leads_to; [by apply Hpc|done])].
    apply leads_to; [|done]. eapply pool_ok_acquire; [done..| |done|by subst]. lia.
  - apply leads_to; [|done]. apply pool_ok_stats. by apply Hpc.
  - eapply leads_malloc; [done|done|by apply Hpc].
  - apply leads_to; [|done]. destruct (ctor_ok _); by apply Hpc.
  - by eapply leads_free.
  - by eapply leads_release.
  - apply leads_to; [|done]. apply pool_ok_stats. by apply Hpc.
  - apply leads_to; [by apply pool_ok_created|done].
  - apply leads_to; [by apply Hpc|done].
  - destruct (po_peak_alive p <? a); [apply leads_to|apply leads_made]; try done; by apply Hpc.
  - case_cond; [|case_cond].
    + apply leads_made; [|done]. apply pool_ok_peak; [by apply Hpc|done].
    + apply leads_to; [by apply Hpc|done].
    + apply leads_made; [by apply Hpc|done].
  - by eapply leads_free.
  - apply leads_to; [by apply pool_ok_destroyed|done].
  - by eapply leads_release.
  - apply leads_to; [|done]. destruct (reserve_ok _); by apply Hpc.
  - destruct m as [|m]; [apply leads_to; [by apply Hpc|done]|]. apply (leads_malloc _ _ _ _ (PWarm (Datatypes.S m) bs) (fun b => PWarm m (bs ++ [b]))); [done| |by apply Hpc].
    intros b. split_and!; try done. cbn. by rewrite Permutation_app_comm.
  - destruct bs as [|b bs]; [|by eapply leads_free]. apply leads_to; [destruct ok; by apply Hpc|done].
  - apply leads_to; [|done]. apply pool_ok_stats. by apply Hpc.
Qed.

(** ** All threads *)

Lemma delete_insert_same {A} (l : list A) t x : delete t (<[t := x]> l) = delete t l.
Proof. rewrite !delete_take_drop. by rewrite take_insert_ge, drop_insert_lt by lia. Qed.

(** The threads with what they have; [PIdle] stands for a thread that has nothing. *)
Record pool_inv (n : nat) (p : ObjectPool) : Prop := mkPoolInv {
  pi_ok : pool_ok n (sum_list_with slots (po_threads p)) (sum_list_with counted (po_threads p)) (po_threads p ≫= held) PIdle p;
  pi_pcs : Forall (pc_ok (po_max_alive p)) (po_threads p);
}.

(** The share of one thread. *)
Lemma pool_ok_share n S C L pc p :
  pc_ok (po_max_alive p) pc ->
  pool_ok n (slots pc + S) (counted pc + C) (held pc ++ L) PIdle p <-> pool_ok n S C L pc p.
Proof.
  intros Hpc. split; intros [H1 H2 H3 H4 H5 H6 H7 H8]; cbn in *; (split; [done| |done|done| |done|done|done]); cbn.
  - rewrite H2. lia.
  - rewrite H5. f_equal. lia.
  - rewrite H2. lia.
  - rewrite H5. f_equal. lia.
Qed.

Lemma pool_ok_others n S C L L' pc p : pool_ok n S C L pc p -> L ≡ₚ L' -> pool_ok n S C L' pc p.
Proof. intros [] Hp. split; try done. eapply own_ok_perm; [done|]. by rewrite Hp. Qed.

Lemma pool_inv_view n p t pc :
  pool_inv n p -> po_threads p !! t = Some pc ->
  let rest := delete t (po_threads p) in
  pool_ok n (sum_list_with slots rest) (sum_list_with counted rest) (rest ≫= held) pc p.
Proof.
  intros [Hok Hpcs] Ht rest. pose proof (delete_Permutation _ _ _ Ht) as Hperm. fold rest in Hperm.
  apply pool_ok_share; [by eapply Forall_lookup_1|]. rewrite !(sum_list_with_Permutation_proper _ _ _ Hperm) in Hok. cbn [sum_list_with] in Hok.
  eapply pool_ok_others; [exact Hok|]. by rewrite Hperm.
Qed.

Lemma pool_inv_thread n p t pc pc' p' :
  pool_inv n p -> po_threads p !! t = Some pc -> same_frame p p' ->
  (let rest := delete t (po_threads p) in
   pool_ok n (sum_list_with slots rest) (sum_list_with counted rest) (rest ≫= held) pc' p') ->
  pool_inv n (set_thread t pc' p').
Proof.
  intros [_ Hpcs] Ht (Em & Eth & _) Hok. cbn zeta in Hok. pose proof (lookup_lt_Some _ _ _ Ht) as Hlt.
  pose proof (pk_pc _ _ _ _ _ _ Hok) as Hpc'.
  assert (Hperm : <[t := pc']> (po_threads p') ≡ₚ pc' :: delete t (po_threads p)).
  { rewrite Eth. rewrite <- (delete_insert_same (po_threads p) t pc'). apply delete_Permutation. by apply list_lookup_insert_eq. }
  split; cbn [set_thread po_threads po_max_alive].
  - apply pool_ok_share in Hok; [|done]. rewrite !(sum_list_with_Permutation_proper _ _ _ Hperm). cbn [sum_list_with].
    apply (pool_ok_others _ _ _ (held pc' ++ (delete t (po_threads p) ≫= held))); [|by rewrite Hperm].
    destruct Hok. by split.
  - rewrite Eth, Em. apply Forall_insert; [done|]. by rewrite <- Em.
Qed.

Lemma pool_event_inv n e p :
  pool_inv n p -> Z.of_nat (n + 1) < 2 ^ 64 -> exists p', pool_event e p = Some p' /\ pool_inv (n + 1) p' /\ po_max_alive p' = po_max_alive p.
Proof.
  intros Hinv Hn. assert (Hup : pool_inv (n + 1) p) by (destruct Hinv; split; [eapply pool_ok_more; [done|lia|done]|done]).
  destruct e as [t|t|t obj|t m]; cbn [pool_event].
  - destruct (po_threads p !! t) as [pc|] eqn:Et; [|by exists p].
    destruct (access_ok n _ _ _ _ _ (pool_inv_view n p t pc Hinv Et) Hn) as (pc' & p' & -> & Hok & Hf). cbn. eexists. split; [done|].
    split; [by eapply pool_inv_thread|apply Hf].
  - eexists. split; [done|]. case_decide as Et; [|done]. split; [|done]. eapply pool_inv_thread; [done|done|done|].
    by eapply pool_ok_pc; [apply (pool_inv_view _ _ _ _ Hup Et)|..].
  - eexists. split; [done|]. case_decide as Et; [|done]. destruct Et as [Et Hobj]. split; [|done]. eapply pool_inv_thread; [done|done|done|].
    destruct (pool_inv_view _ _ _ _ Hup Et) as [H1 H2 H3 H4 H5 H6 H7 H8]. cbn in H2, H5, H6.
    set (o := po_objects p) in *. assert (Ho : o = {[obj]} ∪ o ∖ {[obj]}) by (by apply union_difference_singleton_L).
    assert (Hsize : size o = S (size (o ∖ {[obj]}))). { rewrite Ho at 1. rewrite size_union by set_solver. by rewrite size_singleton. }
    split; cbn [set_blocks po_objects slots counted held]; fold o; try done.
    + cbn. rewrite H2. lia.
    + cbn [po_created po_destroyed set_blocks]. rewrite H5. f_equal. lia.
    + cbn [po_blocks set_blocks]. eapply own_ok_perm; [exact H6|]. rewrite Ho at 1. rewrite elements_union_singleton by set_solver. cbn. by rewrite <- Permutation_middle.
  - eexists. split; [done|]. case_decide as Et; [|done]. split; [|done]. eapply pool_inv_thread; [done|done|done|].
    by eapply pool_ok_pc; [apply (pool_inv_view _ _ _ _ Hup Et)|..].
Qed.

Lemma pool_run_inv es n p :
  pool_inv n p -> Z.of_nat (n + length es) < 2 ^ 64 ->
  exists p', pool_run es p = Some p' /\ pool_inv (n + length es) p' /\ po_max_alive p' = po_max_alive p.
Proof.
  revert n p. induction es as [|e es IH]; intros n p Hinv Hn; cbn [pool_run length] in *.
  - exists p. by rewrite Nat.add_0_r.
  - destruct (pool_event_inv n e p Hinv ltac:(lia)) as (p1 & -> & Hinv1 & <-). cbn.
    rewrite Nat.add_succ_r, <- Nat.add_succ_l, <- Nat.add_1_r. apply IH; [done|lia].
Qed.

Lemma idle_nothing (f : PoolPC -> nat) l :
  Forall (fun pc => pc = PIdle) l -> f PIdle = 0%nat -> sum_list_with f l = 0%nat /\ l ≫= held = [].
Proof. intros Hl Hf. induction Hl as [|pc l -> _ [IH1 IH2]]; [done|]. cbn. by rewrite Hf, IH1. Qed.

Lemma new_pool_inv max threads : fits 64 max -> pool_inv 0 (new_pool max threads).
Proof.
  intros Hmax. assert (Hidle : Forall (fun pc => pc = PIdle) (replicate threads PIdle)) by (by apply Forall_replicate).
  destruct (idle_nothing slots _ Hidle eq_refl) as [Hs Hh]. destruct (idle_nothing counted _ Hidle eq_refl) as [Hc _].
  split; cbn [new_pool po_threads po_max_alive]; [|by apply Forall_replicate]. rewrite Hs, Hc, Hh.
  unfold fits in Hmax. split; cbn; try done; try lia.
  rewrite elements_empty. split; [constructor|done].
Qed.

(** ** Construction *)

(** One access of [prewarm] is one step nearer to its end. *)
Lemma warm_access pc p pc' p' k :
  warm_steps pc = Some (S k) -> pool_access pc p = Some (pc', p') ->
  exists k', warm_steps pc' = Some k' /\ (k' <= k)%nat /\ po_threads p' = po_threads p.
Proof.
  intros Hk Hacc. destruct pc as [| | | | | | | | | | | | | | | |n|[|n] bs|ok [|b bs]|]; try done; cbn in Hk, Hacc.
  - destruct (reserve_ok _); simplify_eq; cbn; eexists; split_and!; try done; lia.
  - simplify_eq. cbn. eexists. split_and!; [done|lia|done].
  - destruct (pool_malloc _ _); simplify_eq; cbn; eexists; split_and!; try done; rewrite ?length_app; cbn; lia.
  - destruct ok; simplify_eq; cbn; eexists; split_and!; try done; lia.
  - unfold pool_free in Hacc. case_decide; simplify_eq/=. eexists. split_and!; [done|lia|done].
  - simplify_eq. cbn. eexists. split_and!; [done|lia|done].
Qed.

(** The accesses counted by [warm_steps] are enough. *)
Lemma warm_ends k t pc p p' s :
  po_threads p !! t = Some pc -> warm_steps pc = Some s -> (s <= k)%nat ->
  pool_run (replicate k (EvAccess t)) p = Some p' -> po_threads p' = <[t := PIdle]> (po_threads p).
Proof.
  revert pc p s. induction k as [|k IH]; intros pc p s Ht Hs Hle Hrun; cbn in Hrun.
  - replace s with 0%nat in Hs by lia. destruct pc; cbn in Hs; try done; simplify_eq; try lia. by rewrite list_insert_id.
  - rewrite Ht in Hrun. destruct (pool_access pc p) as [[pc1 p1]|] eqn:Ea; [|done]. cbn in Hrun.
    assert (Hstep : exists s1, warm_steps pc1 = Some s1 /\ (s1 <= k)%nat /\ po_threads p1 = po_threads p).
    { destruct s as [|s].
      - destruct pc; cbn in Hs; try done; simplify_eq; try lia. cbn in Ea. simplify_eq. exists 0%nat. split_and!; [done|lia|done].
      - destruct (warm_access _ _ _ _ _ Hs Ea) as (s1 & Hs1 & Hle1 & Hth). exists s1. split_and!; [done|lia|done]. }
    destruct Hstep as (s1 & Hs1 & Hle1 & Hth). apply lookup_lt_Some in Ht.
    assert (Ht1 : po_threads (set_thread t pc1 p1) !! t = Some pc1).
    { cbn. rewrite Hth. by apply list_lookup_insert_eq. }
    rewrite (IH _ _ _ Ht1 Hs1 Hle1 Hrun). cbn. by rewrite Hth, list_insert_insert_eq.
Qed.

Lemma pool_inv_more n n' p : pool_inv n p -> (n <= n')%nat -> Z.of_nat n' < 2 ^ 64 -> pool_inv n' p.
Proof. intros [Hok Hpcs] Hle Hlt. split; [by eapply pool_ok_more|done]. Qed.

(** The constructor ends, with no operation under way. *)
Lemma pool_construct_inv max on n threads :
  fits 64 max -> Z.of_nat (2 * n + 5) < 2 ^ 64 ->
  exists p, pool_construct max on n threads = Some p /\ pool_inv (2 * n + 5) p /\ po_max_alive p = max
    /\ Forall (fun pc => pc = PIdle) (po_threads p).
Proof.
  intros Hmax Hn. pose proof (new_pool_inv max (S threads) Hmax) as Hnew.
  assert (Hidle : Forall (fun pc => pc = PIdle) (replicate (S threads) PIdle)) by (by apply Forall_replicate).
  unfold pool_construct. destruct (on && _).
  2: { eexists. split_and!; [done| |done|exact Hidle]. eapply pool_inv_more; [done|lia|done]. }
  set (es := EvPrewarm 0 n :: _). assert (Hlen : length es = (2 * n + 5)%nat) by (unfold es; cbn [length]; rewrite length_replicate; lia).
  destruct (pool_run_inv es 0 _ Hnew) as (p & Hrun & Hinv & Em); [by rewrite Hlen|]. rewrite Hrun. cbn [mbind option_bind].
  assert (Hth : po_threads p = replicate (S threads) PIdle).
  { unfold es in Hrun. cbn [pool_run pool_event mbind option_bind] in Hrun. rewrite decide_True in Hrun by done.
    by erewrite (warm_ends _ 0 (PReserve n)); [|..|exact Hrun]. }
  rewrite Hlen in Hinv. eexists. split; [done|]. destruct (_ =? 0); [split_and!; [done|done|by rewrite Hth]|].
  split_and!; [|done|by cbn [add_warm_failed set_counts po_threads]; rewrite Hth].
  destruct Hinv as [Hok Hpcs]. split; [|done]. by apply pool_ok_stats.
Qed.

(** [C36] Whatever operations any number of threads run at the same time on a pool and however their
    accesses interleave, for fewer than 2^64 of them: no block is freed twice and no assertion
    fails; there are never more objects than the limit; and when no operation is under way, the
    counters agree with the objects of the callers and every block of memory is one of these
    objects. *)
Theorem pool_accounts es max on n threads :
  fits 64 max -> 2 * Z.of_nat n + 5 + zlen es < 2 ^ 64 ->
  exists p0 p, pool_construct max on n threads = Some p0 /\ pool_run es p0 = Some p
    /\ (max <> 0 -> Z.of_nat (size (po_objects p)) <= po_alive p <= max /\ po_peak_alive p <= max)
    /\ (Forall (fun pc => pc = PIdle) (po_threads p) ->
        po_alive p = Z.of_nat (size (po_objects p)) /\ wrap 64 (po_created p - po_destroyed p) = po_alive p
        /\ po_blocks p = po_objects p).
Proof.
  unfold zlen. intros Hmax Hn. destruct (pool_construct_inv max on n threads Hmax ltac:(lia)) as (p0 & Hc & Hinv & Em0 & _).
  destruct (pool_run_inv es _ p0 Hinv ltac:(lia)) as (p & Hrun & [Hok _] & Em). rewrite Em0 in Em.
  exists p0, p. destruct Hok as [H1 H2 H3 H4 H5 H6 H7 H8]. cbn in H2, H5, H6. rewrite Em in *. split_and!; [done|done| |].
  - intros Hne. split; [|by apply H8]. split; [lia|by apply H3].
  - intros Hidle. destruct (idle_nothing slots _ Hidle eq_refl) as [Hs Hh]. destruct (idle_nothing counted _ Hidle eq_refl) as [Hcnt _].
    rewrite Hs in H2. rewrite Hcnt in H5. rewrite Hh in H6. split_and!.
    + rewrite H2. lia.
    + rewrite H5. replace (Z.of_nat (size (po_objects p) + 0 + 0)) with (po_alive p) by lia. apply wrap_id. unfold fits. lia.
    + destruct H6 as [_ ->]. rewrite !app_nil_r. by rewrite list_to_set_elements_L.
Qed.

End pool.

Module PoolDemo.

(** The allocator counts up; the third object cannot be built. *)
Definition above (used : gset Z) : Z := 1 + set_fold Z.max 0 used.

Lemma above_fresh used (t : nat) p : Some (above used) = Some p -> p ∉ used.
Proof.
  intros [= <-] Hin. assert (Hall : forall a, a ∈ used -> a <= set_fold Z.max 0 used).
  { apply (set_fold_ind_L (fun m X => forall a, a ∈ X -> a <= m)); [set_solver|].
    intros x X m _ IH a Ha. apply elem_of_union in Ha as [Ha|Ha]; [apply elem_of_singleton in Ha; subst; lia|].
    specialize (IH a Ha). lia. }
  specialize (Hall _ Hin). unfold above in Hall. lia.
Qed.

#[local] Instance demo_alloc : PoolEnv :=
  {| pool_malloc := fun used _ => Some (above used); pool_malloc_fresh := above_fresh;
     ctor_ok := fun t => negb (t =? 20)%nat; reserve_ok := fun _ => true |}.

(** Two threads race for the last place, then an object is destroyed. *)
Definition race : list PoolEvent :=
  [EvTryMake 0; EvTryMake 1; EvAccess 0; EvAccess 1; EvAccess 0; EvAccess 1; EvAccess 1]
  ++ replicate 8 (EvAccess 0) ++ [EvDestroy 1 1; EvAccess 1; EvAccess 1; EvAccess 1].

Lemma pool_accounts_witness :
  exists p0 p, pool_construct 1 true 2 1 = Some p0 /\ pool_run race p0 = Some p
    /\ (1 <> 0 -> Z.of_nat (size (po_objects p)) <= po_alive p <= 1 /\ po_peak_alive p <= 1)
    /\ (Forall (fun pc => pc = PIdle) (po_threads p) ->
        po_alive p = Z.of_nat (size (po_objects p)) /\ wrap 64 (po_created p - po_destroyed p) = po_alive p
        /\ po_blocks p = po_objects p).
Proof. apply (pool_accounts race 1 true 2 1); [unfold fits; lia|vm_compute; reflexivity]. Defined.

(** The second thread is refused, and the object of the first is made and destroyed. *)
Example race_result :
  match pool_run race (new_pool 1 2) with
  | Some p => po_limit_rejected p = 1 /\ po_created p = 1 /\ po_destroyed p = 1 /\ po_threads p = [PIdle; PIdle] /\ po_alive p = 0
  | None => False
  end.
Proof. vm_compute. done. Qed.

End PoolDemo.

Module NoMemory.

Lemma no_block (used : gset Z) (t : nat) (p : Z) : None = Some p -> p ∉ used.
Proof. done. Qed.

#[local] Instance no_memory : PoolEnv :=
  {| pool_malloc := fun _ _ => None; pool_malloc_fresh := no_block;
     ctor_ok := fun _ => true; reserve_ok := fun _ => true |}.

(** A constructor that cannot get memory counts its failure twice. *)
Example failed_prewarm_counts_twice : po_prewarm_failed <$> pool_construct 0 true 1 0 = Some 2.
Proof. vm_compute. done. Qed.

End NoMemory.
