(* ===== verification/Sipfw.v ===== *)
(** The kernel firewall SIPFW: its data (SIPFW/module/sipfw.h and sipfw_para.h), the memory it
    uses, and the operations on the chains of rules (sipfw_k_common.c and sipfw_k_nl.c).

    Rules are nodes of singly linked lists in a heap, as in the code; [struct sipfw_rules **]
    is a [link].  Every access to memory that is not allocated is a [Fault], a write past the
    end of a snapshot too, and a loop that does not end is a [Hang].  A critical section of the
    lock of a chain is one step.  Calls of the kernel that can fail take their results from
    [KernelEnv], one per tick. *)
From S2P Require Import Prelude.

(** ** C integers and memory *)

(** The conversion to [int]. *)
Definition int32 (z : Z) : Z := wrap 32 (z + 2 ^ 31) - 2 ^ 31.

(** Native loads and stores are little-endian; a [__be16] or [__be32] is the native value of
    its bytes. *)
Definition le_decode (l : bytes) : Z := be_decode (reverse l).
Definition le_encode (n : nat) (z : Z) : bytes := reverse (be_encode n z).

Definition sub_bytes (off n : nat) (l : bytes) : bytes := take n (drop off l).
Definition c_char (l : bytes) (i : nat) : byte := nth i l x00.

(** [strncmp(a, b, n) == 0]; an array is followed by zeros. *)
Fixpoint strncmp_eq (n : nat) (a b : bytes) : bool :=
  match n with
  | O => true
  | S n =>
      bool_decide (c_char a 0 = c_char b 0)
      && (bool_decide (c_char a 0 = x00) || strncmp_eq n (drop 1 a) (drop 1 b))
  end.

(** [strnlen] *)
Fixpoint strnlen (l : bytes) (n : nat) : nat :=
  match n, l with
  | S n, b :: l => if bool_decide (b = x00) then 0%nat else S (strnlen l n)
  | _, _ => 0%nat
  end.

(** ** Constants *)

Definition SIPFW_MSG_PID : Z := 0.
Definition SIPFW_MSG_RULE : Z := 1.
Definition SIPFW_MSG_CLOSE : Z := 2.
Definition SIPFW_MSG_FAILURE : Z := 3.
Definition SIPFW_MSG_SUCCESS : Z := 4.

Definition SIPFW_CMD_INSERT : Z := 0.
Definition SIPFW_CMD_DELETE : Z := 1.
Definition SIPFW_CMD_APPEND : Z := 2.
Definition SIPFW_CMD_LIST : Z := 3.
Definition SIPFW_CMD_FLUSH : Z := 4.
Definition SIPFW_CMD_REPLACE : Z := 5.
Definition SIPFW_CMD_NUM : Z := 6.

Definition SIPFW_ACTION_DROP : Z := 0.
Definition SIPFW_ACTION_ACCEPT : Z := 1.
Definition SIPFW_ACTION_NUM : Z := 6.

Definition SIPFW_CHAIN_INPUT : Z := 0.
Definition SIPFW_CHAIN_OUTPUT : Z := 1.
Definition SIPFW_CHAIN_FORWARD : Z := 2.
Definition SIPFW_CHAIN_NUM : Z := 3.
Definition SIPFW_CHAIN_ALL : Z := 3.

Definition IPPROTO_ICMP : Z := 1.
Definition IPPROTO_IGMP : Z := 2.
Definition IPPROTO_TCP : Z := 6.
Definition IPPROTO_UDP : Z := 17.

Definition ENOENT : Z := 2.
Definition EIO : Z := 5.
Definition EBADF : Z := 9.
Definition ENOMEM : Z := 12.
Definition EFAULT : Z := 14.
Definition EINVAL : Z := 22.

(** The tables of names, without the end markers: the name, the length that is compared and the
    value. *)
Definition sipfw_chain_name : list (bytes * nat * Z) :=
  [(str "INPUT", 5%nat, 0); (str "OUTPUT", 6%nat, 0); (str "FORWARD", 7%nat, 0)].

Definition sipfw_action_name : list (bytes * nat * Z) :=
  [(str "DROP", 4%nat, 0); (str "ACCEPT", 6%nat, 0); (str "STOLEN", 6%nat, 0);
   (str "QUEUE", 5%nat, 0); (str "REPEAT", 6%nat, 0); (str "STOP", 4%nat, 0)].

Definition sipfw_command_name : list (bytes * nat * Z) :=
  [(str "INSERT", 6%nat, 0); (str "DELETE", 6%nat, 0); (str "APPEND", 6%nat, 0);
   (str "LIST", 4%nat, 0); (str "FLUSH", 5%nat, 0); (str "REPLACE", 7%nat, 0)].

Definition sipfw_protocol_name : list (bytes * nat * Z) :=
  [(str "tcp", 3%nat, IPPROTO_TCP); (str "udp", 3%nat, IPPROTO_UDP);
   (str "icmp", 4%nat, IPPROTO_ICMP); (str "igmp", 4%nat, IPPROTO_IGMP)].

(** ** Data *)

Definition addr := Z.

(** A rule, without the link to the next one; [addtion] is the four bytes of the union. *)
Record sipfw_rules := mkRule {
  r_chain : Z;
  r_source : Z;
  r_dest : Z;
  r_sport : Z;
  r_dport : Z;
  r_protocol : Z;
  r_action : Z;
  r_ifname : bytes;
  r_addtion : bytes;
}.

#[global] Instance sipfw_rules_eq_dec : EqDecision sipfw_rules.
Proof. solve_decision. Defined.

Definition zero_rule : sipfw_rules :=
  mkRule 0 0 0 0 0 0 0 (replicate 8 x00) (replicate 4 x00).

Record rule_node := mkNode { n_rule : sipfw_rules; n_next : option addr }.

Record sipfw_rule_snapshot := mkSnapshot { snap_count : Z; snap_rules : list sipfw_rules }.

Record sipfw_list := mkList {
  l_rule : option addr;
  l_snapshot : option addr;
  l_number : Z;
}.

Record sipfw_conf := mkConf {
  DefaultAction : Z;
  RuleFilePath : bytes;
  LogFilePath : bytes;
  HitNumber : Z;
  Invalid : Z;
  LogPause : Z;
}.

Definition default_conf : sipfw_conf :=
  mkConf SIPFW_ACTION_ACCEPT (str "/etc/sipfw.rules") (str "/etc/sipfw.log") 0 0 0.

(** A message to a process: the process, the type and the payload. *)
Record nl_message := mkMessage { m_pid : Z; m_type : Z; m_data : bytes }.

(** The state of the module: its memory, its variables, the files, and the messages it has
    sent, oldest first.  [rcu] are the snapshots that wait for the end of a grace period. *)
Record Sipfw := mkSipfw {
  heap : gmap addr rule_node;
  snaps : gmap addr sipfw_rule_snapshot;
  rcu : list addr;
  sipfw_tables : list sipfw_list;
  cf : sipfw_conf;
  disk : gmap bytes bytes;
  sent : list nl_message;
  nlfd : bool;
  cookie_pot : option bytes;
  proc_dir : bool;
  hooks : bool;
  ticks : nat;
}.

Definition set_heap (h : gmap addr rule_node) (s : Sipfw) : Sipfw :=
  mkSipfw h (snaps s) (rcu s) (sipfw_tables s) (cf s) (disk s) (sent s) (nlfd s) (cookie_pot s)
    (proc_dir s) (hooks s) (ticks s).
Definition set_snaps (n : gmap addr sipfw_rule_snapshot) (s : Sipfw) : Sipfw :=
  mkSipfw (heap s) n (rcu s) (sipfw_tables s) (cf s) (disk s) (sent s) (nlfd s) (cookie_pot s)
    (proc_dir s) (hooks s) (ticks s).
Definition set_rcu (r : list addr) (s : Sipfw) : Sipfw :=
  mkSipfw (heap s) (snaps s) r (sipfw_tables s) (cf s) (disk s) (sent s) (nlfd s) (cookie_pot s)
    (proc_dir s) (hooks s) (ticks s).
Definition set_tables (t : list sipfw_list) (s : Sipfw) : Sipfw :=
  mkSipfw (heap s) (snaps s) (rcu s) t (cf s) (disk s) (sent s) (nlfd s) (cookie_pot s)
    (proc_dir s) (hooks s) (ticks s).
Definition set_cf (c : sipfw_conf) (s : Sipfw) : Sipfw :=
  mkSipfw (heap s) (snaps s) (rcu s) (sipfw_tables s) c (disk s) (sent s) (nlfd s) (cookie_pot s)
    (proc_dir s) (hooks s) (ticks s).
Definition set_disk (d : gmap bytes bytes) (s : Sipfw) : Sipfw :=
  mkSipfw (heap s) (snaps s) (rcu s) (sipfw_tables s) (cf s) d (sent s) (nlfd s) (cookie_pot s)
    (proc_dir s) (hooks s) (ticks s).
Definition set_sent (m : list nl_message) (s : Sipfw) : Sipfw :=
  mkSipfw (heap s) (snaps s) (rcu s) (sipfw_tables s) (cf s) (disk s) m (nlfd s) (cookie_pot s)
    (proc_dir s) (hooks s) (ticks s).
Definition set_module (n : bool) (c : option bytes) (p h : bool) (s : Sipfw) : Sipfw :=
  mkSipfw (heap s) (snaps s) (rcu s) (sipfw_tables s) (cf s) (disk s) (sent s) n c p h (ticks s).
Definition next_tick (s : Sipfw) : Sipfw :=
  mkSipfw (heap s) (snaps s) (rcu s) (sipfw_tables s) (cf s) (disk s) (sent s) (nlfd s) (cookie_pot s)
    (proc_dir s) (hooks s) (S (ticks s)).

(** ** The monad of the module *)

Inductive Res (A : Type) :=
| Ret (a : A) (s : Sipfw)
| Fault
| Hang.
Arguments Ret {A}.
Arguments Fault {A}.
Arguments Hang {A}.

Definition F (A : Type) : Type := Sipfw -> Res A.

#[global] Instance F_ret : MRet F := fun A a s => Ret a s.
#[global] Instance F_bind : MBind F := fun A B k m s =>
  match m s with
  | Ret a s => k a s
  | Fault => Fault
  | Hang => Hang
  end.

Definition fault {A} : F A := fun _ => Fault.
Definition hang {A} : F A := fun _ => Hang.
Definition gets {A} (f : Sipfw -> A) : F A := fun s => Ret (f s) s.
Definition modify (f : Sipfw -> Sipfw) : F unit := fun s => Ret tt (f s).

(** How a read or a write of a file ends: all of it, at most [n + 1] bytes, or an error. *)
Inductive io_result := IoAll | IoSome (n : nat) | IoErr (e : positive).

(** The fields of [struct tm] that are used. *)
Record tm := mkTm {
  tm_year : Z; tm_mon : Z; tm_mday : Z; tm_hour : Z; tm_min : Z; tm_sec : Z;
}.

(** What the kernel answers: the address of new memory, and the results of calls that can
    fail. *)
Class KernelEnv := {
  kmem_addr : gset addr -> addr;
  kmem_addr_fresh : forall used, kmem_addr used ∉ used;
  kmem_ok : nat -> bool;
  vfs_open : nat -> bool;
  vfs_io : nat -> io_result;
  vfs_errno : forall t e, vfs_io t = IoErr e -> Z.pos e <= 4095;   (* MAX_ERRNO *)
  netlink_ok : nat -> bool;
  call_ok : nat -> bool;
  real_seconds : nat -> Z;
  time64_to_tm : Z -> Z -> tm;
}.

Section memory.
Context `{KernelEnv}.

Definition tick : F nat := fun s => Ret (ticks s) (next_tick s).

(** [kmalloc] of memory that is freed by the function that asks for it. *)
Definition kmalloc_temporary : F bool := t ← tick; mret (kmem_ok t).

Definition used_memory (s : Sipfw) : gset addr := dom (heap s) ∪ dom (snaps s).

Definition kzalloc_rule : F (option addr) :=
  t ← tick;
  if kmem_ok t then
    a ← gets (fun s => kmem_addr (used_memory s));
    modify (fun s => set_heap (<[a := mkNode zero_rule None]> (heap s)) s);;
    mret (Some a)
  else mret None.

Definition read_rule (a : addr) : F rule_node := fun s =>
  match heap s !! a with Some n => Ret n s | None => Fault end.

Definition write_rule (a : addr) (n : rule_node) : F unit := fun s =>
  match heap s !! a with
  | Some _ => Ret tt (set_heap (<[a := n]> (heap s)) s)
  | None => Fault
  end.

(** [a->next = p] *)
Definition write_next (a : addr) (p : option addr) : F unit :=
  n ← read_rule a; write_rule a (mkNode (n_rule n) p).

Definition kfree_rule (a : addr) : F unit := fun s =>
  match heap s !! a with
  | Some _ => Ret tt (set_heap (delete a (heap s)) s)
  | None => Fault
  end.

(** [&sipfw_tables[i]] *)
Definition get_list (i : Z) : F sipfw_list := fun s =>
  if i <? 0 then Fault
  else match sipfw_tables s !! Z.to_nat i with Some l => Ret l s | None => Fault end.

Definition set_list (i : Z) (l : sipfw_list) : F unit := fun s =>
  if (i <? 0) || (zlen (sipfw_tables s) <=? i) then Fault
  else Ret tt (set_tables (<[Z.to_nat i := l]> (sipfw_tables s)) s).

(** A [struct sipfw_rules **]: the head of a chain or the link in a rule. *)
Inductive link := rule_of (chain : Z) | next_of (a : addr).

Definition deref (k : link) : F (option addr) :=
  match k with
  | rule_of i => l ← get_list i; mret (l_rule l)
  | next_of a => n ← read_rule a; mret (n_next n)
  end.

Definition assign (k : link) (p : option addr) : F unit :=
  match k with
  | rule_of i => l ← get_list i; set_list i (mkList p (l_snapshot l) (l_number l))
  | next_of a => write_next a p
  end.

(** Loops along a chain have the number of rules in memory plus one as fuel. *)
Definition chain_fuel : F nat := gets (fun s => S (size (heap s))).

(** [while ( *link != NULL && idx < number)] *)
Fixpoint seek (fuel : nat) (k : link) (idx number : Z) : F link :=
  match fuel with
  | O => hang
  | S fuel =>
      p ← deref k;
      match p with
      | Some a => if idx <? number then seek fuel (next_of a) (idx + 1) number else mret k
      | None => mret k
      end
  end.

(** [while (cur->next != NULL)] *)
Fixpoint last_rule (fuel : nat) (cur : addr) : F addr :=
  match fuel with
  | O => hang
  | S fuel =>
      n ← read_rule cur;
      match n_next n with
      | Some next => last_rule fuel next
      | None => mret cur
      end
  end.

(** [while ( *tail != NULL) tail = &( *tail)->next;] *)
Fixpoint find_tail (fuel : nat) (k : link) : F link :=
  match fuel with
  | O => hang
  | S fuel =>
      p ← deref k;
      match p with
      | Some a => find_tail fuel (next_of a)
      | None => mret k
      end
  end.

(** The loop that frees the rules of a list. *)
Fixpoint free_rules (fuel : nat) (cur : option addr) : F unit :=
  match fuel with
  | O => hang
  | S fuel =>
      match cur with
      | None => mret tt
      | Some a =>
          n ← read_rule a;
          write_next a None;;
          kfree_rule a;;
          free_rules fuel (n_next n)
      end
  end.

(** ** Snapshots *)

Definition SIPFW_AllocRuleSnapshot (count : Z) : F (option addr) :=
  if count =? 0 then mret None else
  t ← tick;
  if kmem_ok t then
    a ← gets (fun s => kmem_addr (used_memory s));
    modify (fun s =>
      set_snaps (<[a := mkSnapshot count (replicate (Z.to_nat count) zero_rule)]> (snaps s)) s);;
    mret (Some a)
  else mret None.

Definition read_snapshot (a : addr) : F sipfw_rule_snapshot := fun s =>
  match snaps s !! a with Some n => Ret n s | None => Fault end.

Definition write_snapshot (a : addr) (n : sipfw_rule_snapshot) : F unit := fun s =>
  match snaps s !! a with
  | Some _ => Ret tt (set_snaps (<[a := n]> (snaps s)) s)
  | None => Fault
  end.

(** [snapshot->count = count] *)
Definition set_count (a : addr) (count : Z) : F unit :=
  n ← read_snapshot a; write_snapshot a (mkSnapshot count (snap_rules n)).

(** [snapshot->rules[i] = r] *)
Definition write_snapshot_rule (a : addr) (i : nat) (r : sipfw_rules) : F unit :=
  n ← read_snapshot a;
  if decide (i < length (snap_rules n))%nat
  then write_snapshot a (mkSnapshot (snap_count n) (<[i := r]> (snap_rules n)))
  else fault.

(** Copy the rules of the list into the snapshot; the number of rules copied. *)
Fixpoint copy_rules (fuel : nat) (snapshot : addr) (cur : option addr) (copied : nat) : F nat :=
  match fuel with
  | O => hang
  | S fuel =>
      match cur with
      | None => mret copied
      | Some a =>
          snap ← read_snapshot snapshot;
          if Z.of_nat copied <? snap_count snap then
            n ← read_rule a;
            write_snapshot_rule snapshot copied (n_rule n);;
            copy_rules fuel snapshot (n_next n) (S copied)
          else mret copied
      end
  end.

(** The end of [SIPFW_PublishRuleSnapshotLocked]: exchange the snapshot, and free the old one
    after a grace period. *)
Definition exchange_snapshot (i : Z) (snapshot : option addr) : F unit :=
  l ← get_list i;
  set_list i (mkList (l_rule l) snapshot (l_number l));;
  match l_snapshot l with
  | Some old => modify (fun s => set_rcu (rcu s ++ [old]) s)   (* call_rcu *)
  | None => mret tt
  end.

Definition SIPFW_PublishRuleSnapshotLocked (i : Z) (snapshot : option addr) : F unit :=
  l ← get_list i;
  match snapshot with
  | Some a =>
      set_count a (wrap 32 (l_number l));;
      fuel ← chain_fuel;
      copied ← copy_rules fuel a (l_rule l) 0;
      set_count a (Z.of_nat copied)
  | None => mret tt
  end;;
  exchange_snapshot i snapshot.

(** [SIPFW_FreeRuleSnapshotRcu], the callback of a grace period that has ended. *)
Definition SIPFW_FreeRuleSnapshotRcu : F unit := fun s =>
  match rcu s with
  | a :: waiting =>
      match snaps s !! a with
      | Some _ => Ret tt (set_rcu waiting (set_snaps (delete a (snaps s)) s))
      | None => Fault
      end
  | [] => Ret tt s
  end.

(** The result is the error and the new snapshot. *)
Definition SIPFW_PrepareRuleSnapshotLocked (new_count : Z) : F (Z * option addr) :=
  if new_count =? 0 then mret (0, None) else
  snapshot ← SIPFW_AllocRuleSnapshot new_count;
  mret (match snapshot with Some _ => 0 | None => - ENOMEM end, snapshot).

(** [l->number = n] *)
Definition set_number (i n : Z) : F unit :=
  l ← get_list i; set_list i (mkList (l_rule l) (l_snapshot l) n).

Definition SIPFW_CommitRuleUpdateLocked (i new_count : Z) (snapshot : option addr) : F unit :=
  set_number i (int32 new_count);;
  SIPFW_PublishRuleSnapshotLocked i snapshot.

(** ** The commands *)

Definition bad_chain (chain : Z) : bool := (chain <? 0) || (SIPFW_CHAIN_NUM <=? chain).

Definition SIPFW_NLAction_RuleAppend (rule : addr) : F Z :=
  r ← read_rule rule;
  let chain := r_chain (n_rule r) in
  if bad_chain chain then kfree_rule rule;; mret (- EINVAL) else
  write_next rule None;;
  l ← get_list chain;
  let new_count := wrap 32 (l_number l + 1) in
  '(ret, snapshot) ← SIPFW_PrepareRuleSnapshotLocked new_count;
  if negb (ret =? 0) then kfree_rule rule;; mret ret else
  match l_rule l with
  | None => assign (rule_of chain) (Some rule)
  | Some head =>
      fuel ← chain_fuel;
      cur ← last_rule fuel head;
      write_next cur (Some rule)
  end;;
  SIPFW_CommitRuleUpdateLocked chain new_count snapshot;;
  mret 0.

(** The comparison of [RuleDelete]. *)
Definition same_rule (cur rule : sipfw_rules) : bool :=
  (r_action cur =? r_action rule) && (r_chain cur =? r_chain rule)
  && (r_source cur =? r_source rule) && (r_dest cur =? r_dest rule)
  && (r_sport cur =? r_sport rule) && (r_dport cur =? r_dport rule)
  && (r_protocol cur =? r_protocol rule)
  && bool_decide (r_ifname cur = r_ifname rule) && bool_decide (r_addtion cur = r_addtion rule).

(** Take the rule at [*k] out of its chain; the error and the rule taken out. *)
Definition unlink_rule (chain : Z) (k : link) (victim : addr) : F (Z * option addr) :=
  l ← get_list chain;
  let new_count := wrap 32 (l_number l - 1) in
  '(ret, snapshot) ← SIPFW_PrepareRuleSnapshotLocked new_count;
  if negb (ret =? 0) then mret (ret, None) else
  n ← read_rule victim;
  assign k (n_next n);;
  write_next victim None;;
  SIPFW_CommitRuleUpdateLocked chain new_count snapshot;;
  mret (0, Some victim).

(** The loop that looks for an equal rule. *)
Fixpoint delete_equal (fuel : nat) (chain : Z) (rule : sipfw_rules) (k : link) : F (Z * option addr) :=
  match fuel with
  | O => hang
  | S fuel =>
      p ← deref k;
      match p with
      | None => mret (- ENOENT, None)
      | Some cur =>
          n ← read_rule cur;
          if same_rule (n_rule n) rule then unlink_rule chain k cur
          else delete_equal fuel chain rule (next_of cur)
      end
  end.

Definition SIPFW_NLAction_RuleDelete (rule : addr) (number : Z) : F Z :=
  r ← read_rule rule;
  let chain := r_chain (n_rule r) in
  if bad_chain chain then kfree_rule rule;; mret (- EINVAL) else
  l ← get_list chain;
  fuel ← chain_fuel;
  '(ret, victim) ←
    (if negb (number =? -1) then
       if (number <=? 0) || (l_number l <? number) then mret (- ENOENT, None) else
       k ← seek fuel (rule_of chain) 1 number;
       p ← deref k;
       match p with
       | Some victim => unlink_rule chain k victim
       | None => mret (- ENOENT, None)
       end
     else delete_equal fuel chain (n_rule r) (rule_of chain));
  match victim with Some v => kfree_rule v | None => mret tt end;;
  kfree_rule rule;;
  mret ret.

Definition SIPFW_NLAction_RuleReplace (rule : addr) (number : Z) : F Z :=
  r ← read_rule rule;
  let chain := r_chain (n_rule r) in
  if bad_chain chain then kfree_rule rule;; mret (- EINVAL) else
  if number <=? 0 then kfree_rule rule;; mret (- EINVAL) else
  l ← get_list chain;
  '(ret, old) ←
    (if l_number l <? number then mret (- ENOENT, None) else
     fuel ← chain_fuel;
     k ← seek fuel (rule_of chain) 1 number;
     p ← deref k;
     match p with
     | None => mret (- ENOENT, None)
     | Some old =>
         let new_count := wrap 32 (l_number l) in
         '(ret, snapshot) ← SIPFW_PrepareRuleSnapshotLocked new_count;
         if negb (ret =? 0) then mret (ret, None) else
         n ← read_rule old;
         write_next rule (n_next n);;
         assign k (Some rule);;
         write_next old None;;
         SIPFW_CommitRuleUpdateLocked chain new_count snapshot;;
         mret (0, Some old)
     end);
  match old with Some o => kfree_rule o | None => kfree_rule rule end;;
  mret ret.

Definition SIPFW_NLAction_RuleInsert (rule : addr) (number : Z) : F Z :=
  r ← read_rule rule;
  let chain := r_chain (n_rule r) in
  if bad_chain chain then kfree_rule rule;; mret (- EINVAL) else
  if number <=? 0 then kfree_rule rule;; mret (- EINVAL) else
  l ← get_list chain;
  let new_count := wrap 32 (l_number l + 1) in
  '(ret, snapshot) ← SIPFW_PrepareRuleSnapshotLocked new_count;
  if negb (ret =? 0) then kfree_rule rule;; mret ret else
  fuel ← chain_fuel;
  k ← seek fuel (rule_of chain) 1 number;
  p ← deref k;
  write_next rule p;;
  assign k (Some rule);;
  SIPFW_CommitRuleUpdateLocked chain new_count snapshot;;
  mret 0.

(** The chains a command is about, or [None] for a chain that does not exist. *)
Definition chain_range (chain : Z) : option (list Z) :=
  if chain =? SIPFW_CHAIN_ALL then Some [0; 1; 2]
  else if bad_chain chain then None
  else Some [chain].

Definition flush_chain (i : Z) : F unit :=
  head ← deref (rule_of i);
  assign (rule_of i) None;;
  SIPFW_CommitRuleUpdateLocked i 0 None;;
  fuel ← chain_fuel;
  free_rules fuel head.

Fixpoint for_chains (f : Z -> F unit) (chains : list Z) : F unit :=
  match chains with
  | [] => mret tt
  | i :: chains => f i;; for_chains f chains
  end.

Definition SIPFW_NLAction_RuleFlush (rule : addr) : F Z :=
  r ← read_rule rule;
  match chain_range (r_chain (n_rule r)) with
  | None => kfree_rule rule;; mret (- EINVAL)
  | Some chains => for_chains flush_chain chains;; kfree_rule rule;; mret 0
  end.

(** [SIPFW_ListDestroy]: one chain. *)
Definition destroy_chain (i : Z) : F unit :=
  head ← deref (rule_of i);
  assign (rule_of i) None;;
  set_number i 0;;
  SIPFW_PublishRuleSnapshotLocked i None;;
  fuel ← chain_fuel;
  free_rules fuel head.

Definition SIPFW_ListDestroy : F Z := for_chains destroy_chain [0; 1; 2];; mret 0.

End memory.
