(* ===== verification/SipfwHeap.v ===== *)
(** The memory of the firewall: what linked lists and snapshots represent, and rules for the
    primitive operations, the loops, and building and publishing a snapshot. *)
From S2P Require Import Prelude Sipfw.

(** [m] ends without a fault, and its result and state satisfy [Q]. *)
Definition wp {A} (m : F A) (Q : A -> Sipfw -> Prop) (s : Sipfw) : Prop :=
  match m s with Ret a s => Q a s | _ => False end.

Lemma fwp_ret {A} (a : A) Q s : Q a s -> wp (mret a) Q s.
Proof. done. Qed.

Lemma fwp_bind {A B} (m : F A) (k : A -> F B) Q s :
  wp m (fun a s => wp (k a) Q s) s -> wp (m ≫= k) Q s.
Proof. unfold wp, mbind, F_bind. by destruct (m s). Qed.

Lemma wp_bind_inv {A B} (m : F A) (k : A -> F B) Q s :
  wp (m ≫= k) Q s -> wp m (fun a s => wp (k a) Q s) s.
Proof. unfold wp, mbind, F_bind. by destruct (m s). Qed.

Lemma wp_mono {A} (m : F A) (P Q : A -> Sipfw -> Prop) s :
  wp m P s -> (forall a s', P a s' -> Q a s') -> wp m Q s.
Proof. unfold wp. destruct (m s); eauto. Qed.

(** A state with another memory. *)
Definition mem (s : Sipfw) (h : gmap addr rule_node) (n : gmap addr sipfw_rule_snapshot)
    (r : list addr) (t : list sipfw_list) (k : nat) : Sipfw :=
  mkSipfw h n r t (cf s) (disk s) (sent s) (nlfd s) (cookie_pot s) (proc_dir s) (hooks s) k.

Lemma mem_id s : s = mem s (heap s) (snaps s) (rcu s) (sipfw_tables s) (ticks s).
Proof. by destruct s. Qed.

(** ** Lists in the heap *)

(** From the pointer [p] on, the heap holds the rules [rs] at the addresses [ads]. *)
Inductive lrep (h : gmap addr rule_node) : option addr -> list addr -> list sipfw_rules -> Prop :=
| lrep_nil : lrep h None [] []
| lrep_cons a n ads rs :
    h !! a = Some n -> lrep h (n_next n) ads rs -> lrep h (Some a) (a :: ads) (n_rule n :: rs).

Lemma lrep_length h p ads rs : lrep h p ads rs -> length ads = length rs.
Proof. induction 1; simpl; congruence. Qed.

Lemma lrep_head h p ads rs : lrep h p ads rs -> p = head ads.
Proof. by destruct 1. Qed.

Lemma lrep_frame h h' p ads rs :
  lrep h p ads rs -> (forall a, a ∈ ads -> h' !! a = h !! a) -> lrep h' p ads rs.
Proof.
  induction 1 as [|a n ads rs Ha _ IH]; intros Hsame; [constructor|]. constructor.
  - rewrite Hsame by set_solver. done.
  - apply IH. set_solver.
Qed.

Lemma lrep_alloc h p ads rs a : lrep h p ads rs -> a ∈ ads -> is_Some (h !! a).
Proof.
  induction 1 as [|b n ads rs Hb _ IH]; intros Ha.
  - by apply not_elem_of_nil in Ha.
  - apply elem_of_cons in Ha as [->|Ha]; eauto.
Qed.

(** The node at a position of the list. *)
Lemma lrep_lookup h p ads rs i a :
  lrep h p ads rs -> ads !! i = Some a ->
  exists n, h !! a = Some n /\ rs !! i = Some (n_rule n) /\ n_next n = ads !! S i.
Proof.
  intros Hrep. revert i. induction Hrep as [|b n ads rs Hb Hrep IH]; intros [|i] Ha; simpl in *; try done.
  - simplify_eq. exists n. split_and!; [done..|]. rewrite (lrep_head _ _ _ _ Hrep). by destruct ads.
  - apply IH. done.
Qed.

Lemma lrep_lookup_rule h p ads rs i r :
  lrep h p ads rs -> rs !! i = Some r -> exists a n, ads !! i = Some a /\ h !! a = Some n /\ n_rule n = r.
Proof.
  intros Hrep Hr. pose proof (lrep_length _ _ _ _ Hrep) as Hlen.
  destruct (lookup_lt_is_Some_2 ads i) as [a Ha].
  { rewrite Hlen. by eapply lookup_lt_Some. }
  destruct (lrep_lookup _ _ _ _ _ _ Hrep Ha) as (n & Hn & Hr' & _). exists a, n. split_and!; congruence.
Qed.

(** The part of a list from a position on. *)
Lemma lrep_drop h p ads rs i :
  lrep h p ads rs -> (i <= length ads)%nat -> lrep h (ads !! i) (drop i ads) (drop i rs).
Proof.
  intros Hrep. revert i. induction Hrep as [|a n ads rs Ha Hrep IH]; intros [|i] Hi; simpl in *.
  - constructor.
  - lia.
  - by constructor.
  - apply IH. lia.
Qed.

(** Linking the node before position [k] to another list. *)
Lemma lrep_splice h p ads rs k a n q ads2 rs2 :
  lrep h p ads rs -> NoDup ads -> ads !! k = Some a -> h !! a = Some n ->
  lrep h q ads2 rs2 -> a ∉ ads2 ->
  lrep (<[a := mkNode (n_rule n) q]> h) p (take (S k) ads ++ ads2) (take (S k) rs ++ rs2).
Proof.
  intros Hrep. revert k. induction Hrep as [|b m ads rs Hb Hrep IH]; intros k Hnd Ha Hn Hq Hout; [done|].
  apply NoDup_cons in Hnd as [Hfresh Hnd]. destruct k as [|k]; simpl in *.
  - injection Ha as ->. assert (m = n) as -> by congruence.
    pose proof (lrep_cons (<[a := mkNode (n_rule n) q]> h) a (mkNode (n_rule n) q) ads2 rs2) as Hc.
    simpl in Hc. apply Hc.
    + by rewrite lookup_insert_eq.
    + apply (lrep_frame h); [done|]. intros c Hc'. rewrite lookup_insert_ne; [done|]. set_solver.
  - assert (b <> a) by (intros ->; apply Hfresh; by eapply list_elem_of_lookup_2).
    pose proof (lrep_cons (<[a := mkNode (n_rule n) q]> h) b m) as Hc. apply Hc.
    + by rewrite lookup_insert_ne.
    + by apply IH.
Qed.

(** ** The chains *)

(** The lists of the chains are in the heap and do not share nodes. *)
Record hrep (h : gmap addr rule_node) (t : list sipfw_list) (adss : list (list addr))
    (chains : list (list sipfw_rules)) : Prop := mkHrep {
  hrep_tables : length t = 3%nat;
  hrep_addrs : length adss = 3%nat;
  hrep_chains : length chains = 3%nat;
  hrep_list i l ads rs :
    t !! i = Some l -> adss !! i = Some ads -> chains !! i = Some rs -> lrep h (l_rule l) ads rs;
  hrep_nodup i ads : adss !! i = Some ads -> NoDup ads;
  hrep_apart i j ads ads' a :
    adss !! i = Some ads -> adss !! j = Some ads' -> a ∈ ads -> a ∈ ads' -> i = j;
}.

(** The node [a] is in a chain. *)
Definition linked (adss : list (list addr)) (a : addr) : Prop :=
  exists i ads, adss !! i = Some ads /\ a ∈ ads.

Lemma chain_index i : bad_chain i = false -> 0 <= i < 3.
Proof. unfold bad_chain, SIPFW_CHAIN_NUM. intros Hi. bool_norm. lia. Qed.

Lemma chain_lookup {A} (l : list A) i :
  length l = 3%nat -> bad_chain i = false -> exists x, l !! Z.to_nat i = Some x.
Proof. intros Hl Hi%chain_index. apply lookup_lt_is_Some_2. lia. Qed.

Lemma hrep_frame h h' t adss chains :
  hrep h t adss chains -> (forall a, linked adss a -> h' !! a = h !! a) -> hrep h' t adss chains.
Proof.
  intros [] Hsame. split; try done. intros i l ads rs Hl Hads Hrs.
  apply (lrep_frame h); [eauto|]. intros a Ha. apply Hsame. by exists i, ads.
Qed.

(** The chains only depend on the heads of the lists. *)
Lemma hrep_same_heads h t t' adss chains :
  hrep h t adss chains -> map l_rule t' = map l_rule t -> hrep h t' adss chains.
Proof.
  intros [] Hheads. split; try done.
  - apply (f_equal length) in Hheads. rewrite !length_map in Hheads. congruence.
  - intros i l ads rs Hl Hads Hrs. apply (f_equal (fun l => l !! i)) in Hheads.
    assert (map l_rule t' !! i = Some (l_rule l)) as E by (rewrite list_lookup_fmap, Hl; done).
    rewrite Hheads, list_lookup_fmap in E. destruct (t !! i) as [l0|] eqn:El; simplify_eq/=.
    rewrite <- E. eauto.
Qed.

(** ** Rules for the primitive operations *)

Section rules.
Context `{KernelEnv}.
Implicit Types (Q : unit -> Sipfw -> Prop).

Lemma wp_read_rule a n (Q : rule_node -> Sipfw -> Prop) s :
  heap s !! a = Some n -> Q n s -> wp (read_rule a) Q s.
Proof. intros Ha HQ. unfold wp, read_rule. by rewrite Ha. Qed.

Lemma wp_write_next a n p Q s :
  heap s !! a = Some n -> Q tt (set_heap (<[a := mkNode (n_rule n) p]> (heap s)) s) ->
  wp (write_next a p) Q s.
Proof.
  intros Ha HQ. apply fwp_bind, (wp_read_rule _ n); [done|]. unfold wp, write_rule. by rewrite Ha.
Qed.

Lemma wp_kfree_rule a Q s :
  is_Some (heap s !! a) -> Q tt (set_heap (delete a (heap s)) s) -> wp (kfree_rule a) Q s.
Proof. intros [n Ha] HQ. unfold wp, kfree_rule. by rewrite Ha. Qed.

Lemma wp_get_list i l (Q : sipfw_list -> Sipfw -> Prop) s :
  bad_chain i = false -> sipfw_tables s !! Z.to_nat i = Some l -> Q l s -> wp (get_list i) Q s.
Proof.
  intros Hi Hl HQ. unfold wp, get_list. apply chain_index in Hi.
  rewrite (proj2 (Z.ltb_ge i 0)) by lia. by rewrite Hl.
Qed.

Lemma wp_set_list i l Q s :
  bad_chain i = false -> length (sipfw_tables s) = 3%nat ->
  Q tt (set_tables (<[Z.to_nat i := l]> (sipfw_tables s)) s) -> wp (set_list i l) Q s.
Proof.
  intros Hi%chain_index Hlen HQ. unfold wp, set_list, zlen.
  rewrite (proj2 (Z.ltb_ge i 0)) by lia. rewrite Hlen, (proj2 (Z.leb_gt _ i)) by lia. done.
Qed.

Lemma fwp_gets {A} (f : Sipfw -> A) (Q : A -> Sipfw -> Prop) s : Q (f s) s -> wp (gets f) Q s.
Proof. done. Qed.

Lemma wp_modify f Q s : Q tt (f s) -> wp (modify f) Q s.
Proof. done. Qed.

(** ** Links *)

(** The link at position [k] of the list of a chain. *)
Definition link_at (i : Z) (ads : list addr) (k : nat) : link :=
  match k with
  | O => rule_of i
  | S k => match ads !! k with Some a => next_of a | None => rule_of i end
  end.

Section chain.
Variables (i : Z) (adss : list (list addr)) (chains : list (list sipfw_rules)).
Variables (ads : list addr) (rs : list sipfw_rules).
Hypothesis Hi : bad_chain i = false.
Hypothesis Hads : adss !! Z.to_nat i = Some ads.
Hypothesis Hrs : chains !! Z.to_nat i = Some rs.

Lemma hrep_chain h t :
  hrep h t adss chains -> exists l, t !! Z.to_nat i = Some l /\ lrep h (l_rule l) ads rs.
Proof.
  intros Hh. destruct (chain_lookup t i (hrep_tables _ _ _ _ Hh) Hi) as [l Hl].
  exists l. split; [done|]. by eapply hrep_list.
Qed.

Lemma wp_deref k s (Q : option addr -> Sipfw -> Prop) :
  hrep (heap s) (sipfw_tables s) adss chains -> (k <= length ads)%nat ->
  Q (ads !! k) s -> wp (deref (link_at i ads k)) Q s.
Proof.
  intros Hh Hk HQ. destruct (hrep_chain _ _ Hh) as (l & Hl & Hrep). destruct k as [|k]; simpl.
  - apply fwp_bind, (wp_get_list _ l); [done..|]. apply fwp_ret. rewrite (lrep_head _ _ _ _ Hrep). by destruct ads.
  - destruct (lookup_lt_is_Some_2 ads k) as [a Ha]; [lia|]. rewrite Ha.
    destruct (lrep_lookup _ _ _ _ _ _ Hrep Ha) as (n & Hn & _ & Hnext).
    apply fwp_bind, (wp_read_rule _ n); [done|]. apply fwp_ret. by rewrite Hnext.
Qed.

Lemma link_at_next k a : ads !! k = Some a -> next_of a = link_at i ads (S k).
Proof. intros Ha. simpl. by rewrite Ha. Qed.

(** The loop ends at the position it looks for, or at the end of the list. *)
Lemma wp_seek fuel k number s (Q : link -> Sipfw -> Prop) :
  hrep (heap s) (sipfw_tables s) adss chains -> (k <= length ads)%nat -> (length ads - k < fuel)%nat ->
  Z.of_nat k < number ->
  Q (link_at i ads (min (Z.to_nat (number - 1)) (length ads))) s ->
  wp (seek fuel (link_at i ads k) (Z.of_nat k + 1) number) Q s.
Proof.
  intros Hh. revert k. induction fuel as [|fuel IH]; intros k Hk Hfuel Hnum HQ; [lia|].
  cbn [seek]. apply fwp_bind, wp_deref; [done..|]. destruct (ads !! k) as [a|] eqn:Ha.
  - assert (k < length ads)%nat by (by eapply lookup_lt_Some). case_cond; bool_norm.
    + rewrite (link_at_next k a Ha).
      replace (Z.of_nat k + 1 + 1) with (Z.of_nat (S k) + 1) by lia. apply IH; [lia..|done].
    + apply fwp_ret. rewrite Nat.min_l in HQ by lia. by replace (Z.to_nat (number - 1)) with k in HQ by lia.
  - apply lookup_ge_None in Ha. apply fwp_ret. rewrite Nat.min_r in HQ by lia.
    by replace (length ads) with k in HQ by lia.
Qed.

Lemma wp_find_tail fuel k s (Q : link -> Sipfw -> Prop) :
  hrep (heap s) (sipfw_tables s) adss chains -> (k <= length ads)%nat -> (length ads - k < fuel)%nat ->
  Q (link_at i ads (length ads)) s ->
  wp (find_tail fuel (link_at i ads k)) Q s.
Proof.
  intros Hh. revert k. induction fuel as [|fuel IH]; intros k Hk Hfuel HQ; [lia|].
  cbn [find_tail]. apply fwp_bind, wp_deref; [done..|]. destruct (ads !! k) as [a|] eqn:Ha.
  - assert (k < length ads)%nat by (by eapply lookup_lt_Some).
    rewrite (link_at_next k a Ha). apply IH; [lia..|done].
  - apply lookup_ge_None in Ha. apply fwp_ret. by replace (length ads) with k in HQ by lia.
Qed.

Lemma wp_last_rule fuel k a s (Q : addr -> Sipfw -> Prop) :
  hrep (heap s) (sipfw_tables s) adss chains -> ads !! k = Some a -> (length ads - k <= fuel)%nat ->
  (forall b, next_of b = link_at i ads (length ads) -> Q b s) ->
  wp (last_rule fuel a) Q s.
Proof.
  intros Hh. revert k a. induction fuel as [|fuel IH]; intros k a Ha Hfuel HQ.
  { apply lookup_lt_Some in Ha. lia. }
  destruct (hrep_chain _ _ Hh) as (l & Hl & Hrep).
  destruct (lrep_lookup _ _ _ _ _ _ Hrep Ha) as (n & Hn & _ & Hnext).
  cbn [last_rule]. apply fwp_bind, (wp_read_rule _ n); [done|]. rewrite Hnext.
  destruct (ads !! S k) as [b|] eqn:Hb.
  - apply (IH (S k)); [done|lia|done].
  - apply lookup_ge_None in Hb. apply fwp_ret, HQ. pose proof (lookup_lt_Some _ _ _ Ha).
    rewrite (link_at_next k a Ha). f_equal. lia.
Qed.

End chain.
End rules.

(** ** Updates of a chain *)

Lemma linked_insert adss i ads' a :
  (i < length adss)%nat ->
  linked (<[i := ads']> adss) a <-> a ∈ ads' \/ exists j ads, j <> i /\ adss !! j = Some ads /\ a ∈ ads.
Proof.
  intros Hi. unfold linked. split.
  - intros (j & ads & Hj & Ha). destruct (decide (j = i)) as [->|Hne].
    + rewrite list_lookup_insert_eq in Hj by done. simplify_eq. by left.
    + rewrite list_lookup_insert_ne in Hj by done. right. by exists j, ads.
  - intros [Ha|(j & ads & Hne & Hj & Ha)].
    + exists i, ads'. by rewrite list_lookup_insert_eq.
    + exists j, ads. by rewrite list_lookup_insert_ne.
Qed.

(** Another list for chain [i], in a heap and tables that are the same for the others. *)
Lemma hrep_update h h' t t' adss chains i ads ads' rs' l' :
  hrep h t adss chains -> adss !! i = Some ads ->
  length t' = 3%nat -> t' !! i = Some l' -> lrep h' (l_rule l') ads' rs' ->
  (forall j, j <> i -> l_rule <$> t' !! j = l_rule <$> t !! j) ->
  (forall j bds a, j <> i -> adss !! j = Some bds -> a ∈ bds -> h' !! a = h !! a) ->
  NoDup ads' -> (forall a, a ∈ ads' -> a ∈ ads \/ ~ linked adss a) ->
  hrep h' t' (<[i := ads']> adss) (<[i := rs']> chains).
Proof.
  intros Hh Hads Hlen Hl' Hrep Hheads Hsame Hnd Hfrom.
  assert (Hi : (i < 3)%nat) by (rewrite <- (hrep_addrs _ _ _ _ Hh); by eapply lookup_lt_Some).
  assert (Hapart : forall j bds a, j <> i -> adss !! j = Some bds -> a ∈ bds -> a ∉ ads').
  { intros j bds a Hne Hj Ha Ha'. destruct (Hfrom a Ha') as [Hin|Hout].
    - apply Hne. by eapply hrep_apart.
    - apply Hout. by exists j, bds. }
  pose proof Hh as Hh0. destruct Hh as [H1 H2 H3 H4 H5 H6]. split.
  - done.
  - by rewrite length_insert.
  - by rewrite length_insert.
  - intros j l bds rs Hl Hb Hr. destruct (decide (j = i)) as [->|Hne].
    + rewrite list_lookup_insert_eq in Hb by lia. rewrite list_lookup_insert_eq in Hr by lia. by simplify_eq.
    + rewrite list_lookup_insert_ne in Hb by done. rewrite list_lookup_insert_ne in Hr by done.
      pose proof (Hheads j Hne) as E. rewrite Hl in E. destruct (t !! j) as [l0|] eqn:El; simplify_eq/=.
      rewrite E. apply (lrep_frame h); [by eapply H4|]. intros a Ha. by eapply Hsame.
  - intros j bds Hb. destruct (decide (j = i)) as [->|Hne].
    + rewrite list_lookup_insert_eq in Hb by lia. by simplify_eq.
    + rewrite list_lookup_insert_ne in Hb by done. by eapply H5.
  - intros j k bds cds a Hb Hc Ha Ha'. destruct (decide (j = i)) as [->|Hne], (decide (k = i)) as [->|Hne'].
    + done.
    + rewrite list_lookup_insert_eq in Hb by lia. rewrite list_lookup_insert_ne in Hc by done.
      simplify_eq. by destruct (Hapart k cds a).
    + rewrite list_lookup_insert_eq in Hc by lia. rewrite list_lookup_insert_ne in Hb by done.
      simplify_eq. by destruct (Hapart j bds a).
    + rewrite list_lookup_insert_ne in Hb by done. rewrite list_lookup_insert_ne in Hc by done. by eapply H6.
Qed.

(** What [assign] leaves alone: the numbers and snapshots of the chains. *)
Definition same_counts (t t' : list sipfw_list) : Prop :=
  forall j, (fun l => (l_snapshot l, l_number l)) <$> t' !! j = (fun l => (l_snapshot l, l_number l)) <$> t !! j.

Section assign.
Context `{KernelEnv}.
Variables (i : Z) (adss : list (list addr)) (chains : list (list sipfw_rules)).
Variables (ads : list addr) (rs : list sipfw_rules).
Hypothesis Hi : bad_chain i = false.
Hypothesis Hads : adss !! Z.to_nat i = Some ads.
Hypothesis Hrs : chains !! Z.to_nat i = Some rs.

(** Linking position [k] of a chain to another list. *)
Lemma wp_assign k p ads2 rs2 s (Q : unit -> Sipfw -> Prop) :
  hrep (heap s) (sipfw_tables s) adss chains -> (k <= length ads)%nat ->
  lrep (heap s) p ads2 rs2 -> NoDup ads2 ->
  (forall a, a ∈ ads2 -> a ∈ drop k ads \/ ~ linked adss a) ->
  (forall h' t',
      hrep h' t' (<[Z.to_nat i := take k ads ++ ads2]> adss) (<[Z.to_nat i := take k rs ++ rs2]> chains) ->
      dom h' = dom (heap s) -> (forall a, a ∉ take k ads -> h' !! a = heap s !! a) ->
      same_counts (sipfw_tables s) t' ->
      Q tt (mem s h' (snaps s) (rcu s) t' (ticks s))) ->
  wp (assign (link_at i ads k) p) Q s.
Proof.
  intros Hh Hk Hrep2 Hnd2 Hfrom HQ. set (t := sipfw_tables s) in *. set (h := heap s) in *.
  destruct (hrep_chain i adss chains ads rs Hi Hads Hrs h t Hh) as (l & Hl & Hrep).
  pose proof (hrep_nodup _ _ _ _ Hh _ _ Hads) as Hnd. pose proof (chain_index _ Hi) as Hrange.
  pose proof (hrep_tables _ _ _ _ Hh) as Ht.
  assert (Hapart : forall a, a ∈ take k ads -> a ∉ ads2).
  { intros a Ha Ha2. destruct (Hfrom a Ha2) as [Hd|Hout].
    - rewrite <- (take_drop k ads) in Hnd. apply NoDup_app in Hnd as (_ & Hdis & _). by apply (Hdis a).
    - apply Hout. exists (Z.to_nat i), ads. split; [done|]. rewrite <- (take_drop k ads). set_solver. }
  assert (Hnd' : NoDup (take k ads ++ ads2)).
  { apply NoDup_app. split_and!; [|done|done].
    rewrite <- (take_drop k ads) in Hnd. by apply NoDup_app in Hnd as [? _]. }
  assert (Hfrom' : forall a, a ∈ take k ads ++ ads2 -> a ∈ ads \/ ~ linked adss a).
  { intros a [Ha|Ha]%elem_of_app; [left|destruct (Hfrom a Ha); [left|by right]];
      rewrite <- (take_drop k ads); set_solver. }
  destruct k as [|k]; simpl.
  - apply fwp_bind, (wp_get_list _ l); [done..|]. apply wp_set_list; [done..|].
    apply (HQ h (<[Z.to_nat i := mkList p (l_snapshot l) (l_number l)]> t)); [|done..|].
    + eapply (hrep_update h h t); [done..| |by rewrite list_lookup_insert_eq by (unfold t in *; lia)|done|
        |done|by rewrite take_0 in Hnd'|by rewrite take_0 in Hfrom'].
      * by rewrite length_insert.
      * intros j Hne. by rewrite list_lookup_insert_ne.
    + intros j. destruct (decide (j = Z.to_nat i)) as [->|Hne].
      * rewrite list_lookup_insert_eq by (unfold t in *; lia). by rewrite Hl.
      * by rewrite list_lookup_insert_ne.
  - destruct (lookup_lt_is_Some_2 ads k) as [a Ha]; [lia|]. rewrite Ha.
    destruct (lrep_lookup _ _ _ _ _ _ Hrep Ha) as (n & Hn & _ & _).
    assert (Hin : a ∈ take (S k) ads).
    { apply list_elem_of_lookup. exists k. rewrite lookup_take_lt by lia. done. }
    apply (wp_write_next _ n); [done|]. apply (HQ (<[a := mkNode (n_rule n) p]> h) t); [|..|done].
    + eapply (hrep_update h); [done..| | | |done|done].
      * by apply lrep_splice; [..|apply Hapart].
      * done.
      * intros j bds b Hne Hb Hin'. rewrite lookup_insert_ne; [done|]. intros ->. apply Hne.
        eapply (hrep_apart _ _ _ _ Hh); [done|done|done|]. by eapply list_elem_of_lookup_2.
    + apply dom_insert_lookup_L. by exists n.
    + intros b Hb. rewrite lookup_insert_ne; [done|]. by intros ->.
Qed.

End assign.

(** ** Snapshots *)

(** The count and the snapshot of a chain with the rules [rs]; an empty chain has none. *)
Definition snap_ok (n : gmap addr sipfw_rule_snapshot) (l : sipfw_list) (rs : list sipfw_rules) : Prop :=
  l_number l = zlen rs
  /\ match l_snapshot l with
     | Some a => rs <> [] /\ n !! a = Some (mkSnapshot (zlen rs) rs)
     | None => rs = []
     end.

(** The snapshots in memory: one per chain that has rules, those that wait for a grace period,
    and [pend], which are not published yet.  The chains in [P] have an up-to-date one. *)
Record srep (P : nat -> Prop) (pend : list addr) (n : gmap addr sipfw_rule_snapshot)
    (t : list sipfw_list) (r : list addr) (chains : list (list sipfw_rules)) : Prop := mkSrep {
  srep_snap i l rs : P i -> t !! i = Some l -> chains !! i = Some rs -> snap_ok n l rs;
  srep_nodup : NoDup (pend ++ omap l_snapshot t ++ r);
  srep_dom : dom n = list_to_set (pend ++ omap l_snapshot t ++ r);
}.

Definition every_chain : nat -> Prop := fun _ => True.
Definition other_chains (P : nat -> Prop) (i : nat) : nat -> Prop := fun j => P j /\ j <> i.
Definition also_chain (P : nat -> Prop) (i : nat) : nat -> Prop := fun j => P j \/ j = i.

Lemma srep_weaken (P P' : nat -> Prop) pend n t r chains :
  (forall j, P' j -> P j) -> srep P pend n t r chains -> srep P' pend n t r chains.
Proof. intros Hsub [H1 H2 H3]. split; [|done..]. intros j l rs HP. apply H1, Hsub, HP. Qed.

Lemma omap_same_counts t t' : same_counts t t' -> omap l_snapshot t' = omap l_snapshot t.
Proof.
  unfold same_counts. revert t'. induction t as [|l t IH]; intros [|l' t'] Hc; [done|..].
  - by pose proof (Hc 0%nat).
  - by pose proof (Hc 0%nat).
  - pose proof (Hc 0%nat) as H0. simpl in H0. simplify_eq. simpl.
    replace (l_snapshot l') with (l_snapshot l) by congruence.
    assert (IH' : omap l_snapshot t' = omap l_snapshot t) by (apply IH; intros j; apply (Hc (S j))).
    destruct (l_snapshot l); [f_equal|]; apply IH'.
Qed.

Lemma srep_same_counts P pend n t t' r chains :
  srep P pend n t r chains -> same_counts t t' -> srep P pend n t' r chains.
Proof.
  intros [H1 H2 H3] Hc. split; [|by rewrite (omap_same_counts _ _ Hc)..].
  intros i l rs HP Hl Hrs. pose proof (Hc i) as E. rewrite Hl in E.
  destruct (t !! i) as [l0|] eqn:El; simplify_eq/=. pose proof (H1 i l0 rs HP El Hrs) as Hok.
  unfold snap_ok in *. by replace (l_number l) with (l_number l0) by congruence;
    replace (l_snapshot l) with (l_snapshot l0) by congruence.
Qed.

Lemma omap_insert {A B} (f : A -> option B) (t : list A) i x :
  t !! i = Some x ->
  omap f t = omap f (take i t) ++ option_list (f x) ++ omap f (drop (S i) t).
Proof.
  intros Hx. rewrite <- (take_drop_middle t i x Hx) at 1. rewrite omap_app. simpl. by destruct (f x).
Qed.

(** Publishing exchanges the snapshot of a chain. *)
Lemma publish_perm t r i l l' :
  t !! i = Some l ->
  omap l_snapshot (<[i := l']> t) ++ r ++ option_list (l_snapshot l)
  ≡ₚ option_list (l_snapshot l') ++ omap l_snapshot t ++ r.
Proof.
  intros Hl. assert (Hi : (i < length t)%nat) by (by eapply lookup_lt_Some).
  rewrite (omap_insert _ t i l Hl), (omap_insert _ (<[i := l']> t) i l')
    by (by rewrite list_lookup_insert_eq).
  rewrite take_insert_ge, drop_insert_lt by lia. solve_Permutation.
Qed.

(** A new snapshot. *)
Lemma srep_alloc P a v n t r chains :
  srep P [] n t r chains -> a ∉ dom n -> srep P [a] (<[a := v]> n) t r chains.
Proof.
  intros [H1 H2 H3] Ha. simpl in H3. split.
  - intros j l rj HP Hl Hrj. destruct (H1 j l rj HP Hl Hrj) as [Hn Hsn]. split; [done|].
    destruct (l_snapshot l) as [b|] eqn:Hb; [|done]. rewrite lookup_insert_ne; [done|]. intros ->.
    destruct Hsn as [_ Hsn]. apply Ha, elem_of_dom. by eexists.
  - apply NoDup_cons. split; [|done]. intros Hin. apply Ha. rewrite H3. by apply elem_of_list_to_set.
  - rewrite dom_insert_L, H3. done.
Qed.

Section snapshots.
Context `{KernelEnv}.

Lemma wp_alloc_snapshot count s (Q : option addr -> Sipfw -> Prop) :
  0 < count ->
  (kmem_ok (ticks s) = false -> Q None (next_tick s)) ->
  (forall a, kmem_ok (ticks s) = true -> a ∉ dom (snaps s) ->
     Q (Some a) (mem s (heap s) (<[a := mkSnapshot count (replicate (Z.to_nat count) zero_rule)]> (snaps s))
          (rcu s) (sipfw_tables s) (S (ticks s)))) ->
  wp (SIPFW_AllocRuleSnapshot count) Q s.
Proof.
  intros Hpos Hfail Hok. unfold SIPFW_AllocRuleSnapshot. rewrite (proj2 (Z.eqb_neq _ _)) by lia.
  apply fwp_bind. unfold tick, wp at 1. destruct (kmem_ok (ticks s)) eqn:E; [|by apply fwp_ret, Hfail].
  apply fwp_bind, fwp_gets, fwp_bind, wp_modify, fwp_ret.
  pose proof (kmem_addr_fresh (used_memory (next_tick s))) as Hfresh.
  unfold used_memory in Hfresh. apply not_elem_of_union in Hfresh as []. by apply Hok.
Qed.

Lemma wp_prepare new_count s (Q : Z * option addr -> Sipfw -> Prop) :
  0 <= new_count ->
  (new_count = 0 -> Q (0, None) s) ->
  (0 < new_count -> kmem_ok (ticks s) = false -> Q (- ENOMEM, None) (next_tick s)) ->
  (0 < new_count -> forall a, kmem_ok (ticks s) = true -> a ∉ dom (snaps s) ->
     Q (0, Some a)
       (mem s (heap s) (<[a := mkSnapshot new_count (replicate (Z.to_nat new_count) zero_rule)]> (snaps s))
          (rcu s) (sipfw_tables s) (S (ticks s)))) ->
  wp (SIPFW_PrepareRuleSnapshotLocked new_count) Q s.
Proof.
  intros Hge H0 Hfail Hok. unfold SIPFW_PrepareRuleSnapshotLocked.
  destruct (Z.eqb_spec new_count 0) as [->|Hne]; [by apply fwp_ret, H0|].
  apply fwp_bind, wp_alloc_snapshot; [lia| |].
  - intros E. apply fwp_ret, Hfail; [lia|done].
  - intros a E Ha. apply fwp_ret, Hok; [lia|done..].
Qed.

Lemma wp_read_snapshot a p (Q : sipfw_rule_snapshot -> Sipfw -> Prop) s :
  snaps s !! a = Some p -> Q p s -> wp (read_snapshot a) Q s.
Proof. intros Ha HQ. unfold wp, read_snapshot. by rewrite Ha. Qed.

Lemma wp_set_count a p count (Q : unit -> Sipfw -> Prop) s :
  snaps s !! a = Some p -> Q tt (set_snaps (<[a := mkSnapshot count (snap_rules p)]> (snaps s)) s) ->
  wp (set_count a count) Q s.
Proof.
  intros Ha HQ. apply fwp_bind, (wp_read_snapshot _ p); [done|]. unfold wp, write_snapshot. by rewrite Ha.
Qed.

(** The loop copies all rules of the list. *)
Lemma wp_copy_rules fuel a p ads rs k s (Q : nat -> Sipfw -> Prop) :
  lrep (heap s) p ads rs -> (k <= length rs)%nat -> (length rs - k < fuel)%nat ->
  snaps s !! a = Some (mkSnapshot (zlen rs) (take k rs ++ replicate (length rs - k) zero_rule)) ->
  Q (length rs) (set_snaps (<[a := mkSnapshot (zlen rs) rs]> (snaps s)) s) ->
  wp (copy_rules fuel a (ads !! k) k) Q s.
Proof.
  revert k s. induction fuel as [|fuel IH]; intros k s Hrep Hk Hfuel Ha HQ; [lia|].
  pose proof (lrep_length _ _ _ _ Hrep) as Hlen. cbn [copy_rules]. destruct (ads !! k) as [b|] eqn:Hb.
  - destruct (lrep_lookup _ _ _ _ _ _ Hrep Hb) as (m & Hm & Hr & Hnext).
    assert (k < length rs)%nat by (rewrite <- Hlen; by eapply lookup_lt_Some).
    apply fwp_bind, (wp_read_snapshot _ _ _ _ Ha). simpl. unfold zlen.
    rewrite (proj2 (Z.ltb_lt _ _)) by lia. apply fwp_bind, (wp_read_rule _ m); [done|].
    apply fwp_bind. unfold write_snapshot_rule. apply fwp_bind, (wp_read_snapshot _ _ _ _ Ha). simpl.
    rewrite decide_True by (rewrite length_app, length_take, length_replicate; lia).
    unfold wp at 1, write_snapshot. rewrite Ha. rewrite Hnext. apply IH.
    + done.
    + lia.
    + lia.
    + simpl. rewrite lookup_insert_eq. do 2 f_equal.
      destruct (length rs - k)%nat as [|d] eqn:Hd; [lia|]. simpl.
      rewrite insert_app_r_alt by (rewrite length_take; lia).
      replace (k - length (take k rs))%nat with 0%nat by (rewrite length_take; lia). simpl.
      rewrite (take_S_r _ _ _ Hr), <- app_assoc. simpl. do 3 f_equal. lia.
    + simpl. by rewrite insert_insert_eq.
  - apply lookup_ge_None in Hb. assert (k = length rs) as -> by lia. apply fwp_ret.
    rewrite take_ge, Nat.sub_diag in Ha by lia. simpl in Ha. rewrite app_nil_r in Ha.
    rewrite (insert_id _ _ _ Ha) in HQ. by destruct s.
Qed.

(** The snapshot of a chain that has been changed is exchanged. *)
Lemma wp_exchange P i adss chains rs l pend n' s (Q : unit -> Sipfw -> Prop) :
  bad_chain i = false -> chains !! Z.to_nat i = Some rs -> sipfw_tables s !! Z.to_nat i = Some l ->
  hrep (heap s) (sipfw_tables s) adss chains -> l_number l = zlen rs ->
  srep (other_chains P (Z.to_nat i)) (option_list pend) n' (sipfw_tables s) (rcu s) chains ->
  match pend with
  | Some a => rs <> [] /\ n' !! a = Some (mkSnapshot (zlen rs) rs)
  | None => rs = []
  end ->
  (forall r', let t' := <[Z.to_nat i := mkList (l_rule l) pend (l_number l)]> (sipfw_tables s) in
     hrep (heap s) t' adss chains -> srep (also_chain P (Z.to_nat i)) [] n' t' r' chains ->
     Q tt (mem s (heap s) n' r' t' (ticks s))) ->
  wp (exchange_snapshot i pend) Q (set_snaps n' s).
Proof.
  intros Hi Hrs Hl Hh Hnum Hs Hpend HQ. pose proof (chain_index _ Hi) as Hrange.
  pose proof (hrep_tables _ _ _ _ Hh) as Ht. apply fwp_bind, (wp_get_list _ l); [done..|].
  apply fwp_bind, wp_set_list; [done..|].
  set (l' := mkList (l_rule l) pend (l_number l)). set (t' := <[Z.to_nat i := l']> (sipfw_tables s)).
  assert (Hh' : hrep (heap s) t' adss chains).
  { eapply hrep_same_heads; [done|]. unfold t'. rewrite list_fmap_insert. apply list_insert_id.
    rewrite list_lookup_fmap, Hl. done. }
  assert (Hs' : srep (also_chain P (Z.to_nat i)) [] n' t' (rcu s ++ option_list (l_snapshot l)) chains).
  { pose proof (publish_perm (sipfw_tables s) (rcu s) _ l l' Hl) as Hperm. fold t' in Hperm.
    destruct Hs as [Hsnap Hnd Hdom]. split.
    - intros j lj rj HP Hj Hrj. destruct (decide (j = Z.to_nat i)) as [->|Hne].
      + unfold t' in Hj. rewrite list_lookup_insert_eq in Hj by lia.
        assert (lj = l') as -> by congruence. assert (rj = rs) as -> by congruence. done.
      + unfold t' in Hj. rewrite list_lookup_insert_ne in Hj by done. apply (Hsnap j); [|done..].
        destruct HP; [by split|done].
    - simpl. by rewrite Hperm.
    - rewrite Hdom. simpl. apply list_to_set_perm_L. by rewrite Hperm. }
  destruct (l_snapshot l) as [old|]; simpl in Hs'.
  - apply wp_modify, (HQ (rcu s ++ [old])); done.
  - apply fwp_ret. rewrite app_nil_r in Hs'. by apply (HQ (rcu s)).
Qed.

(** The pending snapshot is not the one of a chain. *)
Lemma srep_write_pending P i a v n t r chains :
  srep (other_chains P i) [a] n t r chains -> srep (other_chains P i) [a] (<[a := v]> n) t r chains.
Proof.
  intros [Hsnap Hnd Hdom]. split; [|done|].
  - intros j lj rj Hne Hj Hrj. destruct (Hsnap j lj rj Hne Hj Hrj) as [Hn Hsn]. split; [done|].
    destruct (l_snapshot lj) as [b|] eqn:Hb; [|done]. rewrite lookup_insert_ne; [done|]. intros ->.
    apply NoDup_cons in Hnd as [Hout _]. apply Hout, elem_of_app. left. apply list_elem_of_omap.
    exists lj. split; [by eapply list_elem_of_lookup_2|done].
  - rewrite <- Hdom. apply dom_insert_lookup_L, elem_of_dom. rewrite Hdom. set_solver.
Qed.

(** Publishing the snapshot of a chain that has been changed. *)
Lemma wp_publish P i adss chains ads rs l pend s (Q : unit -> Sipfw -> Prop) :
  bad_chain i = false -> adss !! Z.to_nat i = Some ads -> chains !! Z.to_nat i = Some rs ->
  sipfw_tables s !! Z.to_nat i = Some l ->
  hrep (heap s) (sipfw_tables s) adss chains -> zlen rs < 2 ^ 31 -> (length ads <= size (heap s))%nat ->
  srep (other_chains P (Z.to_nat i)) (option_list pend) (snaps s) (sipfw_tables s) (rcu s) chains ->
  l_number l = zlen rs ->
  match pend with
  | Some a => rs <> [] /\ snaps s !! a = Some (mkSnapshot (zlen rs) (replicate (length rs) zero_rule))
  | None => rs = []
  end ->
  (forall n' r', let t' := <[Z.to_nat i := mkList (l_rule l) pend (l_number l)]> (sipfw_tables s) in
     hrep (heap s) t' adss chains -> srep (also_chain P (Z.to_nat i)) [] n' t' r' chains ->
     Q tt (mem s (heap s) n' r' t' (ticks s))) ->
  wp (SIPFW_PublishRuleSnapshotLocked i pend) Q s.
Proof.
  intros Hi Hads Hrs Hl Hh Hbound Hsize Hs Hnum Hpend HQ.
  pose proof (hrep_list _ _ _ _ Hh _ _ _ _ Hl Hads Hrs) as Hrep.
  pose proof (lrep_length _ _ _ _ Hrep) as Hlen.
  apply fwp_bind, (wp_get_list _ l); [done..|]. apply fwp_bind. destruct pend as [a|].
  - destruct Hpend as [Hne Ha]. apply fwp_bind, (wp_set_count _ _ _ _ _ Ha). simpl.
    rewrite Hnum, wrap_id by (unfold fits; pose proof (zlen_nonneg rs); lia).
    apply fwp_bind, fwp_gets, fwp_bind.
    assert (l_rule l = ads !! 0%nat) as -> by (rewrite (lrep_head _ _ _ _ Hrep); by destruct ads).
    eapply (wp_copy_rules _ a _ ads rs 0).
    + done.
    + lia.
    + simpl. lia.
    + simpl. by rewrite lookup_insert_eq, Nat.sub_0_r.
    + simpl. eapply wp_set_count; [simpl; by rewrite lookup_insert_eq|]. simpl. rewrite !insert_insert_eq.
      apply (wp_exchange P i adss chains rs l (Some a) (<[a := mkSnapshot (zlen rs) rs]> (snaps s)) s); try done.
      * by apply srep_write_pending.
      * by rewrite lookup_insert_eq.
      * intros r'. apply HQ.
  - apply fwp_ret. replace s with (set_snaps (snaps s) s) at 1 by (by destruct s).
    apply (wp_exchange P i adss chains rs l); try done. intros r'. apply HQ.
Qed.

End snapshots.
