(* ===== verification/SipfwRules.v ===== *)
(** The commands of the firewall on its chains: with the memory invariant, each of them is the
    operation on lists that it promises. *)
From S2P Require Import Prelude Sipfw SipfwHeap.

(** ** The memory invariant *)

(** The rules in memory are those of the chains and the private ones in [priv]. *)
Record owned (priv : gset addr) (h : gmap addr rule_node) (adss : list (list addr)) : Prop := mkOwned {
  owned_dom a : a ∈ dom h <-> linked adss a \/ a ∈ priv;
  owned_priv a : a ∈ priv -> ~ linked adss a;
}.

(** The module holds the rules [chains] and nothing else, but for the rules in [priv]; the
    chains in [P] have their snapshots. *)
Record mrepP (P : nat -> Prop) (priv : gset addr) (s : Sipfw) (adss : list (list addr))
    (chains : list (list sipfw_rules)) : Prop := mkMrep {
  mrepP_lists : hrep (heap s) (sipfw_tables s) adss chains;
  mrepP_snaps : srep P [] (snaps s) (sipfw_tables s) (rcu s) chains;
  mrepP_owned : owned priv (heap s) adss;
}.

(** The same while chain [i] is changed; [pend] is its next snapshot. *)
Record orepP (P : nat -> Prop) (i : nat) (pend : option addr) (priv : gset addr) (s : Sipfw)
    (adss : list (list addr)) (chains : list (list sipfw_rules)) : Prop := mkOrep {
  orepP_lists : hrep (heap s) (sipfw_tables s) adss chains;
  orepP_snaps : srep (other_chains P i) (option_list pend) (snaps s) (sipfw_tables s) (rcu s) chains;
  orepP_owned : owned priv (heap s) adss;
}.

Lemma mrepP_weaken (P P' : nat -> Prop) priv s adss chains :
  (forall j, P' j -> P j) -> mrepP P priv s adss chains -> mrepP P' priv s adss chains.
Proof. intros Hsub []. split; [done| |done]. by eapply srep_weaken. Qed.

Abbreviation mrep := (mrepP every_chain).
Abbreviation orep := (orepP every_chain).

Section every.
Context {priv : gset addr} {s : Sipfw} {adss : list (list addr)} {chains : list (list sipfw_rules)}.

Definition mrep_lists (Hm : mrep priv s adss chains) := mrepP_lists _ _ _ _ _ Hm.
Definition mrep_snaps (Hm : mrep priv s adss chains) := mrepP_snaps _ _ _ _ _ Hm.
Definition mrep_owned (Hm : mrep priv s adss chains) := mrepP_owned _ _ _ _ _ Hm.
Definition orep_lists {i pend} (Ho : orep i pend priv s adss chains) := orepP_lists _ _ _ _ _ _ _ Ho.
Definition orep_owned {i pend} (Ho : orep i pend priv s adss chains) := orepP_owned _ _ _ _ _ _ _ Ho.
End every.

(** The state of the module holds the rules [chains]. *)
Definition rep (s : Sipfw) (chains : list (list sipfw_rules)) : Prop := exists adss, mrep ∅ s adss chains.

(** Only the memory differs. *)
Definition memory_only (s s' : Sipfw) : Prop := exists h n r t k, s' = mem s h n r t k.

Lemma memory_only_refl s : memory_only s s.
Proof. exists (heap s), (snaps s), (rcu s), (sipfw_tables s), (ticks s). apply mem_id. Qed.

Lemma memory_only_trans s1 s2 s3 : memory_only s1 s2 -> memory_only s2 s3 -> memory_only s1 s3.
Proof. intros (h & n & r & t & k & ->) (h' & n' & r' & t' & k' & ->). by exists h', n', r', t', k'. Qed.

Lemma memory_only_mem s h n r t k : memory_only s (mem s h n r t k).
Proof. by exists h, n, r, t, k. Qed.

Lemma memory_only_heap s h : memory_only s (set_heap h s).
Proof. apply (memory_only_mem s h (snaps s) (rcu s) (sipfw_tables s) (ticks s)). Qed.

#[export] Hint Resolve memory_only_refl memory_only_mem memory_only_heap : iota.

(** ** A chain fits in memory *)

Lemma owned_length priv h adss i ads :
  owned priv h adss -> adss !! i = Some ads -> NoDup ads -> (length ads <= size h)%nat.
Proof.
  intros Ho Hads Hnd. rewrite <- size_dom, <- (size_list_to_set (C := gset addr) ads) by done.
  apply subseteq_size. intros a Ha. apply elem_of_list_to_set in Ha. apply (owned_dom _ _ _ Ho). left.
  by exists i, ads.
Qed.

Section rules.
Context `{KernelEnv} (P : nat -> Prop).
Variables (i : Z) (adss : list (list addr)) (chains : list (list sipfw_rules)).
Variables (ads : list addr) (rs : list sipfw_rules).
Hypothesis Hi : bad_chain i = false.
Hypothesis Hads : adss !! Z.to_nat i = Some ads.
Hypothesis Hrs : chains !! Z.to_nat i = Some rs.

Lemma take_drop_linked k a : a ∈ take k ads \/ a ∈ drop k ads -> linked adss a.
Proof.
  intros Ha. exists (Z.to_nat i), ads. split; [done|]. rewrite <- (take_drop k ads). by apply elem_of_app.
Qed.

(** Linking another list into the chain: the nodes that are not reached any more become
    private. *)
Lemma wp_orep_assign pend priv k p ads2 rs2 s (Q : unit -> Sipfw -> Prop) :
  orepP P (Z.to_nat i) pend priv s adss chains -> (k <= length ads)%nat ->
  lrep (heap s) p ads2 rs2 -> NoDup ads2 -> (forall a, a ∈ ads2 -> a ∈ drop k ads \/ a ∈ priv) ->
  (forall s', memory_only s s' ->
     orepP P (Z.to_nat i) pend ((priv ∪ list_to_set (drop k ads)) ∖ list_to_set ads2) s'
       (<[Z.to_nat i := take k ads ++ ads2]> adss) (<[Z.to_nat i := take k rs ++ rs2]> chains) ->
     (forall a, a ∉ take k ads -> heap s' !! a = heap s !! a) ->
     snaps s' = snaps s -> same_counts (sipfw_tables s) (sipfw_tables s') ->
     Q tt s') ->
  wp (assign (link_at i ads k) p) Q s.
Proof.
  intros [Hh Hs Ho] Hk Hrep Hnd Hfrom HQ.
  assert (Hlen : (Z.to_nat i < length adss)%nat) by (by eapply lookup_lt_Some).
  eapply (wp_assign i adss chains ads rs); try done.
  { intros a Ha. destruct (Hfrom a Ha); [by left|right]. by apply (owned_priv _ _ _ Ho). }
  intros h' t' Hh' Hdom Hsame Hcounts. apply HQ; [apply memory_only_mem| |done|done|done].
  assert (Hnd' : NoDup (take k ads ++ drop k ads)).
  { rewrite take_drop. by eapply (hrep_nodup _ _ _ _ Hh). }
  apply NoDup_app in Hnd' as (_ & Hdis & _). split; simpl.
  - done.
  - apply (srep_same_counts _ _ _ (sipfw_tables s)); [|done]. destruct Hs as [H1 H2 H3]. split; [|done..].
    intros j l rj HP Hl Hrj. rewrite list_lookup_insert_ne in Hrj by (symmetry; apply HP). by apply (H1 j).
  - split; intros a; rewrite linked_insert by done.
    + rewrite Hdom, (owned_dom _ _ _ Ho), elem_of_difference, elem_of_union, !elem_of_list_to_set, elem_of_app.
      split.
      * intros [(j & bds & Hj & Ha)|Ha].
        -- destruct (decide (j = Z.to_nat i)) as [->|Hne]; [|left; right; by exists j, bds].
           assert (bds = ads) as -> by congruence. rewrite <- (take_drop k ads), elem_of_app in Ha.
           destruct (decide (a ∈ ads2)); [tauto|]. tauto.
        -- destruct (decide (a ∈ ads2)); [tauto|]. tauto.
      * intros [[[Ha|Ha]|(j & bds & Hne & Hj & Ha)]|[[Ha|Ha] _]].
        -- left. apply (take_drop_linked k). tauto.
        -- destruct (Hfrom a Ha) as [Hd|Hp]; [left|by right]. apply (take_drop_linked k). tauto.
        -- left. by exists j, bds.
        -- by right.
        -- left. apply (take_drop_linked k). tauto.
    + rewrite elem_of_difference, elem_of_union, !elem_of_list_to_set, elem_of_app.
      intros [[Ha|Ha] Hout] [[Ht|Ht]|(j & bds & Hne & Hj & Hb)]; try done.
      * eapply (owned_priv _ _ _ Ho); [done|]. apply (take_drop_linked k). tauto.
      * eapply (owned_priv _ _ _ Ho); [done|]. by exists j, bds.
      * by apply (Hdis a).
      * apply Hne. eapply (hrep_apart _ _ _ _ Hh); [done|done|done|].
        rewrite <- (take_drop k ads). apply elem_of_app. by right.
Qed.

End rules.

Section more_rules.
Context `{KernelEnv} (P : nat -> Prop).
Variables (i : Z) (adss : list (list addr)) (chains : list (list sipfw_rules)).
Hypothesis Hi : bad_chain i = false.

(** Writing to a private node. *)
Lemma hrep_private priv s adss' chains' a n :
  hrep (heap s) (sipfw_tables s) adss' chains' -> owned priv (heap s) adss' -> a ∈ priv ->
  hrep (<[a := n]> (heap s)) (sipfw_tables s) adss' chains' /\ owned priv (<[a := n]> (heap s)) adss'.
Proof.
  intros Hh Ho Ha. pose proof (owned_priv _ _ _ Ho a Ha) as Hout. split.
  - apply (hrep_frame (heap s)); [done|]. intros b Hb. rewrite lookup_insert_ne; [done|]. by intros ->.
  - assert (dom (<[a := n]> (heap s)) = dom (heap s)) as E.
    { apply dom_insert_lookup_L, elem_of_dom, (owned_dom _ _ _ Ho). by right. }
    destruct Ho as [H1 H2]. split; [|done]. intros b. by rewrite E.
Qed.

Lemma wp_orep_write_next pend priv a p s (Q : unit -> Sipfw -> Prop) :
  orepP P (Z.to_nat i) pend priv s adss chains -> a ∈ priv ->
  (forall n, heap s !! a = Some n -> let s' := set_heap (<[a := mkNode (n_rule n) p]> (heap s)) s in
     orepP P (Z.to_nat i) pend priv s' adss chains -> Q tt s') ->
  wp (write_next a p) Q s.
Proof.
  intros [Hh Hs Ho] Ha HQ. assert (is_Some (heap s !! a)) as [n Hn].
  { apply elem_of_dom, (owned_dom _ _ _ Ho). by right. }
  apply (wp_write_next _ n); [done|]. apply (HQ n Hn).
  destruct (hrep_private _ _ _ _ _ (mkNode (n_rule n) p) Hh Ho Ha). by split.
Qed.

Lemma wp_mrep_write_next priv a p s (Q : unit -> Sipfw -> Prop) :
  mrepP P priv s adss chains -> a ∈ priv ->
  (forall n, heap s !! a = Some n -> let s' := set_heap (<[a := mkNode (n_rule n) p]> (heap s)) s in
     mrepP P priv s' adss chains -> Q tt s') ->
  wp (write_next a p) Q s.
Proof.
  intros [Hh Hs Ho] Ha HQ. assert (is_Some (heap s !! a)) as [n Hn].
  { apply elem_of_dom, (owned_dom _ _ _ Ho). by right. }
  apply (wp_write_next _ n); [done|]. apply (HQ n Hn).
  destruct (hrep_private _ _ _ _ _ (mkNode (n_rule n) p) Hh Ho Ha). by split.
Qed.

(** Freeing a private node. *)
Lemma wp_mrep_free priv a s (Q : unit -> Sipfw -> Prop) :
  mrepP P priv s adss chains -> a ∈ priv ->
  (mrepP P (priv ∖ {[a]}) (set_heap (delete a (heap s)) s) adss chains ->
   Q tt (set_heap (delete a (heap s)) s)) ->
  wp (kfree_rule a) Q s.
Proof.
  intros [Hh Hs Ho] Ha HQ. pose proof (owned_priv _ _ _ Ho a Ha) as Hout. apply wp_kfree_rule.
  { apply elem_of_dom, (owned_dom _ _ _ Ho). by right. }
  apply HQ. split; [|done|].
  - apply (hrep_frame (heap s)); [done|]. intros b Hb. simpl. rewrite lookup_delete_ne; [done|]. by intros ->.
  - destruct Ho as [H1 H2]. split; intros b; simpl.
    + rewrite dom_delete, elem_of_difference, H1, elem_of_difference, not_elem_of_singleton. split.
      * intros [[Hb|Hb] Hne]; tauto.
      * intros [Hb|[Hb Hne]]; [|tauto]. split; [by left|]. by intros ->.
    + intros [Hb _]%elem_of_difference. by apply H2.
Qed.

(** The end of a change: the count and the snapshot of the chain. *)
Lemma wp_orepP_commit pend priv ads rs new_count s (Q : unit -> Sipfw -> Prop) :
  adss !! Z.to_nat i = Some ads -> chains !! Z.to_nat i = Some rs ->
  orepP P (Z.to_nat i) pend priv s adss chains -> new_count = zlen rs -> zlen rs < 2 ^ 31 ->
  match pend with
  | Some a => rs <> [] /\ snaps s !! a = Some (mkSnapshot (zlen rs) (replicate (length rs) zero_rule))
  | None => rs = []
  end ->
  (forall s', memory_only s s' -> heap s' = heap s -> mrepP (also_chain P (Z.to_nat i)) priv s' adss chains -> Q tt s') ->
  wp (SIPFW_CommitRuleUpdateLocked i new_count pend) Q s.
Proof.
  intros Hads Hrs [Hh Hs Ho] -> Hbound Hpend HQ. pose proof (chain_index _ Hi) as Hrange.
  pose proof (hrep_tables _ _ _ _ Hh) as Ht. pose proof (zlen_nonneg rs) as Hpos.
  destruct (chain_lookup (sipfw_tables s) i Ht Hi) as [l Hl].
  apply fwp_bind, fwp_bind, (wp_get_list _ l); [done..|]. apply wp_set_list; [done..|].
  set (l' := mkList _ _ _).
  assert (Hl' : <[Z.to_nat i := l']> (sipfw_tables s) !! Z.to_nat i = Some l').
  { apply list_lookup_insert_eq. lia. }
  assert (Homap : omap l_snapshot (<[Z.to_nat i := l']> (sipfw_tables s)) = omap l_snapshot (sipfw_tables s)).
  { rewrite (omap_insert _ _ _ _ Hl'), (omap_insert _ _ _ _ Hl), take_insert_ge, drop_insert_lt by lia. done. }
  eapply (wp_publish P i adss chains ads rs l' pend); try done; simpl.
  - eapply hrep_same_heads; [done|]. rewrite list_fmap_insert. apply list_insert_id.
    rewrite list_lookup_fmap, Hl. done.
  - apply (owned_length priv _ adss (Z.to_nat i)); [done..|]. by eapply (hrep_nodup _ _ _ _ Hh).
  - destruct Hs as [H1 H2 H3]. split; [|by rewrite Homap..]. intros j lj rj HP Hj Hrj.
    rewrite list_lookup_insert_ne in Hj by (symmetry; apply HP). by apply (H1 j).
  - unfold int32. rewrite wrap_id by (unfold fits; lia). lia.
  - intros n' r' Hh' Hs'. apply HQ; [by eexists _, _, _, _, _|done|by split].
Qed.

End more_rules.

(** For a module in which all chains have their snapshots. *)
Lemma wp_orep_commit `{KernelEnv} i adss chains (Hi : bad_chain i = false) pend priv ads rs new_count s
    (Q : unit -> Sipfw -> Prop) :
  adss !! Z.to_nat i = Some ads -> chains !! Z.to_nat i = Some rs ->
  orep (Z.to_nat i) pend priv s adss chains -> new_count = zlen rs -> zlen rs < 2 ^ 31 ->
  match pend with
  | Some a => rs <> [] /\ snaps s !! a = Some (mkSnapshot (zlen rs) (replicate (length rs) zero_rule))
  | None => rs = []
  end ->
  (forall s', memory_only s s' -> heap s' = heap s -> mrep priv s' adss chains -> Q tt s') ->
  wp (SIPFW_CommitRuleUpdateLocked i new_count pend) Q s.
Proof.
  intros Hads Hrs Ho Hn Hb Hpend HQ. eapply wp_orepP_commit; [done..|]. intros s' Hs' Hh' [H1 H2 H3].
  apply HQ; [done..|]. split; [done| |done]. eapply srep_weaken; [|done]. by left.
Qed.

(** ** What the commands promise *)

Definition chain_rules (i : Z) (chains : list (list sipfw_rules)) : list sipfw_rules :=
  default [] (chains !! Z.to_nat i).
Definition set_chain (i : Z) (rs : list sipfw_rules) (chains : list (list sipfw_rules))
    : list (list sipfw_rules) := <[Z.to_nat i := rs]> chains.

(** Commands on lists; [ok] says whether there is memory for the next snapshot. *)
Definition insert_rule (ok : bool) (r : sipfw_rules) (number : Z) (chains : list (list sipfw_rules))
    : Z * list (list sipfw_rules) :=
  let rs := chain_rules (r_chain r) chains in
  let k := Z.to_nat (number - 1) in
  if bad_chain (r_chain r) || (number <=? 0) then (- EINVAL, chains)
  else if ok then (0, set_chain (r_chain r) (take k rs ++ r :: drop k rs) chains)
  else (- ENOMEM, chains).

Definition append_rule (ok : bool) (r : sipfw_rules) (chains : list (list sipfw_rules))
    : Z * list (list sipfw_rules) :=
  if bad_chain (r_chain r) then (- EINVAL, chains)
  else if ok then (0, set_chain (r_chain r) (chain_rules (r_chain r) chains ++ [r]) chains)
  else (- ENOMEM, chains).

Definition replace_rule (ok : bool) (r : sipfw_rules) (number : Z) (chains : list (list sipfw_rules))
    : Z * list (list sipfw_rules) :=
  let rs := chain_rules (r_chain r) chains in
  if bad_chain (r_chain r) || (number <=? 0) then (- EINVAL, chains)
  else if zlen rs <? number then (- ENOENT, chains)
  else if ok then (0, set_chain (r_chain r) (<[Z.to_nat (number - 1) := r]> rs) chains)
  else (- ENOMEM, chains).

(** The first rule equal to [r]. *)
Fixpoint find_rule (r : sipfw_rules) (rs : list sipfw_rules) : option nat :=
  match rs with
  | [] => None
  | c :: rs => if same_rule c r then Some 0%nat else S <$> find_rule r rs
  end.

(** The position [RuleDelete] means. *)
Definition delete_position (r : sipfw_rules) (number : Z) (rs : list sipfw_rules) : option nat :=
  if number =? -1 then find_rule r rs
  else if (number <=? 0) || (zlen rs <? number) then None
  else Some (Z.to_nat (number - 1)).

(** The snapshot of a chain that becomes empty needs no memory. *)
Definition delete_rule (ok : bool) (r : sipfw_rules) (number : Z) (chains : list (list sipfw_rules))
    : Z * list (list sipfw_rules) :=
  let rs := chain_rules (r_chain r) chains in
  if bad_chain (r_chain r) then (- EINVAL, chains)
  else match delete_position r number rs with
       | None => (- ENOENT, chains)
       | Some k =>
           if (zlen rs =? 1) || ok then (0, set_chain (r_chain r) (delete k rs) chains)
           else (- ENOMEM, chains)
       end.

Definition flush_rules (r : sipfw_rules) (chains : list (list sipfw_rules)) : Z * list (list sipfw_rules) :=
  match chain_range (r_chain r) with
  | None => (- EINVAL, chains)
  | Some cs => (0, foldl (fun c i => set_chain i [] c) chains cs)
  end.

(** The counts stay below [INT_MAX]. *)
Definition small (chains : list (list sipfw_rules)) : Prop := Forall (fun rs => zlen rs < 2 ^ 31 - 1) chains.

(** A command has ended with the result and the chains of [spec], and the memory holds these
    chains and nothing else. *)
Definition ends_as (s : Sipfw) (spec : Z * list (list sipfw_rules)) (ret : Z) (s' : Sipfw) : Prop :=
  ret = spec.1 /\ rep s' spec.2 /\ memory_only s s'.

(** The rule [r] of a command is at [a]; nothing else is allocated but the chains. *)
Record command_ready (s : Sipfw) (a : addr) (r : sipfw_rules) (chains : list (list sipfw_rules)) : Prop := mkReady {
  ready_mem : exists adss, mrep {[a]} s adss chains;
  ready_rule : exists p, heap s !! a = Some (mkNode r p);
  ready_small : small chains;
}.

Section commands.
Context `{KernelEnv}.

Lemma mrep_next_tick priv s adss chains : mrep priv s adss chains -> mrep priv (next_tick s) adss chains.
Proof. by intros [??]. Qed.

Lemma memory_only_tick s : memory_only s (next_tick s).
Proof. apply (memory_only_mem s (heap s) (snaps s) (rcu s) (sipfw_tables s) (S (ticks s))). Qed.

(** Asking for the next snapshot. *)
Lemma wp_open i new_count priv s adss chains (Q : Z * option addr -> Sipfw -> Prop) :
  mrep priv s adss chains -> 0 <= new_count ->
  (0 < new_count -> kmem_ok (ticks s) = false -> Q (- ENOMEM, None) (next_tick s)) ->
  (forall pend s', (new_count =? 0) || kmem_ok (ticks s) = true ->
     memory_only s s' -> heap s' = heap s -> sipfw_tables s' = sipfw_tables s ->
     orep i pend priv s' adss chains ->
     match pend with
     | Some a => 0 < new_count
         /\ snaps s' !! a = Some (mkSnapshot new_count (replicate (Z.to_nat new_count) zero_rule))
     | None => new_count = 0
     end -> Q (0, pend) s') ->
  wp (SIPFW_PrepareRuleSnapshotLocked new_count) Q s.
Proof.
  intros [Hh Hs Ho] Hge Hfail Hok. apply wp_prepare; [done| |done|].
  - intros ->. apply Hok; [done|eauto with iota|done|done| |done]. split; [done| |done].
    eapply srep_weaken; [|done]. done.
  - intros Hpos a Hmem Hsa. apply Hok; [by rewrite Hmem, orb_true_r|apply memory_only_mem|done..| |].
    + split; [done| |done]. apply srep_alloc; [|done]. eapply srep_weaken; [|done]. done.
    + simpl. by rewrite lookup_insert_eq.
Qed.

Lemma ready_chain s a r chains i :
  command_ready s a r chains -> bad_chain i = false ->
  exists adss ads, mrep {[a]} s adss chains /\ adss !! Z.to_nat i = Some ads
    /\ chains !! Z.to_nat i = Some (chain_rules i chains)
    /\ zlen (chain_rules i chains) < 2 ^ 31 - 1 /\ length ads = length (chain_rules i chains)
    /\ (length ads <= size (heap s))%nat
    /\ exists l, sipfw_tables s !! Z.to_nat i = Some l /\ l_number l = zlen (chain_rules i chains)
         /\ l_rule l = ads !! 0%nat /\ lrep (heap s) (ads !! 0%nat) ads (chain_rules i chains).
Proof.
  intros [[adss Hm] _ Hsmall] Hi. pose proof (mrep_lists Hm) as Hh. unfold chain_rules.
  destruct (chain_lookup adss i (hrep_addrs _ _ _ _ Hh) Hi) as [ads Hads].
  destruct (chain_lookup chains i (hrep_chains _ _ _ _ Hh) Hi) as [rs Hrs]. rewrite Hrs. simpl.
  destruct (hrep_chain i adss chains ads rs Hi Hads Hrs _ _ Hh) as (l & Hl & Hrep).
  destruct (srep_snap _ _ _ _ _ _ (mrep_snaps Hm) _ l rs I Hl Hrs) as [Hnum _].
  assert (l_rule l = ads !! 0%nat) as Hhead by (rewrite (lrep_head _ _ _ _ Hrep); by destruct ads).
  exists adss, ads. split_and!; [done..| | | |].
  - unfold small in Hsmall. rewrite Forall_lookup in Hsmall. by eapply Hsmall.
  - by eapply lrep_length.
  - apply (owned_length {[a]} _ adss (Z.to_nat i)); [apply Hm|done|]. by eapply (hrep_nodup _ _ _ _ Hh).
  - exists l. split_and!; try done. by rewrite <- Hhead.
Qed.

(** A command that gives up frees its rule. *)
Lemma wp_give_up (e : Z) s0 s a adss chains Q :
  mrep {[a]} s adss chains -> memory_only s0 s ->
  (forall s', ends_as s0 (e, chains) e s' -> Q e s') ->
  wp (kfree_rule a;; mret e) Q s.
Proof.
  intros Hm Hs HQ. apply fwp_bind. eapply wp_mrep_free; [done|set_solver|]. intros Hm'. apply fwp_ret, HQ.
  split_and!; [done| |].
  - exists adss. by replace (∅ : gset addr) with ({[a]} ∖ {[a]} : gset addr) by set_solver.
  - eapply memory_only_trans; [done|apply memory_only_heap].
Qed.

End commands.
