(* ===== verification/SipfwProofs.v ===== *)
(** The commands of the firewall refine operations on lists of rules. *)
From S2P Require Import Prelude Sipfw SipfwHeap SipfwRules.

Section commands.
Context `{KernelEnv}.

Lemma elem_of_drop_sub {A} k (l : list A) x : x ∈ drop k l -> x ∈ l.
Proof. intros Hx. rewrite <- (take_drop k l). apply elem_of_app. by right. Qed.

Lemma NoDup_drop_sub {A} k (l : list A) : NoDup l -> NoDup (drop k l).
Proof. intros Hl. rewrite <- (take_drop k l) in Hl. by apply NoDup_app in Hl as (_ & _ & ?). Qed.

Lemma count_wrap (rs : list sipfw_rules) d :
  zlen rs < 2 ^ 31 - 1 -> -1 <= d <= 1 -> 0 <= zlen rs + d -> wrap 32 (zlen rs + d) = zlen rs + d.
Proof. intros ???. apply wrap_id. unfold fits. lia. Qed.

Lemma zlen_splice {A} k (rs : list A) r : (k <= length rs)%nat -> zlen (take k rs ++ r :: drop k rs) = zlen rs + 1.
Proof. intros Hk. unfold zlen. rewrite length_app, length_take. cbn [length]. rewrite length_drop. lia. Qed.

(** Linking the rule of a command into its chain, at the end of [RuleInsert] and
    [RuleAppend]. *)
Lemma wp_link_in i k pend s0 s a r adss chains ads rs (Q : Z -> Sipfw -> Prop) :
  bad_chain i = false -> adss !! Z.to_nat i = Some ads -> chains !! Z.to_nat i = Some rs ->
  orep (Z.to_nat i) pend {[a]} s adss chains -> (k <= length ads)%nat -> zlen rs < 2 ^ 31 - 1 ->
  heap s !! a = Some (mkNode r (ads !! k)) -> memory_only s0 s ->
  match pend with
  | Some b => 0 < zlen rs + 1
      /\ snaps s !! b = Some (mkSnapshot (zlen rs + 1) (replicate (Z.to_nat (zlen rs + 1)) zero_rule))
  | None => zlen rs + 1 = 0
  end ->
  (forall s', ends_as s0 (0, set_chain i (take k rs ++ r :: drop k rs) chains) 0 s' -> Q 0 s') ->
  wp (assign (link_at i ads k) (Some a);; SIPFW_CommitRuleUpdateLocked i (zlen rs + 1) pend;; mret 0) Q s.
Proof.
  intros Hi Hads Hrs Ho Hk Hbound Ha Hs0 Hpend HQ. pose proof (zlen_nonneg rs) as Hpos.
  pose proof (orep_lists Ho) as Hh.
  destruct (hrep_chain i adss chains ads rs Hi Hads Hrs _ _ Hh) as (l & Hl & Hrep).
  pose proof (lrep_length _ _ _ _ Hrep) as Hlen. pose proof (hrep_nodup _ _ _ _ Hh _ _ Hads) as Hnd.
  assert (Hout : a ∉ ads).
  { intros Hin. eapply (owned_priv _ _ _ (orep_owned Ho) a); [set_solver|]. by eexists _, _. }
  assert (Hi3 : (Z.to_nat i < length adss)%nat) by (by eapply lookup_lt_Some).
  assert (Hi3' : (Z.to_nat i < length chains)%nat) by (by eapply lookup_lt_Some).
  apply fwp_bind. eapply (wp_orep_assign _ i adss chains ads rs Hi Hads Hrs) with (ads2 := a :: drop k ads)
    (rs2 := r :: drop k rs); [done..| | | |].
  - apply (lrep_cons _ a (mkNode r (ads !! k))); [done|]. by eapply lrep_drop.
  - apply NoDup_cons. split; [by intros Hin%elem_of_drop_sub|by apply NoDup_drop_sub].
  - intros b [->|Hb]%elem_of_cons; [right; set_solver|by left].
  - intros s1 Hs1 Ho1 _ Hsn _. apply fwp_bind.
    eapply (wp_orep_commit i _ _ Hi); [by apply list_lookup_insert_eq|by apply list_lookup_insert_eq|done|..].
    + rewrite zlen_splice; [done|lia].
    + rewrite zlen_splice; [lia|lia].
    + rewrite zlen_splice by lia. rewrite Hsn. destruct pend as [b|]; [|lia]. split; [by destruct k, rs|].
      destruct Hpend as [_ ->]. do 3 f_equal.
      pose proof (zlen_splice k rs r ltac:(lia)) as E. unfold zlen in E |- *. lia.
    + intros s2 Hs2 _ Hm. apply fwp_ret, HQ. split_and!; [done| |].
      * eexists. replace (∅ : gset addr)
          with (({[a]} ∪ list_to_set (drop k ads)) ∖ list_to_set (a :: drop k ads) : gset addr) by set_solver.
        done.
      * by eapply memory_only_trans, memory_only_trans.
Qed.

(** The snapshot that is asked for, when the rule has been given up. *)
Lemma wp_no_memory s0 s a adss chains (Q : Z -> Sipfw -> Prop) :
  mrep {[a]} s adss chains -> memory_only s0 s ->
  (forall s', ends_as s0 (- ENOMEM, chains) (- ENOMEM) s' -> Q (- ENOMEM) s') ->
  wp (kfree_rule a;; mret (- ENOMEM)) Q (next_tick s).
Proof.
  intros Hm Hs HQ. eapply wp_give_up; [by apply mrep_next_tick| |done].
  eapply memory_only_trans; [done|apply memory_only_tick].
Qed.

Lemma append_refines s a r chains :
  command_ready s a r chains ->
  wp (SIPFW_NLAction_RuleAppend a) (ends_as s (append_rule (kmem_ok (ticks s)) r chains)) s.
Proof.
  intros Hr. destruct (ready_rule _ _ _ _ Hr) as [p Ha]. unfold SIPFW_NLAction_RuleAppend, append_rule.
  apply fwp_bind, (wp_read_rule _ _ _ _ Ha). cbn [n_rule]. destruct (bad_chain (r_chain r)) eqn:Hi.
  { destruct (ready_mem _ _ _ _ Hr) as [adss Hm]. eapply wp_give_up; eauto with iota. }
  destruct (ready_chain _ _ _ _ _ Hr Hi) as (adss & ads & Hm & Hads & Hrs & Hb & Hlen & Hsize & l & Hl & Hnum & Hhead & _).
  set (i := r_chain r) in *. set (rs := chain_rules i chains) in *. pose proof (zlen_nonneg rs) as Hpos.
  apply fwp_bind. eapply wp_mrep_write_next; [done|set_solver|]. intros n Hn s1 Hm1.
  assert (n_rule n = r) as Er by (rewrite Ha in Hn; by simplify_eq).
  apply fwp_bind, (wp_get_list _ l); [done..|]. rewrite Hnum, (count_wrap rs 1) by lia.
  apply fwp_bind. eapply (wp_open (Z.to_nat i)); [done|lia|..].
  - intros _ Hmem. change (negb (- ENOMEM =? 0)) with true. cbn [ticks set_heap s1] in Hmem. rewrite Hmem.
    eapply wp_no_memory; [done|apply memory_only_heap|]. by intros s'.
  - intros pend s2 Hok Hs2 Hh2 Ht2 Ho Hpend. change (negb (0 =? 0)) with false. cbv iota.
    rewrite (proj2 (Z.eqb_neq _ _)) in Hok by lia. simpl in Hok. rewrite Hok.
    assert (Ha2 : heap s2 !! a = Some (mkNode r (ads !! length ads))).
    { rewrite Hh2, (proj2 (lookup_ge_None _ _)) by done. simpl. rewrite Er. apply lookup_insert_eq. }
    assert (Hmo : memory_only s s2) by (eapply memory_only_trans; [apply memory_only_heap|done]).
    assert (Hlink : wp (assign (link_at i ads (length ads)) (Some a);;
        SIPFW_CommitRuleUpdateLocked i (zlen rs + 1) pend;; mret 0)
        (ends_as s (0, set_chain i (rs ++ [r]) chains)) s2).
    { eapply (wp_link_in i (length ads)); try done. intros s'. by rewrite Hlen, firstn_all, drop_all. }
    rewrite Hhead. destruct (ads !! 0%nat) as [head|] eqn:Hhd.
    + apply fwp_bind, fwp_bind, fwp_gets, fwp_bind.
      eapply (wp_last_rule i adss chains ads rs Hi Hads Hrs _ 0 head); [apply Ho|done| |].
      * rewrite Hh2. simpl. rewrite map_size_insert_Some by (by rewrite Ha). lia.
      * intros b Hb'. change (write_next b (Some a)) with (assign (next_of b) (Some a)). rewrite Hb'.
        exact (wp_bind_inv _ _ _ _ Hlink).
    + assert (length ads = 0%nat) as E by (by destruct ads). rewrite E in Hlink. exact Hlink.
Qed.

Lemma insert_refines s a r number chains :
  command_ready s a r chains ->
  wp (SIPFW_NLAction_RuleInsert a number) (ends_as s (insert_rule (kmem_ok (ticks s)) r number chains)) s.
Proof.
  intros Hr. destruct (ready_rule _ _ _ _ Hr) as [p Ha]. unfold SIPFW_NLAction_RuleInsert, insert_rule.
  apply fwp_bind, (wp_read_rule _ _ _ _ Ha). cbn [n_rule]. destruct (bad_chain (r_chain r)) eqn:Hi; simpl.
  { destruct (ready_mem _ _ _ _ Hr) as [adss Hm]. eapply wp_give_up; eauto with iota. }
  destruct (Z.leb_spec number 0) as [Hn0|Hn0].
  { destruct (ready_mem _ _ _ _ Hr) as [adss Hm]. eapply wp_give_up; eauto with iota. }
  destruct (ready_chain _ _ _ _ _ Hr Hi) as (adss & ads & Hm & Hads & Hrs & Hb & Hlen & Hsize & l & Hl & Hnum & _ & _).
  set (i := r_chain r) in *. set (rs := chain_rules i chains) in *. pose proof (zlen_nonneg rs) as Hpos.
  apply fwp_bind, (wp_get_list _ l); [done..|]. rewrite Hnum, (count_wrap rs 1) by lia.
  apply fwp_bind. eapply (wp_open (Z.to_nat i)); [done|lia|..].
  - intros _ Hmem. change (negb (- ENOMEM =? 0)) with true. rewrite Hmem.
    eapply wp_no_memory; [done|apply memory_only_refl|]. by intros s'.
  - intros pend s2 Hok Hs2 Hh2 Ht2 Ho Hpend. change (negb (0 =? 0)) with false. cbv iota.
    rewrite (proj2 (Z.eqb_neq _ _)) in Hok by lia. simpl in Hok. rewrite Hok.
    apply fwp_bind, fwp_gets, fwp_bind. change (rule_of i) with (link_at i ads 0).
    change 1 with (Z.of_nat 0 + 1) at 1.
    eapply (wp_seek i adss chains ads rs Hi Hads Hrs); [apply Ho|lia|rewrite Hh2; lia|lia|].
    set (k := min _ _). apply fwp_bind. eapply (wp_deref i adss chains ads rs Hi Hads Hrs); [apply Ho|lia|].
    apply fwp_bind. eapply (wp_orep_write_next _ i); [done|set_solver|]. intros n Hn s3 Ho3.
    assert (n_rule n = r) as Er by (rewrite Hh2, Ha in Hn; by simplify_eq).
    eapply (wp_link_in i k pend s s3 a r); try done.
    + lia.
    + simpl. rewrite Er. apply lookup_insert_eq.
    + eapply memory_only_trans; [done|apply memory_only_heap].
    + intros s'. destruct (Nat.le_ge_cases (Z.to_nat (number - 1)) (length ads)) as [Hle|Hge].
      * unfold k. by rewrite Nat.min_l.
      * unfold k. rewrite Nat.min_r, Hlen, firstn_all, drop_all by done.
        rewrite (take_ge rs), (drop_ge rs) by lia. done.
Qed.

(** Taking a rule out of its chain. *)
Lemma wp_unlink i k v s a adss chains ads rs (Q : Z * option addr -> Sipfw -> Prop) :
  bad_chain i = false -> adss !! Z.to_nat i = Some ads -> chains !! Z.to_nat i = Some rs ->
  mrep {[a]} s adss chains -> zlen rs < 2 ^ 31 - 1 -> ads !! k = Some v ->
  (0 < zlen rs - 1 -> kmem_ok (ticks s) = false -> Q (- ENOMEM, None) (next_tick s)) ->
  (forall s' adss', (zlen rs =? 1) || kmem_ok (ticks s) = true -> memory_only s s' ->
     mrep {[a; v]} s' adss' (set_chain i (delete k rs) chains) -> a <> v -> Q (0, Some v) s') ->
  wp (unlink_rule i (link_at i ads k) v) Q s.
Proof.
  intros Hi Hads Hrs Hm Hb Hv Hfail Hok. pose proof (mrep_lists Hm) as Hh.
  destruct (hrep_chain i adss chains ads rs Hi Hads Hrs _ _ Hh) as (l & Hl & Hrep).
  destruct (srep_snap _ _ _ _ _ _ (mrep_snaps Hm) _ l rs I Hl Hrs) as [Hnum _].
  pose proof (lrep_length _ _ _ _ Hrep) as Hlen. pose proof (lookup_lt_Some _ _ _ Hv) as Hk.
  pose proof (hrep_nodup _ _ _ _ Hh _ _ Hads) as Hnd.
  assert (Hi3 : (Z.to_nat i < length adss)%nat) by (by eapply lookup_lt_Some).
  assert (Hi3' : (Z.to_nat i < length chains)%nat) by (by eapply lookup_lt_Some).
  assert (Hav : a <> v).
  { intros <-. eapply (owned_priv _ _ _ (mrep_owned Hm) a); [set_solver|].
    exists (Z.to_nat i), ads. split; [done|]. by eapply list_elem_of_lookup_2. }
  assert (Hz : zlen (delete k rs) = zlen rs - 1).
  { unfold zlen. rewrite delete_take_drop, length_app, length_take, length_drop. lia. }
  apply fwp_bind, (wp_get_list _ l); [done..|]. rewrite Hnum.
  replace (zlen rs - 1) with (zlen rs + -1) in * by lia.
  rewrite (count_wrap rs (-1)) by (unfold zlen in *; lia).
  apply fwp_bind. eapply (wp_open (Z.to_nat i)); [done|unfold zlen in *; lia|exact Hfail|].
  intros pend s2 Hmem Hs2 Hh2 Ht2 Ho Hpend. change (negb (0 =? 0)) with false. cbv iota.
  destruct (lrep_lookup _ _ _ _ _ _ Hrep Hv) as (n & Hn & _ & Hnext).
  apply fwp_bind, (wp_read_rule _ n); [by rewrite Hh2|]. rewrite Hnext. apply fwp_bind.
  assert (Hdrop : drop k ads = v :: drop (S k) ads) by (by apply drop_S).
  pose proof (NoDup_drop_sub k ads Hnd) as Hndk. rewrite Hdrop in Hndk. apply NoDup_cons in Hndk as [Hvout Hndk].
  eapply (wp_orep_assign _ i adss chains ads rs Hi Hads Hrs _ _ k _ (drop (S k) ads) (drop (S k) rs));
    [done|lia| |done| |].
  - rewrite Hh2. eapply lrep_drop; [done|lia].
  - intros b Hb'. left. rewrite Hdrop. apply elem_of_cons. by right.
  - intros s3 Hs3 Ho3 _ Hsn3 _. apply fwp_bind. rewrite <- delete_take_drop in Ho3 at 1.
    rewrite <- (delete_take_drop rs) in Ho3.
    assert (Hpriv : (({[a]} ∪ list_to_set (drop k ads)) ∖ list_to_set (drop (S k) ads) : gset addr) = {[a; v]}).
    { rewrite Hdrop. simpl. assert (a ∉ drop (S k) ads); [|set_solver].
      intros Hin%elem_of_drop_sub. eapply (owned_priv _ _ _ (mrep_owned Hm) a); [set_solver|].
      by exists (Z.to_nat i), ads. }
    rewrite Hpriv in Ho3. eapply (wp_orep_write_next _ i); [done|set_solver|]. intros m Hm' s4 Ho4. apply fwp_bind.
    eapply (wp_orep_commit i _ _ Hi); [by apply list_lookup_insert_eq|by apply list_lookup_insert_eq|done|lia|lia| |].
    + rewrite Hz. cbn [snaps set_heap s4]. rewrite Hsn3. destruct pend as [b|].
      * destruct Hpend as [Hp ->]. split; [intros E; rewrite E in Hz; unfold zlen in Hz; simpl in Hz; unfold zlen in *; lia|].
        do 3 f_equal. unfold zlen in *. lia.
      * apply zlen_zero. lia.
    + intros s5 Hs5 _ Hm5. apply fwp_ret. eapply Hok; [| |done|done].
      * destruct (Z.eqb_spec (zlen rs + -1) 0); simpl in Hmem; [|by rewrite Hmem, orb_true_r].
        apply orb_true_iff. left. apply Z.eqb_eq. lia.
      * eapply memory_only_trans; [done|]. eapply memory_only_trans; [done|].
        eapply memory_only_trans; [|done]. apply memory_only_heap.
Qed.

(** The loop finds the first equal rule. *)
Lemma wp_delete_equal fuel i k r s adss chains ads rs (Q : Z * option addr -> Sipfw -> Prop) :
  bad_chain i = false -> adss !! Z.to_nat i = Some ads -> chains !! Z.to_nat i = Some rs ->
  hrep (heap s) (sipfw_tables s) adss chains -> (k <= length ads)%nat -> (length ads - k < fuel)%nat ->
  match find_rule r (drop k rs) with
  | None => Q (- ENOENT, None) s
  | Some j => forall v, ads !! (k + j)%nat = Some v -> wp (unlink_rule i (link_at i ads (k + j)) v) Q s
  end ->
  wp (delete_equal fuel i r (link_at i ads k)) Q s.
Proof.
  intros Hi Hads Hrs Hh. revert k. induction fuel as [|fuel IH]; intros k Hk Hfuel HQ; [lia|].
  destruct (hrep_chain i adss chains ads rs Hi Hads Hrs _ _ Hh) as (l & Hl & Hrep).
  pose proof (lrep_length _ _ _ _ Hrep) as Hlen. cbn [delete_equal].
  apply fwp_bind. eapply (wp_deref i adss chains ads rs Hi Hads Hrs); [done|done|].
  destruct (ads !! k) as [v|] eqn:Hv.
  - destruct (lrep_lookup _ _ _ _ _ _ Hrep Hv) as (n & Hn & Hr & _). pose proof (lookup_lt_Some _ _ _ Hv).
    apply fwp_bind, (wp_read_rule _ n); [done|]. rewrite (drop_S _ _ _ Hr) in HQ. simpl in HQ.
    destruct (same_rule (n_rule n) r).
    + rewrite Nat.add_0_r in HQ. by apply HQ.
    + rewrite (link_at_next i ads k v Hv). apply IH; [lia..|].
      destruct (find_rule r (drop (S k) rs)) as [j|]; simpl in HQ; [|done].
      by replace (k + S j)%nat with (S k + j)%nat in HQ by lia.
  - apply lookup_ge_None in Hv. apply fwp_ret. rewrite drop_ge in HQ by lia. done.
Qed.

Lemma find_rule_lt r rs k : find_rule r rs = Some k -> (k < length rs)%nat.
Proof.
  revert k. induction rs as [|c rs IH]; intros k; simpl; [done|]. destruct (same_rule c r).
  - intros [= <-]. lia.
  - intros (j & Hj & ->)%fmap_Some. apply IH in Hj. lia.
Qed.

(** The end of [RuleDelete]: the rule that was taken out and the rule of the command are
    freed. *)
Lemma wp_free_both s0 s a v adss chains ret (Q : Z -> Sipfw -> Prop) :
  mrep {[a; v]} s adss chains -> a <> v -> memory_only s0 s ->
  (forall s', ends_as s0 (ret, chains) ret s' -> Q ret s') ->
  wp (kfree_rule v;; kfree_rule a;; mret ret) Q s.
Proof.
  intros Hm Hav Hs HQ. apply fwp_bind. eapply wp_mrep_free; [done|set_solver|].
  replace ({[a; v]} ∖ {[v]} : gset addr) with ({[a]} : gset addr) by set_solver. intros Hm1.
  eapply wp_give_up; [done| |done]. eapply memory_only_trans; [done|apply memory_only_heap].
Qed.

Lemma delete_refines s a r number chains :
  command_ready s a r chains ->
  wp (SIPFW_NLAction_RuleDelete a number) (ends_as s (delete_rule (kmem_ok (ticks s)) r number chains)) s.
Proof.
  intros Hr. destruct (ready_rule _ _ _ _ Hr) as [p Ha]. unfold SIPFW_NLAction_RuleDelete, delete_rule.
  apply fwp_bind, (wp_read_rule _ _ _ _ Ha). cbn [n_rule]. destruct (bad_chain (r_chain r)) eqn:Hi.
  { destruct (ready_mem _ _ _ _ Hr) as [adss Hm]. eapply wp_give_up; eauto with iota. }
  destruct (ready_chain _ _ _ _ _ Hr Hi) as (adss & ads & Hm & Hads & Hrs & Hb & Hlen & Hsize & l & Hl & Hnum & _ & _).
  set (i := r_chain r) in *. set (rs := chain_rules i chains) in *.
  pose proof (mrep_lists Hm) as Hh.
  apply fwp_bind, (wp_get_list _ l); [done..|]. apply fwp_bind, fwp_gets, fwp_bind. rewrite Hnum.
  assert (Hmiss : forall Q : Z -> Sipfw -> Prop,
    (forall s', ends_as s (- ENOENT, chains) (- ENOENT) s' -> Q (- ENOENT) s') ->
    wp (mret tt;; kfree_rule a;; mret (- ENOENT)) Q s).
  { intros Q HQ. apply fwp_bind, fwp_ret. eapply wp_give_up; eauto with iota. }
  (* the victim is known *)
  assert (Hhit : forall k v, ads !! k = Some v ->
    wp (unlink_rule i (link_at i ads k) v)
       (fun x s' => wp (let '(ret, victim) := x in
          match victim with Some v => kfree_rule v | None => mret tt end;; kfree_rule a;; mret ret)
          (ends_as s (if (zlen rs =? 1) || kmem_ok (ticks s) then (0, set_chain i (delete k rs) chains)
             else (- ENOMEM, chains))) s') s).
  { intros k v Hv. eapply (wp_unlink i k v s a adss chains ads rs); try done.
    - intros Hpos ->. rewrite (proj2 (Z.eqb_neq _ _)) by lia. simpl. apply fwp_bind, fwp_ret.
      eapply wp_no_memory; eauto with iota.
    - intros s' adss' -> Hs' Hm' Hav. eapply wp_free_both; eauto. }
  unfold delete_position. destruct (Z.eqb_spec number (-1)) as [->|Hn1]; simpl negb; cbv iota.
  - change (rule_of i) with (link_at i ads 0). eapply (wp_delete_equal _ i 0); try done; [lia..|].
    rewrite drop_0. destruct (find_rule r rs) as [k|] eqn:Hk; [|by apply Hmiss].
    intros v Hv. by apply Hhit.
  - destruct ((number <=? 0) || (zlen rs <? number)) eqn:Hrange; [by apply fwp_ret, Hmiss|]. bool_norm.
    change (rule_of i) with (link_at i ads 0). change 1 with (Z.of_nat 0 + 1) at 1.
    apply fwp_bind. eapply (wp_seek i adss chains ads rs Hi Hads Hrs); [done|lia|lia|lia|].
    unfold zlen in *. rewrite Nat.min_l by lia.
    apply fwp_bind. eapply (wp_deref i adss chains ads rs Hi Hads Hrs); [done|lia|].
    destruct (lookup_lt_is_Some_2 ads (Z.to_nat (number - 1))) as [v Hv]; [lia|]. rewrite Hv.
    by apply Hhit.
Qed.

(** The rule of a command takes the place of another one. *)
Lemma wp_swap i k v pend s a r p adss chains ads rs (Q : Z * option addr -> Sipfw -> Prop) :
  bad_chain i = false -> adss !! Z.to_nat i = Some ads -> chains !! Z.to_nat i = Some rs ->
  orep (Z.to_nat i) pend {[a]} s adss chains -> zlen rs < 2 ^ 31 - 1 -> ads !! k = Some v ->
  heap s !! a = Some (mkNode r p) ->
  match pend with
  | Some b => 0 < zlen rs
      /\ snaps s !! b = Some (mkSnapshot (zlen rs) (replicate (Z.to_nat (zlen rs)) zero_rule))
  | None => zlen rs = 0
  end ->
  (forall s' adss', memory_only s s' -> mrep {[v]} s' adss' (set_chain i (<[k := r]> rs) chains) -> Q (0, Some v) s') ->
  wp (n ← read_rule v;
      write_next a (n_next n);;
      assign (link_at i ads k) (Some a);;
      write_next v None;;
      SIPFW_CommitRuleUpdateLocked i (zlen rs) pend;;
      mret (0, Some v)) Q s.
Proof.
  intros Hi Hads Hrs Ho Hb Hv Ha Hpend HQ. pose proof (orep_lists Ho) as Hh.
  destruct (hrep_chain i adss chains ads rs Hi Hads Hrs _ _ Hh) as (l & Hl & Hrep).
  pose proof (lrep_length _ _ _ _ Hrep) as Hlen. pose proof (lookup_lt_Some _ _ _ Hv) as Hk.
  pose proof (NoDup_drop_sub k ads (hrep_nodup _ _ _ _ Hh _ _ Hads)) as Hnd.
  rewrite (drop_S _ _ _ Hv) in Hnd. apply NoDup_cons in Hnd as [Hvout Hnd].
  assert (Hi3 : (Z.to_nat i < length adss)%nat) by (by eapply lookup_lt_Some).
  assert (Hi3' : (Z.to_nat i < length chains)%nat) by (by eapply lookup_lt_Some).
  assert (Hout : a ∉ ads).
  { intros Hin. eapply (owned_priv _ _ _ (orep_owned Ho) a); [set_solver|]. by eexists _, _. }
  assert (Hav : a <> v) by (intros ->; by apply Hout, (list_elem_of_lookup_2 _ k)).
  destruct (lrep_lookup _ _ _ _ _ _ Hrep Hv) as (n & Hn & _ & Hnext).
  apply fwp_bind, (wp_read_rule _ n); [done|]. rewrite Hnext. apply fwp_bind.
  eapply (wp_orep_write_next _ i); [done|set_solver|]. intros m Hm s2 Ho2.
  assert (n_rule m = r) as Er by (rewrite Ha in Hm; by simplify_eq). apply fwp_bind.
  eapply (wp_orep_assign _ i adss chains ads rs Hi Hads Hrs _ _ k _ (a :: drop (S k) ads) (r :: drop (S k) rs));
    [done|lia|..].
  - pose proof (lrep_cons (heap s2) a (mkNode r (ads !! S k))) as Hc. apply Hc.
    + simpl. rewrite Er. apply lookup_insert_eq.
    + apply (lrep_frame (heap s)); [eapply lrep_drop; [done|lia]|]. intros b Hb'. simpl.
      rewrite lookup_insert_ne; [done|]. intros ->. by apply Hout, (elem_of_drop_sub (S k)).
  - apply NoDup_cons. split; [by intros Hin%elem_of_drop_sub|done].
  - intros b [->|Hb']%elem_of_cons; [right; set_solver|left]. rewrite (drop_S _ _ _ Hv). apply elem_of_cons. by right.
  - intros s3 Hs3 Ho3 _ Hsn3 _. apply fwp_bind. rewrite <- (insert_take_drop rs k r) in Ho3 by lia.
    assert (Hpriv : (({[a]} ∪ list_to_set (drop k ads)) ∖ list_to_set (a :: drop (S k) ads) : gset addr) = {[v]}).
    { rewrite (drop_S _ _ _ Hv). simpl. set_solver. }
    rewrite Hpriv in Ho3. eapply (wp_orep_write_next _ i); [done|set_solver|]. intros m' _ s4 Ho4. apply fwp_bind.
    eapply (wp_orep_commit i _ _ Hi); [by apply list_lookup_insert_eq|by apply list_lookup_insert_eq|done|..];
      unfold zlen in *; rewrite ?length_insert; [done|lia| |].
    + cbn [snaps set_heap s4]. rewrite Hsn3. change (snaps s2) with (snaps s).
      destruct pend as [b|]; [|lia]. destruct Hpend as [Hp ->]. split; [intros E; apply (f_equal length) in E; rewrite length_insert in E; simpl in E; lia|].
      do 3 f_equal. lia.
    + intros s5 Hs5 _ Hm5. apply fwp_ret. eapply HQ; [|done].
      eapply memory_only_trans; [apply memory_only_heap|]. eapply memory_only_trans; [done|].
      eapply memory_only_trans; [apply memory_only_heap|done].
Qed.

(** Replacing keeps the number of rules. *)
Lemma replace_refines s a r number chains :
  command_ready s a r chains ->
  wp (SIPFW_NLAction_RuleReplace a number) (ends_as s (replace_rule (kmem_ok (ticks s)) r number chains)) s.
Proof.
  intros Hr. destruct (ready_rule _ _ _ _ Hr) as [p Ha]. unfold SIPFW_NLAction_RuleReplace, replace_rule.
  apply fwp_bind, (wp_read_rule _ _ _ _ Ha). cbn [n_rule]. destruct (bad_chain (r_chain r)) eqn:Hi; simpl.
  { destruct (ready_mem _ _ _ _ Hr) as [adss Hm]. eapply wp_give_up; eauto with iota. }
  destruct (Z.leb_spec number 0) as [Hn0|Hn0].
  { destruct (ready_mem _ _ _ _ Hr) as [adss Hm]. eapply wp_give_up; eauto with iota. }
  destruct (ready_chain _ _ _ _ _ Hr Hi) as (adss & ads & Hm & Hads & Hrs & Hb & Hlen & Hsize & l & Hl & Hnum & _ & Hrep).
  set (i := r_chain r) in *. set (rs := chain_rules i chains) in *. pose proof (zlen_nonneg rs) as Hpos.
  pose proof (mrep_lists Hm) as Hh.
  apply fwp_bind, (wp_get_list _ l); [done..|]. apply fwp_bind. rewrite Hnum.
  destruct (Z.ltb_spec (zlen rs) number) as [Hlt|Hge].
  { apply fwp_ret. eapply wp_give_up; eauto with iota. }
  apply fwp_bind, fwp_gets, fwp_bind. change (rule_of i) with (link_at i ads 0). change 1 with (Z.of_nat 0 + 1) at 1.
  eapply (wp_seek i adss chains ads rs Hi Hads Hrs); [done|lia|lia|lia|].
  unfold zlen in Hge. rewrite Nat.min_l by lia. set (k := Z.to_nat (number - 1)).
  apply fwp_bind. eapply (wp_deref i adss chains ads rs Hi Hads Hrs); [done|lia|].
  destruct (lookup_lt_is_Some_2 ads k) as [v Hv]; [lia|]. rewrite Hv.
  replace (zlen rs) with (zlen rs + 0) by lia. rewrite (count_wrap rs 0) by lia. rewrite Z.add_0_r.
  apply fwp_bind. eapply (wp_open (Z.to_nat i)); [done|lia|..].
  - intros _ Hmem. change (negb (- ENOMEM =? 0)) with true. rewrite Hmem. apply fwp_ret.
    eapply wp_no_memory; eauto with iota.
  - intros pend s2 Hok Hs2 Hh2 Ht2 Ho Hpend. change (negb (0 =? 0)) with false. cbv iota.
    rewrite (proj2 (Z.eqb_neq _ _)) in Hok by (unfold zlen; lia). simpl in Hok. rewrite Hok.
    eapply (wp_swap i k v pend s2 a r p adss chains ads rs); try done; [by rewrite Hh2|].
    intros s' adss' Hs' Hm'. apply fwp_bind. eapply wp_mrep_free; [done|set_solver|]. intros Hm3. apply fwp_ret.
    split_and!; [done| |].
    + exists adss'. by replace (∅ : gset addr) with ({[v]} ∖ {[v]} : gset addr) by set_solver.
    + eapply memory_only_trans; [done|]. eapply memory_only_trans; [done|apply memory_only_heap].
Qed.

(** ** Emptying chains *)

(** The loop frees private nodes that form a list. *)
Lemma wp_free_rules P fuel priv p bds rs s adss chains (Q : unit -> Sipfw -> Prop) :
  mrepP P (priv ∪ list_to_set bds) s adss chains -> lrep (heap s) p bds rs -> NoDup bds ->
  (forall a, a ∈ bds -> a ∉ priv) -> (length bds < fuel)%nat ->
  (forall s', memory_only s s' -> mrepP P priv s' adss chains -> (forall a, a ∉ bds -> heap s' !! a = heap s !! a) -> Q tt s') ->
  wp (free_rules fuel p) Q s.
Proof.
  revert p bds rs s. induction fuel as [|fuel IH]; intros p bds rs s Hm Hrep Hnd Hout Hfuel HQ; [lia|].
  cbn [free_rules]. inversion Hrep as [|a n bds' rs' Ha Hrep']; subst.
  - apply fwp_ret, HQ; [apply memory_only_refl| |done].
    by replace priv with (priv ∪ list_to_set [] : gset addr) by set_solver.
  - apply NoDup_cons in Hnd as [Hab Hnd]. apply fwp_bind, (wp_read_rule _ n); [done|]. apply fwp_bind.
    eapply wp_mrep_write_next; [done|set_solver|]. intros m Hmm s1 Hm1.
    apply fwp_bind. eapply wp_mrep_free; [done|set_solver|]. intros Hm2.
    pose proof (Hout a ltac:(set_solver)) as Hap.
    apply (IH _ bds' rs').
    + replace (priv ∪ list_to_set bds' : gset addr)
        with ((priv ∪ list_to_set (a :: bds')) ∖ {[a]} : gset addr); [done|].
      apply set_eq. intros b. simpl. destruct (decide (b = a)) as [->|]; set_solver.
    + apply (lrep_frame (heap s)); [done|]. intros b Hb. simpl.
      rewrite lookup_delete_ne, lookup_insert_ne; [done|by intros ->..].
    + done.
    + intros b Hb. apply Hout. set_solver.
    + simpl in Hfuel. lia.
    + intros s' Hs' Hm' Hsame. apply HQ; [|done|].
      * eapply memory_only_trans; [apply memory_only_heap|]. eapply memory_only_trans; [apply memory_only_heap|done].
      * intros b Hb. rewrite Hsame by set_solver. simpl. rewrite lookup_delete_ne, lookup_insert_ne; [done|set_solver..].
Qed.

(** [flush_chain] and [destroy_chain]: the chain is empty and its nodes are freed. *)
Lemma wp_flush_chain P i priv s adss chains (Q : unit -> Sipfw -> Prop) :
  bad_chain i = false -> mrepP P priv s adss chains ->
  (forall s' adss', memory_only s s' -> mrepP (also_chain P (Z.to_nat i)) priv s' adss' (set_chain i [] chains) ->
     (forall a, a ∈ priv -> heap s' !! a = heap s !! a) -> Q tt s') ->
  wp (flush_chain i) Q s.
Proof.
  intros Hi Hm HQ. pose proof (mrepP_lists _ _ _ _ _ Hm) as Hh. pose proof (mrepP_owned _ _ _ _ _ Hm) as Hown.
  destruct (chain_lookup adss i (hrep_addrs _ _ _ _ Hh) Hi) as [ads Hads].
  destruct (chain_lookup chains i (hrep_chains _ _ _ _ Hh) Hi) as [rs Hrs].
  destruct (hrep_chain i adss chains ads rs Hi Hads Hrs _ _ Hh) as (l & Hl & Hrep).
  pose proof (hrep_nodup _ _ _ _ Hh _ _ Hads) as Hnd.
  assert (Hi3 : (Z.to_nat i < length adss)%nat) by (by eapply lookup_lt_Some).
  assert (Hi3' : (Z.to_nat i < length chains)%nat) by (by eapply lookup_lt_Some).
  unfold flush_chain. change (rule_of i) with (link_at i ads 0). apply fwp_bind.
  eapply (wp_deref i adss chains ads rs Hi Hads Hrs); [done|lia|]. apply fwp_bind.
  eapply (wp_orep_assign P i adss chains ads rs Hi Hads Hrs None priv 0 None [] []).
  - split; [done| |done]. eapply srep_weaken; [|apply Hm]. by intros j [].
  - lia.
  - constructor.
  - constructor.
  - by intros a Ha%not_elem_of_nil.
  - intros s1 Hs1 Ho1 Hsame _ _. apply fwp_bind. rewrite drop_0 in Ho1. simpl in Ho1.
    replace ((priv ∪ list_to_set ads) ∖ ∅ : gset addr) with (priv ∪ list_to_set ads : gset addr) in Ho1 by set_solver.
    eapply (wp_orepP_commit _ i _ _ Hi); [by apply list_lookup_insert_eq|by apply list_lookup_insert_eq|done..|].
    intros s2 Hs2 Hh2 Hm2. apply fwp_bind, fwp_gets.
    assert (Hpriv : forall a, a ∈ ads -> a ∉ priv).
    { intros a Ha Hp. apply (owned_priv _ _ _ Hown a Hp). by exists (Z.to_nat i), ads. }
    assert (Hh12 : forall a, heap s2 !! a = heap s !! a).
    { intros a. rewrite Hh2. apply Hsame. by apply not_elem_of_nil. }
    assert (l_rule l = ads !! 0%nat) as Hhead by (rewrite (lrep_head _ _ _ _ Hrep); by destruct ads).
    eapply (wp_free_rules _ _ priv _ ads rs); [done| |done|done| |].
    + rewrite <- Hhead. apply (lrep_frame (heap s)); [done|]. intros a _. apply Hh12.
    + rewrite (map_eq (heap s2) (heap s) Hh12). assert (length ads <= size (heap s))%nat; [|lia].
      by eapply owned_length.
    + intros s3 Hs3 Hm3 Hsame3. eapply HQ; [|done|].
      * eapply memory_only_trans; [done|]. by eapply memory_only_trans.
      * intros a Ha. rewrite Hsame3, Hh12; [done|]. intros Hin. by apply (Hpriv a).
Qed.

Lemma wp_for_chains P f cs priv s adss chains (Q : unit -> Sipfw -> Prop) :
  (forall i Q s, wp (flush_chain i) Q s -> wp (f i) Q s) -> Forall (fun i => bad_chain i = false) cs -> mrepP P priv s adss chains ->
  (forall s' adss', memory_only s s' -> mrepP (fun j => P j \/ j ∈ map Z.to_nat cs) priv s' adss' (foldl (fun c i => set_chain i [] c) chains cs) ->
     Q tt s') ->
  wp (for_chains f cs) Q s.
Proof.
  intros Hf. revert P s adss chains. induction cs as [|i cs IH]; intros P s adss chains Hall Hm HQ.
  - apply fwp_ret. eapply HQ; [apply memory_only_refl|]. eapply mrepP_weaken; [|done].
    by intros j [?|?%not_elem_of_nil].
  - apply Forall_cons in Hall as [Hi Hall]. cbn [for_chains]. apply fwp_bind, Hf.
    eapply wp_flush_chain; [done..|]. intros s1 adss1 Hs1 Hm1 _. eapply IH; [done..|].
    intros s' adss' Hs' Hm'. eapply HQ; [by eapply memory_only_trans|]. eapply mrepP_weaken; [|done].
    unfold also_chain. simpl. intros j [?|[?|?]%elem_of_cons]; auto.
Qed.

Lemma chain_range_ok c cs : chain_range c = Some cs -> Forall (fun i => bad_chain i = false) cs.
Proof.
  unfold chain_range. case_cond; [|case_cond]; intros [= <-]; repeat constructor. done.
Qed.

Lemma flush_refines s a r chains :
  command_ready s a r chains -> wp (SIPFW_NLAction_RuleFlush a) (ends_as s (flush_rules r chains)) s.
Proof.
  intros Hr. destruct (ready_rule _ _ _ _ Hr) as [p Ha]. destruct (ready_mem _ _ _ _ Hr) as [adss Hm].
  unfold SIPFW_NLAction_RuleFlush, flush_rules. apply fwp_bind, (wp_read_rule _ _ _ _ Ha). cbn [n_rule].
  destruct (chain_range (r_chain r)) as [cs|] eqn:Hcs.
  - apply fwp_bind. eapply wp_for_chains; [done|by eapply chain_range_ok|done|].
    intros s' adss' Hs' Hm'. eapply wp_give_up; [|done|by intros s'']. eapply mrepP_weaken; [|done]. by left.
  - eapply wp_give_up; eauto with iota.
Qed.

Lemma wp_destroy_chain i (Q : unit -> Sipfw -> Prop) s : wp (flush_chain i) Q s -> wp (destroy_chain i) Q s.
Proof.
  intros Hwp%wp_bind_inv. apply fwp_bind. eapply wp_mono; [exact Hwp|]. clear. intros p s Hwp%wp_bind_inv.
  apply fwp_bind. eapply wp_mono; [exact Hwp|]. clear. intros [] s Hwp%wp_bind_inv. apply fwp_bind.
  apply wp_bind_inv in Hwp. eapply wp_mono; [exact Hwp|]. clear. intros [] s Hwp. by apply fwp_bind.
Qed.

(** [SIPFW_ListDestroy] frees all rules. *)
Lemma list_destroy_refines P s adss chains :
  mrepP P ∅ s adss chains ->
  wp SIPFW_ListDestroy (fun ret s' => ret = 0 /\ rep s' [[]; []; []] /\ memory_only s s') s.
Proof.
  intros Hm. apply fwp_bind. eapply (wp_for_chains P _ _ ∅); [by apply wp_destroy_chain|repeat constructor|done|].
  intros s' adss' Hs' Hm'. apply fwp_ret. split_and!; [done| |done].
  destruct (mrepP_lists _ _ _ _ _ Hm) as [_ _ Hlen _ _ _].
  destruct chains as [|x [|y [|z [|]]]]; try done. exists adss'. destruct Hm' as [Hh [H1 H2 H3] Ho].
  split; [done| |done]. split; [|done..]. intros j l rs _ Hl. apply H1; [|done]. right.
  pose proof (lookup_lt_Some _ _ _ Hl) as Hj. rewrite (hrep_tables _ _ _ _ Hh) in Hj.
  destruct j as [|[|[|]]]; [set_solver..|lia].
Qed.

End commands.
