(* ===== verification/SipfwFile.v ===== *)
(** The files of the firewall (SIPFW/module/sipfw_k_file.c): reading and writing, the log, the
    file of rules and the configuration file. *)
From S2P Require Import Prelude KcpConv Frames Identity Sipfw.

(** ** Open files *)

Inductive open_flags := ReadOnly | CreateTruncate | CreateAppend.

#[global] Instance open_flags_eq_dec : EqDecision open_flags.
Proof. solve_decision. Defined.

Record file := mkFile { f_path : bytes; f_flags : open_flags; f_pos : nat }.

Definition contents (path : bytes) (s : Sipfw) : bytes := default [] (disk s !! path).

(** [isspace] of the kernel. *)
Definition isspace (b : byte) : bool :=
  bool_decide (b ∈ [x20; x09; x0a; x0b; x0c; x0d; xa0]).

(** The C string at the start of a buffer. *)
Definition c_string (buf : bytes) : bytes := take (strnlen buf (length buf)) buf.

Fixpoint skip_spaces (l : bytes) : bytes :=
  match l with
  | b :: rest => if isspace b then skip_spaces rest else l
  | [] => []
  end.

(** [strim]: a zero is written behind the last character that is not a space. *)
Definition strim (buf : bytes) : bytes :=
  let text := c_string buf in
  let kept := length (skip_spaces (reverse text)) in
  if bool_decide (kept = length text) then buf else <[kept := x00]> buf.

Section file.
Context `{KernelEnv}.

Definition SIPFW_OpenFile (path : bytes) (flags : open_flags) : F (option file) :=
  t ← tick;
  d ← gets disk;
  if negb (vfs_open t) then mret None else
  match flags, d !! path with
  | ReadOnly, None => mret None
  | ReadOnly, Some _ => mret (Some (mkFile path flags 0))
  | CreateTruncate, _ =>
      modify (set_disk (<[path := []]> d));; mret (Some (mkFile path flags 0))
  | CreateAppend, text =>
      modify (set_disk (<[path := default [] text]> d));; mret (Some (mkFile path flags 0))
  end.

(** The number of bytes a call transfers of at most [n]. *)
Definition io_count (r : io_result) (n : nat) : Z :=
  match r with
  | IoAll => Z.of_nat n
  | IoSome k => Z.of_nat (min (S k) n)
  | IoErr e => Z.neg e
  end.

(** The result, the bytes and the file with its new position. *)
Definition SIPFW_KernelRead (f : file) (len : nat) : F (Z * bytes * file) :=
  if (len =? 0)%nat then mret (- EINVAL, [], f) else
  if bool_decide (f_flags f = CreateTruncate) then mret (- EBADF, [], f) else
  t ← tick;
  text ← gets (contents (f_path f));
  let available := min len (length text - f_pos f) in
  let count := io_count (vfs_io t) available in
  let data := take (Z.to_nat count) (drop (f_pos f) text) in
  mret (count, data, mkFile (f_path f) (f_flags f) (f_pos f + Z.to_nat count)).

Definition SIPFW_KernelWrite (f : file) (buf : bytes) : F (Z * file) :=
  if (length buf =? 0)%nat then mret (- EINVAL, f) else
  if bool_decide (f_flags f = ReadOnly) then mret (- EBADF, f) else
  t ← tick;
  text ← gets (contents (f_path f));
  let pos := match f_flags f with CreateAppend => length text | _ => f_pos f end in
  let count := io_count (vfs_io t) (length buf) in
  let data := take (Z.to_nat count) buf in
  let text := take pos text ++ replicate (pos - length text) x00 ++ data ++ drop (pos + length data) text in
  modify (fun s => set_disk (<[f_path f := text]> (disk s)) s);;
  mret (count, mkFile (f_path f) (f_flags f) (pos + length data)).

Definition SIPFW_WriteLine (f : file) (buf : bytes) : F (Z * file) :=
  if (length buf =? 0)%nat then mret (-1, f)
  else if bool_decide (f_flags f = ReadOnly) then mret (-1, f)
  else SIPFW_KernelWrite f buf.

(** ** Reading a line *)

Definition EOF_char : byte := xff.

Definition line_end (b : byte) : bool := bool_decide (b ∈ [EOF_char; x00; x0a; x0d]).

(** The loop: [pos] is an index of the buffer. *)
Fixpoint read_chars (fuel : nat) (f : file) (buf : bytes) (pos count len : nat) : F (bytes * nat * nat * file) :=
  match fuel with
  | O => hang
  | S fuel =>
      size ← gets (fun s => length (contents (f_path f) s));
      if negb (line_end (c_char buf pos)) && (count <? len - 1)%nat && (f_pos f <=? size)%nat then
        '(ret, data, f) ← SIPFW_KernelRead f 1;
        if ret <=? 0 then mret (buf, S pos, count, f)
        else read_chars fuel f (<[S pos := c_char data 0]> buf) (S pos) (S count) len
      else mret (buf, pos, count, f)
  end.

(** The count, the buffer and the file. *)
Definition SIPFW_ReadLine (f : file) (buf : bytes) (len : nat) : F (Z * bytes * file) :=
  if (len <=? 1)%nat then mret (-1, buf, f) else
  if bool_decide (f_flags f = CreateTruncate) then mret (-1, buf, f) else
  '(ret, data, f) ← SIPFW_KernelRead f 1;
  if ret <=? 0 then mret (0, buf, f) else
  let buf := <[0%nat := c_char data 0]> buf in
  if bool_decide (c_char buf 0 = EOF_char) then mret (0, buf, f) else
  '(buf, pos, count, f) ← read_chars len f buf 0 1 len;
  if bool_decide (c_char buf pos ∈ [x0d; x0a; EOF_char]) then
    mret (Z.of_nat count - (if (0 <? count)%nat then 1 else 0), <[pos := x00]> buf, f)
  else mret (Z.of_nat count, <[S pos := x00]> buf, f).

(** ** The log *)

(** [%0wd] *)
Definition print_int (w : nat) (z : Z) : bytes :=
  let digits := to_string (Z.abs z) in
  let sign := if z <? 0 then [x2d] else [] in
  sign ++ replicate (w - length sign - length digits) x30 ++ digits.

(** [%pI4] *)
Definition print_ip (a : Z) : bytes :=
  match le_encode 4 a with
  | [p; q; r; t] =>
      to_string (byte_val p) ++ str "." ++ to_string (byte_val q) ++ str "."
      ++ to_string (byte_val r) ++ str "." ++ to_string (byte_val t)
  | _ => []
  end.

Fixpoint protocol_name (table : list (bytes * nat * Z)) (protocol : Z) : bytes :=
  match table with
  | [] => str "unknown"
  | (name, _, value) :: table => if value =? protocol then name else protocol_name table protocol
  end.

Definition action_name (action : Z) : bytes :=
  if (0 <=? action) && (action <? SIPFW_ACTION_NUM) then
    match sipfw_action_name !! Z.to_nat action with
    | Some (name, _, _) => name
    | None => str "UNKNOWN"
    end
  else str "UNKNOWN".

(** [SIPFW_Localtime]: the time in zone +8, with the months from 1. *)
Definition SIPFW_Localtime (time : Z) : tm :=
  let t := time64_to_tm time (8 * 60 * 60) in
  mkTm (tm_year t + 1900) (tm_mon t + 1) (tm_mday t) (tm_hour t) (tm_min t) (tm_sec t).

Definition log_line (cur : tm) (saddr daddr protocol action : Z) : bytes :=
  str "Time: " ++ print_int 4 (tm_year cur) ++ str "-" ++ print_int 2 (tm_mon cur) ++ str "-"
  ++ print_int 2 (tm_mday cur) ++ str " " ++ print_int 2 (tm_hour cur) ++ str ":"
  ++ print_int 2 (tm_min cur) ++ str ":" ++ print_int 2 (tm_sec cur)
  ++ str "  From " ++ print_ip saddr ++ str " To " ++ print_ip daddr ++ str " "
  ++ protocol_name sipfw_protocol_name protocol ++ str " PROTOCOL was " ++ action_name action ++ [x0a].

(** [snprintf] cuts the line to the size of the buffer. *)
Definition SIPFW_LogAppend (saddr daddr protocol : Z) (r : sipfw_rules) : F Z :=
  c ← gets cf;
  if negb (LogPause c =? 0) then mret (-1) else
  ok ← kmalloc_temporary;
  if negb ok then mret (- ENOMEM) else
  f ← SIPFW_OpenFile (LogFilePath c) CreateAppend;
  match f with
  | None => mret (-1)
  | Some f =>
      t ← tick;
      let line := log_line (SIPFW_Localtime (real_seconds t)) saddr daddr protocol (r_action r) in
      SIPFW_WriteLine f (take 2047 line);;
      mret 0
  end.

(** ** The file of rules *)

(** [struct sipfw_rule_record] in memory, with its padding. *)
Definition SIPFW_RecordFromRule (r : sipfw_rules) : bytes :=
  le_encode 4 (r_chain r) ++ le_encode 4 (r_source r) ++ le_encode 4 (r_dest r)
  ++ le_encode 2 (r_sport r) ++ le_encode 2 (r_dport r) ++ le_encode 1 (r_protocol r)
  ++ replicate 3 x00 ++ le_encode 4 (r_action r) ++ r_ifname r ++ r_addtion r.

Definition sizeof_record : nat := 36.

Definition SIPFW_RuleFromRecord (d : bytes) : sipfw_rules :=
  mkRule (int32 (le_decode (sub_bytes 0 4 d))) (le_decode (sub_bytes 4 4 d)) (le_decode (sub_bytes 8 4 d))
    (le_decode (sub_bytes 12 2 d)) (le_decode (sub_bytes 14 2 d)) (le_decode (sub_bytes 16 1 d))
    (int32 (le_decode (sub_bytes 20 4 d))) (sub_bytes 24 8 d) (sub_bytes 32 4 d).

(** The loop over the rules of a chain; the error and the file. *)
Fixpoint write_records (f : file) (rules : list sipfw_rules) : F (Z * file) :=
  match rules with
  | [] => mret (0, f)
  | r :: rules =>
      '(written, f) ← SIPFW_KernelWrite f (SIPFW_RecordFromRule r);
      if written =? Z.of_nat sizeof_record then write_records f rules
      else mret (if written <? 0 then int32 written else - EIO, f)
  end.

Fixpoint save_chains (f : file) (chains : list Z) : F Z :=
  match chains with
  | [] => mret 0
  | i :: chains =>
      l ← get_list i;
      match l_snapshot l with
      | None => save_chains f chains
      | Some a =>
          snapshot ← read_snapshot a;
          if snap_count snapshot =? 0 then save_chains f chains else
          ok ← kmalloc_temporary;   (* kmemdup *)
          if negb ok then mret (- ENOMEM) else
          if decide (length (snap_rules snapshot) < Z.to_nat (snap_count snapshot))%nat then fault else
          '(ret, f) ← write_records f (take (Z.to_nat (snap_count snapshot)) (snap_rules snapshot));
          if negb (ret =? 0) then mret ret else save_chains f chains
      end
  end.

Definition SIPFW_SaveRuleFile : F Z :=
  c ← gets cf;
  if bool_decide (RuleFilePath c = []) then mret 0 else
  f ← SIPFW_OpenFile (RuleFilePath c) CreateTruncate;
  match f with
  | None => mret (- ENOENT)
  | Some f => save_chains f [0; 1; 2]
  end.

(** A rule that has been read goes to the end of its chain. *)
Definition link_loaded (rule : addr) (chain : Z) : F unit :=
  fuel ← chain_fuel;
  tail ← find_tail fuel (rule_of chain);
  assign tail (Some rule);;
  l ← get_list chain;
  set_number chain (int32 (l_number l + 1)).

(** The loop that reads the records; the error. *)
Fixpoint load_records (fuel : nat) (f : file) : F Z :=
  match fuel with
  | O => hang
  | S fuel =>
      '(count, record, f) ← SIPFW_KernelRead f sizeof_record;
      if 0 <? count then
        let r := SIPFW_RuleFromRecord record in
        if negb (count =? Z.of_nat sizeof_record) || bad_chain (r_chain r)
           || (r_action r <? 0) || (SIPFW_ACTION_NUM <=? r_action r)
        then mret (- EINVAL) else
        a ← kzalloc_rule;
        match a with
        | None => mret (- ENOMEM)
        | Some rule =>
            write_rule rule (mkNode r None);;
            link_loaded rule (r_chain r);;
            load_records fuel f
        end
      else if count <? 0 then mret (int32 count) else mret 0
  end.

Fixpoint load_snapshots (chains : list Z) : F Z :=
  match chains with
  | [] => mret 0
  | i :: chains =>
      l ← get_list i;
      if l_number l =? 0 then load_snapshots chains else
      snapshot ← SIPFW_AllocRuleSnapshot (wrap 32 (l_number l));
      match snapshot with
      | None => mret (- ENOMEM)
      | Some _ => SIPFW_PublishRuleSnapshotLocked i snapshot;; load_snapshots chains
      end
  end.

Definition SIPFW_LoadRuleFile : F Z :=
  c ← gets cf;
  if bool_decide (RuleFilePath c = []) then mret 0 else
  f ← SIPFW_OpenFile (RuleFilePath c) ReadOnly;
  match f with
  | None => mret 0
  | Some f =>
      fuel ← gets (fun s => S (length (contents (f_path f) s)));
      ret ← load_records fuel f;
      ret ← (if ret =? 0 then load_snapshots [0; 1; 2] else mret ret);
      if ret =? 0 then mret 0 else SIPFW_ListDestroy;; mret ret
  end.

(** ** The configuration file *)

(** [while ( *pos == '=' || isspace( *pos))] *)
Fixpoint skip_assign (l : bytes) : bytes :=
  match l with
  | b :: rest => if bool_decide (b = x3d) || isspace b then skip_assign rest else l
  | [] => []
  end.

Definition strscpy (size : nat) (l : bytes) : bytes := take (size - 1) l.

(** One line of the file, trimmed. *)
Definition conf_line (line : bytes) (c : sipfw_conf) : sipfw_conf :=
  match line with
  | [] => c
  | b :: _ =>
      if bool_decide (b = x23) then c else
      let pos := skip_spaces line in
      if strncmp_eq 13 pos (str "DefaultAction") then
        let pos := skip_assign (drop 13 pos) in
        if strncmp_eq 6 pos (str "ACCEPT") then
          mkConf SIPFW_ACTION_ACCEPT (RuleFilePath c) (LogFilePath c) (HitNumber c) (Invalid c) (LogPause c)
        else if strncmp_eq 4 pos (str "DROP") then
          mkConf SIPFW_ACTION_DROP (RuleFilePath c) (LogFilePath c) (HitNumber c) (Invalid c) (LogPause c)
        else c
      else if strncmp_eq 9 pos (str "RulesFile") then
        mkConf (DefaultAction c) (strscpy 256 (skip_assign (drop 9 pos))) (LogFilePath c) (HitNumber c)
          (Invalid c) (LogPause c)
      else if strncmp_eq 7 pos (str "LogFile") then
        mkConf (DefaultAction c) (RuleFilePath c) (strscpy 256 (skip_assign (drop 7 pos))) (HitNumber c)
          (Invalid c) (LogPause c)
      else c
  end.

(** The loop over the lines; [line] is the buffer. *)
Fixpoint conf_loop (fuel : nat) (f : file) (line : bytes) : F Z :=
  match fuel with
  | O => hang
  | S fuel =>
      '(count, line, f) ← SIPFW_ReadLine f line 256;
      if 0 <=? count then
        let line := strim line in
        modify (fun s => set_cf (conf_line (c_string line) (cf s)) s);;
        conf_loop fuel f line
      else mret 0
  end.

(** [stack] is what the buffer holds at first. *)
Definition SIPFW_HandleConf (fuel : nat) (stack : bytes) : F Z :=
  f ← SIPFW_OpenFile (str "/etc/sipfw.conf") ReadOnly;
  match f with
  | None => mret 0
  | Some f => conf_loop fuel f stack
  end.

End file.
