(* ===== verification/SipfwLoad.v ===== *)
(** The file of rules: what is saved is what is loaded, and loading takes all of a file or
    nothing. *)
From S2P Require Import Prelude KcpConv Frames Identity Sipfw SipfwHeap SipfwRules SipfwProofs SipfwFile.

(** ** Well-formed rules *)

(** A rule of chain [i]: its fields fit their types, its action is one of the six. *)
Record wf_rule (i : nat) (r : sipfw_rules) : Prop := mkWfRule {
  wf_chain : r_chain r = Z.of_nat i;
  wf_action : 0 <= r_action r < SIPFW_ACTION_NUM;
  wf_source : fits 32 (r_source r);
  wf_dest : fits 32 (r_dest r);
  wf_sport : fits 16 (r_sport r);
  wf_dport : fits 16 (r_dport r);
  wf_protocol : fits 8 (r_protocol r);
  wf_ifname : length (r_ifname r) = 8%nat;
  wf_addtion : length (r_addtion r) = 4%nat;
}.

Definition wf_chains (chains : list (list sipfw_rules)) : Prop :=
  forall i rs, chains !! i = Some rs -> Forall (wf_rule i) rs.

(** ** Records *)

Lemma length_le_encode n z : length (le_encode n z) = n.
Proof. unfold le_encode. rewrite length_reverse. apply length_be_encode. Qed.

Lemma le_decode_encode n z : le_decode (le_encode n z) = z mod 256 ^ Z.of_nat n.
Proof. unfold le_decode, le_encode. rewrite reverse_involutive. apply be_decode_encode. Qed.

Lemma le_decode_sub_fits off n d : fits (8 * Z.of_nat n) (le_decode (sub_bytes off n d)).
Proof.
  unfold fits, le_decode. pose proof (be_decode_range (reverse (sub_bytes off n d))) as Hr.
  assert (zlen (reverse (sub_bytes off n d)) <= Z.of_nat n) as Hn.
  { unfold zlen, sub_bytes. rewrite length_reverse, length_take. lia. }
  split; [lia|]. eapply Z.lt_le_trans; [apply Hr|]. rewrite Z.pow_mul_r by lia. apply Z.pow_le_mono_r; lia.
Qed.

Lemma le_roundtrip (n : nat) z : fits (8 * Z.of_nat n) z -> le_decode (le_encode n z) = z.
Proof.
  intros Hz. rewrite le_decode_encode. apply Z.mod_small. unfold fits in Hz.
  by rewrite Z.pow_mul_r in Hz by lia.
Qed.

Lemma sub_bytes_here n (b c : bytes) : length b = n -> sub_bytes 0 n (b ++ c) = b.
Proof. intros <-. unfold sub_bytes. rewrite drop_0. apply take_app_length. Qed.

Lemma sub_bytes_end n (b : bytes) : length b = n -> sub_bytes 0 n b = b.
Proof. intros <-. unfold sub_bytes. rewrite drop_0. apply firstn_all. Qed.

Lemma sub_bytes_skip off n (a l : bytes) :
  (length a <= off)%nat -> sub_bytes off n (a ++ l) = sub_bytes (off - length a) n l.
Proof. intros Ha. unfold sub_bytes. by rewrite drop_app_ge. Qed.

(** Find a field in a concatenation of fields of known lengths. *)
Ltac field :=
  repeat match goal with
  | |- context [sub_bytes 0 ?n (?b ++ ?c)] => rewrite (sub_bytes_here n b c) by assumption
  | |- context [sub_bytes 0 ?n ?b] => rewrite (sub_bytes_end n b) by assumption
  | Ha : length ?a = ?k |- context [sub_bytes ?off ?n (?a ++ ?l)] =>
      let off' := eval compute in (off - k)%nat in
      rewrite (sub_bytes_skip off n a l) by (rewrite Ha; lia);
      replace (off - length a)%nat with off' by (rewrite Ha; reflexivity)
  end.

Lemma length_record i r : wf_rule i r -> length (SIPFW_RecordFromRule r) = sizeof_record.
Proof.
  intros Hwf. unfold SIPFW_RecordFromRule. rewrite !length_app, !length_le_encode, length_replicate.
  rewrite (wf_ifname _ _ Hwf), (wf_addtion _ _ Hwf). done.
Qed.

Lemma int32_small z : - 2 ^ 31 <= z < 2 ^ 31 -> int32 z = z.
Proof. intros Hz. unfold int32. rewrite wrap_id by (unfold fits; lia). lia. Qed.

Lemma record_roundtrip i r :
  wf_rule i r -> (i < 3)%nat -> SIPFW_RuleFromRecord (SIPFW_RecordFromRule r) = r.
Proof.
  intros [H1 H2 H3 H4 H5 H6 H7 H8 H9] Hi. unfold SIPFW_ACTION_NUM in H2. destruct r as [ch src dst sp dp pr ac ifn add].
  cbn [r_chain r_source r_dest r_sport r_dport r_protocol r_action r_ifname r_addtion] in *.
  unfold SIPFW_RuleFromRecord, SIPFW_RecordFromRule.
  cbn [r_chain r_source r_dest r_sport r_dport r_protocol r_action r_ifname r_addtion].
  set (c := le_encode 4 ch). set (s := le_encode 4 src). set (d := le_encode 4 dst).
  set (p := le_encode 2 sp). set (q := le_encode 2 dp). set (o := le_encode 1 pr). set (z := replicate 3 x00).
  set (a := le_encode 4 ac).
  assert (Hc : length c = 4%nat) by apply length_le_encode. assert (Hs : length s = 4%nat) by apply length_le_encode.
  assert (Hd : length d = 4%nat) by apply length_le_encode. assert (Hp : length p = 2%nat) by apply length_le_encode.
  assert (Hq : length q = 2%nat) by apply length_le_encode. assert (Ho : length o = 1%nat) by apply length_le_encode.
  assert (Ha : length a = 4%nat) by apply length_le_encode. assert (Hz : length z = 3%nat) by done.
  assert (Hi32 : forall y, 0 <= y < 2 ^ 31 -> int32 (le_decode (le_encode 4 y)) = y).
  { intros y Hy. rewrite le_roundtrip by (unfold fits; lia). apply int32_small. lia. }
  clearbody z. f_equal; field; try done; try (by apply le_roundtrip); apply Hi32; lia.
Qed.

Definition encode_rules (rs : list sipfw_rules) : bytes := concat (map SIPFW_RecordFromRule rs).
Definition encode_chains (chains : list (list sipfw_rules)) : bytes := concat (map encode_rules chains).

(** ** Writing *)

(** Only files differ. *)
Definition with_disk (s : Sipfw) (d : gmap bytes bytes) (k : nat) : Sipfw :=
  mkSipfw (heap s) (snaps s) (rcu s) (sipfw_tables s) (cf s) d (sent s) (nlfd s) (cookie_pot s) (proc_dir s)
    (hooks s) k.

(** The only change is that the file [path] has the contents [text]. *)
Definition wrote (s : Sipfw) (path text : bytes) (s' : Sipfw) : Prop :=
  exists k, s' = with_disk s (<[path := text]> (disk s)) k.

Lemma wrote_trans s1 s2 s3 path text text' : wrote s1 path text s2 -> wrote s2 path text' s3 -> wrote s1 path text' s3.
Proof. intros [k ->] [k' ->]. exists k'. unfold with_disk. simpl. by rewrite insert_insert_eq. Qed.

Lemma wrote_lookup s path text s' : wrote s path text s' -> disk s' !! path = Some text.
Proof. intros [k ->]. apply lookup_insert_eq. Qed.

Lemma wrote_refl s path text : disk s !! path = Some text -> wrote s path text s.
Proof. intros Hd. exists (ticks s). unfold with_disk. rewrite insert_id by done. by destruct s. Qed.

Lemma wrote_tick s path text s' : wrote s path text s' -> wrote s path text (next_tick s').
Proof. intros [k ->]. by exists (S k). Qed.

(** The same memory. *)
Lemma mrepP_same_memory P priv s s' adss chains :
  mrepP P priv s adss chains -> heap s' = heap s -> snaps s' = snaps s -> rcu s' = rcu s ->
  sipfw_tables s' = sipfw_tables s -> mrepP P priv s' adss chains.
Proof. intros [H1 H2 H3] Eh En Er Et. split; by rewrite ?Eh, ?En, ?Er, ?Et. Qed.

Section save.
Context `{KernelEnv}.

Lemma wp_tick (Q : nat -> Sipfw -> Prop) s : Q (ticks s) (next_tick s) -> wp tick Q s.
Proof. done. Qed.

Lemma io_count_range t n : io_count (vfs_io t) n <= Z.of_nat n.
Proof. unfold io_count. destruct (vfs_io t); lia. Qed.

Lemma io_count_int32 t n : io_count (vfs_io t) n < 0 -> int32 (io_count (vfs_io t) n) <> 0.
Proof.
  unfold io_count. intros Hneg. destruct (vfs_io t) as [|k|e] eqn:E; [lia..|].
  pose proof (vfs_errno t e E). rewrite int32_small; lia.
Qed.

(** Writing at the end of a file. *)
Lemma wp_write_end f buf text s (Q : Z * file -> Sipfw -> Prop) :
  f_flags f = CreateTruncate -> disk s !! f_path f = Some text -> f_pos f = length text -> buf <> [] ->
  (forall t s', let count := io_count (vfs_io t) (length buf) in
     let text' := text ++ take (Z.to_nat count) buf in
     wrote s (f_path f) text' s' -> Q (count, mkFile (f_path f) CreateTruncate (length text')) s') ->
  wp (SIPFW_KernelWrite f buf) Q s.
Proof.
  intros Hf Hd Hpos Hne HQ. unfold SIPFW_KernelWrite. destruct (Nat.eqb_spec (length buf) 0) as [E|_].
  { by apply length_zero_iff_nil in E. }
  rewrite bool_decide_false by congruence. apply fwp_bind, wp_tick, fwp_bind, fwp_gets, fwp_bind, wp_modify, fwp_ret.
  unfold contents. simpl. rewrite Hd, Hf, Hpos. simpl. rewrite firstn_all, Nat.sub_diag, drop_ge by lia.
  simpl. rewrite app_nil_r, <- length_app. apply HQ. by exists (S (ticks s)).
Qed.

Lemma wp_write_records i f rs text s (Q : Z * file -> Sipfw -> Prop) :
  Forall (wf_rule i) rs ->
  f_flags f = CreateTruncate -> disk s !! f_path f = Some text -> f_pos f = length text ->
  (forall ret text' s', wrote s (f_path f) text' s' -> (ret = 0 -> text' = text ++ encode_rules rs) ->
     Q (ret, mkFile (f_path f) CreateTruncate (length text')) s') ->
  wp (write_records f rs) Q s.
Proof.
  revert f text s. induction rs as [|r rs IH]; intros f text s Hwf Hf Hd Hpos HQ.
  - apply fwp_ret. destruct f as [path flags pos]. simpl in *. subst. apply HQ; [by apply wrote_refl|].
    intros _. by rewrite app_nil_r.
  - apply Forall_cons in Hwf as [Hr Hwf]. pose proof (length_record _ _ Hr) as Hlen. cbn [write_records]. apply fwp_bind.
    eapply wp_write_end; [done..| |]. { intros E. by rewrite E in Hlen. }
    intros t s1. cbv zeta. rewrite Hlen. intros Hw. destruct (Z.eqb_spec (io_count (vfs_io t) sizeof_record) (Z.of_nat sizeof_record)) as [E|E].
    + rewrite E, Nat2Z.id, <- Hlen, firstn_all in *. eapply IH; [done|done| |done|].
      * by eapply wrote_lookup.
      * simpl. intros ret text' s' Hw' Hret. apply HQ; [by eapply wrote_trans|].
        intros Hz. rewrite (Hret Hz). by rewrite <- app_assoc.
    + apply fwp_ret. apply HQ; [done|]. destruct (Z.ltb_spec (io_count (vfs_io t) sizeof_record) 0).
      * intros Hz. by apply io_count_int32 in Hz.
      * done.
Qed.

Lemma wp_read_snapshot_ok s chains i rs l adss (Q : sipfw_rule_snapshot -> Sipfw -> Prop) a :
  mrep ∅ s adss chains -> sipfw_tables s !! i = Some l -> chains !! i = Some rs -> l_snapshot l = Some a ->
  (rs <> [] -> Q (mkSnapshot (zlen rs) rs) s) -> wp (read_snapshot a) Q s.
Proof.
  intros Hm Hl Hrs Ha HQ. destruct (srep_snap _ _ _ _ _ _ (mrep_snaps Hm) i l rs I Hl Hrs) as [_ Hsn].
  rewrite Ha in Hsn. destruct Hsn as [Hne Hsn]. eapply wp_read_snapshot; [done|]. by apply HQ.
Qed.

(** The chains from [i] on are written one after the other. *)
Lemma wp_save_chains f cs s chains adss text (Q : Z -> Sipfw -> Prop) :
  Forall (fun i => bad_chain i = false) cs -> mrep ∅ s adss chains -> wf_chains chains ->
  f_flags f = CreateTruncate -> disk s !! f_path f = Some text -> f_pos f = length text ->
  (forall ret text' s', wrote s (f_path f) text' s' ->
     (ret = 0 -> text' = text ++ concat (map (fun i => encode_rules (chain_rules i chains)) cs)) -> Q ret s') ->
  wp (save_chains f cs) Q s.
Proof.
  revert f text s. induction cs as [|i cs IH]; intros f text s Hcs Hm Hwf Hf Hd Hpos HQ.
  - apply fwp_ret. eapply HQ; [by apply wrote_refl|]. intros _. by rewrite app_nil_r.
  - apply Forall_cons in Hcs as [Hi Hcs]. pose proof (mrep_lists Hm) as Hh.
    destruct (chain_lookup (sipfw_tables s) i (hrep_tables _ _ _ _ Hh) Hi) as [l Hl].
    destruct (chain_lookup chains i (hrep_chains _ _ _ _ Hh) Hi) as [rs Hrs].
    assert (Hcr : chain_rules i chains = rs) by (unfold chain_rules; by rewrite Hrs).
    cbn [save_chains map concat]. apply fwp_bind, (wp_get_list _ l); [done..|].
    destruct (l_snapshot l) as [a|] eqn:Ha.
    + apply fwp_bind. eapply wp_read_snapshot_ok; [done..|]. intros Hne. cbn [snap_count snap_rules].
      destruct (Z.eqb_spec (zlen rs) 0) as [E|E]; [by apply zlen_zero in E|].
      apply fwp_bind, fwp_bind, wp_tick, fwp_ret. destruct (kmem_ok (ticks s)); simpl negb; cbv iota.
      2:{ apply fwp_ret. eapply HQ; [by apply wrote_tick, wrote_refl|done]. }
      unfold zlen. rewrite Nat2Z.id, decide_False, firstn_all by lia. apply fwp_bind.
      eapply wp_write_records; [by eapply Hwf|done..|]. intros ret text1 s1 Hw Hret.
      destruct (Z.eqb_spec ret 0) as [->|Hr]; simpl negb; cbv iota.
      * eapply (IH _ text1); [done| |done|done|by eapply wrote_lookup|done|].
        { destruct Hw as [k ->]. by eapply mrepP_same_memory. }
        intros ret text2 s2 Hw2 Hret2. eapply HQ.
        -- eapply wrote_trans; [|done]. destruct Hw as [k ->]. by exists k.
        -- intros Hz. rewrite (Hret2 Hz), (Hret eq_refl). cbn [map concat]. rewrite Hcr. by rewrite <- app_assoc.
      * apply fwp_ret. apply (HQ ret text1); [destruct Hw as [k ->]; by exists k|done].
    + destruct (srep_snap _ _ _ _ _ _ (mrep_snaps Hm) _ l rs I Hl Hrs) as [_ Hsn]. rewrite Ha in Hsn.
      eapply IH; [done..|]. intros ret text' s' Hw Hret. eapply HQ; [done|]. intros Hz.
      rewrite (Hret Hz). cbn [map concat]. by rewrite Hcr, Hsn.
Qed.

(** What [SIPFW_SaveRuleFile] does. *)
Lemma wp_save s chains (Q : Z -> Sipfw -> Prop) :
  rep s chains -> wf_chains chains ->
  (RuleFilePath (cf s) = [] -> Q 0 s) ->
  Q (- ENOENT) (next_tick s) ->
  (forall ret text s', wrote s (RuleFilePath (cf s)) text s' -> (ret = 0 -> text = encode_chains chains) -> Q ret s') ->
  wp SIPFW_SaveRuleFile Q s.
Proof.
  intros [adss Hm] Hwf H0 Hfail HQ. apply fwp_bind, fwp_gets. case_bool_decide as E; [by apply fwp_ret, H0|].
  apply fwp_bind. unfold SIPFW_OpenFile. apply fwp_bind, wp_tick, fwp_bind, fwp_gets. simpl.
  destruct (vfs_open (ticks s)); simpl negb; cbv iota; [|by apply fwp_ret, fwp_ret].
  apply fwp_bind, wp_modify, fwp_ret. set (s1 := set_disk _ _).
  eapply (wp_save_chains _ [0; 1; 2] s1 chains adss []); [repeat constructor|by eapply mrepP_same_memory|done|done| |done|].
  { simpl. apply lookup_insert_eq. }
  intros ret text s' [k ->] Hret. eapply HQ.
  - exists k. unfold with_disk, s1. simpl. by rewrite insert_insert_eq.
  - intros Hr. rewrite (Hret Hr). unfold encode_chains, chain_rules.
    destruct (mrep_lists Hm) as [_ _ Hlen _ _ _]. destruct chains as [|x [|y [|z [|]]]]; done.
Qed.

End save.

(** ** What a file means *)

Definition bad_record (r : sipfw_rules) : bool :=
  bad_chain (r_chain r) || (r_action r <? 0) || (SIPFW_ACTION_NUM <=? r_action r).

(** The rules of a file, or [None] when it is damaged. *)
Fixpoint decode_rules (n : nat) (d : bytes) : option (list sipfw_rules) :=
  match d, n with
  | [], _ => Some []
  | _, O => None
  | _, S n =>
      let r := SIPFW_RuleFromRecord (take sizeof_record d) in
      if (length d <? sizeof_record)%nat || bad_record r then None
      else rs ← decode_rules n (drop sizeof_record d); Some (r :: rs)
  end.

(** A rule is added at the end of its chain. *)
Definition add_rule (chains : list (list sipfw_rules)) (r : sipfw_rules) : list (list sipfw_rules) :=
  set_chain (r_chain r) (chain_rules (r_chain r) chains ++ [r]) chains.

Definition no_rules : list (list sipfw_rules) := [[]; []; []].

Lemma decoded_wf d : length d = sizeof_record -> bad_record (SIPFW_RuleFromRecord d) = false ->
  wf_rule (Z.to_nat (r_chain (SIPFW_RuleFromRecord d))) (SIPFW_RuleFromRecord d).
Proof.
  unfold bad_record, sizeof_record. intros Hlen Hbad. apply orb_false_elim in Hbad as [Hbad Ha].
  apply orb_false_elim in Hbad as [Hc Ha']. bool_norm. pose proof (chain_index _ Hc).
  split; simpl in *; try lia; try apply (le_decode_sub_fits _ 4); try apply (le_decode_sub_fits _ 2);
    try apply (le_decode_sub_fits _ 1); unfold sub_bytes; rewrite length_take, length_drop; lia.
Qed.

Lemma wf_add_rule chains r :
  length chains = 3%nat -> wf_chains chains -> wf_rule (Z.to_nat (r_chain r)) r -> wf_chains (add_rule chains r).
Proof.
  intros Hlen Hwf Hr i rs Hi. unfold add_rule, set_chain, chain_rules in Hi.
  destruct (decide (i = Z.to_nat (r_chain r))) as [->|Hne].
  - pose proof (lookup_lt_Some _ _ _ Hi) as Hlt. rewrite length_insert in Hlt.
    rewrite list_lookup_insert_eq in Hi by done. destruct (lookup_lt_is_Some_2 _ _ Hlt) as [rs0 Hrs0].
    rewrite Hrs0 in Hi. simplify_eq/=. apply Forall_app. split; [by apply Hwf|]. by constructor.
  - rewrite list_lookup_insert_ne in Hi by done. by apply Hwf.
Qed.

Lemma wf_no_rules : wf_chains no_rules.
Proof. intros i rs Hi. destruct i as [|[|[|]]]; simplify_eq/=; constructor. Qed.

(** ** The state while rules are loaded: the chains have no snapshots yet *)

Record loading (priv : gset addr) (s : Sipfw) (adss : list (list addr)) (chains : list (list sipfw_rules))
    : Prop := mkLoading {
  loading_mem : mrepP (fun _ => False) priv s adss chains;
  loading_tables i l rs :
    sipfw_tables s !! i = Some l -> chains !! i = Some rs -> l_number l = zlen rs /\ l_snapshot l = None;
}.

Section load.
Context `{KernelEnv}.

(** Reads and allocations do not fail. *)
Definition reliable : Prop := (forall t, vfs_io t = IoAll) /\ (forall t, kmem_ok t = true) /\ (forall t, vfs_open t = true).

Lemma wp_kzalloc_rule P priv s adss chains (Q : option addr -> Sipfw -> Prop) :
  mrepP P priv s adss chains ->
  (kmem_ok (ticks s) = false -> Q None (next_tick s)) ->
  (forall a, kmem_ok (ticks s) = true -> a ∉ priv ->
     let s' := mem s (<[a := mkNode zero_rule None]> (heap s)) (snaps s) (rcu s) (sipfw_tables s) (S (ticks s)) in
     mrepP P (priv ∪ {[a]}) s' adss chains -> Q (Some a) s') ->
  wp kzalloc_rule Q s.
Proof.
  intros [Hh Hs Ho] Hfail Hok. apply fwp_bind, wp_tick. destruct (kmem_ok (ticks s)) eqn:E; [|by apply fwp_ret, Hfail].
  apply fwp_bind, fwp_gets, fwp_bind, wp_modify, fwp_ret.
  pose proof (kmem_addr_fresh (used_memory (next_tick s))) as Hfresh. set (a := kmem_addr _) in *.
  unfold used_memory in Hfresh. apply not_elem_of_union in Hfresh as [Hfresh _]. simpl in Hfresh.
  assert (Ha : ~ linked adss a) by (intros Hl; apply Hfresh, (owned_dom _ _ _ Ho); by left).
  apply Hok; [done| |].
  - intros Hp. apply Hfresh, (owned_dom _ _ _ Ho). by right.
  - split; [|done|].
    + apply (hrep_frame (heap s)); [done|]. intros b Hb. simpl. rewrite lookup_insert_ne; [done|]. by intros <-.
    + destruct Ho as [H1 H2]. split; intros b; simpl.
      * rewrite dom_insert, elem_of_union, H1, elem_of_singleton, elem_of_union, elem_of_singleton. tauto.
      * rewrite elem_of_union, elem_of_singleton. intros [Hb| ->]; [by apply H2|done].
Qed.

(** A rule that has been read goes to the end of its chain. *)
Lemma wp_link_loaded a r s adss chains (Q : unit -> Sipfw -> Prop) :
  loading {[a]} s adss chains -> heap s !! a = Some (mkNode r None) -> bad_chain (r_chain r) = false ->
  zlen (chain_rules (r_chain r) chains) < 2 ^ 31 - 1 ->
  (forall s' adss', memory_only s s' -> loading ∅ s' adss' (add_rule chains r) -> Q tt s') ->
  wp (link_loaded a (r_chain r)) Q s.
Proof.
  intros [Hm Hnum] Ha Hi Hb HQ. set (i := r_chain r) in *. pose proof (mrepP_lists _ _ _ _ _ Hm) as Hh.
  pose proof (mrepP_owned _ _ _ _ _ Hm) as Hown. pose proof (chain_index _ Hi) as Hrange.
  destruct (chain_lookup adss i (hrep_addrs _ _ _ _ Hh) Hi) as [ads Hads].
  destruct (chain_lookup chains i (hrep_chains _ _ _ _ Hh) Hi) as [rs Hrs].
  assert (Hcr : chain_rules i chains = rs) by (unfold chain_rules; by rewrite Hrs). rewrite Hcr in Hb.
  pose proof (zlen_nonneg rs) as Hpos.
  destruct (hrep_chain i adss chains ads rs Hi Hads Hrs _ _ Hh) as (l & Hl & Hrep).
  pose proof (lrep_length _ _ _ _ Hrep) as Hlen. pose proof (hrep_nodup _ _ _ _ Hh _ _ Hads) as Hnd.
  apply fwp_bind, fwp_gets, fwp_bind. change (rule_of i) with (link_at i ads 0).
  eapply (wp_find_tail i adss chains ads rs Hi Hads Hrs); [done|lia| |].
  { assert (length ads <= size (heap s))%nat by (by eapply owned_length). lia. }
  apply fwp_bind. eapply (wp_orep_assign (fun _ => False) i adss chains ads rs Hi Hads Hrs None {[a]} (length ads)
    (Some a) [a] [r]); [| lia| |by apply NoDup_singleton|set_solver|].
  { split; [done| |done]. eapply srep_weaken; [|apply Hm]. by intros j []. }
  { apply (lrep_cons _ a (mkNode r None)); [done|constructor]. }
  intros s1 Hs1 Ho1 _ _ Hcounts. rewrite !firstn_all, drop_all in Ho1. rewrite (take_ge rs) in Ho1 by lia.
  destruct Ho1 as [Hh1 Hsn1 Hown1].
  destruct (chain_lookup (sipfw_tables s1) i (hrep_tables _ _ _ _ Hh1) Hi) as [l1 Hl1].
  assert (Hl1n : l_number l1 = zlen rs /\ l_snapshot l1 = None).
  { pose proof (Hcounts (Z.to_nat i)) as E. rewrite Hl, Hl1 in E. simpl in E. destruct (Hnum _ _ _ Hl Hrs). simplify_eq. split; congruence. }
  apply fwp_bind, (wp_get_list _ l1); [done..|]. apply fwp_bind, (wp_get_list _ l1); [done..|].
  apply wp_set_list; [done|apply Hh1|]. destruct Hl1n as [Hn1 Hsnap1].
  rewrite Hn1, int32_small by lia. set (l' := mkList _ _ _).
  assert (Ht1 : length (sipfw_tables s1) = 3%nat) by apply Hh1.
  eapply HQ; [eapply memory_only_trans; [done|]; apply (memory_only_mem s1 (heap s1) (snaps s1) (rcu s1))|].
  unfold add_rule, set_chain. fold i. rewrite Hcr. split.
  - split; simpl.
    + eapply hrep_same_heads; [done|]. rewrite list_fmap_insert. apply list_insert_id. by rewrite list_lookup_fmap, Hl1.
    + assert (Homap : omap l_snapshot (<[Z.to_nat i := l']> (sipfw_tables s1)) = omap l_snapshot (sipfw_tables s1)).
      { assert (Hl' : <[Z.to_nat i := l']> (sipfw_tables s1) !! Z.to_nat i = Some l') by (apply list_lookup_insert_eq; lia).
        rewrite (omap_insert _ _ _ _ Hl'), (omap_insert _ _ _ _ Hl1), take_insert_ge, drop_insert_lt by lia. done. }
      destruct Hsn1 as [_ H2 H3]. split; [done|by rewrite Homap..].
    + replace (({[a]} ∪ list_to_set []) ∖ list_to_set [a] : gset addr) with (∅ : gset addr) in Hown1 by set_solver. done.
  - simpl. intros j lj rj Hj Hrj. destruct (decide (j = Z.to_nat i)) as [->|Hne].
    + rewrite list_lookup_insert_eq in Hj by lia.
      rewrite list_lookup_insert_eq in Hrj by (rewrite (hrep_chains _ _ _ _ Hh); lia).
      simplify_eq. simpl. split; [|done]. rewrite zlen_app. done.
    + rewrite list_lookup_insert_ne in Hj by done. rewrite list_lookup_insert_ne in Hrj by done.
      pose proof (Hcounts j) as E. rewrite Hj in E. destruct (sipfw_tables s !! j) as [l0|] eqn:E0; simplify_eq/=.
      destruct (Hnum _ _ _ E0 Hrj). split; congruence.
Qed.

Lemma add_rule_length chains r i :
  zlen (chain_rules i (add_rule chains r)) <= zlen (chain_rules i chains) + 1.
Proof.
  unfold add_rule, set_chain. unfold chain_rules at 1. destruct (decide (Z.to_nat i = Z.to_nat (r_chain r))) as [E|Hne].
  - rewrite E. destruct (decide (Z.to_nat (r_chain r) < length chains)%nat) as [Hl|Hl].
    + rewrite list_lookup_insert_eq by done. simpl. unfold chain_rules. rewrite E, zlen_app, zlen_cons, zlen_nil. lia.
    + rewrite lookup_ge_None_2 by (rewrite length_insert; lia). simpl.
      pose proof (zlen_nonneg (chain_rules i chains)). unfold zlen at 1. simpl. lia.
  - rewrite list_lookup_insert_ne by done. unfold chain_rules. lia.
Qed.

Lemma wp_read_record f s text (Q : Z * bytes * file -> Sipfw -> Prop) :
  f_flags f = ReadOnly -> contents (f_path f) s = text ->
  (forall t, let available := min sizeof_record (length text - f_pos f) in
     let count := io_count (vfs_io t) available in
     Q (count, take (Z.to_nat count) (drop (f_pos f) text),
        mkFile (f_path f) (f_flags f) (f_pos f + Z.to_nat count)) (next_tick s)) ->
  wp (SIPFW_KernelRead f sizeof_record) Q s.
Proof.
  intros Hf Htext HQ. unfold SIPFW_KernelRead. simpl. rewrite bool_decide_false by congruence.
  apply fwp_bind, wp_tick, fwp_bind, fwp_gets, fwp_ret. change (contents (f_path f) (next_tick s)) with (contents (f_path f) s).
  rewrite Htext. apply HQ.
Qed.

Lemma loading_tick priv s adss chains : loading priv s adss chains -> loading priv (next_tick s) adss chains.
Proof. intros [Hm Hn]. split; [by eapply mrepP_same_memory|done]. Qed.

(** The result of the loop: the rules of the rest of the file, or an error. *)
Lemma wp_load_records fuel f s adss chains text (Q : Z -> Sipfw -> Prop) :
  loading ∅ s adss chains -> wf_chains chains -> f_flags f = ReadOnly -> contents (f_path f) s = text ->
  (length text - f_pos f < fuel)%nat ->
  (forall i, zlen (chain_rules i chains) + Z.of_nat (length text - f_pos f) < 2 ^ 31 - 1) ->
  (forall ret s' adss' chains', memory_only s s' -> loading ∅ s' adss' chains' -> wf_chains chains' ->
     (ret = 0 -> exists rs, decode_rules fuel (drop (f_pos f) text) = Some rs /\ chains' = foldl add_rule chains rs) ->
     (reliable -> decode_rules fuel (drop (f_pos f) text) <> None -> ret = 0) -> Q ret s') ->
  wp (load_records fuel f) Q s.
Proof.
  revert f s adss chains. induction fuel as [|fuel IH]; intros f s adss chains Hl Hwf Hf Htext Hfuel Hb HQ; [lia|].
  cbn [load_records]. apply fwp_bind. eapply wp_read_record; [done..|]. intros t. cbv zeta.
  set (av := min sizeof_record (length text - f_pos f)). set (count := io_count (vfs_io t) av).
  assert (Hlt : length (drop (f_pos f) text) = (length text - f_pos f)%nat) by apply length_drop.
  pose proof (io_count_range t av) as Hrange. fold count in Hrange.
  destruct (Z.ltb_spec 0 count) as [Hpos|Hneg].
  - assert (Hne : drop (f_pos f) text <> []) by (intros E; rewrite E in Hlt; simpl in Hlt; lia).
    destruct (Z.eqb_spec count (Z.of_nat sizeof_record)) as [Hfull|Hshort]; cbn [negb orb].
    2:{ apply fwp_ret. eapply HQ; [apply memory_only_tick|by apply loading_tick|done|done|].
        intros [Hio _] Hdec. destruct Hdec. destruct (drop (f_pos f) text) as [|x d] eqn:Ed; [done|].
        cbn [decode_rules]. unfold count in Hshort. rewrite Hio in Hshort. cbn [io_count] in Hshort.
        rewrite (proj2 (Nat.ltb_lt _ _)) by lia. done. }
    assert (Hav : av = sizeof_record) by lia. rewrite Hfull, Nat2Z.id. cbv zeta.
    set (r := SIPFW_RuleFromRecord (take sizeof_record (drop (f_pos f) text))).
    assert (Hdec : decode_rules (S fuel) (drop (f_pos f) text)
      = if bad_record r then None else rs ← decode_rules fuel (drop (f_pos f + sizeof_record) text); Some (r :: rs)).
    { rewrite <- drop_drop. unfold r. destruct (drop (f_pos f) text) as [|x d] eqn:Ed; [done|].
      cbn [decode_rules]. rewrite (proj2 (Nat.ltb_ge _ _)) by (rewrite ?Ed in Hlt; lia). done. }
    change (bad_chain (r_chain r) || (r_action r <? 0) || (SIPFW_ACTION_NUM <=? r_action r)) with (bad_record r).
    destruct (bad_record r) eqn:Hbad.
    { apply fwp_ret. eapply HQ; [apply memory_only_tick|by apply loading_tick|done|done|]. by rewrite Hdec. }
    assert (Hr : wf_rule (Z.to_nat (r_chain r)) r).
    { apply decoded_wf; [|done]. rewrite length_take. lia. }
    apply loading_tick in Hl. destruct Hl as [Hm Hn]. apply fwp_bind. eapply wp_kzalloc_rule; [done|..].
    + intros Hmem. apply fwp_ret. eapply HQ; [|by apply loading_tick|done|done|].
      * eapply memory_only_trans; apply memory_only_tick.
      * intros (_ & Hok & _). by rewrite Hok in Hmem.
    + intros a _ _ s2 Hm2. apply fwp_bind.
      unfold wp at 1, write_rule. cbn [heap s2 mem]. rewrite lookup_insert_eq. apply fwp_bind.
      assert (Hi : bad_chain (r_chain r) = false).
      { unfold bad_record in Hbad. by apply orb_false_elim in Hbad as [[? ?]%orb_false_elim _]. }
      eapply (wp_link_loaded a r); [|apply lookup_insert_eq|done| |].
      * split; [|done]. replace (∅ ∪ {[a]} : gset addr) with ({[a]} : gset addr) in Hm2 by set_solver.
        destruct Hm2 as [Hh2 Hs2 Ho2]. destruct (hrep_private {[a]} s2 adss chains a (mkNode r None) Hh2 Ho2) as [? ?];
          [set_solver|]. by split.
      * specialize (Hb (r_chain r)). lia.
      * intros s3 adss3 Hs3 Hl3. assert (Hmo : memory_only s s3).
        { eapply memory_only_trans; [|done]. by eexists _, _, _, _, _. }
        eapply IH; [done| |done| | | |].
        -- apply wf_add_rule; [|done|done]. apply (hrep_chains _ _ _ _ (mrepP_lists _ _ _ _ _ Hm)).
        -- destruct Hmo as (? & ? & ? & ? & ? & ->). exact Htext.
        -- simpl. lia.
        -- intros i. pose proof (add_rule_length chains r i). specialize (Hb i). simpl. lia.
        -- simpl. intros ret s' adss' chains' Hs' Hl' Hwf' Hret Hrel.
           eapply HQ; [by eapply memory_only_trans|done|done|..]; rewrite Hdec.
           ++ intros Hz. destruct (Hret Hz) as (rs & Hrs & ->). exists (r :: rs). by rewrite Hrs.
           ++ intros Hre Hd. apply Hrel; [done|]. intros E. by rewrite E in Hd.
  - assert (Hlast : count = 0 -> drop (f_pos f) text = []).
    { intros E. apply length_zero_iff_nil. rewrite Hlt. unfold count, io_count, av, sizeof_record in E.
      destruct (vfs_io t); lia. }
    destruct (Z.ltb_spec count 0) as [Hlt0|Hge0]; apply fwp_ret;
      (eapply HQ; [apply memory_only_tick|by apply loading_tick|done|..]).
    + intros Hz. by apply io_count_int32 in Hz.
    + intros [Hio _]. unfold count in Hlt0. rewrite Hio in Hlt0. simpl in Hlt0. lia.
    + intros _. exists []. by rewrite Hlast by lia.
    + done.
Qed.

(** ** The snapshots of the loaded chains *)

Lemma wp_load_snapshots cs P s adss chains (Q : Z -> Sipfw -> Prop) :
  mrepP P ∅ s adss chains -> small chains -> NoDup cs -> Forall (fun i => bad_chain i = false) cs ->
  (forall i l rs, sipfw_tables s !! i = Some l -> chains !! i = Some rs -> Z.of_nat i ∈ cs ->
     l_number l = zlen rs /\ l_snapshot l = None) ->
  (forall s', memory_only s s' -> mrepP (fun j => P j \/ Z.of_nat j ∈ cs) ∅ s' adss chains -> Q 0 s') ->
  (forall s' P', memory_only s s' -> mrepP P' ∅ s' adss chains -> ~ reliable -> Q (- ENOMEM) s') ->
  wp (load_snapshots cs) Q s.
Proof.
  revert P s. induction cs as [|i cs IH]; intros P s Hm Hsmall Hnd Hcs Hnum HQ Hfail.
  - apply fwp_ret, HQ; [apply memory_only_refl|]. eapply mrepP_weaken; [|done]. by intros j [?|?%not_elem_of_nil].
  - apply NoDup_cons in Hnd as [Hout Hnd]. apply Forall_cons in Hcs as [Hi Hcs]. pose proof (chain_index _ Hi) as Hrange.
    pose proof (mrepP_lists _ _ _ _ _ Hm) as Hh. pose proof (hrep_tables _ _ _ _ Hh) as Ht.
    destruct (chain_lookup (sipfw_tables s) i Ht Hi) as [l Hl].
    destruct (chain_lookup chains i (hrep_chains _ _ _ _ Hh) Hi) as [rs Hrs].
    destruct (chain_lookup adss i (hrep_addrs _ _ _ _ Hh) Hi) as [ads Hads].
    destruct (Hnum _ l rs Hl Hrs) as [Hn Hsn]; [rewrite Z2Nat.id by lia; set_solver|].
    pose proof (zlen_nonneg rs) as Hpos.
    assert (Hb : zlen rs < 2 ^ 31 - 1) by (unfold small in Hsmall; rewrite Forall_lookup in Hsmall; by eapply Hsmall).
    cbn [load_snapshots]. apply fwp_bind, (wp_get_list _ l); [done..|]. rewrite Hn.
    assert (Hstep : forall s1, memory_only s s1 -> mrepP (also_chain P (Z.to_nat i)) ∅ s1 adss chains ->
      (forall j, j <> Z.to_nat i -> sipfw_tables s1 !! j = sipfw_tables s !! j) -> wp (load_snapshots cs) Q s1).
    { intros s1 Hs1 Hm1 Hsame. eapply (IH (also_chain P (Z.to_nat i))); [done..| | |].
      - intros j lj rj Hj Hrj Hin. rewrite Hsame in Hj; [apply (Hnum j); [done..|set_solver]|].
        intros ->. apply Hout. by rewrite Z2Nat.id in Hin by lia.
      - intros s' Hs' Hm'. apply HQ; [by eapply memory_only_trans|]. eapply mrepP_weaken; [|done].
        unfold also_chain. intros j [?|[E|?]%elem_of_cons]; [by left; left| |by right]. left. right. lia.
      - intros s' P' Hs' Hm'. eapply Hfail; [by eapply memory_only_trans|done]. }
    destruct (Z.eqb_spec (zlen rs) 0) as [E|E].
    + apply Hstep; [apply memory_only_refl| |done]. destruct Hm as [H1 [H2 H3 H4] H5]. split; [done| |done].
      split; [|done..]. intros j lj rj HP Hj Hrj. destruct (decide (j = Z.to_nat i)) as [->|Hne].
      * simplify_eq. split; [done|]. rewrite Hsn. by apply zlen_zero.
      * apply (H2 j); [by destruct HP|done..].
    + rewrite wrap_id by (unfold fits; lia). destruct Hm as [H1 H2 H3].
      apply fwp_bind, wp_alloc_snapshot; [lia|..].
      * intros Hmem. apply fwp_ret. eapply (Hfail _ P); [apply memory_only_tick|by split|].
        intros (_ & Hok & _). by rewrite Hok in Hmem.
      * intros a _ Ha. apply fwp_bind.
        eapply (wp_publish P i adss chains ads rs l (Some a)); try done; simpl.
        -- lia.
        -- eapply (owned_length _ _ adss (Z.to_nat i)); [done..|]. by eapply (hrep_nodup _ _ _ _ Hh).
        -- apply srep_alloc; [|done]. eapply srep_weaken; [|done]. by intros j [].
        -- split; [by intros ->|]. rewrite lookup_insert_eq. do 3 f_equal. unfold zlen. lia.
        -- intros n' r' Hh' Hs'. apply Hstep; [by eexists _, _, _, _, _|by split|].
           intros j Hne. simpl. by rewrite list_lookup_insert_ne.
Qed.

(** ** The whole file *)

Definition decode_file (text : bytes) : option (list sipfw_rules) := decode_rules (S (length text)) text.

(** The module before rules are loaded. *)
Definition fresh_module (s : Sipfw) : Prop :=
  heap s = ∅ /\ snaps s = ∅ /\ rcu s = [] /\ sipfw_tables s = replicate 3 (mkList None None 0).

Lemma fresh_rep s : fresh_module s -> mrep ∅ s [[]; []; []] no_rules.
Proof.
  intros (Eh & En & Er & Et). split; rewrite ?Eh, ?En, ?Er, ?Et.
  - split; [done..| | |].
    + intros [|[|[|]]]; intros; simplify_eq/=; constructor.
    + intros [|[|[|]]]; intros; simplify_eq/=; constructor.
    + intros [|[|[|]]] j ads ads' a Hi _ Ha; simplify_eq/=; by apply not_elem_of_nil in Ha.
  - split; [|constructor|done]. intros [|[|[|]]]; intros; simplify_eq/=; done.
  - split; [|set_solver]. intros a. rewrite dom_empty. split; [set_solver|]. intros [(i & ads & Hi & Ha)|Ha]; [|set_solver].
    destruct i as [|[|[|]]]; simplify_eq/=; by apply not_elem_of_nil in Ha.
Qed.

Lemma fresh_loading s : fresh_module s -> loading ∅ s [[]; []; []] no_rules.
Proof.
  intros Hf. split; [eapply mrepP_weaken; [|by apply fresh_rep]; done|]. destruct Hf as (_ & _ & _ & ->).
  intros [|[|[|]]]; intros; simplify_eq/=; done.
Qed.

Lemma foldl_add_length chains rs i :
  zlen (chain_rules i (foldl add_rule chains rs)) <= zlen (chain_rules i chains) + zlen rs.
Proof.
  revert chains. induction rs as [|r rs IH]; intros chains; simpl; [unfold zlen; simpl; lia|].
  specialize (IH (add_rule chains r)). pose proof (add_rule_length chains r i). rewrite zlen_cons. lia.
Qed.

Lemma decode_length n d rs : decode_rules n d = Some rs -> (length rs <= length d)%nat.
Proof.
  revert d rs. induction n as [|n IH]; intros [|x d] rs; cbn [decode_rules];
    try (intros [= <-]; simpl; lia); try done.
  case_cond; [done|]. intros (ys & Hys & [= <-])%bind_Some. apply IH in Hys.
  rewrite length_drop in Hys. unfold sizeof_record in Hys. simpl in *. lia.
Qed.

(** An error ends in empty chains. *)
Lemma wp_load_failed P ret s0 s adss chains (Q : Z -> Sipfw -> Prop) :
  mrepP P ∅ s adss chains -> memory_only s0 s ->
  (forall s', memory_only s0 s' -> rep s' no_rules -> Q ret s') -> wp (SIPFW_ListDestroy;; mret ret) Q s.
Proof.
  intros Hm Hs HQ. apply fwp_bind. eapply wp_mono; [by eapply list_destroy_refines|].
  intros r s' (_ & Hr & Hs'). apply fwp_ret, HQ; [by eapply memory_only_trans|done].
Qed.

Lemma load_spec s (Q : Z -> Sipfw -> Prop) :
  let text := contents (RuleFilePath (cf s)) s in
  fresh_module s -> zlen text < 2 ^ 31 - 1 ->
  (forall ret s', memory_only s s' -> rep s' no_rules ->
     (reliable -> RuleFilePath (cf s) <> [] -> is_Some (disk s !! RuleFilePath (cf s)) -> decode_file text = None) ->
     Q ret s') ->
  (forall s' rs, memory_only s s' -> decode_file text = Some rs -> rep s' (foldl add_rule no_rules rs) ->
     wf_chains (foldl add_rule no_rules rs) -> Q 0 s') ->
  wp SIPFW_LoadRuleFile Q s.
Proof.
  intros text Hfresh Hsize Hfail Hok. pose proof (fresh_rep s Hfresh) as Hrep.
  assert (Hrep0 : rep s no_rules) by (by eexists). assert (Hrep1 : rep (next_tick s) no_rules).
  { eexists. by apply mrep_next_tick. }
  apply fwp_bind, fwp_gets. case_bool_decide as Hpath.
  { apply fwp_ret, Hfail; [apply memory_only_refl|done|]. by intros _ []. }
  apply fwp_bind. unfold SIPFW_OpenFile. apply fwp_bind, wp_tick, fwp_bind, fwp_gets. simpl.
  destruct (vfs_open (ticks s)) eqn:Hopen; simpl negb; cbv iota.
  2:{ apply fwp_ret, fwp_ret, Hfail; [apply memory_only_tick|done|]. intros (_ & _ & Ho). by rewrite Ho in Hopen. }
  destruct (disk s !! RuleFilePath (cf s)) as [txt|] eqn:Hd.
  2:{ apply fwp_ret, fwp_ret, Hfail; [apply memory_only_tick|done|]. by intros _ _ []. }
  apply fwp_ret, fwp_bind, fwp_gets, fwp_bind. set (s1 := next_tick s). simpl.
  assert (Htext : contents (RuleFilePath (cf s)) s1 = text) by done. rewrite Htext.
  eapply (wp_load_records (S (length text)) _ s1 [[]; []; []] no_rules text);
    [by apply loading_tick, fresh_loading|apply wf_no_rules|done|done|simpl; lia| |].
  { intros i. assert (chain_rules i no_rules = []) as ->.
    { unfold chain_rules. by destruct (Z.to_nat i) as [|[|[|]]]. }
    simpl. unfold zlen in Hsize. rewrite zlen_nil. lia. }
  cbn [f_pos]. rewrite drop_0. fold (decode_file text). intros ret s2 adss2 chains Hs2 [Hm2 Hnum2] Hwf Hret Hrel.
  assert (Hs02 : memory_only s s2) by (eapply memory_only_trans; [apply memory_only_tick|done]).
  destruct (Z.eqb_spec ret 0) as [->|Hr].
  - destruct (Hret eq_refl) as (rs & Hdec & ->). apply fwp_bind.
    eapply (wp_load_snapshots [0; 1; 2] (fun _ => False)); [done| | |repeat constructor| | |].
    + apply Forall_lookup_2. intros i rsi Hi. pose proof (foldl_add_length no_rules rs (Z.of_nat i)) as Hle.
      unfold chain_rules in Hle at 1. rewrite Nat2Z.id, Hi in Hle. simpl in Hle.
      assert (chain_rules (Z.of_nat i) no_rules = []) as E.
      { unfold chain_rules. rewrite Nat2Z.id. by destruct i as [|[|[|]]]. }
      rewrite E, zlen_nil in Hle. apply decode_length in Hdec. unfold zlen in *. lia.
    + apply (bool_decide_unpack _). reflexivity.
    + intros i l rsi Hl Hrsi _. by apply (Hnum2 i).
    + intros s3 Hs3 Hm3. apply fwp_ret. eapply Hok; [by eapply memory_only_trans|done| |done].
      exists adss2. destruct Hm3 as [H1 H2 H3]. split; [done| |done]. destruct H2 as [H2 H4 H5]. split; [|done..].
      intros j l rj _ Hl. apply H2; [|done]. right. pose proof (lookup_lt_Some _ _ _ Hl) as Hj.
      rewrite (hrep_tables _ _ _ _ H1) in Hj. destruct j as [|[|[|]]]; [set_solver..|lia].
    + intros s3 P' Hs3 Hm3 Hnr. change (- ENOMEM =? 0) with false. cbv iota.
      eapply wp_load_failed; [done|exact (memory_only_trans _ _ _ Hs02 Hs3)|]. intros s' Hs' Hr'. by apply Hfail.
  - apply fwp_bind, fwp_ret. rewrite (proj2 (Z.eqb_neq _ _)) by done.
    eapply wp_load_failed; [done|done|]. intros s' Hs' Hr'. apply Hfail; [done..|]. intros Hre _ _.
    destruct (decode_file text) eqn:Hdec; [|done]. destruct Hr. by apply Hrel.
Qed.

(** ** Round trip *)

Lemma decode_encode n rs :
  Forall (fun r => exists i, (i < 3)%nat /\ wf_rule i r) rs -> (length rs <= n)%nat ->
  decode_rules n (encode_rules rs) = Some rs.
Proof.
  revert n. induction rs as [|r rs IH]; intros n Hwf Hn; [by destruct n|].
  apply Forall_cons in Hwf as [(i & Hi & Hr) Hwf]. destruct n as [|n]; [simpl in Hn; lia|].
  pose proof (length_record _ _ Hr) as Hlen. unfold encode_rules. cbn [map concat]. fold (encode_rules rs).
  assert (Htake : take sizeof_record (SIPFW_RecordFromRule r ++ encode_rules rs) = SIPFW_RecordFromRule r).
  { rewrite <- Hlen. apply take_app_length. }
  assert (Hdrop : drop sizeof_record (SIPFW_RecordFromRule r ++ encode_rules rs) = encode_rules rs).
  { rewrite <- Hlen. apply drop_app_length. }
  assert (Hge : (sizeof_record <= length (SIPFW_RecordFromRule r ++ encode_rules rs))%nat) by (rewrite length_app; lia).
  remember (SIPFW_RecordFromRule r ++ encode_rules rs) as d. destruct d as [|x d]; [unfold sizeof_record in Hge; simpl in Hge; lia|].
  cbn [decode_rules]. rewrite Htake, Hdrop, (record_roundtrip i r), (proj2 (Nat.ltb_ge _ _)) by done.
  assert (bad_record r = false) as ->.
  { destruct Hr as [Hchain Haction _ _ _ _ _ _ _]. unfold bad_record, bad_chain, SIPFW_CHAIN_NUM. rewrite Hchain.
    rewrite !orb_false_iff, !Z.ltb_ge, !Z.leb_gt. lia. }
  simpl. rewrite IH; [done|done|simpl in Hn; lia].
Qed.

Lemma foldl_add_chain i chains c rs :
  Forall (wf_rule i) rs -> chains !! i = Some c -> foldl add_rule chains rs = <[i := c ++ rs]> chains.
Proof.
  revert chains c. induction rs as [|r rs IH]; intros chains c Hwf Hc.
  - rewrite app_nil_r. symmetry. by apply list_insert_id.
  - apply Forall_cons in Hwf as [Hr Hwf]. assert (Hi : (i < length chains)%nat) by (by eapply lookup_lt_Some).
    simpl. unfold add_rule at 2, set_chain, chain_rules. rewrite (wf_chain _ _ Hr), Nat2Z.id, Hc. simpl.
    rewrite (IH _ (c ++ [r])); [|done|by apply list_lookup_insert_eq].
    rewrite list_insert_insert_eq, <- app_assoc. done.
Qed.

Lemma decode_encode_chains chains :
  length chains = 3%nat -> wf_chains chains ->
  decode_file (encode_chains chains) = Some (concat chains) /\ foldl add_rule no_rules (concat chains) = chains.
Proof.
  intros Hlen Hwf. destruct chains as [|x [|y [|z [|]]]]; try done.
  pose proof (Hwf 0%nat x eq_refl) as Hx. pose proof (Hwf 1%nat y eq_refl) as Hy.
  pose proof (Hwf 2%nat z eq_refl) as Hz. split.
  - assert (E : encode_chains [x; y; z] = encode_rules (concat [x; y; z])).
    { unfold encode_chains, encode_rules. simpl. by rewrite !app_nil_r, !map_app, !concat_app. }
    rewrite E. unfold decode_file.
    assert (Hall : Forall (fun r => exists i, (i < 3)%nat /\ wf_rule i r) (concat [x; y; z])).
    { simpl. rewrite !Forall_app. split_and!; [eapply Forall_impl; [exact Hx|]|eapply Forall_impl; [exact Hy|]
        |eapply Forall_impl; [exact Hz|]|constructor]; intros r Hr; eexists; (split; [|exact Hr]); lia. }
    apply decode_encode; [done|]. clear -Hall. induction Hall as [|r rs (i & _ & Hr) _ IH]; [simpl; lia|].
    unfold encode_rules in *. cbn [map concat length]. rewrite length_app, (length_record _ _ Hr). unfold sizeof_record. lia.
  - simpl. rewrite !foldl_app. rewrite (foldl_add_chain 0 no_rules [] x) by done.
    rewrite (foldl_add_chain 1 _ [] y), (foldl_add_chain 2 _ [] z) by done. done.
Qed.

(** [C23] Rules that have been saved without an error are loaded by the next start of the module, as
    long as the file can be read and there is memory. *)
Theorem save_load_roundtrip s chains s1 s2 :
  rep s chains -> wf_chains chains -> RuleFilePath (cf s) <> [] ->
  SIPFW_SaveRuleFile s = Ret 0 s1 ->
  reliable -> fresh_module s2 -> RuleFilePath (cf s2) = RuleFilePath (cf s) ->
  disk s2 !! RuleFilePath (cf s) = disk s1 !! RuleFilePath (cf s) -> zlen (encode_chains chains) < 2 ^ 31 - 1 ->
  exists s3, SIPFW_LoadRuleFile s2 = Ret 0 s3 /\ rep s3 chains.
Proof.
  intros Hrep Hwf Hpath Hsave Hrel Hfresh Hsame Hdisk Hsize.
  assert (Htext : disk s1 !! RuleFilePath (cf s) = Some (encode_chains chains)).
  { assert (wp SIPFW_SaveRuleFile (fun ret s' => ret = 0 -> disk s' !! RuleFilePath (cf s) = Some (encode_chains chains)) s)
      as Hwp.
    { eapply wp_save; [done|done|done|done|]. intros ret text s' Hw Hret Hz. rewrite <- (Hret Hz).
      by eapply wrote_lookup. }
    unfold wp in Hwp. rewrite Hsave in Hwp. by apply Hwp. }
  assert (Hlen : length chains = 3%nat) by (destruct Hrep as [adss Hm]; apply (mrep_lists Hm)).
  destruct (decode_encode_chains chains Hlen Hwf) as [Hdec Hfold].
  assert (Hc : contents (RuleFilePath (cf s2)) s2 = encode_chains chains).
  { unfold contents. by rewrite Hsame, Hdisk, Htext. }
  assert (wp SIPFW_LoadRuleFile (fun ret s3 => ret = 0 /\ rep s3 chains) s2) as Hwp.
  { eapply load_spec; [done|by rewrite Hc|..]; rewrite Hc.
    - intros ret s' _ _ Hno. rewrite Hdec in Hno. assert (Some (concat chains) = None) as E; [|done].
      apply Hno; [done|by rewrite Hsame|]. rewrite Hsame, Hdisk, Htext. by eexists.
    - rewrite Hdec. intros s' rs _ [= <-]. rewrite Hfold. done. }
  unfold wp in Hwp. destruct (SIPFW_LoadRuleFile s2) as [ret s3| |]; [|done..].
  destruct Hwp as [-> Hr]. by exists s3.
Qed.

(** [C24] Loading ends whatever the file holds and whatever fails, and takes all rules of a file that
    is in order or none; the rules in the chains are well-formed. *)
Theorem load_all_or_nothing s :
  let text := contents (RuleFilePath (cf s)) s in
  fresh_module s -> zlen text < 2 ^ 31 - 1 ->
  exists ret s' chains, SIPFW_LoadRuleFile s = Ret ret s' /\ rep s' chains /\ wf_chains chains
    /\ memory_only s s'
    /\ (chains = no_rules
        \/ ret = 0 /\ exists rs, decode_file text = Some rs /\ chains = foldl add_rule no_rules rs).
Proof.
  intros text Hfresh Hsize.
  assert (wp SIPFW_LoadRuleFile (fun ret s' => exists chains, rep s' chains /\ wf_chains chains /\ memory_only s s'
    /\ (chains = no_rules \/ ret = 0 /\ exists rs, decode_file text = Some rs /\ chains = foldl add_rule no_rules rs)) s)
    as Hwp.
  { eapply load_spec; [done..| |].
    - intros ret s' Hs' Hr _. exists no_rules. split_and!; [done|apply wf_no_rules|done|by left].
    - intros s' rs Hs' Hdec Hr Hwf. eexists. split_and!; [done..|]. right. split; [done|]. by exists rs. }
  unfold wp in Hwp. destruct (SIPFW_LoadRuleFile s) as [ret s'| |]; [|done..].
  destruct Hwp as (chains & ?). by exists ret, s', chains.
Qed.

End load.
