(* ===== verification/SipfwNetlink.v ===== *)
(** The netlink interface of the firewall (SIPFW/module/sipfw_k_nl.c): messages of processes are
    commands on the chains, and the answers are sent back. *)
From S2P Require Import Prelude KcpConv Frames Identity Sipfw SipfwFile.

Section netlink.
Context `{KernelEnv}.

(** The memory for the message and the delivery can fail. *)
Definition SIPFW_NLSendToUser (pid : Z) (data : bytes) (type : Z) : F Z :=
  if (length data =? 0)%nat then mret (- EINVAL) else
  ok ← kmalloc_temporary;
  if negb ok then mret (- ENOMEM) else
  t ← tick;
  if netlink_ok t then modify (fun s => set_sent (sent s ++ [mkMessage pid type data]) s);; mret 0
  else mret (- EIO).

(** [struct sipfw_rules] in memory: the fields of a record, padding and the link, which is
    cleared. *)
Definition rule_bytes (r : sipfw_rules) : bytes := SIPFW_RecordFromRule r ++ replicate 12 x00.

(** The number of rules of the chains. *)
Fixpoint count_rules (chains : list Z) (count : Z) : F Z :=
  match chains with
  | [] => mret count
  | i :: chains => l ← get_list i; count_rules chains (wrap 32 (count + l_number l))
  end.

(** The loop over a list, up to [count] rules in all. *)
Fixpoint copy_list (fuel : nat) (cur : option addr) (count : Z) (copied : list sipfw_rules)
    : F (list sipfw_rules) :=
  match fuel with
  | O => hang
  | S fuel =>
      match cur with
      | None => mret copied
      | Some a =>
          if zlen copied <? count then
            n ← read_rule a;
            copy_list fuel (n_next n) count (copied ++ [n_rule n])
          else mret copied
      end
  end.

Fixpoint copy_chains (chains : list Z) (count : Z) (copied : list sipfw_rules) : F (list sipfw_rules) :=
  match chains with
  | [] => mret copied
  | i :: chains =>
      l ← get_list i;
      fuel ← chain_fuel;
      copied ← copy_list fuel (l_rule l) count copied;
      copy_chains chains count copied
  end.

Fixpoint send_rules (pid : Z) (rules : list sipfw_rules) : F unit :=
  match rules with
  | [] => mret tt
  | r :: rules => SIPFW_NLSendToUser pid (rule_bytes r) SIPFW_MSG_RULE;; send_rules pid rules
  end.

Definition SIPFW_NLAction_RuleList (rule : addr) (pid : Z) : F Z :=
  r ← read_rule rule;
  match chain_range (r_chain (n_rule r)) with
  | None => kfree_rule rule;; mret (- EINVAL)
  | Some chains =>
      count ← count_rules chains 0;
      if count =? 0 then
        SIPFW_NLSendToUser pid (le_encode 4 count) SIPFW_MSG_RULE;;
        kfree_rule rule;;
        mret 0
      else
        ok ← kmalloc_temporary;   (* kcalloc *)
        if negb ok then kfree_rule rule;; mret (- ENOMEM) else
        copied ← copy_chains chains count [];
        kfree_rule rule;;
        SIPFW_NLSendToUser pid (le_encode 4 (zlen copied)) SIPFW_MSG_RULE;;
        send_rules pid copied;;
        mret 0
  end.

(** ** [struct sipfw_cmd_opts] in memory *)

(** A [union sipfw_variant] is 24 bytes long. *)
Definition v_uint (off : nat) (d : bytes) : Z := le_decode (sub_bytes off 4 d).
Definition v_int (off : nat) (d : bytes) : Z := int32 (v_uint off d).
Definition v_str (off : nat) (d : bytes) : bytes := sub_bytes off 8 d.

Definition opt_command : nat := 0.
Definition opt_source : nat := 24.
Definition opt_dest : nat := 48.
Definition opt_sport : nat := 72.
Definition opt_dport : nat := 96.
Definition opt_protocol : nat := 120.
Definition opt_chain : nat := 144.
Definition opt_ifname : nat := 168.
Definition opt_action : nat := 192.
Definition opt_addtion : nat := 216.
Definition opt_number : nat := 224.
Definition sizeof_cmd_opts : nat := 248.

(** The rule of a command. *)
Definition rule_of_opts (d : bytes) : sipfw_rules :=
  mkRule (v_int opt_chain d) (v_uint opt_source d) (v_uint opt_dest d)
    (wrap 16 (v_uint opt_sport d)) (wrap 16 (v_uint opt_dport d))
    (if 0 <? v_int opt_protocol d then wrap 8 (v_uint opt_protocol d) else 0)
    (v_int opt_action d) (v_str opt_ifname d) (sub_bytes opt_addtion 4 d).

Definition NLSUCCESS : bytes := str "SUCCESS" ++ [x00].
Definition NLFAILRE : bytes := str "FAILURE" ++ [x00].

Definition cmd_is (cmd : Z) (l : list Z) : bool := bool_decide (cmd ∈ l).

(** The end of [SIPFW_NLDoAction]: the answer. *)
Definition reply (pid err : Z) : F Z :=
  (if err =? 0 then SIPFW_NLSendToUser pid NLSUCCESS SIPFW_MSG_SUCCESS
   else SIPFW_NLSendToUser pid NLFAILRE SIPFW_MSG_FAILURE);;
  mret err.

(** The commands that change the chains, with the file of rules saved after a success. *)
Definition change_rules (pid : Z) (action : F Z) : F Z :=
  err ← action;
  err ← (if err =? 0 then SIPFW_SaveRuleFile else mret err);
  reply pid err.

Definition SIPFW_NLDoAction (payload : bytes) (pid : Z) : F Z :=
  let cmd := v_int opt_command payload in
  let number := v_int opt_number payload in
  let action := v_int opt_action payload in
  if cmd_is cmd [SIPFW_CMD_APPEND; SIPFW_CMD_INSERT; SIPFW_CMD_REPLACE]
     && ((action <? 0) || (SIPFW_ACTION_NUM <=? action))
  then mret (- EINVAL) else
  a ← kzalloc_rule;
  match a with
  | None => mret (- ENOMEM)
  | Some rule =>
      write_rule rule (mkNode (rule_of_opts payload) None);;
      if cmd =? SIPFW_CMD_INSERT then change_rules pid (SIPFW_NLAction_RuleInsert rule number)
      else if cmd =? SIPFW_CMD_DELETE then change_rules pid (SIPFW_NLAction_RuleDelete rule number)
      else if cmd =? SIPFW_CMD_REPLACE then change_rules pid (SIPFW_NLAction_RuleReplace rule number)
      else if cmd =? SIPFW_CMD_APPEND then change_rules pid (SIPFW_NLAction_RuleAppend rule)
      else if cmd =? SIPFW_CMD_LIST then
        err ← SIPFW_NLAction_RuleList rule pid;
        if err =? 0 then mret 0 else reply pid err
      else if cmd =? SIPFW_CMD_FLUSH then change_rules pid (SIPFW_NLAction_RuleFlush rule)
      else kfree_rule rule;; reply pid (- EINVAL)
  end.

(** ** Messages *)

(** [struct nlmsghdr]: the length, the type and the process. *)
Definition nlmsg_len (d : bytes) : Z := le_decode (sub_bytes 0 4 d).
Definition nlmsg_type (d : bytes) : Z := le_decode (sub_bytes 4 2 d).
Definition nlmsg_pid (d : bytes) : Z := le_decode (sub_bytes 12 4 d).

Definition NLMSG_HDRLEN : Z := 16.
Definition NLMSG_ALIGN (len : Z) : Z := (len + 3) / 4 * 4.

Definition NLMSG_OK (d : bytes) : bool :=
  (NLMSG_HDRLEN <=? zlen d) && (NLMSG_HDRLEN <=? nlmsg_len d) && (nlmsg_len d <=? zlen d).

(** The payload of the first message. *)
Definition NLMSG_DATA (d : bytes) : bytes := take (Z.to_nat (nlmsg_len d - NLMSG_HDRLEN)) (drop 16 d).

Definition handle_message (d : bytes) : F unit :=
  if nlmsg_type d =? SIPFW_MSG_PID then
    if nlmsg_len d - NLMSG_HDRLEN <? Z.of_nat sizeof_cmd_opts then
      SIPFW_NLSendToUser (nlmsg_pid d) NLFAILRE SIPFW_MSG_FAILURE;; mret tt
    else SIPFW_NLDoAction (NLMSG_DATA d) (nlmsg_pid d);; mret tt
  else mret tt.

(** [d] is what is left of the buffer. *)
Fixpoint recv_messages (fuel : nat) (d : bytes) : F unit :=
  match fuel with
  | O => hang
  | S fuel =>
      if NLMSG_OK d then
        handle_message d;;
        recv_messages fuel (drop (Z.to_nat (NLMSG_ALIGN (nlmsg_len d))) d)
      else mret tt
  end.

Definition SIPFW_NLRecv (skb : bytes) : F unit := recv_messages (S (length skb)) skb.

End netlink.
