(* ===== verification/SipfwNetlinkProofs.v ===== *)
(** Commands that come by netlink: each refines an operation on the lists of rules, keeps the
    invariant, and is answered; the file of rules follows the chains. *)
From S2P Require Import Prelude KcpConv Frames Identity Sipfw SipfwHeap SipfwRules SipfwProofs SipfwFile SipfwLoad SipfwNetlink.

(** ** What a command means *)

Definition changes_rules (d : bytes) : bool :=
  cmd_is (v_int opt_command d)
    [SIPFW_CMD_INSERT; SIPFW_CMD_DELETE; SIPFW_CMD_REPLACE; SIPFW_CMD_APPEND; SIPFW_CMD_FLUSH].

(** The result and the chains after a command; [ok] says whether there is memory for the next
    snapshot. *)
Definition command_spec (ok : bool) (d : bytes) (chains : list (list sipfw_rules)) : Z * list (list sipfw_rules) :=
  let cmd := v_int opt_command d in
  let number := v_int opt_number d in
  let r := rule_of_opts d in
  if cmd =? SIPFW_CMD_INSERT then insert_rule ok r number chains
  else if cmd =? SIPFW_CMD_DELETE then delete_rule ok r number chains
  else if cmd =? SIPFW_CMD_REPLACE then replace_rule ok r number chains
  else if cmd =? SIPFW_CMD_APPEND then append_rule ok r chains
  else if cmd =? SIPFW_CMD_LIST then (0, chains)
  else if cmd =? SIPFW_CMD_FLUSH then flush_rules r chains
  else (- EINVAL, chains).

(** A command that adds a rule must name an action. *)
Definition action_refused (d : bytes) : bool :=
  cmd_is (v_int opt_command d) [SIPFW_CMD_APPEND; SIPFW_CMD_INSERT; SIPFW_CMD_REPLACE]
  && ((v_int opt_action d <? 0) || (SIPFW_ACTION_NUM <=? v_int opt_action d)).

(** ** Well-formed rules stay well-formed *)

Lemma wf_rule_of_opts d :
  (sizeof_cmd_opts <= length d)%nat -> bad_chain (v_int opt_chain d) = false ->
  0 <= v_int opt_action d < SIPFW_ACTION_NUM ->
  wf_rule (Z.to_nat (r_chain (rule_of_opts d))) (rule_of_opts d).
Proof.
  unfold sizeof_cmd_opts. intros Hlen Hc Ha. pose proof (chain_index _ Hc). split; simpl.
  - lia.
  - done.
  - apply (le_decode_sub_fits opt_source 4).
  - apply (le_decode_sub_fits opt_dest 4).
  - apply wrap_fits. lia.
  - apply wrap_fits. lia.
  - case_cond; [apply wrap_fits; lia|]. unfold fits. lia.
  - unfold v_str, sub_bytes, opt_ifname. rewrite length_take, length_drop. lia.
  - unfold sub_bytes, opt_addtion. rewrite length_take, length_drop. lia.
Qed.

Lemma wf_set_chain i rs chains :
  wf_chains chains -> Forall (wf_rule (Z.to_nat i)) rs -> wf_chains (set_chain i rs chains).
Proof.
  intros Hwf Hrs j c Hj. unfold set_chain in Hj. destruct (decide (j = Z.to_nat i)) as [->|Hne].
  - pose proof (lookup_lt_Some _ _ _ Hj) as Hlt. rewrite length_insert in Hlt.
    rewrite list_lookup_insert_eq in Hj by done. by simplify_eq.
  - rewrite list_lookup_insert_ne in Hj by done. by apply Hwf.
Qed.

Lemma wf_chain_rules i chains : wf_chains chains -> Forall (wf_rule (Z.to_nat i)) (chain_rules i chains).
Proof. intros Hwf. unfold chain_rules. destruct (chains !! Z.to_nat i) eqn:E; simpl; [by apply Hwf|constructor]. Qed.

Lemma wf_flush cs chains : wf_chains chains -> wf_chains (foldl (fun c i => set_chain i [] c) chains cs).
Proof.
  revert chains. induction cs as [|i cs IH]; intros chains Hwf; [done|]. simpl. apply IH, wf_set_chain; [done|constructor].
Qed.

Lemma wf_command ok d chains :
  wf_chains chains -> (sizeof_cmd_opts <= length d)%nat -> action_refused d = false ->
  wf_chains (command_spec ok d chains).2.
Proof.
  intros Hwf Hlen Hact. set (r := rule_of_opts d). set (i := r_chain r).
  pose proof (wf_chain_rules i chains Hwf) as Hold.
  assert (Hnew : cmd_is (v_int opt_command d) [SIPFW_CMD_APPEND; SIPFW_CMD_INSERT; SIPFW_CMD_REPLACE] = true ->
    bad_chain i = false -> wf_rule (Z.to_nat i) r).
  { intros Hc Hi. unfold action_refused in Hact. rewrite Hc in Hact. simpl in Hact. bool_norm.
    apply wf_rule_of_opts; [done|done|]. lia. }
  unfold command_spec. fold r. repeat (case_cond; bool_norm).
  - unfold insert_rule. fold i. repeat (case_cond; [done|]). case_cond; [|done]. bool_norm. simpl. apply wf_set_chain; [done|].
    apply Forall_app. split; [by apply Forall_take|]. constructor; [|by apply Forall_drop].
    apply Hnew; [|done]. by rewrite E.
  - unfold delete_rule. fold i. case_cond; [done|]. case_match; [|done]. case_cond; [|done]. simpl.
    apply wf_set_chain; [done|]. by apply Forall_delete.
  - unfold replace_rule. fold i. repeat (case_cond; [done|]). case_cond; [|done]. bool_norm. simpl. apply wf_set_chain; [done|].
    apply Forall_insert; [done|]. apply Hnew; [|done]. rewrite E1. done.
  - unfold append_rule. fold i. case_cond; [done|]. case_cond; [|done]. simpl. apply wf_set_chain; [done|].
    apply Forall_app. split; [done|]. constructor; [|constructor]. apply Hnew; [|done]. rewrite E2. done.
  - done.
  - unfold flush_rules. case_match; [|done]. by apply wf_flush.
  - done.
Qed.

(** ** Answers *)

(** The only change is that messages to [pid] have been sent. *)
Definition answered (pid : Z) (s : Sipfw) (ms : list nl_message) (s' : Sipfw) : Prop :=
  Forall (fun m => m_pid m = pid) ms
  /\ exists k, s' = mkSipfw (heap s) (snaps s) (rcu s) (sipfw_tables s) (cf s) (disk s) (sent s ++ ms) (nlfd s)
       (cookie_pot s) (proc_dir s) (hooks s) k.

Lemma answered_none pid s k :
  answered pid s [] (mkSipfw (heap s) (snaps s) (rcu s) (sipfw_tables s) (cf s) (disk s) (sent s) (nlfd s)
    (cookie_pot s) (proc_dir s) (hooks s) k).
Proof. split; [done|]. exists k. by rewrite app_nil_r. Qed.

Lemma answered_trans pid s1 s2 s3 ms ms' :
  answered pid s1 ms s2 -> answered pid s2 ms' s3 -> answered pid s1 (ms ++ ms') s3.
Proof.
  intros [H1 [k ->]] [H2 [k' ->]]. split; [by apply Forall_app|]. exists k'. simpl. by rewrite app_assoc.
Qed.

Lemma answered_memory P priv pid s ms s' adss chains :
  answered pid s ms s' -> mrepP P priv s adss chains -> mrepP P priv s' adss chains.
Proof. intros [_ [k ->]] Hm. by eapply mrepP_same_memory. Qed.

Section netlink.
Context `{KernelEnv}.

(** Messages are not lost. *)
Definition netlink_reliable : Prop := (forall t, netlink_ok t = true) /\ (forall t, kmem_ok t = true).

Lemma fwp_send pid data type s (Q : Z -> Sipfw -> Prop) :
  data <> [] ->
  (forall ret ms s', answered pid s ms s' -> (netlink_reliable -> ms = [mkMessage pid type data]) -> Q ret s') ->
  wp (SIPFW_NLSendToUser pid data type) Q s.
Proof.
  intros Hd HQ. unfold SIPFW_NLSendToUser. destruct (Nat.eqb_spec (length data) 0) as [E|_].
  { by apply length_zero_iff_nil in E. }
  apply fwp_bind, fwp_bind, wp_tick, fwp_ret. destruct (kmem_ok (ticks s)) eqn:Hk; simpl negb; cbv iota.
  2:{ apply fwp_ret. eapply HQ; [apply answered_none|]. intros [_ Hr]. by rewrite Hr in Hk. }
  apply fwp_bind, wp_tick. destruct (netlink_ok _) eqn:Hn.
  - apply fwp_bind, wp_modify, fwp_ret. eapply (HQ _ [mkMessage pid type data]); [|done].
    split; [by constructor|]. by exists (S (S (ticks s))).
  - apply fwp_ret. eapply HQ; [apply (answered_none pid s)|]. intros [Hr _]. by rewrite Hr in Hn.
Qed.

Lemma wp_reply pid err s (Q : Z -> Sipfw -> Prop) :
  (forall ms s', answered pid s ms s' ->
     (netlink_reliable -> ms = [mkMessage pid (if err =? 0 then SIPFW_MSG_SUCCESS else SIPFW_MSG_FAILURE)
        (if err =? 0 then NLSUCCESS else NLFAILRE)]) -> Q err s') ->
  wp (reply pid err) Q s.
Proof.
  intros HQ. apply fwp_bind.
  destruct (err =? 0); (apply fwp_send; [done|]; intros ret ms s' Ha Hm; apply fwp_ret; by eapply HQ).
Qed.

(** ** Listing *)

Lemma wp_copy_list fuel p ads rs count copied s (Q : list sipfw_rules -> Sipfw -> Prop) :
  lrep (heap s) p ads rs -> (length rs < fuel)%nat -> zlen copied <= count ->
  Q (copied ++ take (Z.to_nat (count - zlen copied)) rs) s -> wp (copy_list fuel p count copied) Q s.
Proof.
  revert p ads rs copied. induction fuel as [|fuel IH]; intros p ads rs copied Hrep Hfuel Hle HQ; [lia|].
  cbn [copy_list]. destruct Hrep as [|a n ads rs Ha Hrep].
  - apply fwp_ret. by rewrite take_nil, app_nil_r in HQ.
  - destruct (Z.ltb_spec (zlen copied) count) as [Hlt|Hge].
    + apply fwp_bind, (wp_read_rule _ n); [done|]. eapply (IH _ ads rs); [done|simpl in Hfuel; lia|..].
      * rewrite zlen_app, zlen_cons, zlen_nil. lia.
      * rewrite zlen_app, zlen_cons, zlen_nil, <- app_assoc. simpl.
        replace (Z.to_nat (count - zlen copied)) with (S (Z.to_nat (count - (zlen copied + (1 + 0))))) in HQ by lia.
        done.
    + apply fwp_ret. replace (Z.to_nat (count - zlen copied)) with 0%nat in HQ by lia.
      by rewrite take_0, app_nil_r in HQ.
Qed.

(** The rules of some chains, one chain after the other. *)
Definition rules_of (chains : list (list sipfw_rules)) (cs : list Z) : list sipfw_rules :=
  concat (map (fun i => chain_rules i chains) cs).

Lemma zlen_take {A} (l : list A) n : zlen (take n l) <= Z.of_nat n.
Proof. unfold zlen. rewrite length_take. lia. Qed.

Lemma wp_copy_chains cs s adss chains priv count copied (Q : list sipfw_rules -> Sipfw -> Prop) :
  mrep priv s adss chains -> Forall (fun i => bad_chain i = false) cs -> zlen copied <= count ->
  (forall l, (zlen copied + zlen (rules_of chains cs) <= count -> l = copied ++ rules_of chains cs) -> Q l s) ->
  wp (copy_chains cs count copied) Q s.
Proof.
  intros Hm. revert copied. induction cs as [|i cs IH]; intros copied Hcs Hle HQ.
  - apply fwp_ret, HQ. intros _. unfold rules_of. simpl. by rewrite app_nil_r.
  - apply Forall_cons in Hcs as [Hi Hcs]. pose proof (mrep_lists Hm) as Hh.
    destruct (chain_lookup adss i (hrep_addrs _ _ _ _ Hh) Hi) as [ads Hads].
    destruct (chain_lookup chains i (hrep_chains _ _ _ _ Hh) Hi) as [rs Hrs].
    destruct (hrep_chain i adss chains ads rs Hi Hads Hrs _ _ Hh) as (l & Hl & Hrep).
    assert (Hcr : chain_rules i chains = rs) by (unfold chain_rules; by rewrite Hrs).
    cbn [copy_chains]. apply fwp_bind, (wp_get_list _ l); [done..|]. apply fwp_bind, fwp_gets, fwp_bind.
    eapply wp_copy_list; [done| |done|].
    + rewrite <- (lrep_length _ _ _ _ Hrep). assert (length ads <= size (heap s))%nat; [|lia].
      eapply owned_length; [apply Hm|done|]. by eapply (hrep_nodup _ _ _ _ Hh).
    + pose proof (zlen_take rs (Z.to_nat (count - zlen copied))). apply IH; [done|rewrite zlen_app; lia|].
      intros l' Hl'. apply HQ. unfold rules_of. cbn [map concat]. fold (rules_of chains cs). rewrite Hcr, zlen_app.
      intros Htotal. pose proof (zlen_nonneg (rules_of chains cs)).
      rewrite take_ge in Hl' by (unfold zlen in *; lia). rewrite app_assoc. apply Hl'. rewrite zlen_app. lia.
Qed.

Lemma wp_count_rules cs s adss chains priv count (Q : Z -> Sipfw -> Prop) :
  mrep priv s adss chains -> Forall (fun i => bad_chain i = false) cs -> fits 32 count ->
  Q (wrap 32 (count + zlen (rules_of chains cs))) s -> wp (count_rules cs count) Q s.
Proof.
  intros Hm. revert count. induction cs as [|i cs IH]; intros count Hcs Hfits HQ.
  - apply fwp_ret. unfold rules_of in HQ. simpl in HQ. by rewrite zlen_nil, Z.add_0_r, wrap_id in HQ.
  - apply Forall_cons in Hcs as [Hi Hcs]. pose proof (mrep_lists Hm) as Hh.
    destruct (chain_lookup chains i (hrep_chains _ _ _ _ Hh) Hi) as [rs Hrs].
    destruct (chain_lookup (sipfw_tables s) i (hrep_tables _ _ _ _ Hh) Hi) as [l Hl].
    destruct (srep_snap _ _ _ _ _ _ (mrep_snaps Hm) _ l rs I Hl Hrs) as [Hn _].
    cbn [count_rules]. apply fwp_bind, (wp_get_list _ l); [done..|]. apply IH; [done|apply wrap_fits; lia|].
    unfold rules_of in HQ. cbn [map concat] in HQ. fold (rules_of chains cs) in HQ.
    rewrite zlen_app in HQ. unfold chain_rules in HQ. rewrite Hrs in HQ. simpl in HQ. rewrite Hn.
    unfold wrap. rewrite Z.add_mod_idemp_l by lia. unfold wrap in HQ. by rewrite <- Z.add_assoc.
Qed.

Lemma wp_send_rules pid rs s (Q : unit -> Sipfw -> Prop) :
  (forall ms s', answered pid s ms s' ->
     (netlink_reliable -> ms = map (fun r => mkMessage pid SIPFW_MSG_RULE (rule_bytes r)) rs) -> Q tt s') ->
  wp (send_rules pid rs) Q s.
Proof.
  revert s. induction rs as [|r rs IH]; intros s HQ.
  - apply fwp_ret. eapply HQ; [|done]. split; [done|]. exists (ticks s). rewrite app_nil_r. by destruct s.
  - apply fwp_bind, fwp_send; [unfold rule_bytes; intros E; apply (f_equal length) in E; rewrite length_app, length_replicate in E; simpl in E; lia|].
    intros _ ms s1 Ha Hm. apply IH. intros ms' s' Ha' Hm'. eapply HQ; [by eapply answered_trans|].
    intros Hr. by rewrite (Hm Hr), (Hm' Hr).
Qed.

(** ** Effects *)

(** Apart from the memory, the only changes are messages to [pid] and the file of rules. *)
Record effects (pid : Z) (s : Sipfw) (ms : list nl_message) (s' : Sipfw) : Prop := mkEffects {
  eff_cf : cf s' = cf s;
  eff_module : (nlfd s', cookie_pot s', proc_dir s', hooks s') = (nlfd s, cookie_pot s, proc_dir s, hooks s);
  eff_sent : sent s' = sent s ++ ms;
  eff_pid : Forall (fun m => m_pid m = pid) ms;
  eff_disk p : p <> RuleFilePath (cf s) -> disk s' !! p = disk s !! p;
}.

Lemma effects_trans pid s1 s2 s3 ms ms' :
  effects pid s1 ms s2 -> effects pid s2 ms' s3 -> effects pid s1 (ms ++ ms') s3.
Proof.
  intros [A1 A2 A3 A4 A5] [B1 B2 B3 B4 B5]. split.
  - congruence.
  - congruence.
  - by rewrite B3, A3, app_assoc.
  - by apply Forall_app.
  - intros p Hp. rewrite B5 by congruence. by apply A5.
Qed.

Lemma memory_effects pid s s' : memory_only s s' -> effects pid s [] s'.
Proof. intros (h & n & r & t & k & ->). split; simpl; try done. by rewrite app_nil_r. Qed.

Lemma answered_effects pid s ms s' : answered pid s ms s' -> effects pid s ms s'.
Proof. intros [Hp [k ->]]. by split. Qed.

Lemma wrote_effects pid s text s' : wrote s (RuleFilePath (cf s)) text s' -> effects pid s [] s'.
Proof.
  intros [k ->]. split; simpl; try done.
  - by rewrite app_nil_r.
  - intros p Hp. by rewrite lookup_insert_ne.
Qed.

(** ** The commands, with the file and the answer *)

(** How a command ends that changes the rules. *)
Record command_done (pid : Z) (s : Sipfw) (spec : Z * list (list sipfw_rules)) (err : Z) (s' : Sipfw) : Prop := mkDone {
  done_rep : rep s' spec.2;
  done_effects : exists ms, effects pid s ms s'
    /\ (netlink_reliable -> ms = [mkMessage pid (if err =? 0 then SIPFW_MSG_SUCCESS else SIPFW_MSG_FAILURE)
         (if err =? 0 then NLSUCCESS else NLFAILRE)]);
  done_file : err = 0 -> spec.1 = 0
    /\ (RuleFilePath (cf s) <> [] -> disk s' !! RuleFilePath (cf s) = Some (encode_chains spec.2));
}.

Lemma wp_change_rules pid s0 s spec action :
  memory_only s0 s -> wf_chains spec.2 -> wp action (ends_as s spec) s ->
  wp (change_rules pid action) (command_done pid s0 spec) s.
Proof.
  intros Hs0 Hwf Hwp. apply fwp_bind. eapply wp_mono; [exact Hwp|]. clear Hwp.
  intros ret s1 (-> & Hrep & Hs1). assert (Hmo : memory_only s0 s1) by (by eapply memory_only_trans).
  pose proof (memory_effects pid _ _ Hmo) as He. pose proof (eff_cf _ _ _ _ He) as Hcf.
  apply fwp_bind. destruct (Z.eqb_spec spec.1 0) as [E|E].
  - assert (Hend : forall ret text s2, effects pid s1 [] s2 -> rep s2 spec.2 ->
      (ret = 0 -> RuleFilePath (cf s0) <> [] -> disk s2 !! RuleFilePath (cf s0) = Some (text : bytes) /\ text = encode_chains spec.2) ->
      wp (reply pid ret) (command_done pid s0 spec) s2).
    { intros ret text s2 He2 [adss2 Hm2] Hfile. apply wp_reply. intros ms s3 Ha Hms. split.
      - exists adss2. by eapply answered_memory.
      - exists ms. split; [|done]. apply (effects_trans pid s0 s1 s3 [] ms); [done|].
        apply (effects_trans pid s1 s2 s3 [] ms); [done|]. by apply answered_effects.
      - intros Hz. split; [done|]. intros Hp. destruct Ha as [_ [k ->]]. simpl.
        by destruct (Hfile Hz Hp) as [-> ->]. }
    eapply wp_save; [done|done|..]; rewrite ?Hcf.
    + intros Hp. eapply (Hend 0 []); [|done|done]. apply memory_effects, memory_only_refl.
    + eapply (Hend _ []); [apply memory_effects, memory_only_tick| |done]. destruct Hrep as [adss1 Hm1].
      exists adss1. by apply mrep_next_tick.
    + intros ret text s2 Hw Htext. eapply (Hend ret text).
      * apply (wrote_effects pid s1 text). by rewrite Hcf.
      * destruct Hrep as [adss1 Hm1], Hw as [k ->]. exists adss1. by eapply mrepP_same_memory.
      * intros Hz _. split; [by eapply wrote_lookup|by apply Htext].
  - apply fwp_ret, wp_reply. intros ms s2 Ha Hms. split.
    + destruct Hrep as [adss1 Hm1]. exists adss1. by eapply answered_memory.
    + exists ms. split; [|done]. apply (effects_trans pid s0 s1 s2 [] ms); [done|]. by apply answered_effects.
    + done.
Qed.

(** Listing sends the number of rules and then the rules. *)
Lemma wp_rule_list pid s a r chains :
  command_ready s a r chains ->
  wp (SIPFW_NLAction_RuleList a pid) (fun ret s' => rep s' chains /\ exists ms, effects pid s ms s'
    /\ (netlink_reliable -> forall cs, chain_range (r_chain r) = Some cs -> zlen (rules_of chains cs) < 2 ^ 32 ->
        ret = 0 /\ ms = mkMessage pid SIPFW_MSG_RULE (le_encode 4 (zlen (rules_of chains cs)))
          :: map (fun r => mkMessage pid SIPFW_MSG_RULE (rule_bytes r)) (rules_of chains cs))
    /\ (ret <> 0 -> ms = [])) s.
Proof.
  intros Hr. destruct (ready_rule _ _ _ _ Hr) as [p Ha]. destruct (ready_mem _ _ _ _ Hr) as [adss Hm].
  apply fwp_bind, (wp_read_rule _ _ _ _ Ha). cbn [n_rule].
  destruct (chain_range (r_chain r)) as [cs|] eqn:Hcs.
  2:{ eapply wp_give_up; [done|apply memory_only_refl|]. intros s' (_ & Hrep & Hs'). split; [done|].
      exists []. split_and!; [by apply memory_effects|done|done]. }
  pose proof (chain_range_ok _ _ Hcs) as Hok. apply fwp_bind.
  eapply wp_count_rules; [done|done|unfold fits; lia|]. rewrite Z.add_0_l.
  pose proof (zlen_nonneg (rules_of chains cs)) as Hpos.
  assert (Hsmall : zlen (rules_of chains cs) < 2 ^ 32 -> wrap 32 (zlen (rules_of chains cs)) = zlen (rules_of chains cs)).
  { intros Hlt. apply wrap_id. by split. }
  destruct (Z.eqb_spec (wrap 32 (zlen (rules_of chains cs))) 0) as [E|E].
  - apply fwp_bind, fwp_send; [done|]. intros _ ms s1 Han Hms. eapply (answered_memory every_chain) in Hm as Hm1; [|done].
    eapply (wp_give_up 0 s1); [done|apply memory_only_refl|]. intros s' (_ & Hrep & Hs'). split; [done|].
    exists ms. split_and!; [|intros Hnr cs' [= <-] Hlt|done].
    + rewrite <- (app_nil_r ms). eapply effects_trans; [by apply answered_effects|by apply memory_effects].
    + split; [done|]. rewrite (Hms Hnr). rewrite (Hsmall Hlt) in E |- *. apply zlen_zero in E. by rewrite E.
  - apply fwp_bind, fwp_bind, wp_tick, fwp_ret. destruct (kmem_ok (ticks s)) eqn:Hk; simpl negb; cbv iota.
    2:{ eapply (wp_give_up _ s); [by apply mrep_next_tick|apply memory_only_tick|]. intros s' (_ & Hrep & Hs').
        split; [done|]. exists []. split_and!; [by apply memory_effects| |done].
        intros [_ Hr']. by rewrite Hr' in Hk. }
    apply mrep_next_tick in Hm as Hm1. apply fwp_bind. eapply wp_copy_chains; [done|done| |].
    { rewrite zlen_nil. pose proof (wrap_fits 32 (zlen (rules_of chains cs)) ltac:(lia)) as []. lia. }
    intros copied Hcopied. apply fwp_bind. eapply wp_mrep_free; [done|set_solver|]. intros Hm2.
    set (s2 := set_heap _ _). apply fwp_bind, fwp_send; [done|]. intros _ ms s3 Han3 Hms3. apply fwp_bind, wp_send_rules.
    intros ms' s4 Han4 Hms4. apply fwp_ret. split.
    + exists adss. eapply answered_memory; [done|]. eapply answered_memory; [done|].
      by replace (∅ : gset addr) with ({[a]} ∖ {[a]} : gset addr) by set_solver.
    + exists (ms ++ ms'). split_and!; [|intros Hnr cs' [= <-] Hlt|done].
      * apply (effects_trans pid s s2 s4 [] (ms ++ ms')).
        { apply memory_effects. eapply memory_only_trans; [apply memory_only_tick|apply memory_only_heap]. }
        eapply effects_trans; by apply answered_effects.
      * split; [done|]. rewrite (Hms3 Hnr), (Hms4 Hnr). rewrite (Hsmall Hlt) in Hcopied.
        rewrite Hcopied; [done|]. rewrite zlen_nil. lia.
Qed.

(** The rule of a command is allocated and filled in. *)
Lemma wp_new_rule {A} s chains r (k : addr -> F A) (fail : F A) (Q : A -> Sipfw -> Prop) :
  rep s chains -> small chains ->
  (kmem_ok (ticks s) = false -> wp fail Q (next_tick s)) ->
  (forall a s', kmem_ok (ticks s) = true -> memory_only s s' -> ticks s' = S (ticks s) ->
     command_ready s' a r chains -> wp (k a) Q s') ->
  wp (a ← kzalloc_rule;
      match a with
      | None => fail
      | Some rule => write_rule rule (mkNode r None);; k rule
      end) Q s.
Proof.
  intros [adss Hm] Hsmall Hfail Hok. apply fwp_bind. eapply wp_kzalloc_rule; [done|done|].
  intros a Hk _ s1 Hm1. apply fwp_bind. unfold wp at 1, write_rule. cbn [heap s1 mem]. rewrite lookup_insert_eq.
  replace (∅ ∪ {[a]} : gset addr) with ({[a]} : gset addr) in Hm1 by set_solver. destruct Hm1 as [Hh Hs Ho].
  destruct (hrep_private {[a]} s1 adss chains a (mkNode r None) Hh Ho) as [Hh' Ho']; [set_solver|].
  apply Hok; [done|by eexists _, _, _, _, _|done|]. split; [|exists None; apply lookup_insert_eq|done].
  exists adss. by split.
Qed.

(** The command is one that is refused, or there is no memory for its rule: nothing happens. *)
Definition command_dropped (d : bytes) (s : Sipfw) : bool := action_refused d || negb (kmem_ok (ticks s)).

(** The chains after a command. *)
Definition chains_after (d : bytes) (s : Sipfw) (chains : list (list sipfw_rules)) : list (list sipfw_rules) :=
  if command_dropped d s then chains else (command_spec (kmem_ok (S (ticks s))) d chains).2.

Definition action_done (d : bytes) (pid : Z) (s : Sipfw) (chains : list (list sipfw_rules)) (err : Z) (s' : Sipfw)
    (ms : list nl_message) : Prop :=
  rep s' (chains_after d s chains) /\ wf_chains (chains_after d s chains) /\ effects pid s ms s'
  /\ (err = 0 -> command_dropped d s = false /\ (command_spec (kmem_ok (S (ticks s))) d chains).1 = 0)
  /\ (err = 0 -> changes_rules d = true -> RuleFilePath (cf s) <> [] ->
      disk s' !! RuleFilePath (cf s) = Some (encode_chains (chains_after d s chains)))
  /\ (netlink_reliable -> action_refused d = false -> v_int opt_command d <> SIPFW_CMD_LIST ->
      ms = [mkMessage pid (if err =? 0 then SIPFW_MSG_SUCCESS else SIPFW_MSG_FAILURE)
             (if err =? 0 then NLSUCCESS else NLFAILRE)]).

Lemma wp_do_action s chains d pid :
  rep s chains -> wf_chains chains -> small chains -> (sizeof_cmd_opts <= length d)%nat ->
  wp (SIPFW_NLDoAction d pid) (fun err s' => exists ms, action_done d pid s chains err s' ms) s.
Proof.
  intros Hrep Hwf Hsmall Hlen. set (post := fun err s' => exists ms, action_done d pid s chains err s' ms).
  unfold SIPFW_NLDoAction. fold (action_refused d). destruct (action_refused d) eqn:Href.
  { apply fwp_ret. unfold post, action_done, chains_after, command_dropped. rewrite Href. simpl. exists [].
    split_and!; try done. apply memory_effects, memory_only_refl. }
  pose proof (wf_command (kmem_ok (S (ticks s))) d chains Hwf Hlen Href) as Hwf'.
  eapply wp_new_rule; [done|done|..].
  { intros Hk. apply fwp_ret. unfold post, action_done, chains_after, command_dropped. rewrite Href, Hk. simpl. exists [].
    split_and!; try done.
    - destruct Hrep as [adss Hm]. exists adss. by apply mrep_next_tick.
    - apply memory_effects, memory_only_tick.
    - intros [_ Hr]. by rewrite Hr in Hk. }
  intros a s1 Hk Hs1 Ht1 Hready.
  assert (Hdrop : command_dropped d s = false) by (unfold command_dropped; by rewrite Href, Hk).
  assert (Hspec : chains_after d s chains = (command_spec (kmem_ok (S (ticks s))) d chains).2)
    by (unfold chains_after; by rewrite Hdrop).
  assert (Hchange : forall action, wp action (ends_as s1 (command_spec (kmem_ok (S (ticks s))) d chains)) s1 ->
    wp (change_rules pid action) post s1).
  { intros action Hact. eapply wp_mono; [by eapply wp_change_rules|]. intros err s' [Hd1 (ms & He & Hms) Hd3].
    exists ms. unfold action_done. rewrite Hspec. split_and!; try done.
    - intros Hz. split; [done|]. by apply Hd3.
    - intros Hz _. by apply Hd3.
    - intros Hnr _ _. by apply Hms. }
  remember (command_spec (kmem_ok (S (ticks s))) d chains) as spec eqn:Espec.
  assert (Hb : spec = command_spec (kmem_ok (ticks s1)) d chains) by (by rewrite Ht1). unfold command_spec in Hb.
  destruct (v_int opt_command d =? SIPFW_CMD_INSERT); [apply Hchange; rewrite Hb; by apply insert_refines|].
  destruct (v_int opt_command d =? SIPFW_CMD_DELETE); [apply Hchange; rewrite Hb; by apply delete_refines|].
  destruct (v_int opt_command d =? SIPFW_CMD_REPLACE); [apply Hchange; rewrite Hb; by apply replace_refines|].
  destruct (v_int opt_command d =? SIPFW_CMD_APPEND); [apply Hchange; rewrite Hb; by apply append_refines|].
  destruct (Z.eqb_spec (v_int opt_command d) SIPFW_CMD_LIST) as [Elist|Nlist].
  - assert (Hnc : changes_rules d = false) by (unfold changes_rules; by rewrite Elist).
    apply fwp_bind. eapply wp_mono; [by apply (wp_rule_list pid)|]. intros ret s2 (Hrep2 & ms & He & _ & _).
    pose proof (effects_trans pid s s1 s2 [] ms (memory_effects pid _ _ Hs1) He) as He2.
    destruct (Z.eqb_spec ret 0) as [->|Hr].
    + apply fwp_ret. exists ms. unfold action_done. rewrite Hspec, <- Espec, Hb. split_and!; try done. intros _. by rewrite Hnc.
    + apply wp_reply. intros ms' s3 Ha Hms. exists (ms ++ ms'). unfold action_done. rewrite Hspec, <- Espec, Hb. split_and!; try done.
      * destruct Hrep2 as [adss2 Hm2]. exists adss2. by eapply answered_memory.
      * eapply effects_trans; [done|]. by apply answered_effects.
  - destruct (v_int opt_command d =? SIPFW_CMD_FLUSH) eqn:Eflush; [apply Hchange; rewrite Hb; by apply flush_refines|].
    destruct (ready_mem _ _ _ _ Hready) as [adss1 Hm1].
    apply fwp_bind. eapply wp_mrep_free; [done|set_solver|]. intros Hm2. set (s2 := set_heap _ _).
    apply wp_reply. intros ms s3 Ha Hms. exists ms. unfold action_done. rewrite Hspec, <- Espec, Hb. split_and!; try done.
    + exists adss1. eapply answered_memory; [done|]. by replace (∅ : gset addr) with ({[a]} ∖ {[a]} : gset addr) by set_solver.
    + apply (effects_trans pid s s2 s3 [] ms); [|by apply answered_effects]. apply memory_effects.
      eapply memory_only_trans; [done|apply memory_only_heap].
    + intros Hnr _ _. by apply Hms.
Qed.

(** [C19] For a message of full length and chains of fewer than 2^31 - 1 well-formed rules, every
    command ends without a fault and refines the operation on lists it stands for: the memory holds
    the chains of [command_spec] and nothing else, with the count of every list, all rules are
    well-formed, and apart from that only answers to the process and the file of rules change. If a
    command that changes rules reports success and a file of rules is configured, the file holds
    exactly the new chains; when messages and memory are not lost, the process is told the result of
    every command but a list, unless its action is out of range. *)
Theorem do_action_refines s chains d pid :
  rep s chains -> wf_chains chains -> small chains -> (sizeof_cmd_opts <= length d)%nat ->
  exists err s' ms, SIPFW_NLDoAction d pid s = Ret err s' /\ action_done d pid s chains err s' ms.
Proof.
  intros Hrep Hwf Hsmall Hlen. pose proof (wp_do_action s chains d pid Hrep Hwf Hsmall Hlen) as Hwp.
  unfold wp in Hwp. destruct (SIPFW_NLDoAction d pid s) as [err s'| |]; [|done..].
  destruct Hwp as [ms Hp]. by exists err, s', ms.
Qed.

(** What a process receives that lists the chains [cs]. *)
Definition listed (pid : Z) (rules : list sipfw_rules) : list nl_message :=
  mkMessage pid SIPFW_MSG_RULE (le_encode 4 (zlen rules))
  :: map (fun r => mkMessage pid SIPFW_MSG_RULE (rule_bytes r)) rules.

Lemma wp_list s chains d pid cs :
  rep s chains -> small chains -> netlink_reliable ->
  v_int opt_command d = SIPFW_CMD_LIST -> chain_range (v_int opt_chain d) = Some cs ->
  zlen (rules_of chains cs) < 2 ^ 32 ->
  wp (SIPFW_NLDoAction d pid)
    (fun ret s' => ret = 0 /\ rep s' chains /\ sent s' = sent s ++ listed pid (rules_of chains cs)) s.
Proof.
  intros Hrep Hsmall Hnr Hcmd Hcs Hlt. unfold SIPFW_NLDoAction. rewrite Hcmd. cbn [cmd_is].
  eapply wp_new_rule; [done|done|..].
  - intros Hk. destruct Hnr as [_ Hr]. by rewrite Hr in Hk.
  - intros a s1 _ Hs1 _ Hready. apply fwp_bind. eapply wp_mono; [by apply (wp_rule_list pid)|].
    intros ret s2 (Hrep2 & ms & He & Hms & _). destruct (Hms Hnr cs Hcs Hlt) as [-> ->]. apply fwp_ret.
    split_and!; [done|done|]. rewrite (eff_sent _ _ _ _ He).
    by destruct Hs1 as (? & ? & ? & ? & ? & ->).
Qed.

(** Listing reports the rules of the chains that were asked for, in order, to the process that
    asked. *)
Theorem list_reports_rules s chains d pid cs :
  rep s chains -> small chains -> netlink_reliable ->
  v_int opt_command d = SIPFW_CMD_LIST -> chain_range (v_int opt_chain d) = Some cs ->
  zlen (rules_of chains cs) < 2 ^ 32 ->
  exists s', SIPFW_NLDoAction d pid s = Ret 0 s' /\ rep s' chains
    /\ sent s' = sent s ++ listed pid (rules_of chains cs).
Proof.
  intros Hrep Hsmall Hnr Hcmd Hcs Hlt. pose proof (wp_list s chains d pid cs Hrep Hsmall Hnr Hcmd Hcs Hlt) as Hwp.
  unfold wp in Hwp. destruct (SIPFW_NLDoAction d pid s) as [ret s'| |]; [|done..].
  destruct Hwp as (-> & ?). by exists s'.
Qed.

(** ** Sequences of messages *)

(** Every chain has room for [n] more rules. *)
Definition room (n : Z) (chains : list (list sipfw_rules)) : Prop :=
  forall i, zlen (chain_rules i chains) + n < 2 ^ 31 - 1.

Lemma room_small n chains : room n chains -> 0 <= n -> small chains.
Proof.
  intros Hroom Hn. apply Forall_lookup_2. intros i rs Hi. specialize (Hroom (Z.of_nat i)).
  unfold chain_rules in Hroom. rewrite Nat2Z.id, Hi in Hroom. simpl in Hroom. lia.
Qed.

Lemma room_set_chain n j rs chains :
  room (n + 1) chains -> zlen rs <= zlen (chain_rules j chains) + 1 -> room n (set_chain j rs chains).
Proof.
  intros Hroom Hle i. pose proof (Hroom i) as Hi. pose proof (Hroom j) as Hj. unfold chain_rules at 1, set_chain.
  destruct (decide (Z.to_nat i = Z.to_nat j)) as [->|Hne].
  - destruct (decide (Z.to_nat j < length chains)%nat) as [Hl|Hl].
    + rewrite list_lookup_insert_eq by done. simpl. lia.
    + rewrite lookup_ge_None_2 by (rewrite length_insert; lia). simpl. rewrite zlen_nil.
      pose proof (zlen_nonneg (chain_rules i chains)). lia.
  - rewrite list_lookup_insert_ne by done. fold (chain_rules i chains). lia.
Qed.

Lemma room_less n m chains : room n chains -> m <= n -> room m chains.
Proof. intros Hroom Hle i. specialize (Hroom i). lia. Qed.

Lemma room_flush n cs chains : room n chains -> room n (foldl (fun c i => set_chain i [] c) chains cs).
Proof.
  revert chains. induction cs as [|i cs IH]; intros chains Hroom; [done|]. simpl. apply IH. intros j.
  unfold chain_rules, set_chain. destruct (decide (Z.to_nat j = Z.to_nat i)) as [E|Hne].
  - specialize (Hroom j). pose proof (zlen_nonneg (chain_rules j chains)). rewrite E.
    destruct (decide (Z.to_nat i < length chains)%nat) as [Hl|Hl].
    + rewrite list_lookup_insert_eq by done. simpl. rewrite zlen_nil. lia.
    + rewrite lookup_ge_None_2 by (rewrite length_insert; lia). simpl. rewrite zlen_nil. lia.
  - rewrite list_lookup_insert_ne by done. apply Hroom.
Qed.

(** A command adds at most one rule. *)
Lemma room_command n ok d chains : room (n + 1) chains -> room n (command_spec ok d chains).2.
Proof.
  intros Hroom. assert (Hn : room n chains) by (eapply room_less; [done|lia]).
  unfold command_spec. repeat (case_cond; [|]); try done.
  - unfold insert_rule. case_cond; [done|]. case_cond; [|done]. simpl. apply room_set_chain; [done|].
    set (rs := chain_rules _ _). set (k := Z.to_nat _). rewrite zlen_app, zlen_cons.
    rewrite <- (take_drop k rs) at 3. rewrite zlen_app. lia.
  - unfold delete_rule. case_cond; [done|]. case_match; [|done]. case_cond; [|done]. simpl. apply room_set_chain; [done|].
    unfold zlen. rewrite delete_take_drop, length_app, length_take, length_drop. lia.
  - unfold replace_rule. case_cond; [done|]. case_cond; [done|]. case_cond; [|done]. simpl.
    apply room_set_chain; [done|]. unfold zlen. rewrite length_insert. lia.
  - unfold append_rule. case_cond; [done|]. case_cond; [|done]. simpl. apply room_set_chain; [done|].
    rewrite zlen_app, zlen_cons, zlen_nil. lia.
  - unfold flush_rules. case_match; [|done]. by apply room_flush.
Qed.

(** What a message leaves alone. *)
Definition same_module (s s' : Sipfw) : Prop :=
  cf s' = cf s /\ (nlfd s', cookie_pot s', proc_dir s', hooks s') = (nlfd s, cookie_pot s, proc_dir s, hooks s)
  /\ forall p, p <> RuleFilePath (cf s) -> disk s' !! p = disk s !! p.

Lemma effects_same_module pid s ms s' : effects pid s ms s' -> same_module s s'.
Proof. by intros []. Qed.

Lemma same_module_trans s1 s2 s3 : same_module s1 s2 -> same_module s2 s3 -> same_module s1 s3.
Proof.
  intros (A1 & A2 & A3) (B1 & B2 & B3). split_and!; [congruence|congruence|].
  intros p Hp. rewrite B3 by congruence. by apply A3.
Qed.

Lemma wp_handle_message n d s chains :
  rep s chains -> wf_chains chains -> room (n + 1) chains -> 0 <= n -> NLMSG_OK d = true ->
  wp (handle_message d) (fun _ s' => exists chains', rep s' chains' /\ wf_chains chains' /\ room n chains' /\ same_module s s') s.
Proof.
  intros Hrep Hwf Hroom Hn Hok. assert (Hroom' : room n chains) by (eapply room_less; [done|lia]).
  unfold handle_message. case_cond; [|by apply fwp_ret; exists chains].
  destruct (Z.ltb_spec (nlmsg_len d - NLMSG_HDRLEN) (Z.of_nat sizeof_cmd_opts)) as [Hshort|Hlong].
  - apply fwp_bind, fwp_send; [done|]. intros _ ms s' Ha _. apply fwp_ret. exists chains. split_and!; try done.
    + destruct Hrep as [adss Hm]. exists adss. by eapply answered_memory.
    + by eapply effects_same_module, answered_effects.
  - unfold NLMSG_OK, NLMSG_HDRLEN in *. bool_norm.
    assert (Hlen : (sizeof_cmd_opts <= length (NLMSG_DATA d))%nat).
    { unfold NLMSG_DATA, NLMSG_HDRLEN, zlen in *. rewrite length_take, length_drop. lia. }
    apply fwp_bind. eapply wp_mono; [apply (wp_do_action s chains (NLMSG_DATA d) (nlmsg_pid d)); try done;
      eapply room_small; [done|lia]|].
    intros err s' (ms & Hrep' & Hwf' & He & _). apply fwp_ret. eexists. split_and!; [done|done| |by eapply effects_same_module].
    unfold chains_after. case_cond; [done|]. by apply room_command.
Qed.

Lemma message_shrinks d :
  NLMSG_OK d = true -> zlen (drop (Z.to_nat (NLMSG_ALIGN (nlmsg_len d))) d) + 1 <= zlen d.
Proof.
  unfold NLMSG_OK, NLMSG_HDRLEN. intros Hok. bool_norm. unfold zlen in *. rewrite length_drop.
  assert (16 <= NLMSG_ALIGN (nlmsg_len d)); [|lia]. unfold NLMSG_ALIGN.
  assert (4 <= (nlmsg_len d + 3) / 4) by (apply Z.div_le_lower_bound; lia). lia.
Qed.

Lemma wp_recv_messages n fuel d s chains :
  (length d < fuel)%nat -> rep s chains -> wf_chains chains -> room (n + zlen d) chains -> 0 <= n ->
  wp (recv_messages fuel d)
    (fun _ s' => exists chains', rep s' chains' /\ wf_chains chains' /\ room n chains' /\ same_module s s') s.
Proof.
  revert d s chains. induction fuel as [|fuel IH]; intros d s chains Hfuel Hr Hw Hc Hn; [lia|]. cbn [recv_messages].
  destruct (NLMSG_OK d) eqn:Hok.
  2:{ apply fwp_ret. exists chains. split_and!; try done. eapply room_less; [done|]. pose proof (zlen_nonneg d). lia. }
  pose proof (message_shrinks d Hok) as Hrest. set (rest := drop _ d) in *. pose proof (zlen_nonneg rest) as Hpos.
  apply fwp_bind. eapply wp_mono.
  { eapply (wp_handle_message (n + zlen rest)); [done|done| |lia|done]. eapply room_less; [done|lia]. }
  intros _ s1 (c1 & Hr1 & Hw1 & Hc1 & Hs1). eapply wp_mono; [by eapply (IH rest); [unfold zlen in *; lia|..]|].
  intros _ s2 (c2 & Hr2 & Hw2 & Hc2 & Hs2). exists c2. split_and!; [done..|]. by eapply same_module_trans.
Qed.

(** Whatever a process sends, the handler ends without a fault, and the module holds well-formed
    rules in memory that is neither lost nor used twice; nothing but the memory, the answers and
    the file of rules changes. *)
Theorem recv_keeps_invariant skb s chains :
  rep s chains -> wf_chains chains -> room (zlen skb) chains ->
  exists s' chains', SIPFW_NLRecv skb s = Ret tt s' /\ rep s' chains' /\ wf_chains chains' /\ same_module s s'.
Proof.
  intros Hrep Hwf Hroom.
  pose proof (wp_recv_messages 0 (S (length skb)) skb s chains ltac:(lia) Hrep Hwf Hroom ltac:(lia)) as Hwp.
  unfold wp in Hwp. unfold SIPFW_NLRecv. destruct (recv_messages _ _ s) as [[] s'| |]; [|done..].
  destruct Hwp as (c' & ? & ? & _ & ?). by exists s', c'.
Qed.

End netlink.
