(* ===== verification/SipfwMatch.v ===== *)
(** Packets and rules (SIPFW/module/sipfw_k_common.c and the hooks of sipfw_k.c): the verdict on a
    packet is that of the first rule that matches it. *)
From S2P Require Import Prelude KcpConv Frames Identity Sipfw SipfwHeap SipfwRules SipfwProofs SipfwFile SipfwLoad.

(** A packet: its bytes from [skb->data] on, how many of them are in the linear part, whether
    the rest can be pulled into it, and the offset of the IP header. *)
Record sk_buff := mkSkb {
  skb_data : bytes;
  skb_headlen : Z;
  skb_pull_ok : bool;
  skb_network_offset : Z;
}.

Definition pskb_may_pull (skb : sk_buff) (len : Z) : bool :=
  (len <=? skb_headlen skb) || ((len <=? zlen (skb_data skb)) && skb_pull_ok skb).

(** The names of the devices, if there are any. *)
Record nf_hook_state := mkHookState { hs_in : option bytes; hs_out : option bytes }.

(** The bytes from the IP header on. *)
Definition ip_hdr (skb : sk_buff) : bytes := drop (Z.to_nat (skb_network_offset skb)) (skb_data skb).

Definition ip_ihl (iph : bytes) : Z := Z.land (byte_val (c_char iph 0)) 15.
Definition ip_protocol (iph : bytes) : Z := byte_val (c_char iph 9).
Definition ip_saddr (iph : bytes) : Z := le_decode (sub_bytes 12 4 iph).
Definition ip_daddr (iph : bytes) : Z := le_decode (sub_bytes 16 4 iph).

Definition sizeof_iphdr : Z := 20.

(** The length of the header of the transport protocol. *)
Definition transport_header (protocol : Z) : Z :=
  if protocol =? IPPROTO_TCP then 20
  else if protocol =? IPPROTO_UDP then 8
  else if protocol =? IPPROTO_ICMP then 8
  else if protocol =? IPPROTO_IGMP then 8
  else 0.

Definition SIPFW_EnsurePacketData (skb : sk_buff) (ip_len protocol : Z) : bool :=
  pskb_may_pull skb (wrap 32 (skb_network_offset skb + ip_len + transport_header protocol)).

Definition SIPFW_IsIfnameMatch (r : sipfw_rules) (state : option nf_hook_state) : bool :=
  let same (dev : option bytes) :=
    match dev with Some name => strncmp_eq 8 (r_ifname r) name | None => false end in
  if (strnlen (r_ifname r) 8 =? 0)%nat then true else
  match state with
  | None => false
  | Some st =>
      if r_chain r =? SIPFW_CHAIN_INPUT then same (hs_in st)
      else if r_chain r =? SIPFW_CHAIN_OUTPUT then same (hs_out st)
      else if r_chain r =? SIPFW_CHAIN_FORWARD then same (hs_in st) || same (hs_out st)
      else false
  end.

Definition SIPFW_IsIPMatch (iph : bytes) (r : sipfw_rules) : bool :=
  ((ip_daddr iph =? r_dest r) || (r_dest r =? 0))
  && ((ip_saddr iph =? r_source r) || (r_source r =? 0))
  && ((ip_protocol iph =? r_protocol r) || (r_protocol r =? 0)).

(** Ports of TCP and UDP, and the flags of TCP: bits 0 (fin), 1 (syn), 2 (rst), 4 (ack) of byte
    13 of the header and of byte 1 of [struct tcp_flag]. *)
Definition th_source (data : bytes) : Z := le_decode (sub_bytes 0 2 data).
Definition th_dest (data : bytes) : Z := le_decode (sub_bytes 2 2 data).
Definition th_flags (data : bytes) : Z := byte_val (c_char data 13).
Definition addtion_flags (r : sipfw_rules) : Z := byte_val (c_char (r_addtion r) 1).

Definition same_bit (a b : Z) (i : Z) : bool := Bool.eqb (Z.testbit a i) (Z.testbit b i).

Definition addtion_valid (r : sipfw_rules) : bool := negb (le_decode (r_addtion r) =? 0).

(** [type] and [code] of [struct icgmp_flag] are the bytes 1 and 2 of the union. *)
Definition icgmp_match (data : bytes) (r : sipfw_rules) : bool :=
  if negb (addtion_valid r) then true
  else bool_decide (c_char (r_addtion r) 1 = c_char data 0) && bool_decide (c_char (r_addtion r) 2 = c_char data 1).

Definition SIPFW_IsAddtionMatch (iph data : bytes) (r : sipfw_rules) : bool :=
  if ip_ihl iph <? 5 then false else
  if ip_protocol iph =? IPPROTO_TCP then
    if (negb (th_source data =? r_sport r) && negb (r_sport r =? 0))
       || (negb (th_dest data =? r_dport r) && negb (r_dport r =? 0)) then false
    else if negb (addtion_valid r) then true
    else same_bit (addtion_flags r) (th_flags data) 4 && same_bit (addtion_flags r) (th_flags data) 0
         && same_bit (addtion_flags r) (th_flags data) 1 && same_bit (addtion_flags r) (th_flags data) 2
  else if ip_protocol iph =? IPPROTO_UDP then
    ((th_source data =? r_sport r) || (r_sport r =? 0)) && ((th_dest data =? r_dport r) || (r_dport r =? 0))
  else if ip_protocol iph =? IPPROTO_ICMP then icgmp_match data r
  else if ip_protocol iph =? IPPROTO_IGMP then icgmp_match data r
  else false.

(** One rule and one packet. *)
Definition rule_matches (iph data : bytes) (state : option nf_hook_state) (r : sipfw_rules) : bool :=
  SIPFW_IsIfnameMatch r state && SIPFW_IsIPMatch iph r && SIPFW_IsAddtionMatch iph data r.

(** The headers can be read: the payload of the IP packet. *)
Definition packet_payload (skb : sk_buff) : option bytes :=
  let iph := ip_hdr skb in
  if negb (pskb_may_pull skb (skb_network_offset skb + sizeof_iphdr)) then None
  else if ip_ihl iph <? 5 then None
  else
    let ip_len := ip_ihl iph * 4 in
    if negb (SIPFW_EnsurePacketData skb ip_len (ip_protocol iph)) then None
    else Some (drop (Z.to_nat ip_len) iph).

Section hooks.
Context `{KernelEnv}.

(** The loop over a snapshot. *)
Fixpoint match_rules (n : nat) (i : nat) (rules : list sipfw_rules) (iph data : bytes)
    (state : option nf_hook_state) : F (option sipfw_rules) :=
  match n with
  | O => mret None
  | S n =>
      match rules !! i with
      | None => fault
      | Some r =>
          if rule_matches iph data state r then mret (Some r) else match_rules n (S i) rules iph data state
      end
  end.

Definition SIPFW_IsMatch (skb : sk_buff) (state : option nf_hook_state) (chain : Z) : F (option sipfw_rules) :=
  match packet_payload skb with
  | None => mret None
  | Some data =>
      l ← get_list chain;
      match l_snapshot l with
      | None => mret None
      | Some a =>
          snapshot ← read_snapshot a;
          match_rules (Z.to_nat (snap_count snapshot)) 0 (snap_rules snapshot) (ip_hdr skb) data state
      end
  end.

Definition NF_ACCEPT : Z := 1.

(** The verdict. *)
Definition SIPFW_ApplyChain (skb : sk_buff) (state : option nf_hook_state) (chain : Z) : F Z :=
  c ← gets cf;
  if negb (Invalid c =? 0) then mret NF_ACCEPT else
  found ← SIPFW_IsMatch skb state chain;
  match found with
  | Some r =>
      let iph := ip_hdr skb in
      SIPFW_LogAppend (ip_saddr iph) (ip_daddr iph) (ip_protocol iph) r;;
      modify (fun s => set_cf (mkConf (DefaultAction (cf s)) (RuleFilePath (cf s)) (LogFilePath (cf s))
        (int32 (HitNumber (cf s) + 1)) (Invalid (cf s)) (LogPause (cf s))) s);;
      mret (r_action r)
  | None => c ← gets cf; mret (DefaultAction c)
  end.

Definition SIPFW_HookLocalIn (skb : sk_buff) (state : option nf_hook_state) : F Z :=
  SIPFW_ApplyChain skb state SIPFW_CHAIN_INPUT.
Definition SIPFW_HookLocaOut (skb : sk_buff) (state : option nf_hook_state) : F Z :=
  SIPFW_ApplyChain skb state SIPFW_CHAIN_OUTPUT.
Definition SIPFW_HookForward (skb : sk_buff) (state : option nf_hook_state) : F Z :=
  SIPFW_ApplyChain skb state SIPFW_CHAIN_FORWARD.

(** The hooks that are not registered. *)
Definition SIPFW_HookPreRouting (skb : sk_buff) (state : option nf_hook_state) : F Z :=
  SIPFW_ApplyChain skb state SIPFW_CHAIN_OUTPUT.
Definition SIPFW_HookPostRouting (skb : sk_buff) (state : option nf_hook_state) : F Z :=
  SIPFW_ApplyChain skb state SIPFW_CHAIN_OUTPUT.

End hooks.

(** ** What a chain means *)

(** The first rule that matches a packet whose headers are complete. *)
Definition first_match (skb : sk_buff) (state : option nf_hook_state) (rs : list sipfw_rules) : option sipfw_rules :=
  match packet_payload skb with
  | Some data => find (rule_matches (ip_hdr skb) data state) rs
  | None => None
  end.

Definition verdict (c : sipfw_conf) (found : option sipfw_rules) : Z :=
  if negb (Invalid c =? 0) then NF_ACCEPT
  else match found with Some r => r_action r | None => DefaultAction c end.

(** The configuration after a packet: hits are counted. *)
Definition count_hit (c : sipfw_conf) (found : option sipfw_rules) : sipfw_conf :=
  if negb (Invalid c =? 0) then c
  else match found with
       | Some _ => mkConf (DefaultAction c) (RuleFilePath c) (LogFilePath c) (int32 (HitNumber c + 1)) (Invalid c) (LogPause c)
       | None => c
       end.

Section verdicts.
Context `{KernelEnv}.

(** Only the file [path] differs. *)
Definition only_file (path : bytes) (s s' : Sipfw) : Prop :=
  exists d k, s' = with_disk s d k /\ forall p, p <> path -> d !! p = disk s !! p.

Lemma only_file_refl path s k : only_file path s (with_disk s (disk s) k).
Proof. by exists (disk s), k. Qed.

Lemma wp_write_line f buf s (Q : Z * file -> Sipfw -> Prop) :
  (forall ret s', only_file (f_path f) s s' -> Q ret s') -> wp (SIPFW_WriteLine f buf) Q s.
Proof.
  intros HQ. assert (Hsame : only_file (f_path f) s s) by (exists (disk s), (ticks s); by destruct s).
  unfold SIPFW_WriteLine. destruct (length buf =? 0)%nat eqn:E; [by apply fwp_ret, HQ|].
  case_bool_decide as Ef; [by apply fwp_ret, HQ|]. unfold SIPFW_KernelWrite.
  rewrite E, bool_decide_false by done. apply fwp_bind, wp_tick, fwp_bind, fwp_gets, fwp_bind, wp_modify, fwp_ret, HQ.
  eexists _, _. split; [done|]. intros p Hp. simpl. by rewrite lookup_insert_ne.
Qed.

Lemma wp_log_append saddr daddr protocol r s (Q : Z -> Sipfw -> Prop) :
  (forall ret s', only_file (LogFilePath (cf s)) s s' -> Q ret s') ->
  wp (SIPFW_LogAppend saddr daddr protocol r) Q s.
Proof.
  intros HQ. apply fwp_bind, fwp_gets.
  case_cond. { apply fwp_ret, HQ. exists (disk s), (ticks s). by destruct s. }
  apply fwp_bind, fwp_bind, wp_tick, fwp_ret. case_cond; [apply fwp_ret, HQ, (only_file_refl _ s)|].
  apply fwp_bind. unfold SIPFW_OpenFile. apply fwp_bind, wp_tick, fwp_bind, fwp_gets.
  case_cond; [apply fwp_ret, fwp_ret, HQ, (only_file_refl _ s)|].
  apply fwp_bind, wp_modify, fwp_ret, fwp_bind, wp_tick, fwp_bind, wp_write_line.
  intros ret s' (d & k & -> & Hd). apply fwp_ret, HQ. exists d, k. split; [done|].
  intros p Hp. cbn [f_path] in Hd. rewrite Hd by done. cbn [disk next_tick set_disk]. by rewrite lookup_insert_ne.
Qed.

Lemma wp_match_rules n i rules iph data state s (Q : option sipfw_rules -> Sipfw -> Prop) :
  (n + i = length rules)%nat -> Q (find (rule_matches iph data state) (drop i rules)) s ->
  wp (match_rules n i rules iph data state) Q s.
Proof.
  revert i. induction n as [|n IH]; intros i Hlen HQ; cbn [match_rules].
  - apply fwp_ret. by rewrite drop_ge in HQ by lia.
  - destruct (lookup_lt_is_Some_2 rules i) as [r Hr]; [lia|]. rewrite Hr, (drop_S _ _ _ Hr) in *. simpl in HQ.
    destruct (rule_matches iph data state r); [by apply fwp_ret|]. apply IH; [lia|done].
Qed.

Lemma wp_is_match skb state i s chains (Q : option sipfw_rules -> Sipfw -> Prop) :
  rep s chains -> bad_chain i = false -> Q (first_match skb state (chain_rules i chains)) s ->
  wp (SIPFW_IsMatch skb state i) Q s.
Proof.
  intros [adss Hm] Hi HQ. unfold SIPFW_IsMatch. unfold first_match in HQ.
  destruct (packet_payload skb) as [data|]; [|by apply fwp_ret]. pose proof (mrep_lists Hm) as Hh.
  destruct (chain_lookup (sipfw_tables s) i (hrep_tables _ _ _ _ Hh) Hi) as [l Hl].
  destruct (chain_lookup chains i (hrep_chains _ _ _ _ Hh) Hi) as [rs Hrs]. unfold chain_rules in HQ. rewrite Hrs in HQ.
  simpl in HQ. destruct (srep_snap _ _ _ _ _ _ (mrep_snaps Hm) _ l rs I Hl Hrs) as [_ Hsn].
  apply fwp_bind, (wp_get_list _ l); [done..|]. destruct (l_snapshot l) as [a|].
  - destruct Hsn as [_ Hsn]. apply fwp_bind. eapply wp_read_snapshot; [done|]. simpl.
    apply wp_match_rules; [unfold zlen; lia|done].
  - apply fwp_ret. by rewrite Hsn in HQ.
Qed.

(** [C22] A hook ends without a fault. While the firewall is enabled its verdict is that of the
    first rule of its chain that matches the packet, or the default action; while it is disabled
    ([Invalid]) the verdict is [NF_ACCEPT] whatever matches. The rules are not changed; a hit is
    counted and can be written to the log. A rule matches only TCP, UDP, ICMP and IGMP packets, also
    when its protocol is 0 ([other_protocols_unmatched]). *)
Theorem apply_chain_verdict s chains skb state i :
  rep s chains -> bad_chain i = false ->
  let found := first_match skb state (chain_rules i chains) in
  exists s', SIPFW_ApplyChain skb state i s = Ret (verdict (cf s) found) s' /\ rep s' chains
    /\ cf s' = count_hit (cf s) found
    /\ (forall p, p <> LogFilePath (cf s) -> disk s' !! p = disk s !! p)
    /\ (found = None -> s' = s).
Proof.
  intros Hrep Hi found.
  assert (wp (SIPFW_ApplyChain skb state i) (fun v s' => v = verdict (cf s) found /\ rep s' chains
    /\ cf s' = count_hit (cf s) found /\ (forall p, p <> LogFilePath (cf s) -> disk s' !! p = disk s !! p)
    /\ (found = None -> s' = s)) s) as Hwp.
  2:{ unfold wp in Hwp. destruct (SIPFW_ApplyChain skb state i s) as [v s'| |]; [|done..].
      destruct Hwp as [-> ?]. by exists s'. }
  apply fwp_bind, fwp_gets. unfold verdict, count_hit. case_cond; [by apply fwp_ret|].
  apply fwp_bind. eapply wp_is_match; [done..|]. fold found. destruct found as [r|].
  - apply fwp_bind, wp_log_append. intros _ s1 (d & k & -> & Hd). apply fwp_bind, wp_modify, fwp_ret.
    split_and!; [done| |done|done|done]. destruct Hrep as [adss Hm]. exists adss. by eapply mrepP_same_memory.
  - apply fwp_bind, fwp_gets, fwp_ret. done.
Qed.

End verdicts.

(** ** Bounds *)

(** A packet as the kernel builds it: its linear part is not longer than the packet. *)
Definition skb_ok (skb : sk_buff) : Prop :=
  0 <= skb_network_offset skb /\ skb_headlen skb <= zlen (skb_data skb) /\ zlen (skb_data skb) < 2 ^ 31
  /\ skb_network_offset skb < 2 ^ 31.

Lemma pulled skb n : skb_ok skb -> pskb_may_pull skb n = true -> n <= zlen (skb_data skb).
Proof. intros (_ & Hh & _) Hp. unfold pskb_may_pull in Hp. apply orb_true_iff in Hp as [Hp|Hp]; bool_norm; lia. Qed.

(** [C25] For a packet as the kernel builds it ([skb_ok]), rules are matched only when the IP header
    and the whole header of the transport protocol are inside the packet: no field is read from
    behind its end. *)
Theorem headers_in_packet skb data :
  skb_ok skb -> packet_payload skb = Some data ->
  sizeof_iphdr <= zlen (ip_hdr skb) /\ 20 <= ip_ihl (ip_hdr skb) * 4
  /\ transport_header (ip_protocol (ip_hdr skb)) <= zlen data
  /\ ip_hdr skb = take (Z.to_nat (ip_ihl (ip_hdr skb) * 4)) (ip_hdr skb) ++ data.
Proof.
  intros Hok Hp. unfold packet_payload in Hp. set (iph := ip_hdr skb) in *.
  destruct (negb (pskb_may_pull skb (skb_network_offset skb + sizeof_iphdr))) eqn:E1; [done|].
  destruct (Z.ltb_spec (ip_ihl iph) 5) as [|E2]; [done|].
  destruct (negb (SIPFW_EnsurePacketData skb (ip_ihl iph * 4) (ip_protocol iph))) eqn:E3; [done|]. simplify_eq.
  bool_norm. apply (pulled _ _ Hok) in E1. unfold SIPFW_EnsurePacketData in E3. apply (pulled _ _ Hok) in E3.
  destruct Hok as (Ho & Hh & Hs & Ho').
  assert (Hihl : ip_ihl iph <= 15).
  { unfold ip_ihl. change 15 with (Z.ones 4). rewrite Z.land_ones by lia.
    pose proof (Z.mod_pos_bound (byte_val (c_char iph 0)) (2 ^ 4)). change (Z.ones 4) with 15. lia. }
  assert (Ht : 0 <= transport_header (ip_protocol iph) <= 20).
  { unfold transport_header. repeat case_cond; lia. }
  rewrite wrap_id in E3 by (unfold fits; lia).
  assert (Hlen : zlen iph = zlen (skb_data skb) - skb_network_offset skb).
  { unfold iph, ip_hdr. unfold zlen, sizeof_iphdr in *. rewrite length_drop. lia. }
  unfold sizeof_iphdr in *. split_and!.
  - lia.
  - lia.
  - unfold zlen in *. rewrite length_drop. lia.
  - by rewrite take_drop.
Qed.

(** ** Protocols *)

(** No rule matches a packet of another protocol than TCP, UDP, ICMP and IGMP, not even one
    without a protocol: such packets get the default action. *)
Theorem other_protocols_unmatched skb state rs c :
  ip_protocol (ip_hdr skb) ∉ [IPPROTO_TCP; IPPROTO_UDP; IPPROTO_ICMP; IPPROTO_IGMP] -> Invalid c = 0 ->
  first_match skb state rs = None /\ verdict c (first_match skb state rs) = DefaultAction c.
Proof.
  intros Hp Hv. assert (E : first_match skb state rs = None).
  { unfold first_match. destruct (packet_payload skb) as [data|]; [|done].
    assert (Hno : forall r, rule_matches (ip_hdr skb) data state r = false).
    { intros r. unfold rule_matches, SIPFW_IsAddtionMatch. apply andb_false_iff. right.
      destruct (ip_ihl (ip_hdr skb) <? 5); [done|].
      rewrite !(proj2 (Z.eqb_neq (ip_protocol (ip_hdr skb)) _)); [done|intros E'; apply Hp; rewrite E'; set_solver..]. }
    induction rs as [|r rs IH]; [done|]. simpl. by rewrite Hno. }
  rewrite E. unfold verdict. by rewrite Hv.
Qed.
