(* ===== verification/SipfwModule.v ===== *)
(** The life of the firewall module (SIPFW/module/sipfw_k.c) and its files in /proc
    (sipfw_k_proc.c). *)
From S2P Require Import Prelude KcpConv Frames Identity Sipfw SipfwFile SipfwNetlink SipfwMatch.

Definition PAGE_SIZE : nat := 4096.

(** The digits of a number in base 10, up to the end or a final newline. *)
Fixpoint parse_digits (acc : Z) (l : bytes) : option Z :=
  match l with
  | [] => Some acc
  | [x0a] => Some acc
  | b :: l => if is_digit b then parse_digits (acc * 10 + (byte_val b - 48)) l else None
  end.

(** [kstrtoint(s, 10, &value)] *)
Definition kstrtoint (s : bytes) : option Z :=
  let '(negative, digits) :=
    match s with
    | x2d :: rest => (true, rest)
    | x2b :: rest => (false, rest)
    | _ => (false, s)
    end in
  match digits with
  | b :: _ =>
      if is_digit b then
        n ← parse_digits 0 digits;
        let v := if negative : bool then - n else n in
        if (- 2 ^ 31 <=? v) && (v <? 2 ^ 31) then Some v else None
      else None
  | [] => None
  end.

Section module.
Context `{KernelEnv}.

(** A call of the kernel that succeeds or fails. *)
Definition kernel_call : F bool := t ← tick; mret (call_ok t).

(** ** /proc *)

(** The result is negative for an error. *)
Definition SIPFW_ProcReadInput (ubuf : bytes) : F Z :=
  pot ← gets cookie_pot;
  match pot with
  | None => mret (- ENOMEM)
  | Some _ =>
      ok ← kernel_call;   (* copy_from_user *)
      if negb ok then mret (- EFAULT) else
      let text := take (PAGE_SIZE - 1) ubuf ++ [x00] in
      modify (fun s => set_module (nlfd s) (Some (strim text)) (proc_dir s) (hooks s) s);;
      mret (zlen ubuf)
  end.

(** What the handlers do with the text they have read. *)
Definition with_input (ubuf : bytes) (k : bytes -> sipfw_conf -> option sipfw_conf) : F Z :=
  ret ← SIPFW_ProcReadInput ubuf;
  if ret <? 0 then mret ret else
  pot ← gets cookie_pot;
  c ← gets cf;
  match k (c_string (default [] pot)) c with
  | Some c => modify (set_cf c);; mret (zlen ubuf)
  | None => mret (- EINVAL)
  end.

Definition SIPFW_ProcLogWrite (ubuf : bytes) : F Z :=
  with_input ubuf (fun text c =>
    value ← kstrtoint text;
    Some (mkConf (DefaultAction c) (RuleFilePath c) (LogFilePath c) (HitNumber c) (Invalid c) value)).

Definition SIPFW_ProcInvalidWrite (ubuf : bytes) : F Z :=
  with_input ubuf (fun text c =>
    value ← kstrtoint text;
    Some (mkConf (DefaultAction c) (RuleFilePath c) (LogFilePath c) (HitNumber c) value (LogPause c))).

(** The first action with this name. *)
Fixpoint action_index (text : bytes) (i : Z) (table : list (bytes * nat * Z)) : option Z :=
  match table with
  | [] => None
  | (name, _, _) :: table => if bool_decide (text = name) then Some i else action_index text (i + 1) table
  end.

Definition SIPFW_ProcActionWrite (ubuf : bytes) : F Z :=
  with_input ubuf (fun text c =>
    i ← action_index text 0 sipfw_action_name;
    Some (mkConf i (RuleFilePath c) (LogFilePath c) (HitNumber c) (Invalid c) (LogPause c))).

(** The end of the handlers of reads: the result and what the process gets.  [text] is what is
    in the buffer, of [size] bytes. *)
Definition proc_reply (size : nat) (text : bytes) (count ppos : Z) : F (Z * bytes) :=
  if decide (size <= length text)%nat then fault else
  let len := Z.min (zlen text) count in
  ok ← kernel_call;   (* copy_to_user *)
  if negb ok then mret (- EFAULT, []) else mret (len, take (Z.to_nat len) text).

(** [sipfw_action_name[cf.DefaultAction].ptr] *)
Definition default_action_name (c : sipfw_conf) : F bytes :=
  match (if DefaultAction c <? 0 then None else sipfw_action_name !! Z.to_nat (DefaultAction c)) with
  | Some (name, _, _) => mret name
  | None => fault
  end.

Definition proc_read (ppos : Z) (body : F (Z * bytes)) : F (Z * bytes) :=
  if 0 <? ppos then mret (0, []) else
  ok ← kmalloc_temporary;
  if negb ok then mret (- ENOMEM, []) else body.

Definition SIPFW_ProcInfoRead (count ppos : Z) : F (Z * bytes) :=
  proc_read ppos (
    c ← gets cf;
    name ← default_action_name c;
    l0 ← get_list 0; l1 ← get_list 1; l2 ← get_list 2;
    proc_reply 1024
      (str "DefaultAction:" ++ name ++ [x0a] ++ str "RulesFile:" ++ RuleFilePath c ++ [x0a]
       ++ str "LogFile:" ++ LogFilePath c ++ [x0a]
       ++ str "RulesNumber:" ++ print_int 0 (int32 (l_number l0 + l_number l1 + l_number l2)) ++ [x0a]
       ++ str "HitNumber:" ++ print_int 0 (HitNumber c) ++ [x0a]
       ++ str "FireWall:" ++ (if Invalid c =? 0 then str "VALID" else str "INVALID") ++ [x0a])
      count ppos).

Definition SIPFW_ProcLogRead (count ppos : Z) : F (Z * bytes) :=
  proc_read ppos (c ← gets cf; proc_reply 64 (print_int 0 (LogPause c) ++ [x0a]) count ppos).

Definition SIPFW_ProcActionRead (count ppos : Z) : F (Z * bytes) :=
  proc_read ppos (c ← gets cf; name ← default_action_name c; proc_reply 64 (name ++ [x0a]) count ppos).

(** [scnprintf] is told the size of a pointer. *)
Definition SIPFW_ProcInvalidRead (count ppos : Z) : F (Z * bytes) :=
  proc_read ppos (
    c ← gets cf;
    let text := (if Invalid c =? 0 then str "VALID" else str "INVALID") ++ [x0a] in
    proc_reply 64 (take 7 text) count ppos).

(** ** Start and end *)

Definition SIPFW_NLCreate : F Z :=
  ok ← kernel_call;
  if (ok : bool) then modify (fun s => set_module true (cookie_pot s) (proc_dir s) (hooks s) s);; mret 0
  else mret (-1).

Definition SIPFW_NLDestory : F Z :=
  modify (fun s => set_module false (cookie_pot s) (proc_dir s) (hooks s) s);; mret 0.

(** The four files; whether all could be created. *)
Fixpoint proc_create_files (n : nat) : F bool :=
  match n with
  | O => mret true
  | S n => ok ← kernel_call; if (ok : bool) then proc_create_files n else mret false
  end.

Definition SIPFW_Proc_Init : F Z :=
  ok ← kmalloc_temporary;   (* vzalloc *)
  if negb ok then mret (- ENOMEM) else
  modify (fun s => set_module (nlfd s) (Some (replicate PAGE_SIZE x00)) (proc_dir s) (hooks s) s);;
  ok ← kernel_call;
  if negb ok then
    modify (fun s => set_module (nlfd s) None (proc_dir s) (hooks s) s);; mret (- ENOMEM)
  else
    modify (fun s => set_module (nlfd s) (cookie_pot s) true (hooks s) s);;
    ok ← proc_create_files 4;
    if (ok : bool) then mret 0
    else modify (fun s => set_module (nlfd s) None false (hooks s) s);; mret (- ENOMEM).

Definition SIPFW_Proc_CleanUp : F unit :=
  modify (fun s => set_module (nlfd s) None false (hooks s) s).

Definition empty_list : sipfw_list := mkList None None 0.

(** The second half of [SIPFW_Init]: the interfaces are registered one after the other, and
    taken back when one of them fails. *)
Definition start_interfaces : F Z :=
  ret ← SIPFW_NLCreate;
  if negb (ret =? 0) then mret ret else
  ret ← SIPFW_Proc_Init;
  if negb (ret =? 0) then SIPFW_NLDestory;; mret ret else
  ok ← kernel_call;   (* nf_register_net_hooks *)
  if (ok : bool) then
    modify (fun s => set_module (nlfd s) (cookie_pot s) (proc_dir s) true s);; mret 0
  else SIPFW_Proc_CleanUp;; SIPFW_NLDestory;; mret (- ENOMEM).

(** [fuel] bounds the loop over the configuration file, [stack] is its buffer at first. *)
Definition SIPFW_Init (fuel : nat) (stack : bytes) : F Z :=
  modify (set_tables [empty_list; empty_list; empty_list]);;
  SIPFW_HandleConf fuel stack;;
  SIPFW_LoadRuleFile;;
  start_interfaces.

(** [rcu_barrier]: all callbacks have run. *)
Fixpoint rcu_barrier (fuel : nat) : F unit :=
  waiting ← gets rcu;
  match waiting, fuel with
  | [], _ => mret tt
  | _ :: _, O => hang
  | _ :: _, S fuel => SIPFW_FreeRuleSnapshotRcu;; rcu_barrier fuel
  end.

Definition SIPFW_Exit : F unit :=
  modify (fun s => set_module (nlfd s) (cookie_pot s) (proc_dir s) false s);;
  SIPFW_NLDestory;;
  SIPFW_Proc_CleanUp;;
  SIPFW_ListDestroy;;
  n ← gets (fun s => length (rcu s));
  rcu_barrier n.

End module.
