(* ===== verification/SipfwModuleProofs.v ===== *)
(** The life of the firewall module: start, any sequence of packets, commands and accesses to
    /proc, and end. *)
From S2P Require Import Prelude KcpConv Frames Identity Sipfw SipfwHeap SipfwRules SipfwProofs SipfwFile SipfwLoad SipfwNetlink SipfwNetlinkProofs SipfwMatch SipfwModule.

(** ** The configuration *)

Definition conf_ok (c : sipfw_conf) : Prop :=
  0 <= DefaultAction c < SIPFW_ACTION_NUM /\ (length (RuleFilePath c) <= 255)%nat /\ (length (LogFilePath c) <= 255)%nat.

Lemma conf_ok_default : conf_ok default_conf.
Proof. split_and!; [done|done|apply Nat.leb_le; reflexivity..]. Qed.

Lemma conf_ok_hit c found : conf_ok c -> conf_ok (count_hit c found).
Proof. intros Hc. unfold count_hit. case_cond; [done|]. by destruct found. Qed.

Lemma action_index_range text i table j : action_index text i table = Some j -> i <= j < i + zlen table.
Proof.
  revert i. induction table as [|[[name len] v] table IH]; intros i; cbn [action_index]; [done|]. rewrite zlen_cons.
  pose proof (zlen_nonneg table). case_bool_decide; [intros [= <-]; lia|]. intros Hj%IH. lia.
Qed.

Section module.
Context `{KernelEnv}.

(** ** The configuration file *)

(** What [SIPFW_ReadLine] returns is never negative for a file that can be read. *)
Definition line_read (r : Res (Z * bytes * file)) : Prop :=
  match r with
  | Ret (count, _, f) _ => 0 <= count /\ f_flags f = ReadOnly
  | Fault => False
  | Hang => True
  end.

Lemma read_chars_flags fuel f buf pos count len s :
  f_flags f = ReadOnly ->
  match read_chars fuel f buf pos count len s with
  | Ret (_, _, _, f') _ => f_flags f' = ReadOnly
  | Fault => False
  | Hang => True
  end.
Proof.
  revert f buf pos count s. induction fuel as [|fuel IH]; intros f buf pos count s Hf; [done|].
  cbn [read_chars]. unfold mbind, F_bind, gets. case_cond; [|done].
  unfold SIPFW_KernelRead. simpl (1 =? 0)%nat. cbv iota. rewrite bool_decide_false by congruence.
  unfold mbind, F_bind, tick, gets, mret, F_ret. cbv zeta. case_cond; [done|]. by apply IH.
Qed.

Lemma read_line_nonnegative f buf s : f_flags f = ReadOnly -> line_read (SIPFW_ReadLine f buf 256 s).
Proof.
  intros Hf. unfold SIPFW_ReadLine. change (256 <=? 1)%nat with false. cbv iota. rewrite bool_decide_false by congruence.
  unfold SIPFW_KernelRead. change (1 =? 0)%nat with false. cbv iota. rewrite bool_decide_false by congruence.
  unfold mbind at 1, F_bind at 1. unfold mbind at 1, F_bind at 1, tick. unfold mbind at 1, F_bind at 1, gets, mret at 1, F_ret at 1.
  cbv zeta. case_cond; [done|]. case_bool_decide; [done|]. unfold mbind, F_bind.
  match goal with |- context [read_chars ?a ?b ?c ?d ?e ?g ?h] =>
    pose proof (read_chars_flags a b c d e g h Hf) as Hr; destruct (read_chars a b c d e g h) as [[[[b' p'] c'] f'] s'| |] end;
    [|done..].
  case_bool_decide; simpl; (split; [|done]); [|lia]. destruct (Nat.ltb_spec 0 c'); lia.
Qed.

Lemma conf_loop_hangs fuel f line s : f_flags f = ReadOnly -> conf_loop fuel f line s = Hang.
Proof.
  revert f line s. induction fuel as [|fuel IH]; intros f line s Hf; [done|]. cbn [conf_loop].
  pose proof (read_line_nonnegative f line s Hf) as Hr. unfold mbind, F_bind.
  destruct (SIPFW_ReadLine f line 256 s) as [[[count line'] f'] s'| |]; [|done..].
  destruct Hr as [Hc Hf']. rewrite (proj2 (Z.leb_le 0 count)) by done. by apply IH.
Qed.

(** When the configuration file can be opened, the loop over its lines never ends: the end of
    the file reads as an empty line.  So the module does not start. *)
Theorem conf_file_hangs fuel stack s text :
  disk s !! str "/etc/sipfw.conf" = Some text -> vfs_open (ticks s) = true ->
  SIPFW_HandleConf fuel stack s = Hang /\ SIPFW_Init fuel stack s = Hang.
Proof.
  intros Hd Ho.
  assert (Hh : forall s', disk s' = disk s -> ticks s' = ticks s -> SIPFW_HandleConf fuel stack s' = Hang).
  { intros s' Ed Et. unfold SIPFW_HandleConf, SIPFW_OpenFile. unfold mbind, F_bind, tick, gets. cbn [disk next_tick].
    rewrite Ed, Et, Ho, Hd. by apply conf_loop_hangs. }
  split; [by apply Hh|]. unfold SIPFW_Init. unfold mbind at 1, F_bind at 1, modify. unfold mbind at 1, F_bind at 1.
  by rewrite Hh.
Qed.

(** ** Grace periods *)

Lemma wp_free_rcu s chains (Q : unit -> Sipfw -> Prop) :
  rep s chains ->
  (forall s', memory_only s s' -> rep s' chains -> heap s' = heap s -> sipfw_tables s' = sipfw_tables s ->
     rcu s' = tail (rcu s) -> Q tt s') ->
  wp SIPFW_FreeRuleSnapshotRcu Q s.
Proof.
  intros [adss [Hh [H1 H2 H3] Ho]] HQ. unfold wp, SIPFW_FreeRuleSnapshotRcu. destruct (rcu s) as [|a w] eqn:Er.
  - apply HQ; try done; [apply memory_only_refl|]. exists adss. split; [done| |done]. rewrite Er. by split.
  - simpl in H2, H3.
    assert (Hperm : omap l_snapshot (sipfw_tables s) ++ a :: w ≡ₚ a :: omap l_snapshot (sipfw_tables s) ++ w) by solve_Permutation.
    rewrite Hperm in H2. apply NoDup_cons in H2 as [Hout H2].
    assert (is_Some (snaps s !! a)) as [v Hv].
    { apply elem_of_dom. rewrite H3. apply elem_of_list_to_set. set_solver. }
    rewrite Hv. apply HQ; [by eexists _, _, _, _, _| |done|done|done]. exists adss. split; [done| |done].
    split; simpl.
    + intros j l rs _ Hl Hrs. destruct (H1 j l rs I Hl Hrs) as [Hn Hsn]. split; [done|].
      destruct (l_snapshot l) as [b|] eqn:Hb; [|done]. rewrite lookup_delete_ne; [done|]. intros ->.
      apply Hout, elem_of_app. left. apply list_elem_of_omap. exists l. split; [by eapply list_elem_of_lookup_2|done].
    + done.
    + rewrite dom_delete_L, H3, (list_to_set_perm_L _ _ Hperm). simpl. apply set_eq. intros b.
      rewrite elem_of_difference, elem_of_union, !elem_of_singleton, elem_of_list_to_set. split; [tauto|].
      intros Hb. split; [by right|]. by intros ->.
Qed.

Lemma wp_rcu_barrier fuel s chains (Q : unit -> Sipfw -> Prop) :
  rep s chains -> (length (rcu s) <= fuel)%nat ->
  (forall s', memory_only s s' -> rep s' chains -> heap s' = heap s -> rcu s' = [] -> Q tt s') ->
  wp (rcu_barrier fuel) Q s.
Proof.
  revert s. induction fuel as [|fuel IH]; intros s Hrep Hlen HQ; cbn [rcu_barrier]; apply fwp_bind, fwp_gets.
  - destruct (rcu s) eqn:E; [|simpl in Hlen; lia]. apply fwp_ret, HQ; [apply memory_only_refl|done..].
  - destruct (rcu s) as [|a w] eqn:E; [apply fwp_ret, HQ; [apply memory_only_refl|done..]|].
    apply fwp_bind. eapply wp_free_rcu; [done|]. intros s1 Hs1 Hr1 Hh1 _ Hw1. rewrite E in Hw1. simpl in Hw1, Hlen.
    eapply IH; [done|rewrite Hw1; lia|]. intros s2 Hs2 Hr2 Hh2 Hw2.
    apply HQ; [by eapply memory_only_trans|done|congruence|done].
Qed.

(** An empty module has no memory left once the grace periods have ended. *)
Lemma rep_no_rules s : rep s no_rules -> rcu s = [] -> heap s = ∅ /\ snaps s = ∅.
Proof.
  intros [adss [Hh [H1 _ H3] Ho]] Hr. split.
  - apply dom_empty_inv_L, set_eq. intros a. rewrite (owned_dom _ _ _ Ho). split; [|set_solver].
    intros [(i & ads & Hi & Ha)|Ha]; [|done].
    assert (Hl3 : (i < 3)%nat) by (rewrite <- (hrep_addrs _ _ _ _ Hh); by eapply lookup_lt_Some).
    destruct (lookup_lt_is_Some_2 (sipfw_tables s) i) as [l Hl]; [by rewrite (hrep_tables _ _ _ _ Hh)|].
    assert (Hrs : no_rules !! i = Some []) by (destruct i as [|[|[|]]]; [done..|lia]).
    pose proof (hrep_list _ _ _ _ Hh _ _ _ _ Hl Hi Hrs) as Hrep. inversion Hrep; subst. by apply not_elem_of_nil in Ha.
  - apply dom_empty_inv_L. rewrite H3, Hr. simpl. rewrite app_nil_r.
    assert (omap l_snapshot (sipfw_tables s) = []) as ->; [|done].
    destruct (omap l_snapshot (sipfw_tables s)) as [|a w] eqn:E; [done|]. exfalso.
    assert (a ∈ omap l_snapshot (sipfw_tables s)) as (l & Hin & Ha)%list_elem_of_omap by (rewrite E; set_solver).
    apply list_elem_of_lookup in Hin as [i Hl].
    assert (Hl3 : (i < 3)%nat) by (rewrite <- (hrep_tables _ _ _ _ Hh); by eapply lookup_lt_Some).
    assert (Hrs : no_rules !! i = Some []) by (destruct i as [|[|[|]]]; [done..|lia]).
    destruct (H1 i l [] I Hl Hrs) as [_ Hsn]. rewrite Ha in Hsn. by destruct Hsn.
Qed.

(** ** The end of the module *)

Lemma wp_exit s chains (Q : unit -> Sipfw -> Prop) :
  rep s chains ->
  (forall s', heap s' = ∅ -> snaps s' = ∅ -> rcu s' = [] -> nlfd s' = false -> cookie_pot s' = None ->
     proc_dir s' = false -> hooks s' = false -> disk s' = disk s -> Q tt s') ->
  wp SIPFW_Exit Q s.
Proof.
  intros [adss Hm] HQ. apply fwp_bind, wp_modify, fwp_bind, fwp_bind, wp_modify, fwp_ret, fwp_bind, wp_modify, fwp_bind.
  eapply wp_mono; [eapply (list_destroy_refines every_chain); by eapply mrepP_same_memory|].
  intros ret s1 (_ & Hr1 & (h & n & r & t & k & ->)). apply fwp_bind, fwp_gets. eapply wp_rcu_barrier; [done|done|].
  intros s2 (h2 & n2 & r2 & t2 & k2 & ->) Hr2 _ Hw2. destruct (rep_no_rules _ Hr2 Hw2) as [Hh Hn]. by apply HQ.
Qed.

(** ** /proc *)

(** The module runs: it holds well-formed rules, and its configuration is in order. *)
Definition running (s : Sipfw) (chains : list (list sipfw_rules)) : Prop :=
  rep s chains /\ wf_chains chains /\ conf_ok (cf s).

Lemma rep_same_memory s s' chains :
  rep s chains -> heap s' = heap s -> snaps s' = snaps s -> rcu s' = rcu s -> sipfw_tables s' = sipfw_tables s ->
  rep s' chains.
Proof. intros [adss Hm] ????. exists adss. by eapply mrepP_same_memory. Qed.

(** A state with the same memory and a configuration in order. *)
Ltac still_running :=
  split_and!; [eapply rep_same_memory; [eassumption|reflexivity..]|assumption|assumption].

Lemma wp_with_input ubuf k s chains (Q : Z -> Sipfw -> Prop) :
  running s chains -> (forall text c c', k text c = Some c' -> conf_ok c -> conf_ok c') ->
  (forall ret s', running s' chains -> disk s' = disk s -> Q ret s') -> wp (with_input ubuf k) Q s.
Proof.
  intros (Hr & Hwf & Hc) Hk HQ. apply fwp_bind. unfold SIPFW_ProcReadInput. apply fwp_bind, fwp_gets.
  destruct (cookie_pot s) as [pot|].
  2:{ apply fwp_ret. change (- ENOMEM <? 0) with true. cbv iota. by apply fwp_ret, HQ. }
  apply fwp_bind, fwp_bind, wp_tick, fwp_ret. case_cond.
  { apply fwp_ret. change (- EFAULT <? 0) with true. cbv iota. apply fwp_ret, HQ; [still_running|reflexivity]. }
  apply fwp_bind, wp_modify, fwp_ret. rewrite (proj2 (Z.ltb_ge _ _)) by apply zlen_nonneg.
  apply fwp_bind, fwp_gets, fwp_bind, fwp_gets.
  match goal with |- context [k ?t ?c] => destruct (k t c) as [c'|] eqn:E' end.
  - apply fwp_bind, wp_modify, fwp_ret, HQ; [|reflexivity]. apply Hk in E'; [|assumption]. still_running.
  - apply fwp_ret, HQ; [still_running|reflexivity].
Qed.

Lemma fw_length_to_string_loop fuel z acc : (length (to_string_loop fuel z acc) <= fuel + length acc)%nat.
Proof.
  revert z acc. induction fuel as [|fuel IH]; intros z acc; cbn [to_string_loop]; [lia|]. case_cond; [simpl; lia|].
  eapply Nat.le_trans; [apply IH|]. simpl. lia.
Qed.

Lemma length_print_int z : (length (print_int 0 z) <= 21)%nat.
Proof.
  unfold print_int. rewrite !length_app, length_replicate. pose proof (fw_length_to_string_loop 20 (Z.abs z) []) as Hl.
  change (length (@nil byte)) with 0%nat in Hl. fold (to_string (Z.abs z)) in Hl.
  destruct (z <? 0); cbn [length]; lia.
Qed.

Lemma wp_proc_reply size text count ppos s (Q : Z * bytes -> Sipfw -> Prop) :
  (length text < size)%nat -> (forall r, Q r (next_tick s)) -> wp (proc_reply size text count ppos) Q s.
Proof.
  intros Hlen HQ. unfold proc_reply. rewrite decide_False by lia. apply fwp_bind, fwp_bind, wp_tick, fwp_ret.
  case_cond; apply fwp_ret, HQ.
Qed.

Lemma wp_proc_read ppos body s chains (Q : Z * bytes -> Sipfw -> Prop) :
  running s chains -> (forall r s', running s' chains -> disk s' = disk s -> Q r s') ->
  (forall s', running s' chains -> disk s' = disk s -> cf s' = cf s -> wp body Q s') -> wp (proc_read ppos body) Q s.
Proof.
  intros Hrun HQ Hbody. unfold proc_read. case_cond; [by apply fwp_ret, HQ|]. apply fwp_bind, fwp_bind, wp_tick, fwp_ret.
  destruct Hrun as (Hr & Hwf & Hc).
  assert (running (next_tick s) chains) by still_running.
  case_cond; [by apply fwp_ret, HQ|by apply Hbody].
Qed.

Lemma wp_action_name c s (Q : bytes -> Sipfw -> Prop) :
  conf_ok c -> (forall name, (length name <= 6)%nat -> Q name s) -> wp (default_action_name c) Q s.
Proof.
  intros ([H1 H2] & _) HQ. unfold default_action_name. rewrite (proj2 (Z.ltb_ge _ _)) by done.
  unfold SIPFW_ACTION_NUM in H2. assert (Hk : (Z.to_nat (DefaultAction c) < 6)%nat) by lia.
  revert Hk. generalize (Z.to_nat (DefaultAction c)). intros k Hk.
  do 6 (destruct k as [|k]; [apply fwp_ret, HQ; simpl; lia|]). lia.
Qed.

Lemma running_tick s chains : running s chains -> running (next_tick s) chains.
Proof. intros (Hr & Hwf & Hc). still_running. Qed.

(** The buffer of the information file is large enough for every state. *)
Lemma wp_info_read count ppos s chains (Q : Z * bytes -> Sipfw -> Prop) :
  running s chains -> (forall r s', running s' chains -> disk s' = disk s -> Q r s') ->
  wp (SIPFW_ProcInfoRead count ppos) Q s.
Proof.
  intros Hrun HQ. eapply wp_proc_read; [done|done|]. intros s1 Hrun1 Hd1 Hc1. apply fwp_bind, fwp_gets, fwp_bind.
  pose proof Hrun1 as (Hr & _ & Hc). apply wp_action_name; [done|]. intros name Hname.
  destruct Hr as [adss Hm]. pose proof (hrep_tables _ _ _ _ (mrep_lists Hm)) as Ht.
  destruct (chain_lookup _ 0 Ht eq_refl) as [l0 H0]. destruct (chain_lookup _ 1 Ht eq_refl) as [l1 H1].
  destruct (chain_lookup _ 2 Ht eq_refl) as [l2 H2].
  apply fwp_bind, (wp_get_list _ l0); [done..|]. apply fwp_bind, (wp_get_list _ l1); [done..|].
  apply fwp_bind, (wp_get_list _ l2); [done..|]. apply wp_proc_reply.
  - rewrite !length_app. destruct Hc as (_ & Hp & Hl).
    pose proof (length_print_int (int32 (l_number l0 + l_number l1 + l_number l2))).
    pose proof (length_print_int (HitNumber (cf s1))).
    set (a := length (print_int 0 (int32 _))) in *. set (b := length (print_int 0 (HitNumber _))) in *.
    change (length (str "DefaultAction:")) with 14%nat. change (length (str "RulesFile:")) with 10%nat.
    change (length (str "LogFile:")) with 8%nat. change (length (str "RulesNumber:")) with 12%nat.
    change (length (str "HitNumber:")) with 10%nat. change (length (str "FireWall:")) with 9%nat.
    change (length [x0a]) with 1%nat.
    assert (Hv : (length (if (Invalid (cf s1) =? 0)%Z then str "VALID" else str "INVALID") <= 7)%nat)
      by (case_cond; simpl; lia).
    lia.
  - intros r. apply HQ; [by apply running_tick|done].
Qed.

Lemma wp_log_read count ppos s chains (Q : Z * bytes -> Sipfw -> Prop) :
  running s chains -> (forall r s', running s' chains -> disk s' = disk s -> Q r s') ->
  wp (SIPFW_ProcLogRead count ppos) Q s.
Proof.
  intros Hrun HQ. eapply wp_proc_read; [done|done|]. intros s1 Hrun1 Hd1 Hc1. apply fwp_bind, fwp_gets, wp_proc_reply.
  - rewrite length_app. pose proof (length_print_int (LogPause (cf s1))). change (length [x0a]) with 1%nat. lia.
  - intros r. apply HQ; [by apply running_tick|done].
Qed.

Lemma wp_action_read count ppos s chains (Q : Z * bytes -> Sipfw -> Prop) :
  running s chains -> (forall r s', running s' chains -> disk s' = disk s -> Q r s') ->
  wp (SIPFW_ProcActionRead count ppos) Q s.
Proof.
  intros Hrun HQ. eapply wp_proc_read; [done|done|]. intros s1 Hrun1 Hd1 Hc1. apply fwp_bind, fwp_gets, fwp_bind.
  apply wp_action_name; [apply Hrun1|]. intros name Hname. apply wp_proc_reply.
  - rewrite length_app. change (length [x0a]) with 1%nat. lia.
  - intros r. apply HQ; [by apply running_tick|done].
Qed.

Lemma wp_invalid_read count ppos s chains (Q : Z * bytes -> Sipfw -> Prop) :
  running s chains -> (forall r s', running s' chains -> disk s' = disk s -> Q r s') ->
  wp (SIPFW_ProcInvalidRead count ppos) Q s.
Proof.
  intros Hrun HQ. eapply wp_proc_read; [done|done|]. intros s1 Hrun1 Hd1 Hc1. apply fwp_bind, fwp_gets, wp_proc_reply.
  - rewrite length_take. lia.
  - intros r. apply HQ; [by apply running_tick|done].
Qed.

(** ** Events *)

Inductive hook := LocalIn | LocalOut | Forward.

Inductive event :=
| EvPacket (h : hook) (skb : sk_buff) (state : option nf_hook_state)
| EvMessage (skb : bytes)
| EvActionWrite (ubuf : bytes)
| EvLogWrite (ubuf : bytes)
| EvInvalidWrite (ubuf : bytes)
| EvInfoRead (count ppos : Z)
| EvActionRead (count ppos : Z)
| EvLogRead (count ppos : Z)
| EvInvalidRead (count ppos : Z)
| EvGracePeriod.

Definition run_event (e : event) : F unit :=
  match e with
  | EvPacket LocalIn skb st => SIPFW_HookLocalIn skb st;; mret tt
  | EvPacket LocalOut skb st => SIPFW_HookLocaOut skb st;; mret tt
  | EvPacket Forward skb st => SIPFW_HookForward skb st;; mret tt
  | EvMessage skb => SIPFW_NLRecv skb
  | EvActionWrite ubuf => SIPFW_ProcActionWrite ubuf;; mret tt
  | EvLogWrite ubuf => SIPFW_ProcLogWrite ubuf;; mret tt
  | EvInvalidWrite ubuf => SIPFW_ProcInvalidWrite ubuf;; mret tt
  | EvInfoRead count ppos => SIPFW_ProcInfoRead count ppos;; mret tt
  | EvActionRead count ppos => SIPFW_ProcActionRead count ppos;; mret tt
  | EvLogRead count ppos => SIPFW_ProcLogRead count ppos;; mret tt
  | EvInvalidRead count ppos => SIPFW_ProcInvalidRead count ppos;; mret tt
  | EvGracePeriod => SIPFW_FreeRuleSnapshotRcu
  end.

Fixpoint run_events (es : list event) : F unit :=
  match es with
  | [] => mret tt
  | e :: es => run_event e;; run_events es
  end.

(** How many bytes of commands an event brings. *)
Definition event_size (e : event) : Z := match e with EvMessage skb => zlen skb | _ => 0 end.
Definition events_size (es : list event) : Z := foldr (fun e n => event_size e + n) 0 es.

Lemma events_size_nonneg es : 0 <= events_size es.
Proof. induction es as [|e es IH]; simpl; [lia|]. destruct e; simpl; try lia. pose proof (zlen_nonneg skb). lia. Qed.

Lemma wp_apply_chain skb state i s chains (Q : Z -> Sipfw -> Prop) :
  bad_chain i = false -> running s chains -> (forall v s', running s' chains -> Q v s') ->
  wp (SIPFW_ApplyChain skb state i) Q s.
Proof.
  intros Hi (Hrep & Hwf & Hc) HQ. apply fwp_bind, fwp_gets. case_cond; [by apply fwp_ret, HQ|]. apply fwp_bind.
  eapply wp_is_match; [done..|]. destruct (first_match _ _ _) as [r|]; [|by apply fwp_bind, fwp_gets, fwp_ret, HQ].
  apply fwp_bind, wp_log_append. intros _ s1 (d & k & -> & Hd). apply fwp_bind, wp_modify, fwp_ret, HQ.
  split_and!; [eapply rep_same_memory; [eassumption|reflexivity..]|assumption|]. exact Hc.
Qed.

Lemma wp_event e n s chains :
  running s chains -> room (event_size e + n) chains -> 0 <= n ->
  wp (run_event e) (fun _ s' => exists chains', running s' chains' /\ room n chains') s.
Proof.
  intros Hrun Hroom Hn.
  assert (Hsame : event_size e = 0 -> forall (A : Type) (m : F A),
    (forall Q : A -> Sipfw -> Prop, (forall r s', running s' chains -> Q r s') -> wp m Q s) ->
    wp (m;; mret tt) (fun _ s' => exists chains', running s' chains' /\ room n chains') s).
  { intros Hz A m Hm. apply fwp_bind, Hm. intros r s' Hr. apply fwp_ret. exists chains. split; [done|].
    eapply room_less; [done|lia]. }
  destruct e as [[] skb st|skb|ubuf|ubuf|ubuf|c p|c p|c p|c p|]; cbn [run_event].
  - apply Hsame; [done|]. intros Q. by apply wp_apply_chain.
  - apply Hsame; [done|]. intros Q. by apply wp_apply_chain.
  - apply Hsame; [done|]. intros Q. by apply wp_apply_chain.
  - destruct Hrun as (Hr & Hwf & Hc). eapply wp_mono.
    { eapply (wp_recv_messages n); [|done|done| |done]; [lia|]. eapply room_less; [done|]. simpl. lia. }
    intros [] s' (c' & Hr' & Hwf' & Hroom' & Hs'). exists c'. split_and!; [split_and!|]; try done.
    destruct Hs' as (-> & _). done.
  - apply Hsame; [done|]. intros Q HQ. eapply wp_with_input; [done| |eauto]. intros text c c'.
    intros (j & Hj%action_index_range & [= <-])%bind_Some (_ & H2 & H3). change (zlen sipfw_action_name) with 6 in Hj.
    unfold conf_ok, SIPFW_ACTION_NUM. simpl. lia.
  - apply Hsame; [done|]. intros Q HQ. eapply wp_with_input; [done| |eauto]. intros text c c'.
    by intros (v & _ & [= <-])%bind_Some ?.
  - apply Hsame; [done|]. intros Q HQ. eapply wp_with_input; [done| |eauto]. intros text c c'.
    by intros (v & _ & [= <-])%bind_Some ?.
  - apply Hsame; [done|]. intros Q HQ. eapply wp_info_read; eauto.
  - apply Hsame; [done|]. intros Q HQ. eapply wp_action_read; eauto.
  - apply Hsame; [done|]. intros Q HQ. eapply wp_log_read; eauto.
  - apply Hsame; [done|]. intros Q HQ. eapply wp_invalid_read; eauto.
  - destruct Hrun as (Hr & Hwf & Hc). eapply wp_free_rcu; [done|]. intros s' Hs' Hr' _ _ _. exists chains.
    split; [|eapply room_less; [done|simpl; lia]]. split_and!; [done..|]. by destruct Hs' as (? & ? & ? & ? & ? & ->).
Qed.

Lemma wp_run_events es s chains (Q : unit -> Sipfw -> Prop) :
  running s chains -> room (events_size es) chains ->
  (forall s' chains', running s' chains' -> Q tt s') -> wp (run_events es) Q s.
Proof.
  revert s chains. induction es as [|e es IH]; intros s chains Hrun Hroom HQ; [by eapply fwp_ret, HQ|].
  cbn [run_events]. apply fwp_bind. eapply wp_mono; [eapply (wp_event e (events_size es)); [done|done|apply events_size_nonneg]|].
  intros [] s1 (c1 & Hrun1 & Hroom1). by eapply IH.
Qed.

(** ** The start of the module *)

(** The module has just been loaded: nothing is allocated, and there is no configuration file. *)
Definition unloaded (s : Sipfw) : Prop :=
  heap s = ∅ /\ snaps s = ∅ /\ rcu s = [] /\ cf s = default_conf
  /\ (nlfd s, cookie_pot s, proc_dir s, hooks s) = (false, None, false, false)
  /\ disk s !! str "/etc/sipfw.conf" = None
  /\ zlen (contents (RuleFilePath (cf s)) s) < 2 ^ 31 - 1.

(** What is registered with the kernel. *)
Definition registered (s : Sipfw) : bool * bool * bool * bool :=
  (nlfd s, match cookie_pot s with Some _ => true | None => false end, proc_dir s, hooks s).

Lemma wp_proc_create n (Q : bool -> Sipfw -> Prop) s :
  (forall b k, Q b (mem s (heap s) (snaps s) (rcu s) (sipfw_tables s) k)) -> wp (proc_create_files n) Q s.
Proof.
  assert (Hgen : forall k0, (forall b k, Q b (mem s (heap s) (snaps s) (rcu s) (sipfw_tables s) k)) ->
    wp (proc_create_files n) Q (mem s (heap s) (snaps s) (rcu s) (sipfw_tables s) k0)).
  { induction n as [|n IH]; intros k0 HQ; cbn [proc_create_files]; [by apply fwp_ret|].
    apply fwp_bind, fwp_bind, wp_tick, fwp_ret. destruct (call_ok _); [by apply (IH (S k0))|]. apply fwp_ret, (HQ false (S k0)). }
  intros HQ. rewrite (mem_id s). by apply Hgen.
Qed.

(** All of the interfaces are registered or none. *)
Lemma wp_start_interfaces s (Q : Z -> Sipfw -> Prop) :
  registered s = (false, false, false, false) ->
  (forall ret s', heap s' = heap s -> snaps s' = snaps s -> rcu s' = rcu s -> sipfw_tables s' = sipfw_tables s ->
     cf s' = cf s -> disk s' = disk s ->
     registered s' = (if ret =? 0 then (true, true, true, true) else (false, false, false, false)) -> Q ret s') ->
  wp start_interfaces Q s.
Proof.
  unfold registered at 1. intros Hreg HQ. injection Hreg as E1 E2 E3 E4.
  apply fwp_bind, fwp_bind, fwp_bind, wp_tick, fwp_ret. destruct (call_ok _).
  2:{ apply fwp_ret, fwp_ret, HQ; try done. unfold registered. cbn. by rewrite E1, E2, E3, E4. }
  apply fwp_bind, wp_modify, fwp_ret. simpl negb. cbv iota. apply fwp_bind. unfold SIPFW_Proc_Init.
  apply fwp_bind, fwp_bind, wp_tick, fwp_ret. destruct (kmem_ok _); simpl negb; cbv iota.
  2:{ apply fwp_ret. apply fwp_bind, fwp_bind, wp_modify, fwp_ret, fwp_ret, HQ; try done.
      unfold registered. cbn. by rewrite E2, E3, E4. }
  apply fwp_bind, wp_modify, fwp_bind, fwp_bind, wp_tick, fwp_ret. destruct (call_ok _); simpl negb; cbv iota.
  2:{ apply fwp_bind, wp_modify, fwp_ret. apply fwp_bind, fwp_bind, wp_modify, fwp_ret, fwp_ret, HQ; try done.
      unfold registered. cbn. by rewrite E3, E4. }
  apply fwp_bind, wp_modify, fwp_bind, wp_proc_create. intros b k. destruct b.
  2:{ apply fwp_bind, wp_modify, fwp_ret. apply fwp_bind, fwp_bind, wp_modify, fwp_ret, fwp_ret, HQ; try done.
      unfold registered. cbn. by rewrite E4. }
  apply fwp_ret, fwp_bind, fwp_bind, wp_tick, fwp_ret. destruct (call_ok _).
  - apply fwp_bind, wp_modify, fwp_ret, HQ; done.
  - apply fwp_bind, wp_modify, fwp_bind, fwp_bind, wp_modify, fwp_ret, fwp_ret, HQ; try done.
    unfold registered. cbn. by rewrite E4.
Qed.

(** The rules of the file are loaded, or none. *)
Lemma wp_init fuel stack s (Q : Z -> Sipfw -> Prop) :
  let text := contents (RuleFilePath default_conf) s in
  unloaded s ->
  (forall ret s' chains, running s' chains ->
     registered s' = (if ret =? 0 then (true, true, true, true) else (false, false, false, false)) ->
     (chains = no_rules \/ exists rs, decode_file text = Some rs /\ chains = foldl add_rule no_rules rs) ->
     Q ret s') ->
  wp (SIPFW_Init fuel stack) Q s.
Proof.
  intros text (Eh & En & Er & Ecf & Emod & Econf & Esize) HQ. injection Emod as E1 E2 E3 E4.
  rewrite Ecf in Esize. fold text in Esize.
  apply fwp_bind, wp_modify, fwp_bind. unfold SIPFW_HandleConf. apply fwp_bind. unfold SIPFW_OpenFile.
  apply fwp_bind, wp_tick, fwp_bind, fwp_gets. cbn [disk next_tick set_tables]. rewrite Econf. set (s1 := next_tick _).
  assert (Hgo : wp (SIPFW_LoadRuleFile;; start_interfaces) Q s1); [|by case_cond; apply fwp_ret, fwp_ret].
  apply fwp_bind.
  assert (Hrest : forall s2 chains, memory_only s1 s2 -> rep s2 chains -> wf_chains chains ->
    (chains = no_rules \/ exists rs, decode_file text = Some rs /\ chains = foldl add_rule no_rules rs) ->
    wp start_interfaces Q s2).
  { intros s2 chains (h2 & n2 & r2 & t2 & k2 & ->) Hr2 Hwf2 Hch. apply wp_start_interfaces.
    - unfold registered. cbn. by rewrite E1, E2, E3, E4.
    - intros ret s' A1 A2 A3 A4 A5 _ A7. eapply HQ; [|done|done]. split_and!; [by eapply rep_same_memory|done|].
      rewrite A5. cbn [cf mem s1 next_tick set_tables]. rewrite Ecf. apply conf_ok_default. }
  assert (Hc1 : contents (RuleFilePath (cf s1)) s1 = text).
  { unfold s1. cbn [cf next_tick set_tables]. by rewrite Ecf. }
  eapply load_spec.
  - split_and!; done.
  - by rewrite Hc1.
  - intros ret s2 Hs2 Hr2 _. eapply Hrest; [done|done|apply wf_no_rules|by left].
  - rewrite Hc1. intros s2 rs Hs2 Hdec Hr2 Hwf2. eapply Hrest; [done|done|done|]. right. by exists rs.
Qed.

Lemma loaded_room text chains n :
  (chains = no_rules \/ exists rs, decode_file text = Some rs /\ chains = foldl add_rule no_rules rs) ->
  zlen text + n < 2 ^ 31 - 1 -> room n chains.
Proof.
  intros Hch Hn j. assert (Hrs : exists rs, zlen rs <= zlen text /\ chains = foldl add_rule no_rules rs).
  { destruct Hch as [->|(rs & Hdec & ->)].
    - exists []. split; [|done]. rewrite zlen_nil. apply zlen_nonneg.
    - exists rs. split; [|done]. apply decode_length in Hdec. unfold zlen. lia. }
  destruct Hrs as (rs & Hle & ->). pose proof (foldl_add_length no_rules rs j) as Hj.
  assert (chain_rules j no_rules = []) as E by (unfold chain_rules; by destruct (Z.to_nat j) as [|[|[|]]]).
  rewrite E, zlen_nil in Hj. lia.
Qed.

(** [C20] The life of the module on a system without /etc/sipfw.conf and with a file of rules and
    messages of less than 2^31 - 1 bytes, with any sequence of packets, commands, accesses to /proc
    and grace periods, and whatever allocations, reads and writes fail: starting registers all
    interfaces or none; no event ends in a fault or a loop; and unloading leaves no memory allocated
    and nothing registered. With a configuration file loading does not end ([conf_file_hangs]). *)
Theorem module_life fuel stack s es :
  unloaded s -> zlen (contents (RuleFilePath default_conf) s) + events_size es < 2 ^ 31 - 1 ->
  exists ret s1, SIPFW_Init fuel stack s = Ret ret s1
    /\ (ret <> 0 -> registered s1 = (false, false, false, false))
    /\ (ret = 0 -> registered s1 = (true, true, true, true)
        /\ exists s2 s3, run_events es s1 = Ret tt s2 /\ SIPFW_Exit s2 = Ret tt s3
            /\ heap s3 = ∅ /\ snaps s3 = ∅ /\ rcu s3 = [] /\ registered s3 = (false, false, false, false)).
Proof.
  intros Hun Hsize.
  assert (wp (SIPFW_Init fuel stack) (fun ret s1 =>
    registered s1 = (if ret =? 0 then (true, true, true, true) else (false, false, false, false))
    /\ wp (run_events es) (fun _ s2 => wp SIPFW_Exit (fun _ s3 =>
        heap s3 = ∅ /\ snaps s3 = ∅ /\ rcu s3 = [] /\ registered s3 = (false, false, false, false)) s2) s1) s) as Hwp.
  { eapply wp_init; [done|]. intros ret s1 chains Hrun Hreg Hch. split; [done|].
    eapply wp_run_events; [done|by eapply loaded_room|]. intros s2 c2 (Hr2 & _ & _). eapply wp_exit; [done|].
    intros s3 A1 A2 A3 A4 A5 A6 A7 _. split_and!; [done..|]. unfold registered. by rewrite A4, A5, A6, A7. }
  unfold wp in Hwp at 1. destruct (SIPFW_Init fuel stack s) as [ret s1| |]; [|done..]. exists ret, s1.
  destruct Hwp as [Hreg Hwp]. split_and!; [done| |].
  - intros Hr. by rewrite (proj2 (Z.eqb_neq _ _)) in Hreg.
  - intros ->. split; [done|]. unfold wp in Hwp at 1. destruct (run_events es s1) as [[] s2| |]; [|done..].
    unfold wp in Hwp. destruct (SIPFW_Exit s2) as [[] s3| |] eqn:Ex; [|done..]. exists s2, s3. by rewrite Ex.
Qed.

End module.
