(* ===== verification/SipfwTool.v ===== *)
(** The tool of the firewall (SIPFW/app/sipfw_u.c): options become the bytes of a command, which
    is sent to the module by netlink; the answers are printed.

    The options are those that [getopt_long] returns, with their arguments.  Replies are the
    results of [recvfrom]; when there are no more of them the tool waits. *)
From S2P Require Import Prelude KcpConv Frames Identity Sipfw SipfwFile SipfwNetlink.

(** ** The command in memory *)

Definition put (off : nat) (bs d : bytes) : bytes := take off d ++ bs ++ drop (off + length bs) d.
Definition put_int (off : nat) (v : Z) (d : bytes) : bytes := put off (le_encode 4 v) d.

(** Set bits of a byte. *)
Definition or_byte (off : nat) (mask : Z) (d : bytes) : bytes :=
  put off [to_byte (Z.lor (byte_val (c_char d off)) mask)] d.

Definition htons (z : Z) : Z := le_decode (reverse (le_encode 2 z)).
Definition ntohs (z : Z) : Z := htons z.

(** [strtol(s, NULL, 10)] of a 64-bit [long]. *)
Definition strtol10 (s : bytes) : Z :=
  let r := skip_space s in
  let '(neg, r) :=
    match r with
    | b :: r' =>
        if byte_val b =? 45 then (true, r') else if byte_val b =? 43 then (false, r') else (false, r)
    | [] => (false, r)
    end in
  let v := fst (scan_digits 0 r) in
  if neg : bool then Z.max (- 2 ^ 63) (- v) else Z.min i64_max v.

(** [SIPFW_OPT_CHAIN] and the others. *)
Inductive opt_kind := OPT_CHAIN | OPT_IP | OPT_PORT | OPT_PROTOCOL | OPT_STR | OPT_ACTION.

(** The first entry of a table whose name starts the text. *)
Fixpoint table_index (text : bytes) (i : Z) (table : list (bytes * nat * Z)) (default : Z) : Z :=
  match table with
  | [] => default
  | (name, len, _) :: table =>
      if strncmp_eq len text name then i else table_index text (i + 1) table default
  end.

Fixpoint table_value (text : bytes) (table : list (bytes * nat * Z)) (default : Z) : Z :=
  match table with
  | [] => default
  | (name, len, value) :: table => if strncmp_eq len name text then value else table_value text table default
  end.

(** [inet_addr] *)
Class ToolEnv := { inet_addr : bytes -> Z }.

Section tool.
Context `{ToolEnv}.

Definition SIPFW_ParseOpt (opt : opt_kind) (text : bytes) (off : nat) (d : bytes) : bytes :=
  match opt with
  | OPT_CHAIN => put_int off (table_index text 0 sipfw_chain_name SIPFW_CHAIN_ALL) d
  | OPT_ACTION => put_int off (table_index text 0 sipfw_action_name (-1)) d
  | OPT_IP => put_int off (inet_addr text) d
  | OPT_PORT => put_int off (htons (match strtoul10 text with Some (v, _) => v | None => 0 end)) d
  | OPT_PROTOCOL => put_int off (table_value text sipfw_protocol_name 0) d
  | OPT_STR =>
      let d := put off (replicate 8 x00) d in
      if (length text <? 8)%nat then put off text d else d
  end.

(** [l_opt_arg && l_opt_arg[0] != ':'] *)
Definition with_arg (arg : option bytes) (k : bytes -> bytes) (d : bytes) : bytes :=
  match arg with
  | Some text => if bool_decide (c_char text 0 = x3a) then d else k text
  | None => d
  end.

(** One option; [None] for [return -1]. *)
Definition parse_option (c : byte) (arg : option bytes) (d : bytes) : option bytes :=
  let opt kind off := Some (with_arg arg (fun text => SIPFW_ParseOpt kind text off d) d) in
  let command cmd :=
    let d := put_int opt_command cmd d in
    Some (with_arg arg (fun text => SIPFW_ParseOpt OPT_CHAIN text opt_chain d) d) in
  let flags mask := Some (or_byte (opt_addtion + 1) mask (put (opt_addtion + 2) [x01] d)) in
  match c with
  | x73 (* s *) => opt OPT_IP opt_source
  | x64 (* d *) => opt OPT_IP opt_dest
  | x6d (* m *) => opt OPT_PORT opt_sport
  | x6e (* n *) => opt OPT_PORT opt_dport
  | x70 (* p *) => opt OPT_PROTOCOL opt_protocol
  | x4c (* L *) => command SIPFW_CMD_LIST
  | x46 (* F *) => command SIPFW_CMD_FLUSH
  | x41 (* A *) => command SIPFW_CMD_APPEND
  | x49 (* I *) => command SIPFW_CMD_INSERT
  | x44 (* D *) => command SIPFW_CMD_DELETE
  | x52 (* R *) => command SIPFW_CMD_REPLACE
  | x69 (* i *) =>
      match arg with
      | Some text =>
          if bool_decide (c_char text 0 = x3a) then Some d
          else if (8 <=? length text)%nat then None
          else Some (SIPFW_ParseOpt OPT_STR text opt_ifname d)
      | None => Some d
      end
  | x6a (* j *) => opt OPT_ACTION opt_action
  | x79 (* y *) => flags 2
  | x72 (* r *) => flags 4
  | x6b (* k *) => flags 18
  | x66 (* f *) => flags 1
  | x75 (* u *) => Some (with_arg arg (fun text => put_int opt_number (strtol10 text) d) d)
  | _ => Some d
  end.

Fixpoint parse_options (opts : list (byte * option bytes)) (d : bytes) : option bytes :=
  match opts with
  | [] => Some d
  | (c, arg) :: opts => d ← parse_option c arg d; parse_options opts d
  end.

(** The values before the options. *)
Definition init_opts (d : bytes) : bytes :=
  put opt_ifname (replicate 8 x00)
    (put_int opt_number (-1) (put_int opt_action (-1) (put_int opt_chain (-1) (put_int opt_protocol 0
      (put_int opt_dport 0 (put_int opt_dest 0 (put_int opt_sport 0 (put_int opt_source 0
        (put_int opt_command (-1) d))))))))).

Definition SIPFW_ParseCommand (opts : list (byte * option bytes)) (d : bytes) : option bytes :=
  parse_options opts (init_opts d).

(** The command, with the chain completed; [None] for [-1]. *)
Definition SIPFW_JudgeCommand (d : bytes) : option bytes :=
  let cmd := v_int opt_command d in
  let chain := v_int opt_chain d in
  let number := v_int opt_number d in
  let action := v_int opt_action d in
  let some_chain := negb ((SIPFW_CHAIN_NUM <=? chain) || (chain <? 0)) in
  let any_chain :=
    let d := if chain =? -1 then put_int opt_chain SIPFW_CHAIN_ALL d else d in
    if (SIPFW_CHAIN_NUM <? v_int opt_chain d) || (v_int opt_chain d <? 0) then None else Some d in
  let placed := some_chain && negb (number =? -1) && (0 <=? action) && (action <? SIPFW_ACTION_NUM) in
  if cmd =? SIPFW_CMD_APPEND then if some_chain && negb (action =? -1) then Some d else None
  else if cmd =? SIPFW_CMD_DELETE then if some_chain then Some d else None
  else if cmd =? SIPFW_CMD_FLUSH then any_chain
  else if cmd =? SIPFW_CMD_INSERT then if placed then Some d else None
  else if cmd =? SIPFW_CMD_LIST then any_chain
  else if cmd =? SIPFW_CMD_REPLACE then if placed then Some d else None
  else None.

(** ** Messages *)

(** What [sendto] is given. *)
Definition SIPFW_NLSend (pid : Z) (buf : bytes) (type : Z) : option bytes :=
  if (sizeof_cmd_opts <? length buf)%nat then None
  else Some (le_encode 4 (16 + zlen buf) ++ le_encode 2 type ++ le_encode 2 0 ++ le_encode 4 0
             ++ le_encode 4 pid ++ buf).

(** The message of the handler of SIGINT, before the program exits with 0. *)
Definition sig_int (pid : Z) : bytes :=
  le_encode 4 16 ++ le_encode 2 SIPFW_MSG_CLOSE ++ le_encode 2 0 ++ le_encode 4 0 ++ le_encode 4 pid.

Inductive recv := RecvOk (d : bytes) | RecvErr.

(** [struct packet_u message]: a message that is received overwrites its start. *)
Definition sizeof_packet : nat := 264.
Definition receive (d message : bytes) : bytes := put 0 (take sizeof_packet d) message.

(** How the tool ends: it exits, or waits for a message, with what it has printed. *)
Inductive tool_end := Exited (code : Z) (out : bytes) | Waiting (out : bytes).

Definition name_at (table : list (bytes * nat * Z)) (i : Z) : bytes :=
  match table !! Z.to_nat i with Some (name, _, _) => name | None => [] end.

Definition tab : bytes := [x09].
Definition list_title (chain : Z) : bytes :=
  str "CHAIN " ++ name_at sipfw_chain_name chain ++ str " Rules" ++ [x0a]
  ++ str "ACTION" ++ tab ++ str "SOURCE" ++ tab ++ str "SPORT" ++ tab ++ str "DEST" ++ tab ++ tab ++ str "DPORT"
  ++ tab ++ str "PROTO" ++ [x0a].

Definition list_line (r : sipfw_rules) : bytes :=
  (if (-1 <? r_action r) && (r_action r <? SIPFW_ACTION_NUM) then name_at sipfw_action_name (r_action r)
   else str "NOTSET")
  ++ tab ++ print_ip (r_source r) ++ tab ++ print_int 0 (ntohs (r_sport r))
  ++ tab ++ print_ip (r_dest r) ++ tab ++ print_int 0 (ntohs (r_dport r))
  ++ tab ++ print_int 0 (r_protocol r) ++ [x0a].

(** The loop over [count] rules; [chain_org] is the chain of the last title. *)
Fixpoint SIPFW_NLRecvRuleList (recvs : list recv) (count : Z) (message : bytes) (chain_org : Z) (out : bytes)
    : tool_end :=
  if count <=? 0 then Exited 0 out else
  match recvs with
  | [] => Waiting out
  | RecvErr :: recvs => SIPFW_NLRecvRuleList recvs (count - 1) message chain_org out
  | RecvOk d :: recvs =>
      let message := receive d message in
      let r := SIPFW_RuleFromRecord (sub_bytes 16 sizeof_record message) in
      let chain := wrap 8 (r_chain r) in
      if chain =? chain_org then SIPFW_NLRecvRuleList recvs (count - 1) message chain_org (out ++ list_line r)
      else if SIPFW_CHAIN_NUM <=? chain then SIPFW_NLRecvRuleList recvs (count - 1) message chain_org out
      else SIPFW_NLRecvRuleList recvs (count - 1) message chain (out ++ list_title chain ++ list_line r)
  end.

Definition SIPFW_DisplayOpts (d : bytes) : bytes :=
  let cmd := v_uint opt_command d in
  str "command:" ++ (if cmd <? SIPFW_CMD_NUM then name_at sipfw_command_name cmd else str "UNKNOWN") ++ [x0a]
  ++ str "source IP:" ++ print_ip (v_uint opt_source d) ++ [x0a]
  ++ str "Dest IP:" ++ print_ip (v_uint opt_dest d) ++ [x0a]
  ++ str "sport : " ++ print_int 0 (ntohs (v_uint opt_sport d)) ++ [x0a]
  ++ str "dport: " ++ print_int 0 (ntohs (v_uint opt_dport d)) ++ [x0a]
  ++ str "proto: " ++ print_int 0 (v_uint opt_protocol d) ++ [x0a]
  ++ str "ifname:" ++ c_string (v_str opt_ifname d) ++ [x0a].

(** The values [main] sets before the options. *)
Definition main_opts : bytes :=
  put_int opt_sport (-1) (put_int opt_source 0 (put_int opt_number (-1) (put_int opt_protocol 0
    (put_int opt_dport (-1) (put_int opt_dest 0 (put_int opt_command (-1) (put_int opt_chain (-1)
      (put_int opt_addtion 0 (put_int opt_action (-1) (replicate sizeof_cmd_opts x00)))))))))).

(** The command of the options, if it is sent. *)
Definition tool_command (opts : list (byte * option bytes)) : option bytes :=
  d ← SIPFW_ParseCommand opts main_opts; SIPFW_JudgeCommand d.

(** The program: [socket_ok] and [sent_ok] are the results of [SIPFW_NLCreate] and [sendto].  The
    result is the message that was sent and how the program ends. *)
Definition tool_main (opts : list (byte * option bytes)) (pid : Z) (socket_ok sent_ok : bool) (recvs : list recv)
    : option bytes * tool_end :=
  match tool_command opts with
  | None => (None, Exited (-1) [])
  | Some d =>
      let out := SIPFW_DisplayOpts d in
      if negb socket_ok then (None, Exited (-1) out) else
      match SIPFW_NLSend pid d SIPFW_MSG_PID with
      | None => (None, Exited (-1) out)
      | Some msg =>
          if negb sent_ok then (None, Exited (-1) out) else
          let message := put 0 msg (replicate sizeof_packet x00) in
          (Some msg,
           match recvs with
           | [] => Waiting out
           | RecvErr :: _ => Exited (-1) out
           | RecvOk reply :: recvs =>
               if v_uint opt_command d =? SIPFW_CMD_LIST then
                 if (0 <? length reply)%nat then
                   let message := receive reply message in
                   SIPFW_NLRecvRuleList recvs (v_uint 16 message) message SIPFW_CHAIN_NUM out
                 else Exited (-1) out
               else Exited 0 out
           end)
      end
  end.

End tool.
