(* ===== verification/SipfwToolProofs.v ===== *)
(** The tool and the module agree: a command the tool sends is understood and answered, and the
    rule on the command line is the rule in the chain. *)
From S2P Require Import Prelude KcpConv Frames Identity Sipfw SipfwHeap SipfwRules SipfwProofs SipfwFile SipfwLoad SipfwNetlink SipfwNetlinkProofs SipfwTool.

(** ** Fields of a command *)

Lemma length_put off bs d : (off + length bs <= length d)%nat -> length (put off bs d) = length d.
Proof. intros Hl. unfold put. rewrite !length_app, length_take, length_drop. lia. Qed.

Lemma sub_put_eq off n bs d :
  (off + length bs <= length d)%nat -> length bs = n -> sub_bytes off n (put off bs d) = bs.
Proof.
  intros Hl <-. unfold sub_bytes, put. rewrite drop_app_ge by (rewrite length_take; lia).
  rewrite length_take, Nat.min_l, Nat.sub_diag, drop_0 by lia. apply take_app_length.
Qed.

Lemma sub_put_ne off n off' bs d :
  (off' + length bs <= length d)%nat -> (off + n <= off' \/ off' + length bs <= off)%nat ->
  sub_bytes off n (put off' bs d) = sub_bytes off n d.
Proof.
  intros Hl Hdis. unfold sub_bytes, put. destruct Hdis as [Hdis|Hdis].
  - rewrite drop_app_le by (rewrite length_take; lia). rewrite take_app_le by (rewrite length_drop, length_take; lia).
    rewrite <- (take_drop off' d) at 2. rewrite (drop_app_le (take off' d)) by (rewrite length_take; lia).
    by rewrite take_app_le by (rewrite length_drop, length_take; lia).
  - rewrite app_assoc, drop_app_ge by (rewrite length_app, length_take; lia). rewrite drop_drop, length_app, length_take.
    do 2 f_equal. lia.
Qed.

Lemma int_put_eq off v d :
  (off + 4 <= length d)%nat -> - 2 ^ 31 <= v < 2 ^ 31 -> v_int off (put_int off v d) = v.
Proof.
  intros Hl Hv. unfold v_int, v_uint, put_int.
  rewrite sub_put_eq by (rewrite ?length_le_encode; lia). rewrite le_decode_encode.
  change (256 ^ Z.of_nat 4) with (2 ^ 32). unfold int32, wrap. rewrite Z.add_mod_idemp_l by lia.
  rewrite Z.mod_small by lia. lia.
Qed.

Lemma uint_put_eq off v d : (off + 4 <= length d)%nat -> fits 32 v -> v_uint off (put_int off v d) = v.
Proof.
  intros Hl Hv. unfold v_uint, put_int. rewrite sub_put_eq by (rewrite ?length_le_encode; lia). by apply le_roundtrip.
Qed.

Lemma table_index_range text i table default :
  table_index text i table default = default \/ i <= table_index text i table default < i + zlen table.
Proof.
  revert i. induction table as [|[[name len] v] table IH]; intros i; cbn [table_index]; [by left|].
  rewrite zlen_cons. pose proof (zlen_nonneg table). case_cond; [right; lia|]. destruct (IH (i + 1)); [by left|right; lia].
Qed.

(** The fields the checks are about. *)
Record opts_ok (d : bytes) : Prop := mkOptsOk {
  ok_length : length d = sizeof_cmd_opts;
  ok_action : -1 <= v_int opt_action d < SIPFW_ACTION_NUM;
  ok_chain : -1 <= v_int opt_chain d <= SIPFW_CHAIN_ALL;
}.

(** The field at [off] is not the action or the chain. *)
Definition elsewhere (off n : nat) : Prop :=
  (off + n <= sizeof_cmd_opts)%nat /\ (off + n <= opt_action \/ opt_action + 4 <= off)%nat
  /\ (off + n <= opt_chain \/ opt_chain + 4 <= off)%nat.

Lemma opts_ok_put off bs d : opts_ok d -> elsewhere off (length bs) -> opts_ok (put off bs d).
Proof.
  intros [H1 H2 H3] (Hl & Ha & Hc). unfold v_int, v_uint in *. split.
  - rewrite length_put; lia.
  - unfold v_int, v_uint. rewrite sub_put_ne by lia. done.
  - unfold v_int, v_uint. rewrite sub_put_ne by lia. done.
Qed.

(** From [Some x = Some d']. *)
Ltac some_eq := let E := fresh in intros E; apply (inj Some) in E; subst.

Ltac fixed_field := unfold elsewhere, sizeof_cmd_opts, opt_command, opt_source, opt_dest, opt_sport, opt_dport,
  opt_protocol, opt_chain, opt_ifname, opt_action, opt_addtion, opt_number; simpl length;
  rewrite ?length_le_encode, ?length_replicate; lia.

Lemma opts_ok_action v d : opts_ok d -> -1 <= v < SIPFW_ACTION_NUM -> opts_ok (put_int opt_action v d).
Proof.
  intros [H1 H2 H3] Hv. unfold SIPFW_ACTION_NUM in Hv. unfold sizeof_cmd_opts in H1. split.
  - unfold put_int. rewrite length_put; [done|]. rewrite length_le_encode, H1. unfold opt_action. lia.
  - rewrite int_put_eq; [done| |lia]. rewrite H1. unfold opt_action. lia.
  - unfold v_int, v_uint, put_int in *. rewrite sub_put_ne; [done|..]; rewrite length_le_encode, ?H1;
      unfold opt_action, opt_chain; lia.
Qed.

Lemma opts_ok_chain v d : opts_ok d -> -1 <= v <= SIPFW_CHAIN_ALL -> opts_ok (put_int opt_chain v d).
Proof.
  intros [H1 H2 H3] Hv. unfold SIPFW_CHAIN_ALL in Hv. unfold sizeof_cmd_opts in H1. split.
  - unfold put_int. rewrite length_put; [done|]. rewrite length_le_encode, H1. unfold opt_chain. lia.
  - unfold v_int, v_uint, put_int in *. rewrite sub_put_ne; [done|..]; rewrite length_le_encode, ?H1;
      unfold opt_action, opt_chain; lia.
  - rewrite int_put_eq; [done| |lia]. rewrite H1. unfold opt_chain. lia.
Qed.

Lemma opts_ok_int off v d : opts_ok d -> elsewhere off 4 -> opts_ok (put_int off v d).
Proof. intros Hd He. apply opts_ok_put; [done|]. by rewrite length_le_encode. Qed.

Section tool.
Context `{ToolEnv}.

Lemma opts_ok_parse kind text off d :
  opts_ok d ->
  match kind with OPT_CHAIN => off = opt_chain | OPT_ACTION => off = opt_action
  | OPT_STR => off = opt_ifname | _ => elsewhere off 4 end ->
  opts_ok (SIPFW_ParseOpt kind text off d).
Proof.
  intros Hd Hoff. destruct kind; cbn [SIPFW_ParseOpt].
  - subst. apply opts_ok_chain; [done|]. unfold SIPFW_CHAIN_ALL.
    destruct (table_index_range text 0 sipfw_chain_name 3) as [->|Hr]; [lia|].
    change (zlen sipfw_chain_name) with 3 in Hr. lia.
  - by apply opts_ok_int.
  - by apply opts_ok_int.
  - by apply opts_ok_int.
  - subst. assert (Hz : opts_ok (put opt_ifname (replicate 8 x00) d)) by (apply opts_ok_put; [done|fixed_field]).
    destruct (Nat.ltb_spec (length text) 8); [|done]. apply opts_ok_put; [done|].
    unfold elsewhere, opt_ifname, opt_action, opt_chain, sizeof_cmd_opts. lia.
  - subst. apply opts_ok_action; [done|]. unfold SIPFW_ACTION_NUM.
    destruct (table_index_range text 0 sipfw_action_name (-1)) as [->|Hr]; [lia|].
    change (zlen sipfw_action_name) with 6 in Hr. lia.
Qed.

Lemma opts_ok_with_arg arg k d : opts_ok d -> (forall text, opts_ok (k text)) -> opts_ok (with_arg arg k d).
Proof. intros Hd Hk. destruct arg as [text|]; cbn [with_arg]; [|done]. case_bool_decide; [done|apply Hk]. Qed.

Lemma opts_ok_option c arg d d' : opts_ok d -> parse_option c arg d = Some d' -> opts_ok d'.
Proof.
  intros Hd. unfold parse_option.
  assert (Hcmd : forall cmd, opts_ok (put_int opt_command cmd d)) by (intros cmd; apply opts_ok_int; [done|fixed_field]).
  assert (Hflags : forall mask, opts_ok (or_byte (opt_addtion + 1) mask (put (opt_addtion + 2) [x01] d))).
  { intros mask. apply opts_ok_put; [apply opts_ok_put; [done|fixed_field]|fixed_field]. }
  destruct c; try (by some_eq);
    try (some_eq; by apply Hflags);
    try (some_eq; apply opts_ok_with_arg; [done|]; intros text; apply opts_ok_parse; [done|];
         cbv beta iota; first [reflexivity|fixed_field]);
    try (some_eq; apply opts_ok_with_arg; [apply Hcmd|]; intros text; apply opts_ok_parse; [apply Hcmd|reflexivity]);
    try (some_eq; apply opts_ok_with_arg; [done|]; intros text; apply opts_ok_int; [done|fixed_field]).
  destruct arg as [text|]; [|by some_eq]. case_bool_decide; [by some_eq|]. case_cond; [done|].
  some_eq. by apply opts_ok_parse.
Qed.

Lemma opts_ok_options opts d d' : opts_ok d -> parse_options opts d = Some d' -> opts_ok d'.
Proof.
  revert d. induction opts as [|[c arg] opts IH]; intros d Hd; cbn [parse_options]; [by some_eq|].
  destruct (parse_option c arg d) as [d1|] eqn:E; [|done]. apply IH. by eapply opts_ok_option.
Qed.

Lemma opts_ok_init d : opts_ok d -> opts_ok (init_opts d).
Proof.
  intros Hd. unfold init_opts. apply opts_ok_put; [|fixed_field]. apply opts_ok_int; [|fixed_field].
  apply opts_ok_action; [|unfold SIPFW_ACTION_NUM; lia]. apply opts_ok_chain; [|unfold SIPFW_CHAIN_ALL; lia].
  repeat (apply opts_ok_int; [|fixed_field]). done.
Qed.

Lemma opts_ok_main : opts_ok main_opts.
Proof. split; by vm_compute. Qed.

(** What the module needs to know of a command that is sent. *)
Record command_ok (d : bytes) : Prop := mkCommandOk {
  cmd_length : length d = sizeof_cmd_opts;
  cmd_accepted : action_refused d = false;
  cmd_chains : v_int opt_command d = SIPFW_CMD_LIST -> exists cs, chain_range (v_int opt_chain d) = Some cs;
}.

Lemma chain_range_some c : 0 <= c <= SIPFW_CHAIN_ALL -> exists cs, chain_range c = Some cs.
Proof.
  unfold chain_range, bad_chain, SIPFW_CHAIN_ALL, SIPFW_CHAIN_NUM. intros Hc. case_cond; [by eexists|]. bool_norm.
  rewrite (proj2 (Z.ltb_ge c 0)), (proj2 (Z.leb_gt 3 c)) by lia. simpl. by eexists.
Qed.

(** The chain of [FLUSH] and [LIST] is completed. *)
Lemma any_chain_ok d :
  opts_ok d -> cmd_is (v_int opt_command d) [SIPFW_CMD_APPEND; SIPFW_CMD_INSERT; SIPFW_CMD_REPLACE] = false ->
  let d1 := if v_int opt_chain d =? -1 then put_int opt_chain SIPFW_CHAIN_ALL d else d in
  ((SIPFW_CHAIN_NUM <? v_int opt_chain d1) || (v_int opt_chain d1 <? 0)) = false -> command_ok d1.
Proof.
  intros Hd Hcmd d1 Hc. bool_norm. assert (Hd1 : opts_ok d1).
  { subst d1. case_cond; [|done]. apply opts_ok_chain; [done|]. unfold SIPFW_CHAIN_ALL. lia. }
  assert (Hsame : v_int opt_command d1 = v_int opt_command d).
  { subst d1. case_cond; [|done]. unfold v_int, v_uint, put_int. rewrite sub_put_ne; [done|..];
      rewrite length_le_encode, ?(ok_length _ Hd); unfold sizeof_cmd_opts, opt_chain, opt_command; lia. }
  split.
  - by apply ok_length.
  - unfold action_refused. by rewrite Hsame, Hcmd.
  - intros _. apply chain_range_some. unfold SIPFW_CHAIN_ALL, SIPFW_CHAIN_NUM in *. lia.
Qed.

Lemma judge_ok d d' : opts_ok d -> SIPFW_JudgeCommand d = Some d' -> command_ok d'.
Proof.
  intros Hd. pose proof (ok_action _ Hd) as Ha. unfold SIPFW_JudgeCommand. set (cmd := v_int opt_command d).
  assert (Hplain : cmd <> SIPFW_CMD_LIST -> 0 <= v_int opt_action d -> command_ok d).
  { intros Hc Hpos. split; [by apply ok_length| |done]. unfold action_refused.
    rewrite (proj2 (Z.ltb_ge _ 0)), (proj2 (Z.leb_gt _ _)) by lia. apply andb_false_r. }
  assert (Hany : cmd_is cmd [SIPFW_CMD_APPEND; SIPFW_CMD_INSERT; SIPFW_CMD_REPLACE] = false ->
    (let d1 := if v_int opt_chain d =? -1 then put_int opt_chain SIPFW_CHAIN_ALL d else d in
     if (SIPFW_CHAIN_NUM <? v_int opt_chain d1) || (v_int opt_chain d1 <? 0) then None else Some d1) = Some d' ->
    command_ok d').
  { intros Hc. cbv zeta. destruct ((SIPFW_CHAIN_NUM <? _) || _) eqn:E; [done|]. some_eq.
    by apply any_chain_ok. }
  destruct (Z.eqb_spec cmd SIPFW_CMD_APPEND) as [E|_].
  { case_cond; [|done]. some_eq. bool_norm. apply Hplain; [by rewrite E|lia]. }
  destruct (Z.eqb_spec cmd SIPFW_CMD_DELETE) as [E|_].
  { case_cond; [|done]. some_eq. split; [by apply ok_length|unfold action_refused; fold cmd; by rewrite E|].
    fold cmd. by rewrite E. }
  destruct (Z.eqb_spec cmd SIPFW_CMD_FLUSH) as [E|_]; [apply Hany; by rewrite E|].
  destruct (Z.eqb_spec cmd SIPFW_CMD_INSERT) as [E|_].
  { case_cond; [|done]. some_eq. bool_norm. apply Hplain; [by rewrite E|lia]. }
  destruct (Z.eqb_spec cmd SIPFW_CMD_LIST) as [E|_]; [apply Hany; by rewrite E|].
  destruct (Z.eqb_spec cmd SIPFW_CMD_REPLACE) as [E|_]; [|done].
  case_cond; [|done]. some_eq. bool_norm. apply Hplain; [by rewrite E|lia].
Qed.

Lemma tool_command_ok opts d : tool_command opts = Some d -> command_ok d.
Proof.
  unfold tool_command, SIPFW_ParseCommand. destruct (parse_options opts (init_opts main_opts)) as [d1|] eqn:E; [|done].
  apply judge_ok. eapply opts_ok_options; [|done]. apply opts_ok_init, opts_ok_main.
Qed.

End tool.

(** ** The message *)

Lemma send_message pid d msg :
  fits 32 pid -> length d = sizeof_cmd_opts -> SIPFW_NLSend pid d SIPFW_MSG_PID = Some msg ->
  nlmsg_len msg = 264 /\ nlmsg_type msg = SIPFW_MSG_PID /\ nlmsg_pid msg = pid /\ NLMSG_DATA msg = d
  /\ length msg = 264%nat.
Proof.
  intros Hpid Hlen. unfold SIPFW_NLSend, zlen. rewrite Hlen, Nat.ltb_irrefl. some_eq.
  set (l := le_encode 4 (16 + Z.of_nat sizeof_cmd_opts)). set (t := le_encode 2 SIPFW_MSG_PID).
  set (f := le_encode 2 0). set (q := le_encode 4 0). set (p := le_encode 4 pid). unfold sizeof_cmd_opts in *.
  assert (Hl : length l = 4%nat) by done. assert (Ht : length t = 2%nat) by done.
  assert (Hf : length f = 2%nat) by done. assert (Hq : length q = 4%nat) by done.
  assert (Hp : length p = 4%nat) by apply length_le_encode.
  assert (Hn : nlmsg_len (l ++ t ++ f ++ q ++ p ++ d) = 264) by (unfold nlmsg_len; by field).
  split_and!.
  - done.
  - unfold nlmsg_type. by field.
  - unfold nlmsg_pid. field. by apply le_roundtrip.
  - unfold NLMSG_DATA. rewrite Hn. rewrite !app_assoc. rewrite drop_app_length' by (rewrite !length_app; lia).
    apply take_ge. rewrite Hlen. vm_compute. lia.
  - rewrite !length_app. lia.
Qed.

(** ** The answers *)

(** The tool receives the messages: a header, the data and padding. *)
Definition delivered (ms : list nl_message) (recvs : list recv) : Prop :=
  Forall2 (fun m r => exists hdr pad, length hdr = 16%nat /\ r = RecvOk (hdr ++ m_data m ++ pad)) ms recvs.

Lemma length_receive d message : length message = sizeof_packet -> length (receive d message) = sizeof_packet.
Proof. intros Hl. unfold receive. rewrite length_put; [done|]. rewrite length_take. lia. Qed.

Lemma received_data n hdr data pad message :
  length message = sizeof_packet -> length hdr = 16%nat -> (n <= length data)%nat -> (16 + n <= sizeof_packet)%nat ->
  sub_bytes 16 n (receive (hdr ++ data ++ pad) message) = take n data.
Proof.
  intros Hm Hh Hd Hn. unfold receive, put, sub_bytes. rewrite take_0. simpl app at 1.
  set (d := hdr ++ data ++ pad). assert (Hl : (16 + n <= length (take sizeof_packet d))%nat).
  { unfold d. rewrite length_take, !length_app. lia. }
  rewrite drop_app_le by lia. rewrite take_app_le by (rewrite length_drop; lia).
  rewrite <- (take_app_le (drop 16 (take sizeof_packet d)) (drop sizeof_packet d) n) by (rewrite length_drop; lia).
  rewrite <- drop_app_le by lia. rewrite take_drop. unfold d. rewrite drop_app_length' by done. by apply take_app_le.
Qed.

(** What is printed of some rules after a title of [chain_org]. *)
Fixpoint printed (chain_org : Z) (rs : list sipfw_rules) : bytes :=
  match rs with
  | [] => []
  | r :: rs =>
      (if r_chain r =? chain_org then [] else list_title (r_chain r)) ++ list_line r ++ printed (r_chain r) rs
  end.

Definition in_some_chain (r : sipfw_rules) : Prop := exists i, wf_rule i r /\ (i < 3)%nat.

Lemma recv_rule_list pid rs recvs message chain_org out :
  length message = sizeof_packet -> Forall in_some_chain rs ->
  delivered (map (fun r => mkMessage pid SIPFW_MSG_RULE (rule_bytes r)) rs) recvs ->
  SIPFW_NLRecvRuleList recvs (zlen rs) message chain_org out = Exited 0 (out ++ printed chain_org rs).
Proof.
  revert recvs message chain_org out. induction rs as [|r rs IH]; intros recvs message chain_org out Hm Hwf Hd.
  { inversion Hd. simpl. by rewrite app_nil_r. }
  inversion Hd as [|? ? ? recvs' (hdr & pad & Hh & ->) Hd' E1 E2]; subst. clear Hd. inversion Hwf as [|? ? (i & Hr & Hi) Hrs]; subst.
  cbn [m_data]. rewrite zlen_cons. cbn [SIPFW_NLRecvRuleList]. pose proof (zlen_nonneg rs) as Hpos.
  rewrite (proj2 (Z.leb_gt _ 0)) by lia. pose proof (length_record _ _ Hr) as Hlr.
  rewrite received_data; [|done|done|unfold rule_bytes; rewrite length_app, Hlr; lia|unfold sizeof_record, sizeof_packet; lia].
  assert (Hrec : SIPFW_RuleFromRecord (take sizeof_record (rule_bytes r)) = r).
  { unfold rule_bytes. by rewrite <- Hlr, take_app_length, (record_roundtrip i r Hr Hi). }
  rewrite Hrec.
  pose proof (wf_chain _ _ Hr) as Hch. assert (Hw : wrap 8 (r_chain r) = r_chain r) by (apply wrap_id; unfold fits; lia).
  rewrite Hw. replace (1 + zlen rs - 1) with (zlen rs) by lia. cbn [printed].
  pose proof (length_receive (hdr ++ rule_bytes r ++ pad) message Hm) as Hm'.
  destruct (Z.eqb_spec (r_chain r) chain_org) as [<-|Hne].
  - rewrite (IH _ _ _ _ Hm' Hrs Hd'). by rewrite <- app_assoc.
  - rewrite (proj2 (Z.leb_gt _ _)) by (unfold SIPFW_CHAIN_NUM; lia). rewrite (IH _ _ _ _ Hm' Hrs Hd'). by rewrite <- !app_assoc.
Qed.

(** The chains with their titles. *)
Definition listing (chains : list (list sipfw_rules)) (cs : list Z) : bytes :=
  concat (map (fun i => match chain_rules i chains with
                        | [] => []
                        | rs => list_title i ++ concat (map list_line rs)
                        end) cs).

Lemma printed_same i rs rest :
  Forall (fun r => r_chain r = i) rs -> printed i (rs ++ rest) = concat (map list_line rs) ++ printed i rest.
Proof.
  induction rs as [|r rs IH]; intros Hf; [done|]. inversion Hf as [|? ? Hr Hrs]; subst. simpl. rewrite Z.eqb_refl.
  rewrite IH by done. by rewrite <- app_assoc.
Qed.

Lemma chain_of_rules i chains : wf_chains chains -> 0 <= i -> Forall (fun r => r_chain r = i) (chain_rules i chains).
Proof.
  intros Hwf Hi. eapply Forall_impl; [by apply wf_chain_rules|]. intros r Hr. rewrite (wf_chain _ _ Hr). lia.
Qed.

Lemma printed_listing chains cs chain_org :
  wf_chains chains -> Forall (fun i => bad_chain i = false) cs -> NoDup (chain_org :: cs) ->
  printed chain_org (rules_of chains cs) = listing chains cs.
Proof.
  intros Hwf. revert chain_org. induction cs as [|i cs IH]; intros chain_org Hok Hnd; [done|].
  inversion Hok as [|? ? Hi Hcs]; subst. apply chain_index in Hi as Hir. apply NoDup_cons in Hnd as [Hno Hnd].
  pose proof (chain_of_rules i chains Hwf ltac:(lia)) as Hch.
  unfold rules_of, listing. cbn [map concat]. fold (rules_of chains cs) (listing chains cs).
  destruct (chain_rules i chains) as [|r rs] eqn:E.
  - simpl. apply IH; [done|]. apply NoDup_cons. split; [set_solver|]. by apply NoDup_cons in Hnd as [_ ?].
  - inversion Hch as [|? ? Hr Hrs]; subst. cbn [app printed map concat].
    rewrite (proj2 (Z.eqb_neq _ _)) by set_solver. rewrite printed_same by done. rewrite IH by done. by rewrite <- !app_assoc.
Qed.

Section served.
Context `{KernelEnv} `{ToolEnv}.

Lemma recv_one fuel msg :
  NLMSG_OK msg = true -> (length msg <= Z.to_nat (NLMSG_ALIGN (nlmsg_len msg)))%nat ->
  recv_messages (S (S fuel)) msg = (handle_message msg;; mret tt).
Proof. intros Hok Hl. cbn [recv_messages]. by rewrite Hok, drop_ge. Qed.

(** A command of the tool is one message, which is carried out. *)
Lemma wp_tool_message pid d msg s (Q : unit -> Sipfw -> Prop) :
  fits 32 pid -> length d = sizeof_cmd_opts -> SIPFW_NLSend pid d SIPFW_MSG_PID = Some msg ->
  wp (SIPFW_NLDoAction d pid) (fun _ => Q tt) s -> wp (SIPFW_NLRecv msg) Q s.
Proof.
  intros Hpid Hlen Hsend Hwp. destruct (send_message pid d msg Hpid Hlen Hsend) as (Hn & Ht & Hp & Hd & Hl).
  assert (Hone : exists fuel, length msg = S fuel) by (destruct (length msg); [done|by eexists]).
  destruct Hone as [fuel Hfuel]. unfold SIPFW_NLRecv. rewrite Hfuel, recv_one.
  - unfold handle_message. rewrite Ht, Hn, Hp, Hd. apply fwp_bind, fwp_bind. eapply wp_mono; [exact Hwp|].
    intros x s' HQ. by apply fwp_ret, fwp_ret.
  - unfold NLMSG_OK, zlen. by rewrite Hn, Hl.
  - rewrite Hn, Hl. apply Nat.leb_le. by vm_compute.
Qed.

(** The module does nothing when the tool is interrupted. *)
Lemma sig_int_ignored pid s : SIPFW_NLRecv (sig_int pid) s = Ret tt s.
Proof.
  unfold sig_int. set (l := le_encode 4 16). set (t := le_encode 2 SIPFW_MSG_CLOSE). set (f := le_encode 2 0).
  set (q := le_encode 4 0). set (p := le_encode 4 pid).
  assert (Hl : length l = 4%nat) by done. assert (Ht : length t = 2%nat) by done.
  assert (Hp : length p = 4%nat) by apply length_le_encode.
  assert (Hlen : length (l ++ t ++ f ++ q ++ p) = 16%nat) by (rewrite !length_app; by rewrite Hp).
  assert (Hn : nlmsg_len (l ++ t ++ f ++ q ++ p) = 16) by (unfold nlmsg_len; by field).
  assert (Hty : nlmsg_type (l ++ t ++ f ++ q ++ p) = SIPFW_MSG_CLOSE) by (unfold nlmsg_type; by field).
  unfold SIPFW_NLRecv. rewrite Hlen. rewrite recv_one.
  - unfold handle_message. by rewrite Hty.
  - unfold NLMSG_OK, zlen. by rewrite Hn, Hlen.
  - rewrite Hn, Hlen. apply Nat.leb_le. by vm_compute.
Qed.

Lemma is_list d : (v_uint opt_command d =? SIPFW_CMD_LIST) = (v_int opt_command d =? SIPFW_CMD_LIST).
Proof.
  pose proof (le_decode_sub_fits opt_command 4 d) as Hf. fold (v_uint opt_command d) in Hf.
  change (8 * Z.of_nat 4) with 32 in Hf. unfold fits in Hf. unfold v_int, int32, wrap, SIPFW_CMD_LIST.
  apply eq_true_iff_eq. rewrite !Z.eqb_eq. split; intros E; [by rewrite E|].
  pose proof (Z.div_mod (v_uint opt_command d + 2 ^ 31) (2 ^ 32) ltac:(lia)).
  pose proof (Z.mod_pos_bound (v_uint opt_command d + 2 ^ 31) (2 ^ 32) ltac:(lia)). lia.
Qed.

(** What the tool prints after the command. *)
Definition answer_text (d : bytes) (chains : list (list sipfw_rules)) : bytes :=
  if v_int opt_command d =? SIPFW_CMD_LIST
  then listing chains (default [] (chain_range (v_int opt_chain d))) else [].

Lemma tool_sends opts d pid :
  tool_command opts = Some d -> exists msg, SIPFW_NLSend pid d SIPFW_MSG_PID = Some msg
    /\ forall reply recvs, tool_main opts pid true true (RecvOk reply :: recvs) =
      (Some msg, let out := SIPFW_DisplayOpts d in
        if v_int opt_command d =? SIPFW_CMD_LIST then
          if (0 <? length reply)%nat then
            let message := receive reply (put 0 msg (replicate sizeof_packet x00)) in
            SIPFW_NLRecvRuleList recvs (v_uint 16 message) message SIPFW_CHAIN_NUM out
          else Exited (-1) out
        else Exited 0 out).
Proof.
  intros Hd. pose proof (cmd_length _ (tool_command_ok _ _ Hd)) as Hlen. eexists. split.
  { unfold SIPFW_NLSend. by rewrite Hlen, Nat.ltb_irrefl. }
  intros reply recvs. unfold tool_main. rewrite Hd. cbn [negb]. unfold SIPFW_NLSend at 1.
  rewrite Hlen, Nat.ltb_irrefl. by rewrite is_list.
Qed.

(** The answers to a command that changes the rules end the tool. *)
Lemma tool_told opts d pid m recvs :
  tool_command opts = Some d -> v_int opt_command d <> SIPFW_CMD_LIST -> delivered [m] recvs ->
  (tool_main opts pid true true recvs).2 = Exited 0 (SIPFW_DisplayOpts d).
Proof.
  intros Hd Hc Hdel. destruct (tool_sends opts d pid Hd) as (msg & _ & Hmain).
  inversion Hdel as [|? ? ? ? (hdr & pad & Hh & ->) Hdel' E1 E2]; subst. rewrite Hmain. by rewrite (proj2 (Z.eqb_neq _ _)).
Qed.

(** The answers to a list are printed. *)
Lemma tool_lists opts d pid rs recvs :
  tool_command opts = Some d -> v_int opt_command d = SIPFW_CMD_LIST -> zlen rs < 2 ^ 32 ->
  Forall in_some_chain rs -> delivered (listed pid rs) recvs ->
  (tool_main opts pid true true recvs).2 = Exited 0 (SIPFW_DisplayOpts d ++ printed SIPFW_CHAIN_NUM rs).
Proof.
  intros Hd Hc Hlt Hwf Hdel. destruct (tool_sends opts d pid Hd) as (msg & Hmsg & Hmain).
  inversion Hdel as [|? ? ? recvs' (hdr & pad & Hh & ->) Hdel' E1 E2]; subst. rewrite Hmain, Hc. cbn [snd m_data]. cbv zeta.
  rewrite (proj2 (Nat.ltb_lt 0 _)) by (rewrite length_app; lia).
  assert (Hm : length (put 0 msg (replicate sizeof_packet x00)) = sizeof_packet).
  { apply length_put. unfold SIPFW_NLSend in Hmsg. case_cond_in Hmsg; [done|]. apply Nat.ltb_ge in E. revert Hmsg. some_eq.
    rewrite !length_app, !length_le_encode, length_replicate. unfold sizeof_packet, sizeof_cmd_opts in *. lia. }
  unfold v_uint. rewrite received_data; [|done|done|by rewrite length_le_encode|unfold sizeof_packet; lia].
  rewrite take_ge by (by rewrite length_le_encode). rewrite le_roundtrip by (split; [apply zlen_nonneg|done]).
  change (SIPFW_CMD_LIST =? SIPFW_CMD_LIST) with true. cbv iota. apply (recv_rule_list pid); [by apply length_receive|done|done].
Qed.

Lemma rules_in_chains chains cs :
  wf_chains chains -> Forall (fun i => bad_chain i = false) cs -> Forall in_some_chain (rules_of chains cs).
Proof.
  intros Hwf Hok. apply Forall_concat, Forall_map. eapply Forall_impl; [done|]. intros i Hi. simpl.
  apply chain_index in Hi. eapply Forall_impl; [by apply wf_chain_rules|]. intros r Hr. exists (Z.to_nat i). split; [done|lia].
Qed.

Lemma chain_range_listing chains c cs :
  wf_chains chains -> chain_range c = Some cs -> printed SIPFW_CHAIN_NUM (rules_of chains cs) = listing chains cs.
Proof.
  intros Hwf Hcs. pose proof (chain_range_ok _ _ Hcs) as Hok. apply printed_listing; [done|done|].
  unfold chain_range in Hcs. case_cond_in Hcs; [injection Hcs as <-; by apply (bool_decide_unpack _)|].
  case_cond_in Hcs; [done|]. injection Hcs as <-. apply chain_index in E0. unfold SIPFW_CHAIN_NUM.
  apply NoDup_cons. split; [|apply NoDup_singleton]. rewrite list_elem_of_singleton. lia.
Qed.

(** [C21] Every command line that the tool accepts is served, as long as all allocations of the
    module and all messages succeed ([netlink_reliable]) and the chains are of a size the counters
    hold: the tool sends one message, the module carries the command out and answers, and with these
    answers the tool does not wait for more but ends with 0; for a list it has printed the rules of
    the chains that were asked for, each chain under its title. *)
Theorem tool_is_served opts d pid s chains :
  rep s chains -> wf_chains chains -> small chains -> netlink_reliable -> fits 32 pid ->
  (forall cs, chain_range (v_int opt_chain d) = Some cs -> zlen (rules_of chains cs) < 2 ^ 32) ->
  tool_command opts = Some d ->
  exists msg s' ms, SIPFW_NLSend pid d SIPFW_MSG_PID = Some msg
    /\ SIPFW_NLRecv msg s = Ret tt s' /\ rep s' (command_spec true d chains).2 /\ sent s' = sent s ++ ms
    /\ forall recvs, delivered ms recvs ->
        (tool_main opts pid true true recvs).2 = Exited 0 (SIPFW_DisplayOpts d ++ answer_text d chains).
Proof.
  intros Hrep Hwf Hsmall Hnr Hpid Hlt Hd. destruct (tool_command_ok _ _ Hd) as [Hlen Hacc Hchain].
  destruct (tool_sends opts d pid Hd) as (msg & Hmsg & _). exists msg.
  cut (wp (SIPFW_NLRecv msg) (fun _ s' => rep s' (command_spec true d chains).2 /\ exists ms, sent s' = sent s ++ ms
    /\ forall recvs, delivered ms recvs ->
        (tool_main opts pid true true recvs).2 = Exited 0 (SIPFW_DisplayOpts d ++ answer_text d chains)) s).
  { unfold wp. destruct (SIPFW_NLRecv msg s) as [[] s'| |]; [|done..]. intros (? & ms & ? & ?). by exists s', ms. }
  eapply wp_tool_message; [done|done|done|]. unfold answer_text.
  destruct (Z.eqb_spec (v_int opt_command d) SIPFW_CMD_LIST) as [E|E].
  - destruct (Hchain E) as [cs Hcs]. eapply wp_mono; [by apply (wp_list s chains d pid cs), Hlt|].
    intros ret s' (_ & Hrep' & Hsent). unfold command_spec. rewrite E. split; [done|].
    eexists. split; [done|]. intros recvs Hdel. rewrite Hcs. cbn [default]. erewrite <- chain_range_listing by done.
    eapply tool_lists; [done|done|by apply Hlt| |done]. apply rules_in_chains; [done|]. by eapply chain_range_ok.
  - eapply wp_mono; [apply (wp_do_action s chains d pid); [done|done|done|lia]|].
    intros err s' (ms & Hrep' & _ & He & _ & _ & Hms). rewrite (Hms Hnr Hacc E) in He. destruct Hnr as [_ Hk]. split.
    + unfold chains_after, command_dropped in Hrep'. by rewrite Hacc, !Hk in Hrep'.
    + eexists. split; [by apply eff_sent in He|]. intros recvs Hdel. rewrite app_nil_r. by eapply tool_told.
Qed.

End served.
