(* ===== verification/SipfwDemo.v ===== *)
(** Runs of the firewall: a kernel and a C library for which the hypotheses hold, witnesses of
    the theorems, and runs that do not do what they should. *)
From S2P Require Import Prelude KcpConv Frames Identity Sipfw SipfwHeap SipfwRules SipfwProofs SipfwFile SipfwLoad SipfwNetlink SipfwNetlinkProofs SipfwMatch SipfwModule SipfwModuleProofs SipfwTool SipfwToolProofs.

Module SipfwDemo.

(** ** A kernel *)

Definition next_addr (used : gset addr) : addr := 1 + set_fold Z.max 0 used.

Lemma next_addr_fresh used : next_addr used ∉ used.
Proof.
  assert (Hall : forall a, a ∈ used -> a <= set_fold Z.max 0 used).
  { apply (set_fold_ind_L (fun m X => forall a : addr, a ∈ X -> a <= m)); [set_solver|].
    intros x X m _ IH a Ha. apply elem_of_union in Ha as [Ha|Ha]; [apply elem_of_singleton in Ha; subst; lia|].
    specialize (IH a Ha). lia. }
  intros Hin. specialize (Hall _ Hin). unfold next_addr in Hall. lia.
Qed.

Lemma no_errors (t : nat) e : IoAll = IoErr e -> Z.pos e <= 4095.
Proof. discriminate. Qed.

(** The calls from [n] on fail. *)
Definition kernel_until (n : nat) : KernelEnv :=
  {| kmem_addr := next_addr; kmem_addr_fresh := next_addr_fresh; kmem_ok := fun _ => true;
     vfs_open := fun _ => true; vfs_io := fun _ => IoAll; vfs_errno := no_errors; netlink_ok := fun _ => true;
     call_ok := fun t => (t <? n)%nat; real_seconds := fun _ => 0; time64_to_tm := fun _ _ => mkTm 126 0 1 0 0 0 |}.

#[local] Instance good_kernel : KernelEnv := kernel_until 1000.

(** Four decimal numbers, the first one in the lowest byte. *)
Fixpoint dotted (text : bytes) (cur shift : Z) : Z :=
  match text with
  | [] => cur * shift
  | b :: text =>
      if byte_val b =? 46 then cur * shift + dotted text 0 (256 * shift)
      else dotted text (10 * cur + (byte_val b - 48)) shift
  end.

#[local] Instance demo_tool : ToolEnv := {| inet_addr := fun text => dotted text 0 1 |}.

(** ** A module with three rules *)

Definition options (l : list (byte * bytes)) : list (byte * option bytes) := map (fun '(c, text) => (c, Some text)) l.
Definition command (l : list (byte * bytes)) : bytes := default [] (tool_command (options l)).

Definition drop_telnet : bytes :=
  command [(x41, str "INPUT"); (x73, str "10.0.0.7"); (x6e, str "23"); (x70, str "tcp"); (x6a, str "DROP")].
Definition accept_dns : bytes :=
  command [(x41, str "INPUT"); (x6e, str "53"); (x70, str "udp"); (x6a, str "ACCEPT")].
Definition drop_output : bytes := command [(x41, str "OUTPUT"); (x69, str "eth0"); (x6a, str "DROP")].

Definition demo_chains : list (list sipfw_rules) :=
  [[rule_of_opts drop_telnet; rule_of_opts accept_dns]; [rule_of_opts drop_output]; []].

Definition no_memory (files : gmap bytes bytes) : Sipfw :=
  mkSipfw ∅ ∅ [] (replicate 3 (mkList None None 0)) default_conf files [] false None false false 0.

Lemma no_memory_fresh files : fresh_module (no_memory files).
Proof. done. Qed.

Definition demo_files : gmap bytes bytes := {[str "/etc/sipfw.rules" := encode_chains demo_chains]}.
Definition demo_start : Sipfw := no_memory demo_files.

(** The module after its rules were loaded. *)
Definition demo : Sipfw := match SIPFW_LoadRuleFile demo_start with Ret _ s => s | _ => demo_start end.

Lemma good_memory : reliable.
Proof. by split_and!. Qed.

Lemma demo_text : contents (RuleFilePath (cf demo_start)) demo_start = encode_chains demo_chains.
Proof. by vm_compute. Qed.

Lemma demo_decodes : decode_file (encode_chains demo_chains) = Some (concat demo_chains).
Proof. by vm_compute. Qed.

Lemma demo_added : foldl add_rule no_rules (concat demo_chains) = demo_chains.
Proof. by vm_compute. Qed.

Lemma demo_rep : rep demo demo_chains /\ wf_chains demo_chains.
Proof.
  cut (wp SIPFW_LoadRuleFile (fun _ s' => rep s' demo_chains /\ wf_chains demo_chains) demo_start).
  { unfold demo, wp. by destruct (SIPFW_LoadRuleFile demo_start). }
  apply load_spec; [done|rewrite demo_text; by vm_compute|..].
  - intros ret s' _ _ Hnone. exfalso. rewrite demo_text, demo_decodes in Hnone. discriminate Hnone.
    + apply good_memory.
    + done.
    + by eexists.
  - intros s' rs _ Hrs Hrep Hwf. rewrite demo_text, demo_decodes in Hrs. apply (inj Some) in Hrs as <-.
    by rewrite demo_added in Hrep, Hwf.
Qed.

Lemma demo_chains_small : small demo_chains.
Proof. repeat constructor. Qed.

(** ** Witnesses *)

Lemma good_netlink : netlink_reliable.
Proof. by split. Qed.

Definition insert_second : list (byte * option bytes) :=
  options [(x49, str "INPUT"); (x75, str "2"); (x64, str "10.0.0.9"); (x6a, str "DROP")].
Definition insert_cmd : bytes := default [] (tool_command insert_second).

Lemma do_action_refines_witness :
  rep demo demo_chains /\ exists err s' ms, SIPFW_NLDoAction insert_cmd 42 demo = Ret err s'
    /\ action_done insert_cmd 42 demo demo_chains err s' ms.
Proof.
  split; [apply demo_rep|]. apply (do_action_refines demo demo_chains insert_cmd 42).
  - apply demo_rep.
  - apply demo_rep.
  - apply demo_chains_small.
  - apply Nat.leb_le. by vm_compute.
Defined.

Definition list_all : list (byte * option bytes) := [(x4c, None)].
Definition list_cmd : bytes := default [] (tool_command list_all).

Lemma tool_is_served_witness :
  rep demo demo_chains /\ tool_command list_all = Some list_cmd /\
  exists msg s' ms, SIPFW_NLSend 42 list_cmd SIPFW_MSG_PID = Some msg
    /\ SIPFW_NLRecv msg demo = Ret tt s' /\ rep s' (command_spec true list_cmd demo_chains).2 /\ sent s' = sent demo ++ ms
    /\ forall recvs, delivered ms recvs ->
        (tool_main list_all 42 true true recvs).2
          = Exited 0 (SIPFW_DisplayOpts list_cmd ++ answer_text list_cmd demo_chains).
Proof.
  split; [apply demo_rep|]. split; [by vm_compute|].
  apply (tool_is_served list_all list_cmd 42 demo demo_chains).
  - apply demo_rep.
  - apply demo_rep.
  - apply demo_chains_small.
  - apply good_netlink.
  - unfold fits. lia.
  - intros cs Hcs. assert (chain_range (v_int opt_chain list_cmd) = Some [0; 1; 2]) as E by (by vm_compute).
    rewrite E in Hcs. injection Hcs as <-. by vm_compute.
  - by vm_compute.
Defined.

(** What the list looks like. *)
Example demo_listing :
  answer_text list_cmd demo_chains =
    list_title 0
    ++ str "DROP" ++ tab ++ str "10.0.0.7" ++ tab ++ str "0" ++ tab ++ str "0.0.0.0" ++ tab ++ str "23" ++ tab ++ str "6" ++ [x0a]
    ++ str "ACCEPT" ++ tab ++ str "0.0.0.0" ++ tab ++ str "0" ++ tab ++ str "0.0.0.0" ++ tab ++ str "53" ++ tab ++ str "17" ++ [x0a]
    ++ list_title 1
    ++ str "DROP" ++ tab ++ str "0.0.0.0" ++ tab ++ str "0" ++ tab ++ str "0.0.0.0" ++ tab ++ str "0" ++ tab ++ str "0" ++ [x0a].
Proof. vm_compute. reflexivity. Qed.

(** A packet of 40 bytes from 10.0.0.7 to 10.0.0.1, port 23. *)
Definition packet (protocol : Z) : sk_buff :=
  mkSkb ([x45; x00; x00; x28; x00; x00; x00; x00; x40] ++ [to_byte protocol] ++ [x00; x00]
         ++ [x0a; x00; x00; x07; x0a; x00; x00; x01] ++ [x30; x39; x00; x17] ++ replicate 16 x00) 40 true 0.

Lemma apply_chain_verdict_witness :
  rep demo demo_chains /\
  exists s', SIPFW_ApplyChain (packet 6) None 0 demo = Ret (verdict (cf demo) (first_match (packet 6) None (chain_rules 0 demo_chains))) s'
    /\ rep s' demo_chains
    /\ cf s' = count_hit (cf demo) (first_match (packet 6) None (chain_rules 0 demo_chains))
    /\ (forall p, p <> LogFilePath (cf demo) -> disk s' !! p = disk demo !! p)
    /\ (first_match (packet 6) None (chain_rules 0 demo_chains) = None -> s' = demo).
Proof.
  split; [apply demo_rep|]. apply (apply_chain_verdict demo demo_chains (packet 6) None 0).
  - apply demo_rep.
  - reflexivity.
Defined.

Example telnet_dropped :
  first_match (packet 6) None (chain_rules 0 demo_chains) = Some (rule_of_opts drop_telnet)
  /\ verdict (cf demo) (Some (rule_of_opts drop_telnet)) = SIPFW_ACTION_DROP.
Proof. vm_compute. done. Qed.

Lemma headers_in_packet_witness :
  packet_payload (packet 6) = Some (drop 20 (skb_data (packet 6))) /\
  (sizeof_iphdr <= zlen (ip_hdr (packet 6)) /\ 20 <= ip_ihl (ip_hdr (packet 6)) * 4
   /\ transport_header (ip_protocol (ip_hdr (packet 6))) <= zlen (drop 20 (skb_data (packet 6)))
   /\ ip_hdr (packet 6) = take (Z.to_nat (ip_ihl (ip_hdr (packet 6)) * 4)) (ip_hdr (packet 6)) ++ drop 20 (skb_data (packet 6))).
Proof.
  split; [by vm_compute|]. apply (headers_in_packet (packet 6) (drop 20 (skb_data (packet 6)))).
  - by vm_compute.
  - by vm_compute.
Defined.

Definition demo_saved : Sipfw := match SIPFW_SaveRuleFile demo with Ret _ s => s | _ => demo end.

Lemma save_load_roundtrip_witness :
  SIPFW_SaveRuleFile demo = Ret 0 demo_saved /\
  exists s3, SIPFW_LoadRuleFile (no_memory (disk demo_saved)) = Ret 0 s3 /\ rep s3 demo_chains.
Proof.
  assert (Hsave : SIPFW_SaveRuleFile demo = Ret 0 demo_saved) by (by vm_compute).
  split; [exact Hsave|]. apply (save_load_roundtrip demo demo_chains demo_saved (no_memory (disk demo_saved))).
  - apply demo_rep.
  - apply demo_rep.
  - by vm_compute.
  - exact Hsave.
  - apply good_memory.
  - apply no_memory_fresh.
  - by vm_compute.
  - assert (RuleFilePath (cf demo) = str "/etc/sipfw.rules") as -> by (by vm_compute). reflexivity.
  - by vm_compute.
Defined.

Lemma load_all_or_nothing_witness :
  fresh_module demo_start /\
  exists ret s' chains, SIPFW_LoadRuleFile demo_start = Ret ret s' /\ rep s' chains /\ wf_chains chains
    /\ memory_only demo_start s'
    /\ (chains = no_rules
        \/ ret = 0 /\ exists rs, decode_file (contents (RuleFilePath (cf demo_start)) demo_start) = Some rs
             /\ chains = foldl add_rule no_rules rs).
Proof.
  split; [apply no_memory_fresh|]. apply (load_all_or_nothing demo_start).
  - apply no_memory_fresh.
  - rewrite demo_text. by vm_compute.
Defined.

Definition demo_events : list event :=
  [EvMessage (default [] (SIPFW_NLSend 42 insert_cmd SIPFW_MSG_PID)); EvPacket LocalIn (packet 6) None;
   EvInvalidWrite (str "1"); EvInfoRead 1024 0].

Lemma module_life_witness :
  unloaded demo_start /\
  exists ret s1, SIPFW_Init 10 [] demo_start = Ret ret s1
    /\ (ret <> 0 -> registered s1 = (false, false, false, false))
    /\ (ret = 0 -> registered s1 = (true, true, true, true)
        /\ exists s2 s3, run_events demo_events s1 = Ret tt s2 /\ SIPFW_Exit s2 = Ret tt s3
            /\ heap s3 = ∅ /\ snaps s3 = ∅ /\ rcu s3 = [] /\ registered s3 = (false, false, false, false)).
Proof.
  assert (Hun : unloaded demo_start).
  { by split_and!. }
  split; [exact Hun|]. apply (module_life 10 [] demo_start demo_events).
  - exact Hun.
  - by vm_compute.
Defined.

(** ** Runs that go wrong *)

(** With a configuration file the module does not start. *)
Lemma conf_file_hangs_witness :
  SIPFW_HandleConf 100 [] (no_memory {[str "/etc/sipfw.conf" := str "DefaultAction=DROP"]}) = Hang
  /\ SIPFW_Init 100 [] (no_memory {[str "/etc/sipfw.conf" := str "DefaultAction=DROP"]}) = Hang.
Proof. apply (conf_file_hangs 100 [] _ (str "DefaultAction=DROP")); reflexivity. Defined.

(** A rule for all packets does not match GRE. *)
Definition drop_all : bytes := command [(x41, str "INPUT"); (x6a, str "DROP")].

Lemma other_protocols_unmatched_witness :
  first_match (packet 47) None [rule_of_opts drop_all] = None
  /\ verdict default_conf (first_match (packet 47) None [rule_of_opts drop_all]) = DefaultAction default_conf.
Proof.
  apply (other_protocols_unmatched (packet 47) None [rule_of_opts drop_all] default_conf).
  - apply (bool_decide_unpack _). by vm_compute.
  - reflexivity.
Defined.

(** When a call fails at the start, the rules that were loaded stay in memory. *)
Example failed_start_leaks :
  match @SIPFW_Init (kernel_until 0) 10 [] demo_start with
  | Ret ret s => ret = -1 /\ registered s = (false, false, false, false) /\ size (heap s) = 3%nat /\ size (snaps s) = 2%nat
  | _ => False
  end.
Proof. vm_compute. done. Qed.

(** The state is cut to seven characters: INVALID has no newline. *)
Example invalid_read_cut :
  match SIPFW_ProcInvalidRead 64 0 (set_cf (mkConf 1 [] [] 0 1 0) demo) with
  | Ret (n, text) _ => n = 7 /\ text = str "INVALID"
  | _ => False
  end.
Proof. vm_compute. done. Qed.

(** Writes fail as on a full disk. *)
Lemma disk_full_errno (t : nat) e : IoErr 28 = IoErr e -> Z.pos e <= 4095.
Proof. intros [= <-]. lia. Qed.

Definition full_disk : KernelEnv :=
  {| kmem_addr := next_addr; kmem_addr_fresh := next_addr_fresh; kmem_ok := fun _ => true;
     vfs_open := fun _ => true; vfs_io := fun _ => IoErr 28; vfs_errno := disk_full_errno; netlink_ok := fun _ => true;
     call_ok := fun _ => true; real_seconds := fun _ => 0; time64_to_tm := fun _ _ => mkTm 126 0 1 0 0 0 |}.

(** The rules cannot be saved: the file is empty, the process is told that the command failed, and
    the new rule is in force. *)
Example failed_save_loses_file :
  match @SIPFW_NLDoAction full_disk drop_all 42 demo with
  | Ret ret s =>
      ret <> 0 /\ sent s = [mkMessage 42 SIPFW_MSG_FAILURE NLFAILRE]
      /\ disk s !! str "/etc/sipfw.rules" = Some [] /\ l_number <$> sipfw_tables s !! 0%nat = Some 3
  | _ => False
  end.
Proof. vm_compute. done. Qed.

(** A command with an action that does not exist is not answered. *)
Example bad_action_unanswered :
  match SIPFW_NLDoAction (put_int opt_action 9 drop_all) 42 demo with
  | Ret ret s => ret = - EINVAL /\ sent s = sent demo
  | _ => False
  end.
Proof. vm_compute. done. Qed.

(** The answer FAILURE to a list is taken for the number of rules, and the tool waits for them. *)
Example failed_list_waits :
  exists out, (tool_main list_all 42 true true [RecvOk (replicate 16 x00 ++ NLFAILRE)]).2 = Waiting out.
Proof. eexists. vm_compute. reflexivity. Qed.

(** A command that fails ends the tool like one that succeeds. *)
Example failure_exits_zero :
  exists out, (tool_main insert_second 42 true true [RecvOk (replicate 16 x00 ++ NLFAILRE)]).2 = Exited 0 out.
Proof. eexists. vm_compute. reflexivity. Qed.

(** Names are compared up to their length in the table, an unknown chain is all chains and an
    unknown protocol is any. *)
Example names_by_prefix :
  rule_of_opts (command [(x41, str "INPUTS"); (x70, str "sctp"); (x6a, str "DROPPED")]) = rule_of_opts drop_all
  /\ v_int opt_chain (command [(x46, str "INPT")]) = SIPFW_CHAIN_ALL.
Proof. vm_compute. done. Qed.

End SipfwDemo.
